(* ===== verification/_CoqProject ===== *)
-Q . S2P
Prelude.v
RustStr.v
Regex.v
DemoPatterns.v
HeaderTracker.v
Splitter.v
SplitterFacts.v
MergeFacts.v
RustFloat.v
Tokens.v
Profiler.v
ChunkSpec.v
Heading.v
Heuristic.v
Strategy.v
SourceTypes.v
TableGrid.v
StrReplace.v
NumText.v
Keywords.v
Batches.v
Policy.v
SourceContract.v
ContractFacts.v
ChunkerApi.v
Regions.v
Order.v
Rank.v
Recall.v
Selection.v
Evidence.v
BatchFacts.v
RerankFacts.v
RetrieveFacts.v
PolicyFacts.v
Providers.v
ProvidersFacts.v
Lexical.v
LexicalFacts.v
Linkify.v
LinkifyFacts.v
Pipeline.v
PipelineFacts.v
SemanticIndex.v
SemanticIndexFacts.v
Workflow.v
WorkflowFacts.v
Process.v
Jobs.v
Sse.v
SseFacts.v
SemanticRecall.v
SemanticRecallFacts.v
Retrieval.v
RetrievalFacts.v
Env.v
EnvFacts.v
DocReader.v
DocReaderFacts.v
Taxonomy.v
Wiki.v
WikiPages.v
WikiFacts.v
WikiQueueFacts.v
WikiRetractFacts.v
WikiFolderFacts.v
