(* ===== verification/Prelude.v ===== *)
(** * KnowledgeBrain: verification development (root file)

    KnowledgeBrain turns uploaded documents into chunks, derives summaries, questions, graph
    and wiki entries from them, and answers retrieval requests with validated evidence.
    This library models the deterministic core of that pipeline as Rocq functions translated
    from [src/crates/], and proves what makes the parts correct.  Paths below are relative to
    [src/crates/].

    ** Conventions

    - A Rust [String] is the list of its [char]s (scalar values as [Z]); byte offsets,
      slices and char boundaries are computed ([RustStr]).  A slice or index that Rust would
      panic on is [None].  [Result] is a sum or the [result] type; [?] is the monadic bind.
    - Machine integers are [Z], [N] or [nat] with the checks and wraps of the code written
      out; [usize] values that count characters or chunks held in memory are [nat].
    - Loops that are not structural carry fuel computed from the input, and the theorems
      state that this fuel is enough: a property never assumes that a function returned.
    - Third-party code is a parameter: regular expressions ([Regex], with the documented
      laws of a match), SHA-256, JSON decoding, image encoders and recognisers, decimals,
      UUID generation and printing, the clock.  The database is an explicit state; a
      transaction is a function on it.
    - Hash maps whose iteration order matters are lists in an arbitrary order, or [gmap]s
      whose values are seen through an arbitrary permutation; theorems quantify over it.
      Results of parallel workers are collected in an arbitrary order as well.
    - A language model is a function from the parts of its prompt to a text or an error.

    ** Files and the code they model

    Foundations: [Prelude] (lists, sorting, fuel, automation), [RustStr] (strings),
    [Regex] and [DemoPatterns] (patterns and one executable instance for the witnesses),
    [RustFloat] ([f64] through SpecFloat), [StrReplace] ([str::replace]), [NumText]
    (decimal numbers and ASCII classes in texts), [Batches] ([slice::chunks] and answers filed
    by index), [Order] ([Ordering] and stable sorts by a comparator).

    Chunking ([knowledge/src/chunker/]): [HeaderTracker] (header_tracker.rs), [Splitter]
    with [SplitterFacts] and [MergeFacts] (splitter.rs), [Tokens] (tokens.rs), [Profiler]
    (profiler.rs, patterns.rs, heading_hierarchy.rs), [Heading] and [Heuristic] (the two
    structural tiers), [Strategy] (strategy.rs, validator.rs), [ChunkerApi] (mod.rs).
    [ChunkSpec] states the contract of a tier as a class; the tiers are its instances and
    the strategy is proved against it.

    Parsed documents ([docparser/src/]): [SourceTypes] (types.rs), [TableGrid]
    (table_grid.rs), [SourceContract] and [ContractFacts] (source_contract.rs), and
    [Regions] (knowledge/src/enrichment/regions.rs).

    Retrieval ([knowledge/src/]): [Policy] (knowledge_retrieval.rs: the immutable revisions
    and policies, their validators, digests and frozen identities), [Rank] and [Recall]
    (knowledge_retrieval_pg/semantic_v2.rs: exact fusion of ranks, folding of the signals),
    [Selection] (mod.rs: the exact prefix and the hits), [Evidence] (rerank_v2.rs, the
    validator of knowledge_retrieval.rs and the body of [retrieve_v2]), [Lexical]
    (the evidence contract of schema 1 and its lexical retrieval), [Keywords] (index/mod.rs:
    the tokens of the keyword index), [Providers] (the clients of knowledge_index_v2.rs,
    semantic_v2.rs and rerank_v2.rs and the bounded bodies of http_v2.rs; a provider is any
    function from the calls so far to a response), [SemanticIndex] (knowledge_index_v2.rs and
    knowledge_index_v2/storage.rs: intents, keyword and vector sidecars, generations and the
    job, on a record of tables; its [step]s are the transactions of the program), [SemanticRecall]
    (the check of semantic_v2.rs before a recall, the channels and the references, over the same
    tables), [Retrieval] (mod.rs: the registry with its checks, the rows of the exact query, the
    semantic runtime and the retrievals with and without a frozen identity, composed of the
    others); their theorems are in [PolicyFacts], [BatchFacts], [RerankFacts], [RetrieveFacts],
    [LexicalFacts], [ProvidersFacts], [SemanticIndexFacts], [SemanticRecallFacts],
    [RetrievalFacts].

    Processing ([knowledge/src/]): [Pipeline] and [PipelineFacts] (status.rs, obs.rs,
    catalog/spans.rs), [Workflow] and [WorkflowFacts] (workflow.rs, workflow/lifecycle.rs and
    the other transactions that change the status of a document: the start and the end of a
    conversion of ingest.rs, catalog/document.rs, the end of a deletion of pipeline.rs), [Process] (process.rs), [Jobs]
    (formula.rs, job.rs and the plan of pipeline.rs).

    Wiki ([knowledge/src/wiki/]): [Linkify] and [LinkifyFacts] (linkify.rs), [Taxonomy]
    (taxonomy.rs: candidates, citations, page texts, folders of items), [Wiki] (mod.rs: the
    working set of a job with its two lanes of operations, claims, locks, tombstones and
    triggers), [WikiPages] (mod.rs: map, reduce, system pages, folders, the handlers
    [process_ingest] and [process_finalize], and the run of pipeline.rs around them).  The
    store is one record; a handler takes it and returns it, with the error it may return.
    [WikiFacts] has the frame lemmas and the reduction, [WikiQueueFacts] the accounting of a
    round, [WikiRetractFacts] the removal of a document, [WikiFolderFacts] the folders.

    Boundaries: [Sse] and [SseFacts] (knowledge/src/models/sse.rs and the stream reader and
    retry loop of models/http.rs), [Env] and [EnvFacts] (platform/src/env.rs), [DocReader]
    and [DocReaderFacts] (docparser/src/grpc.rs: the units, the stream and the errors of the
    parsing service; the transport says what arrives).

    A document's life crosses the parts in this order: [Process] resolves its settings,
    [Workflow] offers its conversion, the chunker ([ChunkerApi] over [Strategy]) cuts the
    text that [SourceContract] locates, [Jobs] plans the derived work that [Workflow] counts
    and publishes, the wiki turns its chunks into pages, [Pipeline] records the stages, and
    retrieval reads what was published: the index job embeds the live signals of a version
    ([SemanticIndex] through [Providers]), a recall checks that the generation is current
    ([SemanticRecall]), ranks and folds the signals ([Recall]), and the reranked sources follow
    the exact hits of the batch ([Evidence], composed in [Retrieval]).

    ** What the theorems show

    - Chunking: every strategy returns for every text, panics nowhere, numbers its chunks and
      loses only white space; chunks respect the size bounds and carry exactly the text their
      offsets name (the one exception, headers repeated in parents, is proved as such).
    - Contracts: accepted grids are exactly the tilings, a validated contract identifies the
      units and partitions the pages, replacements keep rendered spans exact.
    - Retrieval: fused scores are exact and never overflow, the result does not depend on
      hash-map order, selection meets quotas and fills maximally, the validator accepts
      exactly the specified batches and [retrieve_v2] only emits those.  End to end, a retrieval
      never panics and never fails its own validator, every hit quotes a live chunk of the
      scope, and what is sent to the providers under a frozen identity is fixed by it.  The policy validators
      accept exactly the specified policies, an accepted endpoint is its parts printed, a
      frozen identity validates exactly against the policy it was frozen from, and lexical
      retrieval answers every valid request with a valid batch of the hits that the quotas leave,
      taken in rank order.
    - Semantic index: the clients accept exactly the specified answers and send the credential
      only where the revision says; whatever interleaves with a run of the job, and whichever of
      its transactions fail, the intents and sidecars stay consistent and every vector is the
      provider's for the text it is filed under; an undisturbed run publishes, and what it
      published passes the check of a recall; a recall reads fresh rows only and loses no candidate: each
      channel ranks its best rows, and every source that a ranked signal counts for competes.  A
      version that returns to an earlier content is published and refused by every recall, in
      every consistent store (a defect, proved as such).
    - Processing: the stage graph cannot get stuck, a trace shows every row and stage, a
      completed job takes effect once and a job of a dead attempt never, the completion of the
      derived jobs publishes the document, and in every reachable state a published document is
      finished, unless it was published as one without text while derived work was open.
    - Boundaries: an answer read in pieces is the answer parsed whole, however it is cut; the
      readers end exactly with the terminal event; the guard of requests decides by the host
      and blocks exactly the internal address ranges for a URL without an [@] after its authority
      (with one it judges the wrong text, which is proved as such); the
      chat key reaches no other endpoint; what the parsing service sends is accepted only
      when it is well-formed, and everything well-formed can be sent; A1 names denote cells
      exactly; a read delivers the whole stream or a classified error, for every stream.
    - Wiki: a round settles or retries every operation it claims, each document once; the
      reduction writes every group whose lock is free and gives the locks back; after a
      retract run no page refers to the document; the folders stay a forest.
    - Settings, plans and links: resolving is idempotent, the plan is what the formula counts plus
      the table summary, wiki links only ever change text outside code, links and images.

    ** Bounds

    Offsets of domain chunks are 32-bit and proved exact below 2^31 runes; plans assume fewer
    than 2^32 chunks; [linkify_content] assumes that the grown page fits in [isize].  A wiki
    round claims five documents and tries each at most six times; the loops over the store
    recurse on its lists.  A handler reads the clock once.

    ** Not modelled

    The HTTP handlers, workers, retention and database access are I/O around the functions
    above; prompts and their transport have no checkable result; the SQL text is represented
    by the state change or the rows it describes; of full-text search and vector distance only
    that they are functions of the rows is used.  The Python reader and the web client are other
    programs. *)
From stdpp Require Export base list gmap numbers option.
From stdpp Require Export sorting.
From Stdlib Require Export Lia.

(** ** Shared notation *)

Declare Scope kb_scope.
Delimit Scope kb_scope with kb.

(** The list slice [l[a..b]] of Rust, on indices that are known to be in range. *)
Definition sub {A} (l : list A) (a b : nat) : list A := take (b - a) (drop a l).

Open Scope kb_scope.

(** [usize] is 64 bits wide on the deployed targets. *)
Definition usize_modulus : N := 18446744073709551616.

(** A [usize] product as the release build computes it (wrapping). *)
Definition usize_mul (a b : nat) : nat :=
  N.to_nat ((N.of_nat a * N.of_nat b) mod usize_modulus).

(** A [usize] subtraction that must not underflow: [None] is the arithmetic fault. *)
Definition checked_sub (a b : nat) : option nat :=
  if decide (b <= a) then Some (a - b) else None.

(** A stable sort, as [slice::sort_by]: [le x y] says that [x] may stay before [y]. *)
Fixpoint insert_sorted {A} (le : A -> A -> bool) (x : A) (l : list A) : list A :=
  match l with
  | [] => [x]
  | y :: l' => if le x y then x :: y :: l' else y :: insert_sorted le x l'
  end.

Definition sort_by {A} (le : A -> A -> bool) (l : list A) : list A :=
  foldr (insert_sorted le) [] l.

(** Iteration of a fallible step over a list ([for x in l] with an early fault). *)
Fixpoint foldM {A S} (f : S -> A -> option S) (s : S) (l : list A) : option S :=
  match l with
  | [] => Some s
  | x :: l' => s' ← f s x; foldM f s' l'
  end.

(** Fallible operations with an error value ([Result<A, E>]). *)
Inductive result (E A : Type) :=
| Ok (a : A)
| Err (e : E).
Arguments Ok {E A} a.
Arguments Err {E A} e.

#[export] Instance result_ret E : MRet (result E) := fun A a => Ok a.
#[export] Instance result_bind E : MBind (result E) := fun A B f r =>
  match r with Ok a => f a | Err e => Err e end.

(** [if cond { return Err(e); }] *)
Definition reject_if {E} (cond : bool) (e : E) : result E unit := if cond then Err e else Ok tt.

(** [o.ok_or_else(|| e)?] *)
Definition ok_or {E A} (o : option A) (e : E) : result E A :=
  match o with Some a => Ok a | None => Err e end.

(** [for x in l] whose body can return an error. *)
Fixpoint foldR {A S E} (f : S -> A -> result E S) (s : S) (l : list A) : result E S :=
  match l with
  | [] => Ok s
  | x :: l' => s' ← f s x; foldR f s' l'
  end.

(** Classes of HTTP status codes. *)
Definition is_success (status : N) : bool := (200 <=? status)%N && (status <? 300)%N.
Definition is_server_error (status : N) : bool := (500 <=? status)%N && (status <? 600)%N.

(** [u32] arithmetic: numbers are in [0, 2^32). *)
Definition u32_modulus : Z := 4294967296.
Definition u32_ok (n : Z) : Prop := (0 <= n < u32_modulus)%Z.
Definition u32_add (a b : Z) : Z := ((a + b) mod u32_modulus)%Z.
Definition u32_checked_add (a b : Z) : option Z :=
  if (a + b <? u32_modulus)%Z then Some (a + b)%Z else None.

(** [n as i32]: the two's complement reading of the low 32 bits. *)
Definition i32_wrap (n : Z) : Z :=
  ((n + 2147483648) mod u32_modulus - 2147483648)%Z.

(** ** Tactics *)

(** Case analysis on every match and decision of the goal. *)
Ltac break :=
  repeat (case_match || case_decide); simplify_eq/=.

(** Normalise boolean comparisons to propositions. *)
Ltac bool_to_prop :=
  repeat match goal with
  | H : _ && _ = true |- _ => apply andb_prop in H as [? ?]
  | H : _ && _ = false |- _ => apply andb_false_iff in H
  | H : _ || _ = true |- _ => apply orb_prop in H
  | H : _ || _ = false |- _ => apply orb_false_elim in H as [? ?]
  | H : negb _ = true |- _ => apply negb_true_iff in H
  | H : negb _ = false |- _ => apply negb_false_iff in H
  | H : (_ =? _)%nat = true |- _ => apply Nat.eqb_eq in H
  | H : (_ =? _)%nat = false |- _ => apply Nat.eqb_neq in H
  | H : (_ <=? _)%nat = true |- _ => apply Nat.leb_le in H
  | H : (_ <=? _)%nat = false |- _ => apply Nat.leb_gt in H
  | H : (_ <? _)%nat = true |- _ => apply Nat.ltb_lt in H
  | H : (_ <? _)%nat = false |- _ => apply Nat.ltb_ge in H
  | H : (_ =? _)%Z = true |- _ => apply Z.eqb_eq in H
  | H : (_ =? _)%Z = false |- _ => apply Z.eqb_neq in H
  | H : (_ <=? _)%Z = true |- _ => apply Z.leb_le in H
  | H : (_ <=? _)%Z = false |- _ => apply Z.leb_gt in H
  | H : (_ <? _)%Z = true |- _ => apply Z.ltb_lt in H
  | H : (_ <? _)%Z = false |- _ => apply Z.ltb_ge in H
  end.

(** Inversion of a monadic bind that succeeded. *)
Ltac bind_inv :=
  repeat match goal with
  | H : (_ ≫= _) = Some _ |- _ => apply bind_Some in H as (? & ? & H); simpl in H
  | H : mbind _ _ = Some _ |- _ => apply bind_Some in H as (? & ? & H); simpl in H
  | H : Some _ = Some _ |- _ => injection H as H
  end.

Create HintDb kb discriminated.

(** ** Lemmas on slices *)

Section sub_lemmas.
Context {A : Type}.
Implicit Types l : list A.

Lemma sub_nil_eq l a : sub l a a = [].
Proof. unfold sub. by rewrite Nat.sub_diag. Qed.

Lemma sub_ge_nil l a b : b <= a -> sub l a b = [].
Proof. intros. unfold sub. by replace (b - a) with 0 by lia. Qed.

Lemma sub_full l : sub l 0 (length l) = l.
Proof. unfold sub. rewrite drop_0, Nat.sub_0_r. apply firstn_all. Qed.

Lemma length_sub l a b : a <= b -> b <= length l -> length (sub l a b) = b - a.
Proof. intros. unfold sub. rewrite length_take, length_drop. lia. Qed.

Lemma length_sub_le l a b : length (sub l a b) <= b - a.
Proof. unfold sub. rewrite length_take. lia. Qed.

Lemma sub_app_adj l a b c :
  a <= b -> b <= c -> sub l a b ++ sub l b c = sub l a c.
Proof.
  intros Hab Hbc. unfold sub.
  replace (drop b l) with (drop (b - a) (drop a l))
    by (rewrite drop_drop; f_equal; lia).
  rewrite <- (take_drop (b - a) (take (c - a) (drop a l))) at 1.
  rewrite take_take, Nat.min_l by lia.
  rewrite skipn_firstn_comm. do 2 f_equal. lia.
Qed.

Lemma sub_app_r l1 l2 a b :
  length l1 <= a -> sub (l1 ++ l2) a b = sub l2 (a - length l1) (b - length l1).
Proof.
  intros. unfold sub. rewrite drop_app_ge by lia.
  by replace (b - length l1 - (a - length l1)) with (b - a) by lia.
Qed.

Lemma sub_app_l l1 l2 a b : b <= length l1 -> sub (l1 ++ l2) a b = sub l1 a b.
Proof.
  intros. unfold sub. destruct (decide (a <= b)).
  - rewrite drop_app_le by lia. rewrite take_app_le; [done|].
    rewrite length_drop. lia.
  - replace (b - a) with 0 by lia. done.
Qed.

Lemma sub_middle (p m r : list A) :
  sub (p ++ m ++ r) (length p) (length p + length m) = m.
Proof.
  rewrite sub_app_r by lia. rewrite Nat.sub_diag.
  replace (length p + length m - length p) with (length m) by lia.
  rewrite sub_app_l by lia. apply sub_full.
Qed.

(** A slice of a slice. *)
Lemma sub_sub l a b c d :
  a + d <= b -> sub (sub l a b) c d = sub l (a + c) (a + d).
Proof.
  intros. unfold sub. rewrite skipn_firstn_comm, take_take, drop_drop.
  f_equal. lia.
Qed.

Lemma sub_split_at l a b n :
  a <= b -> b <= length l -> n <= b - a ->
  sub l a b = sub l a (a + n) ++ sub l (a + n) b.
Proof. intros. rewrite sub_app_adj; [done|lia|lia]. Qed.
End sub_lemmas.

#[export] Hint Rewrite @sub_nil_eq @sub_full @length_sub using lia : kb.

(** ** Lemmas on the stable sort *)

Section sort_lemmas.
Context {A : Type} (le : A -> A -> bool).

Lemma insert_sorted_perm x l : insert_sorted le x l ≡ₚ x :: l.
Proof.
  induction l as [|y l IH]; simpl; [done|].
  case_match; [done|]. rewrite IH. apply Permutation_swap.
Qed.

Lemma sort_by_perm l : sort_by le l ≡ₚ l.
Proof.
  induction l as [|x l IH]; simpl; [done|].
  by rewrite insert_sorted_perm, IH.
Qed.

Context (le_total : forall x y, le x y = false -> le y x = true).
Context (le_trans : forall x y z, le x y = true -> le y z = true -> le x z = true).

Lemma insert_sorted_sorted x l :
  StronglySorted (fun a b => le a b = true) l ->
  StronglySorted (fun a b => le a b = true) (insert_sorted le x l).
Proof.
  induction 1 as [|y l Hs IH Hy]; simpl; [repeat constructor|].
  destruct (le x y) eqn:E.
  - constructor; [by constructor|]. constructor; [done|].
    eapply Forall_impl; [exact Hy|]. eauto.
  - constructor; [done|]. rewrite insert_sorted_perm.
    constructor; [by apply le_total | done].
Qed.

Lemma sort_by_sorted l : StronglySorted (fun a b => le a b = true) (sort_by le l).
Proof.
  induction l as [|x l IH]; simpl; [constructor|].
  by apply insert_sorted_sorted.
Qed.
End sort_lemmas.

(** ** Other generic lemmas *)

Lemma sum_list_with_app_len {A} (f : A -> nat) l1 l2 :
  sum_list_with f (l1 ++ l2) = sum_list_with f l1 + sum_list_with f l2.
Proof. induction l1; simpl; lia. Qed.

Lemma length_concat_sum {A} (ls : list (list A)) :
  length (concat ls) = sum_list_with length ls.
Proof. induction ls; simpl; [done|]. rewrite length_app. lia. Qed.

Lemma checked_sub_Some a b c : checked_sub a b = Some c <-> b <= a /\ c = a - b.
Proof. unfold checked_sub. case_decide; naive_solver lia. Qed.

Lemma usize_mul_small a b :
  (N.of_nat a * N.of_nat b < usize_modulus)%N -> usize_mul a b = a * b.
Proof. intros. unfold usize_mul. rewrite N.mod_small by done. lia. Qed.

(** One step of a sequence of fallible operations. *)
Lemma some_bind {A B} (x : A) (f : A -> option B) : (Some x ≫= f) = f x.
Proof. done. Qed.

(** An invariant of the loop body is an invariant of the loop. *)
Lemma foldM_invariant {A S} (f : S -> A -> option S) (I : S -> list A -> Prop) l :
  forall s,
  I s l ->
  (forall s x l', I s (x :: l') -> exists s', f s x = Some s' /\ I s' l') ->
  exists s', foldM f s l = Some s' /\ I s' [].
Proof.
  induction l as [|x l IH]; intros s Hs Hstep; simpl.
  - eauto.
  - destruct (Hstep _ _ _ Hs) as (s' & -> & Hs'). simpl. eauto.
Qed.

Definition is_Ok {E A} (r : result E A) : Prop := exists a, r = Ok a.

(** Inversion of a fallible step that succeeded. *)
Lemma bind_Ok {E A B} (r : result E A) (f : A -> result E B) b :
  (r ≫= f) = Ok b <-> exists a, r = Ok a /\ f a = Ok b.
Proof.
  destruct r as [a|e]; split.
  - intros Hf. by exists a.
  - by intros (a' & [= ->] & Hf).
  - done.
  - by intros (a' & [=] & _).
Qed.

Lemma reject_if_Ok {E} c (e : E) u : reject_if c e = Ok u <-> c = false.
Proof. destruct c, u; naive_solver. Qed.

Lemma ok_or_Ok {E A} (o : option A) (e : E) a : ok_or o e = Ok a <-> o = Some a.
Proof. destruct o; naive_solver. Qed.

(** [for x in l { f(x)? }] *)
Lemma foldR_unit {A E} (f : unit -> A -> result E unit) l :
  foldR f tt l = Ok tt <-> Forall (fun x => f tt x = Ok tt) l.
Proof.
  induction l as [|x l IH]; cbn [foldR]; [split; [constructor|done]|]. rewrite bind_Ok, Forall_cons, <- IH. split.
  - intros ([] & H1 & H2). done.
  - intros [H1 H2]. by exists tt.
Qed.

(** What a loop that returned has established, by an invariant on prefix and rest. *)
Lemma foldR_invariant {A S E} (f : S -> A -> result E S) (I : S -> list A -> Prop) l :
  forall s s', I s l ->
  (forall s x l' s'', I s (x :: l') -> f s x = Ok s'' -> I s'' l') ->
  foldR f s l = Ok s' -> I s' [].
Proof.
  induction l as [|x l IH]; intros s s' Hs Hstep; simpl.
  - by intros [= <-].
  - intros (s'' & Hf & Hl)%bind_Ok. eauto.
Qed.

Lemma i32_wrap_small n : (-2147483648 <= n < 2147483648)%Z -> i32_wrap n = n.
Proof. intros Hn. unfold i32_wrap, u32_modulus. rewrite Z.mod_small; lia. Qed.

#[export] Hint Rewrite @length_app @length_take @length_drop @length_cons @length_fmap : kb.

(** Boolean tests of all elements. *)
Lemma forallb_Forall {A} (f : A -> bool) l : forallb f l = true <-> Forall (fun x => f x = true) l.
Proof. rewrite forallb_forall, Forall_forall. by setoid_rewrite list_elem_of_In. Qed.

Lemma existsb_negb_forallb {A} (f : A -> bool) l : existsb (fun x => negb (f x)) l = negb (forallb f l).
Proof. induction l as [|x l IH]; [done|]. cbn. rewrite IH. by destruct (f x). Qed.

Lemma forallb_false_Exists {A} (f : A -> bool) l : forallb f l = false <-> Exists (fun x => f x = false) l.
Proof.
  induction l as [|x l IH]; cbn; [split; [done|by inversion 1]|]. rewrite andb_false_iff, Exists_cons, IH. done.
Qed.
