(* ===== verification/RustStr.v ===== *)
(** * Rust strings

    [char] is a Unicode scalar value and [str] the sequence of the chars of a Rust
    string.  [len_utf8], [blen], [slice] and [is_char_boundary] give the byte view that
    [str::len] and [&s[a..b]] work on; [slice] answers [None] where Rust panics.  The
    rest models the methods of [str] and [char] that the modelled code calls. *)
From stdpp Require Export strings.
From S2P Require Import Prelude.
Open Scope Z_scope.

Abbreviation char := Z (only parsing).
Abbreviation str := (list Z) (only parsing).

(** ** UTF-8 *)

Definition len_utf8 (c : char) : nat :=
  if c <? 128 then 1 else if c <? 2048 then 2 else if c <? 65536 then 3 else 4.

(** [str::len]: the length in bytes. *)
Fixpoint blen (s : str) : nat :=
  match s with [] => 0 | c :: s' => len_utf8 c + blen s' end%nat.

(** [s] cut after [n] bytes; [None] when that is not a char boundary of [s]. *)
Fixpoint split_at_byte (s : str) (n : nat) : option (str * str) :=
  match n with
  | O => Some ([], s)
  | _ =>
    match s with
    | [] => None
    | c :: s' =>
      if (len_utf8 c <=? n)%nat then
        '(p, r) ← split_at_byte s' (n - len_utf8 c); Some (c :: p, r)
      else None
    end
  end.

Definition is_char_boundary (s : str) (n : nat) : bool :=
  match split_at_byte s n with Some _ => true | None => false end.

(** [&s[a..b]]: [None] is the panic of an index that is out of range, not on a char
    boundary, or in the wrong order. *)
Definition slice (s : str) (a b : nat) : option str :=
  if (a <=? b)%nat then
    '(_, r) ← split_at_byte s a; '(m, _) ← split_at_byte r (b - a); Some m
  else None.

(** The UTF-8 bytes of a string. *)
Definition utf8_char (c : char) : list Z :=
  if c <? 128 then [c]
  else if c <? 2048 then [Z.lor 192 (Z.shiftr c 6); Z.lor 128 (Z.land c 63)]
  else if c <? 65536 then
    [Z.lor 224 (Z.shiftr c 12); Z.lor 128 (Z.land (Z.shiftr c 6) 63); Z.lor 128 (Z.land c 63)]
  else
    [Z.lor 240 (Z.shiftr c 18); Z.lor 128 (Z.land (Z.shiftr c 12) 63);
     Z.lor 128 (Z.land (Z.shiftr c 6) 63); Z.lor 128 (Z.land c 63)].

Definition as_bytes (s : str) : list Z := concat (map utf8_char s).

(** ** Literals: the UTF-8 bytes of a Rocq string, decoded *)

Fixpoint decode_utf8 (l : list Z) : str :=
  match l with
  | [] => []
  | b :: l' =>
    if b <? 128 then b :: decode_utf8 l'
    else
      match l' with
      | b1 :: l1 =>
        if b <? 224 then (Z.land b 31 * 64 + Z.land b1 63) :: decode_utf8 l1
        else
          match l1 with
          | b2 :: l2 =>
            if b <? 240 then
              (Z.land b 15 * 4096 + Z.land b1 63 * 64 + Z.land b2 63) :: decode_utf8 l2
            else
              match l2 with
              | b3 :: l3 =>
                (Z.land b 7 * 262144 + Z.land b1 63 * 4096 + Z.land b2 63 * 64
                 + Z.land b3 63) :: decode_utf8 l3
              | [] => []
              end
          | [] => []
          end
      | [] => []
      end
  end.

Fixpoint string_bytes (s : string) : list Z :=
  match s with
  | EmptyString => []
  | String a s' => Z.of_N (Ascii.N_of_ascii a) :: string_bytes s'
  end.

Definition lit (s : string) : str := decode_utf8 (string_bytes s).
Arguments lit _%_string.
Notation "'u8' s" := (lit s%string) (at level 1, s at level 0, only parsing) : kb_scope.

Definition NL : char := 10.
Definition CR : char := 13.
Definition TAB : char := 9.
Definition SP : char := 32.
Definition PIPE : char := 124.
Definition IDEOGRAPHIC_STOP : char := 12290.

(** ** Characters *)

(** [char::is_whitespace]: the Unicode property White_Space. *)
Definition is_whitespace (c : char) : bool :=
  ((9 <=? c) && (c <=? 13)) || (c =? 32) || (c =? 133) || (c =? 160) || (c =? 5760)
  || ((8192 <=? c) && (c <=? 8202)) || (c =? 8232) || (c =? 8233) || (c =? 8239)
  || (c =? 8287) || (c =? 12288).

Definition is_ascii_uppercase (c : char) : bool := (65 <=? c) && (c <=? 90).
Definition is_ascii_lowercase (c : char) : bool := (97 <=? c) && (c <=? 122).
Definition is_ascii_alphabetic (c : char) : bool :=
  is_ascii_uppercase c || is_ascii_lowercase c.
Definition is_ascii_digit (c : char) : bool := (48 <=? c) && (c <=? 57).
Definition to_ascii_lowercase (c : char) : char :=
  if is_ascii_uppercase c then c + 32 else c.

(** ** Strings *)

Fixpoint trim_start_by (f : char -> bool) (s : str) : str :=
  match s with
  | [] => []
  | c :: s' => if f c then trim_start_by f s' else s
  end.

(** [trim_end_matches] with a set of chars. *)
Definition trim_end_by (f : char -> bool) (s : str) : str :=
  reverse (trim_start_by f (reverse s)).

Definition trim_start (s : str) : str := trim_start_by is_whitespace s.
Definition trim_end (s : str) : str := trim_end_by is_whitespace s.
Definition trim (s : str) : str := trim_end (trim_start s).

Fixpoint starts_with (s p : str) {struct p} : bool :=
  match p, s with
  | [], _ => true
  | c :: p', d :: s' => (c =? d) && starts_with s' p'
  | _ :: _, [] => false
  end.

Definition ends_with (s p : str) : bool := starts_with (reverse s) (reverse p).

Fixpoint contains (s p : str) : bool :=
  starts_with s p || match s with [] => false | _ :: s' => contains s' p end.

(** [s.split(c)] for a char: always at least one field. *)
Fixpoint split_char (c : char) (s : str) : list str :=
  match s with
  | [] => [[]]
  | d :: s' =>
    if d =? c then [] :: split_char c s'
    else
      match split_char c s' with
      | f :: fs => (d :: f) :: fs
      | [] => [[d]]
      end
  end.

(** [parts.join(sep)] *)
Fixpoint join (sep : str) (parts : list str) : str :=
  match parts with
  | [] => []
  | [p] => p
  | p :: ps => p ++ sep ++ join sep ps
  end.

(** [s.matches(p).count()]: non-overlapping occurrences, scanned left to right; the fuel
    is the number of chars of [s] plus one, and each step consumes at least one char. *)
Fixpoint matches_count_fuel (fuel : nat) (s p : str) : nat :=
  match fuel with
  | O => 0
  | S fuel' =>
    if starts_with s p then
      match s with
      | [] => 1
      | _ :: s' =>
        match p with
        | [] => S (matches_count_fuel fuel' s' p)
        | _ => S (matches_count_fuel fuel' (drop (length p) s) p)
        end
      end
    else
      match s with [] => 0 | _ :: s' => matches_count_fuel fuel' s' p end
  end%nat.

Definition matches_count (s p : str) : nat := matches_count_fuel (S (length s)) s p.

(** [s.chars().count()] *)
Definition rune_len (s : str) : nat := length s.

Definition str_is_empty (s : str) : bool := match s with [] => true | _ => false end.

#[export] Instance str_eq_dec : EqDecision (list Z) := _.
Definition str_eqb (a b : str) : bool := bool_decide (a = b).

(** [<] on strings (the byte order of UTF-8 is the order of the chars). *)
Fixpoint str_ltb (a b : str) : bool :=
  match a, b with
  | _, [] => false
  | [], _ :: _ => true
  | x :: a', y :: b' => (x <? y)%Z || ((x =? y)%Z && str_ltb a' b')
  end.

Definition is_ascii_hexdigit (c : char) : bool :=
  is_ascii_digit c || ((97 <=? c) && (c <=? 102)) || ((65 <=? c) && (c <=? 70)).
Definition is_ascii_alphanumeric (c : char) : bool := is_ascii_alphabetic c || is_ascii_digit c.

(** [s.strip_prefix(p)] *)
Definition strip_prefix (s p : str) : option str :=
  if starts_with s p then Some (drop (length p) s) else None.

(** [s.split_once(c)] and [s.rsplit_once(c)] *)
Fixpoint split_once (c : char) (s : str) : option (str * str) :=
  match s with
  | [] => None
  | x :: s' =>
    if (x =? c)%Z then Some ([], s')
    else '(p, r) ← split_once c s'; Some (x :: p, r)
  end.

Definition rsplit_once (c : char) (s : str) : option (str * str) :=
  '(p, r) ← split_once c (reverse s); Some (reverse r, reverse p).

(** ** Lemmas: UTF-8 *)

Open Scope nat_scope.

Lemma len_utf8_pos c : 1 <= len_utf8 c <= 4.
Proof. unfold len_utf8. repeat case_match; lia. Qed.

Lemma blen_app s t : blen (s ++ t) = blen s + blen t.
Proof. induction s; simpl; lia. Qed.

Lemma blen_ge_length s : length s <= blen s.
Proof. induction s as [|c s IH]; simpl; [lia|]. pose proof (len_utf8_pos c). lia. Qed.

Lemma blen_nil_inv s : blen s = 0 -> s = [].
Proof. destruct s as [|c s]; simpl; [done|]. pose proof (len_utf8_pos c). lia. Qed.

(** [split_at_byte] cuts exactly at the prefixes of the string. *)
Lemma split_at_byte_Some s n p r :
  split_at_byte s n = Some (p, r) <-> s = p ++ r /\ blen p = n.
Proof.
  revert n p r. induction s as [|c s IH]; intros n p r.
  - destruct n; simpl; split.
    + intros [= <- <-]. done.
    + intros [H1 H2]. destruct p; simplify_list_eq. done.
    + done.
    + intros [H1 H2]. destruct p; simplify_list_eq.
  - pose proof (len_utf8_pos c) as Hc. destruct n as [|n]; simpl split_at_byte.
    + split.
      * intros [= <- <-]. done.
      * intros [H1 H2]. apply blen_nil_inv in H2 as ->. by simplify_list_eq.
    + destruct (len_utf8 c <=? S n) eqn:E; bool_to_prop.
      * split.
        -- intros H. apply bind_Some in H as ([p' r'] & H & [= <- <-]).
           apply IH in H as [-> Hb]. simpl. split; [done|lia].
        -- intros [H1 H2]. destruct p as [|c' p]; [simpl in *; lia|].
           simplify_list_eq. apply bind_Some. exists (p, r).
           split; [|done]. apply IH. simpl in *. split; [done|lia].
      * split; [done|]. intros [H1 H2].
        destruct p as [|c' p]; [simpl in *; lia|]. simplify_list_eq. simpl in *. lia.
Qed.

Lemma split_at_byte_app p r : split_at_byte (p ++ r) (blen p) = Some (p, r).
Proof. by apply split_at_byte_Some. Qed.

Lemma is_char_boundary_spec s n :
  is_char_boundary s n = true <-> exists p r, s = p ++ r /\ blen p = n.
Proof.
  unfold is_char_boundary. destruct (split_at_byte s n) as [[p r]|] eqn:E.
  - apply split_at_byte_Some in E. naive_solver.
  - split; [done|]. intros (p & r & H). apply split_at_byte_Some in H. congruence.
Qed.

(** A slice succeeds exactly on char boundaries, and is what lies between them. *)
Lemma slice_Some s a b m :
  slice s a b = Some m <->
  exists p r, s = p ++ m ++ r /\ blen p = a /\ blen p + blen m = b.
Proof.
  unfold slice. split.
  - case_match; [|done]. intros H1. bool_to_prop.
    apply bind_Some in H1 as ([p r] & H1 & H2).
    apply bind_Some in H2 as ([m' r'] & H2 & [= ->]).
    apply split_at_byte_Some in H1 as [-> ?], H2 as [-> ?].
    exists p, r'. repeat split; [done|lia].
  - intros (p & r & -> & <- & <-).
    replace (blen p <=? blen p + blen m) with true by (symmetry; apply Nat.leb_le; lia).
    rewrite split_at_byte_app. simpl.
    replace (blen p + blen m - blen p) with (blen m) by lia.
    by rewrite split_at_byte_app.
Qed.

Lemma slice_middle p m r : slice (p ++ m ++ r) (blen p) (blen p + blen m) = Some m.
Proof. apply slice_Some. eauto. Qed.

Lemma prefix_blen_inj (p1 p2 r1 r2 : list Z) :
  p1 ++ r1 = p2 ++ r2 -> blen p1 = blen p2 -> p1 = p2 /\ r1 = r2.
Proof.
  intros H1 H2.
  assert (split_at_byte (p1 ++ r1) (blen p1) = Some (p2, r2)) as H.
  { apply split_at_byte_Some. split; congruence. }
  rewrite split_at_byte_app in H. by simplify_eq.
Qed.

(** Of two char-boundary prefixes the one with fewer bytes is a prefix of the other. *)
Lemma prefix_blen_le (p1 p2 r1 r2 : list Z) :
  p1 ++ r1 = p2 ++ r2 -> blen p1 <= blen p2 -> exists m, p2 = p1 ++ m /\ r1 = m ++ r2.
Proof.
  revert p2. induction p1 as [|c p1 IH]; intros p2 H Hle; simpl in *; [eauto|].
  destruct p2 as [|c2 p2]; simpl in *.
  - pose proof (len_utf8_pos c). lia.
  - simplify_list_eq. destruct (IH p2) as (m & -> & ->); [done|lia|]. eauto.
Qed.

(** ** Lemmas: searching and splitting *)

Lemma starts_with_app p s : starts_with (p ++ s) p = true.
Proof. induction p; simpl; [done|]. by rewrite Z.eqb_refl. Qed.

Lemma starts_with_spec s p : starts_with s p = true <-> exists r, s = p ++ r.
Proof.
  split.
  - revert s. induction p as [|c p IH]; intros s H; simpl in *; [eauto|].
    destruct s as [|d s]; [done|]. bool_to_prop. subst.
    destruct (IH s) as [r ->]; eauto.
  - intros [r ->]. apply starts_with_app.
Qed.

Lemma ends_with_spec s p : ends_with s p = true <-> exists r, s = r ++ p.
Proof.
  unfold ends_with. rewrite starts_with_spec. split.
  - intros [r H]. exists (reverse r). rewrite <- (reverse_involutive s), H.
    by rewrite reverse_app, reverse_involutive.
  - intros [r ->]. exists (reverse r). by rewrite reverse_app.
Qed.

Lemma contains_spec s p : contains s p = true <-> exists a b, s = a ++ p ++ b.
Proof.
  split.
  - induction s as [|c s IH]; simpl; intros H; apply orb_prop in H as [H|H].
    + apply starts_with_spec in H as [r H]. exists [], r. done.
    + done.
    + apply starts_with_spec in H as [r H]. exists [], r. done.
    + destruct IH as (a & b & ->); [done|]. exists (c :: a), b. done.
  - intros (a & b & ->). induction a as [|c a IH]; simpl.
    + pose proof (starts_with_app p b) as H.
      destruct (p ++ b); simpl; by rewrite H.
    + rewrite IH. apply orb_true_r.
Qed.

Lemma split_char_nonempty c s : split_char c s <> [].
Proof. destruct s as [|d s]; simpl; [done|]. repeat case_match; done. Qed.

(** Splitting then joining on the same char is the identity. *)
Lemma join_split_char c s : join [c] (split_char c s) = s.
Proof.
  induction s as [|d s IH]; simpl; [done|].
  pose proof (split_char_nonempty c s) as Hne.
  destruct (Z.eqb_spec d c) as [->|Hd].
  - destruct (split_char c s) as [|f fs] eqn:E; [done|].
    change (join [c] ([] :: f :: fs)) with ([] ++ [c] ++ join [c] (f :: fs)).
    by rewrite IH.
  - destruct (split_char c s) as [|f fs] eqn:E; [done|].
    destruct fs as [|f' fs]; simpl in *; by rewrite IH.
Qed.

Lemma split_char_no_sep c s : Forall (fun f => c ∉ f) (split_char c s).
Proof.
  induction s as [|d s IH]; simpl.
  - constructor; [set_solver|constructor].
  - destruct (Z.eqb_spec d c) as [->|Hd].
    + constructor; [set_solver|done].
    + destruct (split_char c s) as [|f fs].
      * constructor; [set_solver|constructor].
      * inversion_clear IH. constructor; [set_solver|done].
Qed.

Lemma split_char_cons_inv c s : exists f fs, split_char c s = f :: fs.
Proof.
  pose proof (split_char_nonempty c s). destruct (split_char c s); [done|eauto].
Qed.

(** ** Lemmas: trimming *)

Lemma trim_start_by_suffix f (s : list Z) : exists p, s = p ++ trim_start_by f s /\ Forall (fun c => f c = true) p.
Proof.
  induction s as [|c s (p & Hs & Hp)]; simpl; [by exists []|].
  destruct (f c) eqn:E.
  - exists (c :: p). split; [simpl; by f_equal|by constructor].
  - exists []. by split.
Qed.

Lemma trim_start_by_nil f s : trim_start_by f s = [] <-> Forall (fun c => f c = true) s.
Proof.
  induction s as [|c s IH]; simpl; [by split|].
  destruct (f c) eqn:E; rewrite ?IH, ?Forall_cons; naive_solver congruence.
Qed.

Lemma trim_end_by_prefix f s : exists r, s = trim_end_by f s ++ r /\ Forall (fun c => f c = true) r.
Proof.
  unfold trim_end_by. destruct (trim_start_by_suffix f (reverse s)) as (p & H & Hp).
  exists (reverse p). split.
  - rewrite <- (reverse_involutive s), H at 1. by rewrite reverse_app.
  - by rewrite Forall_reverse.
Qed.

Lemma trim_end_by_nil f s : trim_end_by f s = [] <-> Forall (fun c => f c = true) s.
Proof.
  unfold trim_end_by. rewrite <- (Forall_reverse _ s), <- trim_start_by_nil. split.
  - intros H. apply (f_equal reverse) in H. by rewrite reverse_involutive in H.
  - intros H. by rewrite H.
Qed.

(** A trimmed string is empty exactly when every char is white space. *)
Lemma trim_nil s : trim s = [] <-> Forall (fun c => is_whitespace c = true) s.
Proof.
  unfold trim, trim_end, trim_start. rewrite trim_end_by_nil.
  destruct (trim_start_by_suffix is_whitespace s) as (p & Hs & Hp).
  split; intros H.
  - rewrite Hs. by apply Forall_app.
  - rewrite Hs in H. apply Forall_app in H as [_ H]. done.
Qed.

(** A trimmed string is a slice of the original. *)
Lemma trim_slice s : exists p r, s = p ++ trim s ++ r.
Proof.
  unfold trim, trim_end, trim_start.
  destruct (trim_start_by_suffix is_whitespace s) as (p & Hs & _).
  destruct (trim_end_by_prefix is_whitespace (trim_start_by is_whitespace s)) as (r & Hr & _).
  exists p, r. by rewrite <- Hr.
Qed.

Lemma length_trim_le s : length (trim s) <= length s.
Proof. destruct (trim_slice s) as (p & r & H). rewrite H at 2. rewrite !length_app. lia. Qed.

Lemma str_is_empty_spec s : str_is_empty s = true <-> s = [].
Proof. by destruct s. Qed.

(** The searches stay folded under [simpl]; the lemmas above state what they compute. *)
#[global] Arguments starts_with : simpl never.
#[global] Arguments ends_with : simpl never.
#[global] Arguments contains : simpl never.
#[global] Arguments trim : simpl never.

(** ** Equality, lines and bytes *)

Lemma split_char_app_sep c (a b : str) :
  split_char c (a ++ [c] ++ b) = split_char c a ++ split_char c b.
Proof.
  induction a as [|x a IH]; simpl.
  - by rewrite Z.eqb_refl.
  - simpl in IH. rewrite IH. destruct (x =? c)%Z; [done|].
    destruct (split_char_cons_inv c a) as (f & fs & ->). done.
Qed.

(** Joining pieces without the separator and splitting gives them back. *)
Lemma split_char_free c s : c ∉ s -> split_char c s = [s].
Proof.
  induction s as [|x s IH]; [done|]. intros H. cbn [split_char]. destruct (Z.eqb_spec x c) as [->|]; [set_solver|].
  by rewrite IH by set_solver.
Qed.

Lemma split_char_join c l : l <> [] -> Forall (fun s => c ∉ s) l -> split_char c (join [c] l) = l.
Proof.
  induction l as [|s l IH]; [done|]. intros _ [Hs Hl]%Forall_cons. destruct l as [|t l]; [by apply split_char_free|].
  change (join [c] (s :: t :: l)) with (s ++ [c] ++ join [c] (t :: l)).
  by rewrite split_char_app_sep, IH, split_char_free.
Qed.

Lemma str_eqb_spec a b : str_eqb a b = true <-> a = b.
Proof. apply bool_decide_eq_true. Qed.

Lemma str_ltb_irrefl a : str_ltb a a = false.
Proof. induction a as [|x a IH]; [done|]. cbn [str_ltb]. by rewrite Z.ltb_irrefl, Z.eqb_refl, IH. Qed.

Lemma str_ltb_trans a b c : str_ltb a b = true -> str_ltb b c = true -> str_ltb a c = true.
Proof.
  revert b c. induction a as [|x a IH]; intros [|y b] [|z c]; try done. cbn [str_ltb].
  rewrite !orb_true_iff, !andb_true_iff, !Z.ltb_lt, !Z.eqb_eq.
  intros [H1|[-> H1]] [H2|[-> H2]]; [left; lia|left; lia|left; lia|right; split; [done|by apply (IH b)]].
Qed.

Lemma length_as_bytes s : length (as_bytes s) = blen s.
Proof.
  unfold as_bytes. induction s as [|c s IH]; simpl; [done|]. rewrite length_app, IH. f_equal.
  unfold utf8_char, len_utf8. repeat case_match; done.
Qed.

(** ** Decimal numbers *)

Local Open Scope Z_scope.

(** The decimal digits of [format!("{n}")]. *)
Fixpoint decimal_loop (fuel : nat) (n : N) (acc : str) : str :=
  match fuel with
  | O => acc
  | S fuel =>
    let acc := (48 + Z.of_N (n mod 10)%N) :: acc in
    if (n <? 10)%N then acc else decimal_loop fuel (n / 10)%N acc
  end.

Definition decimal (n : N) : str := decimal_loop (S (N.to_nat (N.log2 n))) n [].

(** The number a run of digits stands for. *)
Definition digits_value (s : str) : N := foldl (fun n c => n * 10 + Z.to_N (c - 48))%N 0%N s.

Lemma decimal_loop_value fuel : forall n acc, (n < 2 ^ N.of_nat fuel)%N ->
  exists ds, decimal_loop fuel n acc = ds ++ acc /\ digits_value ds = n.
Proof.
  induction fuel as [|fuel IH]; intros n acc Hn.
  { exists []. change (2 ^ N.of_nat 0)%N with 1%N in Hn. split; [done|]. cbn. lia. }
  cbn [decimal_loop]. pose proof (N.mod_lt n 10) as Hmod. pose proof (N.div_mod n 10) as Hdiv.
  assert (Hlast : forall ds, digits_value (ds ++ [48 + Z.of_N (n mod 10)]) = (digits_value ds * 10 + n mod 10)%N).
  { intros ds. unfold digits_value. rewrite foldl_snoc. generalize (n mod 10)%N as r.
    intros r. by replace (48 + Z.of_N r - 48) with (Z.of_N r) by lia; rewrite N2Z.id. }
  destruct (N.ltb_spec n 10) as [Hlt|Hge].
  - exists ([] ++ [48 + Z.of_N (n mod 10)]). split; [done|]. rewrite Hlast, N.mod_small by done. done.
  - destruct (IH (n / 10)%N ((48 + Z.of_N (n mod 10)) :: acc)) as (ds & -> & Hv).
    { rewrite Nat2N.inj_succ, N.pow_succ_r' in Hn. generalize dependent (n / 10)%N.
      generalize dependent (n mod 10)%N. intros. lia. }
    exists (ds ++ [48 + Z.of_N (n mod 10)]). split; [by rewrite <- app_assoc|].
    rewrite Hlast, Hv. generalize dependent (n / 10)%N. generalize dependent (n mod 10)%N. intros. lia.
Qed.

#[export] Instance decimal_inj : Inj (=) (=) decimal.
Proof.
  assert (Hv : forall n, digits_value (decimal n) = n).
  { intros n. unfold decimal. destruct (decimal_loop_value (S (N.to_nat (N.log2 n))) n []) as (ds & -> & <-).
    - rewrite Nat2N.inj_succ, N2Nat.id. destruct (decide (n = 0)%N) as [->|]; [done|].
      apply N.log2_spec. lia.
    - by rewrite app_nil_r. }
  intros n m H. by rewrite <- (Hv n), <- (Hv m), H.
Qed.
