(* ===== verification/Regex.v ===== *)
(** * The regular expressions the chunker calls

    The [regex] crate is not part of the repository, so a compiled pattern is a parameter:
    a record of the two searches the code calls on it.  [regex_ok] is the part of the crate's
    documented behaviour the theorems rely on: matches are reported left to right, do not
    overlap, lie inside the haystack and start and end on char boundaries.  [Patterns] lists
    the patterns of the chunker under the names of the [static]s that compile them. *)
From S2P Require Import Prelude RustStr.

Record Regex := {
  find_iter : str -> list (nat * nat);          (* byte offsets of the matches *)
  captures : str -> option (list (option str)); (* groups of the leftmost match *)
}.

Definition re_find (re : Regex) (s : str) : option (nat * nat) := head (find_iter re s).

(** [re.find(s)] followed by [Match::as_str]. *)
Definition re_find_str (re : Regex) (s : str) : option str :=
  m ← re_find re s; slice s m.1 m.2.

Definition is_match (re : Regex) (s : str) : bool :=
  match find_iter re s with [] => false | _ => true end.

(** [caps.get(i).map(|m| m.as_str())] *)
Definition cap_get (caps : list (option str)) (i : nat) : option str := mjoin (caps !! i).

Fixpoint ordered_matches (s : str) (from : nat) (ms : list (nat * nat)) : Prop :=
  match ms with
  | [] => True
  | (a, b) :: ms' =>
    from <= a <= b /\ is_char_boundary s a = true /\ is_char_boundary s b = true
    /\ ordered_matches s b ms'
  end.

Definition regex_ok (re : Regex) : Prop := forall s, ordered_matches s 0 (find_iter re s).

(** The compiled patterns of [splitter.rs], [header_tracker.rs] and [patterns.rs];
    [re_literal sep] is [Regex::new(&format!("({})", regex::escape(sep)))]. *)
Class Patterns := {
  PAT_LATEX : Regex;
  PAT_IMAGE : Regex;
  PAT_LINK : Regex;
  PAT_TABLE_HEADER : Regex;
  PAT_TABLE_ROW : Regex;
  PAT_FENCE : Regex;
  TABLE_START : Regex;
  TABLE_END : Regex;
  TABLE_ROW : Regex;
  MARKDOWN_HEADING : Regex;
  NUMBERED_SECTION : Regex;
  ALL_CAPS_HEADING : Regex;
  VISUAL_SEPARATOR : Regex;
  EXCESSIVE_BLANKS : Regex;
  PAGE_FOOTER : Regex;
  GERMAN_CHAPTER : Regex;
  ENGLISH_CHAPTER : Regex;
  CHINESE_CHAPTER : Regex;
  re_literal : str -> Regex;
}.

(** What the theorems assume of the crate: the six protected patterns, the separators and
    the blank-line pattern are searched for with [find_iter]. *)
Class PatternsOk (P : Patterns) := {
  latex_ok : regex_ok PAT_LATEX;
  image_ok : regex_ok PAT_IMAGE;
  link_ok : regex_ok PAT_LINK;
  table_header_ok : regex_ok PAT_TABLE_HEADER;
  table_row_ok : regex_ok PAT_TABLE_ROW;
  fence_ok : regex_ok PAT_FENCE;
  blanks_ok : regex_ok EXCESSIVE_BLANKS;
  literal_ok : forall sep, regex_ok (re_literal sep);
}.

(** ** Lemmas *)

Lemma ordered_matches_weaken s from from' ms :
  from' <= from -> ordered_matches s from ms -> ordered_matches s from' ms.
Proof. destruct ms as [|[a b] ms]; simpl; [done|]. intuition lia. Qed.

Lemma ordered_matches_elem s from ms a b :
  ordered_matches s from ms -> (a, b) ∈ ms ->
  from <= a <= b /\ is_char_boundary s a = true /\ is_char_boundary s b = true.
Proof.
  revert from. induction ms as [|[a' b'] ms IH]; simpl; intros from H Hin.
  - by apply elem_of_nil in Hin.
  - destruct H as (? & ? & ? & H). apply elem_of_cons in Hin as [[= -> ->]|Hin]; [done|].
    destruct (IH _ H Hin) as (? & ? & ?). intuition lia.
Qed.

(** The text between two char boundaries is a slice. *)
Lemma boundary_slice s a b :
  a <= b -> is_char_boundary s a = true -> is_char_boundary s b = true ->
  exists p m r, s = p ++ m ++ r /\ blen p = a /\ blen p + blen m = b /\ slice s a b = Some m.
Proof.
  intros Hle (p1 & r1 & H1 & <-)%is_char_boundary_spec (p2 & r2 & H2 & <-)%is_char_boundary_spec.
  rewrite H1 in H2. destruct (prefix_blen_le p1 p2 r1 r2) as (m & -> & ->); [done|done|].
  exists p1, m, r2. rewrite blen_app. subst s. repeat split. apply slice_middle.
Qed.

#[export] Hint Resolve latex_ok image_ok link_ok table_header_ok table_row_ok fence_ok
  blanks_ok literal_ok : kb.
