(* ===== verification/DemoPatterns.v ===== *)
(** * A concrete instance of the patterns

    Executable matchers that satisfy the hypotheses of [Regex.v], on which the witnesses
    evaluate the chunker.  They recognise a fragment of what the compiled patterns match;
    nothing outside the witnesses depends on them. *)
From S2P Require Import Prelude RustStr Regex.

(** Leftmost scan with a matcher that says how many chars it takes at a position. *)
Fixpoint scan (f : str -> nat) (s : str) (skip pos : nat) : list (nat * nat) :=
  match s with
  | [] => []
  | c :: s' =>
    match skip with
    | S k => scan f s' k (pos + len_utf8 c)
    | 0 =>
      match f s with
      | 0 => scan f s' 0 (pos + len_utf8 c)
      | S n =>
        (pos, pos + blen (take (S n) s)) :: scan f s' n (pos + len_utf8 c)
      end
    end
  end.

Definition scan_regex (f : str -> nat) : Regex := {|
  find_iter s := scan f s 0 0;
  captures s := match scan f s 0 0 with
                | [] => None
                | (a, b) :: _ => Some [slice s a b]
                end |}.

(** A pattern that decides a whole line. *)
Definition line_regex (f : str -> bool) (groups : str -> list (option str)) : Regex := {|
  find_iter s := if f s then [(0, blen s)] else [];
  captures s := if f s then Some (Some s :: groups s) else None |}.

Lemma scan_ordered f (pre s : str) skip from :
  from <= blen pre + blen (take skip s) ->
  is_char_boundary (pre ++ s) from = true ->
  ordered_matches (pre ++ s) from (scan f s skip (blen pre)).
Proof.
  revert pre skip from. induction s as [|c s IH]; intros pre skip from Hle Hb; [done|].
  assert (pre ++ c :: s = (pre ++ [c]) ++ s) as Heq by by rewrite <- app_assoc.
  assert (blen pre + len_utf8 c = blen (pre ++ [c])) as Hl by (rewrite blen_app; simpl; lia).
  simpl scan. destruct skip as [|k].
  - simpl in Hle. destruct (f (c :: s)) as [|n].
    + rewrite Hl, Heq. apply IH; [|by rewrite <- Heq].
      rewrite blen_app. simpl. lia.
    + split_and!.
      * lia.
      * lia.
      * apply is_char_boundary_spec. exists pre, (c :: s). done.
      * apply is_char_boundary_spec. exists (pre ++ take (S n) (c :: s)), (drop (S n) (c :: s)).
        rewrite <- app_assoc, take_drop, blen_app. done.
      * rewrite Hl, Heq. apply IH.
        -- rewrite blen_app. simpl. lia.
        -- apply is_char_boundary_spec.
           exists (pre ++ take (S n) (c :: s)), (drop (S n) (c :: s)).
           rewrite <- Heq, <- app_assoc, take_drop, blen_app. done.
  - rewrite Hl, Heq. apply IH; [|by rewrite <- Heq].
    rewrite blen_app. simpl in *. lia.
Qed.

Lemma scan_regex_ok f : regex_ok (scan_regex f).
Proof.
  intros s. simpl. apply (scan_ordered f [] s 0 0); [simpl; lia|].
  apply is_char_boundary_spec. exists [], s. done.
Qed.

Lemma line_regex_ok f g : regex_ok (line_regex f g).
Proof.
  intros s. simpl. destruct (f s); [|done]. simpl. split_and!; [lia|lia| | |done].
  - apply is_char_boundary_spec. exists [], s. done.
  - apply is_char_boundary_spec. exists s, []. by rewrite app_nil_r.
Qed.

(** ** Matchers *)

Definition literal_len (sep s : str) : nat := if starts_with s sep then length sep else 0.

Fixpoint newlines (s : str) : nat :=
  match s with
  | c :: s' => if ((c =? 10) || (c =? 13))%Z then S (newlines s') else 0
  | [] => 0
  end.

(** The length of [|...|] followed by line ends, at the start of [s]. *)
Fixpoint row_tail (prev_pipe : bool) (s : str) : nat :=
  match s with
  | [] => 0
  | c :: s' =>
    if ((c =? 10) || (c =? 13))%Z then if prev_pipe then newlines s else 0
    else match row_tail (c =? 124)%Z s' with 0 => 0 | S n => S (S n) end
  end.

Definition row_len (s : str) : nat :=
  match s with
  | c :: s' => if (c =? 124)%Z then match row_tail false s' with 0 => 0 | S n => S (S n) end else 0
  | [] => 0
  end.

Definition header_len (s : str) : nat :=
  let n := row_len s in
  if 0 <? n then
    let m := row_len (drop n s) in
    if (0 <? m) && contains (take m (drop n s)) (u8"---") then n + m else 0
  else 0.

Fixpoint until_dollars (s : str) : nat :=
  match s with
  | [] => 0
  | c :: s' =>
    if starts_with s (u8"$$") then 2
    else match until_dollars s' with 0 => 0 | S n => S (S n) end
  end.

Definition latex_len (s : str) : nat :=
  if starts_with s (u8"$$") then
    match until_dollars (drop 2 s) with 0 => 0 | S n => S (S (S n)) end
  else 0.

Definition blanks_len (s : str) : nat :=
  let n := newlines s in if 3 <=? n then n else 0.

Definition is_row_line (s : str) : bool :=
  let t := trim s in
  starts_with t [PIPE] && ends_with t [PIPE] && (2 <=? length t) && negb (contains t [NL]).

Definition is_table_start (s : str) : bool :=
  let n := header_len s in (0 <? n) && (n =? length s).

Definition is_table_end (s : str) : bool := negb (starts_with (trim s) [PIPE]).

Fixpoint hashes (s : str) : nat :=
  match s with
  | c :: s' => if (c =? 35)%Z then S (hashes s') else 0
  | [] => 0
  end.

Definition is_heading (s : str) : bool :=
  let n := hashes s in
  (1 <=? n) && (n <=? 6)
  && match drop n s with c :: _ => is_whitespace c | [] => false end
  && negb (str_is_empty (trim (drop n s))).

Definition heading_groups (s : str) : list (option str) :=
  [Some (take (hashes s) s); Some (trim (drop (hashes s) s))].

Definition is_numbered (s : str) : bool :=
  match s with
  | d :: p :: w :: _ => is_ascii_digit d && (p =? 46)%Z && (w =? 32)%Z
  | _ => false
  end.

Definition is_rule (s : str) : bool :=
  let t := trim s in (3 <=? length t) && forallb (fun c => (c =? 45)%Z) t.

Definition demo_patterns : Patterns := {|
  PAT_LATEX := scan_regex latex_len;
  PAT_IMAGE := scan_regex (fun _ => 0);
  PAT_LINK := scan_regex (fun _ => 0);
  PAT_TABLE_HEADER := scan_regex header_len;
  PAT_TABLE_ROW := scan_regex row_len;
  PAT_FENCE := scan_regex (fun _ => 0);
  TABLE_START := line_regex is_table_start (fun _ => []);
  TABLE_END := line_regex is_table_end (fun _ => []);
  TABLE_ROW := line_regex is_row_line (fun _ => []);
  MARKDOWN_HEADING := line_regex is_heading heading_groups;
  NUMBERED_SECTION := line_regex is_numbered (fun _ => []);
  ALL_CAPS_HEADING := line_regex (fun _ => false) (fun _ => []);
  VISUAL_SEPARATOR := line_regex is_rule (fun _ => []);
  EXCESSIVE_BLANKS := scan_regex blanks_len;
  PAGE_FOOTER := line_regex (fun _ => false) (fun _ => []);
  GERMAN_CHAPTER := line_regex (fun s => starts_with s (u8"Kapitel ")) (fun _ => []);
  ENGLISH_CHAPTER := line_regex (fun s => starts_with s (u8"Chapter ")) (fun _ => []);
  CHINESE_CHAPTER := line_regex (fun _ => false) (fun _ => []);
  re_literal sep := scan_regex (literal_len sep) |}.

#[export] Instance demo_patterns_ok : PatternsOk demo_patterns.
Proof. split; intros; apply scan_regex_ok. Qed.
