(* ===== verification/HeaderTracker.v ===== *)
(** * [crates/knowledge/src/chunker/header_tracker.rs]

    The tracker that repeats a Markdown table header in the later chunks of a split table.
    Its state is a map from hook priority to header text; the code uses the single
    priority 15. *)
From S2P Require Import Prelude RustStr Regex DemoPatterns.

Definition MARKDOWN_TABLE_HOOK_PRIORITY : Z := 15.

Record HeaderTracker := {
  active_headers : gmap Z str;
  ended_headers : gset Z;
  pending_extend : gset Z;
  pending_table_break : bool;
  header_ended_this_unit : bool;
}.

Definition tracker_new : HeaderTracker := {|
  active_headers := ∅; ended_headers := ∅; pending_extend := ∅;
  pending_table_break := false; header_ended_this_unit := false |}.

(** ** Line helpers *)

Definition is_table_blank (r : char) : bool := ((r =? 124) || (r =? 32) || (r =? 9))%Z.

(** [s[..s.find(c)?]] *)
Fixpoint before_char (c : char) (s : str) : option str :=
  match s with
  | [] => None
  | d :: s' => if (d =? c)%Z then Some [] else cons d <$> before_char c s'
  end.

Definition is_empty_table_header_row (header : str) : bool :=
  match before_char NL header with
  | None => false
  | Some row => forallb is_table_blank (trim row)
  end.

Definition DASHES : str := u8"---".

Definition extract_separator_line (header : str) : str :=
  match List.find (fun line => contains line DASHES) (split_char NL header) with
  | Some line => line ++ [NL]
  | None => []
  end.

Definition split_ends_with_paragraph_break (split : str) : bool :=
  let trimmed := trim_end_by (fun c => ((c =? 32) || (c =? 9) || (c =? 13))%Z) split in
  ends_with trimmed [NL; NL] || ends_with trimmed [CR; NL; CR; NL].

(** [if parts.first().is_some_and(|p| p.trim().is_empty()) { parts.remove(0); }] *)
Definition drop_blank_first (parts : list str) : list str :=
  match parts with
  | p :: ps => if str_is_empty (trim p) then ps else parts
  | [] => []
  end.

Definition drop_blank_last (parts : list str) : list str :=
  reverse (drop_blank_first (reverse parts)).

Definition table_row_column_count (line : str) : nat :=
  let line := trim line in
  if negb (starts_with line [PIPE]) then 0
  else length (drop_blank_last (drop_blank_first (split_char PIPE line))).

Fixpoint header_table_column_count_lines (lines : list str) : nat :=
  match lines with
  | [] => 0
  | line :: lines' =>
    let t := trim line in
    if str_is_empty t || contains t DASHES then header_table_column_count_lines lines'
    else
      let n := table_row_column_count line in
      if 0 <? n then n else header_table_column_count_lines lines'
  end.

Definition header_table_column_count (header : str) : nat :=
  header_table_column_count_lines (split_char NL header).

Fixpoint header_column_row_lines (lines : list str) : str :=
  match lines with
  | [] => []
  | line :: lines' =>
    let line := trim line in
    if str_is_empty line || contains line DASHES then header_column_row_lines lines'
    else if existsb (fun r => negb (is_table_blank r)) line then line
    else header_column_row_lines lines'
  end.

Definition header_column_row (header : str) : str :=
  header_column_row_lines (split_char NL header).

Definition header_already_present (headers overlap_text unit_text : str) : bool :=
  if contains overlap_text headers || contains unit_text headers then true
  else
    let col_row := header_column_row headers in
    if str_is_empty col_row then false
    else contains overlap_text col_row || contains unit_text col_row.

Section tracker.
Context `{Patterns}.

Fixpoint first_table_row_column_count_lines (lines : list str) : nat :=
  match lines with
  | [] => 0
  | line :: lines' =>
    if negb (str_is_empty (trim line)) && is_match TABLE_ROW line
    then table_row_column_count line
    else first_table_row_column_count_lines lines'
  end.

Definition first_table_row_column_count (text : str) : nat :=
  first_table_row_column_count_lines (split_char NL text).

Definition header_column_mismatch (headers next_unit : str) : bool :=
  let header_cols := header_table_column_count headers in
  let row_cols := first_table_row_column_count next_unit in
  (0 <? header_cols) && (0 <? row_cols) && negb (header_cols =? row_cols).

(** ** The operations *)

Definition has_active (ht : HeaderTracker) : bool :=
  bool_decide (is_Some (active_headers ht !! MARKDOWN_TABLE_HOOK_PRIORITY)).

Definition clear_table_header (ht : HeaderTracker) : HeaderTracker := {|
  active_headers := delete MARKDOWN_TABLE_HOOK_PRIORITY (active_headers ht);
  ended_headers := {[MARKDOWN_TABLE_HOOK_PRIORITY]} ∪ ended_headers ht;
  pending_extend := pending_extend ht ∖ {[MARKDOWN_TABLE_HOOK_PRIORITY]};
  pending_table_break := pending_table_break ht;
  header_ended_this_unit := header_ended_this_unit ht |}.

Definition set_header_ended (b : bool) (ht : HeaderTracker) : HeaderTracker := {|
  active_headers := active_headers ht; ended_headers := ended_headers ht;
  pending_extend := pending_extend ht; pending_table_break := pending_table_break ht;
  header_ended_this_unit := b |}.

Definition set_table_break (b : bool) (ht : HeaderTracker) : HeaderTracker := {|
  active_headers := active_headers ht; ended_headers := ended_headers ht;
  pending_extend := pending_extend ht; pending_table_break := b;
  header_ended_this_unit := header_ended_this_unit ht |}.

Definition set_active_pending (a : gmap Z str) (p : gset Z) (ht : HeaderTracker)
  : HeaderTracker := {|
  active_headers := a; ended_headers := ended_headers ht;
  pending_extend := p; pending_table_break := pending_table_break ht;
  header_ended_this_unit := header_ended_this_unit ht |}.

Definition end_table_header_on_column_mismatch (split : str) (ht : HeaderTracker)
  : HeaderTracker :=
  match active_headers ht !! MARKDOWN_TABLE_HOOK_PRIORITY with
  | None => ht
  | Some header =>
    let row_cols := first_table_row_column_count split in
    let header_cols := header_table_column_count header in
    if (0 <? row_cols) && (0 <? header_cols) && negb (row_cols =? header_cols)
    then set_header_ended true (clear_table_header ht)
    else ht
  end.

(** The consecutive blocks of [HeaderTracker::update]. *)
Definition update_pending_break (split : str) (ht : HeaderTracker) : HeaderTracker :=
  if pending_table_break ht then
    let ht := set_table_break false ht in
    if has_active ht then
      if 0 <? first_table_row_column_count split
      then set_header_ended true (clear_table_header ht)
      else clear_table_header ht
    else ht
  else ht.

Definition update_table_end (split : str) (ht : HeaderTracker) : HeaderTracker :=
  if has_active ht && is_match TABLE_END split then clear_table_header ht else ht.

Definition update_columns (split : str) (ht : HeaderTracker) : HeaderTracker :=
  if has_active ht
     && negb (bool_decide (MARKDOWN_TABLE_HOOK_PRIORITY ∈ pending_extend ht))
  then
    if split_ends_with_paragraph_break split then set_table_break true ht
    else end_table_header_on_column_mismatch split ht
  else ht.

Definition extend_one (split : str) (ht : HeaderTracker) (p : Z) : HeaderTracker :=
  let active :=
    if bool_decide (is_Some (active_headers ht !! p)) && is_match TABLE_ROW split then
      let sep := extract_separator_line (default [] (active_headers ht !! p)) in
      <[p := split ++ sep]> (active_headers ht)
    else active_headers ht in
  set_active_pending active (pending_extend ht ∖ {[p]}) ht.

Definition update_extend (split : str) (ht : HeaderTracker) : HeaderTracker :=
  foldl (extend_one split) ht (elements (pending_extend ht)).

Definition update_start (split : str) (ht : HeaderTracker) : HeaderTracker :=
  if negb (has_active ht)
     && negb (bool_decide (MARKDOWN_TABLE_HOOK_PRIORITY ∈ ended_headers ht))
  then
    match re_find_str TABLE_START split with
    | Some loc =>
      set_active_pending
        (<[MARKDOWN_TABLE_HOOK_PRIORITY := loc]> (active_headers ht))
        (if is_empty_table_header_row loc
         then {[MARKDOWN_TABLE_HOOK_PRIORITY]} ∪ pending_extend ht
         else pending_extend ht) ht
    | None => ht
    end
  else ht.

Definition update_finish (ht : HeaderTracker) : HeaderTracker :=
  if bool_decide (active_headers ht = ∅) then {|
    active_headers := active_headers ht; ended_headers := ∅;
    pending_extend := pending_extend ht; pending_table_break := pending_table_break ht;
    header_ended_this_unit := header_ended_this_unit ht |}
  else ht.

Definition update (ht : HeaderTracker) (split : str) : HeaderTracker :=
  update_finish (update_start split (update_extend split (update_columns split
    (update_table_end split (update_pending_break split (set_header_ended false ht)))))).

Definition get_headers (ht : HeaderTracker) : str :=
  if bool_decide (active_headers ht = ∅) then []
  else
    join [NL] (snd <$> sort_by (fun a b => (b.1 <=? a.1)%Z)
                         (map_to_list (active_headers ht))).
End tracker.

(** ** Specification: the tracker as a two-state machine

    Outside a table, or inside one whose header text is known.  [extend] asks the next unit
    to replace an empty header row; [brk] remembers that the last unit ended a paragraph. *)
Inductive TableState :=
  | Idle
  | InTable (header : str) (extend brk : bool).

Section spec.
Context `{Patterns}.

Definition table_mismatch (header split : str) : bool :=
  let row_cols := first_table_row_column_count split in
  let header_cols := header_table_column_count header in
  (0 <? row_cols) && (0 <? header_cols) && negb (row_cols =? header_cols).

(** The next state, and whether this unit ended the table in the middle of its rows. *)
Definition table_step (st : TableState) (split : str) : TableState * bool :=
  match st with
  | Idle =>
    match re_find_str TABLE_START split with
    | Some loc => (InTable loc (is_empty_table_header_row loc) false, false)
    | None => (Idle, false)
    end
  | InTable _ _ true => (Idle, 0 <? first_table_row_column_count split)
  | InTable header extend false =>
    if is_match TABLE_END split then (Idle, false)
    else if extend then
      (InTable (if is_match TABLE_ROW split
                then split ++ extract_separator_line header else header) false false, false)
    else if split_ends_with_paragraph_break split then (InTable header false true, false)
    else if table_mismatch header split then (Idle, true)
    else (InTable header false false, false)
  end.

Definition table_run (units : list str) : TableState * bool :=
  foldl (fun st u => table_step st.1 u) (Idle, false) units.

Definition table_header (st : TableState) : str :=
  match st with Idle => [] | InTable h _ _ => h end.

(** The tracker that represents a state of the machine. *)
Definition tracker_of (st : TableState * bool) : HeaderTracker :=
  match st.1 with
  | Idle => {|
      active_headers := ∅; ended_headers := ∅; pending_extend := ∅;
      pending_table_break := false; header_ended_this_unit := st.2 |}
  | InTable h e b => {|
      active_headers := {[ MARKDOWN_TABLE_HOOK_PRIORITY := h ]}; ended_headers := ∅;
      pending_extend := if e then {[ MARKDOWN_TABLE_HOOK_PRIORITY ]} else ∅;
      pending_table_break := b; header_ended_this_unit := st.2 |}
  end.

(** *** Equations of the operations on represented trackers *)

Definition just_ended (f : bool) : HeaderTracker := {|
  active_headers := ∅; ended_headers := {[ MARKDOWN_TABLE_HOOK_PRIORITY ]};
  pending_extend := ∅; pending_table_break := false; header_ended_this_unit := f |}.

Lemma singleton_minus_self (x : Z) : ({[x]} : gset Z) ∖ {[x]} = ∅.
Proof. set_solver. Qed.

Lemma empty_minus (x : Z) : (∅ : gset Z) ∖ {[x]} = ∅.
Proof. set_solver. Qed.

Lemma clear_in_table h e f :
  clear_table_header (tracker_of (InTable h e false, f)) = just_ended f.
Proof.
  unfold clear_table_header, tracker_of, just_ended. simpl.
  f_equal. destruct e; set_solver.
Qed.

Lemma has_active_in_table h e b f : has_active (tracker_of (InTable h e b, f)) = true.
Proof.
  unfold has_active. simpl. rewrite lookup_singleton_eq. by apply bool_decide_true.
Qed.

Lemma has_active_idle f : has_active (tracker_of (Idle, f)) = false.
Proof. unfold has_active. simpl. rewrite lookup_empty. by apply bool_decide_false, is_Some_None. Qed.

Lemma has_active_ended f : has_active (just_ended f) = false.
Proof. unfold has_active. simpl. rewrite lookup_empty. by apply bool_decide_false, is_Some_None. Qed.

(** Once the header is cleared nothing restarts within the same unit. *)
Lemma ended_to_idle split f :
  update_finish (update_start split (update_extend split (update_columns split
    (just_ended f)))) = tracker_of (Idle, f).
Proof.
  unfold update_columns. rewrite has_active_ended. simpl.
  unfold update_extend. simpl. rewrite elements_empty. simpl.
  unfold update_start. rewrite has_active_ended. simpl.
  rewrite bool_decide_true by set_solver. simpl.
  unfold update_finish. simpl. by rewrite bool_decide_true.
Qed.

Lemma finish_in_table h e b f :
  update_finish (tracker_of (InTable h e b, f)) = tracker_of (InTable h e b, f).
Proof.
  unfold update_finish. simpl. rewrite bool_decide_false; [done|].
  apply map_non_empty_singleton.
Qed.

Lemma start_in_table split h e b f :
  update_start split (tracker_of (InTable h e b, f)) = tracker_of (InTable h e b, f).
Proof. unfold update_start. by rewrite has_active_in_table. Qed.

Lemma extend_in_table split h b f :
  update_extend split (tracker_of (InTable h false b, f)) = tracker_of (InTable h false b, f).
Proof. unfold update_extend. simpl. by rewrite elements_empty. Qed.

Lemma extend_pending split h f :
  update_extend split (tracker_of (InTable h true false, f))
  = tracker_of (InTable (if is_match TABLE_ROW split
                         then split ++ extract_separator_line h else h) false false, f).
Proof.
  unfold update_extend. simpl. rewrite elements_singleton. simpl.
  unfold extend_one, set_active_pending, tracker_of. simpl.
  rewrite lookup_singleton_eq, singleton_minus_self, bool_decide_true by done. simpl.
  f_equal. destruct (is_match TABLE_ROW split); [|done]. apply insert_singleton_eq.
Qed.

Lemma update_idle split f :
  update (tracker_of (Idle, f)) split = tracker_of (table_step Idle split).
Proof.
  unfold update.
  change (set_header_ended false (tracker_of (Idle, f))) with (tracker_of (Idle, false)).
  unfold update_pending_break. simpl pending_table_break. cbn iota.
  unfold update_table_end. rewrite has_active_idle. simpl.
  unfold update_columns. rewrite has_active_idle. simpl.
  unfold update_extend. simpl. rewrite elements_empty. simpl.
  unfold update_start. rewrite has_active_idle. simpl.
  destruct (re_find_str TABLE_START split) as [loc|]; simpl.
  - rewrite <- (finish_in_table loc (is_empty_table_header_row loc) false false).
    by destruct (is_empty_table_header_row loc).
  - unfold update_finish. simpl. by rewrite bool_decide_true.
Qed.

(** The tail of an update that left the table active with nothing pending. *)
Lemma tail_in_table split h b f :
  update_finish (update_start split (update_extend split
    (tracker_of (InTable h false b, f)))) = tracker_of (InTable h false b, f).
Proof. by rewrite extend_in_table, start_in_table, finish_in_table. Qed.

Lemma columns_step split h :
  update_columns split (tracker_of (InTable h false false, false))
  = if split_ends_with_paragraph_break split then tracker_of (InTable h false true, false)
    else if table_mismatch h split then just_ended true
    else tracker_of (InTable h false false, false).
Proof.
  unfold update_columns. rewrite has_active_in_table.
  replace (bool_decide _) with false by (symmetry; apply bool_decide_false; set_solver).
  cbn [negb andb]. destruct (split_ends_with_paragraph_break split); [done|].
  unfold end_table_header_on_column_mismatch.
  change (active_headers (tracker_of (InTable h false false, false)))
    with ({[ MARKDOWN_TABLE_HOOK_PRIORITY := h ]} : gmap Z str).
  rewrite lookup_singleton_eq. fold (table_mismatch h split).
  destruct (table_mismatch h split); [|done]. by rewrite clear_in_table.
Qed.

Lemma update_in_table split h e b f :
  update (tracker_of (InTable h e b, f)) split = tracker_of (table_step (InTable h e b) split).
Proof.
  unfold update.
  change (set_header_ended false (tracker_of (InTable h e b, f)))
    with (tracker_of (InTable h e b, false)).
  unfold update_pending_break. simpl pending_table_break.
  destruct b; cbn [table_step].
  - change (set_table_break false (tracker_of (InTable h e true, false)))
      with (tracker_of (InTable h e false, false)).
    rewrite has_active_in_table, clear_in_table.
    assert ((if 0 <? first_table_row_column_count split
             then set_header_ended true (just_ended false) else just_ended false)
            = just_ended (0 <? first_table_row_column_count split)) as -> by by case_match.
    unfold update_table_end. rewrite has_active_ended. apply ended_to_idle.
  - unfold update_table_end. rewrite has_active_in_table, clear_in_table.
    simpl andb. destruct (is_match TABLE_END split); [apply ended_to_idle|].
    destruct e.
    + unfold update_columns. rewrite has_active_in_table. simpl.
      rewrite bool_decide_true by set_solver. simpl.
      by rewrite extend_pending, start_in_table, finish_in_table.
    + rewrite columns_step.
      destruct (split_ends_with_paragraph_break split); [apply tail_in_table|].
      destruct (table_mismatch h split); [|apply tail_in_table].
      replace (just_ended true) with (update_columns split (just_ended true)).
      { apply ended_to_idle. }
      unfold update_columns. by rewrite has_active_ended.
Qed.

Lemma update_refines st f split :
  update (tracker_of (st, f)) split = tracker_of (table_step st split).
Proof. destruct st; [apply update_idle | apply update_in_table]. Qed.

Lemma get_headers_of st : get_headers (tracker_of st) = table_header st.1.
Proof.
  destruct st as [[|h e b] f]; unfold get_headers; simpl.
  - by rewrite bool_decide_true.
  - rewrite bool_decide_false by apply map_non_empty_singleton.
    rewrite map_to_list_singleton. done.
Qed.

Lemma run_updates_spec units st :
  foldl update (tracker_of st) units
  = tracker_of (foldl (fun st u => table_step st.1 u) st units).
Proof.
  revert st. induction units as [|u units IH]; intros [st f]; simpl; [done|].
  rewrite update_refines, IH. by destruct (table_step st u).
Qed.

Lemma tracker_new_of : tracker_new = tracker_of (Idle, false).
Proof. done. Qed.
End spec.

#[export] Hint Rewrite @update_refines @get_headers_of : kb.

(** ** Properties *)

(** C17: the tracker implements the two-state machine: after any sequence of units, the maps
    and sets of the tracker are exactly those that represent the machine's state, and
    [get_headers] and [header_ended_this_unit] report the machine's header and end flag. *)
Theorem header_tracker_refines `{Patterns} (units : list str) :
  let ht := foldl update tracker_new units in
  ht = tracker_of (table_run units)
  /\ get_headers ht = table_header (table_run units).1
  /\ header_ended_this_unit ht = (table_run units).2.
Proof.
  simpl. rewrite tracker_new_of, run_updates_spec. split; [done|]. split.
  - apply get_headers_of.
  - unfold tracker_of, table_run. by case_match.
Qed.

(** when a unit ends a table in the middle of its rows, no header survives it: the tracker
    holds no active, pending or ended entry afterwards, even if the unit is itself the header
    of another table. *)
Theorem header_ended_clears_tracker `{Patterns} (units : list str) (split : str) :
  header_ended_this_unit (foldl update tracker_new (units ++ [split])) = true ->
  let ht := foldl update tracker_new (units ++ [split]) in
  active_headers ht = ∅ /\ pending_extend ht = ∅ /\ ended_headers ht = ∅
  /\ pending_table_break ht = false /\ get_headers ht = [].
Proof.
  rewrite tracker_new_of, run_updates_spec, foldl_app. simpl.
  set (st := foldl _ _ units). intros Hf. rewrite get_headers_of.
  assert ((table_step st.1 split).1 = Idle) as Hidle.
  { destruct st as [st f]. simpl in *. unfold table_step in *.
    destruct st as [|h e []]; repeat case_match; simplify_eq/=; done. }
  unfold tracker_of in *. rewrite Hidle in *. done.
Qed.

(** ** Witnesses *)

Definition two_tables : list str :=
  [u8"| A | B |
| --- | --- |
"; u8"| 1 | 2 |

"].

Definition second_header : str := u8"| X | Y |
| --- | --- |
".

(** Two tables separated by a blank line that the last row unit of the first one swallowed:
    the header unit of the second table only ends the first one. *)
Lemma header_ended_clears_tracker_witness :
  let ht := foldl (@update demo_patterns) tracker_new (two_tables ++ [second_header]) in
  active_headers ht = ∅ /\ pending_extend ht = ∅ /\ ended_headers ht = ∅
  /\ pending_table_break ht = false /\ @get_headers ht = [].
Proof.
  exact (@header_ended_clears_tracker demo_patterns two_tables second_header eq_refl).
Defined.
