(* ===== verification/Splitter.v ===== *)
(** * [crates/knowledge/src/chunker/splitter.rs]

    The legacy splitter: protected spans, recursive separators, and the merge of the
    resulting units into chunks.  The functions that slice the text answer [None] where
    Rust would panic (an index off a char boundary) or underflow. *)
From S2P Require Import Prelude RustStr Regex HeaderTracker.

Definition HARD_CAP : nat := 75 * 100.
Arguments HARD_CAP : simpl never.
Definition DEFAULT_CHUNK_SIZE : nat := 512.
Definition DEFAULT_CHUNK_OVERLAP : nat := 80.

(** [chunker::TextChunk] *)
Record TextChunk := {
  content : str;
  context_header : str;
  seq : nat;
  tc_start : nat;
  tc_end : nat;
}.

Record Span := { sp_start : nat; sp_end : nat }.

Record SplitUnit := { su_text : str; su_start : nat; su_end : nat }.

#[export] Instance text_chunk_eq_dec : EqDecision TextChunk.
Proof. solve_decision. Defined.

Definition units_text (units : list SplitUnit) : str := concat (map su_text units).

Definition build_chunk (units : list SplitUnit) (n : nat) : option TextChunk :=
  u0 ← head units; ul ← last units;
  Some {| content := units_text units; context_header := []; seq := n;
          tc_start := su_start u0; tc_end := su_end ul |}.

Definition is_separator_only (s : str) : bool :=
  forallb (fun r => ((r =? 10) || (r =? 13) || (r =? 32) || (r =? 9)
                     || (r =? IDEOGRAPHIC_STOP))%Z) s.

(** ** Overlap *)

(** The backwards loop over [current]; [idx] is the [start_idx] reached so far. *)
Fixpoint overlap_scan (chunk_overlap chunk_size next_len : nat) (rev_units : list SplitUnit)
    (overlap_len idx : nat) : nat * nat :=
  match rev_units with
  | [] => (idx, overlap_len)
  | u :: rest =>
    let u_len := rune_len (su_text u) in
    if chunk_overlap <? overlap_len + u_len then (idx, overlap_len)
    else if chunk_size <? overlap_len + u_len + next_len then (idx, overlap_len)
    else overlap_scan chunk_overlap chunk_size next_len rest (overlap_len + u_len) (idx - 1)
  end.

(** The loop that drops leading header markers and blank units, and the final test. *)
Fixpoint overlap_skip (units : list SplitUnit) (overlap_len : nat) : list SplitUnit * nat :=
  match units with
  | [] => ([], 0)
  | u :: rest =>
    let is_header_marker := su_start u =? su_end u in
    if is_header_marker || str_is_empty (trim (su_text u)) || is_separator_only (su_text u)
    then overlap_skip rest (overlap_len - rune_len (su_text u))
    else (units, overlap_len)
  end.

Definition compute_overlap (current : list SplitUnit) (chunk_overlap chunk_size next_len : nat)
    : list SplitUnit * nat :=
  if chunk_overlap =? 0 then ([], 0)
  else
    let '(start_idx, overlap_len) :=
      overlap_scan chunk_overlap chunk_size next_len (rev current) 0 (length current) in
    overlap_skip (drop start_idx current) overlap_len.

(** ** Forced splits *)

Definition is_break_char (r : char) : bool := ((r =? 10) || (r =? 32))%Z.

(** [(snap..chunk_end).rev().find(|&i| runes[i] == '\n' || runes[i] == ' ')] *)
Definition rfind_break (runes : str) (snap chunk_end : nat) : option nat :=
  List.find (fun i => match runes !! i with Some r => is_break_char r | None => false end)
    (rev (List.seq snap (chunk_end - snap))).

Definition force_chunk_end (runes : str) (offset : nat) : nat :=
  let chunk_end := Nat.min (offset + HARD_CAP) (length runes) in
  if chunk_end <? length runes then
    let snap := Nat.max (chunk_end - 200) offset in
    match rfind_break runes snap chunk_end with
    | Some i => i + 1
    | None => chunk_end
    end
  else chunk_end.

(** The [while] loop; each turn consumes at least one rune, so the number of runes is
    enough fuel. *)
Fixpoint force_split_loop (fuel : nat) (runes : str) (base offset : nat) : list SplitUnit :=
  match fuel with
  | 0 => []
  | S fuel' =>
    if offset <? length runes then
      let chunk_end := force_chunk_end runes offset in
      {| su_text := sub runes offset chunk_end;
         su_start := base + offset; su_end := base + chunk_end |}
      :: force_split_loop fuel' runes base chunk_end
    else []
  end.

Definition force_split_runes (text : str) (base : nat) : list SplitUnit :=
  force_split_loop (length text) text base 0.

(** ** Separators *)

Section splitter.
Context `{Patterns}.

(** The pieces of [text] between and at the matches, from byte [last] on. *)
Fixpoint cut_pieces (text : str) (last : nat) (ms : list (nat * nat)) : option (list str) :=
  match ms with
  | [] => if last <? blen text then p ← slice text last (blen text); Some [p] else Some []
  | (a, b) :: ms' =>
    pre ← (if last <? a then p ← slice text last a; Some [p] else Some []);
    m ← slice text a b;
    rest ← cut_pieces text b ms';
    Some (pre ++ (if str_is_empty m then [] else [m]) ++ rest)
  end.

(** The two early returns of [split_by_separators]. *)
Definition split_guard (text : str) (separators : list str) (chunk_size : nat)
    (k : option (list str)) : option (list str) :=
  if str_is_empty text || match separators with [] => true | _ => false end then Some [text]
  else if (0 <? chunk_size) && (rune_len text <=? chunk_size) then Some [text]
  else k.

(** The loop over the separators; a recursive call of [split_by_separators] is
    [split_guard] around the loop on the remaining separators. *)
Fixpoint separator_loop (chunk_size : nat) (separators : list str) (text : str)
    : option (list str) :=
  match separators with
  | [] => Some [text]
  | sep :: remaining =>
    if str_is_empty sep then separator_loop chunk_size remaining text
    else if negb (is_match (re_literal sep) text) then
      separator_loop chunk_size remaining text
    else
      pieces ← cut_pieces text 0 (find_iter (re_literal sep) text);
      if length pieces <=? 1 then separator_loop chunk_size remaining text
      else
        outs ← mapM (fun p =>
          if (0 <? chunk_size) && (chunk_size <? rune_len p)
             && negb (match remaining with [] => true | _ => false end)
          then split_guard p remaining chunk_size (separator_loop chunk_size remaining p)
          else Some [p]) pieces;
        Some (concat outs)
  end.

Definition split_by_separators (text : str) (separators : list str) (chunk_size : nat)
    : option (list str) :=
  split_guard text separators chunk_size (separator_loop chunk_size separators text).

(** ** Protected spans *)

Definition PROTECTED_PATTERNS : list Regex :=
  [PAT_LATEX; PAT_IMAGE; PAT_LINK; PAT_TABLE_HEADER; PAT_TABLE_ROW; PAT_FENCE].

(** Earlier start first; among equal starts, the longer match first. *)
Definition span_before (a b : nat * nat) : bool :=
  (a.1 <? b.1) || ((a.1 =? b.1) && (b.2 - b.1 <=? a.2 - a.1)).

Fixpoint select_spans (last_end : nat) (all : list (nat * nat)) : list Span :=
  match all with
  | [] => []
  | (s, e) :: rest =>
    if last_end <=? s then {| sp_start := s; sp_end := e |} :: select_spans e rest
    else select_spans last_end rest
  end.

Definition protected_matches (text : str) : list (nat * nat) :=
  concat (map (fun pat => List.filter (fun m => m.1 <? m.2) (find_iter pat text))
            PROTECTED_PATTERNS).

Definition protected_spans (text : str) : list Span :=
  let all := protected_matches text in
  match all with
  | [] => []
  | _ => select_spans 0 (sort_by span_before all)
  end.

(** [while byte_idx < limit && byte_idx < text.len()]: the rest of the text from
    [byte_idx], and the advanced indices. *)
Fixpoint advance_to (rest : str) (limit byte_idx rune_idx : nat) : str * nat * nat :=
  match rest with
  | [] => ([], byte_idx, rune_idx)
  | ch :: rest' =>
    if byte_idx <? limit then advance_to rest' limit (byte_idx + len_utf8 ch) (rune_idx + 1)
    else (rest, byte_idx, rune_idx)
  end.

Fixpoint protected_spans_rune_loop (rest : str) (byte_idx rune_idx : nat)
    (byte_spans : list Span) : list Span :=
  match byte_spans with
  | [] => []
  | s :: spans =>
    let '(rest1, byte1, rune1) := advance_to rest (sp_start s) byte_idx rune_idx in
    let '(rest2, byte2, rune2) := advance_to rest1 (sp_end s) byte1 rune1 in
    {| sp_start := rune1; sp_end := rune2 |}
    :: protected_spans_rune_loop rest2 byte2 rune2 spans
  end.

Definition protected_spans_rune (text : str) (byte_spans : list Span) : list Span :=
  protected_spans_rune_loop text 0 0 byte_spans.

(** ** Units *)

Fixpoint place_parts (rune_offset : nat) (parts : list str) : list SplitUnit :=
  match parts with
  | [] => []
  | part :: parts' =>
    let n := rune_len part in
    {| su_text := part; su_start := rune_offset; su_end := rune_offset + n |}
    :: place_parts (rune_offset + n) parts'
  end.

(** The units of the protected text [prot_text] that starts at rune [rune_pos]. *)
Definition protected_units (prot_text : str) (rune_pos : nat) : list SplitUnit :=
  if HARD_CAP <? rune_len prot_text then force_split_runes prot_text rune_pos
  else [{| su_text := prot_text; su_start := rune_pos;
           su_end := rune_pos + rune_len prot_text |}].

(** One turn of the loop over the protected spans; the state is
    [(units, byte_pos, rune_pos)]. *)
Definition protect_step (text : str) (separators : list str) (chunk_size : nat)
    (st : list SplitUnit * nat * nat) (p : Span) : option (list SplitUnit * nat * nat) :=
  let '(units, byte_pos, rune_pos) := st in
  '(pre_units, rune_pos) ←
    (if byte_pos <? sp_start p then
       pre ← slice text byte_pos (sp_start p);
       parts ← split_by_separators pre separators chunk_size;
       Some (place_parts rune_pos parts, rune_pos + rune_len pre)
     else Some ([], rune_pos));
  prot_text ← slice text (sp_start p) (sp_end p);
  Some (units ++ pre_units ++ protected_units prot_text rune_pos,
        sp_end p, rune_pos + rune_len prot_text).

Definition build_units_with_protection (text : str) (protected : list Span)
    (separators : list str) (chunk_size : nat) : option (list SplitUnit) :=
  '(units, byte_pos, rune_pos) ←
    foldM (protect_step text separators chunk_size) ([], 0, 0) protected;
  if byte_pos <? blen text then
    remaining ← slice text byte_pos (blen text);
    parts ← split_by_separators remaining separators chunk_size;
    Some (units ++ place_parts rune_pos parts)
  else Some units.

(** ** Merging *)

Record MergeState := {
  ms_ht : HeaderTracker;
  ms_chunks : list TextChunk;
  ms_current : list SplitUnit;
  ms_cur_len : nat;
}.

(** [chunks.push(build_chunk(&current, chunks.len()))] when [current] is not empty. *)
Definition push_current (chunks : list TextChunk) (current : list SplitUnit)
    : option (list TextChunk) :=
  c ← build_chunk current (length chunks); Some (chunks ++ [c]).

(** [if cond && !current.is_empty() { push; clear; cur_len = 0 }] *)
Definition flush_if (cond : bool) (st : MergeState) : option MergeState :=
  if cond && negb (match ms_current st with [] => true | _ => false end) then
    chunks ← push_current (ms_chunks st) (ms_current st);
    Some {| ms_ht := ms_ht st; ms_chunks := chunks; ms_current := []; ms_cur_len := 0 |}
  else Some st.

(** The chunks of a unit longer than the hard cap. *)
Fixpoint push_pieces (chunks : list TextChunk) (pieces : list SplitUnit) : list TextChunk :=
  match pieces with
  | [] => chunks
  | p :: ps =>
    push_pieces (chunks ++ [{| content := su_text p; context_header := [];
                               seq := length chunks;
                               tc_start := su_start p; tc_end := su_end p |}]) ps
  end.

(** [while !current.is_empty() && cur_len + u_len + headers_len > chunk_size] *)
Fixpoint shrink_overlap (chunk_size need : nat) (current : list SplitUnit) (cur_len : nat)
    : option (list SplitUnit * nat) :=
  match current with
  | [] => Some ([], cur_len)
  | u :: rest =>
    if chunk_size <? cur_len + need then
      cur_len' ← checked_sub cur_len (rune_len (su_text u));
      shrink_overlap chunk_size need rest cur_len'
    else Some (current, cur_len)
  end.

Definition header_marker (headers : str) (start_pos : nat) : SplitUnit :=
  {| su_text := headers; su_start := start_pos; su_end := start_pos |}.

(** The overlap kept after a flush, with the table header in front when it is needed. *)
Definition overlap_with_header (chunk_size chunk_overlap : nat) (headers : str)
    (current : list SplitUnit) (u : SplitUnit) : option (list SplitUnit * nat) :=
  let u_len := rune_len (su_text u) in
  let headers_len := rune_len headers in
  let '(ov, ov_len) := compute_overlap current chunk_overlap chunk_size u_len in
  if negb (str_is_empty headers) && (headers_len + u_len <=? chunk_size) then
    '(ov, ov_len) ← shrink_overlap chunk_size (u_len + headers_len) ov ov_len;
    if negb (header_already_present headers (units_text ov) (su_text u))
       && negb (header_column_mismatch headers (su_text u))
    then
      let start_pos := match ov with [] => su_start u | v :: _ => su_start v end in
      Some (header_marker headers start_pos :: ov, ov_len + headers_len)
    else Some (ov, ov_len)
  else Some (ov, ov_len).

(** [if cur_len + u_len + headers_len > chunk_size && !current.is_empty() { ... }] *)
Definition roll_over (chunk_size chunk_overlap : nat) (headers : str) (u : SplitUnit)
    (st : MergeState) : option MergeState :=
  if (chunk_size <? ms_cur_len st + rune_len (su_text u) + rune_len headers)
     && negb (match ms_current st with [] => true | _ => false end)
  then
    chunks ← push_current (ms_chunks st) (ms_current st);
    '(current, cur_len) ←
      overlap_with_header chunk_size chunk_overlap headers (ms_current st) u;
    Some {| ms_ht := ms_ht st; ms_chunks := chunks;
            ms_current := current; ms_cur_len := cur_len |}
  else Some st.

Definition with_tracker (ht : HeaderTracker) (st : MergeState) : MergeState :=
  {| ms_ht := ht; ms_chunks := ms_chunks st; ms_current := ms_current st;
     ms_cur_len := ms_cur_len st |}.

Definition push_unit (u : SplitUnit) (st : MergeState) : MergeState :=
  {| ms_ht := ms_ht st; ms_chunks := ms_chunks st;
     ms_current := ms_current st ++ [u];
     ms_cur_len := ms_cur_len st + rune_len (su_text u) |}.

Definition merge_step (chunk_size chunk_overlap : nat) (st : MergeState) (u : SplitUnit)
    : option MergeState :=
  let u_len := rune_len (su_text u) in
  let ht := update (ms_ht st) (su_text u) in
  if HARD_CAP <? u_len then
    st ← flush_if true st;
    Some {| ms_ht := ht;
            ms_chunks := push_pieces (ms_chunks st) (force_split_runes (su_text u) (su_start u));
            ms_current := ms_current st; ms_cur_len := ms_cur_len st |}
  else
    st ← flush_if (header_ended_this_unit ht) (with_tracker ht st);
    let headers := get_headers ht in
    let headers := if chunk_size <? rune_len headers then [] else headers in
    st ← roll_over chunk_size chunk_overlap headers u st;
    st ← flush_if (HARD_CAP <? ms_cur_len st + u_len) st;
    Some (push_unit u st).

Definition merge_units (units : list SplitUnit) (chunk_size chunk_overlap : nat)
    : option (list TextChunk) :=
  match units with
  | [] => Some []
  | _ =>
    st ← foldM (merge_step chunk_size chunk_overlap)
           {| ms_ht := tracker_new; ms_chunks := []; ms_current := []; ms_cur_len := 0 |}
           units;
    st ← flush_if true st;
    Some (ms_chunks st)
  end.

Definition split_text (text : str) (chunk_size chunk_overlap : nat) (separators : list str)
    : option (list TextChunk) :=
  if str_is_empty text then Some []
  else
    let chunk_size := if chunk_size =? 0 then DEFAULT_CHUNK_SIZE else chunk_size in
    let protected := protected_spans text in
    units ← build_units_with_protection text protected separators chunk_size;
    merge_units units chunk_size chunk_overlap.
End splitter.
