(* ===== verification/SplitterFacts.v ===== *)
(** * Facts about the splitter: separators, protected spans and units

    Lemmas for [Splitter.v] up to the units that the merge consumes, with the properties
    of [split_by_separators], [protected_spans], [protected_spans_rune] and
    [force_split_runes]. *)
From S2P Require Import Prelude RustStr Regex DemoPatterns HeaderTracker Splitter.

(** ** Units that lie in the text *)

(** The units [us] tile the runes [a..b] of [text], each carrying its own slice. *)
Fixpoint units_tile (text : str) (a : nat) (us : list SplitUnit) (b : nat) : Prop :=
  match us with
  | [] => a = b
  | u :: us' =>
    su_start u = a /\ a < su_end u <= length text
    /\ su_text u = sub text (su_start u) (su_end u)
    /\ units_tile text (su_end u) us' b
  end.

Lemma units_tile_le text a us b : units_tile text a us b -> a <= b.
Proof.
  revert a. induction us as [|u us IH]; simpl; intros a H; [lia|].
  destruct H as (? & ? & ? & H). apply IH in H. lia.
Qed.

Lemma units_tile_bound text a us b :
  units_tile text a us b -> a <= length text -> b <= length text.
Proof.
  revert a. induction us as [|u us IH]; simpl; intros a H Ha; [lia|].
  destruct H as (? & ? & ? & H). apply IH in H; lia.
Qed.

Lemma units_tile_app text a us1 us2 b :
  units_tile text a (us1 ++ us2) b <-> exists m, units_tile text a us1 m /\ units_tile text m us2 b.
Proof.
  revert a. induction us1 as [|u us1 IH]; simpl; intros a.
  - naive_solver.
  - rewrite IH. naive_solver.
Qed.

Lemma units_text_app us1 us2 : units_text (us1 ++ us2) = units_text us1 ++ units_text us2.
Proof. unfold units_text. by rewrite map_app, concat_app. Qed.

Lemma units_tile_text text a us b : units_tile text a us b -> units_text us = sub text a b.
Proof.
  revert a. induction us as [|u us IH]; simpl; intros a H.
  - subst. by rewrite sub_nil_eq.
  - destruct H as (<- & ? & Hu & H). unfold units_text. simpl. fold (units_text us).
    rewrite Hu, (IH _ H). apply sub_app_adj; [lia|]. by apply units_tile_le in H.
Qed.

Lemma units_tile_len text a us b :
  units_tile text a us b -> b <= length text -> length (units_text us) = b - a.
Proof.
  intros H Hb. pose proof (units_tile_le _ _ _ _ H).
  by rewrite (units_tile_text _ _ _ _ H), length_sub by lia.
Qed.

Lemma units_tile_last text a us b u :
  units_tile text a us b -> last us = Some u -> su_end u = b.
Proof.
  revert a. induction us as [|v us IH]; simpl; intros a H Hl; [done|].
  destruct H as (? & ? & ? & H). destruct us as [|w us]; [naive_solver|].
  eapply IH; [exact H|]. done.
Qed.

(** ** Cutting at matches *)

Definition nonempty_pieces (ps : list str) : Prop := Forall (fun p => p <> []) ps.

Lemma is_char_boundary_split p r : is_char_boundary (p ++ r) (blen p) = true.
Proof. apply is_char_boundary_spec. eauto. Qed.

(** A slice between two boundaries [a < b] is not empty. *)
Lemma slice_nonempty s a b m : slice s a b = Some m -> a < b -> m <> [].
Proof.
  intros (p & r & _ & <- & <-)%slice_Some Hlt ->. simpl in *. lia.
Qed.

Lemma slice_to_end (s p r : str) : s = p ++ r -> slice s (blen p) (blen s) = Some r.
Proof.
  intros ->. apply slice_Some. exists p, []. by rewrite app_nil_r, blen_app.
Qed.

Section pieces.
Context `{Patterns}.

(** From a boundary [p], the pieces concatenate to the rest of the text. *)
Lemma cut_pieces_spec (text p r : str) ms :
  text = p ++ r -> ordered_matches text (blen p) ms ->
  exists ps, cut_pieces text (blen p) ms = Some ps /\ concat ps = r /\ nonempty_pieces ps.
Proof.
  revert p r. induction ms as [|[a b] ms IH]; intros p r Ht Hms; simpl.
  - case_match; bool_to_prop.
    + rewrite (slice_to_end text p r Ht). simpl. eexists. split_and!; [done| |].
      * simpl. by rewrite app_nil_r.
      * constructor; [|done]. subst. rewrite blen_app in *. intros ->. simpl in *. lia.
    + eexists. split_and!; [done| |constructor]. simpl. symmetry. apply blen_nil_inv.
      subst text. rewrite blen_app in *. lia.
  - destruct Hms as (Hab & Ha & Hb & Hms).
    destruct (boundary_slice text (blen p) a) as (p1 & m1 & r1 & H1 & H2 & H3 & H4);
      [lia|subst; apply is_char_boundary_split|done|].
    destruct (boundary_slice text a b) as (p2 & m2 & r2 & H5 & H6 & H7 & H8); [lia|done|done|].
    assert (p1 = p /\ m1 ++ r1 = r) as [-> Hr].
    { eapply prefix_blen_inj; [|done]. congruence. }
    assert (p2 = p ++ m1 /\ m2 ++ r2 = r1) as [-> Hr1].
    { eapply (prefix_blen_inj p2 (p ++ m1)); [|rewrite blen_app; lia].
      rewrite <- H5, <- app_assoc. done. }
    destruct (IH (p ++ m1 ++ m2) r2) as (ps & Hps & Hc & Hne).
    { rewrite H5. by rewrite <- !app_assoc. }
    { rewrite !blen_app in *. by replace (blen p + (blen m1 + blen m2)) with b by lia. }
    rewrite !blen_app in *. replace (blen p + (blen m1 + blen m2)) with b in Hps by lia.
    rewrite H4, H8, Hps. simpl.
    exists ((if blen p <? a then [m1] else []) ++ (if str_is_empty m2 then [] else [m2]) ++ ps).
    split_and!.
    + destruct (blen p <? a); done.
    + rewrite <- Hr, <- Hr1, !concat_app, Hc.
      assert (concat (if str_is_empty m2 then [] else [m2]) = m2) as ->.
      { destruct m2; simpl; [done|]. by rewrite app_nil_r. }
      destruct (Nat.ltb_spec (blen p) a); simpl; [by rewrite app_nil_r|].
      by rewrite (blen_nil_inv m1) by lia.
    + apply Forall_app. split; [|apply Forall_app; split; [|done]].
      * destruct (Nat.ltb_spec (blen p) a); [|constructor].
        constructor; [|constructor]. intros ->. simpl in *. lia.
      * destruct m2; simpl; [constructor|]. by constructor.
Qed.

Lemma cut_pieces_text text re :
  regex_ok re ->
  exists ps, cut_pieces text 0 (find_iter re text) = Some ps
             /\ concat ps = text /\ nonempty_pieces ps.
Proof. intros Hok. apply (cut_pieces_spec text [] text); [done|apply Hok]. Qed.

Lemma mapM_concat (f : str -> option (list str)) ps :
  nonempty_pieces ps ->
  (forall p, p <> [] -> exists qs, f p = Some qs /\ concat qs = p /\ nonempty_pieces qs) ->
  exists outs, mapM f ps = Some outs /\ concat (concat outs) = concat ps
               /\ nonempty_pieces (concat outs).
Proof.
  intros Hps Hf. induction Hps as [|p ps Hp Hps IH]; simpl.
  - exists []. split_and!; [done|done|constructor].
  - destruct (Hf p Hp) as (qs & -> & Hq & Hqn). destruct IH as (outs & -> & Ho & Hon).
    exists (qs :: outs). simpl. split_and!; [done| |by apply Forall_app].
    by rewrite concat_app, Hq, Ho.
Qed.

Context `{!PatternsOk H}.

Definition lossless (text : str) (r : option (list str)) : Prop :=
  exists ps, r = Some ps /\ concat ps = text /\ (text <> [] -> nonempty_pieces ps).

Lemma lossless_whole text : lossless text (Some [text]).
Proof.
  exists [text]. simpl. split_and!; [done|by rewrite app_nil_r|]. intros. by repeat constructor.
Qed.

Lemma split_guard_lossless text seps cs k :
  lossless text k -> lossless text (split_guard text seps cs k).
Proof.
  intros Hk. unfold split_guard.
  do 2 (match goal with |- context [if ?b then _ else _] => destruct b end;
        [apply lossless_whole|]). done.
Qed.

Lemma separator_loop_lossless cs seps text : lossless text (separator_loop cs seps text).
Proof.
  revert text. induction seps as [|sep seps IH]; intros text; simpl; [apply lossless_whole|].
  destruct (str_is_empty sep); [done|]. destruct (negb _); [done|].
  destruct (cut_pieces_text text (re_literal sep) (literal_ok sep)) as (ps & -> & Hc & Hn).
  simpl. destruct (length ps <=? 1); [done|].
  match goal with |- context [mapM ?f ps] => set (g := f) end.
  destruct (mapM_concat g ps Hn) as (outs & -> & Ho & Hon).
  - intros p Hp. unfold g. case_match.
    + destruct (split_guard_lossless p seps cs _ (IH p)) as (qs & Hq1 & Hq2 & Hq3). eauto.
    + exists [p]. simpl. split_and!; [done|by rewrite app_nil_r|by repeat constructor].
  - simpl. exists (concat outs). split_and!; [done|congruence|done].
Qed.

Lemma split_by_separators_ok text seps cs :
  lossless text (split_by_separators text seps cs).
Proof. apply split_guard_lossless, separator_loop_lossless. Qed.
End pieces.

(** ** Protected spans *)

Fixpoint ordered_spans (s : str) (from : nat) (l : list Span) : Prop :=
  match l with
  | [] => True
  | sp :: l' =>
    from <= sp_start sp < sp_end sp
    /\ is_char_boundary s (sp_start sp) = true /\ is_char_boundary s (sp_end sp) = true
    /\ ordered_spans s (sp_end sp) l'
  end.

Section spans.
Context `{Patterns}.

Definition good_match (s : str) (m : nat * nat) : Prop :=
  m.1 < m.2 /\ is_char_boundary s m.1 = true /\ is_char_boundary s m.2 = true.

Lemma select_spans_ordered s from all :
  Forall (good_match s) all -> ordered_spans s from (select_spans from all).
Proof.
  intros Hall. revert from. induction Hall as [|[a b] all (Hlt & Ha & Hb) Hall IH];
    intros from; simpl in *; [done|].
  case_match; bool_to_prop; [|apply IH]. simpl. split_and!; [lia|lia|done|done|apply IH].
Qed.

Lemma select_spans_sub from all sp :
  sp ∈ select_spans from all -> (sp_start sp, sp_end sp) ∈ all.
Proof.
  revert from. induction all as [|[a b] all IH]; intros from; simpl; [by intros ?%elem_of_nil|].
  case_match; intros Hin.
  - apply elem_of_cons in Hin as [->|Hin]; [by left|]. right. eauto.
  - right. eauto.
Qed.

Context `{!PatternsOk H}.

Lemma protected_patterns_ok : Forall regex_ok PROTECTED_PATTERNS.
Proof.
  repeat constructor;
    [apply latex_ok|apply image_ok|apply link_ok|apply table_header_ok
    |apply table_row_ok|apply fence_ok].
Qed.

Lemma protected_matches_good text : Forall (good_match text) (protected_matches text).
Proof.
  unfold protected_matches. rewrite Forall_concat, Forall_map.
  eapply Forall_impl; [apply protected_patterns_ok|]. intros re Hre.
  apply Forall_forall. intros [a b] Hin. simpl in *.
  apply list_elem_of_In, filter_In in Hin as [Hin Hlt]. bool_to_prop. simpl in *.
  apply list_elem_of_In in Hin.
  destruct (ordered_matches_elem _ _ _ _ _ (Hre text) Hin) as (? & ? & ?). done.
Qed.

Lemma protected_spans_eq text :
  protected_spans text = select_spans 0 (sort_by span_before (protected_matches text)).
Proof. unfold protected_spans. by destruct (protected_matches text). Qed.

Lemma protected_spans_ok text : ordered_spans text 0 (protected_spans text).
Proof.
  rewrite protected_spans_eq. apply select_spans_ordered.
  eapply Permutation_Forall; [symmetry; apply sort_by_perm|apply protected_matches_good].
Qed.
End spans.

#[export] Hint Resolve split_by_separators_ok protected_spans_ok : kb.

(** ** Forced splits *)

Lemma rfind_break_range runes a b i : rfind_break runes a b = Some i -> a <= i < b.
Proof.
  intros (Hin & _)%find_some. apply in_rev, in_seq in Hin. lia.
Qed.

Lemma force_chunk_end_bounds runes offset :
  offset < length runes ->
  offset < force_chunk_end runes offset <= length runes
  /\ force_chunk_end runes offset <= offset + HARD_CAP.
Proof.
  intros Hlt. unfold force_chunk_end.
  assert (1 <= HARD_CAP) by (unfold HARD_CAP; lia).
  case_match; bool_to_prop; [|lia].
  case_match eqn:E; [|lia]. apply rfind_break_range in E. lia.
Qed.

Lemma force_split_loop_tile (doc : str) fuel runes base offset :
  runes = sub doc base (base + length runes) -> base + length runes <= length doc ->
  offset <= length runes -> length runes - offset <= fuel ->
  units_tile doc (base + offset) (force_split_loop fuel runes base offset) (base + length runes)
  /\ Forall (fun u => length (su_text u) <= HARD_CAP) (force_split_loop fuel runes base offset).
Proof.
  intros Hr Hlen. revert offset. induction fuel as [|fuel IH]; intros offset Ho Hf; simpl.
  - split; [lia|constructor].
  - case_match; bool_to_prop; simpl; [|split; [lia|constructor]].
    destruct (force_chunk_end_bounds runes offset) as [Hb1 Hb2]; [done|].
    destruct (IH (force_chunk_end runes offset)) as [IH1 IH2]; [lia|lia|].
    split_and!; [done|lia|lia| |done|].
    + rewrite Hr at 1. rewrite sub_sub by lia. done.
    + constructor; [|done]. simpl. rewrite length_sub by lia. lia.
Qed.

Lemma force_split_runes_tile (doc : str) text base :
  text = sub doc base (base + length text) -> base + length text <= length doc ->
  units_tile doc base (force_split_runes text base) (base + length text)
  /\ Forall (fun u => length (su_text u) <= HARD_CAP) (force_split_runes text base).
Proof.
  intros H1 H2. pose proof (force_split_loop_tile doc (length text) text base 0 H1 H2) as H.
  rewrite Nat.add_0_r in H. apply H; lia.
Qed.

(** ** Units with protection *)

Lemma place_parts_tile (doc : str) a parts :
  nonempty_pieces parts -> a + length (concat parts) <= length doc ->
  concat parts = sub doc a (a + length (concat parts)) ->
  units_tile doc a (place_parts a parts) (a + length (concat parts)).
Proof.
  revert a. induction parts as [|p parts IH]; intros a Hne Hlen Heq; simpl in *; [lia|].
  inversion_clear Hne as [|? ? Hp Hps]. rewrite length_app in *. unfold rune_len.
  assert (0 < length p) by (destruct p; [done|simpl; lia]).
  rewrite <- (sub_app_adj doc a (a + length p)) in Heq by lia.
  apply app_inj_1 in Heq as [Heq1 Heq2]; [|rewrite length_sub; lia].
  split_and!; [done|lia|lia|done|].
  replace (a + (length p + length (concat parts)))
    with ((a + length p) + length (concat parts)) in * by lia.
  apply IH; [done|lia|done].
Qed.

Section units.
Context `{Patterns} `{!PatternsOk H}.

(** The units cut out of the text [pre] that follows the prefix [p]. *)
Lemma separators_tile (text p pre r : str) seps cs :
  text = p ++ pre ++ r -> pre <> [] ->
  exists parts, split_by_separators pre seps cs = Some parts
    /\ units_tile text (length p) (place_parts (length p) parts) (length p + length pre).
Proof.
  intros Ht Hne. destruct (split_by_separators_ok pre seps cs) as (parts & Hs & Hc & Hn).
  exists parts. split; [done|]. subst pre text. apply place_parts_tile; [auto| |].
  - rewrite !length_app. lia.
  - symmetry. apply sub_middle.
Qed.

Lemma protected_units_tile (text p m r : str) :
  text = p ++ m ++ r -> m <> [] ->
  units_tile text (length p) (protected_units m (length p)) (length p + length m).
Proof.
  intros -> Hne. assert (0 < length m) by (destruct m; [done|simpl; lia]).
  unfold protected_units. case_match.
  - apply force_split_runes_tile; [by rewrite sub_middle|rewrite !length_app; lia].
  - simpl. unfold rune_len. rewrite sub_middle, !length_app. split_and!; [done|lia|lia|done|done].
Qed.

(** The state of the loop over the spans: [byte_pos] and [rune_pos] point behind the same
    prefix of the text, which the units tile. *)
Definition protect_inv (text : str) (st : list SplitUnit * nat * nat) (spans : list Span) : Prop :=
  exists p r, text = p ++ r /\ st.1.2 = blen p /\ st.2 = length p
    /\ units_tile text 0 st.1.1 (length p) /\ ordered_spans text (blen p) spans.

Lemma protect_step_inv text seps cs st sp spans :
  protect_inv text st (sp :: spans) ->
  exists st', protect_step text seps cs st sp = Some st' /\ protect_inv text st' spans.
Proof.
  destruct st as [[us bp] rp]. intros (p & r & Ht & Hb & Hrp & Htile & (Hs & Hbs & Hbe & Hrest)).
  simpl in *. subst bp rp.
  destruct (boundary_slice text (blen p) (sp_start sp)) as (p1 & pre & r1 & H1 & H2 & H3 & H4);
    [lia|subst; apply is_char_boundary_split|done|].
  assert (p1 = p /\ pre ++ r1 = r) as [-> Hr].
  { eapply prefix_blen_inj; [|done]. congruence. }
  destruct (boundary_slice text (sp_start sp) (sp_end sp))
    as (p2 & m & r2 & H5 & H6 & H7 & H8); [lia|done|done|].
  assert (p2 = p ++ pre /\ m ++ r2 = r1) as [-> Hr1].
  { eapply (prefix_blen_inj p2 (p ++ pre)); [|rewrite blen_app; lia].
    rewrite <- H5, <- app_assoc. done. }
  assert (m <> []) as Hm by (intros ->; simpl in *; lia).
  pose proof (protected_units_tile text (p ++ pre) m r2 H5 Hm) as Hpt.
  rewrite length_app in Hpt.
  assert (forall us' , units_tile text (length p) us' (length p + length pre) ->
    protect_inv text (us ++ us' ++ protected_units m (length p + length pre), sp_end sp,
                      length p + length pre + length m) spans) as Hfin.
  { intros us' Hus'. exists (p ++ pre ++ m), r2. simpl. rewrite !blen_app, !length_app in *.
    split_and!; [by rewrite H5, <- !app_assoc|lia|lia| |].
    - apply units_tile_app. exists (length p). split; [done|].
      apply units_tile_app. exists (length p + length pre). split; [done|].
      by replace (length p + (length pre + length m)) with (length p + length pre + length m) by lia.
    - by replace (blen p + (blen pre + blen m)) with (sp_end sp) by lia. }
  destruct (Nat.ltb_spec (blen p) (sp_start sp)).
  - destruct (separators_tile text p pre r1 seps cs) as (parts & Hsp & Hpp).
    { done. } { intros ->. simpl in *. lia. }
    rewrite H4. simpl. rewrite Hsp. simpl. rewrite H8. simpl. unfold rune_len.
    eexists. split; [done|]. by apply Hfin.
  - rewrite H8. simpl. assert (pre = []) as -> by (apply blen_nil_inv; lia). simpl in *.
    rewrite Nat.add_0_r in Hfin. eexists. split; [done|]. apply (Hfin []). simpl. lia.
Qed.

Lemma build_units_tile text spans seps cs :
  ordered_spans text 0 spans ->
  exists us, build_units_with_protection text spans seps cs = Some us
    /\ units_tile text 0 us (length text).
Proof.
  intros Hsp. unfold build_units_with_protection.
  destruct (foldM_invariant (protect_step text seps cs) (protect_inv text) spans ([], 0, 0))
    as (st & -> & p & r & Ht & Hb & Hr & Htile & _).
  { exists [], text. done. }
  { intros st x l'. apply protect_step_inv. }
  destruct st as [[us bp] rp]. simpl in *. subst bp rp.
  destruct (Nat.ltb_spec (blen p) (blen text)).
  - rewrite (slice_to_end text p r Ht). simpl.
    destruct (separators_tile text p r [] seps cs) as (parts & -> & Hpp).
    { by rewrite app_nil_r. } { intros ->. rewrite app_nil_r in Ht. subst. lia. }
    simpl. eexists. split; [done|]. apply units_tile_app. exists (length p). split; [done|].
    replace (length text) with (length p + length r); [done|]. by rewrite Ht, length_app.
  - assert (r = []) as ->. { apply blen_nil_inv. subst. rewrite blen_app in *. lia. }
    rewrite app_nil_r in Ht. subst. eauto.
Qed.
End units.

(** ** Selection of the protected spans *)

Lemma select_spans_covers (from : nat) (all : list (nat * nat)) (m : nat * nat) :
  StronglySorted (fun a b => span_before a b = true) all ->
  Forall (fun m => m.1 < m.2) all ->
  m ∈ all -> from <= m.1 ->
  exists sp, sp ∈ select_spans from all /\ sp_start sp <= m.1 < sp_end sp.
Proof.
  intros Hs Hlt. revert from. induction Hs as [|[a b] all Hs IH Hab]; intros from Hin Hle.
  - by apply elem_of_nil in Hin.
  - inversion_clear Hlt as [|? ? Hlt1 Hlt2]. simpl in *. case_match; bool_to_prop.
    + apply elem_of_cons in Hin as [->|Hin].
      * eexists. split; [by left|]. simpl. lia.
      * destruct (decide (b <= m.1)) as [Hb|Hb].
        -- destruct (IH Hlt2 b Hin Hb) as (sp & ? & ?). exists sp. split; [by right|done].
        -- eexists. split; [by left|]. simpl. split; [|lia].
           rewrite Forall_forall in Hab. specialize (Hab m Hin).
           unfold span_before in Hab. simpl in Hab.
           apply orb_prop in Hab as [Hab|Hab]; bool_to_prop; lia.
    + apply elem_of_cons in Hin as [->|Hin]; [simpl in *; lia|]. eauto.
Qed.

Lemma span_before_total a b : span_before a b = false -> span_before b a = true.
Proof.
  unfold span_before. intros H. bool_to_prop. destruct (Nat.ltb_spec b.1 a.1); [done|].
  assert (b.1 = a.1) as Heq by lia. rewrite Heq, Nat.eqb_refl in *. simpl.
  apply Nat.leb_le. match goal with H : _ \/ _ |- _ => destruct H end; bool_to_prop; lia.
Qed.

Lemma span_before_trans a b c :
  span_before a b = true -> span_before b c = true -> span_before a c = true.
Proof.
  unfold span_before. intros H1 H2.
  apply orb_prop in H1 as [H1|H1]; apply orb_prop in H2 as [H2|H2]; bool_to_prop;
    apply orb_true_iff.
  1-3: left; apply Nat.ltb_lt; lia.
  right. apply andb_true_intro. split; [apply Nat.eqb_eq|apply Nat.leb_le]; lia.
Qed.

(** ** Byte spans to rune spans *)

(** [p] is the part of the text already walked over. *)
Lemma advance_to_spec (text p rest : str) limit byte_idx rune_idx :
  text = p ++ rest -> byte_idx = blen p -> rune_idx = length p ->
  blen p <= limit -> is_char_boundary text limit = true ->
  exists m rest', text = p ++ m ++ rest' /\ blen (p ++ m) = limit
    /\ advance_to rest limit byte_idx rune_idx = (rest', blen (p ++ m), length (p ++ m)).
Proof.
  revert p byte_idx rune_idx. induction rest as [|c rest IH];
    intros p byte_idx rune_idx Ht -> -> Hle Hb; simpl.
  - exists [], []. rewrite app_nil_r in Ht. subst text. simpl. rewrite !app_nil_r.
    split_and!; [done| |done].
    apply is_char_boundary_spec in Hb as (q & r & -> & <-). rewrite blen_app in *. lia.
  - destruct (Nat.ltb_spec (blen p) limit).
    + destruct (IH (p ++ [c]) (blen p + len_utf8 c) (length p + 1)) as (m & rest' & H1 & H2 & H3).
      * by rewrite <- app_assoc.
      * rewrite blen_app. simpl. lia.
      * by rewrite length_app.
      * rewrite blen_app. simpl.
        apply is_char_boundary_spec in Hb as (q & r & Hq & <-).
        rewrite Ht in Hq. destruct (prefix_blen_le p q (c :: rest) r) as (m & -> & Hm); [done|lia|].
        rewrite blen_app in *. destruct m as [|c' m]; simpl in *; [lia|].
        simplify_list_eq. lia.
      * done.
      * exists (c :: m), rest'.
        replace (p ++ c :: m) with ((p ++ [c]) ++ m) by by rewrite <- app_assoc.
        rewrite <- app_assoc in H1. done.
    + exists [], (c :: rest). rewrite app_nil_r. split_and!; [done|lia|done].
Qed.

Definition same_position (text : str) (byte rune : nat) : Prop :=
  rune <= length text /\ blen (take rune text) = byte.

Lemma same_position_prefix p r : same_position (p ++ r) (blen p) (length p).
Proof. split; [rewrite length_app; lia|]. by rewrite take_app_length. Qed.

Lemma protected_spans_rune_loop_spec (text p rest : str) spans :
  text = p ++ rest -> ordered_spans text (blen p) spans ->
  Forall2 (fun b r => same_position text (sp_start b) (sp_start r)
                      /\ same_position text (sp_end b) (sp_end r))
    spans (protected_spans_rune_loop rest (blen p) (length p) spans).
Proof.
  revert p rest. induction spans as [|sp spans IH]; intros p rest Ht Hsp; simpl; [done|].
  destruct Hsp as (Hle & Hb1 & Hb2 & Hsp).
  destruct (advance_to_spec text p rest (sp_start sp) (blen p) (length p))
    as (m1 & rest1 & H1 & H2 & ->); [done|done|done|lia|done|].
  destruct (advance_to_spec text (p ++ m1) rest1 (sp_end sp) (blen (p ++ m1)) (length (p ++ m1)))
    as (m2 & rest2 & H3 & H4 & ->); [by rewrite <- app_assoc|done|done|lia|done|].
  rewrite app_assoc in H1, H3. constructor.
  - simpl. rewrite <- H2, <- H4. split.
    + rewrite H1. apply same_position_prefix.
    + rewrite H3. apply same_position_prefix.
  - apply IH; [done|]. by rewrite H4.
Qed.

(** ** Properties *)

(** Splitting by separators loses nothing and never panics: the pieces concatenate to the
    text, and no piece of a non-empty text is empty. *)
Theorem split_by_separators_lossless `{Patterns} (Hok : PatternsOk H)
    (text : str) (separators : list str) (chunk_size : nat) :
  exists pieces,
    split_by_separators text separators chunk_size = Some pieces
    /\ concat pieces = text
    /\ (text <> [] -> Forall (fun p => p <> []) pieces).
Proof. apply split_by_separators_ok. Qed.

(** The protected spans are disjoint, in order and on char boundaries; each is a match of a
    protected pattern; and every match starts inside a span that was selected. *)
Theorem protected_spans_select `{Patterns} (Hok : PatternsOk H) (text : str) :
  ordered_spans text 0 (protected_spans text)
  /\ (forall sp, sp ∈ protected_spans text ->
        exists pat, pat ∈ PROTECTED_PATTERNS /\ (sp_start sp, sp_end sp) ∈ find_iter pat text)
  /\ (forall pat a b, pat ∈ PROTECTED_PATTERNS -> (a, b) ∈ find_iter pat text -> a < b ->
        exists sp, sp ∈ protected_spans text /\ sp_start sp <= a < sp_end sp).
Proof.
  split_and!.
  - apply protected_spans_ok.
  - intros sp Hin. rewrite protected_spans_eq in Hin.
    apply select_spans_sub in Hin. rewrite sort_by_perm in Hin.
    unfold protected_matches in Hin.
    apply list_elem_of_In, in_concat in Hin as (l & Hl & Hin).
    apply in_map_iff in Hl as (pat & <- & Hpat). apply filter_In in Hin as [Hin _].
    exists pat. rewrite !list_elem_of_In. done.
  - intros pat a b Hpat Hin Hlt. rewrite protected_spans_eq.
    apply (select_spans_covers 0 _ (a, b)); [| | |simpl; lia].
    + apply sort_by_sorted; eauto using span_before_total, span_before_trans.
    + eapply Permutation_Forall; [symmetry; apply sort_by_perm|].
      eapply Forall_impl; [apply protected_matches_good|]. by intros m (? & _).
    + rewrite sort_by_perm. apply list_elem_of_In, in_concat.
      eexists. split; [apply in_map, list_elem_of_In, Hpat|].
      apply filter_In. rewrite <- list_elem_of_In. split; [done|]. by apply Nat.ltb_lt.
Qed.

(** [protected_spans_rune] converts offsets exactly: each rune span of the result starts
    and ends at the same position of the text as the byte span it comes from. *)
Theorem protected_spans_rune_exact `{Patterns} (Hok : PatternsOk H) (text : str) :
  Forall2 (fun b r => same_position text (sp_start b) (sp_start r)
                      /\ same_position text (sp_end b) (sp_end r))
    (protected_spans text) (protected_spans_rune text (protected_spans text)).
Proof.
  unfold protected_spans_rune.
  apply (protected_spans_rune_loop_spec text [] text); [done|apply protected_spans_ok].
Qed.

(** A forced split of [text] terminates with units that carry the whole text in order,
    each non-empty, at most [HARD_CAP] runes long, and labelled with its own offsets. *)
Theorem force_split_runes_total (text : str) (base : nat) :
  units_text (force_split_runes text base) = text
  /\ Forall (fun u => base <= su_start u < su_end u
                      /\ su_text u = sub text (su_start u - base) (su_end u - base)
                      /\ length (su_text u) <= HARD_CAP)
       (force_split_runes text base).
Proof.
  set (doc := replicate base 0%Z ++ text).
  assert (text = sub doc base (base + length text)) as Hsub.
  { unfold doc. rewrite sub_app_r by by rewrite length_replicate.
    rewrite length_replicate, Nat.sub_diag.
    replace (base + length text - base) with (length text) by lia. by rewrite sub_full. }
  assert (base + length text <= length doc) as Hlen.
  { unfold doc. rewrite length_app, length_replicate. lia. }
  destruct (force_split_runes_tile doc text base Hsub Hlen) as [Ht Hcap]. split.
  - by rewrite (units_tile_text _ _ _ _ Ht), <- Hsub.
  - assert (forall us a b, units_tile doc a us b -> base <= a ->
              Forall (fun u => base <= su_start u < su_end u /\
                        su_text u = sub doc (su_start u) (su_end u)) us) as Hall.
    { clear. induction us as [|u us IH]; simpl; intros a b H Ha; constructor.
      - destruct H as (<- & ? & -> & _). split; [lia|done].
      - destruct H as (<- & ? & _ & H). eapply IH; [exact H|]. lia. }
    specialize (Hall _ _ _ Ht (le_n _)). rewrite Forall_forall in *.
    intros u Hu. destruct (Hall u Hu) as [? Hs]. split_and!; [lia|lia| |by apply Hcap].
    rewrite Hs at 1. unfold doc. rewrite sub_app_r by (rewrite length_replicate; lia).
    by rewrite length_replicate.
Qed.

(** ** Witnesses *)

Definition sample_doc : str := u8"前文

| A | B |
| --- | --- |
| 1 | 2 |

$$E=mc$$ tail text".

Definition sample_seps : list str := [[NL; NL]; [NL]; [IDEOGRAPHIC_STOP]].

Lemma split_by_separators_lossless_witness :
  exists pieces,
    @split_by_separators demo_patterns sample_doc sample_seps 12 = Some pieces
    /\ concat pieces = sample_doc
    /\ (sample_doc <> [] -> Forall (fun p => p <> []) pieces).
Proof.
  exact (@split_by_separators_lossless demo_patterns demo_patterns_ok sample_doc sample_seps 12).
Defined.

Lemma protected_spans_select_witness :
  length (@protected_spans demo_patterns sample_doc) = 3
  /\ ordered_spans sample_doc 0 (@protected_spans demo_patterns sample_doc).
Proof.
  split; [vm_compute; reflexivity|].
  exact (proj1 (@protected_spans_select demo_patterns demo_patterns_ok sample_doc)).
Defined.

Lemma protected_spans_rune_exact_witness :
  Forall2 (fun b r => same_position sample_doc (sp_start b) (sp_start r)
                      /\ same_position sample_doc (sp_end b) (sp_end r))
    (@protected_spans demo_patterns sample_doc)
    (@protected_spans_rune sample_doc (@protected_spans demo_patterns sample_doc)).
Proof.
  exact (@protected_spans_rune_exact demo_patterns demo_patterns_ok sample_doc).
Defined.
