(* ===== verification/MergeFacts.v ===== *)
(** * Facts about the merge of units into chunks

    The invariant of the loop of [merge_units], and the properties of [merge_units] and
    [split_text]: they never panic, and the chunks tile the text up to the overlap. *)
From S2P Require Import Prelude RustStr Regex DemoPatterns HeaderTracker Splitter SplitterFacts.

Lemma last_app_ne {A} (l1 l2 : list A) : l2 <> [] -> last (l1 ++ l2) = last l2.
Proof.
  intros Hne. destruct (exists_last Hne) as (l & x & ->). by rewrite app_assoc, !last_snoc.
Qed.

Lemma overlap_scan_spec co cs next rl suf l idx i l' :
  idx = length rl -> l = length (units_text suf) -> l <= co ->
  (suf = [] \/ l + next <= cs) ->
  overlap_scan co cs next rl l idx = (i, l') ->
  l' = length (units_text (drop i (rev rl ++ suf))) /\ l' <= co
  /\ (drop i (rev rl ++ suf) = [] \/ l' + next <= cs).
Proof.
  revert suf l idx. induction rl as [|u rl IH]; intros suf l idx Hi Hl Hco Hb Hs; simpl in *.
  - simplify_eq. rewrite drop_0. done.
  - assert (drop idx ((rev rl ++ [u]) ++ suf) = suf) as Hdrop.
    { rewrite drop_app_length' by (rewrite length_app, length_rev; simpl; lia). done. }
    repeat case_match; bool_to_prop; simplify_eq.
    + rewrite Hdrop. done.
    + rewrite Hdrop. done.
    + assert (rev rl ++ u :: suf = (rev rl ++ [u]) ++ suf) as Heq by by rewrite <- app_assoc.
      rewrite <- Heq. unfold rune_len in *.
      eapply (IH (u :: suf)); [| | | |exact Hs]; [lia| |lia|right; lia].
      change (u :: suf) with ([u] ++ suf). rewrite units_text_app, length_app.
      unfold units_text at 2. simpl. rewrite app_nil_r. lia.
Qed.

Lemma overlap_skip_spec us l us' l' :
  l = length (units_text us) -> overlap_skip us l = (us', l') ->
  (exists p, us = p ++ us') /\ l' = length (units_text us')
  /\ match us' with [] => True | u :: _ => su_start u <> su_end u end.
Proof.
  revert l. induction us as [|u us IH]; intros l Hl Hs; simpl in *.
  - simplify_eq. split_and!; [by exists []|done|done].
  - case_match; simplify_eq.
    + eapply IH in Hs as ([p ->] & ? & ?).
      * split_and!; [by exists (u :: p)|done|done].
      * change (u :: us) with ([u] ++ us). rewrite units_text_app, length_app.
        unfold units_text at 1, rune_len. simpl. rewrite app_nil_r. lia.
    + bool_to_prop. split_and!; [by exists []|done|done].
Qed.

Section merge.
Context `{Patterns} (text : str) (units : list SplitUnit) (cs ov : nat).

(** A header the tracker reported after some prefix of the units. *)
Definition known_header (hdr : str) : Prop :=
  hdr = [] \/ exists k, hdr = get_headers (foldl update tracker_new (map su_text (take k units))).

Definition in_one_unit (s e : nat) : Prop :=
  exists u, u ∈ units /\ su_start u <= s /\ e <= su_end u.

(** Within the budget, or an indivisible piece below the hard cap. *)
Definition within_budget (len s e : nat) (hdr : str) : Prop :=
  len <= cs \/ (len <= HARD_CAP /\ hdr = [] /\ in_one_unit s e).

Definition chunk_ok (c : TextChunk) : Prop :=
  tc_start c <= tc_end c <= length text /\ context_header c = []
  /\ exists hdr, known_header hdr
       /\ content c = hdr ++ sub text (tc_start c) (tc_end c)
       /\ within_budget (length (content c)) (tc_start c) (tc_end c) hdr.

(** Each chunk starts at most [ov] runes before the end of the previous one, never after
    it, and ends no earlier. *)
Fixpoint gapless (e : nat) (chunks : list TextChunk) (n : nat) : Prop :=
  match chunks with
  | [] => e = n
  | c :: chunks' => e - ov <= tc_start c <= e /\ e <= tc_end c /\ gapless (tc_end c) chunks' n
  end.

Definition numbered (chunks : list TextChunk) : Prop :=
  forall i c, chunks !! i = Some c -> seq c = i.

Definition chunks_ok (chunks : list TextChunk) (e : nat) : Prop :=
  Forall chunk_ok chunks /\ numbered chunks /\ gapless 0 chunks e.

Lemma gapless_snoc e chunks c m :
  gapless e chunks m -> m - ov <= tc_start c <= m -> m <= tc_end c ->
  gapless e (chunks ++ [c]) (tc_end c).
Proof.
  revert e. induction chunks as [|c' chunks IH]; simpl; intros e Hg ? ?; [subst; done|].
  destruct Hg as (? & ? & ?). split_and!; [lia|lia|lia|auto].
Qed.

Lemma chunks_ok_snoc chunks c m :
  chunks_ok chunks m -> chunk_ok c -> seq c = length chunks ->
  m - ov <= tc_start c <= m -> m <= tc_end c -> chunks_ok (chunks ++ [c]) (tc_end c).
Proof.
  intros (H1 & H2 & H3) Hc Hs ? ?. split_and!.
  - apply Forall_app. split; [done|]. by constructor.
  - intros i c' Hi. apply lookup_app_Some in Hi as [Hi|[Hle Hi]]; [by apply H2|].
    apply list_lookup_singleton_Some in Hi as [? ->]. lia.
  - by eapply gapless_snoc.
Qed.

(** The units of [current]: an optional header marker, then units that tile [s..pos]. *)
Definition marker (hdr : str) (s : nat) : list SplitUnit :=
  if str_is_empty hdr then [] else [header_marker hdr s].

Lemma marker_text hdr s : units_text (marker hdr s) = hdr.
Proof. destruct hdr; [done|]. unfold units_text. simpl. by rewrite app_nil_r. Qed.

Record current_ok (chunks : list TextChunk) (current : list SplitUnit) (cur_len pos : nat)
    (e s : nat) (hdr : str) (reals : list SplitUnit) : Prop := {
  co_chunks : chunks_ok chunks e;
  co_current : current = marker hdr s ++ reals;
  co_tile : units_tile text s reals pos;
  co_known : known_header hdr;
  co_pos : e - ov <= s <= e /\ e <= pos /\ pos <= length text;
  co_empty : current = [] -> e = pos;
  co_len : cur_len = length (units_text current);
  co_budget : within_budget cur_len s pos hdr;
}.

Definition ready (chunks : list TextChunk) (current : list SplitUnit) (cur_len pos : nat) : Prop :=
  exists e s hdr reals, current_ok chunks current cur_len pos e s hdr reals.

Lemma build_chunk_spec hdr s reals pos n :
  units_tile text s reals pos -> marker hdr s ++ reals <> [] ->
  build_chunk (marker hdr s ++ reals) n
  = Some {| content := hdr ++ sub text s pos; context_header := []; seq := n;
            tc_start := s; tc_end := pos |}.
Proof.
  intros Ht Hne. unfold build_chunk.
  rewrite units_text_app, marker_text, (units_tile_text _ _ _ _ Ht).
  destruct reals as [|u reals].
  - simpl in Ht. subst pos. destruct hdr as [|h hdr]; done.
  - assert (exists ul, last (u :: reals) = Some ul) as (ul & Hl).
    { destruct (last (u :: reals)) eqn:E; [eauto|]. by apply last_None in E. }
    pose proof (units_tile_last _ _ _ _ _ Ht Hl) as He.
    rewrite last_app_ne by done. rewrite Hl.
    destruct Ht as (Hs & _). destruct hdr as [|h hdr]; simpl; by rewrite ?Hs, ?He.
Qed.

Lemma push_current_ok chunks current cur_len pos :
  ready chunks current cur_len pos -> current <> [] ->
  exists chunks', push_current chunks current = Some chunks' /\ chunks_ok chunks' pos.
Proof.
  intros (e & s & hdr & reals & [Hc -> Ht Hk (? & ? & ?) _ Hl Hb]) Hne.
  pose proof (units_tile_le _ _ _ _ Ht). unfold push_current.
  rewrite (build_chunk_spec hdr s reals pos) by done. simpl. eexists. split; [done|].
  match goal with |- chunks_ok (_ ++ [?c]) _ => apply (chunks_ok_snoc chunks c e) end;
    simpl; try done; try lia.
  split_and!; simpl; [lia|lia|done|]. exists hdr. split_and!; [done|done|].
  rewrite units_text_app, marker_text, (units_tile_text _ _ _ _ Ht) in Hl. by subst.
Qed.

Lemma marker_nil s : marker [] s = [].
Proof. done. Qed.

Lemma known_nil : known_header [].
Proof. by left. Qed.

Lemma ready_nil chunks pos : chunks_ok chunks pos -> pos <= length text -> ready chunks [] 0 pos.
Proof.
  intros. exists pos, pos, [], []. split; try done.
  - apply known_nil.
  - lia.
  - left. lia.
Qed.

Lemma flush_if_ok cond st pos :
  ready (ms_chunks st) (ms_current st) (ms_cur_len st) pos ->
  exists st', flush_if cond st = Some st' /\ ms_ht st' = ms_ht st
    /\ ready (ms_chunks st') (ms_current st') (ms_cur_len st') pos
    /\ (ms_current st' = ms_current st /\ ms_cur_len st' = ms_cur_len st
          /\ (cond = false \/ ms_current st = [])
        \/ ms_current st' = [] /\ ms_cur_len st' = 0).
Proof.
  intros Hr. unfold flush_if. destruct cond; simpl; [|eexists; naive_solver].
  destruct (ms_current st) as [|u us] eqn:E; simpl.
  - eexists. split; [done|]. rewrite E. naive_solver.
  - destruct (push_current_ok _ _ _ _ Hr) as (chunks' & -> & Hc); [done|]. simpl.
    eexists. split; [done|]. simpl. split; [done|]. split; [|by right].
    apply ready_nil; [done|]. destruct Hr as (? & ? & ? & ? & [? ? ? ? (? & ? & ?) ? ? ?]). lia.
Qed.

(** The overlap is a suffix of the real units of [current]. *)
Lemma compute_overlap_ok hdr s reals pos next us l :
  units_tile text s reals pos ->
  compute_overlap (marker hdr s ++ reals) ov cs next = (us, l) ->
  exists s', s <= s' /\ units_tile text s' us pos /\ l = length (units_text us) /\ l <= ov
    /\ (us = [] \/ l + next <= cs).
Proof.
  intros Ht. unfold compute_overlap. case_match.
  - intros [= <- <-]. exists pos. split_and!; simpl; try lia; [|by left].
    by apply units_tile_le in Ht.
  - destruct (overlap_scan _ _ _ _ _ _) as [i l0] eqn:Hscan. intros Hskip.
    pose proof (overlap_scan_spec _ _ _ _ [] 0 _ _ _ (eq_sym (length_rev _)) eq_refl
                  (Nat.le_0_l _) (or_introl eq_refl) Hscan) as (Hl0 & Hov & Hbud).
    rewrite app_nil_r, rev_involutive in Hl0, Hbud.
    pose proof (overlap_skip_spec _ _ _ _ Hl0 Hskip) as ([p Hp] & Hl & Hhead).
    assert (l <= l0 /\ (us <> [] -> drop i (marker hdr s ++ reals) <> [])) as [Hll Hnn].
    { rewrite Hl0, Hp, units_text_app, length_app, <- Hl. split; [lia|].
      intros Hus Happ. by apply app_nil in Happ as [_ ->]. }
    assert (exists q, reals = q ++ us) as [q Hq].
    { destruct us as [|u us]; [exists reals; by rewrite app_nil_r|].
      assert (marker hdr s ++ reals = (take i (marker hdr s ++ reals) ++ p) ++ u :: us) as Heq.
      { rewrite <- app_assoc, <- Hp, take_drop. done. }
      destruct hdr as [|h hdr]; [simpl in Heq; eauto|]. simpl in Heq.
      destruct (take i _ ++ p) as [|m q'] eqn:E.
      - simpl in Heq. by simplify_eq.
      - simpl in Heq. simplify_eq. eauto. }
    subst reals. apply units_tile_app in Ht as (s' & Hq1 & Hq2). exists s'.
    split_and!; [by apply units_tile_le in Hq1|done|done|lia|].
    destruct us; [by left|]. right. destruct Hbud as [Hd|]; [|lia]. by apply Hnn in Hd.
Qed.

Lemma shrink_overlap_ok need us l s pos :
  units_tile text s us pos -> l = length (units_text us) ->
  exists us' l' s', shrink_overlap cs need us l = Some (us', l')
    /\ s <= s' /\ units_tile text s' us' pos /\ l' = length (units_text us')
    /\ (us' = [] \/ l' + need <= cs).
Proof.
  revert l s. induction us as [|u us IH]; intros l s Ht Hl; simpl.
  - eexists [], _, s. naive_solver.
  - assert (length (units_text (u :: us)) = length (su_text u) + length (units_text us)) as Hlen.
    { change (u :: us) with ([u] ++ us). rewrite units_text_app, length_app.
      unfold units_text at 1. simpl. by rewrite app_nil_r. }
    destruct (Nat.ltb_spec cs (l + need)).
    + destruct Ht as (<- & ? & _ & Ht).
      replace (checked_sub l (rune_len (su_text u))) with (Some (length (units_text us)))
        by (symmetry; apply checked_sub_Some; unfold rune_len; lia).
      simpl. destruct (IH _ _ Ht eq_refl) as (us' & l' & s' & -> & ? & ? & ? & ?).
      exists us', l', s'. split_and!; [done|lia|done|done|done].
    + exists (u :: us), l, s. split_and!; [done|done|done|done|by right].
Qed.

Lemma tile_in_head s us pos u us' :
  units_tile text s us pos -> us = u :: us' -> su_start u = s.
Proof. intros Ht ->. by destruct Ht. Qed.

(** What [roll_over] leaves: ready for the next unit, which fits unless nothing is left. *)
Definition fits (current : list SplitUnit) (cur_len u_len : nat) : Prop :=
  current = [] \/ cur_len + u_len <= cs.

Lemma overlap_with_header_ok chunks hdr0 s reals pos headers (u : SplitUnit) :
  chunks_ok chunks pos -> pos <= length text ->
  units_tile text s reals pos -> known_header headers -> su_start u = pos ->
  exists current cur_len,
    overlap_with_header cs ov headers (marker hdr0 s ++ reals) u = Some (current, cur_len)
    /\ ready chunks current cur_len pos /\ fits current cur_len (length (su_text u)).
Proof.
  intros Hc Hpos Ht Hk Hu. unfold overlap_with_header, rune_len.
  destruct (compute_overlap _ _ _ _) as [us l] eqn:Hco.
  destruct (compute_overlap_ok _ _ _ _ _ _ _ Ht Hco) as (s1 & Hs1 & Ht1 & Hl1 & Hov1 & Hb1).
  assert (forall s2 hdr us2, known_header hdr -> units_tile text s2 us2 pos ->
            length (units_text us2) <= ov ->
            (marker hdr s2 ++ us2 = [] \/
             length hdr + length (units_text us2) + length (su_text u) <= cs) ->
            ready chunks (marker hdr s2 ++ us2) (length hdr + length (units_text us2)) pos) as Hready.
  { intros s2 hdr us2 Hk2 Ht2 Ho2 Hb2. exists pos, s2, hdr, us2.
    pose proof (units_tile_le _ _ _ _ Ht2). pose proof (units_tile_len _ _ _ _ Ht2 Hpos).
    split; try done; try lia.
    - by rewrite units_text_app, marker_text, length_app.
    - destruct Hb2 as [Hb2|Hb2]; [|left; lia].
      apply app_nil in Hb2 as [Hm ->]. destruct hdr; [|done]. left. simpl. lia. }
  assert (ready chunks us l pos /\ fits us l (length (su_text u))) as Hplain.
  { pose proof (Hready s1 [] us known_nil Ht1) as Hr. simpl in Hr. rewrite <- Hl1 in Hr.
    split; [apply Hr; [lia|destruct Hb1; [by left|right; lia]]|].
    destruct Hb1; [by left|right; lia]. }
  destruct (negb (str_is_empty headers) && _) eqn:Hcond; [|naive_solver].
  bool_to_prop.
  destruct (shrink_overlap_ok (length (su_text u) + length headers) us l s1 pos Ht1 Hl1)
    as (us' & l' & s' & -> & Hs' & Ht' & Hl' & Hb'). simpl.
  pose proof (units_tile_len _ _ _ _ Ht1 Hpos). pose proof (units_tile_len _ _ _ _ Ht' Hpos).
  assert (l' <= l) by lia.
  destruct (negb _ && negb _).
  - eexists _, _. split; [done|].
    assert (header_marker headers (match us' with [] => su_start u | v :: _ => su_start v end)
            :: us' = marker headers s' ++ us') as ->.
    { destruct headers; [done|]. unfold marker. simpl. do 2 f_equal.
      destruct us' as [|v us']; [simpl in Ht'; congruence|by destruct Ht']. }
    pose proof (Hready s' headers us' Hk Ht') as Hr. rewrite <- Hl' in Hr.
    assert (length headers + l' + length (su_text u) <= cs) as Hfit.
    { destruct Hb' as [->|]; [|lia]. simpl in *. lia. }
    rewrite (Nat.add_comm l'). split; [apply Hr; [lia|by right]|right; lia].
  - eexists _, _. split; [done|].
    pose proof (Hready s' [] us' known_nil Ht') as Hr. simpl in Hr. rewrite <- Hl' in Hr.
    split; [apply Hr; [lia|destruct Hb'; [by left|right; lia]]|].
    destruct Hb'; [by left|right; lia].
Qed.

Lemma roll_over_ok headers (u : SplitUnit) st pos :
  ready (ms_chunks st) (ms_current st) (ms_cur_len st) pos ->
  known_header headers -> su_start u = pos ->
  exists st', roll_over cs ov headers u st = Some st' /\ ms_ht st' = ms_ht st
    /\ ready (ms_chunks st') (ms_current st') (ms_cur_len st') pos
    /\ fits (ms_current st') (ms_cur_len st') (length (su_text u)).
Proof.
  intros Hr Hk Hu. unfold roll_over, rune_len.
  destruct (ms_current st) as [|v vs] eqn:E.
  - rewrite andb_false_r. exists st. rewrite E. split_and!; [done|done|done|by left].
  - rewrite andb_true_r. destruct (Nat.ltb_spec cs
      (ms_cur_len st + length (su_text u) + length headers)).
    + destruct (push_current_ok _ _ _ _ Hr) as (chunks' & -> & Hc); [done|]. simpl.
      destruct Hr as (e & s & hdr & reals & [_ Hcur Ht _ (? & ? & ?) _ _ _]). rewrite Hcur.
      destruct (overlap_with_header_ok chunks' hdr s reals pos headers u)
        as (current & cur_len & -> & Hr' & Hf); try done.
      simpl. eexists. split; [done|]. done.
    + exists st. rewrite E. split_and!; [done|done|done|right; lia].
Qed.

(** ** The loop *)

Definition loop_inv (st : MergeState) (rest : list SplitUnit) : Prop :=
  exists done pos, units = done ++ rest /\ units_tile text 0 done pos
    /\ units_tile text pos rest (length text)
    /\ ms_ht st = foldl update tracker_new (map su_text done)
    /\ ready (ms_chunks st) (ms_current st) (ms_cur_len st) pos.

Lemma known_after done u rest :
  units = done ++ u :: rest ->
  known_header (get_headers (update (foldl update tracker_new (map su_text done)) (su_text u))).
Proof.
  intros Hu. right. exists (S (length done)).
  replace (take (S (length done)) units) with (done ++ [u]).
  - by rewrite map_app, foldl_app.
  - rewrite Hu. replace (done ++ u :: rest) with ((done ++ [u]) ++ rest) by by rewrite <- app_assoc.
    rewrite take_app_length'; [done|]. rewrite length_app. simpl. lia.
Qed.

Lemma push_unit_ready chunks current cur_len pos u :
  ready chunks current cur_len pos -> fits current cur_len (length (su_text u)) ->
  u ∈ units -> units_tile text pos [u] (su_end u) -> length (su_text u) <= HARD_CAP ->
  ready chunks (current ++ [u]) (cur_len + length (su_text u)) (su_end u).
Proof.
  intros (e & s & hdr & reals & [Hc Hcur Ht Hk (? & ? & ?) Hem Hl Hb]) Hfit Hin Hu Hcap.
  pose proof (units_tile_bound _ _ _ _ Hu ltac:(lia)). pose proof (units_tile_le _ _ _ _ Hu).
  assert (units_text (current ++ [u]) = units_text current ++ su_text u) as Htxt.
  { rewrite units_text_app. f_equal. unfold units_text. simpl. by rewrite app_nil_r. }
  exists e, s, hdr, (reals ++ [u]). split; try done; try lia.
  - by rewrite Hcur, app_assoc.
  - apply units_tile_app. eauto.
  - intros Hnil. by apply app_nil in Hnil as [_ ?].
  - rewrite Htxt, length_app. lia.
  - destruct Hfit as [Hnil|Hfit]; [|left; lia].
    assert (marker hdr s ++ reals = []) as Hnil' by congruence.
    apply app_nil in Hnil' as [Hm ->]. destruct hdr; [|done]. simpl in Ht. subst s.
    assert (length (units_text current) = 0) as Hz by by rewrite Hnil.
    destruct (decide (length (su_text u) <= cs)); [left; lia|]. right. split_and!; [lia|done|].
    exists u. destruct Hu as (-> & _). split_and!; [done|lia|lia].
Qed.

Lemma push_pieces_ok chunks pieces a b u :
  chunks_ok chunks a -> units_tile text a pieces b -> b <= length text ->
  Forall (fun p => length (su_text p) <= HARD_CAP) pieces ->
  u ∈ units -> su_start u <= a -> b <= su_end u ->
  chunks_ok (push_pieces chunks pieces) b.
Proof.
  revert chunks a. induction pieces as [|p ps IH]; intros chunks a Hc Ht Hb Hcap Hin Hs He; simpl.
  - simpl in Ht. by subst.
  - destruct Ht as (<- & ? & Htxt & Ht). inversion_clear Hcap as [|? ? Hcap1 Hcap2].
    pose proof (units_tile_le _ _ _ _ Ht).
    eapply IH; [|exact Ht|done|done|exact Hin|lia|done].
    match goal with |- chunks_ok (_ ++ [?c]) _ => apply (chunks_ok_snoc chunks c (su_start p)) end;
      simpl; try done; try lia.
    split_and!; simpl; [lia|lia|done|]. exists []. split_and!; [apply known_nil|done|].
    right. split_and!; [done|done|]. exists u. split_and!; [done|lia|lia].
Qed.

Lemma merge_step_ok st u rest :
  loop_inv st (u :: rest) -> exists st', merge_step cs ov st u = Some st' /\ loop_inv st' rest.
Proof.
  intros (done & pos & Hu & Hd & Hr & Hht & Hready).
  assert (u ∈ units) as Hin by (rewrite Hu; set_solver).
  assert (pos <= length text) as Hpos.
  { destruct Hready as (? & ? & ? & ? & [? ? ? ? (? & ? & ?) ? ? ?]). done. }
  destruct Hr as (Hus & Hue & Hut & Hrest).
  assert (units_tile text pos [u] (su_end u)) as Hone by done.
  assert (units_tile text 0 (done ++ [u]) (su_end u)) as Hdone' by (apply units_tile_app; eauto).
  pose proof (known_after _ _ _ Hu) as Hkn. unfold merge_step, rune_len. rewrite Hht.
  set (ht := update (foldl update tracker_new (map su_text done)) (su_text u)) in *.
  assert (ht = foldl update tracker_new (map su_text (done ++ [u]))) as Hht'
    by by rewrite map_app, foldl_app.
  assert (units = (done ++ [u]) ++ rest) as Hu' by by rewrite <- app_assoc.
  destruct (Nat.ltb_spec HARD_CAP (length (su_text u))).
  - destruct (flush_if_ok true st pos Hready) as (st1 & -> & _ & Hr1 & Hcase).
    rewrite some_bind.
    assert (ms_current st1 = [] /\ ms_cur_len st1 = 0 /\ chunks_ok (ms_chunks st1) pos)
      as (Hc1 & Hl1 & Hok1).
    { assert (ms_current st1 = []) as Hnil.
      { destruct Hcase as [(Heq & _ & [Hf|Hf])|[Hn _]]; [done|congruence|done]. }
      destruct Hr1 as (e & s & hdr & reals & [Hc _ _ _ _ Hem Hl _]).
      rewrite Hnil in Hl. split_and!; [done|done|]. by rewrite <- (Hem Hnil). }
    eexists. split; [done|]. exists (done ++ [u]), (su_end u). simpl.
    assert (chunks_ok (push_pieces (ms_chunks st1) (force_split_runes (su_text u) (su_start u)))
              (su_end u)) as Hfin.
    { destruct (force_split_runes_tile text (su_text u) (su_start u)) as [Hft Hfc].
      - rewrite Hut at 1. f_equal. rewrite Hut, length_sub by lia. lia.
      - rewrite Hut, length_sub by lia. lia.
      - replace (su_start u + length (su_text u)) with (su_end u) in Hft
          by (rewrite Hut, length_sub by lia; lia).
        subst pos. eapply push_pieces_ok; [exact Hok1|exact Hft|lia|done|exact Hin|lia|lia]. }
    split_and!; [done|done|done|done|].
    rewrite Hc1, Hl1. apply ready_nil; [done|lia].
  - destruct (flush_if_ok (header_ended_this_unit ht) (with_tracker ht st) pos Hready)
      as (st1 & -> & Hht1 & Hr1 & _). rewrite some_bind.
    set (headers := if cs <? length (get_headers ht) then [] else get_headers ht).
    assert (known_header headers) as Hkh by (unfold headers; case_match; [apply known_nil|done]).
    destruct (roll_over_ok headers u st1 pos Hr1 Hkh Hus) as (st2 & -> & Hht2 & Hr2 & Hf2).
    rewrite some_bind.
    destruct (flush_if_ok (HARD_CAP <? ms_cur_len st2 + length (su_text u)) st2 pos Hr2)
      as (st3 & -> & Hht3 & Hr3 & Hcase).
    rewrite some_bind.
    eexists. split; [done|]. exists (done ++ [u]), (su_end u).
    split_and!; [done|done|done| |].
    + change (ms_ht (push_unit u st3)) with (ms_ht st3). rewrite Hht3, Hht2, Hht1. done.
    + apply push_unit_ready with (pos := pos); [done| |done|done|done].
      destruct Hcase as [(-> & -> & _)|[-> _]]; [done|by left].
Qed.

Lemma merge_units_ok :
  units_tile text 0 units (length text) ->
  exists chunks, merge_units units cs ov = Some chunks /\ chunks_ok chunks (length text).
Proof.
  intros Ht. unfold merge_units. destruct units as [|u0 us0] eqn:E.
  - exists []. simpl in Ht. split; [done|]. split_and!; [constructor|done|done].
  - rewrite <- E in *.
    destruct (foldM_invariant (merge_step cs ov) loop_inv units
      {| ms_ht := tracker_new; ms_chunks := []; ms_current := []; ms_cur_len := 0 |})
      as (st & -> & done & pos & Hu & Hd & Hr & _ & Hready).
    { exists [], 0. split_and!; [done|done|done|done|].
      apply ready_nil; [|lia]. split_and!; [constructor|done|done]. }
    { apply merge_step_ok. }
    simpl in Hr. subst pos. simpl.
    destruct (flush_if_ok true st (length text) Hready) as (st1 & -> & _ & Hr1 & Hcase). simpl.
    exists (ms_chunks st1). split; [done|].
    assert (ms_current st1 = []) as Hnil.
    { destruct Hcase as [(Heq & _ & [Hf|Hf])|[Hn _]]; [done|congruence|done]. }
    destruct Hr1 as (e & s & hdr & reals & [Hc _ _ _ _ Hem _ _]). by rewrite <- (Hem Hnil).
Qed.
End merge.

(** ** The splitter as a whole *)

Section split_text.
Context `{Patterns} `{!PatternsOk H}.

Definition effective_size (chunk_size : nat) : nat :=
  if chunk_size =? 0 then DEFAULT_CHUNK_SIZE else chunk_size.

(** The units [split_text] merges. *)
Definition text_units (text : str) (chunk_size : nat) (separators : list str)
    : option (list SplitUnit) :=
  build_units_with_protection text (protected_spans text) separators (effective_size chunk_size).

Lemma split_text_ok text cs ov seps :
  exists units chunks,
    text_units text cs seps = Some units /\ units_tile text 0 units (length text)
    /\ split_text text cs ov seps = Some chunks
    /\ chunks_ok text units (effective_size cs) ov chunks (length text).
Proof.
  destruct (build_units_tile text (protected_spans text) seps (effective_size cs)
              (protected_spans_ok text)) as (units & Hu & Ht).
  exists units. unfold split_text, text_units. rewrite Hu.
  destruct (merge_units_ok text units (effective_size cs) ov Ht) as (chunks & Hm & Hok).
  destruct text as [|c text]; simpl.
  - exists []. split_and!; try done; constructor.
  - exists chunks. split_and!; try done. unfold effective_size in Hu, Hm. by rewrite Hu.
Qed.
End split_text.

Lemma gapless_nonempty ov chunks n : gapless ov 0 chunks n -> 0 < n -> chunks <> [].
Proof. destruct chunks; simpl; [lia|done]. Qed.

(** C2: [split_text] returns for every input, without a panic; its chunks are numbered from 0
    and leave no rune out: each starts at most [chunk_overlap] runes before the end of the one
    before and never behind it, the first starts at 0 and the last ends with the text. *)
Theorem split_text_covers `{Patterns} (Hok : PatternsOk H)
    (text : str) (chunk_size chunk_overlap : nat) (separators : list str) :
  exists chunks,
    split_text text chunk_size chunk_overlap separators = Some chunks
    /\ gapless chunk_overlap 0 chunks (length text)
    /\ numbered chunks
    /\ (text <> [] -> chunks <> []).
Proof.
  destruct (split_text_ok text chunk_size chunk_overlap separators)
    as (units & chunks & _ & _ & Hs & _ & Hn & Hg).
  exists chunks. split_and!; [done|done|done|].
  intros Hne. eapply gapless_nonempty; [exact Hg|]. destruct text; [done|simpl; lia].
Qed.

(** C3: every chunk of [split_text] carries exactly the runes its offsets name, preceded by
    nothing or by the table header that the tracker held after some prefix of the units. *)
Theorem split_text_content `{Patterns} (Hok : PatternsOk H)
    (text : str) (chunk_size chunk_overlap : nat) (separators : list str) :
  exists units chunks,
    text_units text chunk_size separators = Some units
    /\ units_text units = text
    /\ split_text text chunk_size chunk_overlap separators = Some chunks
    /\ Forall (fun c =>
         tc_start c <= tc_end c <= length text
         /\ exists hdr,
              content c = hdr ++ sub text (tc_start c) (tc_end c)
              /\ (hdr = [] \/ exists k,
                    hdr = table_header (table_run (map su_text (take k units))).1)) chunks.
Proof.
  destruct (split_text_ok text chunk_size chunk_overlap separators)
    as (units & chunks & Hu & Ht & Hs & Hc & _).
  exists units, chunks. split_and!; [done| |done|].
  - by rewrite (units_tile_text _ _ _ _ Ht), sub_full.
  - eapply Forall_impl; [exact Hc|]. intros c (Hb & _ & hdr & Hk & Hcont & _).
    split; [done|]. exists hdr. split; [done|]. destruct Hk as [|[k ->]]; [by left|].
    right. exists k. by rewrite tracker_new_of, run_updates_spec, get_headers_of.
Qed.

(** C39: the size budget: a chunk longer than the chunk size has at most [HARD_CAP] runes, carries
    no header and lies inside one unit of the splitter (all of it, or a piece of a unit above
    [HARD_CAP]); so with a chunk size up to [HARD_CAP] no chunk exceeds [HARD_CAP], headers
    included. *)
Theorem split_text_budget `{Patterns} (Hok : PatternsOk H)
    (text : str) (chunk_size chunk_overlap : nat) (separators : list str) :
  exists units chunks,
    text_units text chunk_size separators = Some units
    /\ split_text text chunk_size chunk_overlap separators = Some chunks
    /\ Forall (fun c =>
         length (content c) <= effective_size chunk_size
         \/ length (content c) <= HARD_CAP
            /\ content c = sub text (tc_start c) (tc_end c)
            /\ exists u, u ∈ units /\ su_start u <= tc_start c /\ tc_end c <= su_end u) chunks
    /\ (effective_size chunk_size <= HARD_CAP ->
        Forall (fun c => length (content c) <= HARD_CAP) chunks).
Proof.
  destruct (split_text_ok text chunk_size chunk_overlap separators)
    as (units & chunks & Hu & _ & Hs & Hc & _).
  exists units, chunks. split_and!; [done|done| |].
  - eapply Forall_impl; [exact Hc|]. intros c (_ & _ & hdr & _ & -> & [Hb|(Hb & -> & Hi)]); auto.
  - intros Hcap. eapply Forall_impl; [exact Hc|].
    intros c (_ & _ & hdr & _ & _ & [Hb|(Hb & _)]); lia.
Qed.

(** ** Witnesses *)

Lemma split_text_covers_witness :
  (exists chunks,
    @split_text demo_patterns sample_doc 12 4 sample_seps = Some chunks
    /\ gapless 4 0 chunks (length sample_doc)
    /\ numbered chunks
    /\ (sample_doc <> [] -> chunks <> []))
  /\ length <$> @split_text demo_patterns sample_doc 12 4 sample_seps = Some 5.
Proof.
  split; [|vm_compute; reflexivity].
  exact (@split_text_covers demo_patterns demo_patterns_ok sample_doc 12 4 sample_seps).
Defined.

Lemma split_text_content_witness :
  exists units chunks,
    @text_units demo_patterns sample_doc 40 sample_seps = Some units
    /\ units_text units = sample_doc
    /\ @split_text demo_patterns sample_doc 40 4 sample_seps = Some chunks
    /\ Forall (fun c =>
         tc_start c <= tc_end c <= length sample_doc
         /\ exists hdr,
              content c = hdr ++ sub sample_doc (tc_start c) (tc_end c)
              /\ (hdr = [] \/ exists k,
                    hdr = table_header (@table_run demo_patterns (map su_text (take k units))).1))
         chunks.
Proof.
  exact (@split_text_content demo_patterns demo_patterns_ok sample_doc 40 4 sample_seps).
Defined.

Lemma split_text_budget_witness :
  exists units chunks,
    @text_units demo_patterns sample_doc 12 sample_seps = Some units
    /\ @split_text demo_patterns sample_doc 12 4 sample_seps = Some chunks
    /\ Forall (fun c =>
         length (content c) <= effective_size 12
         \/ length (content c) <= HARD_CAP
            /\ content c = sub sample_doc (tc_start c) (tc_end c)
            /\ exists u, u ∈ units /\ su_start u <= tc_start c /\ tc_end c <= su_end u) chunks
    /\ (effective_size 12 <= HARD_CAP ->
        Forall (fun c => length (content c) <= HARD_CAP) chunks).
Proof.
  exact (@split_text_budget demo_patterns demo_patterns_ok sample_doc 12 4 sample_seps).
Defined.
