(* ===== verification/RustFloat.v ===== *)
(** * [f64] arithmetic

    The double-precision operations the code uses, through the executable IEEE 754
    specification of the standard library ([SpecFloat], precision 53, exponent bound 1024). *)
From S2P Require Import Prelude.
From Stdlib Require Export SpecFloat.

Abbreviation f64 := spec_float (only parsing).

(** [n as f64], rounded to nearest even. *)
Definition f64_of_Z (n : Z) : f64 := binary_normalize 53 1024 n 0 false.
Definition f64_of_usize (n : nat) : f64 := f64_of_Z (Z.of_nat n).

Definition f64_mul : f64 -> f64 -> f64 := SFmul 53 1024.
Definition f64_div : f64 -> f64 -> f64 := SFdiv 53 1024.
Definition f64_add : f64 -> f64 -> f64 := SFadd 53 1024.
Definition f64_sub : f64 -> f64 -> f64 := SFsub 53 1024.
Definition f64_sqrt : f64 -> f64 := SFsqrt 53 1024.
Definition f64_lt : f64 -> f64 -> bool := SFltb.
Definition f64_le : f64 -> f64 -> bool := SFleb.

(** The decimal literal [n / 10^d]: both operands are exact, so the correctly rounded
    quotient is the double the literal denotes. *)
Definition f64_lit (n d : Z) : f64 := f64_div (f64_of_Z n) (f64_of_Z (10 ^ d)).

(** [x as usize]: truncation towards zero, saturating; NaN is 0. *)
Definition f64_to_usize (x : f64) : nat :=
  match x with
  | S754_finite false m e =>
    let z := (if 0 <=? e then Zpos m * 2 ^ e else Zpos m / 2 ^ (- e))%Z in
    N.to_nat (N.min (Z.to_N z) (usize_modulus - 1))
  | S754_infinity false => N.to_nat (usize_modulus - 1)
  | _ => 0
  end.

Example f64_lit_exact : f64_lit 45 1 = f64_div (f64_of_Z 9) (f64_of_Z 2).
Proof. reflexivity. Qed.

(** ** [f32]

    A single-precision number is a [spec_float] of precision 24; the code only receives such
    numbers, tests them and widens them. *)

Abbreviation f32 := spec_float (only parsing).

(** [x.is_finite()] *)
Definition is_finite (x : spec_float) : bool :=
  match x with S754_zero _ | S754_finite _ _ _ => true | _ => false end.

(** [x == 0.0] *)
Definition is_zero (x : spec_float) : bool := SFeqb x (S754_zero false).

(** [f64::from(x)]: the same number with the mantissa of a double. *)
Definition f64_from_f32 (x : f32) : f64 :=
  match x with
  | S754_finite s m e => binary_normalize 53 1024 (cond_Zopp s (Zpos m)) e s
  | _ => x
  end.

Lemma is_zero_spec x : is_zero x = true <-> exists s, x = S754_zero s.
Proof. destruct x as [s|s| |s m e]; try destruct s; cbn; naive_solver. Qed.

Example f64_from_f32_exact : f64_from_f32 (S754_finite true 3 (-1)) = f64_sub (f64_of_Z 0) (f64_lit 15 1).
Proof. reflexivity. Qed.
