(* ===== verification/Tokens.v ===== *)
(** * [crates/knowledge/src/chunker/tokens.rs]

    The language guess from the script of a sample, and the character budget of a token
    limit. *)
From S2P Require Import Prelude RustStr RustFloat.

Definition LANG_ENGLISH : str := u8"en".
Definition LANG_GERMAN : str := u8"de".
Definition LANG_CHINESE : str := u8"zh".
Definition LANG_MIXED : str := u8"mixed".

Definition CHARS_PER_TOKEN (lang : str) : option f64 :=
  if str_eqb lang LANG_ENGLISH then Some (f64_lit 40 1)
  else if str_eqb lang LANG_GERMAN then Some (f64_lit 45 1)
  else if str_eqb lang LANG_CHINESE then Some (f64_lit 17 1)
  else if str_eqb lang LANG_MIXED then Some (f64_lit 30 1)
  else None.

Definition chars_for_token_limit (tokens : nat) (lang : str) : nat :=
  if tokens =? 0 then 0
  else
    let ratio := default (f64_lit 30 1) (CHARS_PER_TOKEN lang) in
    f64_to_usize (f64_mul (f64_mul (f64_of_usize tokens) ratio) (f64_lit 9 1)).

Definition in_range (lo hi r : char) : bool := ((lo <=? r) && (r <=? hi))%Z.

Definition is_cjk (r : char) : bool :=
  in_range 19968 40959 r || in_range 13312 19903 r || in_range 44032 55215 r
  || in_range 12352 12447 r || in_range 12448 12543 r.

Definition is_german_umlaut (r : char) : bool :=
  existsb (Z.eqb r) (u8"äöüÄÖÜß").

(** [while end > 0 && !s.is_char_boundary(end) { end -= 1; }] *)
Fixpoint back_to_boundary (s : str) (e : nat) : nat :=
  match e with
  | 0 => 0
  | S e' => if is_char_boundary s e then e else back_to_boundary s e'
  end.

Definition byte_prefix (s : str) (max_bytes : nat) : option str :=
  if blen s <=? max_bytes then Some s else slice s 0 (back_to_boundary s max_bytes).

Definition contains_lower (haystack needle : str) : bool :=
  let hbytes := as_bytes haystack in
  let nbytes := as_bytes needle in
  if length hbytes <? length nbytes then false
  else
    existsb (fun i =>
      forallb (fun j =>
        match hbytes !! (i + j), nbytes !! j with
        | Some h, Some n => (to_ascii_lowercase h =? n)%Z
        | _, _ => false
        end) (List.seq 0 (length nbytes)))
      (List.seq 0 (S (length hbytes - length nbytes))).

Definition german_words : list str :=
  [u8" der "; u8" die "; u8" das "; u8" und "; u8" ist "; u8" nicht "; u8" mit "; u8" auf "].

Definition has_german_words (s : str) : option bool :=
  sample ← byte_prefix s 512; Some (existsb (contains_lower sample) german_words).

(** The counters [(cjk, latin, umlaut)] of the loop over the chars. *)
Definition count_script (acc : nat * nat * nat) (r : char) : nat * nat * nat :=
  let '(cjk, latin, umlaut) := acc in
  if is_cjk r then (cjk + 1, latin, umlaut)
  else if is_german_umlaut r then (cjk, latin + 1, umlaut + 1)
  else if is_ascii_alphabetic r then (cjk, latin + 1, umlaut)
  else acc.

Definition detect_language (s : str) : option str :=
  if str_is_empty s then Some LANG_MIXED
  else
    let '(cjk, latin, umlaut) := foldl count_script (0, 0, 0) s in
    let total := cjk + latin in
    if total =? 0 then Some LANG_MIXED
    else
      let cjk_ratio := f64_div (f64_of_usize cjk) (f64_of_usize total) in
      let latin_ratio := f64_div (f64_of_usize latin) (f64_of_usize total) in
      if f64_le (f64_lit 15 2) cjk_ratio && f64_le (f64_lit 15 2) latin_ratio
      then Some LANG_MIXED
      else if f64_lt (f64_lit 3 1) cjk_ratio then Some LANG_CHINESE
      else
        german ← (if 0 <? umlaut then Some true else has_german_words s);
        Some (if german : bool then LANG_GERMAN else LANG_ENGLISH).

(** ** Lemmas *)

Lemma back_to_boundary_spec s e :
  back_to_boundary s e <= e /\ is_char_boundary s (back_to_boundary s e) = true
  /\ forall i, back_to_boundary s e < i <= e -> is_char_boundary s i = false.
Proof.
  induction e as [|e (IH1 & IH2 & IH3)].
  - simpl. split_and!; [done| |lia]. apply is_char_boundary_spec. by exists [], s.
  - simpl back_to_boundary. destruct (is_char_boundary s (S e)) eqn:E.
    + split_and!; [done|done|lia].
    + split_and!; [lia|done|]. intros i Hi. destruct (decide (i = S e)) as [->|]; [done|].
      apply IH3. lia.
Qed.

Lemma byte_prefix_spec s n :
  exists p r, byte_prefix s n = Some p /\ s = p ++ r /\ blen p <= n
    /\ (forall c r', r = c :: r' -> n < blen p + len_utf8 c).
Proof.
  unfold byte_prefix. case_match; bool_to_prop.
  - exists s, []. rewrite app_nil_r. naive_solver.
  - destruct (back_to_boundary_spec s n) as (H1 & H2 & H3).
    apply is_char_boundary_spec in H2 as (p & r & -> & Hp).
    exists p, r. split_and!; [|done|lia|].
    + rewrite <- Hp. apply slice_Some. exists [], r. done.
    + intros c r' ->. destruct (decide (blen p + len_utf8 c <= n)) as [Hle|]; [|lia].
      assert (is_char_boundary (p ++ c :: r') (blen p + len_utf8 c) = true) as Hb.
      { apply is_char_boundary_spec. exists (p ++ [c]), r'.
        rewrite <- app_assoc, blen_app. simpl. split; [done|lia]. }
      rewrite H3 in Hb; [done|]. pose proof (len_utf8_pos c). lia.
Qed.

Lemma has_german_words_total s : is_Some (has_german_words s).
Proof.
  unfold has_german_words. destruct (byte_prefix_spec s 512) as (p & r & -> & _). eauto.
Qed.

Lemma detect_language_total s : is_Some (detect_language s).
Proof.
  unfold detect_language. destruct (str_is_empty s); [eauto|].
  destruct (foldl _ _ _) as [[cjk latin] umlaut].
  destruct (_ =? 0); [eauto|]. destruct (_ && _); [eauto|]. destruct (f64_lt _ _); [eauto|].
  destruct (0 <? umlaut); simpl; [eauto|].
  destruct (has_german_words_total s) as [b ->]. simpl. eauto.
Qed.

#[export] Hint Resolve detect_language_total has_german_words_total : kb.

(** ** Properties *)

(** [byte_prefix] never slices off a char boundary: it returns the longest prefix of the
    string that has at most [max_bytes] bytes. *)
Theorem byte_prefix_longest (s : str) (max_bytes : nat) :
  exists p r,
    byte_prefix s max_bytes = Some p
    /\ s = p ++ r
    /\ blen p <= max_bytes
    /\ (forall q r', s = q ++ r' -> blen q <= max_bytes -> exists m, p = q ++ m).
Proof.
  destruct (byte_prefix_spec s max_bytes) as (p & r & Hp & Hs & Hle & Hmax).
  exists p, r. split_and!; [done|done|done|]. intros q r' Hq Hqle.
  destruct (decide (blen q <= blen p)) as [Hqp|Hqp].
  - destruct (prefix_blen_le q p r' r) as (m & -> & _); [congruence|done|]. eauto.
  - destruct (prefix_blen_le p q r r') as (m & -> & Hr); [congruence|lia|].
    destruct m as [|c m]; [exists []; by rewrite !app_nil_r|].
    specialize (Hmax c (m ++ r') Hr). rewrite blen_app in Hqle. simpl in Hqle. lia.
Qed.

Example token_budget_is_conservative : chars_for_token_limit 100 LANG_ENGLISH = 360.
Proof. vm_compute. reflexivity. Qed.

Example detects_scripts :
  detect_language (u8"Hello world this is English") = Some LANG_ENGLISH
  /\ detect_language (u8"这是一段中文内容用于检测") = Some LANG_CHINESE
  /\ detect_language (u8"Das ist nicht mit auf der die") = Some LANG_GERMAN.
Proof. vm_compute. auto. Qed.
