(* ===== verification/Profiler.v ===== *)
(** * [crates/knowledge/src/chunker/profiler.rs], [patterns.rs] and [heading_hierarchy.rs]

    The document profile and the choice of the chunking tiers, the chapter patterns of a
    language list, and the stack of open headings. *)
From S2P Require Import Prelude RustStr Regex RustFloat Tokens.

(** ** [patterns.rs] *)

Definition PRIO_FORM_FEED : Z := 100.
Definition PRIO_NUMBERED_HEAD : Z := 90.
Definition PRIO_CHAPTER_MARKER : Z := 85.
Definition PRIO_ALL_CAPS_HEADING : Z := 70.
Definition PRIO_VISUAL_SEP : Z := 60.
Definition PRIO_PAGE_FOOTER : Z := 50.
Definition PRIO_BLANK_BLOCK : Z := 40.

Section patterns.
Context `{Patterns}.

Definition all_chapters : list Regex := [GERMAN_CHAPTER; ENGLISH_CHAPTER; CHINESE_CHAPTER].

Definition chapter_pattern (l : str) : list Regex :=
  if str_eqb l LANG_GERMAN then [GERMAN_CHAPTER]
  else if str_eqb l LANG_ENGLISH then [ENGLISH_CHAPTER]
  else if str_eqb l LANG_CHINESE then [CHINESE_CHAPTER]
  else [].

Definition chapter_patterns_for_langs (langs : list str) : list Regex :=
  match langs with
  | [] => all_chapters
  | _ =>
    match concat (map chapter_pattern langs) with
    | [] => all_chapters
    | out => out
    end
  end.

(** [caps.get(1).map(|m| m.as_str().len()).unwrap_or(0)]: the number of hashes. *)
Definition heading_level (caps : list (option str)) : nat :=
  match cap_get caps 1 with Some m => blen m | None => 0 end.

Definition level_ok (level : nat) : bool := (1 <=? level) && (level <=? 6).
End patterns.

(** ** The profile *)

Record DocProfile := {
  total_chars : nat;
  total_lines : nat;
  avg_line_len : f64;
  std_line_len : f64;
  md_heading_counts : list nat;
  md_heading_total : nat;
  numbered_section_count : nat;
  all_caps_short_line_count : nat;
  blank_paragraph_breaks : nat;
  form_feed_count : nat;
  visual_sep_count : nat;
  german_chapter_count : nat;
  english_chapter_count : nat;
  chinese_chapter_count : nat;
  repeated_footer_count : nat;
  has_tables : bool;
  has_code : bool;
  code_ratio : f64;
  detected_langs : list str;
}.

Definition profile_default : DocProfile := {|
  total_chars := 0; total_lines := 0; avg_line_len := S754_zero false;
  std_line_len := S754_zero false; md_heading_counts := replicate 7 0;
  md_heading_total := 0; numbered_section_count := 0; all_caps_short_line_count := 0;
  blank_paragraph_breaks := 0; form_feed_count := 0; visual_sep_count := 0;
  german_chapter_count := 0; english_chapter_count := 0; chinese_chapter_count := 0;
  repeated_footer_count := 0; has_tables := false; has_code := false;
  code_ratio := S754_zero false; detected_langs := [] |}.

Definition heading_density (p : DocProfile) : f64 :=
  if total_lines p =? 0 then f64_of_usize 0
  else f64_div (f64_of_usize (md_heading_total p)) (f64_of_usize (total_lines p)).

(** The count at an index below 7. *)
Definition level_count (counts : list nat) (level : nat) : nat := default 0 (counts !! level).

Definition levels : list nat := [1; 2; 3; 4; 5; 6].

Definition dominant_heading_level (p : DocProfile) : nat :=
  if md_heading_total p =? 0 then 0
  else
    match List.find (fun l => 3 <=? level_count (md_heading_counts p) l) levels with
    | Some l => l
    | None =>
      match List.find (fun l => 0 <? level_count (md_heading_counts p) l) (rev levels) with
      | Some l => l
      | None => 0
      end
    end.

Definition heuristic_marker_total (p : DocProfile) : nat :=
  numbered_section_count p + german_chapter_count p + english_chapter_count p
  + chinese_chapter_count p + all_caps_short_line_count p + visual_sep_count p
  + form_feed_count p.

Inductive StrategyTier := Heading | Heuristic | Legacy.

#[export] Instance tier_eq_dec : EqDecision StrategyTier.
Proof. solve_decision. Defined.

Definition tier_as_str (t : StrategyTier) : str :=
  match t with
  | Heading => u8"heading"
  | Heuristic => u8"heuristic"
  | Legacy => u8"legacy"
  end.

Definition FENCE_MARK : str := u8"```".

Section profile.
Context `{Patterns}.

(** [match_heading]: the new counts when the line is a heading. *)
Definition match_heading (line : str) (counts : list nat) : option (list nat) :=
  caps ← captures MARKDOWN_HEADING line;
  let level := heading_level caps in
  if level_ok level then Some (<[level := level_count counts level + 1]> counts) else None.

Definition hit (re : Regex) (line : str) : nat := if is_match re line then 1 else 0.

Definition with_code (p : DocProfile) : DocProfile := {|
  total_chars := total_chars p; total_lines := total_lines p;
  avg_line_len := avg_line_len p; std_line_len := std_line_len p;
  md_heading_counts := md_heading_counts p; md_heading_total := md_heading_total p;
  numbered_section_count := numbered_section_count p;
  all_caps_short_line_count := all_caps_short_line_count p;
  blank_paragraph_breaks := blank_paragraph_breaks p; form_feed_count := form_feed_count p;
  visual_sep_count := visual_sep_count p; german_chapter_count := german_chapter_count p;
  english_chapter_count := english_chapter_count p;
  chinese_chapter_count := chinese_chapter_count p;
  repeated_footer_count := repeated_footer_count p; has_tables := has_tables p;
  has_code := true; code_ratio := code_ratio p; detected_langs := detected_langs p |}.

Definition with_heading (counts : list nat) (p : DocProfile) : DocProfile := {|
  total_chars := total_chars p; total_lines := total_lines p;
  avg_line_len := avg_line_len p; std_line_len := std_line_len p;
  md_heading_counts := counts; md_heading_total := md_heading_total p + 1;
  numbered_section_count := numbered_section_count p;
  all_caps_short_line_count := all_caps_short_line_count p;
  blank_paragraph_breaks := blank_paragraph_breaks p; form_feed_count := form_feed_count p;
  visual_sep_count := visual_sep_count p; german_chapter_count := german_chapter_count p;
  english_chapter_count := english_chapter_count p;
  chinese_chapter_count := chinese_chapter_count p;
  repeated_footer_count := repeated_footer_count p; has_tables := has_tables p;
  has_code := has_code p; code_ratio := code_ratio p; detected_langs := detected_langs p |}.

Definition with_markers (line trimmed : str) (p : DocProfile) : DocProfile := {|
  total_chars := total_chars p; total_lines := total_lines p;
  avg_line_len := avg_line_len p; std_line_len := std_line_len p;
  md_heading_counts := md_heading_counts p; md_heading_total := md_heading_total p;
  numbered_section_count := numbered_section_count p + hit NUMBERED_SECTION line;
  all_caps_short_line_count := all_caps_short_line_count p + hit ALL_CAPS_HEADING line;
  blank_paragraph_breaks := blank_paragraph_breaks p; form_feed_count := form_feed_count p;
  visual_sep_count := visual_sep_count p + hit VISUAL_SEPARATOR line;
  german_chapter_count := german_chapter_count p + hit GERMAN_CHAPTER line;
  english_chapter_count := english_chapter_count p + hit ENGLISH_CHAPTER line;
  chinese_chapter_count := chinese_chapter_count p + hit CHINESE_CHAPTER line;
  repeated_footer_count := repeated_footer_count p + hit PAGE_FOOTER line;
  has_tables := has_tables p || (starts_with trimmed [PIPE] && ends_with trimmed [PIPE]);
  has_code := has_code p; code_ratio := code_ratio p; detected_langs := detected_langs p |}.

(** The loop over the lines; the state is [(p, lengths, in_fence, code_chars)]. *)
Definition profile_line (st : DocProfile * list nat * bool * nat) (line : str)
    : DocProfile * list nat * bool * nat :=
  let '(p, lengths, in_fence, code_chars) := st in
  let trimmed := trim line in
  if starts_with trimmed FENCE_MARK then (with_code p, lengths, negb in_fence, code_chars)
  else if in_fence then (p, lengths, in_fence, code_chars + length line)
  else
    let lengths := lengths ++ [length line] in
    match match_heading line (md_heading_counts p) with
    | Some counts => (with_heading counts p, lengths, in_fence, code_chars)
    | None => (with_markers line trimmed p, lengths, in_fence, code_chars)
    end.

Definition mean (lengths : list f64) : f64 :=
  f64_div (foldl f64_add (f64_of_usize 0) lengths) (f64_of_usize (length lengths)).

Definition profile_document (text : str) : option DocProfile :=
  if str_is_empty text then Some profile_default
  else
    let lines := split_char NL text in
    let '(p, lengths, _, code_chars) :=
      foldl profile_line (profile_default, [], false, 0) lines in
    let lens := map f64_of_usize lengths in
    let avg := match lens with [] => S754_zero false | _ => mean lens end in
    let std :=
      match lens with
      | [] => S754_zero false
      | _ => f64_sqrt (mean (map (fun l => let d := f64_sub l avg in f64_mul d d) lens))
      end in
    sample ← byte_prefix text 4096;
    lang ← detect_language sample;
    Some {|
      total_chars := length text; total_lines := length lines;
      avg_line_len := avg; std_line_len := std;
      md_heading_counts := md_heading_counts p; md_heading_total := md_heading_total p;
      numbered_section_count := numbered_section_count p;
      all_caps_short_line_count := all_caps_short_line_count p;
      blank_paragraph_breaks := matches_count text [NL; NL; NL];
      form_feed_count := matches_count text [12%Z];
      visual_sep_count := visual_sep_count p; german_chapter_count := german_chapter_count p;
      english_chapter_count := english_chapter_count p;
      chinese_chapter_count := chinese_chapter_count p;
      repeated_footer_count := repeated_footer_count p; has_tables := has_tables p;
      has_code := has_code p;
      code_ratio := if 0 <? length text
                    then f64_div (f64_of_usize code_chars) (f64_of_usize (length text))
                    else S754_zero false;
      detected_langs := if str_eqb lang LANG_MIXED
                        then [LANG_ENGLISH; LANG_GERMAN; LANG_CHINESE] else [lang] |}.
End profile.

Definition select_strategy (p : DocProfile) : list StrategyTier :=
  (if (3 <=? md_heading_total p) && f64_lt (f64_lit 5 3) (heading_density p)
      && (0 <? dominant_heading_level p) then [Heading] else [])
  ++ (if (5 <=? heuristic_marker_total p) || (0 <? form_feed_count p)
         || (0 <? german_chapter_count p + english_chapter_count p + chinese_chapter_count p)
      then [Heuristic] else [])
  ++ [Legacy].

(** ** [heading_hierarchy.rs] *)

Record HeadingHierarchy := { hh_stack : list str; hh_depth : nat }.

Definition hierarchy_new : HeadingHierarchy := {| hh_stack := replicate 6 []; hh_depth := 0 |}.

(** [for i in 0..6 { if !self.stack[i].is_empty() { self.depth = i + 1; } }] *)
Definition deepest (stack : list str) : nat :=
  foldl (fun d i => if str_is_empty (default [] (stack !! i)) then d else i + 1) 0 (List.seq 0 6).

Definition hash_line (entry : nat * str) : str :=
  replicate entry.1 35%Z ++ [SP] ++ entry.2.

Section hierarchy.
Context `{Patterns}.

(** A recognised heading line: its level and trimmed text. *)
Definition parse_heading (line : str) : option (nat * str) :=
  caps ← captures MARKDOWN_HEADING line;
  let level := heading_level caps in
  if level_ok level
  then Some (level, match cap_get caps 2 with Some m => trim m | None => [] end)
  else None.

Definition observe (h : HeadingHierarchy) (line : str) : HeadingHierarchy * (nat * str) :=
  match parse_heading line with
  | None => (h, (0, []))
  | Some (level, heading) =>
    let stack := <[level - 1 := heading]> (hh_stack h) in
    let stack := foldl (fun st i => <[i := []]> st) stack (List.seq level (6 - level)) in
    let depth := if hh_depth h <? level then level else deepest stack in
    ({| hh_stack := stack; hh_depth := depth |}, (level, heading))
  end.

Definition breadcrumb_with_hashes (h : HeadingHierarchy) : str :=
  if hh_depth h =? 0 then []
  else
    join [NL] (concat (map (fun i =>
      let t := default [] (hh_stack h !! i) in
      if str_is_empty t then [] else [hash_line (i + 1, t)]) (List.seq 0 (hh_depth h)))).
End hierarchy.

(** ** Lemmas: the profile *)

Lemma profile_document_total `{Patterns} text : is_Some (profile_document text).
Proof.
  unfold profile_document. destruct (str_is_empty text); [eauto|].
  destruct (foldl _ _ _) as [[[p ls] f] cc].
  destruct (byte_prefix_spec text 4096) as (q & r & -> & _). rewrite some_bind.
  destruct (detect_language_total q) as [l ->]. rewrite some_bind. eauto.
Qed.

#[export] Hint Resolve profile_document_total : kb.

Definition counts_ok (p : DocProfile) : Prop :=
  length (md_heading_counts p) = 7 /\ md_heading_total p = sum_list (md_heading_counts p)
  /\ level_count (md_heading_counts p) 0 = 0.

Lemma sum_list_insert (l : list nat) i n :
  i < length l -> sum_list (<[i := level_count l i + n]> l) = sum_list l + n.
Proof.
  unfold level_count. revert i. induction l as [|x l IH]; simpl; intros i Hi; [lia|].
  destruct i as [|i]; simpl; [lia|]. rewrite IH by lia. lia.
Qed.

Section profile_lemmas.
Context `{Patterns}.

Lemma profile_line_counts st line :
  counts_ok st.1.1.1 -> counts_ok (profile_line st line).1.1.1.
Proof.
  destruct st as [[[p ls] f] cc]. intros Hok. unfold profile_line. cbv zeta.
  destruct (starts_with (trim line) FENCE_MARK); [exact Hok|].
  destruct f; [exact Hok|].
  destruct (match_heading line (md_heading_counts p)) as [counts|] eqn:E; [|exact Hok].
  change (counts_ok p) in Hok. destruct Hok as (H1 & H2 & H3).
  unfold match_heading in E. apply bind_Some in E as (caps & _ & E).
  cbv zeta in E. destruct (level_ok (heading_level caps)) eqn:Hl; [|done].
  injection E as <-. unfold level_ok in Hl. bool_to_prop.
  split_and!; simpl.
  - by rewrite length_insert.
  - rewrite sum_list_insert; [|rewrite H1; lia]. rewrite H2. done.
  - unfold level_count. rewrite list_lookup_insert_ne by lia. done.
Qed.

Lemma profile_counts_ok text p : profile_document text = Some p -> counts_ok p.
Proof.
  unfold profile_document. destruct (str_is_empty text).
  { intros [= <-]. done. }
  assert (forall lines st, counts_ok st.1.1.1 -> counts_ok (foldl profile_line st lines).1.1.1)
    as Hfold.
  { induction lines as [|l lines IH]; intros st Hst; simpl; [done|].
    by apply IH, profile_line_counts. }
  specialize (Hfold (split_char NL text) (profile_default, [], false, 0)).
  destruct (foldl _ _ _) as [[[q ls] f] cc]. intros Hb.
  apply bind_Some in Hb as (sample & _ & Hb). apply bind_Some in Hb as (lang & _ & [= <-]).
  apply Hfold. done.
Qed.
End profile_lemmas.

Lemma counts_positive p :
  counts_ok p -> md_heading_total p <> 0 -> exists l, l ∈ levels /\ 0 < level_count (md_heading_counts p) l.
Proof.
  intros (H1 & H2 & H3) Hne. unfold level_count in *.
  destruct (md_heading_counts p) as [|c0 [|c1 [|c2 [|c3 [|c4 [|c5 [|c6 []]]]]]]]; try done.
  simpl in *.
  destruct (decide (c1 = 0)); [|exists 1; simpl; split; [set_solver|lia]].
  destruct (decide (c2 = 0)); [|exists 2; simpl; split; [set_solver|lia]].
  destruct (decide (c3 = 0)); [|exists 3; simpl; split; [set_solver|lia]].
  destruct (decide (c4 = 0)); [|exists 4; simpl; split; [set_solver|lia]].
  destruct (decide (c5 = 0)); [|exists 5; simpl; split; [set_solver|lia]].
  exists 6; simpl; split; [set_solver|lia].
Qed.

(** ** Lemmas: the heading stack against the path of open headings *)

(** The open headings: level and text, outermost first. *)
Definition open_heading (level : nat) (t : str) : list (nat * str) :=
  if str_is_empty t then [] else [(level, t)].

Definition path_of (h : HeadingHierarchy) : list (nat * str) :=
  concat (imap (fun i t => open_heading (i + 1) t) (hh_stack h)).

(** The specification of [observe]: a heading closes those at its level and deeper. *)
Definition path_observe (path : list (nat * str)) (level : nat) (heading : str)
    : list (nat * str) :=
  List.filter (fun e => e.1 <? level) path ++ open_heading level heading.

Definition hierarchy_wf (h : HeadingHierarchy) : Prop :=
  length (hh_stack h) = 6 /\ hh_depth h <= 6
  /\ forall i, hh_depth h <= i -> default [] (hh_stack h !! i) = [].

Lemma length_six {A} (l : list A) :
  length l = 6 -> exists a b c d e f, l = [a; b; c; d; e; f].
Proof.
  destruct l as [|a [|b [|c [|d [|e [|f [|]]]]]]]; try done. intros _. eauto 10.
Qed.

Ltac six_levels level :=
  destruct level as [|[|[|[|[|[|[|level]]]]]]]; try lia.

Lemma filter_open_heading level k t :
  List.filter (fun e => e.1 <? level) (open_heading k t)
  = if k <? level then open_heading k t else [].
Proof. destruct t; simpl; by case_match. Qed.

Lemma map_open_heading k t :
  map hash_line (open_heading k t) = if str_is_empty t then [] else [hash_line (k, t)].
Proof. by destruct t. Qed.

Lemma deepest_spec stack :
  length stack = 6 ->
  deepest stack <= 6 /\ forall i, deepest stack <= i -> default [] (stack !! i) = [].
Proof.
  intros (a & b & c & d & e & f & ->)%length_six. unfold deepest. simpl.
  destruct f; simpl; [|split; [lia|intros i Hi; six_levels i; done]].
  destruct e; simpl; [|split; [lia|intros i Hi; six_levels i; done]].
  destruct d; simpl; [|split; [lia|intros i Hi; six_levels i; done]].
  destruct c; simpl; [|split; [lia|intros i Hi; six_levels i; done]].
  destruct b; simpl; [|split; [lia|intros i Hi; six_levels i; done]].
  destruct a; simpl; split; try lia; intros i Hi; six_levels i; done.
Qed.

Lemma clear_deeper_length (stack : list str) l :
  length (foldl (fun st i => <[i := []]> st) stack l) = length stack.
Proof.
  revert stack. induction l as [|i l IH]; intros stack; simpl; [done|].
  by rewrite IH, length_insert.
Qed.

Section hierarchy_lemmas.
Context `{Patterns}.

Lemma parse_heading_level line level heading :
  parse_heading line = Some (level, heading) -> 1 <= level <= 6.
Proof.
  intros (caps & _ & E)%bind_Some. cbv zeta in E.
  destruct (level_ok (heading_level caps)) eqn:Hl; [|done].
  unfold level_ok in Hl. bool_to_prop. by simplify_eq.
Qed.

Lemma observe_wf h line : hierarchy_wf h -> hierarchy_wf (observe h line).1.
Proof.
  intros (Hlen & Hd & Hnil). unfold observe.
  destruct (parse_heading line) as [[level heading]|] eqn:E; [|done].
  apply parse_heading_level in E. destruct h as [stack depth]. simpl in *.
  destruct (Nat.ltb_spec depth level).
  - split_and!; simpl.
    + by rewrite clear_deeper_length, length_insert.
    + lia.
    + apply length_six in Hlen as (a & b & c & d & e & f & ->).
      intros i Hi. six_levels level; simpl; six_levels i; done.
  - set (st := foldl _ _ _).
    assert (length st = 6) as Hst by (unfold st; by rewrite clear_deeper_length, length_insert).
    destruct (deepest_spec st Hst). done.
Qed.

Lemma observe_path h line level heading :
  hierarchy_wf h -> parse_heading line = Some (level, heading) ->
  path_of (observe h line).1 = path_observe (path_of h) level heading.
Proof.
  intros (Hlen & _ & _) E. unfold observe. rewrite E. apply parse_heading_level in E.
  apply length_six in Hlen as (a & b & c & d & e & f & Hs).
  unfold path_of, path_observe. cbn [fst hh_stack]. rewrite Hs.
  cbn [imap concat compose Nat.add]. rewrite !List.filter_app, !filter_open_heading.
  six_levels level; cbn -[open_heading app]; simpl app; by rewrite <- ?app_assoc, ?app_nil_r.
Qed.

Lemma breadcrumb_path h :
  hierarchy_wf h -> breadcrumb_with_hashes h = join [NL] (map hash_line (path_of h)).
Proof.
  intros (Hlen & Hd & Hnil). unfold breadcrumb_with_hashes, path_of.
  destruct h as [stack depth]. simpl in *.
  apply length_six in Hlen as (a & b & c & d & e & f & ->).
  pose proof (Hnil 0) as H0. pose proof (Hnil 1) as H1. pose proof (Hnil 2) as H2.
  pose proof (Hnil 3) as H3. pose proof (Hnil 4) as H4. pose proof (Hnil 5) as H5.
  simpl in *. clear Hnil.
  cbn [imap concat compose Nat.add]. rewrite !map_app, !map_open_heading.
  six_levels depth; cbn [List.seq map concat Nat.eqb Nat.add default lookup list_lookup];
    repeat match goal with
    | H : _ <= _ -> ?x = [] |- _ => first [rewrite H by lia; clear H | clear H]
    end; by rewrite ?app_nil_r.
Qed.

Lemma hierarchy_new_wf : hierarchy_wf hierarchy_new.
Proof. split_and!; [done|simpl; lia|]. intros i _. simpl. six_levels i; done. Qed.

Lemma observe_lines_wf h lines :
  hierarchy_wf h -> hierarchy_wf (foldl (fun h l => (observe h l).1) h lines).
Proof.
  revert h. induction lines as [|l lines IH]; intros h Hh; simpl; [done|].
  by apply IH, observe_wf.
Qed.
End hierarchy_lemmas.

#[export] Hint Resolve observe_wf hierarchy_new_wf : kb.

(** ** Properties *)

(** The path of open headings after some lines, by the specification. *)
Definition path_run `{Patterns} (lines : list str) : list (nat * str) :=
  foldl (fun path l => match parse_heading l with
                       | Some (level, heading) => path_observe path level heading
                       | None => path
                       end) [] lines.

(** The heading stack implements the path of open headings: after any lines it holds
    exactly the headings that the specification leaves open (each heading closes those at its
    level and deeper), and the breadcrumb prints that path, outermost first. *)
Theorem heading_hierarchy_refines `{Patterns} (lines : list str) :
  let h := foldl (fun h l => (observe h l).1) hierarchy_new lines in
  path_of h = path_run lines
  /\ breadcrumb_with_hashes h = join [NL] (map hash_line (path_run lines)).
Proof.
  simpl. set (h := foldl _ hierarchy_new lines).
  assert (hierarchy_wf h) as Hwf by apply observe_lines_wf, hierarchy_new_wf.
  assert (path_of h = path_run lines) as Hp; [|by rewrite breadcrumb_path, Hp].
  clear Hwf. unfold h, path_run. change (@nil (nat * str)) with (path_of hierarchy_new).
  pose proof hierarchy_new_wf as Hwf. revert Hwf.
  generalize hierarchy_new as h0. induction lines as [|l lines IH]; intros h0 Hwf; simpl; [done|].
  rewrite IH by by apply observe_wf. f_equal.
  destruct (parse_heading l) as [[level heading]|] eqn:E.
  - by apply observe_path.
  - unfold observe. by rewrite E.
Qed.

(** the dominant level of a profiled document is 0 exactly when it has no ATX heading;
    otherwise it is the shallowest level with three headings or, when no level has three, the
    deepest level that occurs. *)
Theorem dominant_heading_level_spec `{Patterns} (text : str) :
  exists p,
    profile_document text = Some p
    /\ (dominant_heading_level p = 0 <-> md_heading_total p = 0)
    /\ (md_heading_total p <> 0 ->
        let d := dominant_heading_level p in
        let n := level_count (md_heading_counts p) in
        d ∈ levels /\ 0 < n d
        /\ (3 <= n d /\ (forall l, l ∈ levels -> l < d -> n l < 3)
            \/ (forall l, l ∈ levels -> n l < 3) /\ (forall l, l ∈ levels -> d < l -> n l = 0))).
Proof.
  destruct (profile_document_total text) as [p Hp]. exists p. split; [done|].
  pose proof (profile_counts_ok text p Hp) as Hok.
  pose proof (counts_positive p Hok) as Hpos. clear Hp.
  unfold dominant_heading_level. set (n := level_count (md_heading_counts p)) in *.
  destruct (Nat.eqb_spec (md_heading_total p) 0) as [Hz|Hz]; [rewrite Hz; done|].
  destruct (Hpos Hz) as (l0 & Hl0 & Hn0).
  assert (forall l, l ∈ levels -> l = 1 \/ l = 2 \/ l = 3 \/ l = 4 \/ l = 5 \/ l = 6) as Hcases.
  { unfold levels. set_solver. }
  unfold levels. cbn [List.find rev app].
  apply Hcases in Hl0.
  repeat (match goal with |- context [3 <=? n ?k] => destruct (Nat.leb_spec 3 (n k)) end).
  all: try (split; [lia|]; intros _; cbv zeta; split_and!; [unfold levels; set_solver|lia|];
            left; split; [lia|]; intros l Hl Hlt; apply Hcases in Hl;
            destruct Hl as [->|[->|[->|[->|[->| ->]]]]]; lia).
  repeat (match goal with |- context [0 <? n ?k] => destruct (Nat.ltb_spec 0 (n k)) end).
  all: try (split; [lia|]; intros _; cbv zeta; split_and!; [unfold levels; set_solver|lia|];
            right; split; [intros l Hl|intros l Hl Hlt]; apply Hcases in Hl;
            destruct Hl as [->|[->|[->|[->|[->| ->]]]]]; lia).
  destruct Hl0 as [->|[->|[->|[->|[->| ->]]]]]; lia.
Qed.

(** a chosen chain tries Heading before Heuristic and always ends with Legacy, without
    repetition; Heading is tried only on a document with at least three headings and a
    dominant level. *)
Theorem select_strategy_chain (p : DocProfile) :
  last (select_strategy p) = Some Legacy
  /\ select_strategy p `sublist_of` [Heading; Heuristic; Legacy]
  /\ (Heading ∈ select_strategy p ->
      3 <= md_heading_total p /\ 0 < dominant_heading_level p).
Proof.
  unfold select_strategy.
  destruct ((3 <=? md_heading_total p) && _ && _) eqn:E1; destruct (_ || _ || _); simpl;
    (split_and!; [done|repeat constructor|]); intros Hin;
    try (bool_to_prop; done); exfalso; set_solver.
Qed.
