(* ===== verification/ChunkSpec.v ===== *)
(** * What the chunking tiers promise

    [valid_chunk] is the contract between the tiers and the code that selects among them;
    [TierSplitter] is the interface a tier implements.  The clients ([Strategy.v],
    [ChunkerApi.v]) are proved against the interface. *)
From S2P Require Import Prelude RustStr Regex DemoPatterns HeaderTracker Splitter SplitterFacts MergeFacts.

Section spec.
Context `{Patterns}.

(** No substring of the text is the header of a Markdown table. *)
Definition no_table_header (text : str) : Prop :=
  forall p m r, text = p ++ m ++ r -> re_find_str TABLE_START m = None.

(** The offsets lie in the text and the content has every rune between them, in order;
    only repeated table headers may be added to it. *)
Definition valid_chunk (text : str) (c : TextChunk) : Prop :=
  tc_start c <= tc_end c <= length text
  /\ sub text (tc_start c) (tc_end c) `sublist_of` content c
  /\ (no_table_header text -> content c = sub text (tc_start c) (tc_end c)).

(** Only white space is left out. *)
Definition covers_text (text : str) (chunks : list TextChunk) : Prop :=
  forall p r, text !! p = Some r ->
    is_whitespace r = true \/ Exists (fun c => tc_start c <= p < tc_end c) chunks.

Record tiling (text : str) (chunks : list TextChunk) : Prop := {
  tiling_valid : Forall (valid_chunk text) chunks;
  tiling_numbered : numbered chunks;
  tiling_covers : covers_text text chunks;
}.

Class TierSplitter (tier : str -> option (list TextChunk)) : Prop :=
  tier_total : forall text, exists chunks, tier text = Some chunks /\ tiling text chunks.

Lemma gapless_covers ov e chunks n p :
  gapless ov e chunks n -> e <= p < n -> Exists (fun c => tc_start c <= p < tc_end c) chunks.
Proof.
  revert e. induction chunks as [|c chunks IH]; simpl; intros e Hg Hp; [lia|].
  destruct Hg as (H1 & H2 & Hg). destruct (decide (p < tc_end c)).
  - left. lia.
  - right. apply (IH _ Hg). lia.
Qed.

Lemma gapless_tiling text ov chunks :
  Forall (valid_chunk text) chunks -> numbered chunks -> gapless ov 0 chunks (length text) ->
  tiling text chunks.
Proof.
  intros Hv Hn Hg. split; [done|done|]. intros p r Hp. right.
  apply (gapless_covers ov 0 chunks (length text)); [done|]. apply lookup_lt_Some in Hp. lia.
Qed.

Lemma tiling_nonempty text chunks :
  tiling text chunks -> trim text <> [] -> chunks <> [].
Proof.
  intros [_ _ Hc] Hne ->. apply Hne, trim_nil, Forall_lookup. intros p r Hp.
  destruct (Hc p r Hp) as [|Hx]; [done|]. by apply Exists_nil in Hx.
Qed.

Lemma no_table_header_sub text a b : no_table_header text -> no_table_header (sub text a b).
Proof.
  intros Hn p m r Hs. apply (Hn (take a text ++ p) m (r ++ drop (b - a) (drop a text))).
  rewrite <- (take_drop a text) at 1. rewrite <- (take_drop (b - a) (drop a text)) at 1.
  unfold sub in Hs. rewrite Hs, <- !app_assoc. done.
Qed.

(** A tile's units are substrings, so the tracker stays idle on a text without headers. *)
Lemma tile_units_sub text a us b :
  units_tile text a us b -> Forall (fun u => su_text u = sub text (su_start u) (su_end u)) us.
Proof.
  revert a. induction us as [|u us IH]; simpl; intros a Ht; constructor.
  - by destruct Ht as (_ & _ & ? & _).
  - destruct Ht as (_ & _ & _ & Ht). eauto.
Qed.

Lemma table_run_idle text units :
  no_table_header text ->
  Forall (fun u => su_text u = sub text (su_start u) (su_end u)) units ->
  (table_run (map su_text units)).1 = Idle.
Proof.
  intros Hn Hall. unfold table_run.
  assert (forall st, st.1 = Idle ->
    (foldl (fun st u => table_step st.1 u) st (map su_text units)).1 = Idle) as Hrun; [|by apply Hrun].
  induction Hall as [|u us Hu Hall IH]; intros st Hst; simpl; [done|].
  apply IH. rewrite Hst. simpl.
  rewrite (no_table_header_sub text (su_start u) (su_end u) Hn [] (su_text u) []).
  - done.
  - by rewrite app_nil_r.
Qed.

Lemma chunk_ok_valid text units cs c :
  units_tile text 0 units (length text) -> chunk_ok text units cs c -> valid_chunk text c.
Proof.
  intros Ht (Hb & _ & hdr & Hk & Hc & _). split; [done|split].
  - rewrite Hc. by apply sublist_inserts_l.
  - intros Hn. rewrite Hc. destruct Hk as [->|[k ->]]; [done|].
    rewrite tracker_new_of, run_updates_spec, get_headers_of.
    fold (table_run (map su_text (take k units))).
    rewrite (table_run_idle text); [done|done|].
    apply Forall_take. by eapply tile_units_sub.
Qed.

(** A chunk of a section, moved to the section's place in the text. *)
Definition shift_chunk (d : nat) (hdr : str) (n : nat) (c : TextChunk) : TextChunk :=
  {| content := content c; context_header := hdr; seq := n;
     tc_start := d + tc_start c; tc_end := d + tc_end c |}.

Lemma valid_chunk_shift text a b hdr n c :
  a <= b -> b <= length text -> valid_chunk (sub text a b) c ->
  valid_chunk text (shift_chunk a hdr n c).
Proof.
  intros Hab Hb (Hr & Hs & He). rewrite length_sub in Hr by lia.
  rewrite sub_sub in Hs by lia. split_and!; simpl; [lia|lia|done|].
  intros Hn. rewrite He by by apply no_table_header_sub. by rewrite sub_sub by lia.
Qed.

Lemma valid_chunk_exact text a b hdr n :
  a <= b <= length text ->
  valid_chunk text {| content := sub text a b; context_header := hdr; seq := n;
                      tc_start := a; tc_end := b |}.
Proof. intros. split_and!; simpl; [lia|lia|done|done]. Qed.

Lemma valid_chunk_ext text c c' :
  content c = content c' -> tc_start c = tc_start c' -> tc_end c = tc_end c' ->
  valid_chunk text c -> valid_chunk text c'.
Proof. unfold valid_chunk. by intros -> -> ->. Qed.

Context `{!PatternsOk H}.

Lemma split_text_promise text cs ov seps :
  exists chunks, split_text text cs ov seps = Some chunks
    /\ Forall (valid_chunk text) chunks /\ numbered chunks /\ gapless ov 0 chunks (length text).
Proof.
  destruct (split_text_ok text cs ov seps) as (units & chunks & _ & Ht & Hs & Hc & Hn & Hg).
  exists chunks. split_and!; [done| |done|done].
  eapply Forall_impl; [exact Hc|]. intros c. by apply chunk_ok_valid.
Qed.

#[export] Instance split_text_tier cs ov seps :
  TierSplitter (fun text => split_text text cs ov seps).
Proof.
  intros text. destruct (split_text_promise text cs ov seps) as (chunks & ? & ? & ? & ?).
  eauto using gapless_tiling.
Qed.
End spec.

(** ** Lemmas on chunk lists *)

Lemma numbered_snoc chunks c : numbered chunks -> seq c = length chunks -> numbered (chunks ++ [c]).
Proof.
  intros Hn Hs i c' Hi. apply lookup_app_Some in Hi as [Hi|[Hle Hi]]; [by apply Hn|].
  apply list_lookup_singleton_Some in Hi as [? ->]. lia.
Qed.

Lemma gapless_app ov e l1 m l2 n :
  gapless ov e l1 m -> gapless ov m l2 n -> gapless ov e (l1 ++ l2) n.
Proof.
  revert e. induction l1 as [|c l1 IH]; simpl; intros e H1 H2; [by subst|].
  destruct H1 as (? & ? & ?). eauto.
Qed.

Lemma gapless_end_le ov e chunks n : gapless ov e chunks n -> e <= n.
Proof.
  revert e. induction chunks as [|c chunks IH]; simpl; intros e H; [lia|].
  destruct H as (_ & ? & H). apply IH in H. lia.
Qed.

(** Renumbering and re-labelling keeps the offsets. *)
Definition same_offsets (c c' : TextChunk) : Prop :=
  tc_start c = tc_start c' /\ tc_end c = tc_end c'.

Lemma gapless_same_offsets ov e l l' n :
  Forall2 same_offsets l l' -> gapless ov e l n -> gapless ov e l' n.
Proof.
  intros Hl. revert e. induction Hl as [|c c' l l' [Hs He] Hl IH]; simpl; intros e; [done|].
  rewrite Hs, He. intros (? & ? & ?). eauto.
Qed.

Lemma gapless_mono ov ov' e l n : ov <= ov' -> gapless ov e l n -> gapless ov' e l n.
Proof.
  intros Hle. revert e. induction l as [|c l IH]; simpl; intros e; [done|].
  intros (? & ? & ?). split_and!; [lia|lia|lia|eauto].
Qed.
