(* ===== verification/Heading.v ===== *)
(** * [crates/knowledge/src/chunker/heading.rs]

    Tier 1: sections at the dominant ATX heading level, each with the breadcrumb of the
    open headings, and the coalescing of tiny chunks. *)
From S2P Require Import Prelude RustStr Regex DemoPatterns HeaderTracker Splitter SplitterFacts MergeFacts.
From S2P Require Import ChunkSpec Profiler.

(** [chunker::SplitterConfig] *)
Record SplitterConfig := {
  chunk_size : nat;
  chunk_overlap : nat;
  separators : list str;
  strategy : str;
  token_limit : nat;
  languages : list str;
}.

Definition config_default : SplitterConfig := {|
  chunk_size := 0; chunk_overlap := 0; separators := []; strategy := []; token_limit := 0;
  languages := [] |}.

Record HeadingBoundary := { hb_start : nat; hb_line : str }.

Record SectionBreadcrumb := { sb_start : nat; sb_breadcrumb : str }.

(** [&runes[a..b]] of a char slice. *)
Definition rune_slice (runes : str) (a b : nat) : option str :=
  if (a <=? b) && (b <=? length runes) then Some (sub runes a b) else None.

(** [pos += line.chars().count(); if i + 1 < lines.len() { pos += 1; }] *)
Definition next_pos (pos : nat) (line : str) (rest : list str) : nat :=
  pos + length line + match rest with [] => 0 | _ => 1 end.

Fixpoint common_prefix_len (la lb : list str) : nat :=
  match la, lb with
  | a :: la', b :: lb' => if str_eqb a b then S (common_prefix_len la' lb') else 0
  | _, _ => 0
  end.

Definition common_heading_prefix (a b : str) : str :=
  if str_eqb a b then a
  else
    let la := split_char NL a in
    let common := common_prefix_len la (split_char NL b) in
    if common =? 0 then [] else join [NL] (take common la).

Definition with_seq (n : nat) (c : TextChunk) : TextChunk :=
  {| content := content c; context_header := context_header c; seq := n;
     tc_start := tc_start c; tc_end := tc_end c |}.

(** The loop over the chunks after the first; [cur_len] is the length of [cur]. *)
Fixpoint coalesce_loop (target chunk_size : nat) (cur : TextChunk) (cur_len : nat)
    (input : list TextChunk) : list TextChunk :=
  match input with
  | [] => [cur]
  | next :: rest =>
    let next_len := length (content next) in
    let shared := common_heading_prefix (context_header cur) (context_header next) in
    if negb (str_is_empty shared) && (tc_end cur =? tc_start next)
       && (cur_len <? target) && (cur_len + next_len <=? chunk_size)
    then
      coalesce_loop target chunk_size
        {| content := content cur ++ content next; context_header := shared; seq := seq cur;
           tc_start := tc_start cur; tc_end := tc_end next |} (cur_len + next_len) rest
    else cur :: coalesce_loop target chunk_size next next_len rest
  end.

Definition coalesce_tiny_chunks (input : list TextChunk) (chunk_size : nat) : list TextChunk :=
  match input with
  | cur :: ((_ :: _) as rest) =>
    if chunk_size =? 0 then input
    else
      let target := Nat.max (chunk_size / 2) 200 in
      imap with_seq (coalesce_loop target chunk_size cur (length (content cur)) rest)
  | _ => input
  end.

Fixpoint breadcrumb_at_offset (bcs : list SectionBreadcrumb) (offset : nat) (bc : str) : str :=
  match bcs with
  | [] => bc
  | e :: bcs' =>
    if offset <? sb_start e then bc else breadcrumb_at_offset bcs' offset (sb_breadcrumb e)
  end.

Section heading.
Context `{Patterns}.

Definition set_first_line (line : str) (bounds : list HeadingBoundary) : list HeadingBoundary :=
  match bounds with
  | b :: bs => {| hb_start := hb_start b; hb_line := line |} :: bs
  | [] => []
  end.

(** The two [if]s on a heading of a level up to [primary_level]. *)
Definition add_boundary (primary_level pos : nat) (line : str) (caps : list (option str))
    (bounds : list HeadingBoundary) : list HeadingBoundary :=
  let level := heading_level caps in
  if (1 <=? level) && (level <=? primary_level) then
    if 0 <? pos then bounds ++ [{| hb_start := pos; hb_line := line |}]
    else set_first_line line bounds
  else bounds.

Fixpoint heading_boundary_loop (primary_level : nat) (lines : list str) (pos : nat)
    (in_fence : bool) (bounds : list HeadingBoundary) : list HeadingBoundary :=
  match lines with
  | [] => bounds
  | line :: rest =>
    let pos' := next_pos pos line rest in
    if starts_with (trim line) FENCE_MARK then
      heading_boundary_loop primary_level rest pos' (negb in_fence) bounds
    else
      let bounds :=
        if in_fence then bounds
        else match captures MARKDOWN_HEADING line with
             | Some caps => add_boundary primary_level pos line caps bounds
             | None => bounds
             end in
      heading_boundary_loop primary_level rest pos' in_fence bounds
  end.

Definition find_heading_boundaries (text : str) (primary_level : nat) : list HeadingBoundary :=
  let bounds := [{| hb_start := 0; hb_line := [] |}] in
  if str_is_empty text then bounds
  else heading_boundary_loop primary_level (split_char NL text) 0 false bounds.

Fixpoint observe_sub_loop (primary_level : nat) (lines : list str) (in_fence : bool)
    (h : HeadingHierarchy) : HeadingHierarchy :=
  match lines with
  | [] => h
  | line :: rest =>
    if starts_with (trim line) FENCE_MARK then
      observe_sub_loop primary_level rest (negb in_fence) h
    else if in_fence then observe_sub_loop primary_level rest in_fence h
    else
      match captures MARKDOWN_HEADING line with
      | None => observe_sub_loop primary_level rest in_fence h
      | Some caps =>
        let h := if primary_level <? heading_level caps then (observe h line).1 else h in
        observe_sub_loop primary_level rest in_fence h
      end
  end.

Definition observe_sub_headings (runes : str) (primary_level : nat) (h : HeadingHierarchy)
    : HeadingHierarchy :=
  if str_is_empty runes then h
  else observe_sub_loop primary_level (split_char NL runes) false h.

Fixpoint section_breadcrumb_loop (primary_level : nat) (lines : list str) (pos : nat)
    (in_fence : bool) (h : HeadingHierarchy) : list SectionBreadcrumb :=
  match lines with
  | [] => []
  | line :: rest =>
    let pos' := next_pos pos line rest in
    if starts_with (trim line) FENCE_MARK then
      section_breadcrumb_loop primary_level rest pos' (negb in_fence) h
    else
      match (if in_fence then None else captures MARKDOWN_HEADING line) with
      | Some caps =>
        if primary_level <? heading_level caps then
          let h := (observe h line).1 in
          {| sb_start := pos; sb_breadcrumb := breadcrumb_with_hashes h |}
          :: section_breadcrumb_loop primary_level rest pos' in_fence h
        else section_breadcrumb_loop primary_level rest pos' in_fence h
      | None => section_breadcrumb_loop primary_level rest pos' in_fence h
      end
  end.

Definition section_breadcrumbs (section_runes : str) (primary_level : nat)
    (h : HeadingHierarchy) : list SectionBreadcrumb :=
  {| sb_start := 0; sb_breadcrumb := breadcrumb_with_hashes h |}
  :: section_breadcrumb_loop primary_level (split_char NL section_runes) 0 false h.

(** [for sub in sub_chunks { out.push(...); seq += 1; }] *)
Fixpoint push_subs (out : list TextChunk) (seq base : nat) (bcs : list SectionBreadcrumb)
    (fallback : str) (subs : list TextChunk) : list TextChunk * nat :=
  match subs with
  | [] => (out, seq)
  | c :: subs' =>
    push_subs
      (out ++ [{| content := content c;
                  context_header := breadcrumb_at_offset bcs (tc_start c) fallback;
                  seq := seq; tc_start := base + tc_start c; tc_end := base + tc_end c |}])
      (seq + 1) base bcs fallback subs'
  end.

(** One turn of the loop over the boundaries; the state is [(hierarchy, out, seq)]. *)
Definition heading_section (runes : str) (cfg : SplitterConfig) (primary_level : nat)
    (st : HeadingHierarchy * list TextChunk * nat) (b : HeadingBoundary) (end_rune : nat)
    : option (HeadingHierarchy * list TextChunk * nat) :=
  let '(hierarchy, out, seq) := st in
  let hierarchy :=
    if str_is_empty (hb_line b) then hierarchy else (observe hierarchy (hb_line b)).1 in
  let breadcrumb := breadcrumb_with_hashes hierarchy in
  let section_start := hierarchy in
  section_runes ← rune_slice runes (hb_start b) end_rune;
  let hierarchy := observe_sub_headings section_runes primary_level hierarchy in
  if end_rune <=? hb_start b then Some (hierarchy, out, seq)
  else if length breadcrumb + 2 + length section_runes <=? chunk_size cfg then
    Some (hierarchy,
          out ++ [{| content := section_runes; context_header := breadcrumb; seq := seq;
                     tc_start := hb_start b; tc_end := end_rune |}], seq + 1)
  else
    let sub_breadcrumbs := section_breadcrumbs section_runes primary_level section_start in
    sub_chunks ← split_text section_runes (chunk_size cfg) (chunk_overlap cfg) (separators cfg);
    let '(out, seq) := push_subs out seq (hb_start b) sub_breadcrumbs breadcrumb sub_chunks in
    Some (hierarchy, out, seq).

Fixpoint heading_sections (runes : str) (cfg : SplitterConfig) (primary_level : nat)
    (st : HeadingHierarchy * list TextChunk * nat) (bounds : list HeadingBoundary)
    : option (HeadingHierarchy * list TextChunk * nat) :=
  match bounds with
  | [] => Some st
  | b :: rest =>
    let end_rune := match rest with n :: _ => hb_start n | [] => length runes end in
    st ← heading_section runes cfg primary_level st b end_rune;
    heading_sections runes cfg primary_level st rest
  end.

Definition split_by_headings (text : str) (cfg : SplitterConfig) (profile : option DocProfile)
    : option (list TextChunk) :=
  if str_is_empty text then Some []
  else
    profile ← (match profile with Some p => Some p | None => profile_document text end);
    let primary_level := dominant_heading_level profile in
    let legacy := split_text text (chunk_size cfg) (chunk_overlap cfg) (separators cfg) in
    if primary_level =? 0 then legacy
    else
      let bounds := find_heading_boundaries text primary_level in
      if length bounds <=? 1 then legacy
      else
        '(_, out, _) ← heading_sections text cfg primary_level (hierarchy_new, [], 0) bounds;
        Some (coalesce_tiny_chunks out (chunk_size cfg)).
End heading.

(** ** Lemmas: boundaries *)

(** The lines that remain, joined, are the text from [pos] on. *)
Lemma join_lines_length line rest :
  length (join [NL] (line :: rest)) =
  length line + match rest with [] => 0 | _ => 1 + length (join [NL] rest) end.
Proof. destruct rest; simpl; [lia|]. by rewrite length_app. Qed.

Definition starts (bounds : list HeadingBoundary) : list nat := map hb_start bounds.

Section heading_lemmas.
Context `{Patterns}.

(** The starts are strictly increasing: [last] is the largest one so far. *)
Definition sorted_starts (l : list HeadingBoundary) (pos : nat) : Prop :=
  exists b0 bs, l = b0 :: bs /\ hb_start b0 = 0
    /\ StronglySorted lt (starts l) /\ Forall (fun i => i = 0 \/ i < pos) (starts l).

Lemma heading_boundary_loop_sorted level lines pos fence bounds n :
  lines <> [] -> pos + length (join [NL] lines) = n ->
  sorted_starts bounds (S pos) ->
  (pos = 0 -> length bounds = 1) ->
  (0 < pos -> Forall (fun i => i < pos) (starts bounds)) ->
  exists b0 bs, heading_boundary_loop level lines pos fence bounds = b0 :: bs
    /\ hb_start b0 = 0
    /\ StronglySorted lt (starts (b0 :: bs)) /\ Forall (fun i => i <= n) (starts (b0 :: bs)).
Proof.
  revert pos fence bounds. induction lines as [|line rest IH]; intros pos fence bounds Hne Hn
    (b0 & bs & Hb & Hz & Hss & Hall) H0 Hp; [done|]. simpl heading_boundary_loop.
  rewrite join_lines_length in Hn.
  assert (forall bounds', sorted_starts bounds' (S (next_pos pos line rest)) ->
    (rest <> [] -> 0 < next_pos pos line rest ->
      Forall (fun i => i < next_pos pos line rest) (starts bounds')) ->
    forall f, exists b0 bs,
      heading_boundary_loop level rest (next_pos pos line rest) f bounds' = b0 :: bs
      /\ hb_start b0 = 0 /\ StronglySorted lt (starts (b0 :: bs))
      /\ Forall (fun i => i <= n) (starts (b0 :: bs))) as Hrec.
  { intros bounds' Hs' Hp' f. destruct rest as [|l2 rest].
    - simpl. destruct Hs' as (b1 & bs1 & -> & Hz1 & Hss1 & Hall1).
      exists b1, bs1. split_and!; [done|done|done|].
      eapply Forall_impl; [exact Hall1|]. unfold next_pos in *. simpl in *. lia.
    - apply IH; [done| |done| |by apply Hp'].
      + unfold next_pos. simpl in *. lia.
      + unfold next_pos. simpl. lia. }
  assert (sorted_starts bounds (S (next_pos pos line rest))) as Hsame.
  { exists b0, bs. split_and!; [done|done|done|]. eapply Forall_impl; [exact Hall|].
    unfold next_pos. simpl. intros; lia. }
  assert (rest <> [] -> 0 < next_pos pos line rest ->
          Forall (fun i => i < next_pos pos line rest) (starts bounds)) as Hsamep.
  { intros Hr _. eapply Forall_impl; [exact Hall|]. unfold next_pos.
    destruct rest; [done|]. simpl. intros; lia. }
  destruct (starts_with (trim line) FENCE_MARK); [by apply Hrec|].
  destruct fence; [by apply Hrec|].
  destruct (captures MARKDOWN_HEADING line) as [caps|]; [|by apply Hrec].
  unfold add_boundary. destruct (_ && _); [|by apply Hrec].
  destruct (Nat.ltb_spec 0 pos) as [Hpos|Hpos].
  - assert (starts (bounds ++ [{| hb_start := pos; hb_line := line |}]) = starts bounds ++ [pos])
      as Hst by (unfold starts; by rewrite map_app).
    specialize (Hp Hpos). apply Hrec.
    + exists b0, (bs ++ [{| hb_start := pos; hb_line := line |}]).
      rewrite Hst. split_and!; [by rewrite Hb|done| |].
      * apply StronglySorted_app_2; [|done|repeat constructor].
        intros x y Hx Hy. apply list_elem_of_singleton in Hy as ->.
        rewrite Forall_forall in Hp. by apply Hp.
      * apply Forall_app. split; [by destruct Hsame as (? & ? & ? & ? & ? & ?)|].
        constructor; [|done]. unfold next_pos. lia.
    + intros Hr Hnp. rewrite Hst. apply Forall_app. split; [by apply Hsamep|].
      constructor; [|done]. unfold next_pos. destruct rest; [done|]. lia.
  - rewrite Hb in *. simpl set_first_line.
    assert (starts ({| hb_start := hb_start b0; hb_line := line |} :: bs) = starts (b0 :: bs))
      as Hst by done.
    apply Hrec.
    + eexists _, bs. split_and!; [done|done|by rewrite Hst|].
      rewrite Hst. by destruct Hsame as (? & ? & ? & ? & ? & ?).
    + rewrite Hst. done.
Qed.

Lemma find_heading_boundaries_sorted text level :
  exists b0 bs, find_heading_boundaries text level = b0 :: bs /\ hb_start b0 = 0
    /\ StronglySorted lt (starts (b0 :: bs))
    /\ Forall (fun i => i <= length text) (starts (b0 :: bs)).
Proof.
  unfold find_heading_boundaries. destruct (str_is_empty text) eqn:E.
  - eexists _, []. split_and!; [done|done|repeat constructor|]. repeat constructor. simpl. lia.
  - apply heading_boundary_loop_sorted.
    + apply split_char_nonempty.
    + by rewrite join_split_char.
    + eexists _, []. split_and!; [done|done|repeat constructor|]. constructor; [by left|done].
    + done.
    + lia.
Qed.
End heading_lemmas.

(** ** Lemmas: coalescing *)

Section coalesce_lemmas.
Context `{Patterns} (text : str).

Lemma coalesce_loop_valid target size cur n input ov m :
  Forall (valid_chunk text) (cur :: input) ->
  gapless ov (tc_end cur) input m ->
  Forall (valid_chunk text) (coalesce_loop target size cur n input)
  /\ forall e, e - ov <= tc_start cur <= e -> e <= tc_end cur ->
     gapless ov e (coalesce_loop target size cur n input) m.
Proof.
  revert cur n. induction input as [|next rest IH]; intros cur n Hv Hg; simpl.
  - split; [done|]. intros e He Hle. simpl in Hg. done.
  - destruct Hg as (H1 & H2 & H3).
    apply Forall_cons in Hv as [Hc Hv]. apply Forall_cons in Hv as [Hnx Hv].
    destruct (negb _ && _ && _ && _) eqn:E.
    + bool_to_prop.
      assert (tc_end cur = tc_start next) as Hadj by lia.
      destruct (IH {| content := content cur ++ content next;
          context_header := common_heading_prefix (context_header cur) (context_header next);
          seq := seq cur; tc_start := tc_start cur; tc_end := tc_end next |}
          (n + length (content next))) as [IH1 IH2].
      * constructor; [|done]. destruct Hc as (? & ? & Hce), Hnx as (? & ? & Hne).
        assert (sub text (tc_start cur) (tc_end next) =
          sub text (tc_start cur) (tc_end cur) ++ sub text (tc_start next) (tc_end next)) as Hs.
        { rewrite Hadj. rewrite sub_app_adj by lia. done. }
        split_and!; simpl; [lia|lia| |].
        -- rewrite Hs. by apply sublist_app.
        -- intros Hno. by rewrite Hs, Hce, Hne.
      * done.
      * split; [done|]. intros e He Hle. apply IH2; simpl; lia.
    + destruct (IH next (length (content next))) as [IH1 IH2]; [by constructor|done|].
      split; [by constructor|]. intros e He Hle. simpl. split_and!; [lia|lia|lia|].
      apply IH2; lia.
Qed.

Lemma imap_with_seq_offsets l : Forall2 same_offsets l (imap with_seq l).
Proof.
  apply Forall2_same_length_lookup. split; [by rewrite length_imap|].
  intros i x y Hx Hy. rewrite list_lookup_imap, Hx in Hy. simpl in Hy. by simplify_eq.
Qed.

Lemma imap_with_seq_numbered l : numbered (imap with_seq l).
Proof.
  intros i c Hi. rewrite list_lookup_imap in Hi.
  apply fmap_Some in Hi as (x & _ & ->). done.
Qed.

Lemma imap_with_seq_valid l :
  Forall (valid_chunk text) l -> Forall (valid_chunk text) (imap with_seq l).
Proof.
  intros Hv. apply Forall_lookup. intros i c Hi. rewrite list_lookup_imap in Hi.
  apply fmap_Some in Hi as (x & Hx & ->). rewrite Forall_lookup in Hv.
  eapply valid_chunk_ext; [..|exact (Hv _ _ Hx)]; done.
Qed.

Lemma coalesce_ok l size ov m :
  Forall (valid_chunk text) l -> numbered l -> gapless ov 0 l m ->
  let out := coalesce_tiny_chunks l size in
  Forall (valid_chunk text) out /\ numbered out /\ gapless ov 0 out m.
Proof.
  intros Hv Hn Hg. unfold coalesce_tiny_chunks.
  destruct l as [|cur [|c2 rest]]; [done|done|].
  destruct (size =? 0); [done|].
  destruct Hg as (H1 & H2 & H3).
  destruct (coalesce_loop_valid (Nat.max (size / 2) 200) size cur (length (content cur))
              (c2 :: rest) ov m Hv H3) as [Hv' Hg'].
  split_and!.
  - by apply imap_with_seq_valid.
  - apply imap_with_seq_numbered.
  - eapply gapless_same_offsets; [apply imap_with_seq_offsets|]. apply Hg'; lia.
Qed.
End coalesce_lemmas.

(** ** Lemmas: sections *)

Section section_lemmas.
Context `{Patterns} `{!PatternsOk H} (text : str).

Lemma push_subs_ok a b bcs fb ov subs : forall out sq e,
  a <= b -> b <= length text ->
  Forall (valid_chunk text) out -> numbered out -> sq = length out ->
  gapless ov 0 out (a + e) ->
  Forall (valid_chunk (sub text a b)) subs -> gapless ov e subs (b - a) ->
  let r := push_subs out sq a bcs fb subs in
  Forall (valid_chunk text) r.1 /\ numbered r.1 /\ r.2 = length r.1 /\ gapless ov 0 r.1 b.
Proof.
  induction subs as [|c subs IH]; intros out sq e Hab Hb Hv Hn -> Hg Hsv Hsg; simpl.
  - simpl in Hsg. split_and!; [done|done|done|]. by replace b with (a + e) by lia.
  - apply Forall_cons in Hsv as [Hc Hsv]. destruct Hsg as (? & ? & Hsg).
    apply (IH _ _ (tc_end c)); try done.
    + apply Forall_app. split; [done|]. constructor; [|done].
      eapply valid_chunk_ext; [..|apply (valid_chunk_shift text a b [] 0 c); try done]; done.
    + by apply numbered_snoc.
    + rewrite length_app. done.
    + match goal with |- gapless _ _ (_ ++ [?x]) _ =>
        change (a + tc_end c) with (tc_end x); apply (gapless_snoc _ _ _ _ (a + e)) end;
        simpl; [done|lia|lia].
Qed.

(** The state of the loop: what is out covers the text up to the next boundary. *)
Definition sections_inv (ov pos : nat) (st : HeadingHierarchy * list TextChunk * nat) : Prop :=
  Forall (valid_chunk text) st.1.2 /\ numbered st.1.2 /\ st.2 = length st.1.2
  /\ gapless ov 0 st.1.2 pos.

Lemma heading_section_ok cfg level st b e :
  hb_start b <= e -> e <= length text -> sections_inv (chunk_overlap cfg) (hb_start b) st ->
  exists st', heading_section text cfg level st b e = Some st'
    /\ sections_inv (chunk_overlap cfg) e st'.
Proof.
  destruct st as [[h out] sq]. intros Hbe He (Hv & Hn & Hsq & Hg). unfold heading_section.
  unfold rune_slice. replace ((hb_start b <=? e) && (e <=? length text)) with true
    by (symmetry; apply andb_true_intro; split; apply Nat.leb_le; lia).
  rewrite some_bind. cbv zeta.
  destruct (Nat.leb_spec e (hb_start b)).
  - eexists. split; [done|]. replace e with (hb_start b) by lia. done.
  - destruct (_ <=? chunk_size cfg).
    + eexists. split; [done|]. simpl in *. split_and!; simpl.
      * apply Forall_app. split; [done|]. constructor; [|done]. apply valid_chunk_exact. lia.
      * apply numbered_snoc; [done|]. simpl. lia.
      * rewrite length_app. simpl. lia.
      * match goal with |- gapless _ _ (_ ++ [?x]) _ =>
          apply (gapless_snoc _ _ _ x (hb_start b)) end; simpl; [done|lia|lia].
    + destruct (split_text_promise (sub text (hb_start b) e) (chunk_size cfg)
        (chunk_overlap cfg) (separators cfg)) as (subs & -> & Hsv & _ & Hsg).
      rewrite some_bind.
      rewrite length_sub in Hsg by lia. simpl in *.
      pose proof (push_subs_ok (hb_start b) e
        (section_breadcrumbs (sub text (hb_start b) e) level
           (if str_is_empty (hb_line b) then h else (observe h (hb_line b)).1))
        (breadcrumb_with_hashes (if str_is_empty (hb_line b) then h else (observe h (hb_line b)).1))
        (chunk_overlap cfg) subs out sq 0 Hbe He Hv Hn Hsq) as Hpush.
      rewrite Nat.add_0_r in Hpush. specialize (Hpush Hg Hsv Hsg).
      destruct (push_subs _ _ _ _ _ _) as [out' sq']. eexists. split; [done|]. done.
Qed.

Lemma heading_sections_ok cfg level bounds : forall st b,
  StronglySorted lt (starts (b :: bounds)) ->
  Forall (fun i => i <= length text) (starts (b :: bounds)) ->
  sections_inv (chunk_overlap cfg) (hb_start b) st ->
  exists st', heading_sections text cfg level st (b :: bounds) = Some st'
    /\ sections_inv (chunk_overlap cfg) (length text) st'.
Proof.
  induction bounds as [|b2 bounds IH]; intros st b Hs Hall Hinv; cbn [heading_sections].
  - destruct (heading_section_ok cfg level st b (length text)) as (st' & -> & Hinv').
    { by apply Forall_inv in Hall. } { done. } { done. }
    rewrite some_bind. eauto.
  - apply StronglySorted_inv in Hs as [Hs Hlt]. apply Forall_inv in Hlt as Hlt'.
    pose proof (Forall_inv_tail Hall) as Htail. pose proof (Forall_inv Htail) as Hb2.
    simpl in Hlt', Hb2.
    destruct (heading_section_ok cfg level st b (hb_start b2)) as (st' & -> & Hinv');
      [lia|done|done|].
    rewrite some_bind. by apply IH.
Qed.

Lemma split_by_headings_ok cfg profile :
  exists chunks, split_by_headings text cfg profile = Some chunks
    /\ Forall (valid_chunk text) chunks /\ numbered chunks
    /\ gapless (chunk_overlap cfg) 0 chunks (length text).
Proof.
  unfold split_by_headings. destruct (str_is_empty text) eqn:E.
  { apply str_is_empty_spec in E. exists []. rewrite E. split_and!; [done|constructor|done|done]. }
  assert (exists p, match profile with Some p => Some p | None => profile_document text end
                    = Some p) as (p & ->).
  { destruct profile; [eauto|]. destruct (profile_document_total text) as [p ->]. eauto. }
  rewrite some_bind. cbv zeta.
  destruct (_ =? 0); [apply split_text_promise|].
  destruct (_ <=? 1); [apply split_text_promise|].
  destruct (find_heading_boundaries_sorted text (dominant_heading_level p))
    as (b0 & bs & -> & Hz & Hs & Hall).
  destruct (heading_sections_ok cfg (dominant_heading_level p) bs (hierarchy_new, [], 0) b0 Hs Hall)
    as ([[h out] sq] & -> & Hv & Hn & Hsq & Hg).
  { rewrite Hz. split_and!; [constructor|done|done|done]. }
  rewrite some_bind. eexists. split; [done|]. by apply coalesce_ok.
Qed.
End section_lemmas.

#[export] Instance split_by_headings_tier `{Patterns} `{!PatternsOk H} cfg profile :
  TierSplitter (fun text => split_by_headings text cfg profile).
Proof.
  intros text. destruct (split_by_headings_ok text cfg profile) as (chunks & ? & ? & ? & ?).
  eauto using gapless_tiling.
Qed.

Lemma coalesce_loop_content target size cur n input :
  n = length (content cur) ->
  concat (map content (coalesce_loop target size cur n input))
  = content cur ++ concat (map content input)
  /\ Forall (fun c => length (content c) <= size
                      \/ exists c0, c0 ∈ cur :: input /\ content c = content c0)
       (coalesce_loop target size cur n input).
Proof.
  revert cur n. induction input as [|next rest IH]; intros cur n ->; simpl.
  - split; [done|]. constructor; [|done]. right. exists cur. split; [by left|done].
  - destruct (negb _ && _ && _ && _) eqn:E.
    + bool_to_prop.
      destruct (IH {| content := content cur ++ content next;
          context_header := common_heading_prefix (context_header cur) (context_header next);
          seq := seq cur; tc_start := tc_start cur; tc_end := tc_end next |}
          (length (content cur) + length (content next))) as [IH1 IH2]; [simpl; by rewrite length_app|].
      rewrite IH1. simpl. rewrite <- app_assoc. split; [done|].
      eapply Forall_impl; [exact IH2|]. intros c [Hc|(c0 & Hin & Hc)]; [by left|].
      apply elem_of_cons in Hin as [->|Hin].
      * left. rewrite Hc. simpl. rewrite length_app. lia.
      * right. exists c0. split; [|done]. by do 2 right.
    + destruct (IH next (length (content next)) eq_refl) as [IH1 IH2]. simpl. rewrite IH1.
      split; [done|]. constructor.
      * right. exists cur. split; [by left|done].
      * eapply Forall_impl; [exact IH2|]. intros c [Hc|(c0 & Hin & Hc)]; [by left|].
        right. exists c0. split; [by right|done].
Qed.

Lemma imap_with_seq_content l : map content (imap with_seq l) = map content l.
Proof.
  enough (forall k, map content (imap (fun i => with_seq (k + i)) l) = map content l) as H by apply (H 0).
  induction l as [|c l IH]; intros k; simpl; [done|]. f_equal.
  rewrite <- (IH (S k)). f_equal. apply imap_ext. intros. simpl. f_equal. lia.
Qed.

(** ** Properties *)

(** The heading tier returns for every text and profile without a panic; its chunks are
    numbered, leave no rune out, and each is the text between its offsets (exactly, when the
    text has no table header to repeat). *)
Theorem split_by_headings_covers `{Patterns} (Hok : PatternsOk H)
    (text : str) (cfg : SplitterConfig) (profile : option DocProfile) :
  exists chunks,
    split_by_headings text cfg profile = Some chunks
    /\ Forall (valid_chunk text) chunks
    /\ numbered chunks
    /\ gapless (chunk_overlap cfg) 0 chunks (length text).
Proof. apply split_by_headings_ok. Qed.

(** Coalescing keeps the whole content in order, and a chunk it builds from several stays
    within the chunk size. *)
Theorem coalesce_tiny_chunks_lossless (input : list TextChunk) (chunk_size : nat) :
  concat (map content (coalesce_tiny_chunks input chunk_size)) = concat (map content input)
  /\ Forall (fun c => length (content c) <= chunk_size
                      \/ exists c0, c0 ∈ input /\ content c = content c0)
       (coalesce_tiny_chunks input chunk_size).
Proof.
  assert (Forall (fun c => length (content c) <= chunk_size
                           \/ exists c0, c0 ∈ input /\ content c = content c0) input) as Hself.
  { apply Forall_forall. eauto. }
  unfold coalesce_tiny_chunks. destruct input as [|cur [|c2 rest]]; [done|done|].
  destruct (chunk_size =? 0); [done|].
  destruct (coalesce_loop_content (Nat.max (chunk_size / 2) 200) chunk_size cur
              (length (content cur)) (c2 :: rest) eq_refl) as [H1 H2].
  rewrite imap_with_seq_content. split; [exact H1|].
  apply Forall_lookup. intros i c Hi. rewrite list_lookup_imap in Hi.
  apply fmap_Some in Hi as (x & Hx & ->). rewrite Forall_lookup in H2. exact (H2 _ _ Hx).
Qed.

(** ** Witnesses *)

Definition sample_headings : str := u8"# Top
intro text

## A
body of section A which is long enough

## B
body b
## C
body c
".

Definition sample_config : SplitterConfig := {|
  chunk_size := 40; chunk_overlap := 8; separators := sample_seps; strategy := u8"auto";
  token_limit := 0; languages := [] |}.

Lemma split_by_headings_covers_witness :
  (exists chunks,
    @split_by_headings demo_patterns sample_headings sample_config None = Some chunks
    /\ Forall (@valid_chunk demo_patterns sample_headings) chunks
    /\ numbered chunks
    /\ gapless (chunk_overlap sample_config) 0 chunks (length sample_headings))
  /\ map context_header <$> @split_by_headings demo_patterns sample_headings sample_config None
     = Some [u8"# Top"; u8"# Top
## A"; u8"# Top"].
Proof.
  split; [|vm_compute; reflexivity].
  exact (@split_by_headings_covers demo_patterns demo_patterns_ok sample_headings sample_config None).
Defined.
