(* ===== verification/Heuristic.v ===== *)
(** * [crates/knowledge/src/chunker/heuristic.rs]

    Tier 2: chunks at form feeds, chapter marks, numbered heads, rules, footers and blank
    blocks. *)
From S2P Require Import Prelude RustStr Regex DemoPatterns HeaderTracker Splitter SplitterFacts MergeFacts.
From S2P Require Import ChunkSpec Tokens Profiler Heading.

Record Boundary := { bd_start : nat; bd_priority : Z }.

(** Earlier start first; among equal starts, the higher priority first. *)
Definition boundary_before (a b : Boundary) : bool :=
  (bd_start a <? bd_start b)
  || ((bd_start a =? bd_start b) && (bd_priority b <=? bd_priority a)%Z).

(** [prev] starts as [usize::MAX], which no offset equals: [None] here. *)
Fixpoint dedup_bounds (prev : option nat) (bounds : list Boundary) : list Boundary :=
  match bounds with
  | [] => []
  | b :: bs =>
    if bool_decide (prev = Some (bd_start b)) then dedup_bounds prev bs
    else b :: dedup_bounds (Some (bd_start b)) bs
  end.

Fixpoint inside_some_span (b : Boundary) (spans : list Span) : bool :=
  match spans with
  | [] => false
  | s :: spans' =>
    if bd_start b <=? sp_start s then false
    else if bd_start b <? sp_end s then true
    else inside_some_span b spans'
  end.

Definition drop_bounds_inside_spans (bounds : list Boundary) (spans : list Span) : list Boundary :=
  match spans with
  | [] => bounds
  | _ => List.filter (fun b => negb (inside_some_span b spans)) bounds
  end.

Definition form_feed_bounds (text : str) : list Boundary :=
  concat (imap (fun idx r =>
    if (r =? 12)%Z then [{| bd_start := idx; bd_priority := PRIO_FORM_FEED |}] else []) text).

(** The chunk list under construction and the next sequence number. *)
Definition append_chunk (out : list TextChunk) (runes : str) (s e sq : nat)
    : option (list TextChunk * nat) :=
  if e <=? s then Some (out, sq)
  else
    raw ← rune_slice runes s e;
    if str_is_empty (trim raw) then Some (out, sq)
    else
      Some (out ++ [{| content := raw; context_header := []; seq := sq;
                       tc_start := s; tc_end := e |}], sq + 1).

(** The fallback scan for a line break: [while i > window_start && i < runes.len()]. *)
Fixpoint back_to_newline (runes : str) (window_start i : nat) : option nat :=
  match i with
  | 0 => None
  | S i' =>
    if (window_start <? i) && (i <? length runes) then
      match runes !! i with
      | Some r => if (r =? 10)%Z then Some (i + 1) else back_to_newline runes window_start i'
      | None => None
      end
    else None
  end.

Definition max_in_window (lo hi : nat) (best : option nat) (b : Boundary) : option nat :=
  if (lo <=? bd_start b) && (bd_start b <? hi) then
    Some (match best with Some cur => Nat.max cur (bd_start b) | None => bd_start b end)
  else best.

Definition apply_overlap_aligned (runes : str) (cur_end overlap : nat) (bounds : list Boundary)
    : nat :=
  if overlap =? 0 then cur_end
  else
    let target := cur_end - overlap in
    let window_start := cur_end - usize_mul 2 overlap in
    match foldl (max_in_window window_start cur_end) None bounds with
    | Some b => b
    | None => default target (back_to_newline runes window_start target)
    end.

Section heuristic.
Context `{Patterns}.

(** The first class of marker the line matches, in the order of the code. *)
Definition line_priority (chapter_pats : list Regex) (line : str) : option Z :=
  if existsb (fun pat => is_match pat line) chapter_pats then Some PRIO_CHAPTER_MARKER
  else if is_match NUMBERED_SECTION line then Some PRIO_NUMBERED_HEAD
  else if is_match ALL_CAPS_HEADING line then Some PRIO_ALL_CAPS_HEADING
  else if is_match VISUAL_SEPARATOR line then Some PRIO_VISUAL_SEP
  else if is_match PAGE_FOOTER line then Some PRIO_PAGE_FOOTER
  else None.

Fixpoint line_bounds (chapter_pats : list Regex) (lines : list str) (pos : nat)
    (in_fence : bool) : list Boundary :=
  match lines with
  | [] => []
  | line :: rest =>
    let pos' := next_pos pos line rest in
    if starts_with (trim line) FENCE_MARK then line_bounds chapter_pats rest pos' (negb in_fence)
    else
      (if in_fence then []
       else match line_priority chapter_pats line with
            | Some p => [{| bd_start := pos; bd_priority := p |}]
            | None => []
            end)
      ++ line_bounds chapter_pats rest pos' in_fence
  end.

Definition blank_bounds (text : str) : option (list Boundary) :=
  mapM (fun m => pre ← slice text 0 m.2;
                 Some {| bd_start := length pre; bd_priority := PRIO_BLANK_BLOCK |})
    (find_iter EXCESSIVE_BLANKS text).

Definition candidate_bounds (text : str) (langs : list str) : option (list Boundary) :=
  blanks ← blank_bounds text;
  Some (form_feed_bounds text
        ++ line_bounds (chapter_patterns_for_langs langs) (split_char NL text) 0 false
        ++ blanks).

Definition find_heuristic_boundaries (text : str) (langs : list str) : option (list Boundary) :=
  bounds ← candidate_bounds text langs;
  match bounds with
  | [] => Some []
  | _ => Some (dedup_bounds None (sort_by boundary_before bounds))
  end.

Fixpoint append_subs (out : list TextChunk) (base sq : nat) (subs : list TextChunk)
    : list TextChunk * nat :=
  match subs with
  | [] => (out, sq)
  | c :: subs' =>
    append_subs (out ++ [{| content := content c; context_header := []; seq := sq;
                            tc_start := base + tc_start c; tc_end := base + tc_end c |}])
      base (sq + 1) subs'
  end.

Definition append_oversize (out : list TextChunk) (runes : str) (s e : nat)
    (cfg : SplitterConfig) (sq : nat) : option (list TextChunk * nat) :=
  if e <=? s then Some (out, sq)
  else
    raw ← rune_slice runes s e;
    subs ← split_text raw (chunk_size cfg) (chunk_overlap cfg) (separators cfg);
    Some (append_subs out s sq subs).

Record HeurState := {
  hs_out : list TextChunk;
  hs_seq : nat;
  hs_chunk_start : nat;
  hs_cur_end : nat;
}.

Definition heur_step (runes : str) (cfg : SplitterConfig) (bounds : list Boundary)
    (st : HeurState) (b : Boundary) : option HeurState :=
  let min_chunk_size := Nat.max (chunk_size cfg / 4) 50 in
  let next_end := bd_start b in
  let cur_end := hs_cur_end st in
  let chunk_start := hs_chunk_start st in
  let block_len := next_end - cur_end in
  if chunk_size cfg <? block_len then
    '(out, sq) ← (if chunk_start <? cur_end
                  then append_chunk (hs_out st) runes chunk_start cur_end (hs_seq st)
                  else Some (hs_out st, hs_seq st));
    '(out, sq) ← append_oversize out runes cur_end next_end cfg sq;
    Some {| hs_out := out; hs_seq := sq; hs_chunk_start := next_end; hs_cur_end := next_end |}
  else
    let accumulated := next_end - chunk_start in
    if (chunk_size cfg <? accumulated) && (min_chunk_size <=? cur_end - chunk_start) then
      '(out, sq) ← append_chunk (hs_out st) runes chunk_start cur_end (hs_seq st);
      Some {| hs_out := out; hs_seq := sq;
              hs_chunk_start := apply_overlap_aligned runes cur_end (chunk_overlap cfg) bounds;
              hs_cur_end := next_end |}
    else
      Some {| hs_out := hs_out st; hs_seq := hs_seq st; hs_chunk_start := chunk_start;
              hs_cur_end := next_end |}.

(** The boundaries with the end of the text after them and 0 in front. *)
Definition frame_bounds (bounds : list Boundary) (total : nat) : list Boundary :=
  let bounds := bounds ++ [{| bd_start := total; bd_priority := 0%Z |}] in
  match bounds with
  | b :: _ =>
    if negb (bd_start b =? 0) then {| bd_start := 0; bd_priority := 0%Z |} :: bounds else bounds
  | [] => bounds
  end.

Definition heuristic_chunks (runes : str) (cfg : SplitterConfig) (bounds : list Boundary)
    : option (list TextChunk) :=
  match bounds with
  | [] => Some []
  | b0 :: rest =>
    st ← foldM (heur_step runes cfg bounds)
           {| hs_out := []; hs_seq := 0; hs_chunk_start := bd_start b0;
              hs_cur_end := bd_start b0 |} rest;
    if hs_chunk_start st <? hs_cur_end st then
      '(out, _) ← append_chunk (hs_out st) runes (hs_chunk_start st) (hs_cur_end st) (hs_seq st);
      Some out
    else Some (hs_out st)
  end.

Definition split_by_heuristics (text : str) (cfg : SplitterConfig)
    (_profile : option DocProfile) : option (list TextChunk) :=
  if str_is_empty text then Some []
  else
    let total := length text in
    let legacy := split_text text (chunk_size cfg) (chunk_overlap cfg) (separators cfg) in
    if total <=? chunk_size cfg then legacy
    else
      bounds ← find_heuristic_boundaries text (languages cfg);
      let prot := protected_spans_rune text (protected_spans text) in
      let bounds := match prot with [] => bounds | _ => drop_bounds_inside_spans bounds prot end in
      match bounds with
      | [] => legacy
      | _ => heuristic_chunks text cfg (frame_bounds bounds total)
      end.
End heuristic.

(** ** Lemmas: the boundaries *)

Definition bd_starts (l : list Boundary) : list nat := map bd_start l.

Lemma boundary_before_total a b : boundary_before a b = false -> boundary_before b a = true.
Proof.
  unfold boundary_before. intros H. bool_to_prop. destruct (Nat.ltb_spec (bd_start b) (bd_start a)); [done|].
  assert (bd_start b = bd_start a) as Heq by lia. rewrite Heq, Nat.eqb_refl in *. simpl.
  apply Z.leb_le. match goal with H : _ \/ _ |- _ => destruct H end; bool_to_prop; lia.
Qed.

Lemma boundary_before_le a b :
  boundary_before a b = true <->
  bd_start a < bd_start b \/ (bd_start a = bd_start b /\ (bd_priority b <= bd_priority a)%Z).
Proof.
  unfold boundary_before.
  rewrite orb_true_iff, andb_true_iff, Nat.ltb_lt, Nat.eqb_eq, Z.leb_le. done.
Qed.

Lemma boundary_before_trans a b c :
  boundary_before a b = true -> boundary_before b c = true -> boundary_before a c = true.
Proof. rewrite !boundary_before_le. lia. Qed.

Lemma dedup_bounds_sub prev l b : b ∈ dedup_bounds prev l -> b ∈ l.
Proof.
  revert prev. induction l as [|x l IH]; intros prev; simpl; [done|].
  case_bool_decide; intros Hin; [right; eauto|].
  apply elem_of_cons in Hin as [->|Hin]; [by left|right; eauto].
Qed.

(** Deduplication of a sorted list keeps, for each start, the entry with the highest
    priority. *)
Lemma dedup_bounds_spec prev l :
  StronglySorted (fun a b => boundary_before a b = true) l ->
  match prev with Some p => Forall (fun b => p <= bd_start b) l | None => True end ->
  StronglySorted lt (bd_starts (dedup_bounds prev l))
  /\ match prev with Some p => Forall (fun b => p < bd_start b) (dedup_bounds prev l) | None => True end
  /\ forall b, b ∈ l -> prev <> Some (bd_start b) ->
       exists k, k ∈ dedup_bounds prev l /\ bd_start k = bd_start b /\ (bd_priority b <= bd_priority k)%Z.
Proof.
  intros Hs. revert prev. induction Hs as [|x l Hs IH Hx]; intros prev Hp; simpl.
  - split_and!; [constructor|by destruct prev|]. intros b Hb. by apply elem_of_nil in Hb.
  - assert (Forall (fun b => bd_start x <= bd_start b) l) as Hxl.
    { eapply Forall_impl; [exact Hx|]. intros b Hb%boundary_before_le. lia. }
    case_bool_decide as Hd.
    + subst prev. destruct (IH (Some (bd_start x)) Hxl) as (H1 & H2 & H3).
      split_and!; [done|done|]. intros b Hb Hne.
      apply elem_of_cons in Hb as [->|Hb]; [done|]. by apply H3.
    + destruct (IH (Some (bd_start x)) Hxl) as (H1 & H2 & H3). split_and!.
      * simpl. constructor; [done|]. unfold bd_starts. by rewrite Forall_map.
      * destruct prev as [p|]; [|done]. apply Forall_cons in Hp as [Hp1 Hp2].
        assert (p < bd_start x) by (destruct (decide (p = bd_start x)); [by subst|lia]).
        constructor; [done|]. eapply Forall_impl; [exact H2|]. intros; simpl in *. lia.
      * intros b Hb Hne. destruct (decide (bd_start b = bd_start x)) as [Heq|Hneq].
        -- exists x. split_and!; [by left|done|].
           apply elem_of_cons in Hb as [->|Hb]; [lia|].
           rewrite Forall_forall in Hx. specialize (Hx b Hb). apply boundary_before_le in Hx. lia.
        -- apply elem_of_cons in Hb as [->|Hb]; [done|].
           destruct (H3 b Hb) as (k & Hk & Hk2); [congruence|]. exists k. split; [by right|done].
Qed.

Lemma form_feed_bounds_in text : Forall (fun b => bd_start b <= length text) (form_feed_bounds text).
Proof.
  unfold form_feed_bounds. rewrite Forall_concat. apply Forall_lookup. intros i l Hi.
  rewrite list_lookup_imap in Hi. apply fmap_Some in Hi as (r & Hr & ->).
  apply lookup_lt_Some in Hr. destruct (r =? 12)%Z; repeat constructor. simpl. lia.
Qed.

Section bounds_lemmas.
Context `{Patterns} `{!PatternsOk H}.

Lemma line_bounds_in pats lines pos fence n :
  pos + length (join [NL] lines) <= n ->
  Forall (fun b => bd_start b <= n) (line_bounds pats lines pos fence).
Proof.
  revert pos fence. induction lines as [|line rest IH]; intros pos fence Hn; simpl; [done|].
  rewrite join_lines_length in Hn.
  assert (forall f, Forall (fun b => bd_start b <= n)
            (line_bounds pats rest (next_pos pos line rest) f)) as Hrest.
  { intros f. apply IH. unfold next_pos. destruct rest; simpl in *; lia. }
  destruct (starts_with (trim line) FENCE_MARK); [done|].
  apply Forall_app. split; [|done].
  destruct fence; [done|]. destruct (line_priority pats line); [|done].
  constructor; [|done]. simpl. lia.
Qed.

Lemma blank_bounds_total text :
  exists l, blank_bounds text = Some l /\ Forall (fun b => bd_start b <= length text) l.
Proof.
  unfold blank_bounds. pose proof (blanks_ok text) as Hok.
  revert Hok. generalize 0 at 1 as from. induction (find_iter EXCESSIVE_BLANKS text) as [|[a b] ms IH];
    intros from Hok; simpl; [by exists []|].
  destruct Hok as (_ & _ & Hb & Hok). destruct (IH b Hok) as (l & -> & Hl).
  apply is_char_boundary_spec in Hb as (p & r & Hp & Hpb).
  assert (slice text 0 b = Some p) as -> by (apply slice_Some; exists [], r; by rewrite <- Hpb).
  simpl. eexists. split; [done|]. constructor; [|done]. simpl. rewrite Hp, length_app. lia.
Qed.

Lemma candidate_bounds_total text langs :
  exists l, candidate_bounds text langs = Some l /\ Forall (fun b => bd_start b <= length text) l.
Proof.
  unfold candidate_bounds. destruct (blank_bounds_total text) as (bl & -> & Hbl).
  rewrite some_bind. eexists. split; [done|]. rewrite !Forall_app. split_and!; [| |done].
  - apply form_feed_bounds_in.
  - apply line_bounds_in. by rewrite join_split_char.
Qed.

Lemma find_heuristic_boundaries_eq text langs cand :
  candidate_bounds text langs = Some cand ->
  find_heuristic_boundaries text langs = Some (dedup_bounds None (sort_by boundary_before cand)).
Proof. intros E. unfold find_heuristic_boundaries. rewrite E. by destruct cand. Qed.

Lemma heuristic_boundaries_ok text langs :
  exists bounds, find_heuristic_boundaries text langs = Some bounds
    /\ StronglySorted lt (bd_starts bounds) /\ Forall (fun b => bd_start b <= length text) bounds.
Proof.
  destruct (candidate_bounds_total text langs) as (cand & Hc & Hall).
  rewrite (find_heuristic_boundaries_eq _ _ _ Hc). eexists. split; [done|].
  destruct (dedup_bounds_spec None (sort_by boundary_before cand)) as (H1 & _ & _).
  { apply sort_by_sorted; eauto using boundary_before_total, boundary_before_trans. } { done. }
  split; [done|]. apply Forall_forall. intros b Hb%dedup_bounds_sub.
  rewrite sort_by_perm in Hb. rewrite Forall_forall in Hall. by apply Hall.
Qed.
End bounds_lemmas.

(** Spans of runes: non-empty, in order, disjoint. *)
Fixpoint ordered_runes (from : nat) (spans : list Span) : Prop :=
  match spans with
  | [] => True
  | s :: spans' => from <= sp_start s < sp_end s /\ ordered_runes (sp_end s) spans'
  end.

Lemma ordered_runes_from from from' spans :
  from' <= from -> ordered_runes from spans -> ordered_runes from' spans.
Proof. destruct spans; simpl; [done|]. intros ? [? ?]. split; [lia|done]. Qed.

Lemma ordered_runes_ge from spans :
  ordered_runes from spans -> Forall (fun s => from <= sp_start s) spans.
Proof.
  revert from. induction spans as [|s spans IH]; intros from; simpl; [constructor|].
  intros [H1 H2]. constructor; [lia|]. apply IH. apply (ordered_runes_from (sp_end s)); [lia|done].
Qed.

(** The early exit of the scan is right: later spans start even later. *)
Lemma inside_some_span_spec b spans from :
  ordered_runes from spans ->
  inside_some_span b spans = true <->
  exists s, s ∈ spans /\ sp_start s < bd_start b < sp_end s.
Proof.
  revert from. induction spans as [|s spans IH]; simpl; intros from Ho.
  - split; [done|]. intros (s & Hs & _). by apply elem_of_nil in Hs.
  - destruct Ho as [H1 Ho]. pose proof (ordered_runes_ge _ _ Ho) as Hge.
    rewrite Forall_forall in Hge.
    destruct (Nat.leb_spec (bd_start b) (sp_start s)).
    { split; [done|]. intros (t & [->|Ht]%elem_of_cons & Hin); [lia|]. specialize (Hge t Ht). lia. }
    destruct (Nat.ltb_spec (bd_start b) (sp_end s)).
    { split; [|done]. intros _. exists s. split; [by left|lia]. }
    rewrite (IH _ Ho). split; intros (t & Ht & Hin).
    + exists t. split; [by right|done].
    + apply elem_of_cons in Ht as [->|Ht]; [lia|]. by exists t.
Qed.

Lemma blen_take_lt (text : str) a b : a < b -> b <= length text -> blen (take a text) < blen (take b text).
Proof.
  intros Hab Hb. replace b with (a + (b - a)) by lia.
  rewrite <- take_take_drop, blen_app.
  pose proof (blen_ge_length (take (b - a) (drop a text))) as Hl.
  rewrite length_take, length_drop in Hl. lia.
Qed.

Lemma same_position_le text b1 r1 b2 r2 :
  same_position text b1 r1 -> same_position text b2 r2 ->
  (b1 <= b2 -> r1 <= r2) /\ (b1 < b2 -> r1 < r2).
Proof.
  intros [Hr1 <-] [Hr2 <-]. split; intros Hb.
  - destruct (decide (r1 <= r2)); [done|]. pose proof (blen_take_lt text r2 r1). lia.
  - destruct (decide (r1 < r2)); [done|].
    destruct (decide (r1 = r2)); [subst; lia|]. pose proof (blen_take_lt text r2 r1). lia.
Qed.

Lemma same_spans_ordered text from fromr bs rs :
  same_position text from fromr ->
  Forall2 (fun b r => same_position text (sp_start b) (sp_start r)
                      /\ same_position text (sp_end b) (sp_end r)) bs rs ->
  ordered_spans text from bs -> ordered_runes fromr rs.
Proof.
  intros Hf Hall. revert from fromr Hf. induction Hall as [|b r bs rs [Hs He] Hall IH];
    intros from fromr Hf; simpl; [done|].
  intros (Hb & _ & _ & Ho). split; [|by eapply IH].
  pose proof (same_position_le _ _ _ _ _ Hf Hs) as [Hle _].
  pose proof (same_position_le _ _ _ _ _ Hs He) as [_ Hlt]. lia.
Qed.

Lemma protected_runes_ordered `{Patterns} `{!PatternsOk H} text :
  ordered_runes 0 (protected_spans_rune text (protected_spans text)).
Proof.
  apply (same_spans_ordered text 0 0 (protected_spans text)).
  - split; [lia|done].
  - apply (protected_spans_rune_loop_spec text [] text); [done|apply protected_spans_ok].
  - apply protected_spans_ok.
Qed.

Lemma drop_bounds_elem from spans bounds b :
  ordered_runes from spans ->
  b ∈ drop_bounds_inside_spans bounds spans <->
  b ∈ bounds /\ ~ exists s, s ∈ spans /\ sp_start s < bd_start b < sp_end s.
Proof.
  intros Ho. rewrite <- (inside_some_span_spec b spans from Ho).
  destruct spans as [|s spans].
  { split; [intros Hb; split; [done|discriminate]|by intros [? _]]. }
  unfold drop_bounds_inside_spans. rewrite list_elem_of_In, filter_In, <- list_elem_of_In.
  by rewrite negb_true_iff, not_true_iff_false.
Qed.

Lemma filter_starts_sorted f (l : list Boundary) :
  StronglySorted lt (bd_starts l) -> StronglySorted lt (bd_starts (List.filter f l)).
Proof.
  induction l as [|b l IH]; simpl; [done|]. intros [Hs Hall]%StronglySorted_inv.
  destruct (f b); [|by apply IH]. simpl. constructor; [by apply IH|].
  unfold bd_starts in *. rewrite Forall_map in *. rewrite Forall_forall in *.
  intros x. rewrite list_elem_of_In, filter_In, <- list_elem_of_In. intros [Hx _]. by apply Hall.
Qed.

Lemma drop_bounds_sorted bounds spans :
  StronglySorted lt (bd_starts bounds) ->
  StronglySorted lt (bd_starts (drop_bounds_inside_spans bounds spans)).
Proof. destruct spans; [done|]. apply filter_starts_sorted. Qed.

Lemma drop_bounds_sub bounds spans (P : Boundary -> Prop) :
  Forall P bounds -> Forall P (drop_bounds_inside_spans bounds spans).
Proof.
  destruct spans as [|s spans]; [done|]. rewrite !Forall_forall. intros HP b.
  unfold drop_bounds_inside_spans. rewrite list_elem_of_In, filter_In, <- list_elem_of_In.
  intros [Hb _]. by apply HP.
Qed.

(** ** Lemmas: the overlap *)

Lemma usize_mul_le a b : usize_mul a b <= a * b.
Proof.
  unfold usize_mul.
  assert ((N.of_nat a * N.of_nat b) mod usize_modulus <= N.of_nat a * N.of_nat b)%N as Hle
    by (apply N.Div0.mod_le). lia.
Qed.

Lemma back_to_newline_bounds runes w i j :
  back_to_newline runes w i = Some j -> 0 < i /\ w < j <= i + 1.
Proof.
  induction i as [|i IH]; simpl; [done|].
  destruct (_ && _) eqn:E; [|done]. bool_to_prop.
  destruct (runes !! S i) as [r|]; [|done].
  destruct (r =? 10)%Z; [intros [= <-]; lia|]. intros Hj. specialize (IH Hj). lia.
Qed.

Lemma max_in_window_bounds lo hi bounds best b :
  match best with Some c => lo <= c < hi | None => True end ->
  foldl (max_in_window lo hi) best bounds = Some b -> lo <= b < hi.
Proof.
  revert best. induction bounds as [|x bounds IH]; intros best Hb; simpl.
  - intros ->. done.
  - apply IH. unfold max_in_window. destruct (_ && _) eqn:E; [|done].
    bool_to_prop. destruct best; lia.
Qed.

Lemma apply_overlap_aligned_bounds runes cur_end overlap bounds :
  cur_end - 2 * overlap <= apply_overlap_aligned runes cur_end overlap bounds <= cur_end.
Proof.
  unfold apply_overlap_aligned. destruct (Nat.eqb_spec overlap 0); [lia|]. cbv zeta.
  pose proof (usize_mul_le 2 overlap) as Hw.
  destruct (foldl _ _ _) as [b|] eqn:E.
  - apply max_in_window_bounds in E; [lia|done].
  - destruct (back_to_newline _ _ _) as [j|] eqn:Ej; simpl; [|lia].
    apply back_to_newline_bounds in Ej.
    lia.
Qed.

(** ** Lemmas: the main loop *)

Lemma split_text_length `{Patterns} `{!PatternsOk H} text cs ov seps chunks :
  split_text text cs ov seps = Some chunks ->
  Forall (fun c => length (content c) <= Nat.max (effective_size cs) HARD_CAP) chunks.
Proof.
  intros Hs. destruct (split_text_ok text cs ov seps)
    as (units & chunks' & _ & _ & Hs' & Hc & _). rewrite Hs in Hs'. injection Hs' as <-.
  eapply Forall_impl; [exact Hc|].
  intros c (_ & _ & hdr & _ & _ & [Hb|(Hb & _)]); lia.
Qed.

Section loop.
Context `{Patterns} `{!PatternsOk H} (text : str) (cfg : SplitterConfig) (bounds : list Boundary).

Definition min_chunk : nat := Nat.max (chunk_size cfg / 4) 50.

(** The longest stretch the loop accumulates before it cuts. *)
Definition stretch : nat := chunk_size cfg + Nat.max (2 * chunk_overlap cfg) min_chunk.

Definition heur_cap : nat := Nat.max stretch (Nat.max (effective_size (chunk_size cfg)) HARD_CAP).

(** Every rune before [n] is white space or lies in a chunk. *)
Definition covers (out : list TextChunk) (n : nat) : Prop :=
  forall p r, p < n -> text !! p = Some r ->
    is_whitespace r = true \/ Exists (fun c => tc_start c <= p < tc_end c) out.

Record chunks_so_far (out : list TextChunk) (sq n : nat) : Prop := {
  csf_valid : Forall (valid_chunk text) out;
  csf_numbered : numbered out;
  csf_seq : sq = length out;
  csf_covers : covers out n;
  csf_cap : Forall (fun c => length (content c) <= heur_cap) out;
}.

Lemma covers_le out n n' : n' <= n -> covers out n -> covers out n'.
Proof. intros Hle Hc p r Hp. apply Hc. lia. Qed.

Lemma csf_le out sq n n' : n' <= n -> chunks_so_far out sq n -> chunks_so_far out sq n'.
Proof. intros Hle []. split; [done|done|done| |done]. by eapply covers_le. Qed.

Lemma append_chunk_ok out sq s e :
  chunks_so_far out sq s -> s <= e <= length text -> e - s <= stretch ->
  exists out' sq', append_chunk out text s e sq = Some (out', sq') /\ chunks_so_far out' sq' e.
Proof.
  intros Hc Hse Hlen. unfold append_chunk. destruct (Nat.leb_spec e s).
  { exists out, sq. split; [done|]. assert (e = s) as -> by lia. done. }
  unfold rune_slice.
  assert ((s <=? e) && (e <=? length text) = true) as ->
    by (apply andb_true_iff; rewrite !Nat.leb_le; lia).
  rewrite some_bind. destruct Hc as [Hv Hn -> Hcov Hcap].
  destruct (str_is_empty (trim (sub text s e))) eqn:E.
  - eexists _, _. split; [done|]. split; [done|done|done| |done].
    intros p r Hp Hr. destruct (decide (p < s)); [by eapply Hcov|]. left.
    apply str_is_empty_spec, trim_nil in E. rewrite Forall_forall in E. apply E.
    apply list_elem_of_lookup. exists (p - s). unfold sub.
    rewrite lookup_take_lt by lia. rewrite lookup_drop. by replace (s + (p - s)) with p by lia.
  - eexists _, _. split; [done|]. split.
    + apply Forall_app. split; [done|]. constructor; [|done]. apply valid_chunk_exact. lia.
    + by apply numbered_snoc.
    + rewrite length_app. simpl. lia.
    + intros p r Hp Hr. rewrite Exists_app. destruct (decide (p < s)).
      * destruct (Hcov p r) as [|]; auto.
      * right. right. constructor. simpl. lia.
    + apply Forall_app. split; [done|]. constructor; [|done]. simpl.
      rewrite length_sub by lia. unfold heur_cap. lia.
Qed.

Lemma append_subs_ok s e subs : forall out k,
  s <= e <= length text -> k = length out ->
  Forall (valid_chunk (sub text s e)) subs -> Forall (valid_chunk text) out -> numbered out ->
  exists out', append_subs out s k subs = (out ++ out', k + length subs)
    /\ out' = imap (fun i c => shift_chunk s [] (k + i) c) subs
    /\ Forall (valid_chunk text) (out ++ out') /\ numbered (out ++ out').
Proof.
  induction subs as [|c subs IH]; simpl; intros out k Hse Hk Hs Hv Hn.
  - exists []. rewrite app_nil_r. split_and!; [f_equal; lia|done|done|done].
  - apply Forall_cons in Hs as [Hc Hs].
    edestruct (IH (out ++ [shift_chunk s [] k c]) (k + 1)) as (out' & Hout & Hi & Hv' & Hn').
    { done. } { rewrite length_app. simpl. lia. } { done. }
    { apply Forall_app. split; [done|]. constructor; [|done].
      eapply valid_chunk_shift; [| |exact Hc]; lia. }
    { by apply numbered_snoc. }
    exists (shift_chunk s [] k c :: out'). rewrite <- app_assoc in *. simpl in *. split_and!.
    + unfold shift_chunk in Hout at 1. rewrite Hout. f_equal. lia.
    + rewrite Hi. f_equal; [by rewrite Nat.add_0_r|]. apply imap_ext.
      intros i x _. simpl. f_equal. lia.
    + done.
    + done.
Qed.

Lemma append_oversize_ok out sq s e :
  chunks_so_far out sq s -> s <= e <= length text ->
  exists out' sq', append_oversize out text s e cfg sq = Some (out', sq')
                   /\ chunks_so_far out' sq' e.
Proof.
  intros Hc Hse. unfold append_oversize. destruct (Nat.leb_spec e s).
  { exists out, sq. split; [done|]. assert (e = s) as -> by lia. done. }
  unfold rune_slice.
  assert ((s <=? e) && (e <=? length text) = true) as ->
    by (apply andb_true_iff; rewrite !Nat.leb_le; lia).
  rewrite some_bind. destruct Hc as [Hv Hn -> Hcov Hcap].
  destruct (split_text_promise (sub text s e) (chunk_size cfg) (chunk_overlap cfg) (separators cfg))
    as (subs & Hs & Hsv & _ & Hg). rewrite Hs, some_bind.
  destruct (append_subs_ok s e subs out (length out) Hse eq_refl Hsv Hv Hn)
    as (out' & -> & Hout' & Hv' & Hn').
  eexists _, _. split; [done|]. split; [done|done| | |].
  - rewrite length_app, Hout', length_imap. done.
  - intros p r Hp Hr. rewrite Exists_app. destruct (decide (p < s)).
    { destruct (Hcov p r) as [|]; auto. }
    right. right. rewrite length_sub in Hg by lia.
    destruct (proj1 (Exists_exists _ _) (gapless_covers _ _ _ _ (p - s) Hg ltac:(lia)))
      as (c & Hin & Hcp).
    apply list_elem_of_lookup in Hin as [i Hi]. apply Exists_exists.
    exists (shift_chunk s [] (length out + i) c). split.
    + rewrite Hout'. apply list_elem_of_lookup. exists i. by rewrite list_lookup_imap, Hi.
    + simpl. lia.
  - apply Forall_app. split; [done|]. rewrite Hout'. apply Forall_lookup. intros i c Hi.
    rewrite list_lookup_imap in Hi. apply fmap_Some in Hi as (c0 & Hc0 & ->). simpl.
    pose proof (split_text_length _ _ _ _ _ Hs) as Hl.
    rewrite Forall_lookup in Hl. specialize (Hl i c0 Hc0). unfold heur_cap. lia.
Qed.

(** The remaining boundaries rise from the current end to the end of the text. *)
Definition heur_inv (st : HeurState) (rest : list Boundary) : Prop :=
  chunks_so_far (hs_out st) (hs_seq st) (hs_chunk_start st)
  /\ hs_chunk_start st <= hs_cur_end st <= length text
  /\ hs_cur_end st - hs_chunk_start st <= stretch
  /\ StronglySorted le (hs_cur_end st :: bd_starts rest)
  /\ last (hs_cur_end st :: bd_starts rest) = Some (length text)
  /\ Forall (fun b => bd_start b <= length text) rest.

Lemma heur_step_ok st b rest :
  heur_inv st (b :: rest) ->
  exists st', heur_step text cfg bounds st b = Some st' /\ heur_inv st' rest.
Proof.
  intros (Hc & Hse & Hlen & Hs & Hl & Hall). destruct st as [out sq cs ce]. simpl in *.
  apply StronglySorted_inv in Hs as [Hs Hle]. apply Forall_cons in Hle as [Hle _].
  apply Forall_cons in Hall as [Hb Hall]. unfold heur_step. cbn [hs_out hs_seq hs_chunk_start hs_cur_end].
  cbv zeta. destruct (Nat.ltb_spec (chunk_size cfg) (bd_start b - ce)).
  - destruct (append_chunk_ok out sq cs ce Hc Hse Hlen) as (o1 & q1 & E1 & Hc1).
    assert ((if cs <? ce then append_chunk out text cs ce sq else Some (out, sq)) = Some (o1, q1))
      as ->.
    { destruct (Nat.ltb_spec cs ce); [done|]. unfold append_chunk in E1.
      destruct (Nat.leb_spec ce cs); [done|lia]. }
    rewrite some_bind. destruct (append_oversize_ok o1 q1 ce (bd_start b) Hc1) as (o2 & q2 & -> & Hc2);
      [lia|].
    rewrite some_bind. eexists. split; [done|]. split_and!; simpl; try done; lia.
  - destruct (_ && _) eqn:E.
    + destruct (append_chunk_ok out sq cs ce Hc Hse Hlen) as (o1 & q1 & -> & Hc1).
      rewrite some_bind. eexists. split; [done|].
      pose proof (apply_overlap_aligned_bounds text ce (chunk_overlap cfg) bounds) as Ha.
      split_and!; simpl; try done; [eapply csf_le; [|exact Hc1]; lia|lia|unfold stretch; lia].
    + eexists. split; [done|]. split_and!; simpl; try done; [lia|].
      apply andb_false_iff in E. rewrite Nat.ltb_ge, Nat.leb_gt in E.
      unfold stretch, min_chunk in *. lia.
Qed.
End loop.

Lemma sorted_lt_le l : StronglySorted lt l -> StronglySorted le l.
Proof.
  induction 1 as [|x l Hs IH Hx]; constructor; [done|].
  eapply Forall_impl; [exact Hx|]. simpl. lia.
Qed.

Lemma frame_bounds_ok bounds total :
  StronglySorted lt (bd_starts bounds) -> Forall (fun b => bd_start b <= total) bounds ->
  exists b0 rest, frame_bounds bounds total = b0 :: rest /\ bd_start b0 = 0
    /\ StronglySorted le (bd_starts (b0 :: rest)) /\ last (bd_starts (b0 :: rest)) = Some total
    /\ Forall (fun b => bd_start b <= total) (b0 :: rest).
Proof.
  intros Hs Hall. set (tb := {| bd_start := total; bd_priority := 0%Z |}).
  assert (StronglySorted le (bd_starts (bounds ++ [tb]))) as Hs'.
  { unfold bd_starts. rewrite map_app. apply StronglySorted_app_2; [|by apply sorted_lt_le|].
    - intros x y Hx Hy%list_elem_of_singleton. subst y. simpl.
      rewrite <- (Forall_map bd_start (fun n => n <= total)), Forall_forall in Hall. by apply Hall.
    - repeat constructor. }
  assert (Forall (fun b => bd_start b <= total) (bounds ++ [tb])) as Hall'.
  { apply Forall_app. split; [done|]. by repeat constructor. }
  assert (last (bd_starts (bounds ++ [tb])) = Some total) as Hl.
  { unfold bd_starts. rewrite map_app. apply last_snoc. }
  unfold frame_bounds. fold tb. destruct (bounds ++ [tb]) as [|b l] eqn:E; [by destruct bounds|].
  destruct (Nat.eqb_spec (bd_start b) 0) as [Hz|Hz]; simpl negb; cbv iota.
  - by exists b, l.
  - eexists _, (b :: l). split_and!; [done|done| |done|].
    + simpl. constructor; [done|]. apply Forall_forall. intros; lia.
    + constructor; [simpl; lia|done].
Qed.

Section heuristic_ok.
Context `{Patterns} `{!PatternsOk H} (text : str) (cfg : SplitterConfig).

Lemma chunks_so_far_nil : chunks_so_far text cfg [] 0 0.
Proof. split; [constructor|done|done|intros p r; lia|constructor]. Qed.

Lemma heuristic_chunks_ok b0 rest :
  bd_start b0 = 0 -> StronglySorted le (bd_starts (b0 :: rest)) ->
  last (bd_starts (b0 :: rest)) = Some (length text) ->
  Forall (fun b => bd_start b <= length text) (b0 :: rest) ->
  exists out n, heuristic_chunks text cfg (b0 :: rest) = Some out
    /\ chunks_so_far text cfg out n (length text).
Proof.
  intros Hz Hs Hl Hall. unfold heuristic_chunks. rewrite Hz.
  edestruct (foldM_invariant (heur_step text cfg (b0 :: rest)) (heur_inv text cfg) rest
              {| hs_out := []; hs_seq := 0; hs_chunk_start := 0; hs_cur_end := 0 |})
    as (st & -> & Hc & Hse & Hlen & _ & Hlast & _).
  - split_and!; simpl; [apply chunks_so_far_nil|lia|lia|lia| | |].
    + by rewrite <- Hz.
    + by rewrite <- Hz.
    + by apply Forall_cons in Hall as [_ Hall].
  - intros st b l Hinv. by apply heur_step_ok.
  - rewrite some_bind. simpl in Hlast. injection Hlast as Hlast.
    destruct (append_chunk_ok text cfg (hs_out st) (hs_seq st) (hs_chunk_start st) (hs_cur_end st))
      as (out & n & E & Hc'); [done|done|done|].
    rewrite Hlast in *. destruct (Nat.ltb_spec (hs_chunk_start st) (length text)).
    + rewrite E, some_bind. by exists out, n.
    + exists (hs_out st), (hs_seq st). split; [done|].
      by replace (length text) with (hs_chunk_start st) by lia.
Qed.

Lemma gapless_chunks_so_far out ov :
  Forall (valid_chunk text) out -> numbered out -> gapless ov 0 out (length text) ->
  Forall (fun c => length (content c) <= Nat.max (effective_size (chunk_size cfg)) HARD_CAP) out ->
  chunks_so_far text cfg out (length out) (length text).
Proof.
  intros Hv Hn Hg Hl. split; [done|done|done| |].
  - intros p r Hp _. right. apply (gapless_covers ov 0 out (length text)); [done|lia].
  - eapply Forall_impl; [exact Hl|]. intros c. unfold heur_cap. simpl. lia.
Qed.

Lemma split_by_heuristics_ok profile :
  exists out n, split_by_heuristics text cfg profile = Some out
    /\ chunks_so_far text cfg out n (length text).
Proof.
  unfold split_by_heuristics. destruct (str_is_empty text) eqn:E.
  { apply str_is_empty_spec in E. exists [], 0. split; [done|]. rewrite E in *.
    split; [constructor|done|done|intros p r; simpl; lia|constructor]. }
  assert (exists out n, split_text text (chunk_size cfg) (chunk_overlap cfg) (separators cfg) = Some out
            /\ chunks_so_far text cfg out n (length text)) as Hlegacy.
  { destruct (split_text_promise text (chunk_size cfg) (chunk_overlap cfg) (separators cfg))
      as (out & Hs & Hv & Hn & Hg). exists out, (length out). split; [done|].
    eapply gapless_chunks_so_far; [done|done|exact Hg|]. by eapply split_text_length. }
  cbv zeta. destruct (_ <=? _); [done|].
  destruct (heuristic_boundaries_ok text (languages cfg)) as (bounds & -> & Hs & Hall).
  rewrite some_bind. set (prot := protected_spans_rune _ _).
  set (bs := match prot with [] => bounds | _ => drop_bounds_inside_spans bounds prot end).
  assert (StronglySorted lt (bd_starts bs) /\ Forall (fun b => bd_start b <= length text) bs)
    as [Hs' Hall'].
  { unfold bs. destruct prot; [done|]. split; [by apply drop_bounds_sorted|].
    by apply drop_bounds_sub. }
  destruct (frame_bounds_ok bs (length text) Hs' Hall') as (b0 & rest & -> & ? & ? & ? & ?).
  destruct bs; [done|]. by apply heuristic_chunks_ok.
Qed.
End heuristic_ok.

#[export] Instance split_by_heuristics_tier `{Patterns} `{!PatternsOk H} cfg profile :
  TierSplitter (fun text => split_by_heuristics text cfg profile).
Proof.
  intros text. destruct (split_by_heuristics_ok text cfg profile) as (out & n & Hs & [Hv Hn _ Hc _]).
  exists out. split; [done|]. split; [done|done|]. intros p r Hp. apply Hc; [|done].
  by apply lookup_lt_Some in Hp.
Qed.

(** ** Properties *)

(** The boundaries of the heuristic tier exist for every text (no slice panics), rise
    strictly and lie in the text; each is one of the candidates, and for every candidate the
    boundary kept at its offset has at least its priority. *)
Theorem find_heuristic_boundaries_best `{Patterns} (Hok : PatternsOk H)
    (text : str) (langs : list str) :
  exists cand bounds,
    candidate_bounds text langs = Some cand
    /\ find_heuristic_boundaries text langs = Some bounds
    /\ StronglySorted lt (map bd_start bounds)
    /\ Forall (fun b => bd_start b <= length text /\ b ∈ cand) bounds
    /\ Forall (fun b => exists k, k ∈ bounds /\ bd_start k = bd_start b
                        /\ (bd_priority b <= bd_priority k)%Z) cand.
Proof.
  destruct (candidate_bounds_total text langs) as (cand & Hc & Hall).
  exists cand. rewrite (find_heuristic_boundaries_eq _ _ _ Hc). eexists. split; [done|].
  destruct (dedup_bounds_spec None (sort_by boundary_before cand)) as (H1 & _ & H3).
  { apply sort_by_sorted; eauto using boundary_before_total, boundary_before_trans. } { done. }
  rewrite Forall_forall in Hall. split_and!; [done|done| |].
  - apply Forall_forall. intros b Hb%dedup_bounds_sub. rewrite sort_by_perm in Hb. auto.
  - apply Forall_forall. intros b Hb. apply H3; [by rewrite sort_by_perm|done].
Qed.

(** Of the boundaries, [drop_bounds_inside_spans] drops those strictly inside a protected
    span of the text and only those, so no chunk of the tier starts within one. *)
Theorem drop_bounds_protects `{Patterns} (Hok : PatternsOk H)
    (text : str) (bounds : list Boundary) (b : Boundary) :
  b ∈ drop_bounds_inside_spans bounds (protected_spans_rune text (protected_spans text))
  <-> b ∈ bounds
      /\ Forall (fun s => ~ (sp_start s < bd_start b < sp_end s))
           (protected_spans_rune text (protected_spans text)).
Proof.
  rewrite (drop_bounds_elem 0) by apply protected_runes_ordered.
  rewrite Forall_forall. naive_solver.
Qed.

(** C24: the heuristic tier returns for every text and configuration; its chunks carry the runes
    their offsets name, are numbered from 0, leave out white space only, and are never longer
    than the chunk size plus the larger of twice the overlap and the minimum chunk, or than
    the hard cap of an oversize piece. *)
Theorem split_by_heuristics_covers `{Patterns} (Hok : PatternsOk H)
    (text : str) (cfg : SplitterConfig) (profile : option DocProfile) :
  exists chunks,
    split_by_heuristics text cfg profile = Some chunks
    /\ Forall (valid_chunk text) chunks
    /\ numbered chunks
    /\ (forall p r, text !! p = Some r ->
          is_whitespace r = true \/ Exists (fun c => tc_start c <= p < tc_end c) chunks)
    /\ Forall (fun c => length (content c) <=
         Nat.max (chunk_size cfg + Nat.max (2 * chunk_overlap cfg) (Nat.max (chunk_size cfg / 4) 50))
                 (Nat.max (effective_size (chunk_size cfg)) HARD_CAP)) chunks.
Proof.
  destruct (split_by_heuristics_ok text cfg profile) as (out & n & Hs & [Hv Hn _ Hc Hl]).
  exists out. split_and!; [done|done|done| |exact Hl].
  intros p r Hr. apply (Hc p r); [by apply lookup_lt_Some in Hr|done].
Qed.

(** ** Witnesses *)

Definition sample_chapters : str := u8"1. Intro
alpha beta gamma delta epsilon zeta eta theta
$$
2. inside
$$

3. Methods
one two three four five six seven eight nine

---
Page 3 of 10
the end of it".

Definition small_config : SplitterConfig := {|
  chunk_size := 60; chunk_overlap := 10; separators := sample_seps; strategy := [];
  token_limit := 0; languages := [] |}.

Lemma find_heuristic_boundaries_best_witness :
  (exists cand bounds,
    @candidate_bounds demo_patterns sample_chapters [] = Some cand
    /\ @find_heuristic_boundaries demo_patterns sample_chapters [] = Some bounds
    /\ StronglySorted lt (map bd_start bounds)
    /\ Forall (fun b => bd_start b <= length sample_chapters /\ b ∈ cand) bounds
    /\ Forall (fun b => exists k, k ∈ bounds /\ bd_start k = bd_start b
                        /\ (bd_priority b <= bd_priority k)%Z) cand)
  /\ 2 <= default 0 (length <$> @find_heuristic_boundaries demo_patterns sample_chapters []).
Proof.
  split; [|apply Nat.leb_le; vm_compute; reflexivity].
  exact (@find_heuristic_boundaries_best demo_patterns demo_patterns_ok sample_chapters []).
Defined.

Lemma drop_bounds_protects_witness :
  let spans := protected_spans_rune sample_chapters
                 (@protected_spans demo_patterns sample_chapters) in
  let b := {| bd_start := 60; bd_priority := 0%Z |} in
  b ∈ drop_bounds_inside_spans [b] spans
  <-> b ∈ [b] /\ Forall (fun s => ~ (sp_start s < bd_start b < sp_end s)) spans.
Proof. exact (@drop_bounds_protects demo_patterns demo_patterns_ok sample_chapters _ _). Defined.

Lemma split_by_heuristics_covers_witness :
  (exists chunks,
    @split_by_heuristics demo_patterns sample_chapters small_config None = Some chunks
    /\ Forall (@valid_chunk demo_patterns sample_chapters) chunks
    /\ numbered chunks
    /\ (forall p r, sample_chapters !! p = Some r ->
          is_whitespace r = true \/ Exists (fun c => tc_start c <= p < tc_end c) chunks)
    /\ Forall (fun c => length (content c) <=
         Nat.max (chunk_size small_config + Nat.max (2 * chunk_overlap small_config)
                    (Nat.max (chunk_size small_config / 4) 50))
                 (Nat.max (effective_size (chunk_size small_config)) HARD_CAP)) chunks)
  /\ 2 <= default 0 (length <$> @split_by_heuristics demo_patterns sample_chapters small_config None).
Proof.
  split; [|apply Nat.leb_le; vm_compute; reflexivity].
  exact (@split_by_heuristics_covers demo_patterns demo_patterns_ok sample_chapters small_config None).
Defined.
