(* ===== verification/Strategy.v ===== *)
(** * [crates/knowledge/src/chunker/strategy.rs], [validator.rs]

    The choice of a tier: the chain of tiers to try, the validator that accepts a tier's
    chunks, the defaults of a configuration, and the two-level split into parents and
    children.  The tiers are used through the interface [TierSplitter] of [ChunkSpec]. *)
From S2P Require Import Prelude RustStr Regex DemoPatterns HeaderTracker Splitter SplitterFacts MergeFacts.
From S2P Require Import ChunkSpec Tokens Profiler Heading Heuristic.

Definition STRATEGY_HEADING : str := u8"heading".
Definition STRATEGY_HEURISTIC : str := u8"heuristic".
Definition STRATEGY_RECURSIVE : str := u8"recursive".
Definition STRATEGY_LEGACY : str := u8"legacy".

(** ** [validator.rs] *)

(** [max_len] and [tiny] of the loop, in this order; the last chunk may be short. *)
Fixpoint measure_chunks (chunks : list TextChunk) (max_len tiny : nat) : nat * nat :=
  match chunks with
  | [] => (max_len, tiny)
  | c :: rest =>
    let l := length (content c) in
    let is_last := match rest with [] => true | _ => false end in
    measure_chunks rest (Nat.max max_len l)
      (if negb is_last && (l <? 50) then tiny + 1 else tiny)
  end.

Definition validate_chunks (chunks : list TextChunk) (total_chars chunk_size : nat) : bool :=
  let n := length chunks in
  let '(max_len, tiny) := measure_chunks chunks 0 0 in
  if n =? 0 then false
  else if (n =? 1) && (usize_mul 2 chunk_size <? total_chars) then false
  else if (n / 4 <? tiny) && (2 <? tiny) then false
  else if (max_len <? chunk_size / 4) && (chunk_size <? total_chars) then false
  else if (0 <? chunk_size) && (usize_mul 2 chunk_size <? max_len) then false
  else true.

(** ** [ensure_defaults] *)

Definition with_token_limit (cfg : SplitterConfig) (size : nat) : nat :=
  if 0 <? token_limit cfg then
    let lang := default LANG_MIXED (head (languages cfg)) in
    let budget := chars_for_token_limit (token_limit cfg) lang in
    if (0 <? budget) && ((size =? 0) || (budget <? size)) then budget else size
  else size.

Definition ensure_defaults (cfg : SplitterConfig) : SplitterConfig :=
  let size := if chunk_size cfg =? 0 then DEFAULT_CHUNK_SIZE else chunk_size cfg in
  let overlap := if chunk_overlap cfg =? 0 then DEFAULT_CHUNK_OVERLAP else chunk_overlap cfg in
  let seps := match separators cfg with
              | [] => [[NL; NL]; [NL]; [IDEOGRAPHIC_STOP]]
              | seps => seps
              end in
  let size := with_token_limit cfg size in
  {| chunk_size := size;
     chunk_overlap := if (0 <? size) && (size / 2 <? overlap) then size / 2 else overlap;
     separators := seps;
     strategy := strategy cfg;
     token_limit := token_limit cfg;
     languages := languages cfg |}.

(** ** [merge_breadcrumbs] *)

Definition merge_breadcrumbs (parent child : str) : str :=
  if str_is_empty parent then child
  else if str_is_empty child then parent
  else
    let child_lines := split_char NL child in
    let child_lines :=
      match last (split_char NL parent), child_lines with
      | Some pl, cl :: rest => if str_eqb (trim pl) (trim cl) then rest else child_lines
      | _, _ => child_lines
      end in
    match child_lines with
    | [] => parent
    | _ => parent ++ [NL] ++ join [NL] child_lines
    end.

Record ChildChunk := { cc_chunk : TextChunk; cc_parent_index : option nat }.

Record ParentChildResult := { pc_parents : list TextChunk; pc_children : list ChildChunk }.

(** The children of one parent, from the pieces of its content. *)
Fixpoint push_children (parent : TextChunk) (parent_index : option nat) (child_seq : nat)
    (subs : list TextChunk) (children : list ChildChunk) : list ChildChunk * nat :=
  match subs with
  | [] => (children, child_seq)
  | c :: subs' =>
    push_children parent parent_index (child_seq + 1) subs'
      (children ++
       [{| cc_chunk := {| content := content c;
                          context_header := merge_breadcrumbs (context_header parent) (context_header c);
                          seq := child_seq;
                          tc_start := tc_start c + tc_start parent;
                          tc_end := tc_end c + tc_start parent |};
           cc_parent_index := parent_index |}])
  end.

Definition is_subdivided (parent : TextChunk) (subs : list TextChunk) : bool :=
  (1 <? length subs)
  || match subs with [c] => negb (str_eqb (content c) (content parent)) | _ => false end.

Section strategy.
Context `{Patterns}.

Definition resolve_chain_with_profile (text : str) (cfg : SplitterConfig)
    : option (list StrategyTier * option DocProfile) :=
  let s := strategy cfg in
  if str_eqb s STRATEGY_HEADING then Some ([Heading; Legacy], None)
  else if str_eqb s STRATEGY_HEURISTIC then Some ([Heuristic; Legacy], None)
  else if str_eqb s STRATEGY_RECURSIVE || str_eqb s STRATEGY_LEGACY || str_is_empty s
  then Some ([Legacy], None)
  else
    profile ← profile_document text;
    Some (select_strategy profile, Some profile).

Definition resolve_chain (strategy text : str) : option (list str) :=
  let cfg := {| chunk_size := 0; chunk_overlap := 0; separators := []; strategy := strategy;
                token_limit := 0; languages := [] |} in
  '(chain, _) ← resolve_chain_with_profile text cfg;
  Some (map tier_as_str chain).

Definition run_tier (tier : StrategyTier) (text : str) (cfg : SplitterConfig)
    (profile : option DocProfile) : option (list TextChunk) :=
  match tier with
  | Heading => split_by_headings text cfg profile
  | Heuristic => split_by_heuristics text cfg profile
  | Legacy => split_text text (chunk_size cfg) (chunk_overlap cfg) (separators cfg)
  end.

Fixpoint try_tiers (text : str) (cfg : SplitterConfig) (profile : option DocProfile)
    (total : nat) (chain : list StrategyTier) (last_legacy : list TextChunk)
    : option (list TextChunk) :=
  match chain with
  | [] =>
    match last_legacy with
    | [] => split_text text (chunk_size cfg) (chunk_overlap cfg) (separators cfg)
    | _ => Some last_legacy
    end
  | tier :: rest =>
    out ← run_tier tier text cfg profile;
    if validate_chunks out total (chunk_size cfg) then Some out
    else
      try_tiers text cfg profile total rest
        (if bool_decide (tier = Legacy) && bool_decide (rest = []) then out else last_legacy)
  end.

Definition split (text : str) (cfg : SplitterConfig) : option (list TextChunk) :=
  if str_is_empty text then Some []
  else
    let cfg := ensure_defaults cfg in
    '(chain, profile) ← resolve_chain_with_profile text cfg;
    try_tiers text cfg profile (length text) chain [].

(** The state of the parent loop: new_parents, children, child_seq. *)
Definition parent_step (child_cfg : SplitterConfig)
    (st : list TextChunk * list ChildChunk * nat) (parent : TextChunk)
    : option (list TextChunk * list ChildChunk * nat) :=
  let '(new_parents, children, child_seq) := st in
  subs ← split (content parent) child_cfg;
  let '(parent_index, new_parents') :=
    if is_subdivided parent subs
    then (Some (length new_parents), new_parents ++ [parent])
    else (None, new_parents) in
  let '(children, child_seq) := push_children parent parent_index child_seq subs children in
  Some (new_parents', children, child_seq).

Definition split_parent_child (text : str) (parent_cfg child_cfg : SplitterConfig)
    : option ParentChildResult :=
  if str_is_empty text then Some {| pc_parents := []; pc_children := [] |}
  else
    parents ← split text parent_cfg;
    match parents with
    | [] => Some {| pc_parents := []; pc_children := [] |}
    | _ =>
      '(new_parents, children, _) ← foldM (parent_step child_cfg) ([], [], 0) parents;
      Some {| pc_parents := new_parents; pc_children := children |}
    end.
End strategy.

(** ** Lemmas: validator *)

Lemma measure_chunks_spec chunks m t :
  measure_chunks chunks m t =
  (Nat.max m (foldr (fun c k => Nat.max (length (content c)) k) 0 chunks),
   t + length (List.filter (fun c => length (content c) <? 50) (removelast chunks))).
Proof.
  revert m t. induction chunks as [|c rest IH]; intros m t; simpl; [f_equal; lia|].
  rewrite IH. destruct rest as [|c2 rest]; cbn [negb andb].
  - simpl. f_equal; lia.
  - cbn [List.filter]. destruct (_ <? 50); simpl; f_equal; lia.
Qed.

(** The longest content. *)
Definition longest (chunks : list TextChunk) : nat :=
  foldr (fun c k => Nat.max (length (content c)) k) 0 chunks.

Lemma longest_le chunks n : longest chunks <= n <-> Forall (fun c => length (content c) <= n) chunks.
Proof.
  induction chunks as [|c chunks IH]; simpl; [split; [done|lia]|].
  rewrite Forall_cons, <- IH. lia.
Qed.

Definition tiny_chunks (chunks : list TextChunk) : list TextChunk :=
  List.filter (fun c => length (content c) <? 50) (removelast chunks).

Lemma validate_chunks_eq chunks total size :
  (N.of_nat size < usize_modulus / 2)%N ->
  validate_chunks chunks total size = true <->
  chunks <> []
  /\ (length chunks = 1 -> total <= 2 * size)
  /\ (2 < length (tiny_chunks chunks) -> length (tiny_chunks chunks) <= length chunks / 4)
  /\ (size < total -> size / 4 <= longest chunks)
  /\ (0 < size -> longest chunks <= 2 * size).
Proof.
  intros Hsize. unfold validate_chunks. rewrite measure_chunks_spec.
  rewrite Nat.max_0_l, Nat.add_0_l. fold (longest chunks) (tiny_chunks chunks).
  rewrite usize_mul_small.
  2: { change (N.of_nat 2) with 2%N. change usize_modulus with (2 * (usize_modulus / 2))%N at 1. lia. }
  destruct (Nat.eqb_spec (length chunks) 0) as [Hz|Hz].
  { apply length_zero_iff_nil in Hz. split; [done|]. by intros [? _]. }
  assert (chunks <> []) by (by destruct chunks).
  destruct (Nat.eqb_spec (length chunks) 1), (Nat.ltb_spec (2 * size) total),
    (Nat.ltb_spec (length chunks / 4) (length (tiny_chunks chunks))),
    (Nat.ltb_spec 2 (length (tiny_chunks chunks))),
    (Nat.ltb_spec (longest chunks) (size / 4)), (Nat.ltb_spec size total),
    (Nat.ltb_spec 0 size), (Nat.ltb_spec (2 * size) (longest chunks));
    cbn [andb]; (split; [intros Hv; try discriminate Hv; split_and!; (done || lia)|]);
    intros (_ & ? & ? & ? & ?); (reflexivity || (exfalso; lia)).
Qed.

(** ** Lemmas: defaults *)

Lemma with_token_limit_pos cfg size : 0 < size -> 0 < with_token_limit cfg size <= size.
Proof.
  intros Hs. unfold with_token_limit. destruct (0 <? token_limit cfg); [|lia].
  destruct (_ && _) eqn:E; [|lia].
  rewrite andb_true_iff, orb_true_iff, !Nat.ltb_lt, Nat.eqb_eq in E. lia.
Qed.

Lemma ensure_defaults_size cfg : 0 < chunk_size (ensure_defaults cfg).
Proof.
  unfold ensure_defaults. simpl. apply with_token_limit_pos.
  destruct (Nat.eqb_spec (chunk_size cfg) 0); [unfold DEFAULT_CHUNK_SIZE|]; lia.
Qed.

Lemma with_token_limit_idem cfg cfg' size :
  token_limit cfg' = token_limit cfg -> languages cfg' = languages cfg ->
  with_token_limit cfg' (with_token_limit cfg size) = with_token_limit cfg size.
Proof.
  intros Ht Hl. unfold with_token_limit. rewrite Ht, Hl. destruct (0 <? token_limit cfg); [|done].
  cbv zeta. set (budget := chars_for_token_limit _ _). clearbody budget.
  destruct (Nat.ltb_spec 0 budget); [|done]. cbn [andb].
  destruct (Nat.eqb_spec size 0); [|destruct (Nat.ltb_spec budget size)]; cbn [orb];
    destruct (Nat.eqb_spec budget 0), (Nat.ltb_spec budget budget); cbn [orb]; try lia; try done.
  destruct (Nat.eqb_spec size 0), (Nat.ltb_spec budget size); cbn [orb]; lia.
Qed.

(** ** Lemmas: the chain *)

Section tiers.
Context `{Patterns} `{!PatternsOk H}.

#[export] Instance run_tier_tier tier cfg profile :
  TierSplitter (fun text => run_tier tier text cfg profile).
Proof.
  intros text. destruct tier; simpl.
  - apply split_by_headings_tier.
  - apply split_by_heuristics_tier.
  - apply split_text_tier.
Qed.

Lemma resolve_chain_total text cfg :
  exists chain profile, resolve_chain_with_profile text cfg = Some (chain, profile)
    /\ last chain = Some Legacy.
Proof.
  unfold resolve_chain_with_profile. destruct (str_eqb _ _); [by eexists _, _|].
  destruct (str_eqb _ _); [by eexists _, _|].
  destruct (_ || _); [by eexists _, _|].
  destruct (profile_document_total text) as [p ->]. rewrite some_bind.
  eexists _, _. split; [done|]. unfold select_strategy. rewrite app_assoc. apply last_snoc.
Qed.

Definition rejected (text : str) (cfg : SplitterConfig) (profile : option DocProfile)
    (tier : StrategyTier) : Prop :=
  exists out, run_tier tier text cfg profile = Some out
              /\ validate_chunks out (length text) (chunk_size cfg) = false.

Lemma try_tiers_spec text cfg profile chain last_legacy :
  (last_legacy = [] \/ run_tier Legacy text cfg profile = Some last_legacy) ->
  exists out, try_tiers text cfg profile (length text) chain last_legacy = Some out
    /\ ((exists pre tier post,
           chain = pre ++ tier :: post /\ Forall (rejected text cfg profile) pre
           /\ run_tier tier text cfg profile = Some out
           /\ validate_chunks out (length text) (chunk_size cfg) = true)
        \/ Forall (rejected text cfg profile) chain
           /\ run_tier Legacy text cfg profile = Some out).
Proof.
  revert last_legacy. induction chain as [|t rest IH]; intros ll Hll; simpl.
  - destruct (split_text_tier (chunk_size cfg) (chunk_overlap cfg) (separators cfg) text)
      as (out & Hout & _).
    destruct ll as [|c ll]; [exists out; auto|]. destruct Hll as [|Hll]; [done|]. eauto.
  - destruct (run_tier_tier t cfg profile text) as (out & Hout & _). rewrite Hout, some_bind.
    destruct (validate_chunks out _ _) eqn:Ev.
    { exists out. split; [done|]. left. exists [], t, rest. split_and!; [done|constructor|done|done]. }
    destruct (IH (if bool_decide (t = Legacy) && bool_decide (rest = []) then out else ll))
      as (out' & -> & Hcase).
    { destruct (_ && _) eqn:E; [|done]. apply andb_true_iff in E as [E _].
      apply bool_decide_eq_true in E as ->. by right. }
    exists out'. split; [done|].
    assert (rejected text cfg profile t) as Hrej by (by exists out).
    destruct Hcase as [(pre & tier & post & -> & Hpre & ? & ?)|[Hall ?]]; [left|right; auto].
    exists (t :: pre), tier, post. split_and!; auto.
Qed.

Lemma split_tiling text cfg : exists chunks, split text cfg = Some chunks /\ tiling text chunks.
Proof.
  unfold split. destruct (str_is_empty text) eqn:E.
  { apply str_is_empty_spec in E as ->. exists []. split; [done|].
    split; [constructor|done|intros p r Hp; by rewrite lookup_nil in Hp]. }
  cbv zeta. destruct (resolve_chain_total text (ensure_defaults cfg)) as (chain & profile & -> & _).
  rewrite some_bind.
  destruct (try_tiers_spec text (ensure_defaults cfg) profile chain []) as (out & -> & Hc); [by left|].
  exists out. split; [done|].
  assert (exists tier, run_tier tier text (ensure_defaults cfg) profile = Some out) as (tier & Ht)
    by (destruct Hc as [(? & tier & ? & _ & _ & ? & _)|[_ ?]]; eauto).
  destruct (run_tier_tier tier (ensure_defaults cfg) profile text) as (out' & Hout & Htile).
  congruence.
Qed.

#[export] Instance split_tier cfg : TierSplitter (fun text => split text cfg).
Proof. intros text. apply split_tiling. Qed.
End tiers.

(** ** Lemmas: parents and children *)

Section children.
Context `{Patterns} `{!PatternsOk H} (child_cfg : SplitterConfig).

(** The chunk of [parent]'s piece [c] in the coordinates of the whole text. *)
Definition child_chunk (parent c : TextChunk) (n : nat) : TextChunk :=
  {| content := content c;
     context_header := merge_breadcrumbs (context_header parent) (context_header c);
     seq := n;
     tc_start := tc_start c + tc_start parent;
     tc_end := tc_end c + tc_start parent |}.

(** Where a child comes from, and what its parent index means. *)
Definition child_of (parents new_parents : list TextChunk) (k : ChildChunk) : Prop :=
  exists parent subs c,
    parent ∈ parents /\ split (content parent) child_cfg = Some subs /\ c ∈ subs
    /\ cc_chunk k = child_chunk parent c (seq (cc_chunk k))
    /\ match cc_parent_index k with
       | Some i => new_parents !! i = Some parent
       | None => subs = [c] /\ content c = content parent
       end.

Definition has_children (children : list ChildChunk) (parent : TextChunk) : Prop :=
  exists subs, split (content parent) child_cfg = Some subs
    /\ Forall (fun c => exists k n, k ∈ children /\ cc_chunk k = child_chunk parent c n) subs.

Definition parents_inv (parents : list TextChunk)
    (st : list TextChunk * list ChildChunk * nat) (rest : list TextChunk) : Prop :=
  exists done_, parents = done_ ++ rest
  /\ st.2 = length st.1.2
  /\ numbered (map cc_chunk st.1.2)
  /\ st.1.1 `sublist_of` done_
  /\ Forall (child_of done_ st.1.1) st.1.2
  /\ Forall (has_children st.1.2) done_.

Lemma push_children_eq parent idx n subs children :
  push_children parent idx n subs children =
  (children ++ imap (fun i c => {| cc_chunk := child_chunk parent c (n + i);
                                   cc_parent_index := idx |}) subs, n + length subs).
Proof.
  revert n children. induction subs as [|c subs IH]; intros n children; simpl.
  - rewrite app_nil_r. f_equal. lia.
  - rewrite IH, <- app_assoc. f_equal; [|lia]. f_equal. simpl. f_equal.
    + unfold child_chunk. by rewrite Nat.add_0_r.
    + apply imap_ext. intros i x _. simpl. by replace (n + 1 + i) with (n + S i) by lia.
Qed.

Lemma child_of_mono parents np k p np' :
  child_of parents np k -> child_of (parents ++ [p]) (np ++ np') k.
Proof.
  intros (parent & subs & c & Hin & Hs & Hc & Hk & Hi). exists parent, subs, c.
  split_and!; [apply elem_of_app; by left|done|done|done|].
  destruct (cc_parent_index k); [|done]. by apply lookup_app_l_Some.
Qed.

Lemma has_children_mono children new p : has_children children p -> has_children (children ++ new) p.
Proof.
  intros (subs & Hs & Hall). exists subs. split; [done|]. eapply Forall_impl; [exact Hall|].
  intros c (k & n & Hk & Hc). exists k, n. split; [apply elem_of_app; by left|done].
Qed.

Lemma not_subdivided parent subs :
  is_subdivided parent subs = false ->
  subs = [] \/ exists c, subs = [c] /\ content c = content parent.
Proof.
  unfold is_subdivided. rewrite orb_false_iff, Nat.ltb_ge.
  destruct subs as [|c [|c2 subs]]; simpl; intros [Hl Hc]; [by left| |lia].
  right. exists c. split; [done|]. apply negb_false_iff in Hc.
  by apply bool_decide_eq_true in Hc.
Qed.

Lemma parent_step_ok parents st parent rest :
  parents_inv parents st (parent :: rest) ->
  exists st', parent_step child_cfg st parent = Some st' /\ parents_inv parents st' rest.
Proof.
  intros (done_ & Hp & Hlen & Hnum & Hsub & Hof & Hhas). destruct st as [[np ch] n].
  cbn [fst snd] in *. unfold parent_step.
  destruct (split_tiling (content parent) child_cfg) as (subs & Hs & _). rewrite Hs, some_bind.
  set (idx := if is_subdivided parent subs then Some (length np) else None).
  set (np' := if is_subdivided parent subs then [parent] else []).
  assert ((if is_subdivided parent subs then (Some (length np), np ++ [parent]) else (None, np))
          = (idx, np ++ np')) as ->.
  { unfold idx, np'. destruct (is_subdivided parent subs); [done|]. by rewrite app_nil_r. }
  rewrite push_children_eq. eexists. split; [done|].
  exists (done_ ++ [parent]). cbn [fst snd]. split_and!.
  - by rewrite <- app_assoc.
  - rewrite length_app, length_imap. lia.
  - intros i c Hi. rewrite map_app in Hi. apply lookup_app_Some in Hi as [Hi|[Hle Hi]]; [by apply Hnum|].
    rewrite length_map in *. rewrite list_lookup_fmap, list_lookup_imap in Hi.
    destruct (subs !! (i - length ch)) eqn:E; [|done]. simpl in Hi. injection Hi as <-. simpl. lia.
  - apply sublist_app; [done|]. unfold np'. destruct (is_subdivided _ _); [done|].
    apply sublist_nil_l.
  - apply Forall_app. split.
    + eapply Forall_impl; [exact Hof|]. intros k. apply child_of_mono.
    + apply Forall_lookup. intros i k Hi. rewrite list_lookup_imap in Hi.
      apply fmap_Some in Hi as (c & Hc & ->). exists parent, subs, c.
      split_and!; [apply elem_of_app; right; by left|done|by eapply list_elem_of_lookup_2|done|].
      cbn [cc_parent_index]. unfold idx, np'. destruct (is_subdivided parent subs) eqn:E.
      * by rewrite lookup_app_r, Nat.sub_diag by done.
      * apply not_subdivided in E as [->|(c' & -> & Hcc)]; [done|].
        apply list_lookup_singleton_Some in Hc as [_ ->]. done.
  - apply Forall_app. split.
    + eapply Forall_impl; [exact Hhas|]. intros p. apply has_children_mono.
    + constructor; [|done]. exists subs. split; [done|]. apply Forall_lookup. intros i c Hc.
      exists {| cc_chunk := child_chunk parent c (n + i); cc_parent_index := idx |}, (n + i).
      split; [|done]. apply elem_of_app. right.
      apply list_elem_of_lookup. exists i. by rewrite list_lookup_imap, Hc.
Qed.

Lemma split_parent_child_ok text parent_cfg :
  exists parents res, split text parent_cfg = Some parents /\ tiling text parents
    /\ split_parent_child text parent_cfg child_cfg = Some res
    /\ parents_inv parents (pc_parents res, pc_children res, length (pc_children res)) [].
Proof.
  destruct (split_tiling text parent_cfg) as (parents & Hs & Ht). exists parents.
  assert (parents_inv [] ([], [], 0) []) as Hnil.
  { exists []. split_and!; [done|done|done|constructor|constructor|constructor]. }
  unfold split_parent_child. destruct (str_is_empty text) eqn:E.
  { apply str_is_empty_spec in E as ->. eexists. split_and!; [done|done|done|].
    assert (parents = []) as -> by (unfold split in Hs; simpl in Hs; congruence). done. }
  rewrite Hs, some_bind. destruct parents as [|p ps] eqn:Ep; [by eexists|]. rewrite <- Ep in *.
  destruct (foldM_invariant (parent_step child_cfg) (parents_inv parents) parents ([], [], 0))
    as ([[np ch] n] & -> & Hinv).
  - exists []. split_and!; [done|done|done|constructor|constructor|constructor].
  - intros st x l. apply parent_step_ok.
  - rewrite some_bind. eexists. split_and!; [done|done|done|]. simpl.
    pose proof Hinv as (d & _ & Hn & _). simpl in Hn. by subst n.
Qed.

Lemma child_valid text parent subs c n :
  no_table_header text -> valid_chunk text parent -> tiling (content parent) subs -> c ∈ subs ->
  valid_chunk text (child_chunk parent c n).
Proof.
  intros Hno Hp [Hv _ _] Hc. rewrite Forall_forall in Hv. specialize (Hv c Hc).
  destruct Hp as (Hb & _ & Hcont). rewrite (Hcont Hno) in Hv.
  apply (valid_chunk_ext text (shift_chunk (tc_start parent) [] n c)); simpl; [done|lia|lia|].
  eapply valid_chunk_shift; [| |exact Hv]; lia.
Qed.
End children.

(** ** Properties *)

(** C1: the adaptive split returns for every text and configuration, whatever chain it selects;
    its chunks carry the runes their offsets name, are numbered from 0 and leave out white
    space only, so a text with visible content has a chunk. *)
Theorem split_total `{Patterns} (Hok : PatternsOk H) (text : str) (cfg : SplitterConfig) :
  exists chunks,
    split text cfg = Some chunks
    /\ Forall (valid_chunk text) chunks
    /\ numbered chunks
    /\ (forall p r, text !! p = Some r ->
          is_whitespace r = true \/ Exists (fun c => tc_start c <= p < tc_end c) chunks)
    /\ (trim text <> [] -> chunks <> []).
Proof.
  destruct (split_tiling text cfg) as (chunks & Hs & Ht). exists chunks.
  pose proof Ht as [Hv Hn Hc]. split_and!; [done|done|done|done|]. by apply tiling_nonempty.
Qed.

(** C38: the result of the adaptive split is the output of the first tier of the chain that the
    validator accepts, every earlier tier having been rejected, or else the output of the
    Legacy tier, which the chain always ends with. *)
Theorem split_first_accepted `{Patterns} (Hok : PatternsOk H)
    (text : str) (cfg : SplitterConfig) (Hne : text <> []) :
  exists chain profile out,
    resolve_chain_with_profile text (ensure_defaults cfg) = Some (chain, profile)
    /\ last chain = Some Legacy
    /\ split text cfg = Some out
    /\ ((exists pre tier post,
           chain = pre ++ tier :: post
           /\ Forall (rejected text (ensure_defaults cfg) profile) pre
           /\ run_tier tier text (ensure_defaults cfg) profile = Some out
           /\ validate_chunks out (length text) (chunk_size (ensure_defaults cfg)) = true)
        \/ Forall (rejected text (ensure_defaults cfg) profile) chain
           /\ run_tier Legacy text (ensure_defaults cfg) profile = Some out).
Proof.
  destruct (resolve_chain_total text (ensure_defaults cfg)) as (chain & profile & Hr & Hl).
  destruct (try_tiers_spec text (ensure_defaults cfg) profile chain []) as (out & Ht & Hc); [by left|].
  exists chain, profile, out. split_and!; [done|done| |done].
  unfold split. destruct text as [|r text]; [done|]. simpl str_is_empty. cbv zeta iota.
  by rewrite Hr, some_bind.
Qed.

(** The validator accepts exactly the outputs that are non-empty, are not one chunk for a
    text of more than twice the chunk size, have at most two tiny chunks or at most a quarter
    of tiny ones before the last, and whose longest chunk is at least a quarter of the size on
    a text longer than it and never more than twice the size. *)
Theorem validate_chunks_spec (chunks : list TextChunk) (total size : nat)
    (Hsize : (N.of_nat size < usize_modulus / 2)%N) :
  validate_chunks chunks total size = true <->
  chunks <> []
  /\ (length chunks = 1 -> total <= 2 * size)
  /\ (2 < length (tiny_chunks chunks) -> length (tiny_chunks chunks) <= length chunks / 4)
  /\ (size < total -> size / 4 <= longest chunks)
  /\ (0 < size -> Forall (fun c => length (content c) <= 2 * size) chunks).
Proof. rewrite validate_chunks_eq by done. by rewrite longest_le. Qed.

(** a configuration with defaults is usable: its chunk size is positive, its overlap at
    most half of it, and it has separators; it is no larger than the token budget; settings
    that were already fine are kept; and applying the defaults twice changes nothing. *)
Theorem ensure_defaults_sound (cfg : SplitterConfig) :
  let d := ensure_defaults cfg in
  0 < chunk_size d
  /\ chunk_overlap d <= chunk_size d / 2
  /\ separators d <> []
  /\ (token_limit cfg = 0 -> 0 < chunk_size cfg -> chunk_size d = chunk_size cfg)
  /\ (0 < token_limit cfg ->
      let budget := chars_for_token_limit (token_limit cfg) (default LANG_MIXED (head (languages cfg))) in
      0 < budget -> chunk_size d <= budget)
  /\ (0 < chunk_overlap cfg <= chunk_size d / 2 -> chunk_overlap d = chunk_overlap cfg)
  /\ ensure_defaults d = d.
Proof.
  pose proof (ensure_defaults_size cfg) as Hpos. cbv zeta. split_and!; [done| | | | | |].
  - unfold ensure_defaults. cbn [chunk_overlap chunk_size]. destruct (_ && _) eqn:E; [lia|].
    rewrite andb_false_iff, !Nat.ltb_ge in E. unfold ensure_defaults in Hpos. simpl in Hpos. lia.
  - simpl. by destruct (separators cfg).
  - intros Ht Hc. simpl. unfold with_token_limit. rewrite Ht. simpl.
    destruct (Nat.eqb_spec (chunk_size cfg) 0); lia.
  - intros Ht Hb. simpl. unfold with_token_limit. rewrite (proj2 (Nat.ltb_lt _ _) Ht).
    rewrite (proj2 (Nat.ltb_lt _ _) Hb). cbn [andb].
    destruct (_ || _) eqn:E; [lia|]. rewrite orb_false_iff, Nat.ltb_ge in E. lia.
  - simpl. intros Ho. destruct (Nat.eqb_spec (chunk_overlap cfg) 0); [lia|].
    destruct (_ && _) eqn:E; [|done]. bool_to_prop. lia.
  - set (d := ensure_defaults cfg) in *. unfold ensure_defaults at 1.
    destruct (Nat.eqb_spec (chunk_size d) 0) as [|_]; [lia|].
    assert (with_token_limit d (chunk_size d) = chunk_size d) as ->
      by (apply with_token_limit_idem; done).
    assert (separators d <> []) as Hseps by (simpl; by destruct (separators cfg)).
    assert (chunk_overlap d <= chunk_size d / 2) as Hov.
    { unfold d, ensure_defaults. cbn [chunk_overlap chunk_size]. destruct (_ && _) eqn:E; [lia|].
      rewrite andb_false_iff, !Nat.ltb_ge in E. unfold d, ensure_defaults in Hpos. simpl in Hpos. lia. }
    assert (chunk_overlap d = 0 -> chunk_size d / 2 = 0) as H0.
    { unfold d, ensure_defaults. cbn [chunk_overlap chunk_size].
      set (s := with_token_limit _ _). clearbody s.
      unfold DEFAULT_CHUNK_OVERLAP. destruct (_ && _) eqn:E; [lia|].
      destruct (Nat.eqb_spec (chunk_overlap cfg) 0); lia. }
    clearbody d. destruct d as [cs co se st tl la]. cbn [chunk_size chunk_overlap separators strategy token_limit languages] in *.
    destruct se; [done|]. f_equal.
    destruct (Nat.ltb_spec 0 cs); [|lia]. cbn [andb].
    destruct (Nat.eqb_spec co 0) as [Hz|Hz].
    + specialize (H0 Hz). rewrite H0, Hz. unfold DEFAULT_CHUNK_OVERLAP. reflexivity.
    + destruct (Nat.ltb_spec (cs / 2) co); lia.
Qed.

(** a merged breadcrumb has the parent's lines followed by the child's, the child's first
    line left out when it repeats the parent's last one; an empty side adds nothing. *)
Theorem merge_breadcrumbs_lines (parent child : str) :
  merge_breadcrumbs [] child = child
  /\ merge_breadcrumbs parent [] = parent
  /\ (parent <> [] -> child <> [] ->
      split_char NL (merge_breadcrumbs parent child) =
      split_char NL parent ++
      (if bool_decide (trim <$> last (split_char NL parent) = trim <$> head (split_char NL child))
       then tail (split_char NL child) else split_char NL child)).
Proof.
  split_and!; [done|by destruct parent|]. intros Hp Hc.
  unfold merge_breadcrumbs. destruct parent as [|p0 ps] eqn:Ep; [done|]. rewrite <- Ep in *.
  assert (str_is_empty parent = false) as -> by by rewrite Ep.
  destruct child as [|c0 cs] eqn:Ec; [done|]. rewrite <- Ec in *.
  assert (str_is_empty child = false) as -> by by rewrite Ec. clear Ep Ec.
  pose proof (split_char_no_sep NL child) as Hno.
  destruct (split_char_cons_inv NL child) as (cl & rest & Hcl). rewrite Hcl in *.
  destruct (last (split_char NL parent)) as [pl|] eqn:El.
  2: { apply last_None in El. by apply split_char_nonempty in El. }
  simpl head. simpl fmap. unfold str_eqb. apply Forall_cons in Hno as [Hcl0 Hrest].
  destruct (decide (trim pl = trim cl)) as [Heq|Hne].
  - rewrite bool_decide_eq_true_2 by done. rewrite bool_decide_eq_true_2 by by f_equal.
    destruct rest as [|r rest]; simpl tail; [by rewrite app_nil_r|].
    by rewrite split_char_app_sep, split_char_join.
  - rewrite bool_decide_eq_false_2 by done. rewrite bool_decide_eq_false_2 by congruence.
    rewrite split_char_app_sep, split_char_join; [done|done|by constructor].
Qed.

(** C7: the two-level split returns for every text; its children are numbered from 0, each is a
    piece of the content of one parent chunk with that parent's breadcrumb, and its parent
    index, when it has one, leads to exactly that parent; a child without a parent index is its
    parent chunk unchanged; no piece of any parent chunk is missing; and the parents kept are
    in order. *)
Theorem split_parent_child_links `{Patterns} (Hok : PatternsOk H)
    (text : str) (parent_cfg child_cfg : SplitterConfig) :
  exists parents res,
    split text parent_cfg = Some parents
    /\ split_parent_child text parent_cfg child_cfg = Some res
    /\ numbered (map cc_chunk (pc_children res))
    /\ Forall (child_of child_cfg parents (pc_parents res)) (pc_children res)
    /\ Forall (has_children child_cfg (pc_children res)) parents
    /\ pc_parents res `sublist_of` parents.
Proof.
  destruct (split_parent_child_ok child_cfg text parent_cfg)
    as (parents & res & Hs & _ & Hr & d & Hd & _ & Hn & Hsub & Hof & Hhas).
  rewrite app_nil_r in Hd. subst d. by exists parents, res.
Qed.

(** On a text without a Markdown table header every child of the two-level split has
    exactly the runes of the text its offsets name, and together the children leave out white
    space only. *)
Theorem split_parent_child_offsets `{Patterns} (Hok : PatternsOk H)
    (text : str) (parent_cfg child_cfg : SplitterConfig) (Hno : no_table_header text) :
  exists res,
    split_parent_child text parent_cfg child_cfg = Some res
    /\ Forall (fun k => tc_start (cc_chunk k) <= tc_end (cc_chunk k) <= length text
                        /\ content (cc_chunk k)
                           = sub text (tc_start (cc_chunk k)) (tc_end (cc_chunk k)))
         (pc_children res)
    /\ (forall p r, text !! p = Some r -> is_whitespace r = true
          \/ Exists (fun k => tc_start (cc_chunk k) <= p < tc_end (cc_chunk k)) (pc_children res)).
Proof.
  destruct (split_parent_child_ok child_cfg text parent_cfg)
    as (parents & res & Hs & [Hv _ Hc] & Hr & d & Hd & _ & Hn & Hsub & Hof & Hhas).
  rewrite app_nil_r in Hd. subst d. exists res. rewrite Forall_forall in Hv, Hhas.
  split_and!; [done| |].
  - eapply Forall_impl; [exact Hof|]. intros k (parent & subs & c & Hp & Hsp & Hcs & Hk & _).
    destruct (split_tiling (content parent) child_cfg) as (subs' & Hs' & Ht).
    assert (subs' = subs) as -> by congruence.
    destruct (child_valid text parent subs c (seq (cc_chunk k)) Hno (Hv parent Hp) Ht Hcs)
      as (Hb & _ & Hcont). rewrite <- Hk in Hb, Hcont. split; [done|by apply Hcont].
  - intros p r Hpr. destruct (Hc p r Hpr) as [|Hex]; [by left|].
    apply Exists_exists in Hex as (parent & Hp & Hin). destruct (Hv parent Hp) as (Hb & _ & Hcont).
    specialize (Hcont Hno). destruct (Hhas parent Hp) as (subs & Hsp & Hall).
    destruct (split_tiling (content parent) child_cfg) as (subs' & Hs' & [_ _ Hcov]).
    assert (subs' = subs) as -> by congruence.
    destruct (Hcov (p - tc_start parent) r) as [|Hex]; [|by left|].
    { rewrite Hcont. unfold sub. rewrite lookup_take_lt by lia. rewrite lookup_drop.
      by replace (tc_start parent + (p - tc_start parent)) with p by lia. }
    right. apply Exists_exists in Hex as (c & Hcs & Hcp). rewrite Forall_forall in Hall.
    destruct (Hall c Hcs) as (k & n & Hk & Hkc). apply Exists_exists. exists k. split; [done|].
    rewrite Hkc. simpl. lia.
Qed.

(** ** A text with a table *)

Definition long_table : str := u8"| name | value |
|---|---|
| a | one |
| b | two |
| c | three |
| d | four |
| e | five |
| f | six |
".

Definition parent_config : SplitterConfig := {|
  chunk_size := 60; chunk_overlap := 10; separators := sample_seps; strategy := STRATEGY_LEGACY;
  token_limit := 0; languages := [] |}.

Definition child_config : SplitterConfig := {|
  chunk_size := 30; chunk_overlap := 6; separators := sample_seps; strategy := STRATEGY_LEGACY;
  token_limit := 0; languages := [] |}.

(** The last child of a table of 103 runes claims the runes 118 to 130: offsets in the
    parent's content, which repeats the table header, are added to the parent's start. *)
(** without the hypothesis the offsets of the two-level split are not those of the text: the
    repeated table header of a parent counts into the offsets of its children, so a child can
    lie beyond the end of the text. *)
Theorem split_parent_child_overrun :
  exists res k,
    @split_parent_child demo_patterns long_table parent_config child_config = Some res
    /\ k ∈ pc_children res
    /\ length long_table < tc_start (cc_chunk k).
Proof.
  assert (match @split_parent_child demo_patterns long_table parent_config child_config with
          | Some res => existsb (fun k => length long_table <? tc_start (cc_chunk k)) (pc_children res)
          | None => false
          end = true) as Hrun by (vm_compute; reflexivity).
  destruct (split_parent_child _ _ _) as [res|]; [|done].
  apply existsb_exists in Hrun as (k & Hin & Hlt). exists res, k.
  split_and!; [done|by apply list_elem_of_In|by apply Nat.ltb_lt].
Qed.

(** ** Witnesses *)

Lemma split_total_witness :
  (exists chunks,
    @split demo_patterns sample_headings sample_config = Some chunks
    /\ Forall (@valid_chunk demo_patterns sample_headings) chunks
    /\ numbered chunks
    /\ (forall p r, sample_headings !! p = Some r ->
          is_whitespace r = true \/ Exists (fun c => tc_start c <= p < tc_end c) chunks)
    /\ (trim sample_headings <> [] -> chunks <> []))
  /\ 2 <= default 0 (length <$> @split demo_patterns sample_headings sample_config).
Proof.
  split; [|apply Nat.leb_le; vm_compute; reflexivity].
  exact (@split_total demo_patterns demo_patterns_ok sample_headings sample_config).
Defined.

Lemma split_first_accepted_witness :
  exists chain profile out,
    @resolve_chain_with_profile demo_patterns sample_chapters (ensure_defaults sample_config)
      = Some (chain, profile)
    /\ last chain = Some Legacy
    /\ @split demo_patterns sample_chapters sample_config = Some out
    /\ ((exists pre tier post,
           chain = pre ++ tier :: post
           /\ Forall (@rejected demo_patterns sample_chapters (ensure_defaults sample_config) profile) pre
           /\ @run_tier demo_patterns tier sample_chapters (ensure_defaults sample_config) profile
              = Some out
           /\ validate_chunks out (length sample_chapters)
                (chunk_size (ensure_defaults sample_config)) = true)
        \/ Forall (@rejected demo_patterns sample_chapters (ensure_defaults sample_config) profile) chain
           /\ @run_tier demo_patterns Legacy sample_chapters (ensure_defaults sample_config) profile
              = Some out).
Proof.
  apply (@split_first_accepted demo_patterns demo_patterns_ok sample_chapters sample_config).
  discriminate.
Defined.

Lemma validate_chunks_spec_witness :
  validate_chunks [] 1000 500 = true <->
  [] <> @nil TextChunk
  /\ (length (@nil TextChunk) = 1 -> 1000 <= 2 * 500)
  /\ (2 < length (tiny_chunks []) -> length (tiny_chunks []) <= 0 / 4)
  /\ (500 < 1000 -> 500 / 4 <= longest [])
  /\ (0 < 500 -> Forall (fun c => length (content c) <= 2 * 500) []).
Proof. apply (validate_chunks_spec [] 1000 500). vm_compute. reflexivity. Defined.

Lemma split_parent_child_links_witness :
  exists parents res,
    @split demo_patterns long_table parent_config = Some parents
    /\ @split_parent_child demo_patterns long_table parent_config child_config = Some res
    /\ numbered (map cc_chunk (pc_children res))
    /\ Forall (@child_of demo_patterns child_config parents (pc_parents res)) (pc_children res)
    /\ Forall (@has_children demo_patterns child_config (pc_children res)) parents
    /\ pc_parents res `sublist_of` parents.
Proof.
  exact (@split_parent_child_links demo_patterns demo_patterns_ok long_table
           parent_config child_config).
Defined.

Lemma no_pipe_no_header text : PIPE ∉ text -> @no_table_header demo_patterns text.
Proof.
  intros Hno p m r ->. unfold re_find_str, re_find. simpl.
  destruct (is_table_start m) eqn:E; [|done]. exfalso. apply Hno.
  unfold is_table_start in E. apply andb_true_iff in E as [E _]. apply Nat.ltb_lt in E.
  unfold header_len, row_len in E. destruct m as [|c m]; [simpl in E; lia|].
  destruct (Z.eqb_spec c 124) as [->|]; [|simpl in E; lia].
  apply elem_of_app. right. by left.
Qed.

Lemma split_parent_child_offsets_witness :
  exists res,
    @split_parent_child demo_patterns sample_headings parent_config child_config = Some res
    /\ Forall (fun k => tc_start (cc_chunk k) <= tc_end (cc_chunk k) <= length sample_headings
                        /\ content (cc_chunk k)
                           = sub sample_headings (tc_start (cc_chunk k)) (tc_end (cc_chunk k)))
         (pc_children res)
    /\ (forall p r, sample_headings !! p = Some r -> is_whitespace r = true
          \/ Exists (fun k => tc_start (cc_chunk k) <= p < tc_end (cc_chunk k)) (pc_children res)).
Proof.
  apply (@split_parent_child_offsets demo_patterns demo_patterns_ok sample_headings
           parent_config child_config).
  apply no_pipe_no_header. vm_compute. intros Hin.
  repeat (apply elem_of_cons in Hin as [Hin|Hin]; [discriminate Hin|]). by apply elem_of_nil in Hin.
Defined.
