(* ===== verification/SourceTypes.v ===== *)
(** * [crates/docparser/src/types.rs], data of [source_contract.rs]

    The records of a parsed document: structured units with their native locators and table
    grids, and the source contract that accompanies them.  [u32] fields are integers of [Z];
    [u32_ok] says that they are in range. *)
From S2P Require Import Prelude RustStr RustFloat.

(** [==] on [f64]: NaN differs from itself. *)
Definition f64_eqb : f64 -> f64 -> bool := SFeqb.
Definition f64_is_finite (x : f64) : bool :=
  match x with S754_zero _ | S754_finite _ _ _ => true | _ => false end.
Definition f64_zero : f64 := S754_zero false.

Inductive StructuredSourceUnitKind :=
| Section_ | TableRow | TableRegion | FormRegion | AttachmentRegion | ImageRegion.

#[export] Instance unit_kind_eq_dec : EqDecision StructuredSourceUnitKind.
Proof. solve_decision. Defined.

Record PdfTableCell := {
  row : Z; column : Z; row_span : Z; col_span : Z; cell_text : str;
}.

Record SpreadsheetCell := {
  sc_address : str; sc_row : Z; sc_column : Z; sc_text : str; sc_raw_value : str;
  sc_value_type : str; sc_number_format : str; sc_display_text : option str;
  sc_display_complete : bool; sc_display_incomplete_reason : option str;
  sc_formula : option str; sc_formula_references : list str;
  sc_cached_value : option str; sc_cached_value_type : option str;
}.

#[export] Instance spreadsheet_cell_eq_dec : EqDecision SpreadsheetCell.
Proof. solve_decision. Defined.

Record SpreadsheetRange := {
  a1_range : str; start_row : Z; start_column : Z; end_row : Z; end_column : Z;
}.

#[export] Instance spreadsheet_range_eq_dec : EqDecision SpreadsheetRange.
Proof. solve_decision. Defined.

Record SpreadsheetTableIdentity := { st_name : str; st_display_name : str; st_a1_range : str }.

#[export] Instance spreadsheet_table_eq_dec : EqDecision SpreadsheetTableIdentity.
Proof. solve_decision. Defined.

Inductive CompoundImageParent :=
| Paragraph (section_ordinal paragraph_ordinal : Z)
| TableCell (section_ordinal table_ordinal row_ordinal cell_ordinal : Z)
| Form (section_ordinal form_ordinal : Z).

#[export] Instance compound_parent_eq_dec : EqDecision CompoundImageParent.
Proof. solve_decision. Defined.

Inductive StructuredSourceLocator :=
| LDocument (section_ordinal : Z) (table_ordinal row_ordinal form_ordinal : option Z)
    (heading_path : str)
| LPage (page_ordinal : Z) (left top right bottom : option f64)
| LPageTable (page_ordinal table_ordinal : Z) (left top right bottom : f64)
| LSpreadsheet (sheet_ordinal : Z) (sheet_name : str) (region : SpreadsheetRange)
    (cells : list SpreadsheetCell) (merged_ranges : list SpreadsheetRange)
    (defined_tables : list SpreadsheetTableIdentity)
| LImage (original_ref : str) (width height : Z) (media_type : str) (page_ordinal : option Z)
    (compound_parent : option CompoundImageParent) (left top right bottom : option f64)
| LAttachment (part_name relationship_type : str).

Definition opt_eqb {A} (eqb : A -> A -> bool) (x y : option A) : bool :=
  match x, y with Some a, Some b => eqb a b | None, None => true | _, _ => false end.

(** The derived [PartialEq]: field by field, floats with [==]. *)
Definition locator_eqb (x y : StructuredSourceLocator) : bool :=
  match x, y with
  | LDocument s1 t1 r1 f1 h1, LDocument s2 t2 r2 f2 h2 =>
    bool_decide ((s1, t1, r1, f1, h1) = (s2, t2, r2, f2, h2))
  | LPage p1 l1 t1 r1 b1, LPage p2 l2 t2 r2 b2 =>
    bool_decide (p1 = p2) && opt_eqb f64_eqb l1 l2 && opt_eqb f64_eqb t1 t2
    && opt_eqb f64_eqb r1 r2 && opt_eqb f64_eqb b1 b2
  | LPageTable p1 n1 l1 t1 r1 b1, LPageTable p2 n2 l2 t2 r2 b2 =>
    bool_decide ((p1, n1) = (p2, n2)) && f64_eqb l1 l2 && f64_eqb t1 t2
    && f64_eqb r1 r2 && f64_eqb b1 b2
  | LSpreadsheet o1 n1 g1 c1 m1 d1, LSpreadsheet o2 n2 g2 c2 m2 d2 =>
    bool_decide ((o1, n1, g1, c1, m1, d1) = (o2, n2, g2, c2, m2, d2))
  | LImage o1 w1 h1 m1 p1 c1 l1 t1 r1 b1, LImage o2 w2 h2 m2 p2 c2 l2 t2 r2 b2 =>
    bool_decide ((o1, w1, h1, m1, p1, c1) = (o2, w2, h2, m2, p2, c2))
    && opt_eqb f64_eqb l1 l2 && opt_eqb f64_eqb t1 t2
    && opt_eqb f64_eqb r1 r2 && opt_eqb f64_eqb b1 b2
  | LAttachment p1 r1, LAttachment p2 r2 => bool_decide ((p1, r1) = (p2, r2))
  | _, _ => false
  end.

Record TableGrid := {
  row_count : Z; column_count : Z; cells : list PdfTableCell; widths_mm : option (list f64);
}.

Record StructuredSourceUnit := {
  key : str; u_ordinal : Z; u_kind : StructuredSourceUnitKind; text : str;
  locator : StructuredSourceLocator; grid : option TableGrid;
}.

Record ImageRef := {
  filename : str; im_original_ref : str; mime_type : str; storage_key : str; data : list Z;
}.

Record ReadResult := {
  markdown : str; error : str; images : list ImageRef;
  structured_source_units : list StructuredSourceUnit;
  is_audio : bool; audio_data : list Z; metadata : gmap str str;
}.

(** [ReadResult::default()] *)
Definition default_result : ReadResult :=
  {| markdown := []; error := []; images := []; structured_source_units := []; is_audio := false;
     audio_data := []; metadata := ∅ |}.

(** ** The contract *)

Record RenderedSpan := { start_byte : nat; end_byte : nat }.

#[export] Instance rendered_span_eq_dec : EqDecision RenderedSpan.
Proof. solve_decision. Defined.

Inductive SourceCompleteness := Complete | Partial | Failed.

#[export] Instance completeness_eq_dec : EqDecision SourceCompleteness.
Proof. solve_decision. Defined.

Record TableHeaderCell := { h_row : Z; h_column : Z; role : str }.

Record SourceUnitIdentity := {
  unit_id : str; ordinal : Z; kind : StructuredSourceUnitKind; text_sha256 : str;
  grid_sha256 : option str; section_id : option str; parent_section_id : option str;
  heading_level : option Z; heading_path_ : str;
  physical_locator : option StructuredSourceLocator; physical_path : option str;
  physical_locator_unavailable_reason : option str;
  rendered_spans : list RenderedSpan; completeness : SourceCompleteness;
  reasons : list str; table_id : option str; header_cells : list TableHeaderCell;
}.

Record SourcePage := {
  sp_page_ordinal : Z; classification : str; unit_ids : list str; image_unit_ids : list str;
}.

Record GlyphNormalization := {
  gn_page_ordinal : Z; char_index : Z; raw_symbol : str; normalized_symbol : str;
  font_name : str; font_sha256 : str; glyph_name : str;
  gn_left : f64; gn_bottom : f64; gn_right : f64; gn_top : f64;
  page_width : f64; page_height : f64;
}.

Record SourceContract := {
  schema_version : Z; document_revision : str; parser_version : str; markdown_sha256 : str;
  units : list SourceUnitIdentity; page_manifest : list SourcePage;
  glyph_normalizations : list GlyphNormalization;
}.
