(* ===== verification/TableGrid.v ===== *)
(** * [crates/docparser/src/table_grid.rs]

    Table grids: a grid is valid when its cells tile the rows and columns exactly. *)
From S2P Require Import Prelude RustStr RustFloat SourceTypes.

Local Open Scope Z_scope.

Definition E_EMPTY_GRID : str := u8"DocReader returned empty table grid".
Definition E_GRID_CELL : str := u8"DocReader returned invalid table grid cell".
Definition E_GRID_OVERLAP : str := u8"DocReader returned overlapping table grid spans".
Definition E_GRID_COVERED : str := u8"DocReader returned covered table grid slot".
Definition E_GRID_OVERFLOW : str := u8"DocReader returned overflowing table grid".
Definition E_GRID_TILE : str := u8"DocReader returned table grid that does not tile".
Definition E_GRID_WIDTHS : str := u8"DocReader returned invalid table grid widths".

(** The slots of a cell, in the order of the two nested loops. *)
Definition cell_slots (cell : PdfTableCell) : list (Z * Z) :=
  concat (map (fun r => map (pair r) (seqZ (column cell) (col_span cell)))
              (seqZ (row cell) (row_span cell))).

Definition anchor (cell : PdfTableCell) : Z * Z := (row cell, column cell).

(** [start.checked_add(span).is_none_or(|end| end > count)] *)
Definition span_overruns (start span count : Z) : bool :=
  match u32_checked_add start span with None => true | Some e => count <? e end.

Definition cell_fault (g : TableGrid) (seen : gset (Z * Z)) (cell : PdfTableCell) : bool :=
  (row_span cell =? 0) || (col_span cell =? 0)
  || (row_count g <=? row cell) || (column_count g <=? column cell)
  || span_overruns (row cell) (row_span cell) (row_count g)
  || span_overruns (column cell) (col_span cell) (column_count g)
  || bool_decide (anchor cell ∈ seen).

Definition place_slot (owner : Z * Z) (seen : gset (Z * Z)) (occupied : gmap (Z * Z) (Z * Z))
    (slot : Z * Z) : result str (gmap (Z * Z) (Z * Z)) :=
  _ ← reject_if (bool_decide (is_Some (occupied !! slot))) E_GRID_OVERLAP;
  _ ← reject_if (negb (bool_decide (slot = owner)) && bool_decide (slot ∈ seen)) E_GRID_COVERED;
  Ok (<[slot := owner]> occupied).

Definition place_cell (g : TableGrid) (st : gset (Z * Z) * gmap (Z * Z) (Z * Z))
    (cell : PdfTableCell) : result str (gset (Z * Z) * gmap (Z * Z) (Z * Z)) :=
  let '(seen, occupied) := st in
  _ ← reject_if (cell_fault g seen cell) E_GRID_CELL;
  let seen := {[ anchor cell ]} ∪ seen in
  occupied ← foldR (place_slot (anchor cell) seen) occupied (cell_slots cell);
  Ok (seen, occupied).

Definition u64_checked_mul (a b : Z) : option Z :=
  if a * b <? 2 ^ 64 then Some (a * b) else None.

Definition widths_fault (g : TableGrid) : bool :=
  match widths_mm g with
  | None => false
  | Some widths =>
    negb (Z.of_nat (length widths) =? column_count g)
    || existsb (fun w => negb (f64_is_finite w) || f64_le w f64_zero) widths
  end.

Definition validate_table_grid (g : TableGrid) : result str unit :=
  _ ← reject_if ((row_count g =? 0) || (column_count g =? 0)) E_EMPTY_GRID;
  '(_, occupied) ← foldR (place_cell g) (∅, ∅) (cells g);
  expected ← ok_or (u64_checked_mul (row_count g) (column_count g)) E_GRID_OVERFLOW;
  _ ← reject_if (negb (Z.of_nat (size occupied) =? expected)) E_GRID_TILE;
  _ ← reject_if (widths_fault g) E_GRID_WIDTHS;
  Ok tt.

(** [sort_by_key(|cell| (cell.row, cell.column))]: stable, lexicographic. *)
Definition anchor_before (a b : PdfTableCell) : bool :=
  (row a <? row b) || ((row a =? row b) && (column a <=? column b)).

(** The message of the wire: [widths_mm] is a plain list there. *)
Record ProtoGrid := {
  pg_row_count : Z; pg_column_count : Z; pg_cells : list PdfTableCell; pg_widths_mm : list f64;
}.

Definition from_proto_grid (value : ProtoGrid) : result str TableGrid :=
  let widths := match pg_widths_mm value with [] => None | ws => Some ws end in
  let grid := {| row_count := pg_row_count value; column_count := pg_column_count value;
                 cells := sort_by anchor_before (pg_cells value); widths_mm := widths |} in
  _ ← validate_table_grid grid;
  Ok grid.

(** Additions of [u32] wrap here: the grid need not be valid. *)
Definition grid_cell_is_anchor (g : TableGrid) (r c : Z) : bool :=
  existsb (fun cell =>
    (row cell =? r) && (column cell =? c)
    && negb (existsb (fun other =>
         negb (bool_decide (anchor other = (r, c)))
         && (row other <=? r) && (column other <=? c)
         && (r <? u32_add (row other) (row_span other))
         && (c <? u32_add (column other) (col_span other))) (cells g))) (cells g).

(** ** Lemmas *)

(** The slots of the whole grid, row by row. *)
Definition grid_slots (g : TableGrid) : list (Z * Z) :=
  concat (map (fun r => map (pair r) (seqZ 0 (column_count g))) (seqZ 0 (row_count g))).

Definition block_slots (r0 rn c0 cn : Z) : list (Z * Z) :=
  concat (map (fun r => map (pair r) (seqZ c0 cn)) (seqZ r0 rn)).

Lemma elem_of_block r0 rn c0 cn p :
  p ∈ block_slots r0 rn c0 cn <-> r0 <= p.1 < r0 + rn /\ c0 <= p.2 < c0 + cn.
Proof.
  unfold block_slots. rewrite list_elem_of_In, in_concat. split.
  - intros (l & Hl & Hp). apply in_map_iff in Hl as (r & <- & Hr).
    apply in_map_iff in Hp as (c & <- & Hc).
    rewrite <- list_elem_of_In, elem_of_seqZ in Hr, Hc. done.
  - destruct p as [r c]. simpl. intros [Hr Hc]. eexists. split.
    + apply in_map, list_elem_of_In, elem_of_seqZ, Hr.
    + apply in_map, list_elem_of_In, elem_of_seqZ, Hc.
Qed.

Lemma NoDup_rows {A B} (rs : list A) (cs : list B) :
  NoDup rs -> NoDup cs -> NoDup (concat (map (fun r => map (pair r) cs) rs)).
Proof.
  intros Hr Hc. induction Hr as [|r rs Hnin Hr IH]; simpl; [constructor|].
  apply NoDup_app. split_and!; [|intros [a b] H1 H2|done].
  - apply NoDup_fmap_2; [intros x y; congruence|done].
  - apply list_elem_of_In, in_map_iff in H1 as (c & [= <- <-] & _).
    apply list_elem_of_In, in_concat in H2 as (l & Hl & Hin).
    apply in_map_iff in Hl as (r' & <- & Hr'). apply in_map_iff in Hin as (c' & [= -> ->] & _).
    by apply Hnin, list_elem_of_In.
Qed.

Lemma NoDup_block r0 rn c0 cn : NoDup (block_slots r0 rn c0 cn).
Proof. apply NoDup_rows; apply NoDup_seqZ. Qed.

Lemma length_block r0 rn c0 cn :
  0 <= rn -> 0 <= cn -> Z.of_nat (length (block_slots r0 rn c0 cn)) = rn * cn.
Proof.
  intros Hr Hc. unfold block_slots. rewrite length_concat_sum.
  assert (forall l : list Z, sum_list_with length (map (fun r => map (pair r) (seqZ c0 cn)) l)
            = (length l * Z.to_nat cn)%nat) as ->.
  { induction l as [|r l IH]; simpl; [done|]. rewrite IH, length_map, length_seqZ. lia. }
  rewrite length_seqZ. lia.
Qed.

Lemma place_slot_Ok owner seen occ s occ' :
  place_slot owner seen occ s = Ok occ' <->
  occ !! s = None /\ (s <> owner -> s ∉ seen) /\ occ' = <[s := owner]> occ.
Proof.
  unfold place_slot. rewrite bind_Ok. split.
  - intros (u1 & H1%reject_if_Ok & Hp). apply bind_Ok in Hp as (u2 & H2%reject_if_Ok & Hp).
    injection Hp as <-. apply bool_decide_eq_false in H1. rewrite <- eq_None_not_Some in H1.
    split_and!; [done| |done]. intros Hne Hin.
    rewrite bool_decide_eq_false_2, bool_decide_eq_true_2 in H2 by done. discriminate H2.
  - intros (Hn & Hc & ->). exists tt. split.
    + apply reject_if_Ok, bool_decide_eq_false_2. rewrite Hn. by intros [].
    + apply bind_Ok. exists tt. split; [|reflexivity]. apply reject_if_Ok.
      destruct (decide (s = owner)) as [Heq|Hne].
      * rewrite bool_decide_eq_true_2 by done. reflexivity.
      * rewrite (bool_decide_eq_false_2 (s ∈ seen)) by auto. apply andb_false_r.
Qed.

Lemma place_slots_Ok owner seen slots occ occ' :
  NoDup slots ->
  foldR (place_slot owner seen) occ slots = Ok occ' <->
  Forall (fun s => occ !! s = None /\ (s <> owner -> s ∉ seen)) slots
  /\ occ' = foldl (fun m s => <[s := owner]> m) occ slots.
Proof.
  intros Hnd. revert occ. induction Hnd as [|s slots Hs Hnd IH]; intros occ; cbn [foldR foldl].
  - split; [intros [= <-]; by split|by intros [_ ->]].
  - rewrite bind_Ok, Forall_cons. split.
    + intros (m & (H1 & H2 & ->)%place_slot_Ok & [Hall ->]%IH). split; [|reflexivity].
      split; [by split|]. rewrite Forall_forall in *. intros x Hx. destruct (Hall x Hx) as [Hx1 Hx2].
      split; [|exact Hx2]. by rewrite lookup_insert_ne in Hx1 by congruence.
    + intros [[[Hn Hc] Hall] ->]. exists (<[s:=owner]> occ). split; [by apply place_slot_Ok|].
      apply IH. split; [|reflexivity]. rewrite Forall_forall in *. intros x Hx.
      destruct (Hall x Hx) as [Hx1 Hx2]. split; [|exact Hx2].
      rewrite lookup_insert_ne; [exact Hx1|congruence].
Qed.

Lemma dom_inserts (owner : Z * Z) (slots : list (Z * Z)) (occ : gmap (Z * Z) (Z * Z)) :
  dom (foldl (fun m s => <[s := owner]> m) occ slots) = dom occ ∪ (list_to_set slots : gset _).
Proof.
  revert occ. induction slots as [|s slots IH]; intros occ; simpl; [set_solver|].
  rewrite IH, dom_insert_L. set_solver.
Qed.

Section valid.
Context (g : TableGrid) (Hrows : u32_ok (row_count g)) (Hcols : u32_ok (column_count g)).

Definition cell_u32 (c : PdfTableCell) : Prop :=
  u32_ok (row c) /\ u32_ok (column c) /\ u32_ok (row_span c) /\ u32_ok (col_span c).

Definition cell_in (c : PdfTableCell) : Prop :=
  0 < row_span c /\ 0 < col_span c
  /\ row c + row_span c <= row_count g /\ column c + col_span c <= column_count g.

Lemma span_overruns_spec a b n :
  u32_ok a -> u32_ok b -> u32_ok n -> span_overruns a b n = false <-> a + b <= n.
Proof.
  unfold u32_ok, span_overruns, u32_checked_add. intros Ha Hb Hn.
  destruct (Z.ltb_spec (a + b) u32_modulus); [rewrite Z.ltb_ge; lia|split; [done|lia]].
Qed.

Lemma cell_fault_false seen c :
  cell_u32 c -> cell_fault g seen c = false <-> cell_in c /\ anchor c ∉ seen.
Proof.
  intros (H1 & H2 & H3 & H4). unfold cell_fault, cell_in.
  rewrite !orb_false_iff, !Z.eqb_neq, !Z.leb_gt, bool_decide_eq_false.
  rewrite !span_overruns_spec by done. unfold u32_ok in *. split; [|intros [? ?]; split_and!; (lia || done)].
  intros [[[[[[? ?] ?] ?] ?] ?] ?]. split; [lia|done].
Qed.

Lemma anchor_slot c : cell_in c -> anchor c ∈ cell_slots c.
Proof. intros (? & ? & ? & ?). apply elem_of_block. simpl. lia. Qed.

Lemma place_cell_Ok seen occ c st' :
  cell_u32 c -> seen ⊆ dom occ ->
  place_cell g (seen, occ) c = Ok st' <->
  cell_in c /\ (forall s, s ∈ cell_slots c -> s ∉ dom occ)
  /\ st' = ({[ anchor c ]} ∪ seen, foldl (fun m s => <[s := anchor c]> m) occ (cell_slots c)).
Proof.
  intros Hc Hsub. unfold place_cell. rewrite bind_Ok. split.
  - intros (u & Hr0%reject_if_Ok & Hf). apply cell_fault_false in Hr0 as [Hin Hseen]; [|done].
    apply bind_Ok in Hf as (occ' & Hf & [= <-]).
    apply place_slots_Ok in Hf as [Hall ->]; [|apply NoDup_block].
    split_and!; [done| |done]. intros s Hs. rewrite Forall_forall in Hall.
    destruct (Hall s Hs) as [Hn _]. by apply not_elem_of_dom.
  - intros (Hin & Hfree & ->). exists tt. split.
    + apply reject_if_Ok, cell_fault_false; [done|]. split; [done|]. intros Hs.
      apply (Hfree (anchor c)); [by apply anchor_slot|by apply Hsub].
    + apply bind_Ok. eexists. split; [|reflexivity].
      apply place_slots_Ok; [apply NoDup_block|]. split; [|done]. apply Forall_forall.
      intros s Hs. pose proof (Hfree s Hs) as Hd. split; [by apply not_elem_of_dom|].
      intros Hne. set_solver.
Qed.

Definition all_slots (cs : list PdfTableCell) : list (Z * Z) := concat (map cell_slots cs).

Lemma place_cells_Ok cs seen occ :
  Forall cell_u32 cs -> seen ⊆ dom occ ->
  (exists st', foldR (place_cell g) (seen, occ) cs = Ok st') <->
  Forall cell_in cs /\ NoDup (all_slots cs) /\ (forall s, s ∈ all_slots cs -> s ∉ dom occ).
Proof.
  intros Hu. revert seen occ. induction Hu as [|c cs Hc Hu IH]; intros seen occ Hsub.
  - split; [|by intros _; exists (seen, occ)]. intros _.
    split_and!; [constructor|constructor|intros s Hs; by apply elem_of_nil in Hs].
  - cbn [foldR]. unfold all_slots in *. cbn [map concat].
    set (occ1 := foldl (fun m s => <[s := anchor c]> m) occ (cell_slots c)).
    assert (dom occ1 = dom occ ∪ list_to_set (cell_slots c)) as Hdom by apply dom_inserts.
    assert (cell_in c -> {[ anchor c ]} ∪ seen ⊆ dom occ1) as Hsub1.
    { intros Hin%anchor_slot. rewrite Hdom. intros x [->%elem_of_singleton|Hx]%elem_of_union.
      - apply elem_of_union. right. by apply elem_of_list_to_set.
      - apply elem_of_union. left. by apply Hsub. }
    rewrite Forall_cons, NoDup_app. split.
    + intros (st' & Hst). apply bind_Ok in Hst as (st1 & Hpl & Hrest).
      apply place_cell_Ok in Hpl as (Hin & Hfree & ->); [|done|done].
      destruct (proj1 (IH _ occ1 (Hsub1 Hin))) as (H1 & H2 & H3); [by exists st'|].
      rewrite Hdom in H3. split_and!; [done|done|apply NoDup_block| |done|].
      * intros s Hs1 Hs2. apply (H3 s Hs2), elem_of_union. right. by apply elem_of_list_to_set.
      * intros s [Hs|Hs]%elem_of_app; [by apply Hfree|]. intros Hd.
        apply (H3 s Hs), elem_of_union. by left.
    + intros ([Hin Hall] & (_ & Hdis & Hnd) & Hfree).
      destruct (proj2 (IH _ occ1 (Hsub1 Hin))) as (st' & Hst').
      { split_and!; [done|done|]. intros s Hs. rewrite Hdom, elem_of_union, elem_of_list_to_set.
        intros [Hd|Hd]; [by apply (Hfree s), Hd; apply elem_of_app; right|by apply (Hdis s)]. }
      exists st'. apply bind_Ok. eexists. split; [|exact Hst'].
      apply place_cell_Ok; [done|done|]. split_and!; [done| |done].
      intros s Hs. apply Hfree, elem_of_app. by left.
Qed.

Lemma place_cells_dom cs seen occ seen' occ' :
  Forall cell_u32 cs -> seen ⊆ dom occ ->
  foldR (place_cell g) (seen, occ) cs = Ok (seen', occ') ->
  dom occ' = dom occ ∪ list_to_set (all_slots cs).
Proof.
  intros Hu. revert seen occ. induction Hu as [|c cs Hc Hu IH]; intros seen occ Hsub.
  - cbn [foldR]. intros [= _ <-]. simpl. set_solver.
  - cbn [foldR]. intros (st1 & Hpl & Hrest)%bind_Ok.
    apply place_cell_Ok in Hpl as (Hin & Hfree & ->); [|done|done].
    apply IH in Hrest as ->.
    + rewrite dom_inserts. unfold all_slots. cbn [map concat]. rewrite list_to_set_app_L. set_solver.
    + rewrite dom_inserts. apply anchor_slot in Hin. set_solver.
Qed.

Lemma elem_of_all_slots c cs s : c ∈ cs -> s ∈ cell_slots c -> s ∈ all_slots cs.
Proof.
  intros Hc Hs. apply list_elem_of_In, in_concat. eexists.
  split; [apply in_map, list_elem_of_In, Hc|by apply list_elem_of_In].
Qed.

(** Cells whose slots are those of the grid lie in the grid. *)
Lemma tiles_cell_in :
  Forall cell_u32 (cells g) -> Forall (fun c => 0 < row_span c /\ 0 < col_span c) (cells g) ->
  all_slots (cells g) ≡ₚ grid_slots g -> Forall cell_in (cells g).
Proof.
  rewrite !Forall_forall. intros Hu Hpos Hperm c Hcin. destruct (Hpos c Hcin) as [Hp1 Hp2].
  destruct (Hu c Hcin) as (Hu1 & Hu2 & Hu3 & Hu4). unfold u32_ok in *.
  assert ((row c + row_span c - 1, column c + col_span c - 1) ∈ grid_slots g) as Hlast.
  { rewrite <- Hperm. apply (elem_of_all_slots c); [done|]. apply elem_of_block. simpl. lia. }
  apply elem_of_block in Hlast. simpl in Hlast. unfold cell_in. lia.
Qed.

(** Disjoint cells in the grid with as many slots as the grid fill it. *)
Lemma cells_fill :
  Forall cell_u32 (cells g) -> Forall cell_in (cells g) -> NoDup (all_slots (cells g)) ->
  (length (grid_slots g) <= length (all_slots (cells g)))%nat ->
  all_slots (cells g) ≡ₚ grid_slots g.
Proof.
  rewrite !Forall_forall. intros Hu Hin Hnd Hlen. apply submseteq_length_Permutation; [|done].
  apply NoDup_submseteq; [done|]. intros s Hs. apply list_elem_of_In, in_concat in Hs as (l & Hl & Hs).
  apply in_map_iff in Hl as (c & <- & Hcin). apply list_elem_of_In, elem_of_block in Hs.
  apply list_elem_of_In in Hcin. destruct (Hin c Hcin) as (? & ? & ? & ?), (Hu c Hcin) as (? & ? & ? & ?).
  apply elem_of_block. unfold u32_ok in *. lia.
Qed.

Lemma widths_fault_false :
  widths_fault g = false <-> match widths_mm g with
   | None => True
   | Some ws => Z.of_nat (length ws) = column_count g
                /\ Forall (fun w => f64_is_finite w = true /\ f64_le w f64_zero = false) ws
   end.
Proof.
  unfold widths_fault. destruct (widths_mm g) as [ws|]; [|done].
  rewrite orb_false_iff, negb_false_iff, Z.eqb_eq. apply and_iff_compat_l.
  induction ws as [|w ws IH]; simpl; [split; [constructor|done]|].
  rewrite Forall_cons, !orb_false_iff, negb_false_iff. by rewrite IH.
Qed.

Lemma expected_Some :
  u64_checked_mul (row_count g) (column_count g) = Some (row_count g * column_count g).
Proof.
  unfold u64_checked_mul. destruct (Z.ltb_spec (row_count g * column_count g) (2 ^ 64)); [done|].
  unfold u32_ok, u32_modulus in *. nia.
Qed.

(** The occupied slots after the loop over all cells. *)
Lemma occupied_size cs seen occ :
  Forall cell_u32 cs -> NoDup (all_slots cs) -> foldR (place_cell g) (∅, ∅) cs = Ok (seen, occ) ->
  size occ = length (all_slots cs).
Proof.
  intros Hu Hnd Hf. pose proof (place_cells_dom cs ∅ ∅ seen occ Hu ltac:(set_solver) Hf) as Hd.
  rewrite dom_empty_L, union_empty_l_L in Hd. by rewrite <- size_dom, Hd, size_list_to_set.
Qed.
End valid.

Definition grid_u32 (g : TableGrid) : Prop :=
  u32_ok (row_count g) /\ u32_ok (column_count g) /\ Forall cell_u32 (cells g).

Lemma validate_table_grid_iff (g : TableGrid) (Hu : grid_u32 g) :
  validate_table_grid g = Ok tt <->
  0 < row_count g /\ 0 < column_count g
  /\ Forall (fun c => 0 < row_span c /\ 0 < col_span c) (cells g)
  /\ concat (map cell_slots (cells g)) ≡ₚ grid_slots g
  /\ match widths_mm g with
     | None => True
     | Some ws => Z.of_nat (length ws) = column_count g
                  /\ Forall (fun w => f64_is_finite w = true /\ f64_le w f64_zero = false) ws
     end.
Proof.
  destruct Hu as (Hr & Hc & Hu). fold (all_slots (cells g)). rewrite <- widths_fault_false.
  assert (Z.of_nat (length (grid_slots g)) = row_count g * column_count g) as Hlen
    by (apply length_block; unfold u32_ok in *; lia).
  unfold validate_table_grid. rewrite bind_Ok, expected_Some by done.
  pose proof (place_cells_Ok g Hr Hc (cells g) ∅ ∅ Hu ltac:(set_solver)) as Hplace. split.
  - intros (u & Hz%reject_if_Ok & Hst). apply bind_Ok in Hst as ([seen occ] & Hf & Hrest).
    apply bind_Ok in Hrest as (e & He%ok_or_Ok & Hrest). injection He as <-.
    apply bind_Ok in Hrest as (u2 & Hsz%reject_if_Ok & Hrest).
    apply bind_Ok in Hrest as (u3 & Hw%reject_if_Ok & _).
    apply orb_false_iff in Hz. rewrite !Z.eqb_neq in Hz. apply negb_false_iff, Z.eqb_eq in Hsz.
    destruct (proj1 Hplace) as (H1 & H2 & _); [by eexists|].
    rewrite (occupied_size g Hr Hc _ seen occ Hu H2 Hf) in Hsz.
    unfold u32_ok in *. split_and!; [lia|lia| | |done].
    + eapply Forall_impl; [exact H1|]. by intros c (? & ? & _).
    + apply cells_fill; (done || lia).
  - intros (Hr0 & Hc0 & Hpos & Hperm & Hw). exists tt. split.
    { apply reject_if_Ok, orb_false_iff. rewrite !Z.eqb_neq. lia. }
    assert (NoDup (all_slots (cells g))) as Hnd by (rewrite Hperm; apply NoDup_block).
    destruct (proj2 Hplace) as ([seen occ] & Hf).
    { split_and!; [by apply tiles_cell_in|done|set_solver]. }
    rewrite Hf. apply bind_Ok. eexists. split; [reflexivity|].
    apply bind_Ok. eexists. split; [reflexivity|]. apply bind_Ok. exists tt. split.
    + apply reject_if_Ok, negb_false_iff, Z.eqb_eq.
      rewrite (occupied_size g Hr Hc _ seen occ Hu Hnd Hf). by rewrite Hperm.
    + apply bind_Ok. exists tt. split; [by apply reject_if_Ok|reflexivity].
Qed.

Lemma validate_table_grid_slots g :
  grid_u32 g -> validate_table_grid g = Ok tt ->
  Forall (cell_in g) (cells g) /\ all_slots (cells g) ≡ₚ grid_slots g.
Proof.
  intros Hu Hv. apply validate_table_grid_iff in Hv as (_ & _ & Hpos & Hperm & _); [|done].
  destruct Hu as (? & ? & Hu). split; [by apply tiles_cell_in|done].
Qed.

Lemma all_slots_unique cs s :
  NoDup (all_slots cs) -> s ∈ all_slots cs ->
  exists i cell, cs !! i = Some cell /\ s ∈ cell_slots cell
    /\ forall j cell', cs !! j = Some cell' -> s ∈ cell_slots cell' -> j = i.
Proof.
  unfold all_slots. induction cs as [|c cs IH]; simpl.
  - intros _ Hs. by apply elem_of_nil in Hs.
  - intros (_ & Hdis & Hnd)%NoDup_app [Hs|Hs]%elem_of_app.
    + exists 0%nat, c. split_and!; [done|done|]. intros [|j] c' Hj Hs'; [done|]. exfalso. simpl in Hj.
      apply (Hdis s Hs). apply list_elem_of_lookup_2 in Hj.
      by apply (elem_of_all_slots c').
    + destruct (IH Hnd Hs) as (i & cell & Hi & Hcs & Hu). exists (S i), cell. split_and!; [done|done|].
      intros [|j] c' Hj Hs'; simpl in Hj; [|f_equal; by eapply Hu].
      injection Hj as <-. by destruct (Hdis s Hs').
Qed.

(** On cells that lie in the grid the wrapping sums do not wrap. *)
Lemma is_anchor_covers g r c :
  grid_u32 g -> Forall (cell_in g) (cells g) ->
  grid_cell_is_anchor g r c = true <->
  exists cell, cell ∈ cells g /\ anchor cell = (r, c)
    /\ forall other, other ∈ cells g -> (r, c) ∈ cell_slots other -> anchor other = (r, c).
Proof.
  intros (Hr & Hc & Hu) Hin. rewrite Forall_forall in Hu, Hin.
  unfold grid_cell_is_anchor. rewrite existsb_exists. split.
  - intros (cell & Hcell & Hb). apply list_elem_of_In in Hcell. exists cell.
    rewrite !andb_true_iff, !Z.eqb_eq, negb_true_iff in Hb. destruct Hb as [[<- <-] Hno].
    split_and!; [done|done|]. intros other Ho Hs.
    destruct (decide (anchor other = (row cell, column cell))) as [|Hne]; [done|]. exfalso.
    apply not_true_iff_false in Hno. apply Hno, existsb_exists. exists other.
    split; [by apply list_elem_of_In|]. apply elem_of_block in Hs. simpl in Hs.
    destruct (Hin other Ho) as (? & ? & ? & ?), (Hu other Ho) as (? & ? & ? & ?).
    unfold u32_ok, u32_add in *. rewrite bool_decide_eq_false_2 by done.
    rewrite !Z.mod_small by lia. simpl.
    rewrite !andb_true_iff, !Z.leb_le, !Z.ltb_lt. lia.
  - intros (cell & Hcell & Ha & Huniq). exists cell. split; [by apply list_elem_of_In|].
    injection Ha as <- <-. rewrite !Z.eqb_refl. simpl. apply negb_true_iff, not_true_iff_false.
    rewrite existsb_exists. intros (other & Ho & Hb). apply list_elem_of_In in Ho.
    rewrite !andb_true_iff, !Z.leb_le, !Z.ltb_lt, negb_true_iff, bool_decide_eq_false in Hb.
    destruct Hb as [[[[Hne ?] ?] Hr1] Hc1]. apply Hne, Huniq; [done|].
    destruct (Hin other Ho) as (? & ? & ? & ?), (Hu other Ho) as (? & ? & ? & ?).
    unfold u32_ok, u32_add in *. rewrite !Z.mod_small in * by lia. apply elem_of_block. simpl. lia.
Qed.

Lemma anchor_before_total a b : anchor_before a b = false -> anchor_before b a = true.
Proof. unfold anchor_before. destruct (Z.ltb_spec (row a) (row b)), (Z.eqb_spec (row a) (row b)),
  (Z.leb_spec (column a) (column b)), (Z.ltb_spec (row b) (row a)), (Z.eqb_spec (row b) (row a)),
  (Z.leb_spec (column b) (column a)); simpl; (done || lia). Qed.

Lemma anchor_before_le a b :
  anchor_before a b = true <-> row a < row b \/ (row a = row b /\ column a <= column b).
Proof. unfold anchor_before. rewrite orb_true_iff, andb_true_iff, Z.ltb_lt, Z.eqb_eq, Z.leb_le. done. Qed.

Lemma anchor_before_trans a b c :
  anchor_before a b = true -> anchor_before b c = true -> anchor_before a c = true.
Proof. rewrite !anchor_before_le. lia. Qed.

(** ** Properties *)

(** C15: a table grid is accepted exactly when it has rows and columns, its cells have positive
    spans and their slots are the slots of the grid, each once, and its widths, if given, are
    one finite positive number per column. *)
Theorem validate_table_grid_tiles (g : TableGrid) (Hu : grid_u32 g) :
  validate_table_grid g = Ok tt <->
  0 < row_count g /\ 0 < column_count g
  /\ Forall (fun c => 0 < row_span c /\ 0 < col_span c) (cells g)
  /\ concat (map cell_slots (cells g)) ≡ₚ grid_slots g
  /\ match widths_mm g with
     | None => True
     | Some ws => Z.of_nat (length ws) = column_count g
                  /\ Forall (fun w => f64_is_finite w = true /\ f64_le w f64_zero = false) ws
     end.
Proof. by apply validate_table_grid_iff. Qed.

(** a grid taken from the wire is returned exactly when it is valid, and then has the cells
    of the message, sorted by row and column; the message's order of cells does not decide
    whether it is accepted. *)
Theorem from_proto_grid_sorted (value : ProtoGrid) (g : TableGrid)
    (Hg : from_proto_grid value = Ok g) :
  validate_table_grid g = Ok tt
  /\ cells g ≡ₚ pg_cells value
  /\ StronglySorted (fun a b => anchor_before a b = true) (cells g)
  /\ row_count g = pg_row_count value /\ column_count g = pg_column_count value
  /\ default [] (widths_mm g) = pg_widths_mm value.
Proof.
  unfold from_proto_grid in Hg. apply bind_Ok in Hg as ([] & Hv & [= <-]). simpl.
  split_and!; [exact Hv|apply sort_by_perm| |done|done|by destruct (pg_widths_mm value)].
  apply sort_by_sorted; eauto using anchor_before_total, anchor_before_trans.
Qed.

(** In a valid grid every slot has exactly one cell that covers it, and the slot is
    reported as an anchor exactly when that cell starts there. *)
Theorem grid_cell_is_anchor_spec (g : TableGrid) (r c : Z)
    (Hu : grid_u32 g) (Hv : validate_table_grid g = Ok tt)
    (Hr : 0 <= r < row_count g) (Hc : 0 <= c < column_count g) :
  exists i cell,
    cells g !! i = Some cell /\ (r, c) ∈ cell_slots cell
    /\ (forall j cell', cells g !! j = Some cell' -> (r, c) ∈ cell_slots cell' -> j = i)
    /\ (grid_cell_is_anchor g r c = true <-> anchor cell = (r, c)).
Proof.
  pose proof Hv as Hv'. apply validate_table_grid_slots in Hv as (Hin & Hperm); [|done].
  assert (NoDup (all_slots (cells g))) as Hnd by (rewrite Hperm; apply NoDup_block).
  assert ((r, c) ∈ all_slots (cells g)) as Hs by (rewrite Hperm; by apply elem_of_block).
  apply all_slots_unique in Hs as (i & cell & Hi & Hcov & Huniq); [|done].
  exists i, cell. split_and!; [done|done|done|].
  rewrite is_anchor_covers by done. split.
  - intros (cell' & Hin' & Ha & Hno). apply list_elem_of_lookup in Hin' as [j Hj].
    assert ((r, c) ∈ cell_slots cell') as Hac.
    { rewrite <- Ha. apply (anchor_slot g). rewrite Forall_forall in Hin.
      apply Hin. by eapply list_elem_of_lookup_2. }
    rewrite (Huniq j cell' Hj Hac) in Hj. congruence.
  - intros Ha. exists cell. split_and!; [by eapply list_elem_of_lookup_2|done|].
    intros other Ho Hoc. apply list_elem_of_lookup in Ho as [j Hj].
    rewrite (Huniq j other Hj Hoc) in Hj. congruence.
Qed.

(** ** Witnesses *)

(** A header cell over two columns and two cells below it. *)
Definition sample_grid : TableGrid := {|
  row_count := 2; column_count := 2;
  cells := [ {| row := 0; column := 0; row_span := 1; col_span := 2; cell_text := u8"表" |};
             {| row := 1; column := 0; row_span := 1; col_span := 1; cell_text := u8"a" |};
             {| row := 1; column := 1; row_span := 1; col_span := 1; cell_text := u8"b" |} ];
  widths_mm := Some [f64_of_Z 20; f64_of_Z 30] |}.

Lemma sample_grid_u32 : grid_u32 sample_grid.
Proof. unfold grid_u32, u32_ok, u32_modulus. split_and!; simpl; try lia. repeat constructor; simpl; lia. Qed.

Lemma validate_table_grid_tiles_witness :
  (validate_table_grid sample_grid = Ok tt <->
   0 < 2 /\ 0 < 2
   /\ Forall (fun c => 0 < row_span c /\ 0 < col_span c) (cells sample_grid)
   /\ concat (map cell_slots (cells sample_grid)) ≡ₚ grid_slots sample_grid
   /\ match widths_mm sample_grid with
      | None => True
      | Some ws => Z.of_nat (length ws) = 2
                   /\ Forall (fun w => f64_is_finite w = true /\ f64_le w f64_zero = false) ws
      end)
  /\ validate_table_grid sample_grid = Ok tt.
Proof.
  split; [|vm_compute; reflexivity].
  exact (validate_table_grid_tiles sample_grid sample_grid_u32).
Defined.

Definition sample_proto_grid : ProtoGrid := {|
  pg_row_count := 2; pg_column_count := 2;
  pg_cells := reverse (cells sample_grid); pg_widths_mm := [f64_of_Z 20; f64_of_Z 30] |}.

Lemma from_proto_grid_sorted_witness :
  validate_table_grid sample_grid = Ok tt
  /\ cells sample_grid ≡ₚ pg_cells sample_proto_grid
  /\ StronglySorted (fun a b => anchor_before a b = true) (cells sample_grid)
  /\ 2 = 2 /\ 2 = 2
  /\ default [] (widths_mm sample_grid) = pg_widths_mm sample_proto_grid.
Proof. apply (from_proto_grid_sorted sample_proto_grid sample_grid). vm_compute. reflexivity. Defined.

Lemma grid_cell_is_anchor_spec_witness :
  exists i cell,
    cells sample_grid !! i = Some cell /\ (0, 1) ∈ cell_slots cell
    /\ (forall j cell', cells sample_grid !! j = Some cell' -> (0, 1) ∈ cell_slots cell' -> j = i)
    /\ (grid_cell_is_anchor sample_grid 0 1 = true <-> anchor cell = (0, 1)).
Proof.
  apply (grid_cell_is_anchor_spec sample_grid 0 1 sample_grid_u32); [vm_compute; reflexivity|simpl; lia|simpl; lia].
Defined.
