(* ===== verification/StrReplace.v ===== *)
(** * Literal search and replacement on strings

    [str::match_indices], [str::replace] and [str::parse::<usize>] of the Rust standard
    library, with the lemma that a cut which no match straddles commutes with both. *)
From S2P Require Import Prelude RustStr.

(** [s.match_indices(pat)] for a non-empty pattern: the byte ranges of the leftmost
    non-overlapping matches; [skip] chars of [s] belong to the match found before. *)
Fixpoint match_ranges (pat s : str) (skip pos : nat) : list (nat * nat) :=
  match s with
  | [] => []
  | c :: s' =>
    match skip with
    | S k => match_ranges pat s' k (pos + len_utf8 c)
    | 0 =>
      if starts_with s pat then
        (pos, pos + blen pat) :: match_ranges pat s' (length pat - 1) (pos + len_utf8 c)
      else match_ranges pat s' 0 (pos + len_utf8 c)
    end
  end.

(** [s.replace(pat, to)] for a non-empty pattern. *)
Fixpoint replace_from (pat to s : str) (skip : nat) : str :=
  match s with
  | [] => []
  | c :: s' =>
    match skip with
    | S k => replace_from pat to s' k
    | 0 =>
      if starts_with s pat then to ++ replace_from pat to s' (length pat - 1)
      else c :: replace_from pat to s' 0
    end
  end.

Definition replace (s pat to : str) : str := replace_from pat to s 0.

Definition match_indices (s pat : str) : list (nat * nat) := match_ranges pat s 0 0.

(** [s.parse::<usize>()]: an optional plus sign, then at least one digit, no overflow. *)
Fixpoint parse_digits (s : str) (acc : N) : option N :=
  match s with
  | [] => Some acc
  | c :: s' =>
    if is_ascii_digit c then
      let n := (acc * 10 + Z.to_N (c - 48))%N in
      if (n <? usize_modulus)%N then parse_digits s' n else None
    else None
  end.

Definition parse_usize (s : str) : option N :=
  match s with
  | [] => None
  | c :: s' =>
    if (c =? 43)%Z then (match s' with [] => None | _ => parse_digits s' 0 end)
    else parse_digits s 0
  end.

(** ** Lemmas *)

Section cut.
Context (pat : str) (Hpat : pat <> []).

Lemma starts_with_cut p r : starts_with (p ++ r) pat = true -> length pat <= length p ->
  starts_with p pat = true.
Proof.
  rewrite !starts_with_spec. intros (q & Hq) Hl.
  exists (drop (length pat) p). rewrite <- (take_drop (length pat) p) at 1. f_equal.
  assert (take (length pat) (p ++ r) = take (length pat) (pat ++ q)) as Ht by by rewrite Hq.
  rewrite take_app_le in Ht by lia. by rewrite take_app_length in Ht.
Qed.

Lemma starts_with_extend p r : starts_with p pat = true -> starts_with (p ++ r) pat = true.
Proof. rewrite !starts_with_spec. intros (q & ->). exists (q ++ r). by rewrite app_assoc. Qed.

(** No match of [s] starts before the cut at byte [o] and ends after it. *)
Definition clean_cut (ranges : list (nat * nat)) (o : nat) : Prop :=
  Forall (fun m => ~ (m.1 < o < m.2)) ranges.

Lemma match_end_bound p r : starts_with (p ++ r) pat = true ->
  length p < length pat -> exists q, pat = p ++ q /\ q <> [].
Proof.
  rewrite starts_with_spec. intros (q & Hq) Hl. exists (drop (length p) pat). split.
  - rewrite <- (take_drop (length p) pat) at 1. f_equal.
    assert (take (length p) (p ++ r) = take (length p) (pat ++ q)) as Ht by by rewrite Hq.
    rewrite take_app_length, take_app_le in Ht by lia. done.
  - intros Hd. apply (f_equal length) in Hd. rewrite length_drop in Hd. simpl in Hd. lia.
Qed.

(** A cut that no match straddles commutes with search and replacement. *)
Lemma cut_commutes to p r : forall skip pos,
  skip <= length p ->
  clean_cut (match_ranges pat (p ++ r) skip pos) (pos + blen p) ->
  match_ranges pat (p ++ r) skip pos
    = match_ranges pat p skip pos ++ match_ranges pat r 0 (pos + blen p)
  /\ replace_from pat to (p ++ r) skip
    = replace_from pat to p skip ++ replace_from pat to r 0.
Proof.
  induction p as [|c p IH]; intros skip pos Hskip Hcut.
  - simpl in Hskip. assert (skip = 0) as -> by lia. simpl. by rewrite Nat.add_0_r.
  - assert (pos + blen (c :: p) = (pos + len_utf8 c) + blen p) as Hpos by (simpl; lia).
    rewrite Hpos in Hcut |- *. change ((c :: p) ++ r) with (c :: (p ++ r)) in *.
    cbn [match_ranges replace_from] in *. destruct skip as [|k].
    2: { apply IH; [simpl in Hskip; lia|done]. }
    destruct (starts_with (c :: p ++ r) pat) eqn:E.
    + apply Forall_cons in Hcut as [Hm Hcut]. cbn [fst snd] in Hm.
      destruct (decide (length pat <= length (c :: p))) as [Hl|Hl].
      * change (c :: p ++ r) with ((c :: p) ++ r) in E.
        rewrite (starts_with_cut (c :: p) r E Hl).
        destruct (IH (length pat - 1) (pos + len_utf8 c)) as [H1 H2]; [simpl in Hl; lia|done|].
        rewrite H1, H2. split; [done|]. by rewrite app_assoc.
      * exfalso. change (c :: p ++ r) with ((c :: p) ++ r) in E.
        destruct (match_end_bound (c :: p) r E) as (q & Hq & Hqn); [lia|]. apply Hm.
        rewrite Hq, blen_app. pose proof (len_utf8_pos c). simpl blen.
        assert (blen q <> 0) by (intros Hz; by apply Hqn, blen_nil_inv). lia.
    + destruct (starts_with (c :: p) pat) eqn:E'.
      { apply (starts_with_extend _ r) in E'. change ((c :: p) ++ r) with (c :: p ++ r) in E'. congruence. }
      destruct (IH 0 (pos + len_utf8 c)) as [H1 H2]; [lia|done|]. by rewrite H1, H2.
Qed.

Lemma match_ranges_bounds s : forall skip pos,
  Forall (fun m => pos <= m.1 /\ m.2 = m.1 + blen pat /\ (skip <= length s -> m.2 <= pos + blen s))
    (match_ranges pat s skip pos).
Proof.
  induction s as [|c s IH]; intros skip pos; [constructor|]. cbn [match_ranges].
  assert (forall k, Forall (fun m => pos <= m.1 /\ m.2 = m.1 + blen pat
            /\ (k <= length s -> m.2 <= pos + blen (c :: s)))
            (match_ranges pat s k (pos + len_utf8 c))) as Hrest.
  { intros k. eapply Forall_impl; [apply IH|]. simpl. intros m (H1 & H2 & H3).
    split_and!; [lia|done|]. intros Hk. specialize (H3 Hk). lia. }
  destruct skip as [|k].
  - destruct (starts_with (c :: s) pat) eqn:E.
    + apply starts_with_spec in E as (q & Hq). constructor.
      * cbn [fst snd]. split_and!; [lia|done|]. intros _. rewrite Hq, blen_app. lia.
      * eapply Forall_impl; [apply (Hrest (length pat - 1))|]. intros m (H1 & H2 & H3).
        split_and!; [done|done|]. intros _. apply H3.
        apply (f_equal length) in Hq. rewrite length_app in Hq. simpl in Hq. lia.
    + eapply Forall_impl; [apply (Hrest 0)|]. intros m (H1 & H2 & H3). split_and!; [done|done|].
      intros _. apply H3. lia.
  - eapply Forall_impl; [apply (Hrest k)|]. intros m (H1 & H2 & H3). split_and!; [done|done|].
    intros Hk. apply H3. simpl in Hk. lia.
Qed.

(** Replacement changes the byte length by the same amount for every match. *)
Lemma replace_from_blen to s : forall skip pos,
  skip <= length s ->
  Z.of_nat (blen (replace_from pat to s skip)) =
  (Z.of_nat (blen (drop skip s))
   + Z.of_nat (length (match_ranges pat s skip pos)) * (Z.of_nat (blen to) - Z.of_nat (blen pat)))%Z.
Proof.
  induction s as [|c s IH]; intros skip pos Hskip.
  - simpl in Hskip. assert (skip = 0) as -> by lia. simpl. lia.
  - cbn [match_ranges replace_from]. destruct skip as [|k].
    + destruct (starts_with (c :: s) pat) eqn:E.
      * apply starts_with_spec in E as (q & Hq).
        assert (length pat - 1 <= length s) as Hl.
        { apply (f_equal length) in Hq. rewrite length_app in Hq. simpl in Hq. lia. }
        rewrite blen_app, Nat2Z.inj_add, (IH _ (pos + len_utf8 c) Hl).
        assert (drop (length pat - 1) s = q) as ->.
        { destruct pat as [|x pat']; [done|]. injection Hq as -> ->. simpl.
          rewrite Nat.sub_0_r. apply drop_app_length. }
        cbn [length]. rewrite drop_0, Hq, blen_app. lia.
      * rewrite drop_0. cbn [blen]. simpl blen. rewrite !Nat2Z.inj_add, (IH 0 (pos + len_utf8 c)) by lia.
        rewrite drop_0. lia.
    + simpl in Hskip. simpl drop. apply IH. lia.
Qed.
End cut.

(** Cutting at a clean position, from the start of the string. *)
Lemma cut_at (pat to p r : str) :
  pat <> [] -> clean_cut (match_indices (p ++ r) pat) (blen p) ->
  match_indices (p ++ r) pat = match_indices p pat ++ match_ranges pat r 0 (blen p)
  /\ replace (p ++ r) pat to = replace p pat to ++ replace r pat to.
Proof. intros Hp Hc. apply (cut_commutes pat to p r 0 0); [lia|done]. Qed.
