(* ===== verification/NumText.v ===== *)
(** * Facts about ASCII text and decimal numbers

    The bytes of a string against its chars, the digits of [decimal], the strings that are
    the decimal text of a number, and cutting at a separator. *)
From S2P Require Import Prelude RustStr StrReplace.

(** ** Bytes and chars *)

Lemma as_bytes_app s t : as_bytes (s ++ t) = as_bytes s ++ as_bytes t.
Proof. unfold as_bytes. by rewrite map_app, concat_app. Qed.

Lemma as_bytes_cons c s : as_bytes (c :: s) = utf8_char c ++ as_bytes s.
Proof. done. Qed.

Lemma lor_ge c b : (128 <= c)%Z -> (0 <= b)%Z -> (128 <= Z.lor c b)%Z.
Proof.
  intros Hc Hb. assert (c <= Z.lor c b)%Z; [|lia].
  apply Z.ldiff_le; [apply Z.lor_nonneg; lia|].
  apply Z.bits_inj'. intros n Hn'. rewrite Z.ldiff_spec, Z.lor_spec, Z.bits_0.
  by destruct (Z.testbit c n), (Z.testbit b n).
Qed.

Lemma utf8_char_head c : exists b bs, utf8_char c = b :: bs /\ (b = c \/ (128 <= b /\ 128 <= c)%Z).
Proof.
  unfold utf8_char. repeat case_match; eexists _, _; (split; [reflexivity|]); [by left|..];
    right; bool_to_prop; (split; [apply lor_ge; [lia|]; apply Z.shiftr_nonneg; lia|lia]).
Qed.

(** A test that only ASCII bytes pass. *)
Definition ascii_test (f : Z -> bool) : Prop := forall b, (128 <= b)%Z -> f b = false.

Lemma utf8_char_low c : (c < 128)%Z -> utf8_char c = [c].
Proof. intros H. unfold utf8_char. by rewrite (proj2 (Z.ltb_lt c 128)). Qed.

Lemma forallb_bytes f s : ascii_test f -> forallb f (as_bytes s) = forallb f s.
Proof.
  intros Hf. induction s as [|c s IH]; [done|]. rewrite as_bytes_cons, forallb_app, IH. cbn [forallb]. f_equal.
  destruct (Z.ltb_spec c 128) as [Hc|Hc]; [rewrite utf8_char_low by done; cbn; by rewrite andb_true_r|].
  destruct (utf8_char_head c) as (b & bs & -> & [->|[Hb _]]); cbn; [by rewrite (Hf c)|by rewrite (Hf b), (Hf c)].
Qed.

Lemma ascii_as_bytes s : Forall (fun c => (c < 128)%Z) s -> as_bytes s = s /\ blen s = length s.
Proof.
  intros H. assert (as_bytes s = s) as E.
  { induction H as [|c s Hc _ IH]; [done|]. by rewrite as_bytes_cons, utf8_char_low, IH. }
  split; [done|]. by rewrite <- length_as_bytes, E.
Qed.

Lemma ascii_test_bytes f s : ascii_test f -> forallb f s = true -> as_bytes s = s /\ blen s = length s.
Proof.
  intros Hf Hs. apply ascii_as_bytes, Forall_forall. intros c Hc. rewrite forallb_forall in Hs.
  apply Z.nle_gt. intros Hge. apply Hf in Hge. rewrite Hs in Hge by (by apply list_elem_of_In). done.
Qed.

(** Bytes that are all ASCII are the chars of the string. *)
Lemma ascii_bytes_chars s : Forall (fun b => (b < 128)%Z) (as_bytes s) -> as_bytes s = s /\ blen s = length s.
Proof.
  intros H. apply (ascii_test_bytes (fun b => b <? 128)%Z); [intros b Hb; by apply Z.ltb_ge|].
  rewrite <- forallb_bytes by (intros b Hb; by apply Z.ltb_ge).
  apply forallb_forall. intros b Hb. apply Z.ltb_lt. rewrite Forall_forall in H. by apply H, list_elem_of_In.
Qed.

(** ** Cutting at a separator *)

Lemma split_once_Some c s p r : split_once c s = Some (p, r) <-> s = p ++ c :: r /\ c ∉ p.
Proof.
  revert p. induction s as [|x s IH]; intros p; cbn [split_once].
  { split; [done|]. intros [H _]. by destruct p. }
  destruct (Z.eqb_spec x c) as [->|Hx].
  - split; [intros [= <- <-]; split; [done|apply not_elem_of_nil]|].
    intros [H Hc]. destruct p as [|y p]; [by injection H as ->|]. injection H as -> ->. set_solver.
  - split.
    + intros ([p' r'] & H & [= <- <-])%bind_Some. apply IH in H as [-> Hc]. split; [done|set_solver].
    + intros [H Hc]. destruct p as [|y p]; [by injection H|]. injection H as -> ->. apply bind_Some.
      exists (p, r). split; [|done]. apply IH. set_solver.
Qed.

Lemma split_once_None c s : split_once c s = None <-> c ∉ s.
Proof.
  split; intros H.
  - intros (p & r & E & Hp)%list_elem_of_split_l. pose proof (proj2 (split_once_Some c s p r) (conj E Hp)). congruence.
  - destruct (split_once c s) as [[p r]|] eqn:E; [|done]. apply split_once_Some in E as [-> _]. set_solver.
Qed.

Lemma rsplit_once_Some c s p r : rsplit_once c s = Some (p, r) <-> s = p ++ c :: r /\ c ∉ r.
Proof.
  unfold rsplit_once. split.
  - intros ([a b] & H & [= <- <-])%bind_Some. apply split_once_Some in H as [E H].
    apply (f_equal reverse) in E. rewrite reverse_involutive, reverse_app, reverse_cons, <- app_assoc in E.
    split; [done|]. by rewrite elem_of_reverse.
  - intros [-> H]. apply bind_Some. exists (reverse r, reverse p). rewrite !reverse_involutive. split; [|done].
    apply split_once_Some. rewrite elem_of_reverse. split; [|done]. by rewrite reverse_app, reverse_cons, <- app_assoc.
Qed.

Lemma rsplit_once_None c s : rsplit_once c s = None <-> c ∉ s.
Proof.
  unfold rsplit_once. rewrite bind_None. split.
  - intros [H|([a b] & _ & H)]; [|done]. apply split_once_None in H. by rewrite elem_of_reverse in H.
  - intros H. left. apply split_once_None. by rewrite elem_of_reverse.
Qed.

(** ** Decimal text *)

Local Open Scope Z_scope.

Lemma decimal_loop_digits fuel n acc : Forall (fun c => is_ascii_digit c = true) acc ->
  Forall (fun c => is_ascii_digit c = true) (decimal_loop fuel n acc).
Proof.
  revert n acc. induction fuel as [|fuel IH]; intros n acc H; [done|]. cbn [decimal_loop].
  assert (is_ascii_digit (48 + Z.of_N (n mod 10)) = true).
  { pose proof (N.mod_lt n 10 ltac:(lia)) as Hm. set (r := (n mod 10)%N) in *. clearbody r. unfold is_ascii_digit.
    rewrite andb_true_iff, !Z.leb_le. lia. }
  destruct (n <? 10)%N; [by constructor|]. apply IH. by constructor.
Qed.

Lemma decimal_digits n : Forall (fun c => is_ascii_digit c = true) (decimal n).
Proof. by apply decimal_loop_digits. Qed.

Lemma decimal_value n : digits_value (decimal n) = n.
Proof.
  unfold decimal. destruct (decimal_loop_value (S (N.to_nat (N.log2 n))) n []) as (ds & -> & <-).
  - rewrite Nat2N.inj_succ, N2Nat.id. destruct (decide (n = 0)%N) as [->|]; [done|]. apply N.log2_spec. lia.
  - by rewrite app_nil_r.
Qed.

Lemma decimal_loop_nonempty fuel n acc : acc <> [] -> decimal_loop fuel n acc <> [].
Proof.
  revert n acc. induction fuel as [|fuel IH]; intros n acc H; [done|]. cbn [decimal_loop]. destruct (n <? 10)%N; [done|]. by apply IH.
Qed.

Lemma decimal_nonempty n : decimal n <> [].
Proof. unfold decimal. cbn [decimal_loop]. destruct (n <? 10)%N; [done|]. by apply decimal_loop_nonempty. Qed.

(** The numbers that start with a digit other than zero, and their text. *)
Lemma decimal_loop_app fuel : forall n acc, decimal_loop fuel n acc = decimal_loop fuel n [] ++ acc.
Proof.
  induction fuel as [|fuel IH]; intros n acc; [done|]. cbn [decimal_loop]. destruct (n <? 10)%N; [done|].
  rewrite IH, (IH _ [_]), <- app_assoc. done.
Qed.

Lemma decimal_loop_more fuel : forall n acc, (n < 2 ^ N.of_nat fuel)%N ->
  decimal_loop (S fuel) n acc = decimal_loop fuel n acc \/ fuel = 0%nat.
Proof.
  induction fuel as [|fuel IH]; intros n acc Hn; [by right|]. left.
  rewrite Nat2N.inj_succ, N.pow_succ_r' in Hn. remember (S fuel) as k. cbn [decimal_loop].
  rewrite Heqk at 2. cbn [decimal_loop]. destruct (N.ltb_spec n 10) as [|Hge]; [done|]. subst k.
  destruct (IH (n / 10)%N ((48 + Z.of_N (n mod 10)) :: acc)) as [H| ->]; [|done|].
  - apply N.Div0.div_lt_upper_bound. lia.
  - change (N.of_nat 0) with 0%N in Hn. rewrite N.pow_0_r in Hn. lia.
Qed.

Lemma decimal_loop_fuel n acc f1 f2 : (n < 2 ^ N.of_nat (S f1))%N -> (S f1 <= f2)%nat ->
  decimal_loop f2 n acc = decimal_loop (S f1) n acc.
Proof.
  intros Hn. induction 1 as [|f2 H IH]; [done|]. rewrite <- IH.
  destruct (decimal_loop_more f2 n acc) as [E|E]; [|exact E|lia].
  eapply N.lt_le_trans; [exact Hn|]. apply N.pow_le_mono_r; lia.
Qed.

Lemma decimal_step n : (10 <= n)%N -> decimal n = decimal (n / 10) ++ [48 + Z.of_N (n mod 10)].
Proof.
  intros Hn. unfold decimal at 1. cbn [decimal_loop]. rewrite (proj2 (N.ltb_ge n 10)) by done.
  rewrite decimal_loop_app. f_equal. unfold decimal.
  assert (Hq : (0 < n / 10 < n)%N) by (split; [apply N.div_str_pos; lia|apply N.div_lt; lia]).
  apply decimal_loop_fuel.
  - rewrite Nat2N.inj_succ, N2Nat.id. apply N.log2_spec. lia.
  - assert (N.log2 (n / 10) < N.log2 n)%N; [|lia]. apply N.log2_lt_pow2; [lia|].
    pose proof (N.log2_spec n ltac:(lia)) as [_ H]. rewrite N.pow_succ_r' in H.
    apply N.Div0.div_lt_upper_bound. lia.
Qed.

Lemma digits_value_snoc s c : digits_value (s ++ [c]) = (digits_value s * 10 + Z.to_N (c - 48))%N.
Proof. unfold digits_value. by rewrite foldl_snoc. Qed.

(** Digits without a leading zero are the decimal text of their value. *)
Lemma decimal_unique s : s <> [] -> Forall (fun c => is_ascii_digit c = true) s -> head s <> Some 48 ->
  decimal (digits_value s) = s /\ (0 < digits_value s)%N.
Proof.
  induction s as [|c s IH] using rev_ind; [done|]. intros _ [Hs [Hc _]%Forall_cons]%Forall_app Hh.
  unfold is_ascii_digit in Hc. rewrite andb_true_iff, !Z.leb_le in Hc. rewrite digits_value_snoc.
  destruct s as [|d s].
  - cbn in Hh. assert (c <> 48) by congruence. change (digits_value []) with 0%N. split; [|lia].
    rewrite N.mul_0_l, N.add_0_l. unfold decimal. cbn [decimal_loop].
    rewrite (proj2 (N.ltb_lt _ 10)) by lia. rewrite N.mod_small by lia. cbn [app]. f_equal. lia.
  - destruct IH as [IH Hpos]; [done|done|exact Hh|]. set (v := digits_value (d :: s)) in *. split; [|lia].
    rewrite decimal_step by lia. replace ((v * 10 + Z.to_N (c - 48)) / 10)%N with v.
    + rewrite IH. f_equal. f_equal. rewrite N.add_comm, N.Div0.mod_add, N.mod_small by lia. lia.
    + rewrite N.div_add_l, N.div_small by lia. lia.
Qed.

Lemma decimal_head n : (0 < n)%N -> head (decimal n) <> Some 48.
Proof.
  induction n as [n IH] using (well_founded_induction N.lt_wf_0). intros Hn.
  destruct (N.le_gt_cases 10 n) as [Hge|Hlt].
  - rewrite decimal_step by done. assert (0 < n / 10 < n)%N as Hq
      by (split; [apply N.div_str_pos; lia|apply N.div_lt; lia]).
    specialize (IH (n / 10)%N ltac:(lia) ltac:(lia)).
    destruct (decimal (n / 10)) eqn:E; [by apply decimal_nonempty in E|exact IH].
  - unfold decimal. cbn [decimal_loop]. rewrite (proj2 (N.ltb_lt n 10)) by done. rewrite N.mod_small by done.
    cbn. intros [= H]. lia.
Qed.

(** [str::parse] on digits: the value, unless it does not fit. *)
Lemma parse_digits_value s : forall acc, Forall (fun c => is_ascii_digit c = true) s -> (acc < usize_modulus)%N ->
  parse_digits s acc = let n := foldl (fun n c => n * 10 + Z.to_N (c - 48))%N acc s in
                       if (n <? usize_modulus)%N then Some n else None.
Proof.
  induction s as [|c s IH]; intros acc Hs Ha; cbn [parse_digits foldl].
  { cbv zeta. by rewrite (proj2 (N.ltb_lt _ _) Ha). }
  apply Forall_cons in Hs as [Hc Hs]. rewrite Hc. cbv zeta.
  assert (Hgrow : forall acc, (acc <= foldl (fun n c => n * 10 + Z.to_N (c - 48)) acc s)%N).
  { clear. induction s as [|c s IH]; intros acc; [done|]. cbn [foldl]. specialize (IH (acc * 10 + Z.to_N (c - 48))%N). lia. }
  destruct (N.ltb_spec (acc * 10 + Z.to_N (c - 48)) usize_modulus) as [Hlt|Hge]; [by apply IH|].
  specialize (Hgrow (acc * 10 + Z.to_N (c - 48))%N). by rewrite (proj2 (N.ltb_ge _ _)) by lia.
Qed.

Lemma parse_usize_digits s : s <> [] -> Forall (fun c => is_ascii_digit c = true) s ->
  parse_usize s = if (digits_value s <? usize_modulus)%N then Some (digits_value s) else None.
Proof.
  intros Hne Hs. unfold parse_usize. destruct s as [|c s]; [done|].
  pose proof (Forall_inv Hs) as Hc. unfold is_ascii_digit in Hc. rewrite andb_true_iff, !Z.leb_le in Hc.
  destruct (Z.eqb_spec c 43); [lia|]. by apply (parse_digits_value (c :: s) 0).
Qed.

(** ** Prefixes and digits *)

Lemma strip_prefix_Some s p r : strip_prefix s p = Some r <-> s = p ++ r.
Proof.
  unfold strip_prefix. split.
  - destruct (starts_with s p) eqn:E; [|done]. intros [= <-]. apply starts_with_spec in E as (r & ->).
    by rewrite drop_app_length.
  - intros ->. by rewrite starts_with_app, drop_app_length.
Qed.

Lemma digits_bytes s : forallb is_ascii_digit (as_bytes s) = true <-> Forall (fun c => is_ascii_digit c = true) s.
Proof.
  rewrite forallb_bytes by (intros b Hb; unfold is_ascii_digit; lia).
  rewrite forallb_forall, Forall_forall. by setoid_rewrite list_elem_of_In.
Qed.

(** ** Trimming never lengthens *)

Lemma blen_trim_start_by f s : (blen (trim_start_by f s) <= blen s)%nat.
Proof. induction s as [|c s IH]; cbn; [lia|]. destruct (f c); cbn; lia. Qed.

Lemma blen_reverse s : blen (reverse s) = blen s.
Proof. induction s as [|c s IH]; [done|]. rewrite reverse_cons, blen_app, IH. cbn. lia. Qed.

Lemma blen_trim_le s : (blen (trim s) <= blen s)%nat.
Proof.
  unfold trim, trim_end, trim_end_by. rewrite blen_reverse.
  etrans; [apply blen_trim_start_by|]. rewrite blen_reverse. apply blen_trim_start_by.
Qed.
