(* ===== verification/Keywords.v ===== *)
(** * [crates/knowledge/src/index/mod.rs]: the tokens of the keyword index

    [keyword_tokens_v2] cuts a text into runs of ASCII letters and digits (lower-cased) and of
    CJK ideographs (as overlapping pairs); the index stores the tokens joined by blanks, and a
    query becomes a [tsquery] by replacing the blanks.  The loop is proved equal to a
    definition by maximal runs, and the joined text determines the tokens. *)
From S2P Require Import Prelude RustStr.

Local Open Scope Z_scope.

Inductive RunKind := Ascii | Cjk.

#[export] Instance run_kind_eq_dec : EqDecision RunKind.
Proof. solve_decision. Defined.

Definition in_range (c lo hi : Z) : bool := (lo <=? c) && (c <=? hi).

Definition is_cjk_ideograph_v2 (c : char) : bool :=
  in_range c 13312 19903 || in_range c 19968 40959 || in_range c 63744 64255 || in_range c 131072 191471
  || in_range c 191472 192095 || in_range c 194560 195103 || in_range c 196608 205743.

(** [characters.windows(2)] *)
Fixpoint pairs (run : str) : list str :=
  match run with
  | a :: (b :: _) as rest => [a; b] :: pairs rest
  | _ => []
  end.

(** The local function [flush]: the tokens with those of the run that ended. *)
Definition flush (tokens : list str) (kind : option RunKind) (run : str) : list str :=
  match kind with
  | Some Ascii => tokens ++ [run]
  | Some Cjk => if (length run =? 1)%nat then tokens ++ [run] else tokens ++ pairs run
  | None => tokens
  end.

Definition next_kind (c : char) : option RunKind :=
  if is_ascii_alphanumeric c then Some Ascii else if is_cjk_ideograph_v2 c then Some Cjk else None.

(** What is pushed on the run. *)
Definition run_char (c : char) : str :=
  match next_kind c with Some Ascii => [to_ascii_lowercase c] | Some Cjk => [c] | None => [] end.

(** The state of the loop: the tokens, the kind of the current run, and the run. *)
Definition keyword_step (st : list str * option RunKind * str) (c : char) : list str * option RunKind * str :=
  let '(tokens, kind, run) := st in
  if decide (next_kind c = kind) then (tokens, kind, run ++ run_char c)
  else (flush tokens kind run, next_kind c, run_char c).

Definition keyword_tokens_v2 (text : str) : list str :=
  let '(tokens, kind, run) := fold_left keyword_step text ([], None, []) in flush tokens kind run.

Definition keyword_token_stream_v2 (text : str) : str := join [SP] (keyword_tokens_v2 text).

Example keyword_tokens_mixed :
  keyword_tokens_v2 (u8"API网关-V2 中") = [u8"api"; u8"网关"; u8"v2"; u8"中"].
Proof. reflexivity. Qed.

Example keyword_tokens_bigrams : keyword_tokens_v2 (u8"知识库") = [u8"知识"; u8"识库"].
Proof. reflexivity. Qed.

(** ** The tokens by maximal runs *)

(** The chars of a text cut where the kind changes. *)
Fixpoint runs (text : str) : list (option RunKind * str) :=
  match text with
  | [] => []
  | c :: text =>
    match runs text with
    | (kind, run) :: rest =>
      if decide (next_kind c = kind) then (kind, c :: run) :: rest else (next_kind c, [c]) :: (kind, run) :: rest
    | [] => [(next_kind c, [c])]
    end
  end.

Definition run_tokens (r : option RunKind * str) : list str :=
  match r.1 with
  | Some Ascii => [map to_ascii_lowercase r.2]
  | Some Cjk => match r.2 with [c] => [[c]] | run => pairs run end
  | None => []
  end.

Lemma runs_concat text : concat (runs text).*2 = text.
Proof.
  induction text as [|c text IH]; [done|]. cbn [runs]. destruct (runs text) as [|[kind run] rest].
  - cbn in *. by subst.
  - cbn in IH. case_decide; cbn; by rewrite IH.
Qed.

(** The runs are non-empty, of one kind, and neighbours differ in kind: they are maximal. *)
Fixpoint neighbours_differ (l : list (option RunKind)) : Prop :=
  match l with
  | a :: (b :: _) as rest => a <> b /\ neighbours_differ rest
  | _ => True
  end.

Lemma runs_maximal text :
  Forall (fun r => r.2 <> [] /\ Forall (fun c => next_kind c = r.1) r.2) (runs text) /\ neighbours_differ (runs text).*1.
Proof.
  induction text as [|c text [F D]]; [done|]. cbn [runs]. destruct (runs text) as [|[kind run] rest].
  - split; [|done]. repeat constructor; done.
  - apply Forall_cons in F as [[Hne Hk] F]. case_decide as E.
    + split; [|done]. constructor; [|done]. split; [done|]. by constructor.
    + split; [|by split]. repeat constructor; done.
Qed.

Lemma run_chars kind run : Forall (fun c => next_kind c = kind) run ->
  concat (map run_char run)
  = match kind with Some Ascii => map to_ascii_lowercase run | Some Cjk => run | None => [] end.
Proof.
  induction 1 as [|c run Hc F IH]; [by destruct kind as [[]|]|]. cbn [map concat]. rewrite IH.
  unfold run_char. rewrite Hc. by destruct kind as [[]|].
Qed.

Lemma flush_run tokens kind run : run <> [] -> Forall (fun c => next_kind c = kind) run ->
  flush tokens kind (concat (map run_char run)) = tokens ++ run_tokens (kind, run).
Proof.
  intros Hne F. rewrite (run_chars kind run F). unfold flush, run_tokens. cbn [fst snd].
  destruct kind as [[]|]; [done| |by rewrite app_nil_r]. destruct run as [|c [|d run]]; done.
Qed.

(** The loop over a text that starts with the rest of the current run. *)
Definition loop (st : list str * option RunKind * str) (text : str) : list str :=
  let '(tokens, kind, run) := fold_left keyword_step text st in flush tokens kind run.

Lemma loop_runs text : forall tokens kind run,
  Forall (fun c => next_kind c = kind) run -> run <> [] \/ kind = None ->
  loop (tokens, kind, concat (map run_char run)) text
  = match runs text with
    | (k, r) :: rest =>
      if decide (k = kind) then tokens ++ concat (map run_tokens ((kind, run ++ r) :: rest))
      else tokens ++ concat (map run_tokens ((kind, run) :: (k, r) :: rest))
    | [] => tokens ++ run_tokens (kind, run)
    end.
Proof.
  assert (Hflush : forall tokens kind run, Forall (fun c => next_kind c = kind) run -> run <> [] \/ kind = None ->
    flush tokens kind (concat (map run_char run)) = tokens ++ run_tokens (kind, run)).
  { intros tokens kind run F [Hne| ->]; [by apply flush_run|]. cbn. by rewrite app_nil_r. }
  induction text as [|c text IH]; intros tokens kind run F Hne.
  { by apply Hflush. }
  change (loop (tokens, kind, concat (map run_char run)) (c :: text))
    with (loop (keyword_step (tokens, kind, concat (map run_char run)) c) text).
  unfold keyword_step. case_decide as E.
  - replace (concat (map run_char run) ++ run_char c) with (concat (map run_char (run ++ [c])))
      by (rewrite map_app, concat_app; cbn; by rewrite app_nil_r).
    rewrite IH; [|apply Forall_app; split; [done|by constructor]|left; by destruct run].
    cbn [runs]. destruct (runs text) as [|[k r] rest].
    + rewrite decide_True by done. cbn. by rewrite app_nil_r.
    + destruct (decide (k = kind)) as [->|Hk].
      * rewrite (decide_True (P := next_kind c = kind)) by done. rewrite decide_True by done. by rewrite <- app_assoc.
      * rewrite (decide_False (P := next_kind c = k)) by congruence. rewrite decide_True by done. done.
  - rewrite Hflush by done. replace (run_char c) with (concat (map run_char [c])) by (cbn; by rewrite app_nil_r).
    rewrite IH; [|by repeat constructor|by left]. cbn [runs]. destruct (runs text) as [|[k r] rest].
    + rewrite decide_False by done. cbn [map concat]. by rewrite app_nil_r, <- app_assoc.
    + destruct (decide (k = next_kind c)) as [->|Hk].
      * rewrite (decide_True (P := next_kind c = next_kind c)) by done. rewrite decide_False by done.
        cbn [map concat app]. by rewrite <- app_assoc.
      * rewrite (decide_False (P := next_kind c = k)) by congruence. rewrite decide_False by done.
        cbn [map concat app]. by rewrite <- app_assoc.
Qed.

(** ** The stream *)

(** A token: lower-case ASCII letters and digits, or one or two ideographs. *)
Definition keyword_token (t : str) : Prop :=
  (t <> [] /\ Forall (fun c => is_ascii_lowercase c = true \/ is_ascii_digit c = true) t)
  \/ (1 <= length t <= 2)%nat /\ Forall (fun c => is_cjk_ideograph_v2 c = true) t.

Lemma next_kind_ascii c : next_kind c = Some Ascii ->
  is_ascii_lowercase (to_ascii_lowercase c) = true \/ is_ascii_digit (to_ascii_lowercase c) = true.
Proof.
  unfold next_kind, is_ascii_alphanumeric, is_ascii_alphabetic, to_ascii_lowercase. intros H.
  destruct (is_ascii_uppercase c) eqn:E1, (is_ascii_lowercase c) eqn:E2, (is_ascii_digit c) eqn:E3; try done; cbn in *; auto;
    try (destruct (is_cjk_ideograph_v2 c); done); left; unfold is_ascii_uppercase, is_ascii_lowercase in *; lia.
Qed.

Lemma next_kind_cjk c : next_kind c = Some Cjk -> is_cjk_ideograph_v2 c = true.
Proof. unfold next_kind. by destruct (is_ascii_alphanumeric c), (is_cjk_ideograph_v2 c). Qed.

Lemma pairs_tokens run t : Forall (fun c => is_cjk_ideograph_v2 c = true) run -> t ∈ pairs run ->
  length t = 2%nat /\ Forall (fun c => is_cjk_ideograph_v2 c = true) t.
Proof.
  induction 1 as [|a run Ha F IH]; [by intros ?%elem_of_nil|]. destruct run as [|b run]; [by intros ?%elem_of_nil|].
  cbn [pairs]. intros [->|Ht]%elem_of_cons; [|by apply IH]. split; [done|]. apply Forall_cons in F as [Hb _].
  by repeat constructor.
Qed.

Lemma run_tokens_ok kind run t : run <> [] -> Forall (fun c => next_kind c = kind) run ->
  t ∈ run_tokens (kind, run) -> keyword_token t.
Proof.
  unfold run_tokens. cbn [fst snd]. intros Hne F. destruct kind as [[]|]; [| |by intros ?%elem_of_nil].
  - intros ->%list_elem_of_singleton. left. split; [by destruct run|]. apply Forall_map.
    eapply Forall_impl; [exact F|]. intros c Hc. by apply next_kind_ascii.
  - assert (Forall (fun c => is_cjk_ideograph_v2 c = true) run) as F'.
    { eapply Forall_impl; [exact F|]. intros c. apply next_kind_cjk. }
    intros Ht. right. destruct run as [|a [|b run]]; [done| |].
    + apply list_elem_of_singleton in Ht as ->. cbn. split; [lia|done].
    + apply pairs_tokens in Ht as [-> Hf]; [|done]. split; [lia|done].
Qed.

Lemma token_no_space t : keyword_token t -> t <> [] /\ SP ∉ t.
Proof.
  assert (forall (P : char -> Prop) s, Forall P s -> ~ P SP -> SP ∉ s) as Hfree.
  { intros P s F Hn Hin. rewrite Forall_forall in F. by apply Hn, F. }
  intros [[Hne F]|[Hl F]].
  - split; [done|]. eapply Hfree; [exact F|]. vm_compute. naive_solver.
  - split; [destruct t; cbn in Hl; [lia|done]|]. eapply Hfree; [exact F|]. by vm_compute.
Qed.

Lemma keyword_tokens_runs text : keyword_tokens_v2 text = concat (map run_tokens (runs text)).
Proof.
  change (keyword_tokens_v2 text) with (loop ([], None, concat (map run_char [])) text).
  rewrite loop_runs by (by repeat constructor || by right). destruct (runs text) as [|[k r] rest]; [done|].
  case_decide as E; [by rewrite E|]. done.
Qed.

(** C35: The keywords of a text ([keyword_tokens_v2] and [keyword_token_stream_v2] of index/mod.rs):
    the loop yields the tokens of the maximal runs of the text, in order: one lower-cased token
    per run of ASCII letters and digits, the overlapping pairs of a run of ideographs (or the
    single one), nothing for the rest.  Every token has only lower-case letters, digits or
    ideographs, so it carries no operator of a [tsquery]; and the stored stream, split at its
    blanks, gives the tokens back. *)
Theorem keyword_stream_exact text :
  keyword_tokens_v2 text = concat (map run_tokens (runs text))
  /\ concat (runs text).*2 = text
  /\ Forall (fun r => r.2 <> [] /\ Forall (fun c => next_kind c = r.1) r.2) (runs text)
  /\ neighbours_differ (runs text).*1
  /\ Forall keyword_token (keyword_tokens_v2 text)
  /\ (keyword_tokens_v2 text <> [] ->
      split_char SP (keyword_token_stream_v2 text) = keyword_tokens_v2 text)
  /\ (keyword_token_stream_v2 text = [] <-> keyword_tokens_v2 text = []).
Proof.
  destruct (runs_maximal text) as [F D].
  assert (Forall keyword_token (keyword_tokens_v2 text)) as Ht.
  { rewrite keyword_tokens_runs. apply Forall_concat, Forall_map. eapply Forall_impl; [exact F|].
    intros [k r] [Hne Hk]. apply Forall_forall. intros t. by apply run_tokens_ok. }
  split; [apply keyword_tokens_runs|]. split; [apply runs_concat|]. split; [done|]. split; [done|]. split; [done|].
  unfold keyword_token_stream_v2. split.
  - intros Hne. apply split_char_join; [done|]. eapply Forall_impl; [exact Ht|]. intros t. apply token_no_space.
  - split; [|by intros ->]. destruct (keyword_tokens_v2 text) as [|t l]; [done|].
    apply Forall_cons in Ht as [[Hne _]%token_no_space _]. by destruct t, l.
Qed.
