(* ===== verification/Batches.v ===== *)
(** * Batches: a list cut into slices, and answers filed by their index

    [slice::chunks] with the sizes of its slices, and the loop that files the answers of a
    provider by the index they carry (a vector of empty slots, each filled at most once).  The
    clients of the model providers and the plan of the derived jobs share them. *)
From S2P Require Import Prelude.

Open Scope nat_scope.

(** ** The slices of a list *)

(** [a.div_ceil(b)] *)
Definition div_ceil (a b : nat) : nat := (a + b - 1) / b.

(** [l.chunks(n)] for [n > 0]. *)
Fixpoint slice_chunks {A} (fuel n : nat) (l : list A) : list (list A) :=
  match fuel, l with
  | S fuel, _ :: _ => take n l :: slice_chunks fuel n (drop n l)
  | _, _ => []
  end.

Definition chunks_of {A} (n : nat) (l : list A) : list (list A) := slice_chunks (length l) n l.

Section chunks.
Context {A : Type} (n : nat) (Hn : 0 < n).

Lemma slice_chunks_concat fuel (l : list A) : length l <= fuel -> concat (slice_chunks fuel n l) = l.
Proof.
  revert l. induction fuel as [|fuel IH]; intros [|x l] H; cbn [slice_chunks concat length] in *; try done; [lia|].
  rewrite IH; [apply take_drop|]. rewrite length_drop. cbn. lia.
Qed.

Lemma slice_chunks_lookup fuel (l : list A) i :
  length l <= fuel ->
  slice_chunks fuel n l !! i = if i * n <? length l then Some (take n (drop (i * n) l)) else None.
Proof.
  revert l i. induction fuel as [|fuel IH]; intros [|x l] i H; cbn [slice_chunks length] in *; try lia;
    try by rewrite lookup_nil, (proj2 (Nat.ltb_ge _ _)) by (cbn; lia).
  destruct i as [|i]; [done|]. etrans; [apply (IH (drop n (x :: l)) i); rewrite length_drop; cbn; lia|].
  rewrite drop_drop, length_drop. cbn [length].
  replace (S i * n) with (n + i * n) by lia.
  destruct (Nat.ltb_spec (i * n) (S (length l) - n)), (Nat.ltb_spec (n + i * n) (S (length l))); done || lia.
Qed.

Lemma chunks_of_concat (l : list A) : concat (chunks_of n l) = l.
Proof. by apply slice_chunks_concat. Qed.

Lemma chunks_of_lookup (l : list A) i :
  chunks_of n l !! i = if i * n <? length l then Some (take n (drop (i * n) l)) else None.
Proof. by apply slice_chunks_lookup. Qed.

Lemma chunks_of_bounds (l c : list A) : c ∈ chunks_of n l -> 0 < length c <= n.
Proof.
  intros (i & Hi)%list_elem_of_lookup. rewrite chunks_of_lookup in Hi.
  destruct (Nat.ltb_spec (i * n) (length l)); simplify_eq. rewrite length_take, length_drop. lia.
Qed.

Lemma chunks_of_length (l : list A) : length (chunks_of n l) = div_ceil (length l) n.
Proof.
  unfold div_ceil. set (q := (length l + n - 1) / n).
  assert (Hq : n * q <= length l + n - 1 < n * (S q)).
  { split; [by apply Nat.Div0.mul_div_le|]. apply Nat.mul_succ_div_gt. lia. }
  apply Nat.le_antisymm; apply Nat.nlt_ge; intros H.
  - apply lookup_lt_is_Some in H as [c Hc]. rewrite chunks_of_lookup in Hc.
    destruct (Nat.ltb_spec (q * n) (length l)); [nia|done].
  - assert (Hn' : chunks_of n l !! length (chunks_of n l) = None) by (by apply lookup_ge_None).
    rewrite chunks_of_lookup in Hn'.
    destruct (Nat.ltb_spec (length (chunks_of n l) * n) (length l)); [done|nia].
Qed.
End chunks.

(** ** Answers filed by index *)

Definition is_filled {A} (slot : option (option A)) : bool := match slot with Some (Some _) => true | _ => false end.

Section slots.
Context {E V A : Type} (read : V -> result E A) (bad_index : E).

(** An index out of range or used before is an error; the value is read and takes its slot. *)
Definition slot_step (count : nat) (slots : list (option A)) (answer : nat * V) : result E (list (option A)) :=
  let '(index, value) := answer in
  _ ← reject_if ((count <=? index) || is_filled (slots !! index)) bad_index;
  a ← read value;
  Ok (<[index := Some a]> slots).

Definition fill_slots (count : nat) (answers : list (nat * V)) : result E (list (option A)) :=
  foldR (slot_step count) (replicate count None) answers.

Lemma slot_step_ok n slots i v slots' :
  slot_step n slots (i, v) = Ok slots' ->
  exists a, i < n /\ (forall o, slots !! i = Some o -> o = None) /\ read v = Ok a /\ slots' = <[i := Some a]> slots.
Proof.
  unfold slot_step. intros (u & [E1%Nat.leb_gt E2]%reject_if_Ok%orb_false_iff & H)%bind_Ok. revert H.
  intros (a & Ha & [= <-])%bind_Ok. exists a. repeat split; try done.
  intros o Ho. rewrite Ho in E2. by destruct o.
Qed.

(** The loop visits distinct indices and stores what it read for each. *)
Lemma slot_loop n l : forall slots slots',
  length slots = n -> foldR (slot_step n) slots l = Ok slots' ->
  length slots' = n /\ NoDup l.*1
  /\ (forall i v, (i, v) ∈ l ->
       i < n /\ slots !! i = Some None /\ exists a, read v = Ok a /\ slots' !! i = Some (Some a))
  /\ (forall i, i ∉ l.*1 -> slots' !! i = slots !! i).
Proof.
  induction l as [|[i v] l IH]; intros slots slots' Hl; cbn [foldR].
  { intros [= <-]. split; [done|]. split; [constructor|]. split; [|done]. intros ? ? H. by apply elem_of_nil in H. }
  intros (slots1 & (a & Hi & Hnone & Ha & ->)%slot_step_ok & H)%bind_Ok.
  destruct (IH (<[i := Some a]> slots) slots') as (H1 & H2 & H3 & H4); [by rewrite length_insert|done|].
  assert (slots !! i = Some None) as Hsc.
  { destruct (lookup_lt_is_Some_2 slots i) as [o Ho]; [lia|]. by rewrite Ho, (Hnone o Ho). }
  assert (i ∉ l.*1) as Hni.
  { intros ([j w] & E0 & Hin)%list_elem_of_fmap. cbn in E0. subst j. destruct (H3 _ _ Hin) as (_ & Hx & _).
    rewrite list_lookup_insert_eq in Hx by lia. done. }
  split; [done|]. split; [by constructor|]. split.
  - intros j w [[= -> ->]|Hin]%elem_of_cons.
    + split; [done|]. split; [done|]. exists a. split; [done|]. rewrite H4 by done.
      by rewrite list_lookup_insert_eq by lia.
    + destruct (H3 _ _ Hin) as (Hj & Hx & Hy). split; [done|]. split; [|done].
      rewrite list_lookup_insert_ne in Hx; [done|]. intros ->. apply Hni, list_elem_of_fmap. by exists (j, w).
  - intros j [Hji Hj]%not_elem_of_cons. rewrite H4 by done. by rewrite list_lookup_insert_ne by done.
Qed.

(** Distinct positions below [n], as many as there are, are all of them. *)
Lemma nodup_seq (l : list nat) n :
  NoDup l -> length l = n -> (forall i, i ∈ l -> i < n) -> l ≡ₚ seq 0 n.
Proof.
  intros Hnd Hl Hi. apply submseteq_length_Permutation.
  - apply NoDup_submseteq; [done|]. intros i H%Hi. apply elem_of_seq. lia.
  - rewrite length_seq. lia.
Qed.

(** As many answers as slots: every slot is filled, by the answer that carries its index. *)
Lemma fill_slots_all n answers slots :
  length answers = n -> fill_slots n answers = Ok slots ->
  answers.*1 ≡ₚ seq 0 n
  /\ exists out, mapM id slots = Some out /\ length out = n
  /\ (forall i v, (i, v) ∈ answers -> exists a, read v = Ok a /\ out !! i = Some a)
  /\ (forall i a, out !! i = Some a -> exists v, (i, v) ∈ answers /\ read v = Ok a).
Proof.
  intros Hl (L & Hnd & Hin & _)%slot_loop; [|by rewrite length_replicate].
  assert (answers.*1 ≡ₚ seq 0 n) as Hperm.
  { apply nodup_seq; [done|by rewrite length_fmap|]. intros i ([j v] & -> & Hj)%list_elem_of_fmap. by apply (Hin _ _ Hj). }
  split; [done|].
  assert (forall i, i < n -> exists v a, (i, v) ∈ answers /\ read v = Ok a /\ slots !! i = Some (Some a)) as Hall.
  { intros i Hi. assert (i ∈ answers.*1) as ([j v] & E0 & Hv)%list_elem_of_fmap by (rewrite Hperm, elem_of_seq; lia).
    cbn in E0. subst j. destruct (Hin _ _ Hv) as (_ & _ & a & Ha & Hs). by exists v, a. }
  destruct (mapM_is_Some_2 id slots) as [out Hout].
  { apply Forall_lookup. intros i o Ho. destruct (Hall i) as (v & a & _ & _ & Hs).
    - apply lookup_lt_Some in Ho. lia.
    - rewrite Ho in Hs. injection Hs as ->. by exists a. }
  exists out. split; [done|]. apply mapM_Some in Hout. pose proof (Forall2_length _ _ _ Hout) as L2.
  assert (forall i a, slots !! i = Some (Some a) -> out !! i = Some a) as Hget.
  { intros i a Hs. destruct (Forall2_lookup_l _ _ _ _ _ Hout Hs) as (a' & Ha' & E0). cbn in E0. by injection E0 as ->. }
  split; [lia|]. split.
  - intros i v Hv. destruct (Hin _ _ Hv) as (_ & _ & a & Ha & Hs). exists a. auto.
  - intros i a Ha. destruct (Hall i) as (v & a' & Hv & Hr & Hs); [apply lookup_lt_Some in Ha; lia|].
    apply Hget in Hs. exists v. split; [done|]. congruence.
Qed.

(** Answers for every slot that can all be read are accepted. *)
Lemma slot_loop_complete n l : forall slots,
  length slots = n -> NoDup l.*1 ->
  (forall i v, (i, v) ∈ l -> i < n /\ slots !! i = Some None /\ exists a, read v = Ok a) ->
  exists slots', foldR (slot_step n) slots l = Ok slots'.
Proof.
  induction l as [|[i v] l IH]; intros slots Hl Hnd Hin; [by exists slots|].
  apply NoDup_cons in Hnd as [Hni Hnd].
  destruct (Hin i v) as (Hi & Hs & a & Ha); [by left|].
  assert (slot_step n slots (i, v) = Ok (<[i := Some a]> slots)) as E0.
  { unfold slot_step. rewrite (proj2 (Nat.leb_gt _ _) Hi), Hs, Ha. done. }
  cbn [foldR]. rewrite E0. cbn [mbind result_bind]. apply IH; [by rewrite length_insert|done|].
  intros j w Hj. destruct (Hin j w) as (Hjn & Hjs & Hw); [by right|]. split; [done|]. split; [|done].
  rewrite list_lookup_insert_ne; [done|]. intros ->. apply Hni, list_elem_of_fmap. by exists (j, w).
Qed.

Lemma fill_slots_complete n answers :
  answers.*1 ≡ₚ seq 0 n -> (forall i v, (i, v) ∈ answers -> exists a, read v = Ok a) ->
  exists slots, fill_slots n answers = Ok slots.
Proof.
  intros Hp Hr. apply slot_loop_complete; [by rewrite length_replicate|rewrite Hp; apply NoDup_seq|].
  intros i v Hv. assert (i < n) as Hi.
  { assert (i ∈ answers.*1) as H by (apply list_elem_of_fmap; by exists (i, v)). rewrite Hp, elem_of_seq in H. lia. }
  split; [done|]. split; [by apply lookup_replicate|]. by eapply Hr.
Qed.

End slots.
