(* ===== verification/Policy.v ===== *)
(** * [crates/knowledge/src/knowledge_retrieval.rs]: the immutable retrieval artifacts

    The embedding and rerank revisions, the retrieval policy and the frozen identity of a
    request, with the validators that every use of an artifact goes through and the digests
    of their canonical bytes.  JSON ([serde_json] and its canonicalizer) and SHA-256 are
    parameters; numbers are [N] below the bound of their width. *)
From S2P Require Import Prelude RustStr StrReplace.

Local Open Scope N_scope.

(** ** The identities the code supports *)

Definition KNOWLEDGE_EVIDENCE_CONTRACT_V2 : str := u8"knowledge-evidence-v2".
Definition RETRIEVAL_POLICY_SCHEMA_V2 : N := 2.
Definition EMBEDDING_REVISION_SCHEMA_V2 : N := 2.
Definition RERANK_REVISION_SCHEMA_V2 : N := 2.

Definition EMBEDDING_PROVIDER_PROTOCOL_VERSION_V2 : str := u8"openai-compatible-embeddings-json-v1".
Definition EMBEDDING_DIMENSION_V2 : N := 1024.
Definition EMBEDDING_REQUEST_CONFIG_SHA256_V2 : str :=
  u8"a2ccbf02dc959b101e69f85df1b494ae0852065383e1e88e2a1c5a4bd09f40cb".
Definition EMBEDDING_OUTPUT_NORMALIZATION_VERSION_V2 : str := u8"finite-vector-no-client-normalization-v1".
Definition RERANK_REQUEST_CONFIG_SHA256_V2 : str :=
  u8"21c0ee51fa4df1a5e436fab5e5df6ab851c2f6ebfcf115c86d77b40f40bf02f1".
Definition EMBEDDING_PROVIDER_MODEL_IDENTIFIER_MAX_BYTES : nat := 256%nat.

Definition RETRIEVAL_POLICY_MAX_TOP_K : N := 1000000.
Definition RETRIEVAL_POLICY_MAX_TIMEOUT_MS : N := 3600000.
Definition RETRIEVAL_POLICY_MAX_HITS : N := 1000000.
Definition RETRIEVAL_POLICY_MAX_CHUNK_BYTES : N := 1073741824.
Definition RETRIEVAL_POLICY_MAX_TOTAL_BYTES : N := 1099511627776.
Definition RETRIEVAL_POLICY_MAX_RRF_K : N := 1000000.
Definition RETRIEVAL_POLICY_MAX_WEIGHT_MILLIONTHS : N := 1000000000.
Definition MILLIONTHS_ONE : N := 1000000.

Definition RETRIEVAL_NORMALIZATION_VERSION_V2 : str := u8"unicode-whitespace-lowercase-v1".
Definition RETRIEVAL_TRUSTED_SOURCE_TYPES_V2 : list str := [u8"text"; u8"parent_text"; u8"image_ocr"].
Definition RETRIEVAL_A_PRIMARY_COMPARATOR_V2 : list str :=
  [u8"chunk_byte_length ASC"; u8"document_id ASC"; u8"source_chunk_id ASC"].
Definition RETRIEVAL_A_VERSION_COMPARATOR_V2 : list str :=
  [u8"product_id ASC"; u8"product_version_id ASC"].
Definition RETRIEVAL_B_EXACT_COMPARATOR_V2 : list str :=
  [u8"product_id ASC"; u8"product_version_id ASC"; u8"chunk_byte_length ASC"; u8"document_id ASC";
   u8"source_chunk_id ASC"].
Definition RETRIEVAL_C_SEMANTIC_COMPARATOR_V2 : list str :=
  [u8"normalized_rerank_score DESC"; u8"pre_rerank_rrf_rank ASC"; u8"complete_source_identity ASC"].
Definition RETRIEVAL_SOURCE_FOLDING_VERSION_V2 : str := u8"unique-live-trusted-source-v1".
Definition RETRIEVAL_CHANNEL_SCORE_QUANTIZATION_VERSION_V2 : str := u8"floor-unit-interval-millionths-v1".
Definition RETRIEVAL_CHANNEL_RANK_COMPARATOR_V2 : list str :=
  [u8"score_millionths DESC"; u8"complete_signal_identity ASC"].
Definition RETRIEVAL_PRE_RERANK_RRF_COMPARATOR_V2 : list str :=
  [u8"exact_rrf_score DESC"; u8"vector_rank ASC NULLS LAST"; u8"keyword_rank ASC NULLS LAST";
   u8"product_id ASC"; u8"product_version_id ASC"; u8"document_id ASC"; u8"source_chunk_id ASC"].
Definition RETRIEVAL_RRF_SCORE_REPRESENTATION_VERSION_V2 : str := u8"reduced-u128-rational-v1".
Definition RETRIEVAL_QUOTA_SEMANTICS_VERSION_V2 : str := u8"fair-exact-prefix-fail-closed-v1".
Definition RETRIEVAL_KEYWORD_TOKENIZER_V2 : str := u8"latin-numeric-cjk-bigram".
Definition RETRIEVAL_KEYWORD_TOKENIZER_VERSION_V2 : str := u8"v1".
Definition RETRIEVAL_KEYWORD_SCORE_VERSION_V2 : str := u8"postgres-ts-rank-cd-normalization32-millionths-v1".
Definition RETRIEVAL_EMBEDDING_POLICY_V2 : str := u8"declared-version-model".
Definition RETRIEVAL_EMBEDDING_POLICY_VERSION_V2 : str := u8"v1".
Definition RETRIEVAL_EMBEDDING_SIMILARITY_VERSION_V2 : str := u8"pgvector-cosine-clamp-zero-one-millionths-v1".
Definition RETRIEVAL_RERANK_PROTOCOL_VERSION_V2 : str := u8"indexed-json-v1".
Definition RETRIEVAL_RERANK_SCORE_NORMALIZATION_VERSION_V2 : str := u8"unit-interval-millionths-v1".

(** ** The artifacts *)

(** What a request carries of the policy ([RetrievalPolicyIdentityV1]). *)
Record RetrievalPolicyIdentityV1 := {
  contract_version : str; policy_sha256 : str;
  max_hits : N; max_chunk_bytes : N; max_total_bytes : N;
}.

Record EmbeddingRevisionV2 := {
  em_schema_version : N; em_provider_protocol_version : str; em_provider_model_identifier : str;
  em_provider_model_revision_sha256 : str; em_endpoint_config_sha256 : str; em_endpoint_identity : str;
  em_dimension : N; em_request_config_sha256 : str; em_output_normalization_version : str;
}.

Record RerankRevisionV2 := {
  rr_schema_version : N; rr_provider_protocol_version : str; rr_provider_model_identifier : str;
  rr_provider_model_revision_sha256 : str; rr_config_revision_sha256 : str; rr_endpoint_identity : str;
  rr_request_config_sha256 : str; rr_score_normalization_version : str;
}.

Record RetrievalRankingPolicyV2 := {
  a_primary_comparator : list str; a_version_comparator : list str; b_exact_comparator : list str;
  c_semantic_comparator : list str; source_folding_version : str; channel_score_quantization_version : str;
  channel_rank_comparator : list str; pre_rerank_rrf_comparator : list str; quota_semantics_version : str;
}.

Record RetrievalKeywordPolicyV2 := {
  kw_tokenizer : str; kw_tokenizer_version : str; kw_score_version : str;
  kw_top_k : N; kw_threshold_millionths : N;
}.

Record RetrievalEmbeddingPolicyV2 := {
  ep_policy : str; ep_policy_version : str; ep_similarity_version : str; ep_model_revision_sha256 : str;
  ep_top_k : N; ep_threshold_millionths : N;
}.

Record RetrievalRrfPolicyV2 := {
  rrf_k : N; keyword_weight_millionths : N; vector_weight_millionths : N;
  score_representation_version : str;
}.

Record RetrievalRerankPolicyV2 := {
  rp_provider_protocol_version : str; rp_revision_sha256 : str; rp_model_revision_sha256 : str;
  rp_config_revision_sha256 : str; rp_top_k : N; rp_timeout_ms : N; rp_score_normalization_version : str;
}.

Record RetrievalRequestQuotasV2 := { rq_max_hits : N; rq_max_chunk_bytes : N; rq_max_total_bytes : N }.

Record RetrievalPolicyV2 := {
  pol_schema_version : N; pol_contract_version : str; pol_normalization_version : str;
  trusted_source_types : list str; ranking : RetrievalRankingPolicyV2; keyword : RetrievalKeywordPolicyV2;
  embedding : RetrievalEmbeddingPolicyV2; rrf : RetrievalRrfPolicyV2; rerank : RetrievalRerankPolicyV2;
  request_quotas : RetrievalRequestQuotasV2;
}.

Record FrozenRetrievalPolicyIdentityV1 := {
  fz_schema_version : N; fz_policy_sha256 : str; canonical_policy_utf8 : str; fz_contract_version : str;
  fz_mode : str; fz_max_hits : N; fz_max_chunk_bytes : N; fz_max_total_bytes : N;
  embedding_revision_sha256 : str; canonical_embedding_revision_utf8 : str; embedding_credential_ref : str;
  rerank_revision_sha256 : str; canonical_rerank_revision_utf8 : str; rerank_credential_ref : str;
  fz_product_version_ids : list N; fz_library_version_ids : list N; eligible_scope_sha256 : str;
}.

Inductive EmbeddingRevisionV2Error := EmbeddingInvalid (m : str) | EmbeddingSerialization (m : str).
Inductive RerankRevisionV2Error := RerankInvalid (m : str) | RerankSerialization (m : str).
Inductive RetrievalPolicyV2Error := PolicyInvalid (m : str) | PolicySerialization (m : str).

(** [error.to_string()] *)
Definition show_embedding_error (e : EmbeddingRevisionV2Error) : str :=
  match e with
  | EmbeddingInvalid m => u8"invalid embedding revision v2: " ++ m
  | EmbeddingSerialization m => u8"failed to serialize embedding revision v2: " ++ m
  end.
Definition show_rerank_error (e : RerankRevisionV2Error) : str :=
  match e with
  | RerankInvalid m => u8"invalid rerank revision v2: " ++ m
  | RerankSerialization m => u8"failed to serialize rerank revision v2: " ++ m
  end.
Definition show_policy_error (e : RetrievalPolicyV2Error) : str :=
  match e with
  | PolicyInvalid m => u8"invalid retrieval policy v2: " ++ m
  | PolicySerialization m => u8"failed to serialize retrieval policy v2: " ++ m
  end.

(** [r.map_err(f)] *)
Definition map_err {E F A} (f : E -> F) (r : result E A) : result F A :=
  match r with Ok a => Ok a | Err e => Err (f e) end.

(** ** Validators of the parts *)

Definition invalid_embedding_revision (message : str) : EmbeddingRevisionV2Error := EmbeddingInvalid message.
Definition invalid_policy (message : str) : RetrievalPolicyV2Error := PolicyInvalid message.

Definition is_sha256_hex (value : str) : bool :=
  (blen value =? 64)%nat && forallb (fun b => is_ascii_hexdigit b && negb (is_ascii_uppercase b)) (as_bytes value).

Definition validate_embedding_sha256 (label value : str) : result EmbeddingRevisionV2Error unit :=
  reject_if (negb (is_sha256_hex value))
    (invalid_embedding_revision (label ++ u8" must be a lowercase SHA-256 digest")).

(** [s.parse::<u32>().unwrap_or_default()] and [s.parse::<u16>()]. *)
Definition parse_u32_or_default (s : str) : N :=
  match parse_usize s with Some n => if n <? 4294967296 then n else 0 | None => 0 end.
Definition parse_u16 (s : str) : option N :=
  n ← parse_usize s; if n <? 65536 then Some n else None.

Definition DASH : char := 45%Z.
Definition is_leap_year (year : N) : bool :=
  (year mod 4 =? 0) && (negb (year mod 100 =? 0) || (year mod 400 =? 0)).

(** The [match] on the month; [None] is its early return. *)
Definition days_in_month (month : N) (leap_year : bool) : option N :=
  if existsb (N.eqb month) [1; 3; 5; 7; 8; 10; 12] then Some 31
  else if existsb (N.eqb month) [4; 6; 9; 11] then Some 30
  else if month =? 2 then Some (if leap_year then 29 else 28)
  else None.

(** The check of the bytes; the three slices exist, for all bytes are ASCII. *)
Definition date_shape (value : str) : bool :=
  let bytes := as_bytes value in
  (length bytes =? 10)%nat && bool_decide (bytes !! 4%nat = Some DASH) && bool_decide (bytes !! 7%nat = Some DASH)
  && forallb (fun '(i, b) => (i =? 4)%nat || (i =? 7)%nat || is_ascii_digit b) (imap pair bytes).

Definition is_real_iso_date (value : str) : bool :=
  if negb (date_shape value) then false
  else
    let year := parse_u32_or_default (default [] (slice value 0 4)) in
    let month := parse_u32_or_default (default [] (slice value 5 7)) in
    let day := parse_u32_or_default (default [] (slice value 8 10)) in
    match days_in_month month (is_leap_year year) with
    | None => false
    | Some days => negb (year =? 0) && ((1 <=? day) && (day <=? days))
    end.

Definition C_AT : char := 64%Z.
Definition C_DOT : char := 46%Z.
Definition C_COLON : char := 58%Z.
Definition C_SLASH : char := 47%Z.

Definition model_base_byte (b : Z) : bool :=
  is_ascii_alphanumeric b || (b =? C_DOT)%Z || (b =? 95)%Z || (b =? C_SLASH)%Z || (b =? DASH)%Z.

Definition validate_provider_model_identifier (value : str) : result EmbeddingRevisionV2Error unit :=
  _ ← reject_if (str_is_empty value || (EMBEDDING_PROVIDER_MODEL_IDENTIFIER_MAX_BYTES <? blen value)%nat)
        (invalid_embedding_revision (u8"provider_model_identifier must be a bounded pinned identifier"));
  '(model_base, revision) ← ok_or (split_once C_AT value)
        (invalid_embedding_revision (u8"provider_model_identifier must use <model-base>@<revision>"));
  _ ← reject_if (str_is_empty model_base || str_is_empty revision
                 || existsb (fun b => negb (model_base_byte b)) (as_bytes model_base))
        (invalid_embedding_revision (u8"provider_model_identifier has an invalid model base"));
  match strip_prefix revision (u8"sha256:") with
  | Some digest => validate_embedding_sha256 (u8"provider_model_identifier revision") digest
  | None =>
    reject_if (negb (is_real_iso_date revision))
      (invalid_embedding_revision
         (u8"provider_model_identifier revision must be a real YYYY-MM-DD date or sha256 digest"))
  end.

Definition HTTPS : str := u8"https://".
Definition lower_or_digit (b : Z) : bool := is_ascii_lowercase b || is_ascii_digit b.

Definition valid_dns_label (label : str) : bool :=
  let bytes := as_bytes label in
  negb (bool_decide (bytes = []))
  && match head bytes with Some b => lower_or_digit b | None => false end
  && match last bytes with Some b => lower_or_digit b | None => false end
  && forallb (fun b => lower_or_digit b || (b =? DASH)%Z) bytes.

Definition path_byte (b : Z) : bool :=
  is_ascii_alphanumeric b || (b =? C_DOT)%Z || (b =? 95)%Z || (b =? 126)%Z || (b =? DASH)%Z.
Definition bad_segment (segment : str) : bool :=
  str_is_empty segment || str_eqb segment (u8".") || str_eqb segment (u8"..")
  || negb (forallb path_byte (as_bytes segment)).

Definition E_PORT : EmbeddingRevisionV2Error :=
  invalid_embedding_revision (u8"endpoint_identity has an invalid port").

Definition validate_port (port : str) : result EmbeddingRevisionV2Error unit :=
  _ ← reject_if (str_is_empty port || starts_with port (u8"0") || negb (forallb is_ascii_digit (as_bytes port))) E_PORT;
  parsed ← ok_or (parse_u16 port) E_PORT;
  reject_if (parsed =? 443) (invalid_embedding_revision (u8"endpoint_identity has a noncanonical port")).

Definition validate_endpoint_identity (value : str) : result EmbeddingRevisionV2Error unit :=
  remainder ← ok_or (strip_prefix value HTTPS)
                (invalid_embedding_revision (u8"endpoint_identity must use lowercase https"));
  let '(authority, path) := default (remainder, []) (split_once C_SLASH remainder) in
  let '(host, port) := match rsplit_once C_COLON authority with
                       | Some (host, port) => (host, Some port)
                       | None => (authority, None)
                       end in
  _ ← reject_if (str_is_empty host || (1 <? length (List.filter (fun b => (b =? C_COLON)%Z) (as_bytes authority)))%nat
                 || negb (forallb valid_dns_label (split_char C_DOT host)))
        (invalid_embedding_revision (u8"endpoint_identity must use a canonical lowercase DNS host"));
  _ ← match port with Some port => validate_port port | None => Ok tt end;
  _ ← reject_if (negb (str_is_empty path) && existsb bad_segment (split_char C_SLASH path))
        (invalid_embedding_revision (u8"endpoint_identity has a noncanonical path"));
  reject_if (ends_with remainder (u8"/"))
    (invalid_embedding_revision (u8"endpoint_identity must not have a trailing slash")).

Definition validate_supported_identity (label value supported : str) : result RetrievalPolicyV2Error unit :=
  reject_if (negb (str_eqb value supported))
    (invalid_policy (label ++ u8" must use the supported identity " ++ supported)).

Definition validate_supported_values (label : str) (values supported : list str)
    : result RetrievalPolicyV2Error unit :=
  reject_if (negb (length values =? length supported)%nat || negb (bool_decide (values = supported)))
    (invalid_policy (label ++ u8" must use the supported canonical values in order")).

Definition validate_sha256 (label value : str) : result RetrievalPolicyV2Error unit :=
  reject_if (negb (blen value =? 64)%nat
             || negb (forallb (fun b => is_ascii_digit b || ((97 <=? b) && (b <=? 102)))%Z (as_bytes value)))
    (invalid_policy (label ++ u8" must be a lowercase 64-hex digest")).

Definition validate_top_k (label : str) (value : N) : result RetrievalPolicyV2Error unit :=
  reject_if ((value =? 0) || (RETRIEVAL_POLICY_MAX_TOP_K <? value))
    (invalid_policy (label ++ u8" is outside the supported range")).
Definition validate_threshold (label : str) (value : N) : result RetrievalPolicyV2Error unit :=
  reject_if (MILLIONTHS_ONE <? value) (invalid_policy (label ++ u8" must be between 0 and 1_000_000")).
Definition validate_weight (label : str) (value : N) : result RetrievalPolicyV2Error unit :=
  reject_if ((value =? 0) || (RETRIEVAL_POLICY_MAX_WEIGHT_MILLIONTHS <? value))
    (invalid_policy (label ++ u8" is outside the supported range")).

(** ** Validators of the artifacts *)

Definition validate_embedding_revision (r : EmbeddingRevisionV2) : result EmbeddingRevisionV2Error unit :=
  _ ← reject_if (negb (em_schema_version r =? EMBEDDING_REVISION_SCHEMA_V2))
        (invalid_embedding_revision (u8"schema_version must be 2"));
  _ ← reject_if (negb (str_eqb (em_provider_protocol_version r) EMBEDDING_PROVIDER_PROTOCOL_VERSION_V2))
        (invalid_embedding_revision (u8"provider_protocol_version is unsupported"));
  _ ← validate_provider_model_identifier (em_provider_model_identifier r);
  _ ← validate_embedding_sha256 (u8"provider_model_revision_sha256") (em_provider_model_revision_sha256 r);
  _ ← validate_embedding_sha256 (u8"endpoint_config_sha256") (em_endpoint_config_sha256 r);
  _ ← validate_endpoint_identity (em_endpoint_identity r);
  _ ← reject_if (negb (em_dimension r =? EMBEDDING_DIMENSION_V2))
        (invalid_embedding_revision (u8"dimension must be 1024"));
  _ ← reject_if (negb (str_eqb (em_request_config_sha256 r) EMBEDDING_REQUEST_CONFIG_SHA256_V2))
        (invalid_embedding_revision (u8"request_config_sha256 must identify indexed-array-input-v1"));
  reject_if (negb (str_eqb (em_output_normalization_version r) EMBEDDING_OUTPUT_NORMALIZATION_VERSION_V2))
    (invalid_embedding_revision (u8"output_normalization_version is unsupported")).

Definition as_rerank_error (e : EmbeddingRevisionV2Error) : RerankRevisionV2Error :=
  RerankInvalid (show_embedding_error e).

Definition validate_rerank_revision (r : RerankRevisionV2) : result RerankRevisionV2Error unit :=
  _ ← reject_if (negb (rr_schema_version r =? RERANK_REVISION_SCHEMA_V2))
        (RerankInvalid (u8"schema_version must be 2"));
  _ ← reject_if (negb (str_eqb (rr_provider_protocol_version r) RETRIEVAL_RERANK_PROTOCOL_VERSION_V2))
        (RerankInvalid (u8"provider_protocol_version is unsupported"));
  _ ← map_err as_rerank_error (validate_provider_model_identifier (rr_provider_model_identifier r));
  _ ← foldR (fun (_ : unit) '(label, value) => map_err as_rerank_error (validate_embedding_sha256 label value)) tt
        [(u8"provider_model_revision_sha256", rr_provider_model_revision_sha256 r);
         (u8"config_revision_sha256", rr_config_revision_sha256 r)];
  _ ← map_err as_rerank_error (validate_endpoint_identity (rr_endpoint_identity r));
  _ ← reject_if (negb (str_eqb (rr_request_config_sha256 r) RERANK_REQUEST_CONFIG_SHA256_V2))
        (RerankInvalid (u8"request_config_sha256 must identify indexed-query-documents-v1"));
  reject_if (negb (str_eqb (rr_score_normalization_version r) RETRIEVAL_RERANK_SCORE_NORMALIZATION_VERSION_V2))
    (RerankInvalid (u8"score_normalization_version is unsupported")).

Definition validate_ranking (r : RetrievalRankingPolicyV2) : result RetrievalPolicyV2Error unit :=
  _ ← validate_supported_values (u8"ranking.a_primary_comparator") (a_primary_comparator r)
        RETRIEVAL_A_PRIMARY_COMPARATOR_V2;
  _ ← validate_supported_values (u8"ranking.a_version_comparator") (a_version_comparator r)
        RETRIEVAL_A_VERSION_COMPARATOR_V2;
  _ ← validate_supported_values (u8"ranking.b_exact_comparator") (b_exact_comparator r)
        RETRIEVAL_B_EXACT_COMPARATOR_V2;
  _ ← validate_supported_values (u8"ranking.c_semantic_comparator") (c_semantic_comparator r)
        RETRIEVAL_C_SEMANTIC_COMPARATOR_V2;
  _ ← validate_supported_identity (u8"ranking.source_folding_version") (source_folding_version r)
        RETRIEVAL_SOURCE_FOLDING_VERSION_V2;
  _ ← validate_supported_identity (u8"ranking.channel_score_quantization_version")
        (channel_score_quantization_version r) RETRIEVAL_CHANNEL_SCORE_QUANTIZATION_VERSION_V2;
  _ ← validate_supported_values (u8"ranking.channel_rank_comparator") (channel_rank_comparator r)
        RETRIEVAL_CHANNEL_RANK_COMPARATOR_V2;
  _ ← validate_supported_values (u8"ranking.pre_rerank_rrf_comparator") (pre_rerank_rrf_comparator r)
        RETRIEVAL_PRE_RERANK_RRF_COMPARATOR_V2;
  validate_supported_identity (u8"ranking.quota_semantics_version") (quota_semantics_version r)
    RETRIEVAL_QUOTA_SEMANTICS_VERSION_V2.

Definition validate_keyword (k : RetrievalKeywordPolicyV2) : result RetrievalPolicyV2Error unit :=
  _ ← validate_supported_identity (u8"keyword.tokenizer") (kw_tokenizer k) RETRIEVAL_KEYWORD_TOKENIZER_V2;
  _ ← validate_supported_identity (u8"keyword.tokenizer_version") (kw_tokenizer_version k)
        RETRIEVAL_KEYWORD_TOKENIZER_VERSION_V2;
  _ ← validate_supported_identity (u8"keyword.score_version") (kw_score_version k)
        RETRIEVAL_KEYWORD_SCORE_VERSION_V2;
  _ ← validate_top_k (u8"keyword.top_k") (kw_top_k k);
  validate_threshold (u8"keyword.threshold_millionths") (kw_threshold_millionths k).

Definition validate_embedding (e : RetrievalEmbeddingPolicyV2) : result RetrievalPolicyV2Error unit :=
  _ ← validate_supported_identity (u8"embedding.policy") (ep_policy e) RETRIEVAL_EMBEDDING_POLICY_V2;
  _ ← validate_supported_identity (u8"embedding.policy_version") (ep_policy_version e)
        RETRIEVAL_EMBEDDING_POLICY_VERSION_V2;
  _ ← validate_supported_identity (u8"embedding.similarity_version") (ep_similarity_version e)
        RETRIEVAL_EMBEDDING_SIMILARITY_VERSION_V2;
  _ ← validate_sha256 (u8"embedding.model_revision_sha256") (ep_model_revision_sha256 e);
  _ ← validate_top_k (u8"embedding.top_k") (ep_top_k e);
  validate_threshold (u8"embedding.threshold_millionths") (ep_threshold_millionths e).

Definition validate_rrf (r : RetrievalRrfPolicyV2) : result RetrievalPolicyV2Error unit :=
  _ ← reject_if ((rrf_k r =? 0) || (RETRIEVAL_POLICY_MAX_RRF_K <? rrf_k r))
        (invalid_policy (u8"rrf.k is outside the supported range"));
  _ ← validate_weight (u8"rrf.keyword_weight_millionths") (keyword_weight_millionths r);
  _ ← validate_weight (u8"rrf.vector_weight_millionths") (vector_weight_millionths r);
  validate_supported_identity (u8"rrf.score_representation_version") (score_representation_version r)
    RETRIEVAL_RRF_SCORE_REPRESENTATION_VERSION_V2.

Definition validate_rerank (r : RetrievalRerankPolicyV2) : result RetrievalPolicyV2Error unit :=
  _ ← validate_supported_identity (u8"rerank.provider_protocol_version") (rp_provider_protocol_version r)
        RETRIEVAL_RERANK_PROTOCOL_VERSION_V2;
  _ ← validate_sha256 (u8"rerank.revision_sha256") (rp_revision_sha256 r);
  _ ← validate_sha256 (u8"rerank.model_revision_sha256") (rp_model_revision_sha256 r);
  _ ← validate_sha256 (u8"rerank.config_revision_sha256") (rp_config_revision_sha256 r);
  _ ← validate_top_k (u8"rerank.top_k") (rp_top_k r);
  _ ← reject_if ((rp_timeout_ms r =? 0) || (RETRIEVAL_POLICY_MAX_TIMEOUT_MS <? rp_timeout_ms r))
        (invalid_policy (u8"rerank.timeout_ms is outside the supported range"));
  validate_supported_identity (u8"rerank.score_normalization_version") (rp_score_normalization_version r)
    RETRIEVAL_RERANK_SCORE_NORMALIZATION_VERSION_V2.

Definition validate_quotas (q : RetrievalRequestQuotasV2) : result RetrievalPolicyV2Error unit :=
  reject_if ((rq_max_hits q =? 0) || (RETRIEVAL_POLICY_MAX_HITS <? rq_max_hits q)
             || (rq_max_chunk_bytes q =? 0) || (RETRIEVAL_POLICY_MAX_CHUNK_BYTES <? rq_max_chunk_bytes q)
             || (rq_max_total_bytes q =? 0) || (RETRIEVAL_POLICY_MAX_TOTAL_BYTES <? rq_max_total_bytes q))
    (invalid_policy (u8"request quotas are outside the supported range")).

Definition validate_policy (p : RetrievalPolicyV2) : result RetrievalPolicyV2Error unit :=
  _ ← reject_if (negb (pol_schema_version p =? RETRIEVAL_POLICY_SCHEMA_V2))
        (invalid_policy (u8"schema_version must be 2"));
  _ ← reject_if (negb (str_eqb (pol_contract_version p) KNOWLEDGE_EVIDENCE_CONTRACT_V2))
        (invalid_policy (u8"contract_version must be knowledge-evidence-v2"));
  _ ← validate_supported_identity (u8"normalization_version") (pol_normalization_version p)
        RETRIEVAL_NORMALIZATION_VERSION_V2;
  _ ← validate_supported_values (u8"trusted_source_types") (trusted_source_types p)
        RETRIEVAL_TRUSTED_SOURCE_TYPES_V2;
  _ ← validate_ranking (ranking p);
  _ ← validate_keyword (keyword p);
  _ ← validate_embedding (embedding p);
  _ ← validate_rrf (rrf p);
  _ ← validate_rerank (rerank p);
  validate_quotas (request_quotas p).

(** ** Canonical bytes, digests and the frozen identity *)

Section artifacts.

(** [hex::encode(Sha256::digest(_))], and [serde_json] for the artifacts. *)
Context (sha256_hex : list Z -> str).
Context (embedding_json : EmbeddingRevisionV2 -> result str (list Z)).
Context (rerank_json : RerankRevisionV2 -> result str (list Z)).
Context (policy_json : RetrievalPolicyV2 -> result str (list Z)).

Definition embedding_canonical_bytes (r : EmbeddingRevisionV2) : result EmbeddingRevisionV2Error (list Z) :=
  _ ← validate_embedding_revision r; map_err EmbeddingSerialization (embedding_json r).
Definition embedding_sha256 (r : EmbeddingRevisionV2) : result EmbeddingRevisionV2Error str :=
  bytes ← embedding_canonical_bytes r; Ok (sha256_hex bytes).

Definition rerank_canonical_bytes (r : RerankRevisionV2) : result RerankRevisionV2Error (list Z) :=
  _ ← validate_rerank_revision r; map_err RerankSerialization (rerank_json r).
Definition rerank_sha256 (r : RerankRevisionV2) : result RerankRevisionV2Error str :=
  bytes ← rerank_canonical_bytes r; Ok (sha256_hex bytes).

Definition policy_canonical_bytes (p : RetrievalPolicyV2) : result RetrievalPolicyV2Error (list Z) :=
  _ ← validate_policy p; map_err PolicySerialization (policy_json p).
Definition retrieval_policy_sha256 (p : RetrievalPolicyV2) : result RetrievalPolicyV2Error str :=
  bytes ← policy_canonical_bytes p; Ok (sha256_hex bytes).

Definition request_identity (p : RetrievalPolicyV2) : result RetrievalPolicyV2Error RetrievalPolicyIdentityV1 :=
  digest ← retrieval_policy_sha256 p;
  Ok {| contract_version := pol_contract_version p; policy_sha256 := digest;
        max_hits := rq_max_hits (request_quotas p);
        max_chunk_bytes := rq_max_chunk_bytes (request_quotas p);
        max_total_bytes := rq_max_total_bytes (request_quotas p) |}.

(** The readers of the artifacts, and RFC 8785 ([serde_json_canonicalizer]) for the frozen
    identity and for the eligible scope. *)
Context (parse_policy : str -> result str RetrievalPolicyV2).
Context (parse_embedding : str -> result str EmbeddingRevisionV2).
Context (parse_rerank : str -> result str RerankRevisionV2).
Context (parse_frozen : list Z -> result str FrozenRetrievalPolicyIdentityV1).
Context (frozen_jcs : FrozenRetrievalPolicyIdentityV1 -> result str (list Z)).
Context (scope_jcs : list N -> list N -> result str (list Z)).

Definition frozen_canonical_bytes_and_sha256 (f : FrozenRetrievalPolicyIdentityV1) : result str (list Z * str) :=
  bytes ← map_err (app (u8"frozen retrieval identity JCS: ")) (frozen_jcs f);
  Ok (bytes, sha256_hex bytes).

Definition from_canonical_bytes (bytes : list Z) : result str FrozenRetrievalPolicyIdentityV1 :=
  value ← map_err (app (u8"frozen retrieval identity JSON: ")) (parse_frozen bytes);
  '(canonical, _) ← frozen_canonical_bytes_and_sha256 value;
  _ ← reject_if (negb (bool_decide (canonical = bytes)))
        (u8"CONTENT_RETRIEVAL_DIGEST_MISMATCH: frozen retrieval identity is not RFC8785 JCS");
  Ok value.

Definition eligible_scope_sha256_for (product_version_ids library_version_ids : list N) : result str str :=
  bytes ← map_err (app (u8"eligible scope JCS: ")) (scope_jcs library_version_ids product_version_ids);
  Ok (sha256_hex bytes).

(** [ids.windows(2).any(|pair| pair[0] >= pair[1])] *)
Fixpoint unsorted_pair (ids : list N) : bool :=
  match ids with
  | a :: (b :: _) as rest => (b <=? a) || unsorted_pair rest
  | _ => false
  end.

Definition INVALID_POLICY : str := u8"CONTENT_RETRIEVAL_INVALID_POLICY: ".
Definition DIGEST_MISMATCH : str := u8"CONTENT_RETRIEVAL_DIGEST_MISMATCH: ".

Definition frozen_validate (f : FrozenRetrievalPolicyIdentityV1) : result str RetrievalPolicyIdentityV1 :=
  _ ← reject_if (negb (fz_schema_version f =? 1) || negb (str_eqb (fz_mode f) (u8"exact")))
        (INVALID_POLICY ++ u8"invalid frozen retrieval identity");
  policy ← map_err (fun e => INVALID_POLICY ++ u8"policy JSON: " ++ e) (parse_policy (canonical_policy_utf8 f));
  _ ← map_err (fun e => INVALID_POLICY ++ show_policy_error e) (validate_policy policy);
  digest ← map_err show_policy_error (retrieval_policy_sha256 policy);
  _ ← reject_if (negb (str_eqb digest (fz_policy_sha256 f))
                 || negb (str_eqb (pol_contract_version policy) (fz_contract_version f))
                 || negb (rq_max_hits (request_quotas policy) =? fz_max_hits f)
                 || negb (rq_max_chunk_bytes (request_quotas policy) =? fz_max_chunk_bytes f)
                 || negb (rq_max_total_bytes (request_quotas policy) =? fz_max_total_bytes f))
        (DIGEST_MISMATCH ++ u8"frozen policy identity mismatch");
  revision ← map_err (fun e => INVALID_POLICY ++ u8"embedding JSON: " ++ e)
                (parse_embedding (canonical_embedding_revision_utf8 f));
  digest ← map_err show_embedding_error (embedding_sha256 revision);
  _ ← reject_if (negb (str_eqb digest (embedding_revision_sha256 f))
                 || negb (str_eqb (embedding_revision_sha256 f) (ep_model_revision_sha256 (embedding policy)))
                 || str_is_empty (embedding_credential_ref f))
        (DIGEST_MISMATCH ++ u8"embedding identity mismatch");
  revision ← map_err (fun e => INVALID_POLICY ++ u8"rerank JSON: " ++ e)
                (parse_rerank (canonical_rerank_revision_utf8 f));
  digest ← map_err show_rerank_error (rerank_sha256 revision);
  _ ← reject_if (negb (str_eqb digest (rerank_revision_sha256 f))
                 || negb (str_eqb (rerank_revision_sha256 f) (rp_revision_sha256 (rerank policy)))
                 || str_is_empty (rerank_credential_ref f))
        (DIGEST_MISMATCH ++ u8"rerank identity mismatch");
  _ ← reject_if (unsorted_pair (fz_product_version_ids f) || unsorted_pair (fz_library_version_ids f))
        (DIGEST_MISMATCH ++ u8"eligible scope mismatch");
  scope ← eligible_scope_sha256_for (fz_product_version_ids f) (fz_library_version_ids f);
  _ ← reject_if (negb (str_eqb scope (eligible_scope_sha256 f)))
        (DIGEST_MISMATCH ++ u8"eligible scope mismatch");
  Ok {| contract_version := fz_contract_version f; policy_sha256 := fz_policy_sha256 f;
        max_hits := fz_max_hits f; max_chunk_bytes := fz_max_chunk_bytes f; max_total_bytes := fz_max_total_bytes f |}.

End artifacts.
