(* ===== verification/SourceContract.v ===== *)
(** * [crates/docparser/src/source_contract.rs]

    The sidecar of a parsed document: identity of its units, their physical places, and the
    byte ranges of the rendered Markdown they produced.  SHA-256 is an external crate and a
    parameter: [sha256_hex b] is the lower-case hex digest of the bytes [b]. *)
From S2P Require Import Prelude RustStr RustFloat SourceTypes TableGrid StrReplace.

Class Sha256 := { sha256_hex : list Z -> str }.

Definition E_PREFIX : str := u8"DocReader source contract: ".
Definition invalid (message : str) : str := E_PREFIX ++ message.

(** ** The digest of a grid *)

(** [n.to_be_bytes()] of a [k]-byte integer. *)
Fixpoint be_bytes (k : nat) (n : Z) : list Z :=
  match k with
  | 0 => []
  | S k' => (n / 256 ^ Z.of_nat k' mod 256)%Z :: be_bytes k' n
  end.

(** [x.to_bits()]; the payload of a NaN is not represented, the quiet one is used. *)
Definition f64_bits (x : f64) : Z :=
  let sign (s : bool) : Z := if s then (2 ^ 63)%Z else 0%Z in
  match x with
  | S754_zero s => sign s
  | S754_infinity s => (sign s + 2047 * 2 ^ 52)%Z
  | S754_nan => (2047 * 2 ^ 52 + 2 ^ 51)%Z
  | S754_finite s m e =>
    if (Zpos m <? 2 ^ 52)%Z then (sign s + Zpos m)%Z
    else (sign s + (e + 1075) * 2 ^ 52 + (Zpos m - 2 ^ 52))%Z
  end.

Definition GRID_MAGIC : list Z := as_bytes (u8"docreader-grid-v2") ++ [0%Z].

Definition cell_frame (c : PdfTableCell) : list Z :=
  be_bytes 4 (row c) ++ be_bytes 4 (column c) ++ be_bytes 4 (row_span c) ++ be_bytes 4 (col_span c)
  ++ be_bytes 8 (Z.of_nat (blen (cell_text c))) ++ as_bytes (cell_text c).

(** The bytes that [table_grid_digest] feeds to the digest, in order. *)
Definition grid_frame (g : TableGrid) : list Z :=
  let widths := default [] (widths_mm g) in
  GRID_MAGIC ++ be_bytes 4 (row_count g) ++ be_bytes 4 (column_count g)
  ++ be_bytes 4 (Z.of_nat (length (cells g)))
  ++ concat (map cell_frame (sort_by anchor_before (cells g)))
  ++ be_bytes 4 (Z.of_nat (length widths))
  ++ concat (map (fun w => be_bytes 8 (f64_bits w)) widths).

(** ** Glyph normalisations *)

(** The font name without a subset tag of six capitals. *)
Definition strip_subset_tag (font : str) : str :=
  match split_once 43 font with
  | Some (prefix, rest) =>
    if (blen prefix =? 6) && forallb is_ascii_uppercase (as_bytes prefix) then rest else font
  | None => font
  end.

Definition font_family (font : str) : str :=
  let name := strip_subset_tag font in
  map to_ascii_lowercase
    (List.filter (fun c => negb (c =? SP)%Z) (default name (head (split_char 44 name)))).

Definition supported_symbol (glyph : GlyphNormalization) : bool :=
  bool_decide ((raw_symbol glyph, normalized_symbol glyph, glyph_name glyph)
               = ([61522%Z], u8"☑", u8"boxcheck"))
  || bool_decide ((raw_symbol glyph, normalized_symbol glyph, glyph_name glyph)
                  = ([61603%Z], u8"□", u8"box1")).

Definition glyph_outside (glyph : GlyphNormalization) : bool :=
  existsb (fun v => negb (f64_is_finite v))
    [gn_left glyph; gn_bottom glyph; gn_right glyph; gn_top glyph; page_width glyph; page_height glyph]
  || f64_le (page_width glyph) f64_zero || f64_le (page_height glyph) f64_zero
  || f64_lt (gn_left glyph) f64_zero || f64_lt (gn_bottom glyph) f64_zero
  || f64_lt (gn_right glyph) (gn_left glyph) || f64_lt (gn_top glyph) (gn_bottom glyph)
  || f64_lt (page_width glyph) (gn_right glyph) || f64_lt (page_height glyph) (gn_top glyph).

Definition E_GLYPH : str := invalid (u8"unverified font symbol normalization or physical location").

Definition check_glyph (pages : nat) (seen : gset (Z * Z)) (glyph : GlyphNormalization)
    : result str (gset (Z * Z)) :=
  let place := (gn_page_ordinal glyph, char_index glyph) in
  _ ← reject_if
        (negb (bool_decide (font_family (font_name glyph) = u8"wingdings2"))
         || negb (supported_symbol glyph)
         || negb (blen (font_sha256 glyph) =? 64)
         || negb (forallb is_ascii_hexdigit (as_bytes (font_sha256 glyph)))
         || (Z.of_nat pages <=? gn_page_ordinal glyph)%Z
         || bool_decide (place ∈ seen)
         || glyph_outside glyph) E_GLYPH;
  Ok ({[ place ]} ∪ seen).

Definition validate_glyph_normalizations (contract : SourceContract) : result str unit :=
  _ ← foldR (check_glyph (length (page_manifest contract))) ∅ (glyph_normalizations contract);
  Ok tt.

(** ** Validation *)

Definition physical_page (l : StructuredSourceLocator) : option Z :=
  match l with
  | LPage page_ordinal _ _ _ _ => Some page_ordinal
  | LPageTable page_ordinal _ _ _ _ _ => Some page_ordinal
  | LImage _ _ _ _ page_ordinal _ _ _ _ _ => page_ordinal
  | _ => None
  end.

(** [SourceContract::unit] *)
Definition contract_unit (contract : SourceContract) (id : str) : option SourceUnitIdentity :=
  List.find (fun u => str_eqb (unit_id u) id) (units contract).

Definition E_VERSION : str :=
  invalid (u8"version, source identity, rendering digest or unit count mismatch").
Definition E_UNIT : str := invalid (u8"invalid unit identity, ordinal or completeness").
Definition E_LOCATION : str := invalid (u8"missing physical location without explanation").
Definition E_CARRIER : str := invalid (u8"physical locator differs from native carrier").
Definition E_SPAN : str := invalid (u8"invalid UTF-8 rendered span").
Definition E_TABLE : str := invalid (u8"table identity differs from native grid").
Definition E_HEADER : str := invalid (u8"header must reference a real grid anchor").
Definition E_PAGE_ORDER : str := invalid (u8"invalid physical page manifest order or class").
Definition E_PAGE_UNKNOWN : str := invalid (u8"unknown page unit").
Definition E_PAGE_UNIT : str := invalid (u8"page/unit physical location mismatch").
Definition E_PAGE_IMAGE : str := invalid (u8"page image ownership mismatch").
Definition E_PAGE_OMITS : str := invalid (u8"page manifest omits source units").
Definition E_PAGE_COUNT : str := invalid (u8"invalid page count").
Definition E_PAGE_COVERAGE : str := invalid (u8"physical page coverage incomplete").
Definition E_CUT : str := invalid (u8"image replacement cuts a rendered span boundary").
Definition E_SPAN_OVERFLOW : str := invalid (u8"rendered span overflow").

Definition COLUMN_HEADER : str := u8"column_header".
Definition ROW_HEADER : str := u8"row_header".
Definition PAGE_CLASSES : list str := [u8"text"; u8"scanned"; u8"blank"].
Definition PAGE_COUNT_KEY : str := u8"page_count".

Definition is_blank_str (s : str) : bool := str_is_empty (trim s).

Definition is_document (l : StructuredSourceLocator) : bool :=
  match l with LDocument _ _ _ _ _ => true | _ => false end.

(** One rendered span after the end of the one before. *)
Definition check_span (md : str) (prior_end : nat) (span : RenderedSpan) : result str nat :=
  _ ← reject_if
        ((end_byte span <=? start_byte span)
         || (start_byte span <? prior_end)
         || (blen md <? end_byte span)
         || negb (is_char_boundary md (start_byte span))
         || negb (is_char_boundary md (end_byte span))) E_SPAN;
  Ok (end_byte span).

Definition check_header (u : StructuredSourceUnit) (_ : unit) (header : TableHeaderCell)
    : result str unit :=
  reject_if
    (negb (str_eqb (role header) COLUMN_HEADER || str_eqb (role header) ROW_HEADER)
     || negb (match grid u with
              | None => false
              | Some g => existsb (fun cell => (row cell =? h_row header)
                                               && (column cell =? h_column header))%Z (cells g)
              end)) E_HEADER.

Section contract.
Context `{Sha256}.

Definition table_grid_digest (g : TableGrid) : str := sha256_hex (grid_frame g).

Definition unit_fault (identities : gset str) (n : nat) (identity : SourceUnitIdentity)
    (u : StructuredSourceUnit) : bool :=
  negb (str_eqb (unit_id identity) (key u))
  || str_is_empty (key u)
  || negb (ordinal identity =? Z.of_nat n)%Z
  || negb (u_ordinal u =? Z.of_nat n)%Z
  || negb (bool_decide (kind identity = u_kind u))
  || negb (str_eqb (text_sha256 identity) (sha256_hex (as_bytes (text u))))
  || negb (bool_decide (grid_sha256 identity = (table_grid_digest <$> grid u)))
  || bool_decide (key u ∈ identities)
  || xorb (bool_decide (completeness identity = Complete))
          (match reasons identity with [] => true | _ => false end)
  || existsb is_blank_str (reasons identity)
  || match heading_level identity with Some level => (level =? 0)%Z | None => false end
  || match parent_section_id identity with
     | Some parent => bool_decide (Some parent = section_id identity)
     | None => false
     end.

Definition check_unit (md : str) (st : gset str * nat)
    (pair : SourceUnitIdentity * StructuredSourceUnit) : result str (gset str * nat) :=
  let '(identities, n) := st in
  let '(identity, u) := pair in
  _ ← reject_if (unit_fault identities n identity u) E_UNIT;
  _ ← reject_if
        (negb (bool_decide (is_Some (physical_locator identity)))
         && negb (match physical_locator_unavailable_reason identity with
                  | Some reason => negb (is_blank_str reason)
                  | None => false
                  end)) E_LOCATION;
  _ ← reject_if
        (negb (is_document (locator u))
         && negb (opt_eqb locator_eqb (physical_locator identity) (Some (locator u)))) E_CARRIER;
  _ ← foldR (check_span md) 0 (rendered_spans identity);
  _ ← reject_if
        (xorb (bool_decide (is_Some (grid u))) (bool_decide (is_Some (table_id identity)))
         || match table_id identity with
            | Some table => negb (str_eqb table (key u))
            | None => false
            end) E_TABLE;
  _ ← match grid u with
      | None => Ok tt
      | Some g => match validate_table_grid g with
                  | Ok _ => Ok tt
                  | Err e => Err (invalid e)
                  end
      end;
  _ ← foldR (check_header u) tt (header_cells identity);
  Ok ({[ key u ]} ∪ identities, S n).

Definition unit_index_of (us : list SourceUnitIdentity) : gmap str SourceUnitIdentity :=
  foldl (fun m u => <[unit_id u := u]> m) ∅ us.

Definition check_page_unit (index : gmap str SourceUnitIdentity) (page : SourcePage)
    (st : gset str * gset str) (k : str) : result str (gset str * gset str) :=
  let '(page_ids, covered) := st in
  u ← ok_or (index !! k) E_PAGE_UNKNOWN;
  _ ← reject_if
        (bool_decide (k ∈ page_ids) || bool_decide (k ∈ covered)
         || negb (bool_decide ((physical_locator u ≫= physical_page)
                               = Some (sp_page_ordinal page)))) E_PAGE_UNIT;
  Ok ({[ k ]} ∪ page_ids, {[ k ]} ∪ covered).

Definition is_image_unit (index : gmap str SourceUnitIdentity) (k : str) : bool :=
  match index !! k with Some u => bool_decide (kind u = ImageRegion) | None => false end.

Definition check_page (index : gmap str SourceUnitIdentity) (st : gset str * nat)
    (page : SourcePage) : result str (gset str * nat) :=
  let '(covered, n) := st in
  _ ← reject_if
        (negb (sp_page_ordinal page =? Z.of_nat n)%Z
         || negb (existsb (str_eqb (classification page)) PAGE_CLASSES)) E_PAGE_ORDER;
  '(_, covered) ← foldR (check_page_unit index page) (∅, covered) (unit_ids page);
  let expected_images : gset str :=
    list_to_set (List.filter (is_image_unit index) (unit_ids page)) in
  let actual_images : gset str := list_to_set (image_unit_ids page) in
  _ ← reject_if
        (negb (bool_decide (expected_images = actual_images))
         || negb (size actual_images =? length (image_unit_ids page))) E_PAGE_IMAGE;
  Ok (covered, S n).

Definition contract_validate (contract : SourceContract) (parsed : ReadResult)
    : result str unit :=
  _ ← validate_glyph_normalizations contract;
  _ ← reject_if
        (negb (schema_version contract =? 2)%Z
         || negb (blen (document_revision contract) =? 64)
         || negb (forallb is_ascii_hexdigit (as_bytes (document_revision contract)))
         || is_blank_str (parser_version contract)
         || negb (str_eqb (markdown_sha256 contract) (sha256_hex (as_bytes (markdown parsed))))
         || negb (length (units contract) =? length (structured_source_units parsed))) E_VERSION;
  _ ← foldR (check_unit (markdown parsed)) (∅, 0)
        (zip (units contract) (structured_source_units parsed));
  '(covered, _) ← foldR (check_page (unit_index_of (units contract))) (∅, 0)
                    (page_manifest contract);
  _ ← reject_if
        (match page_manifest contract with [] => false | _ => true end
         && negb (size covered =? length (units contract))) E_PAGE_OMITS;
  match metadata parsed !! PAGE_COUNT_KEY with
  | None => Ok tt
  | Some raw =>
    count ← ok_or (parse_usize raw) E_PAGE_COUNT;
    reject_if (negb (count =? N.of_nat (length (page_manifest contract)))%N) E_PAGE_COVERAGE
  end.

(** ** Replacement in the rendered Markdown *)

(** The new place of a byte offset, from the matched ranges. *)
Fixpoint shift_adjustment (ranges : list (nat * nat)) (offset : nat) (delta adjustment : Z)
    : result str Z :=
  match ranges with
  | [] => Ok adjustment
  | (s, e) :: ranges' =>
    if (s <? offset) && (offset <? e) then Err E_CUT
    else shift_adjustment ranges' offset delta
           (if e <=? offset then (adjustment + delta)%Z else adjustment)
  end.

Definition shift (ranges : list (nat * nat)) (from to : str) (offset : nat) : result str nat :=
  adjustment ← shift_adjustment ranges offset (Z.of_nat (blen to) - Z.of_nat (blen from))%Z 0%Z;
  let z := (Z.of_nat offset + adjustment)%Z in
  if ((0 <=? z) && (z <? Z.of_N usize_modulus))%Z then Ok (Z.to_nat z) else Err E_SPAN_OVERFLOW.

Fixpoint shift_spans (f : nat -> result str nat) (spans : list RenderedSpan)
    : result str (list RenderedSpan) :=
  match spans with
  | [] => Ok []
  | span :: spans' =>
    s ← f (start_byte span);
    e ← f (end_byte span);
    rest ← shift_spans f spans';
    Ok ({| start_byte := s; end_byte := e |} :: rest)
  end.

Definition with_spans (u : SourceUnitIdentity) (spans : list RenderedSpan) : SourceUnitIdentity :=
  {| unit_id := unit_id u; ordinal := ordinal u; kind := kind u; text_sha256 := text_sha256 u;
     grid_sha256 := grid_sha256 u; section_id := section_id u;
     parent_section_id := parent_section_id u; heading_level := heading_level u;
     heading_path_ := heading_path_ u; physical_locator := physical_locator u;
     physical_path := physical_path u;
     physical_locator_unavailable_reason := physical_locator_unavailable_reason u;
     rendered_spans := spans; completeness := completeness u; reasons := reasons u;
     table_id := table_id u; header_cells := header_cells u |}.

Fixpoint shift_units (f : nat -> result str nat) (us : list SourceUnitIdentity)
    : result str (list SourceUnitIdentity) :=
  match us with
  | [] => Ok []
  | u :: us' =>
    spans ← shift_spans f (rendered_spans u);
    rest ← shift_units f us';
    Ok (with_spans u spans :: rest)
  end.

(** The contract and the Markdown after the replacement; on an error neither changes. *)
Definition replace_rendered (contract : SourceContract) (md from to : str)
    : result str (SourceContract * str) :=
  if str_is_empty from || str_eqb from to then Ok (contract, md)
  else
    match match_indices md from with
    | [] => Ok (contract, md)
    | ranges =>
      updated ← shift_units (shift ranges from to) (units contract);
      let md' := replace md from to in
      Ok ({| schema_version := schema_version contract;
             document_revision := document_revision contract;
             parser_version := parser_version contract;
             markdown_sha256 := sha256_hex (as_bytes md');
             units := updated; page_manifest := page_manifest contract;
             glyph_normalizations := glyph_normalizations contract |}, md')
    end.

(** [serde_json::from_str] is an external crate: [from_json] reads the sidecar. *)
Definition parse_source_contract (from_json : str -> option SourceContract)
    (parsed : ReadResult) : result str (option SourceContract) :=
  match metadata parsed !! (u8"source_contract") with
  | None => Ok None
  | Some raw =>
    contract ← ok_or (from_json raw) (invalid (u8"malformed V2 sidecar"));
    _ ← contract_validate contract parsed;
    Ok (Some contract)
  end.
End contract.
