(* ===== verification/ContractFacts.v ===== *)
(** * What the source contract guarantees

    Lemmas and properties of [SourceContract.v]: a validated contract identifies the parsed
    units and its pages partition them; a replacement in the Markdown moves every rendered
    span to exactly the text that replaced its own. *)
From S2P Require Import Prelude RustStr RustFloat SourceTypes TableGrid StrReplace SourceContract.

(** ** Lemmas: shifting offsets *)

Section shift.
Context (from to : str) (Hfrom : from <> []).

Lemma shift_adjustment_spec ranges o delta adj z :
  shift_adjustment ranges o delta adj = Ok z <->
  clean_cut ranges o
  /\ z = (adj + delta * Z.of_nat (length (List.filter (fun m => (m.2 <=? o)%nat) ranges)))%Z.
Proof.
  revert adj. induction ranges as [|[s e] ranges IH]; intros adj; cbn [shift_adjustment].
  - simpl. split; [intros [= <-]; split; [constructor|lia]|intros [_ ->]; f_equal; lia].
  - unfold clean_cut. rewrite Forall_cons. cbn [fst snd].
    destruct (_ && _) eqn:E.
    + bool_to_prop. split; [done|]. intros [[Hn _] _]. lia.
    + rewrite andb_false_iff, !Nat.ltb_ge in E. rewrite IH. cbn [List.filter snd].
      destruct (Nat.leb_spec e o); cbn [length]; (split; [intros [? ->]|intros [[? ?] ->]]);
        (split; [try split; try done; try lia|lia]).
Qed.

(** In a string cut at a clean place the matches before the cut are those of the prefix. *)
Lemma matches_before (p r : str) :
  clean_cut (match_indices (p ++ r) from) (blen p) ->
  length (List.filter (fun m => (m.2 <=? blen p)%nat) (match_indices (p ++ r) from))
  = length (match_indices p from).
Proof.
  intros Hc. destruct (cut_at from [] p r Hfrom Hc) as [-> _].
  rewrite List.filter_app, length_app.
  pose proof (match_ranges_bounds from p 0 0) as Hp.
  pose proof (match_ranges_bounds from r 0 (blen p)) as Hr.
  assert (blen from <> 0) by (intros Hz; by apply Hfrom, blen_nil_inv).
  fold (match_indices p from) in Hp. rewrite <- (Nat.add_0_r (length (match_indices p from))). f_equal.
  - f_equal. induction Hp as [|m l (_ & _ & Hm) Hp IH]; simpl; [done|].
    rewrite IH. destruct (Nat.leb_spec m.2 (blen p)); [done|]. lia.
  - induction Hr as [|m l (Hm1 & Hm2 & _) Hr IH]; simpl; [done|].
    destruct (Nat.leb_spec m.2 (blen p)); [lia|done].
Qed.

Lemma shift_spec p r o :
  shift (match_indices (p ++ r) from) from to (blen p) = Ok o <->
  clean_cut (match_indices (p ++ r) from) (blen p)
  /\ o = blen (replace p from to) /\ (N.of_nat o < usize_modulus)%N.
Proof.
  unfold shift. rewrite bind_Ok.
  assert (clean_cut (match_indices (p ++ r) from) (blen p) ->
    (Z.of_nat (blen p) + (0 + (Z.of_nat (blen to) - Z.of_nat (blen from))
      * Z.of_nat (length (List.filter (fun m => (m.2 <=? blen p)%nat) (match_indices (p ++ r) from)))))%Z
    = Z.of_nat (blen (replace p from to))) as Hval.
  { intros Hc. rewrite matches_before by done. unfold replace, match_indices.
    rewrite (replace_from_blen from Hfrom to p 0 0) by lia. rewrite drop_0. lia. }
  split.
  - intros (z & (Hc & ->)%shift_adjustment_spec & Hz). cbv zeta in Hz. rewrite Hval in Hz by done.
    destruct (_ && _) eqn:E; [|done]. injection Hz as <-. bool_to_prop. split_and!; [done|lia|lia].
  - intros (Hc & -> & Ho). eexists. split; [apply shift_adjustment_spec; split; [done|reflexivity]|].
    cbv zeta. rewrite Hval by done. destruct (_ && _) eqn:E; [f_equal; lia|].
    rewrite andb_false_iff, Z.leb_gt, Z.ltb_ge in E. lia.
Qed.

(** A span cut out cleanly at both ends, before and after the replacement. *)
Lemma span_replaced (p m r : str) :
  clean_cut (match_indices (p ++ m ++ r) from) (blen p) ->
  clean_cut (match_indices (p ++ m ++ r) from) (blen (p ++ m)) ->
  replace (p ++ m) from to = replace p from to ++ replace m from to
  /\ replace (p ++ m ++ r) from to
     = replace p from to ++ replace m from to ++ replace r from to.
Proof.
  intros H1 H2. rewrite app_assoc in *.
  destruct (cut_at from to (p ++ m) r Hfrom H2) as [Hm ->].
  assert (clean_cut (match_indices (p ++ m) from) (blen p)) as H3.
  { unfold clean_cut in *. rewrite Hm in H1. by apply Forall_app in H1 as [? _]. }
  destruct (cut_at from to p m Hfrom H3) as [_ ->]. by rewrite app_assoc.
Qed.
End shift.

Lemma replace_from_self (pat s : str) : pat <> [] -> forall skip, skip <= length s ->
  take skip s ++ replace_from pat pat s skip = s.
Proof.
  intros Hp. induction s as [|c s IH]; intros skip Hs.
  - simpl in Hs. by assert (skip = 0) as -> by lia.
  - destruct skip as [|k]; [|simpl; f_equal; apply IH; simpl in Hs; lia].
    cbn [replace_from]. destruct (starts_with (c :: s) pat) eqn:E.
    + apply starts_with_spec in E as (q & Hq). destruct pat as [|x pat']; [done|].
      injection Hq as <- Hq. rewrite take_0. simpl. f_equal. rewrite Nat.sub_0_r.
      rewrite <- (IH (length pat')) at 2 by (rewrite Hq, length_app; lia).
      f_equal. rewrite Hq. by rewrite take_app_length.
    + simpl. f_equal. apply (IH 0). lia.
Qed.

Lemma replace_self (pat s : str) : pat <> [] -> replace s pat pat = s.
Proof. intros Hp. apply (replace_from_self pat s Hp 0). lia. Qed.

Lemma replace_no_match (pat to s : str) : forall skip pos,
  match_ranges pat s skip pos = [] -> replace_from pat to s skip = drop skip s.
Proof.
  induction s as [|c s IH]; intros skip pos; [by destruct skip|].
  cbn [match_ranges replace_from]. destruct skip as [|k]; [|apply IH].
  destruct (starts_with (c :: s) pat); [done|]. intros Hm. rewrite (IH 0 _ Hm). by rewrite drop_0.
Qed.

(** ** Lemmas: shifting the units *)

(** What a replacement does to one span: its text is replaced, and so is its place. *)
Definition span_follows (from to md md' : str) (s s' : RenderedSpan) : Prop :=
  exists m, slice md (start_byte s) (end_byte s) = Some m
            /\ slice md' (start_byte s') (end_byte s') = Some (replace m from to).

Definition spans_in (md : str) (u : SourceUnitIdentity) : Prop :=
  Forall (fun s => is_Some (slice md (start_byte s) (end_byte s))) (rendered_spans u).

(** No match of the replaced text lies across an end of a span. *)
Definition no_straddle (from md : str) (s : RenderedSpan) : Prop :=
  clean_cut (match_indices md from) (start_byte s) /\ clean_cut (match_indices md from) (end_byte s).

Section shift_units.
Context (from to md : str) (Hfrom : from <> []).

Local Abbreviation md' := (replace md from to) (only parsing).
Local Abbreviation move := (shift (match_indices md from) from to) (only parsing).

Lemma shift_span s s' :
  is_Some (slice md (start_byte s) (end_byte s)) ->
  move (start_byte s) = Ok (start_byte s') -> move (end_byte s) = Ok (end_byte s') ->
  span_follows from to md md' s s'.
Proof.
  intros [m Hm] H1 H2. exists m. split; [done|].
  apply slice_Some in Hm as (p & r & -> & Hs & He). rewrite <- Hs, <- He in *.
  rewrite <- blen_app in H2.
  apply (shift_spec from to Hfrom p (m ++ r)) in H1 as (Hc1 & -> & _).
  rewrite app_assoc in H2. apply (shift_spec from to Hfrom (p ++ m) r) in H2 as (Hc2 & -> & _).
  rewrite <- app_assoc in Hc2.
  destruct (span_replaced from to Hfrom p m r Hc1 Hc2) as [-> ->].
  rewrite blen_app. apply slice_middle.
Qed.

Lemma shift_spans_follow spans spans' :
  Forall (fun s => is_Some (slice md (start_byte s) (end_byte s))) spans ->
  shift_spans move spans = Ok spans' -> Forall2 (span_follows from to md md') spans spans'.
Proof.
  intros Hall. revert spans'. induction Hall as [|s spans Hs Hall IH]; intros spans'; cbn [shift_spans].
  - intros [= <-]. constructor.
  - intros Hf. apply bind_Ok in Hf as (a & Ha & Hf). apply bind_Ok in Hf as (b & Hb & Hf).
    apply bind_Ok in Hf as (rest & Hrest & [= <-]).
    constructor; [by apply shift_span|by apply IH].
Qed.

Lemma shift_units_follow us us' :
  Forall (spans_in md) us -> shift_units move us = Ok us' ->
  Forall2 (fun u u' => u' = with_spans u (rendered_spans u')
    /\ Forall2 (span_follows from to md md') (rendered_spans u) (rendered_spans u')) us us'.
Proof.
  intros Hall. revert us'. induction Hall as [|u us Hu Hall IH]; intros us'; cbn [shift_units].
  - intros [= <-]. constructor.
  - intros Hf. apply bind_Ok in Hf as (spans & Hs & Hf). apply bind_Ok in Hf as (rest & Hrest & [= <-]).
    constructor; [|by apply IH]. split; [done|]. by apply shift_spans_follow.
Qed.

(** On an offset in the text the shift fails only on a straddling match. *)
Lemma shift_Ok_iff o :
  (N.of_nat (blen md') < usize_modulus)%N -> is_char_boundary md o = true ->
  (exists o', move o = Ok o') <-> clean_cut (match_indices md from) o.
Proof.
  intros Hsz (p & r & -> & <-)%is_char_boundary_spec. split.
  - intros (o' & (Hc & _)%shift_spec); [done|done].
  - intros Hc. eexists. apply shift_spec; [done|]. split_and!; [done|reflexivity|].
    destruct (cut_at from to p r Hfrom Hc) as [_ Hr]. rewrite Hr, blen_app in Hsz. lia.
Qed.

Lemma slice_boundaries s a b : is_Some (slice s a b) ->
  is_char_boundary s a = true /\ is_char_boundary s b = true.
Proof.
  intros [m (p & r & -> & <- & <-)%slice_Some]. split; apply is_char_boundary_spec.
  - by exists p, (m ++ r).
  - exists (p ++ m), r. by rewrite <- app_assoc, blen_app.
Qed.

Lemma shift_spans_Ok_iff spans :
  (N.of_nat (blen md') < usize_modulus)%N ->
  Forall (fun s => is_Some (slice md (start_byte s) (end_byte s))) spans ->
  (exists spans', shift_spans move spans = Ok spans') <-> Forall (no_straddle from md) spans.
Proof.
  intros Hsz Hall. induction Hall as [|s spans Hs Hall IH]; cbn [shift_spans].
  - split; [constructor|]. intros _. by exists [].
  - apply slice_boundaries in Hs as [Hb1 Hb2]. rewrite Forall_cons, <- IH. unfold no_straddle.
    rewrite <- (shift_Ok_iff _ Hsz Hb1), <- (shift_Ok_iff _ Hsz Hb2). split.
    + intros (spans' & Hf). apply bind_Ok in Hf as (a & Ha & Hf). apply bind_Ok in Hf as (b & Hb & Hf).
      apply bind_Ok in Hf as (rest & Hrest & _). split_and!; by eexists.
    + intros [[[a Ha] [b Hb]] [rest Hrest]]. eexists. rewrite bind_Ok. eexists. split; [exact Ha|].
      rewrite bind_Ok. eexists. split; [exact Hb|]. rewrite bind_Ok. eexists. split; [exact Hrest|reflexivity].
Qed.

Lemma shift_units_Ok_iff us :
  (N.of_nat (blen md') < usize_modulus)%N -> Forall (spans_in md) us ->
  (exists us', shift_units move us = Ok us') <->
  Forall (fun u => Forall (no_straddle from md) (rendered_spans u)) us.
Proof.
  intros Hsz Hall. induction Hall as [|u us Hu Hall IH]; cbn [shift_units].
  - split; [constructor|]. intros _. by exists [].
  - rewrite Forall_cons, <- IH, <- (shift_spans_Ok_iff _ Hsz Hu). split.
    + intros (us' & Hf). apply bind_Ok in Hf as (a & Ha & Hf). apply bind_Ok in Hf as (rest & Hrest & _).
      split; by eexists.
    + intros [[a Ha] [rest Hrest]]. eexists. rewrite bind_Ok. eexists. split; [exact Ha|].
      rewrite bind_Ok. eexists. split; [exact Hrest|reflexivity].
Qed.
End shift_units.

Lemma Forall2_diag {A} (P : A -> A -> Prop) l : (forall x, x ∈ l -> P x x) -> Forall2 P l l.
Proof.
  induction l as [|x l IH]; intros Hp; constructor; [apply Hp; by left|].
  apply IH. intros y Hy. apply Hp. by right.
Qed.

(** Nothing to replace: every span follows trivially. *)
Lemma units_unchanged (from to md : str) us :
  from <> [] -> (from = to \/ match_indices md from = []) -> Forall (spans_in md) us ->
  Forall2 (fun u u' => u' = with_spans u (rendered_spans u')
    /\ Forall2 (span_follows from to md md) (rendered_spans u) (rendered_spans u')) us us.
Proof.
  intros Hfrom Hcase Hall. rewrite Forall_forall in Hall. apply Forall2_diag. intros u Hu.
  split; [by destruct u|]. specialize (Hall u Hu). unfold spans_in in Hall. rewrite Forall_forall in Hall.
  apply Forall2_diag. intros s Hs. destruct (Hall s Hs) as [m Hm]. exists m. split; [done|].
  rewrite Hm. f_equal. destruct Hcase as [<-|Hnone]; [by rewrite replace_self|].
  apply slice_Some in Hm as (p & r & Hmd & _). rewrite Hmd in Hnone.
  assert (clean_cut (match_indices (p ++ m ++ r) from) (blen p)) as Hc by (rewrite Hnone; constructor).
  destruct (cut_at from to p (m ++ r) Hfrom Hc) as [H1 _]. rewrite Hnone in H1.
  symmetry in H1. apply app_eq_nil in H1 as [_ H1].
  pose proof (cut_commutes from to m r 0 (blen p)) as Hcc.
  destruct Hcc as [H2 _]; [lia|rewrite H1; constructor|]. rewrite H1 in H2.
  symmetry in H2. apply app_eq_nil in H2 as [H2 _].
  unfold replace. rewrite (replace_no_match from to m 0 (blen p) H2). by rewrite drop_0.
Qed.

(** ** Lemmas: validation *)

Section validate.
Context `{Sha256}.

(** An identity that matches its parsed unit, at position [n]. *)
Definition identifies (md : str) (n : nat) (i : SourceUnitIdentity) (u : StructuredSourceUnit)
    : Prop :=
  unit_id i = key u /\ key u <> [] /\ ordinal i = Z.of_nat n /\ u_ordinal u = Z.of_nat n
  /\ kind i = u_kind u
  /\ text_sha256 i = sha256_hex (as_bytes (text u))
  /\ grid_sha256 i = (table_grid_digest <$> grid u)
  /\ (completeness i = Complete <-> reasons i = [])
  /\ (physical_locator i = None -> exists reason,
        physical_locator_unavailable_reason i = Some reason /\ trim reason <> [])
  /\ (is_document (locator u) = false ->
        exists l, physical_locator i = Some l /\ locator_eqb l (locator u) = true)
  /\ table_id i = (fun _ => key u) <$> grid u
  /\ (forall g, grid u = Some g -> validate_table_grid g = Ok tt)
  /\ Forall (fun h => exists g c, grid u = Some g /\ c ∈ cells g
                      /\ anchor c = (h_row h, h_column h)) (header_cells i)
  /\ spans_in md i
  /\ StronglySorted (fun s t => end_byte s <= start_byte t) (rendered_spans i).

Lemma check_spans_spec md spans prior prior' :
  foldR (check_span md) prior spans = Ok prior' ->
  Forall (fun s => prior <= start_byte s /\ is_Some (slice md (start_byte s) (end_byte s))) spans
  /\ StronglySorted (fun s t => end_byte s <= start_byte t) spans.
Proof.
  revert prior. induction spans as [|s spans IH]; intros prior; cbn [foldR].
  - intros _. split; constructor.
  - intros (e & Hs & Hrest)%bind_Ok. unfold check_span in Hs.
    apply bind_Ok in Hs as (u & Hr%reject_if_Ok & [= <-]).
    rewrite !orb_false_iff, !negb_false_iff, Nat.leb_gt, !Nat.ltb_ge in Hr.
    destruct Hr as [[[[H1 H2] H3] H4] H5]. destruct (IH _ Hrest) as [Hall Hsort].
    assert (is_Some (slice md (start_byte s) (end_byte s))) as Hsl.
    { apply is_char_boundary_spec in H4 as (p & r & Hp & Hpb), H5 as (p2 & r2 & Hp2 & Hpb2).
      destruct (prefix_blen_le p p2 r r2) as (m & -> & ->); [congruence|lia|].
      exists m. apply slice_Some. exists p, r2. rewrite blen_app in Hpb2. split_and!; [done|done|lia]. }
    split.
    + constructor; [by split|]. eapply Forall_impl; [exact Hall|]. intros t [? ?]. split; [lia|done].
    + constructor; [done|]. eapply Forall_impl; [exact Hall|]. by intros t [? _].
Qed.

Lemma check_headers_spec u hs r :
  foldR (check_header u) tt hs = Ok r ->
  Forall (fun h => exists g c, grid u = Some g /\ c ∈ cells g
                     /\ anchor c = (h_row h, h_column h)) hs.
Proof.
  induction hs as [|h hs IH]; cbn [foldR]; [constructor|].
  intros ([] & Hh%reject_if_Ok & Hrest)%bind_Ok. constructor; [|by apply IH].
  rewrite orb_false_iff, !negb_false_iff in Hh. destruct Hh as [_ Hh].
  destruct (grid u) as [g|]; [|done]. apply existsb_exists in Hh as (c & Hc & Hb).
  exists g, c. rewrite andb_true_iff, !Z.eqb_eq in Hb. destruct Hb as [Hb1 Hb2].
  split_and!; [done|by apply list_elem_of_In|unfold anchor; congruence].
Qed.

Lemma is_blank_str_false s : is_blank_str s = false <-> trim s <> [].
Proof. unfold is_blank_str. by destruct (trim s). Qed.

Lemma check_unit_spec md identities n i u st' :
  check_unit md (identities, n) (i, u) = Ok st' ->
  identifies md n i u /\ key u ∉ identities /\ st' = ({[ key u ]} ∪ identities, S n).
Proof.
  unfold check_unit. intros (x1 & H1%reject_if_Ok & Hf)%bind_Ok.
  apply bind_Ok in Hf as (x2 & H2%reject_if_Ok & Hf).
  apply bind_Ok in Hf as (x3 & H3%reject_if_Ok & Hf).
  apply bind_Ok in Hf as (x4 & H4 & Hf). apply bind_Ok in Hf as (x5 & H5%reject_if_Ok & Hf).
  apply bind_Ok in Hf as (x6 & H6 & Hf). apply bind_Ok in Hf as (x7 & H7 & [= <-]).
  apply check_spans_spec in H4 as [Hspans Hsort]. apply check_headers_spec in H7.
  unfold unit_fault in H1. rewrite !orb_false_iff, !negb_false_iff in H1.
  destruct H1 as [[[[[[[[[[[G1 G2] G3] G4] G5] G6] G7] G8] G9] _] _] _].
  apply bool_decide_eq_true in G1, G5, G6, G7. apply Z.eqb_eq in G3, G4.
  apply bool_decide_eq_false in G8. apply orb_false_iff in H5 as [Ht1 Ht2].
  split; [|by split]. unfold identifies. split_and!; try done.
  - by intros Hk; rewrite Hk in G2.
  - apply xorb_eq in G9. destruct (reasons i).
    + by apply bool_decide_eq_true in G9.
    + by apply bool_decide_eq_false in G9.
  - intros Hn. rewrite Hn in H2. simpl in H2.
    destruct (physical_locator_unavailable_reason i) as [reason|]; [|done].
    exists reason. split; [done|]. apply is_blank_str_false.
    apply negb_false_iff in H2. by apply negb_true_iff in H2.
  - intros Hd. rewrite Hd in H3. simpl in H3. apply negb_false_iff in H3.
    destruct (physical_locator i) as [l|]; [|done]. by exists l.
  - apply xorb_eq in Ht1. destruct (grid u) as [g0|], (table_id i) as [t0|]; try done.
    apply negb_false_iff, bool_decide_eq_true in Ht2. simpl. by rewrite Ht2.
  - intros g Hg. rewrite Hg in H6. destruct (validate_table_grid g) as [[]|]; done.
  - eapply Forall_impl; [exact Hspans|]. by intros s [_ ?].
Qed.

Lemma check_units_spec md us : forall identities n st',
  foldR (check_unit md) (identities, n) us = Ok st' ->
  (forall k p, us !! k = Some p -> identifies md (n + k) p.1 p.2)
  /\ NoDup (map (fun p => key p.2) us)
  /\ Forall (fun p => key p.2 ∉ identities) us.
Proof.
  induction us as [|[i u] us IH]; intros identities n st'; cbn [foldR].
  - intros _. split_and!; [done|constructor|constructor].
  - intros (st1 & (Hi & Hk & ->)%check_unit_spec & Hrest)%bind_Ok.
    destruct (IH _ _ _ Hrest) as (H1 & H2 & H3). split_and!.
    + intros [|k] p; simpl; [intros [= <-]; by rewrite Nat.add_0_r|].
      intros Hp. specialize (H1 k p Hp). by replace (n + S k) with (S n + k) by lia.
    + simpl. constructor; [|done]. intros Hin. apply list_elem_of_fmap in Hin as (p & Hp & Hin).
      rewrite Forall_forall in H3. apply (H3 p Hin). set_solver.
    + constructor; [done|]. eapply Forall_impl; [exact H3|]. simpl. set_solver.
Qed.

Lemma unit_index_fold (us : list SourceUnitIdentity) (m : gmap str SourceUnitIdentity) k u :
  NoDup (map unit_id us) ->
  foldl (fun m u => <[unit_id u := u]> m) m us !! k = Some u <->
  (u ∈ us /\ unit_id u = k) \/ (k ∉ map unit_id us /\ m !! k = Some u).
Proof.
  revert m. induction us as [|x us IH]; intros m; simpl; intros Hnd.
  - split; [intros Hm; right; split; [apply not_elem_of_nil|done]|].
    by intros [[Hu%elem_of_nil _]|[_ Hm]].
  - apply NoDup_cons in Hnd as [Hx Hnd]. rewrite (IH _ Hnd), not_elem_of_cons, elem_of_cons.
    destruct (decide (unit_id x = k)) as [Hk|Hk].
    + rewrite Hk, lookup_insert_eq. split.
      * intros [[Hu Huk]|[Hk2 [= ->]]]; [by left; auto|]. left. auto.
      * intros [[[->|Hu] Huk]|[[Hk2 _] _]]; [| |done].
        -- right. split; [by rewrite <- Hk|done].
        -- left. auto.
    + rewrite lookup_insert_ne by done. split.
      * intros [[Hu Huk]|[Hk2 Hm]]; [by left; auto|]. right. auto.
      * intros [[[->|Hu] Huk]|[[Hk2 Hk3] Hm]]; [done| |]; auto.
Qed.

Lemma unit_index_lookup (us : list SourceUnitIdentity) k u :
  NoDup (map unit_id us) -> unit_index_of us !! k = Some u <-> u ∈ us /\ unit_id u = k.
Proof.
  intros Hnd. unfold unit_index_of. rewrite unit_index_fold by done.
  rewrite lookup_empty. naive_solver.
Qed.

Lemma size_list_to_set_le (l : list str) : size (list_to_set l : gset str) <= length l.
Proof.
  induction l as [|x l IH]; simpl; [reflexivity|].
  destruct (decide (x ∈ (list_to_set l : gset str))).
  - rewrite subseteq_union_1_L by set_solver. lia.
  - rewrite size_union by set_solver. rewrite size_singleton. lia.
Qed.

Lemma size_NoDup (l : list str) : size (list_to_set l : gset str) = length l -> NoDup l.
Proof.
  induction l as [|x l IH]; simpl; [constructor|].
  pose proof (size_list_to_set_le l). destruct (decide (x ∈ (list_to_set l : gset str))) as [Hx|Hx].
  - rewrite subseteq_union_1_L by set_solver. lia.
  - rewrite size_union by set_solver. rewrite size_singleton. intros Hs. constructor.
    + by rewrite elem_of_list_to_set in Hx.
    + apply IH. lia.
Qed.

(** The page manifest entry at position [n]. *)
Definition page_ok (index : gmap str SourceUnitIdentity) (n : nat) (page : SourcePage) : Prop :=
  sp_page_ordinal page = Z.of_nat n
  /\ classification page ∈ PAGE_CLASSES
  /\ (forall k, k ∈ unit_ids page -> exists u, index !! k = Some u
        /\ (physical_locator u ≫= physical_page) = Some (Z.of_nat n))
  /\ image_unit_ids page ≡ₚ List.filter (is_image_unit index) (unit_ids page).

Lemma check_page_units_spec index page ks : forall ids cov st',
  foldR (check_page_unit index page) (ids, cov) ks = Ok st' ->
  st'.2 = list_to_set ks ∪ cov /\ NoDup ks /\ (forall k, k ∈ ks -> k ∉ cov)
  /\ (forall k, k ∈ ks -> exists u, index !! k = Some u
        /\ (physical_locator u ≫= physical_page) = Some (sp_page_ordinal page)).
Proof.
  induction ks as [|k ks IH]; intros ids cov st'; cbn [foldR].
  - intros [= <-]. simpl. split_and!; [set_solver|constructor|set_solver|set_solver].
  - intros (st1 & Hk & Hrest)%bind_Ok. unfold check_page_unit in Hk.
    apply bind_Ok in Hk as (u & Hu%ok_or_Ok & Hk). apply bind_Ok in Hk as (x & Hx%reject_if_Ok & [= <-]).
    rewrite !orb_false_iff, negb_false_iff, !bool_decide_eq_false in Hx.
    destruct Hx as [[_ Hc] Hp%bool_decide_eq_true].
    destruct (IH _ _ _ Hrest) as (-> & Hnd & Hfree & Hall). split_and!.
    + simpl. set_solver.
    + constructor; [|done]. intros Hin. apply (Hfree k Hin). set_solver.
    + intros k' [->|Hk']%elem_of_cons; [done|]. intros Hc'. apply (Hfree k' Hk'). set_solver.
    + intros k' [->|Hk']%elem_of_cons; [by exists u|]. by apply Hall.
Qed.

Lemma images_perm index page :
  NoDup (unit_ids page) ->
  (list_to_set (List.filter (is_image_unit index) (unit_ids page)) : gset str)
    = list_to_set (image_unit_ids page) ->
  size (list_to_set (image_unit_ids page) : gset str) = length (image_unit_ids page) ->
  image_unit_ids page ≡ₚ List.filter (is_image_unit index) (unit_ids page).
Proof.
  intros Hnd Heq Hsz. apply size_NoDup in Hsz. apply NoDup_Permutation; [done| |].
  - rewrite NoDup_ListNoDup in *. by apply List.NoDup_filter.
  - intros k. rewrite <- !(elem_of_list_to_set (C := gset str)). by rewrite Heq.
Qed.

Lemma check_page_spec index cov n page st' :
  check_page index (cov, n) page = Ok st' ->
  page_ok index n page /\ st' = (list_to_set (unit_ids page) ∪ cov, S n)
  /\ NoDup (unit_ids page) /\ (forall k, k ∈ unit_ids page -> k ∉ cov).
Proof.
  unfold check_page. intros (x1 & H1%reject_if_Ok & Hf)%bind_Ok.
  apply bind_Ok in Hf as ([ids cov1] & Hks & Hf).
  apply bind_Ok in Hf as (x2 & H2%reject_if_Ok & [= <-]).
  apply check_page_units_spec in Hks as (Hcov & Hnd & Hfree & Hall). simpl in Hcov. subst cov1.
  rewrite orb_false_iff, !negb_false_iff, Z.eqb_eq in H1. destruct H1 as [Hord Hclass].
  rewrite orb_false_iff, !negb_false_iff, bool_decide_eq_true, Nat.eqb_eq in H2. destruct H2 as [He Hs].
  split; [|by split_and!]. split_and!; [done| | |by apply images_perm].
  - apply existsb_exists in Hclass as (c & Hc & Heq%bool_decide_eq_true). rewrite Heq.
    by apply list_elem_of_In.
  - rewrite <- Hord. done.
Qed.

Definition paged (pages : list SourcePage) : list str := concat (map unit_ids pages).

Lemma check_pages_spec index pages : forall cov n st',
  foldR (check_page index) (cov, n) pages = Ok st' ->
  st'.1 = list_to_set (paged pages) ∪ cov
  /\ NoDup (paged pages) /\ (forall k, k ∈ paged pages -> k ∉ cov)
  /\ (forall i p, pages !! i = Some p -> page_ok index (n + i) p).
Proof.
  unfold paged. induction pages as [|p pages IH]; intros cov n st'; cbn [foldR map concat].
  - intros [= <-]. simpl. split_and!; [set_solver|constructor|set_solver|done].
  - intros (st1 & (Hp & -> & Hnd & Hfree)%check_page_spec & Hrest)%bind_Ok.
    destruct (IH _ _ _ Hrest) as (-> & Hnd2 & Hfree2 & Hall). split_and!.
    + rewrite list_to_set_app_L. set_solver.
    + apply NoDup_app. split_and!; [done| |done]. intros k Hk Hk2. apply (Hfree2 k Hk2).
      apply elem_of_union. left. by apply elem_of_list_to_set.
    + intros k [Hk|Hk]%elem_of_app; [by apply Hfree|]. intros Hc. apply (Hfree2 k Hk). set_solver.
    + intros [|i] q; simpl; [intros [= <-]; by rewrite Nat.add_0_r|].
      intros Hq. replace (n + S i) with (S n + i) by lia. by apply Hall.
Qed.

Lemma paged_perm us pages :
  NoDup (map unit_id us) -> NoDup (paged pages) ->
  (forall i p, pages !! i = Some p -> page_ok (unit_index_of us) i p) ->
  length (paged pages) = length us -> paged pages ≡ₚ map unit_id us.
Proof.
  intros Hnd Hnp Hall Hlen. apply submseteq_length_Permutation; [|by rewrite length_map, Hlen].
  apply NoDup_submseteq; [done|]. intros k Hk. apply list_elem_of_In, in_concat in Hk as (l & Hl & Hk).
  apply in_map_iff in Hl as (p & <- & Hp). apply list_elem_of_In, list_elem_of_lookup in Hp as [i Hi].
  destruct (Hall i p Hi) as (_ & _ & Hids & _). apply list_elem_of_In in Hk.
  destruct (Hids k Hk) as (u & Hu%unit_index_lookup & _); [|done]. destruct Hu as [Hu <-].
  by apply list_elem_of_fmap_2.
Qed.

Lemma contract_validate_parts contract parsed :
  contract_validate contract parsed = Ok tt ->
  length (units contract) = length (structured_source_units parsed)
  /\ (exists st, foldR (check_unit (markdown parsed)) (∅, 0)
        (zip (units contract) (structured_source_units parsed)) = Ok st)
  /\ (exists covered n, foldR (check_page (unit_index_of (units contract))) (∅, 0)
        (page_manifest contract) = Ok (covered, n)
      /\ (page_manifest contract <> [] -> size covered = length (units contract)))
  /\ (forall raw, metadata parsed !! PAGE_COUNT_KEY = Some raw ->
        parse_usize raw = Some (N.of_nat (length (page_manifest contract)))).
Proof.
  unfold contract_validate. intros (x1 & H1 & Hf)%bind_Ok.
  apply bind_Ok in Hf as (x2 & H2%reject_if_Ok & Hf). apply bind_Ok in Hf as (st & H3 & Hf).
  apply bind_Ok in Hf as ([covered n] & H4 & Hf). apply bind_Ok in Hf as (x5 & H5%reject_if_Ok & Hf).
  rewrite !orb_false_iff, !negb_false_iff, !Nat.eqb_eq in H2.
  split_and!; [by destruct H2 as [_ ?]|by exists st| |].
  - exists covered, n. split; [done|]. intros Hne. destruct (page_manifest contract); [done|].
    simpl in H5. by apply negb_false_iff, Nat.eqb_eq in H5.
  - intros raw Hraw. rewrite Hraw in Hf. apply bind_Ok in Hf as (count & Hc%ok_or_Ok & Hn%reject_if_Ok).
    apply negb_false_iff, N.eqb_eq in Hn. by rewrite Hc, Hn.
Qed.

Lemma find_unique (us : list SourceUnitIdentity) i :
  NoDup (map unit_id us) -> i ∈ us -> List.find (fun u => str_eqb (unit_id u) (unit_id i)) us = Some i.
Proof.
  induction us as [|u us IH]; simpl; intros Hnd Hi; [by apply elem_of_nil in Hi|].
  apply NoDup_cons in Hnd as [Hu Hnd]. unfold str_eqb at 1.
  apply elem_of_cons in Hi as [->|Hi]; [by rewrite bool_decide_eq_true_2|].
  rewrite bool_decide_eq_false_2; [by apply IH|]. intros Heq. apply Hu. rewrite Heq.
  by apply list_elem_of_fmap_2.
Qed.

Lemma zip_keys (us : list SourceUnitIdentity) (ss : list StructuredSourceUnit) md :
  length us = length ss ->
  (forall k p, zip us ss !! k = Some p -> identifies md k p.1 p.2) ->
  map unit_id us = map key ss /\ map (fun p => key p.2) (zip us ss) = map key ss.
Proof.
  intros Hl Hall. split.
  - apply list_eq_same_length with (length us); rewrite ?length_map; [done|done|].
    intros k x y Hk Hx Hy. apply list_lookup_fmap_Some in Hx as (u & -> & Hu).
    apply list_lookup_fmap_Some in Hy as (s & -> & Hs).
    assert (zip us ss !! k = Some (u, s)) as Hz by by apply lookup_zip_Some.
    by destruct (Hall k (u, s) Hz) as [? _].
  - rewrite <- (snd_zip us ss) at 2 by lia. by rewrite List.map_map.
Qed.
End validate.

(** ** Properties *)

(** C23: a validated contract identifies the parsed units one by one: same number, same keys,
    ordinals equal to positions, digests of text and grid as computed, locators equal to the
    native ones or explained, valid grids, headers that are grid anchors, and rendered spans
    that are ordered, disjoint slices of the Markdown; unit ids are unique, so that looking an
    id up returns the identity of the unit with that key. *)
Theorem contract_validate_units `{Sha256} (contract : SourceContract) (parsed : ReadResult)
    (Hv : contract_validate contract parsed = Ok tt) :
  length (units contract) = length (structured_source_units parsed)
  /\ NoDup (map unit_id (units contract))
  /\ forall n u, structured_source_units parsed !! n = Some u ->
       exists i, units contract !! n = Some i
         /\ identifies (markdown parsed) n i u
         /\ contract_unit contract (key u) = Some i.
Proof.
  apply contract_validate_parts in Hv as (Hl & (st & Hst) & _).
  apply check_units_spec in Hst as (Hid & Hnd & _). simpl in Hid.
  destruct (zip_keys _ _ _ Hl Hid) as [Hk Hz]. rewrite Hz, <- Hk in Hnd.
  split_and!; [done|done|]. intros n u Hu.
  destruct (lookup_lt_is_Some_2 (units contract) n) as [i Hi]; [rewrite Hl; by apply lookup_lt_Some in Hu|].
  exists i. assert (identifies (markdown parsed) n i u) as Hin
    by (apply (Hid n (i, u)); by apply lookup_zip_Some).
  split_and!; [done|done|]. destruct Hin as [<- _]. unfold contract_unit.
  apply find_unique; [done|by eapply list_elem_of_lookup_2].
Qed.

(** In a validated contract with a page manifest the pages are numbered by position, every
    unit is on exactly one page, that of its physical location, and each page lists exactly
    its image units as images; a page count in the metadata is the number of pages. *)
Theorem contract_validate_pages `{Sha256} (contract : SourceContract) (parsed : ReadResult)
    (Hv : contract_validate contract parsed = Ok tt) :
  (page_manifest contract <> [] ->
     concat (map unit_ids (page_manifest contract)) ≡ₚ map unit_id (units contract))
  /\ (forall n page, page_manifest contract !! n = Some page ->
        sp_page_ordinal page = Z.of_nat n
        /\ (forall k, k ∈ unit_ids page -> exists u,
              u ∈ units contract /\ unit_id u = k
              /\ (physical_locator u ≫= physical_page) = Some (Z.of_nat n))
        /\ image_unit_ids page
           ≡ₚ List.filter (is_image_unit (unit_index_of (units contract))) (unit_ids page))
  /\ (forall raw, metadata parsed !! PAGE_COUNT_KEY = Some raw ->
        parse_usize raw = Some (N.of_nat (length (page_manifest contract)))).
Proof.
  apply contract_validate_parts in Hv as (Hl & (st & Hst) & (covered & m & Hp & Hcov) & Hcount).
  apply check_units_spec in Hst as (Hid & Hnd & _). simpl in Hid.
  destruct (zip_keys _ _ _ Hl Hid) as [Hk Hz]. rewrite Hz, <- Hk in Hnd.
  apply check_pages_spec in Hp as (Hc & Hnp & _ & Hall). simpl in Hc, Hall. split_and!; [| |done].
  - intros Hne. apply paged_perm; [done|done|exact Hall|]. rewrite <- (Hcov Hne), Hc.
    rewrite union_empty_r_L. by rewrite size_list_to_set.
  - intros n page Hn. destruct (Hall n page Hn) as (Ho & _ & Hids & Himg).
    split_and!; [done| |done]. intros k Hk'. destruct (Hids k Hk') as (u & Hu & Hpg).
    apply unit_index_lookup in Hu as [Hu <-]; [|done]. by exists u.
Qed.

(** C9: a replacement that succeeds moves every rendered span to exactly the text that replaced
    its own: the new range of the new Markdown holds the old range's text with the
    replacement made in it; nothing else of a unit changes. *)
Theorem replace_rendered_exact `{Sha256} (contract contract' : SourceContract)
    (md md' from to : str)
    (Hfrom : from <> [])
    (Hspans : Forall (spans_in md) (units contract))
    (Hr : replace_rendered contract md from to = Ok (contract', md')) :
  md' = replace md from to
  /\ Forall2 (fun u u' =>
       u' = with_spans u (rendered_spans u')
       /\ Forall2 (fun s s' => exists m,
            slice md (start_byte s) (end_byte s) = Some m
            /\ slice md' (start_byte s') (end_byte s') = Some (replace m from to))
          (rendered_spans u) (rendered_spans u')) (units contract) (units contract').
Proof.
  unfold replace_rendered in Hr.
  assert (str_is_empty from = false) as He by by destruct from. rewrite He in Hr. simpl orb in Hr.
  destruct (str_eqb from to) eqn:Heq.
  { apply bool_decide_eq_true in Heq. injection Hr as <- <-. split; [by rewrite <- Heq, replace_self|].
    apply (units_unchanged from to md); auto. }
  destruct (match_indices md from) as [|m ms] eqn:Em.
  { injection Hr as <- <-. split; [symmetry; apply (replace_no_match from to md 0 0 Em)|].
    apply (units_unchanged from to md); auto. }
  rewrite <- Em in Hr. apply bind_Ok in Hr as (us & Hus & [= <- <-]). split; [done|].
  by apply shift_units_follow.
Qed.

(** the replacement succeeds exactly when no match of the replaced text lies across an end
    of a rendered span: such an edit is refused, every other one is carried out (the new
    Markdown being shorter than 2^64 bytes). *)
Theorem replace_rendered_refuses `{Sha256} (contract : SourceContract) (md from to : str)
    (Hfrom : from <> []) (Hne : from <> to)
    (Hspans : Forall (spans_in md) (units contract))
    (Hsize : (N.of_nat (blen (replace md from to)) < usize_modulus)%N) :
  (exists r, replace_rendered contract md from to = Ok r) <->
  Forall (fun u => Forall (fun s =>
    Forall (fun m => ~ (m.1 < start_byte s < m.2) /\ ~ (m.1 < end_byte s < m.2))
      (match_indices md from)) (rendered_spans u)) (units contract).
Proof.
  assert (forall s, Forall (fun m => ~ (m.1 < start_byte s < m.2) /\ ~ (m.1 < end_byte s < m.2))
      (match_indices md from) <-> no_straddle from md s) as Hiff by (intros s; apply Forall_and).
  assert (Forall (fun u => Forall (no_straddle from md) (rendered_spans u)) (units contract) <->
    Forall (fun u => Forall (fun s =>
      Forall (fun m => ~ (m.1 < start_byte s < m.2) /\ ~ (m.1 < end_byte s < m.2))
      (match_indices md from)) (rendered_spans u)) (units contract)) as <-.
  { apply Forall_proper; [|done]. intros u. apply Forall_proper; [|done]. intros s. by rewrite Hiff. }
  rewrite <- (shift_units_Ok_iff from to md Hfrom (units contract) Hsize Hspans).
  unfold replace_rendered. assert (str_is_empty from = false) as -> by by destruct from.
  unfold str_eqb. rewrite bool_decide_eq_false_2 by done. simpl orb. cbv iota.
  destruct (match_indices md from) as [|m ms] eqn:Em.
  - split; [intros _|by eexists]. rewrite <- Em. apply shift_units_Ok_iff; [done|done|done|].
    apply Forall_forall. intros u _. apply Forall_forall. intros s _. unfold no_straddle, clean_cut.
    rewrite Em. split; constructor.
  - split.
    + intros (r & (us & Hus & _)%bind_Ok). by exists us.
    + intros (us & Hus). eexists. apply bind_Ok. exists us. split; [done|reflexivity].
Qed.

(** ** The digest frame *)

Section frame.
Lemma length_be_bytes k n : length (be_bytes k n) = k.
Proof. induction k; simpl; congruence. Qed.

Lemma be_bytes_inj k a b :
  (0 <= a < 256 ^ Z.of_nat k)%Z -> (0 <= b < 256 ^ Z.of_nat k)%Z ->
  be_bytes k a = be_bytes k b -> a = b.
Proof.
  assert (forall k a b, be_bytes k a = be_bytes k b ->
            (a mod 256 ^ Z.of_nat k = b mod 256 ^ Z.of_nat k)%Z) as Hmod.
  { clear. intros k. induction k as [|k IH]; intros a b; simpl be_bytes.
    - intros _. by rewrite !Z.mod_1_r.
    - intros [= H1 H2%IH]. set (P := (256 ^ Z.of_nat k)%Z) in *.
      assert (0 < P)%Z by (apply Z.pow_pos_nonneg; lia).
      replace (256 ^ Z.of_nat (S k))%Z with (P * 256)%Z
        by (unfold P; rewrite Nat2Z.inj_succ, Z.pow_succ_r by lia; lia).
      rewrite !Z.rem_mul_r by lia. lia. }
  intros Ha Hb Heq. apply Hmod in Heq. by rewrite !Z.mod_small in Heq.
Qed.

Lemma app_fixed {A} (a b r1 r2 : list A) :
  length a = length b -> a ++ r1 = b ++ r2 -> a = b /\ r1 = r2.
Proof. intros Hl Heq. by apply app_inj_1 in Heq. Qed.

Lemma be_app k a b r1 r2 :
  (0 <= a < 256 ^ Z.of_nat k)%Z -> (0 <= b < 256 ^ Z.of_nat k)%Z ->
  be_bytes k a ++ r1 = be_bytes k b ++ r2 -> a = b /\ r1 = r2.
Proof.
  intros Ha Hb Heq. apply app_fixed in Heq as [Heq ->]; [|by rewrite !length_be_bytes].
  by apply be_bytes_inj in Heq.
Qed.

(** What the frame of a cell determines. *)
Definition cell_key (c : PdfTableCell) : Z * Z * Z * Z * list Z :=
  (row c, column c, row_span c, col_span c, as_bytes (cell_text c)).

Definition cell_sized (c : PdfTableCell) : Prop :=
  cell_u32 c /\ (Z.of_nat (blen (cell_text c)) < 2 ^ 64)%Z.

Lemma cell_frame_inj a b r1 r2 :
  cell_sized a -> cell_sized b -> cell_frame a ++ r1 = cell_frame b ++ r2 ->
  cell_key a = cell_key b /\ r1 = r2.
Proof.
  intros [(A1 & A2 & A3 & A4) A5] [(B1 & B2 & B3 & B4) B5]. unfold cell_frame.
  rewrite <- !app_assoc. unfold u32_ok, u32_modulus in *.
  intros [H1 Heq]%be_app; [|simpl; lia..]. apply be_app in Heq as [H2 Heq]; [|simpl; lia..].
  apply be_app in Heq as [H3 Heq]; [|simpl; lia..]. apply be_app in Heq as [H4 Heq]; [|simpl; lia..].
  apply be_app in Heq as [H5 Heq]; [|simpl; lia..].
  apply app_fixed in Heq as [H6 ->]; [|rewrite !length_as_bytes; lia].
  split; [|done]. unfold cell_key. by rewrite H1, H2, H3, H4, H6.
Qed.

Lemma cell_frames_inj l1 l2 r1 r2 :
  Forall cell_sized l1 -> Forall cell_sized l2 -> length l1 = length l2 ->
  concat (map cell_frame l1) ++ r1 = concat (map cell_frame l2) ++ r2 ->
  map cell_key l1 = map cell_key l2 /\ r1 = r2.
Proof.
  intros H1. revert l2. induction H1 as [|a l1 Ha H1 IH]; intros [|b l2] H2 Hl Heq; try done.
  simpl in Heq. rewrite <- !app_assoc in Heq. apply Forall_cons in H2 as [Hb H2].
  apply cell_frame_inj in Heq as [Hk Heq]; [|done|done].
  apply IH in Heq as [Hks ->]; [|done|simpl in Hl; lia]. simpl. by rewrite Hk, Hks.
Qed.

Lemma width_frames_inj (l1 l2 : list f64) :
  length l1 = length l2 ->
  concat (map (fun w => be_bytes 8 (f64_bits w)) l1) = concat (map (fun w => be_bytes 8 (f64_bits w)) l2) ->
  map (fun w => be_bytes 8 (f64_bits w)) l1 = map (fun w => be_bytes 8 (f64_bits w)) l2.
Proof.
  revert l2. induction l1 as [|a l1 IH]; intros [|b l2] Hl Heq; try done.
  cbn [map concat length] in *. apply app_fixed in Heq as [Ha Heq]; [|by rewrite !length_be_bytes].
  rewrite Ha. f_equal. apply IH; [lia|done].
Qed.
End frame.

(** A grid whose numbers and sizes fit their fields. *)
Definition grid_sized (g : TableGrid) : Prop :=
  u32_ok (row_count g) /\ u32_ok (column_count g) /\ Forall cell_sized (cells g)
  /\ (Z.of_nat (length (cells g)) < u32_modulus)%Z
  /\ (Z.of_nat (length (default [] (widths_mm g))) < u32_modulus)%Z.

(** the framing of a grid digest is unambiguous: two grids with the same digested bytes have
    the same row and column counts, the same cells up to their order in the list (positions,
    spans and text bytes) and bitwise the same widths. *)
Theorem grid_frame_injective (g1 g2 : TableGrid)
    (H1 : grid_sized g1) (H2 : grid_sized g2) (Heq : grid_frame g1 = grid_frame g2) :
  row_count g1 = row_count g2 /\ column_count g1 = column_count g2
  /\ map cell_key (cells g1) ≡ₚ map cell_key (cells g2)
  /\ map (fun w => be_bytes 8 (f64_bits w)) (default [] (widths_mm g1))
     = map (fun w => be_bytes 8 (f64_bits w)) (default [] (widths_mm g2)).
Proof.
  destruct H1 as (A1 & A2 & A3 & A4 & A5), H2 as (B1 & B2 & B3 & B4 & B5).
  unfold grid_frame in Heq. cbv zeta in Heq. unfold u32_ok, u32_modulus in *.
  apply app_fixed in Heq as [_ Heq]; [|done].
  apply be_app in Heq as [R1 Heq]; [|simpl; lia..]. apply be_app in Heq as [R2 Heq]; [|simpl; lia..].
  apply be_app in Heq as [R3 Heq]; [|simpl; lia..].
  apply cell_frames_inj in Heq as [R4 Heq]; [|by rewrite sort_by_perm..|rewrite !sort_by_perm; lia].
  apply be_app in Heq as [R5 Heq]; [|simpl; lia..].
  apply width_frames_inj in Heq; [|lia]. split_and!; [done|done| |done].
  rewrite <- (sort_by_perm anchor_before (cells g1)), <- (sort_by_perm anchor_before (cells g2)).
  by rewrite R4.
Qed.

(** ** Witnesses *)

(** A stand-in for the digest, on which the witnesses evaluate. *)
Definition demo_sha : Sha256 := {| sha256_hex b := b |}.

Definition sample_markdown : str := u8"# 标题 img.png end".

Definition sample_section : StructuredSourceUnit := {|
  key := u8"u0"; u_ordinal := 0; u_kind := Section_; text := u8"标题";
  locator := LPage 0 None None None None; grid := None |}.

Definition sample_table : StructuredSourceUnit := {|
  key := u8"u1"; u_ordinal := 1; u_kind := ImageRegion; text := u8"img";
  locator := LPage 0 (Some (f64_of_Z 1)) None None None; grid := Some sample_grid |}.

Definition sample_identity (u : StructuredSourceUnit) (spans : list RenderedSpan)
    : SourceUnitIdentity := {|
  unit_id := key u; ordinal := u_ordinal u; kind := u_kind u;
  text_sha256 := @sha256_hex demo_sha (as_bytes (text u));
  grid_sha256 := @table_grid_digest demo_sha <$> grid u;
  section_id := None; parent_section_id := None; heading_level := Some 1%Z;
  heading_path_ := []; physical_locator := Some (locator u); physical_path := None;
  physical_locator_unavailable_reason := None; rendered_spans := spans;
  completeness := Complete; reasons := []; table_id := (fun _ => key u) <$> grid u;
  header_cells := match grid u with
                  | Some _ => [{| h_row := 0; h_column := 0; role := COLUMN_HEADER |}]
                  | None => []
                  end |}.

Definition sample_contract : SourceContract := {|
  schema_version := 2; document_revision := replicate 64 97%Z; parser_version := u8"p1";
  markdown_sha256 := @sha256_hex demo_sha (as_bytes sample_markdown);
  units := [ sample_identity sample_section [{| start_byte := 2; end_byte := 8 |}];
             sample_identity sample_table [{| start_byte := 9; end_byte := 16 |};
                                           {| start_byte := 16; end_byte := 20 |}] ];
  page_manifest := [{| sp_page_ordinal := 0; classification := u8"text";
                       unit_ids := [u8"u0"; u8"u1"]; image_unit_ids := [u8"u1"] |}];
  glyph_normalizations := [] |}.

Definition sample_parsed : ReadResult := {|
  markdown := sample_markdown; error := []; images := [];
  structured_source_units := [sample_section; sample_table]; is_audio := false; audio_data := [];
  metadata := {[ PAGE_COUNT_KEY := u8"1" ]} |}.

Lemma sample_contract_valid : @contract_validate demo_sha sample_contract sample_parsed = Ok tt.
Proof. vm_compute. reflexivity. Qed.

Lemma contract_validate_units_witness :
  length (units sample_contract) = length (structured_source_units sample_parsed)
  /\ NoDup (map unit_id (units sample_contract))
  /\ forall n u, structured_source_units sample_parsed !! n = Some u ->
       exists i, units sample_contract !! n = Some i
         /\ @identifies demo_sha (markdown sample_parsed) n i u
         /\ contract_unit sample_contract (key u) = Some i.
Proof. exact (@contract_validate_units demo_sha sample_contract sample_parsed sample_contract_valid). Defined.

Lemma contract_validate_pages_witness :
  concat (map unit_ids (page_manifest sample_contract)) ≡ₚ map unit_id (units sample_contract).
Proof.
  destruct (@contract_validate_pages demo_sha sample_contract sample_parsed sample_contract_valid)
    as (Hp & _). apply Hp. discriminate.
Defined.

Definition replaced_contract (r : result str (SourceContract * str)) : SourceContract :=
  match r with Ok (c, _) => c | Err _ => sample_contract end.

Lemma sample_spans_in : Forall (spans_in sample_markdown) (units sample_contract).
Proof.
  repeat (apply Forall_cons; split); try apply Forall_nil; try exact I;
    apply is_Some_alt; vm_compute; exact I.
Qed.

Lemma replace_rendered_exact_witness :
  let from := u8"img.png" in
  let to := u8"oss://图.png" in
  let c' := replaced_contract (@replace_rendered demo_sha sample_contract sample_markdown from to) in
  replace sample_markdown from to = u8"# 标题 oss://图.png end"
  /\ Forall2 (fun u u' =>
       u' = with_spans u (rendered_spans u')
       /\ Forall2 (fun s s' => exists m,
            slice sample_markdown (start_byte s) (end_byte s) = Some m
            /\ slice (replace sample_markdown from to) (start_byte s') (end_byte s')
               = Some (replace m from to))
          (rendered_spans u) (rendered_spans u')) (units sample_contract) (units c').
Proof.
  cbv zeta. split; [vm_compute; reflexivity|].
  apply (@replace_rendered_exact demo_sha sample_contract _ sample_markdown _ (u8"img.png")
           (u8"oss://图.png")).
  - vm_compute. discriminate.
  - exact sample_spans_in.
  - vm_compute. reflexivity.
Defined.

Lemma replace_rendered_refuses_witness :
  (exists r, @replace_rendered demo_sha sample_contract sample_markdown (u8"png e") [] = Ok r) <->
  Forall (fun u => Forall (fun s =>
    Forall (fun m => ~ (m.1 < start_byte s < m.2) /\ ~ (m.1 < end_byte s < m.2))
      (match_indices sample_markdown (u8"png e"))) (rendered_spans u)) (units sample_contract).
Proof.
  apply (@replace_rendered_refuses demo_sha sample_contract sample_markdown (u8"png e") []).
  - vm_compute. discriminate.
  - vm_compute. discriminate.
  - exact sample_spans_in.
  - vm_compute. reflexivity.
Defined.

Lemma sample_grid_sized : grid_sized sample_grid.
Proof.
  unfold grid_sized, u32_ok, u32_modulus. split_and!; simpl; try lia.
  repeat (apply Forall_cons; split); try apply Forall_nil; split; try (simpl; lia);
    unfold cell_u32, u32_ok, u32_modulus; simpl; lia.
Qed.

(** The same grid with its cells in another order. *)
Definition sample_grid_shuffled : TableGrid := {|
  row_count := 2; column_count := 2; cells := reverse (cells sample_grid);
  widths_mm := Some [f64_of_Z 20; f64_of_Z 30] |}.

Lemma sample_grid_shuffled_sized : grid_sized sample_grid_shuffled.
Proof.
  unfold grid_sized, u32_ok, u32_modulus. split_and!; simpl; try lia.
  repeat (apply Forall_cons; split); try apply Forall_nil; split; try (simpl; lia);
    unfold cell_u32, u32_ok, u32_modulus; simpl; lia.
Qed.

Lemma grid_frame_injective_witness :
  row_count sample_grid = 2%Z /\ column_count sample_grid = 2%Z
  /\ map cell_key (cells sample_grid) ≡ₚ map cell_key (cells sample_grid_shuffled)
  /\ map (fun w => be_bytes 8 (f64_bits w)) (default [] (widths_mm sample_grid))
     = map (fun w => be_bytes 8 (f64_bits w)) (default [] (widths_mm sample_grid_shuffled)).
Proof.
  apply (grid_frame_injective sample_grid sample_grid_shuffled sample_grid_sized
           sample_grid_shuffled_sized).
  vm_compute. reflexivity.
Defined.
