(* ===== verification/ChunkerApi.v ===== *)
(** * [crates/knowledge/src/chunker/mod.rs]

    The entry points of the chunker and the chunks of the domain.  [Uuid::new_v4] is an
    external crate: [new_v4 n] is the [n]-th identifier drawn; the functions that draw
    identifiers take the number drawn so far and return the new one. *)
From S2P Require Import Prelude RustStr Regex DemoPatterns HeaderTracker Splitter SplitterFacts MergeFacts.
From S2P Require Import ChunkSpec Tokens Profiler Heading Heuristic Strategy RustFloat SourceTypes.
From S2P Require Import TableGrid StrReplace SourceContract.

Definition PARENT_CHUNK_SIZE : nat := 4096.
Definition CHILD_CHUNK_SIZE : nat := 384.

Definition TEXT_TYPE : str := u8"text".
Definition PARENT_TYPE : str := u8"parent_text".

(** [TextChunk::embedding_content], [Chunk::embedding_content] *)
Definition embedding_text (context_header content : str) : str :=
  let body := trim content in
  if str_is_empty context_header then body else context_header ++ [NL; NL] ++ body.

Definition parent_child_configs (base : SplitterConfig) (parent_size child_size : nat)
    : SplitterConfig * SplitterConfig :=
  let parent_size := if parent_size =? 0 then PARENT_CHUNK_SIZE else parent_size in
  let child_size := if child_size =? 0 then CHILD_CHUNK_SIZE else child_size in
  ({| chunk_size := parent_size; chunk_overlap := chunk_overlap base;
      separators := separators base; strategy := strategy base; token_limit := 0;
      languages := languages base |},
   {| chunk_size := child_size; chunk_overlap := child_size / 5;
      separators := separators base; strategy := strategy base; token_limit := 0;
      languages := languages base |}).

(** One entry of a chunk's source locator: the unit, its identity, and whether a rendered
    span of it meets the chunk. *)
Record LocatorHit := {
  hit_unit : StructuredSourceUnit;
  hit_identity : option SourceUnitIdentity;
  hit_resolved : bool;
}.

(** The byte offset of every char and the length of the text. *)
Fixpoint char_offsets (s : str) (pos : nat) : list nat :=
  match s with
  | [] => [pos]
  | c :: s' => pos :: char_offsets s' (pos + len_utf8 c)
  end.

(** [char_bytes.get(i.max(0) as usize).copied().unwrap_or(markdown.len())] *)
Definition char_byte (md : str) (i : Z) : nat :=
  default (blen md) (char_offsets md 0 !! Z.to_nat (Z.max i 0)).

Definition spans_meet (a b : nat) (u : SourceUnitIdentity) : bool :=
  existsb (fun span => (start_byte span <? b) && (a <? end_byte span)) (rendered_spans u).

Definition is_mapped (u : SourceUnitIdentity) : bool :=
  match rendered_spans u with [] => false | _ => true end.

(** The locator entries of the chunk number [chunk_index] with the byte range [a..b]. *)
Definition locator_hits (units : list StructuredSourceUnit) (contract : option SourceContract)
    (chunk_index a b : nat) : list LocatorHit :=
  concat (map (fun u =>
    let identity := c ← contract; contract_unit c (key u) in
    let mapped := match identity with Some i => is_mapped i | None => false end in
    let intersects := match identity with Some i => spans_meet a b i | None => false end in
    if intersects || (negb mapped && (chunk_index =? 0))
    then [{| hit_unit := u; hit_identity := identity; hit_resolved := intersects |}]
    else []) units).

Section api.
Context {uuid : Type} (new_v4 : nat -> uuid) `{Patterns}.

Record Chunk := {
  ch_id : uuid;
  ch_document_id : uuid;
  ch_product_version_id : uuid;
  ch_chunk_type : str;
  ch_content : str;
  ch_context_header : str;
  ch_start_at : Z;
  ch_end_at : Z;
  ch_parent_chunk_id : option uuid;
  ch_generated_questions : list str;
  ch_source_locator : option (list LocatorHit);
}.

Definition domain_chunk (version_id document_id id : uuid) (chunk_type : str)
    (parent : option uuid) (c : TextChunk) : Chunk := {|
  ch_id := id; ch_document_id := document_id; ch_product_version_id := version_id;
  ch_chunk_type := chunk_type; ch_content := content c; ch_context_header := context_header c;
  ch_start_at := i32_wrap (Z.of_nat (tc_start c)); ch_end_at := i32_wrap (Z.of_nat (tc_end c));
  ch_parent_chunk_id := parent; ch_generated_questions := []; ch_source_locator := None |}.

Definition to_domain (drawn : nat) (raw : list TextChunk) (version_id document_id : uuid)
    : list Chunk * nat :=
  (imap (fun i c => domain_chunk version_id document_id (new_v4 (drawn + i)) TEXT_TYPE None c) raw,
   drawn + length raw).

Definition split_from_config (drawn : nat) (md : str) (version_id document_id : uuid)
    (cfg : SplitterConfig) (parent_child : bool) (parent_size child_size : nat)
    : option (list Chunk * nat) :=
  if negb parent_child then
    raw ← split md cfg;
    Some (to_domain drawn raw version_id document_id)
  else
    let '(parent_cfg, child_cfg) := parent_child_configs cfg parent_size child_size in
    result ← split_parent_child md parent_cfg child_cfg;
    let parent_ids := imap (fun i _ => new_v4 (drawn + i)) (pc_parents result) in
    let parents := imap (fun i p =>
      domain_chunk version_id document_id (new_v4 (drawn + i)) PARENT_TYPE None p)
      (pc_parents result) in
    let drawn' := drawn + length (pc_parents result) in
    let children := imap (fun i k =>
      domain_chunk version_id document_id (new_v4 (drawn' + i)) TEXT_TYPE
        (j ← cc_parent_index k; parent_ids !! j) (cc_chunk k)) (pc_children result) in
    Some (parents ++ children, drawn' + length (pc_children result)).

Definition config_with (size overlap : nat) (strategy : str) : SplitterConfig :=
  {| chunk_size := size; chunk_overlap := overlap; separators := []; strategy := strategy;
     token_limit := 0; languages := [] |}.

Definition split_configured (drawn : nat) (md : str) (version_id document_id : uuid)
    (size overlap : nat) (strategy : str) (parent_child : bool) : option (list Chunk * nat) :=
  split_from_config drawn md version_id document_id (config_with size overlap strategy)
    parent_child 0 0.

Definition split_with (drawn : nat) (md : str) (version_id document_id : uuid)
    (size overlap : nat) (strategy : str) : option (list Chunk * nat) :=
  raw ← split md (config_with size overlap strategy);
  Some (to_domain drawn raw version_id document_id).

Definition split_auto (drawn : nat) (md : str) (version_id document_id : uuid)
    (size overlap : nat) : option (list Chunk * nat) :=
  split_with drawn md version_id document_id size overlap (u8"auto").

Definition set_source_locator (c : Chunk) (hits : list LocatorHit) : Chunk := {|
  ch_id := ch_id c; ch_document_id := ch_document_id c;
  ch_product_version_id := ch_product_version_id c; ch_chunk_type := ch_chunk_type c;
  ch_content := ch_content c; ch_context_header := ch_context_header c;
  ch_start_at := ch_start_at c; ch_end_at := ch_end_at c;
  ch_parent_chunk_id := ch_parent_chunk_id c;
  ch_generated_questions := ch_generated_questions c;
  ch_source_locator := Some hits |}.

Definition annotate_source_locators (chunks : list Chunk) (md : str)
    (units : list StructuredSourceUnit) (contract : option SourceContract) : list Chunk :=
  imap (fun chunk_index chunk =>
    match locator_hits units contract chunk_index
            (char_byte md (ch_start_at chunk)) (char_byte md (ch_end_at chunk)) with
    | [] => chunk
    | hits => set_source_locator chunk hits
    end) chunks.
End api.
Arguments Chunk : clear implicits.

(** ** Lemmas *)

Lemma char_offsets_lookup s pos i : i <= length s ->
  char_offsets s pos !! i = Some (pos + blen (take i s)).
Proof.
  revert pos i. induction s as [|c s IH]; intros pos i Hi; simpl in *.
  - assert (i = 0) as -> by lia. simpl. f_equal. lia.
  - destruct i as [|i]; simpl; [f_equal; lia|]. rewrite IH by lia. f_equal. lia.
Qed.

Lemma length_char_offsets s pos : length (char_offsets s pos) = S (length s).
Proof. revert pos. induction s as [|c s IH]; intros pos; simpl; [done|]. by rewrite IH. Qed.

Lemma char_byte_take md i : char_byte md i = blen (take (Z.to_nat i) md).
Proof.
  unfold char_byte. replace (Z.to_nat (Z.max i 0)) with (Z.to_nat i) by lia.
  destruct (decide (Z.to_nat i <= length md)).
  - by rewrite char_offsets_lookup.
  - rewrite lookup_ge_None_2 by (rewrite length_char_offsets; lia). simpl.
    by rewrite take_ge by lia.
Qed.

Lemma locator_hits_elem units contract n a b h :
  h ∈ locator_hits units contract n a b <->
  exists u, u ∈ units /\ hit_unit h = u
    /\ hit_identity h = (c ← contract; contract_unit c (key u))
    /\ hit_resolved h = match hit_identity h with Some i => spans_meet a b i | None => false end
    /\ (hit_resolved h = true
        \/ n = 0 /\ match hit_identity h with Some i => rendered_spans i = [] | None => True end).
Proof.
  unfold locator_hits. rewrite list_elem_of_In, in_concat. split.
  - intros (l & Hl & Hh). apply in_map_iff in Hl as (u & <- & Hu). cbv zeta in Hh.
    exists u. rewrite list_elem_of_In. destruct (_ || _) eqn:E; [|done].
    destruct Hh as [<-|[]]. simpl. split_and!; [done|done|done|done|].
    destruct (c ← contract; contract_unit c (key u)) as [i|]; simpl in *.
    + apply orb_true_iff in E as [E|E]; [by left|right]. bool_to_prop. split; [done|].
      unfold is_mapped in *. by destruct (rendered_spans i).
    + right. bool_to_prop. by split.
  - intros (u & Hu & Hhu & Hi & Hr & Hcase). eexists. split; [apply in_map, list_elem_of_In, Hu|].
    cbv zeta. rewrite <- Hi. destruct h as [hu hi hr]. simpl in *. subst hu.
    assert (hr || negb match hi with Some i => is_mapped i | None => false end && (n =? 0) = true) as Hb.
    { apply orb_true_iff. destruct Hcase as [->|[-> Hs]]; [by left|right].
      destruct hi as [i|]; [|done]. unfold is_mapped. by rewrite Hs. }
    rewrite <- Hr, Hb. by left.
Qed.

Section api_facts.
Context {uuid : Type} (new_v4 : nat -> uuid) (Hinj : forall i j, new_v4 i = new_v4 j -> i = j).
Context `{Patterns} `{!PatternsOk H}.

Lemma imap_ids_NoDup {A} (f : nat -> A -> Chunk uuid) d (l : list A) :
  (forall i x, ch_id (f i x) = new_v4 (d + i)) -> NoDup (map ch_id (imap f l)).
Proof.
  intros Hf. apply NoDup_alt. intros i j x Hi Hj.
  apply list_lookup_fmap_Some in Hi as (ci & -> & Hi), Hj as (cj & Hc & Hj).
  rewrite list_lookup_imap in Hi, Hj.
  apply fmap_Some in Hi as (a & _ & ->), Hj as (b & _ & ->).
  rewrite !Hf in Hc. apply Hinj in Hc. lia.
Qed.

Lemma imap_ids_range {A} (f : nat -> A -> Chunk uuid) d (l : list A) id :
  (forall i x, ch_id (f i x) = new_v4 (d + i)) ->
  id ∈ map ch_id (imap f l) -> exists i, i < length l /\ id = new_v4 (d + i).
Proof.
  intros Hf Hin. apply list_elem_of_fmap in Hin as (c & -> & Hin).
  apply list_elem_of_lookup in Hin as [i Hi]. rewrite list_lookup_imap in Hi.
  apply fmap_Some in Hi as (a & Ha & ->). exists i. split; [by eapply lookup_lt_Some|apply Hf].
Qed.

(** The chunk of the domain carries the text chunk it was made from. *)
Definition carries (c : Chunk uuid) (t : TextChunk) : Prop :=
  ch_content c = content t /\ ch_context_header c = context_header t
  /\ ch_start_at c = i32_wrap (Z.of_nat (tc_start t))
  /\ ch_end_at c = i32_wrap (Z.of_nat (tc_end t))
  /\ ch_source_locator c = None /\ ch_generated_questions c = [].

Lemma domain_chunk_carries v d id ty parent t : carries (domain_chunk v d id ty parent t) t.
Proof. by split_and!. Qed.

(** The links of the two-level case: a parent identifier is the identifier of the parent
    chunk whose piece the child is. *)
Definition linked (child_cfg : SplitterConfig) (parents : list TextChunk) (out : list (Chunk uuid))
    (c : Chunk uuid) : Prop :=
  match ch_parent_chunk_id c with
  | None => True
  | Some id => exists j p t pc, out !! j = Some pc /\ ch_id pc = id /\ ch_chunk_type pc = PARENT_TYPE
      /\ carries pc p /\ p ∈ parents /\ carries c t
      /\ exists subs s, split (content p) child_cfg = Some subs /\ s ∈ subs /\ content t = content s
  end.

Lemma child_links child_cfg parents np k v d n (out1 out2 : list (Chunk uuid)) i :
  child_of child_cfg parents np k ->
  out1 = imap (fun i p => domain_chunk v d (new_v4 (n + i)) PARENT_TYPE None p) np ->
  linked child_cfg parents (out1 ++ out2)
    (domain_chunk v d (new_v4 i) TEXT_TYPE
      (j ← cc_parent_index k; imap (fun i _ => new_v4 (n + i)) np !! j) (cc_chunk k)).
Proof.
  intros (p & subs & s & Hp & Hs & Hin & Hk & Hidx) ->. unfold linked. simpl.
  destruct (cc_parent_index k) as [j|]; simpl; [|done].
  rewrite list_lookup_imap, Hidx. simpl.
  exists j, p, (cc_chunk k). eexists. split_and!.
  - apply lookup_app_l_Some. by rewrite list_lookup_imap, Hidx.
  - done.
  - done.
  - apply domain_chunk_carries.
  - done.
  - apply domain_chunk_carries.
  - exists subs, s. split_and!; [done|done|]. by rewrite Hk.
Qed.
End api_facts.

(** ** Properties *)

(** splitting into chunks of the domain returns for every document and configuration; when
    identifiers are drawn without repetition the chunks have distinct ones; and with parents
    and children, a parent identifier of a child is the identifier of a chunk of type
    parent_text in the result whose content the child is a piece of. *)
Theorem split_from_config_links {uuid} (new_v4 : nat -> uuid) `{Patterns} (Hok : PatternsOk H)
    (Hinj : forall i j, new_v4 i = new_v4 j -> i = j)
    (drawn : nat) (md : str) (version_id document_id : uuid) (cfg : SplitterConfig)
    (parent_child : bool) (parent_size child_size : nat) :
  exists out drawn',
    split_from_config new_v4 drawn md version_id document_id cfg parent_child parent_size child_size
      = Some (out, drawn')
    /\ drawn' = drawn + length out
    /\ NoDup (map ch_id out)
    /\ Forall (fun c => ch_document_id c = document_id /\ ch_product_version_id c = version_id) out
    /\ if parent_child
       then let '(parent_cfg, child_cfg) := parent_child_configs cfg parent_size child_size in
            exists parents, split md parent_cfg = Some parents
              /\ Forall (linked child_cfg parents out) out
       else Forall (fun c => ch_parent_chunk_id c = None) out.
Proof.
  unfold split_from_config. destruct parent_child; simpl negb; cbv iota.
  - destruct (parent_child_configs cfg parent_size child_size) as [pcfg ccfg] eqn:Ec.
    destruct (split_parent_child_ok ccfg md pcfg)
      as (parents & res & Hs & _ & Hr & d & Hd & _ & _ & _ & Hof & _).
    rewrite app_nil_r in Hd. subst d. rewrite Hr, some_bind. cbv zeta.
    eexists _, _. split; [done|]. split_and!.
    + rewrite length_app, !length_imap. lia.
    + rewrite map_app. apply NoDup_app. split_and!.
      * by apply (imap_ids_NoDup new_v4 Hinj _ drawn).
      * intros id H1 H2. apply (imap_ids_range new_v4 _ drawn) in H1 as (i & Hi & ->); [|done].
        apply (imap_ids_range new_v4 _ (drawn + length (pc_parents res))) in H2 as (j & Hj & Heq); [|done].
        apply Hinj in Heq. lia.
      * by apply (imap_ids_NoDup new_v4 Hinj _ (drawn + length (pc_parents res))).
    + apply Forall_app. split; apply Forall_lookup; intros i c Hi; rewrite list_lookup_imap in Hi;
        by apply fmap_Some in Hi as (? & _ & ->).
    + exists parents. split; [done|]. apply Forall_app. split.
      * apply Forall_lookup. intros i c Hi. rewrite list_lookup_imap in Hi.
        by apply fmap_Some in Hi as (? & _ & ->).
      * apply Forall_lookup. intros i c Hi. rewrite list_lookup_imap in Hi.
        apply fmap_Some in Hi as (k & Hk & ->). rewrite Forall_lookup in Hof.
        eapply child_links; [exact (Hof i k Hk)|done].
  - destruct (split_tiling md cfg) as (raw & Hs & _). rewrite Hs, some_bind. unfold to_domain.
    eexists _, _. split; [done|]. split_and!.
    + by rewrite length_imap.
    + by apply (imap_ids_NoDup new_v4 Hinj _ drawn).
    + apply Forall_lookup; intros i c Hi; rewrite list_lookup_imap in Hi;
        by apply fmap_Some in Hi as (? & _ & ->).
    + apply Forall_lookup; intros i c Hi; rewrite list_lookup_imap in Hi;
        by apply fmap_Some in Hi as (? & _ & ->).
Qed.

(** for a document of fewer than 2^31 runes without a table header, the signed 32-bit
    offsets of the chunks of [split_with] are the true ones: each chunk's length is the
    difference of its offsets and its content the text between them. *)
Theorem split_with_offsets {uuid} (new_v4 : nat -> uuid) `{Patterns} (Hok : PatternsOk H)
    (drawn : nat) (md : str) (version_id document_id : uuid) (size overlap : nat) (strat : str)
    (Hlen : (Z.of_nat (length md) < 2147483648)%Z) (Hno : no_table_header md) :
  exists out drawn',
    split_with new_v4 drawn md version_id document_id size overlap strat = Some (out, drawn')
    /\ Forall (fun c =>
         (0 <= ch_start_at c <= ch_end_at c)%Z /\ (ch_end_at c <= Z.of_nat (length md))%Z
         /\ ch_content c = sub md (Z.to_nat (ch_start_at c)) (Z.to_nat (ch_end_at c))
         /\ (ch_end_at c - ch_start_at c)%Z = Z.of_nat (length (ch_content c))) out.
Proof.
  unfold split_with. destruct (split_tiling md (config_with size overlap strat)) as (raw & Hs & [Hv _ _]).
  rewrite Hs, some_bind. unfold to_domain. eexists _, _. split; [done|].
  apply Forall_lookup. intros i c Hi. rewrite list_lookup_imap in Hi.
  apply fmap_Some in Hi as (t & Ht & ->). rewrite Forall_lookup in Hv.
  destruct (Hv i t Ht) as (Hb & _ & Hc). specialize (Hc Hno). simpl.
  rewrite !i32_wrap_small by lia. rewrite !Nat2Z.id. split_and!; [lia|lia|lia|done|].
  rewrite Hc, length_sub; lia.
Qed.

(** the locator of a chunk has an entry for exactly the units of which a rendered span meets
    the chunk's bytes, marked resolved, and, on the first chunk, those without any rendered
    span, marked unresolved; a chunk without entries keeps its locator; the bytes of a chunk
    are those of the text between its rune offsets. *)
Theorem annotate_source_locators_exact {uuid} (chunks : list (Chunk uuid)) (md : str)
    (units : list StructuredSourceUnit) (contract : option SourceContract)
    (n : nat) (c : Chunk uuid) (Hc : chunks !! n = Some c) :
  exists c' hits,
    annotate_source_locators chunks md units contract !! n = Some c'
    /\ ch_source_locator c' = (match hits with [] => ch_source_locator c | _ => Some hits end)
    /\ (ch_content c', ch_start_at c', ch_end_at c') = (ch_content c, ch_start_at c, ch_end_at c)
    /\ forall h, h ∈ hits <->
         hit_unit h ∈ units
         /\ hit_identity h = (k ← contract; contract_unit k (key (hit_unit h)))
         /\ let meets := exists i span, hit_identity h = Some i /\ span ∈ rendered_spans i
              /\ start_byte span < blen (take (Z.to_nat (ch_end_at c)) md)
              /\ blen (take (Z.to_nat (ch_start_at c)) md) < end_byte span in
            (hit_resolved h = true /\ meets)
            \/ (hit_resolved h = false /\ n = 0
                /\ forall i, hit_identity h = Some i -> rendered_spans i = []).
Proof.
  eexists _, (locator_hits units contract n (char_byte md (ch_start_at c)) (char_byte md (ch_end_at c))).
  split; [unfold annotate_source_locators; by rewrite list_lookup_imap, Hc|].
  split; [by destruct (locator_hits _ _ _ _ _)|]. split; [by destruct (locator_hits _ _ _ _ _)|].
  intros h. rewrite locator_hits_elem, !char_byte_take. set (a := blen _). set (b := blen _).
  assert ((match hit_identity h with Some i => spans_meet a b i | None => false end = true) <->
    exists i span, hit_identity h = Some i /\ span ∈ rendered_spans i
      /\ start_byte span < b /\ a < end_byte span) as Hmeet.
  { destruct (hit_identity h) as [i|]; [|split; [done|by intros (? & ? & ? & _)]].
    unfold spans_meet. rewrite existsb_exists. split.
    - intros (s & Hs & Hb). bool_to_prop. exists i, s. by rewrite list_elem_of_In.
    - intros (i' & s & [= <-] & Hs & ? & ?). exists s. rewrite <- list_elem_of_In. split; [done|].
      apply andb_true_iff. by rewrite !Nat.ltb_lt. }
  cbv zeta. split.
  - intros (u & Hu & Hhu & Hi & Hr & Hcase). rewrite Hhu. split_and!; [done|done|].
    destruct (hit_resolved h) eqn:Er; [left; split; [done|by apply Hmeet]|right].
    destruct Hcase as [|[-> Hs]]; [done|]. split_and!; [done|done|]. intros i Hii.
    by rewrite Hii in Hs.
  - intros (Hu & Hi & Hcase). exists (hit_unit h). split_and!; [done|done|done| |].
    + destruct Hcase as [[-> Hm]|(-> & _ & Hs)]; [by apply Hmeet in Hm|].
      destruct (hit_identity h) as [i|]; [|done]. unfold spans_meet. by rewrite (Hs i).
    + destruct Hcase as [[-> _]|(_ & -> & Hs)]; [by left|right]. split; [done|].
      destruct (hit_identity h); [by apply Hs|done].
Qed.

(** ** Witnesses *)

(** Identifiers drawn in order; distinct by construction. *)
Definition draw (n : nat) : nat := n.

Lemma draw_inj i j : draw i = draw j -> i = j.
Proof. done. Qed.

Lemma split_from_config_links_witness :
  (exists out drawn',
    @split_from_config nat draw demo_patterns 5 long_table 1 2 parent_config true 60 30
      = Some (out, drawn')
    /\ drawn' = 5 + length out
    /\ NoDup (map ch_id out)
    /\ Forall (fun c => ch_document_id c = 2 /\ ch_product_version_id c = 1) out
    /\ exists parents, @split demo_patterns long_table
           (parent_child_configs parent_config 60 30).1 = Some parents
         /\ Forall (@linked nat demo_patterns (parent_child_configs parent_config 60 30).2 parents out)
              out)
  /\ 8 <= default 0 ((fun r => length r.1) <$>
        @split_from_config nat draw demo_patterns 5 long_table 1 2 parent_config true 60 30).
Proof.
  split; [|apply Nat.leb_le; vm_compute; reflexivity].
  exact (@split_from_config_links nat draw demo_patterns demo_patterns_ok draw_inj 5 long_table 1 2
           parent_config true 60 30).
Defined.

Lemma split_with_offsets_witness :
  exists out drawn',
    @split_with nat draw demo_patterns 0 sample_headings 1 2 40 8 (u8"auto") = Some (out, drawn')
    /\ Forall (fun c =>
         (0 <= ch_start_at c <= ch_end_at c)%Z
         /\ (ch_end_at c <= Z.of_nat (length sample_headings))%Z
         /\ ch_content c = sub sample_headings (Z.to_nat (ch_start_at c)) (Z.to_nat (ch_end_at c))
         /\ (ch_end_at c - ch_start_at c)%Z = Z.of_nat (length (ch_content c))) out.
Proof.
  apply (@split_with_offsets nat draw demo_patterns demo_patterns_ok 0 sample_headings 1 2 40 8).
  - vm_compute. reflexivity.
  - apply no_pipe_no_header. vm_compute. intros Hin.
    repeat (apply elem_of_cons in Hin as [Hin|Hin]; [discriminate Hin|]). by apply elem_of_nil in Hin.
Defined.

Definition sample_unit (k : str) : StructuredSourceUnit := {|
  key := k; u_ordinal := 0; u_kind := Section_; text := []; locator := LAttachment [] []; grid := None |}.

Definition sample_located : Chunk nat := {|
  ch_id := 0; ch_document_id := 1; ch_product_version_id := 2; ch_chunk_type := TEXT_TYPE;
  ch_content := u8"标题"; ch_context_header := []; ch_start_at := 2; ch_end_at := 4;
  ch_parent_chunk_id := None; ch_generated_questions := []; ch_source_locator := None |}.

Lemma annotate_source_locators_exact_witness :
  exists c' hits,
    annotate_source_locators [sample_located] (u8"# 标题 end") [sample_unit (u8"a")] None !! 0 = Some c'
    /\ ch_source_locator c'
       = (match hits with [] => ch_source_locator sample_located | _ => Some hits end)
    /\ (ch_content c', ch_start_at c', ch_end_at c')
       = (ch_content sample_located, ch_start_at sample_located, ch_end_at sample_located)
    /\ forall h, h ∈ hits <->
         hit_unit h ∈ [sample_unit (u8"a")]
         /\ hit_identity h = (k ← None; contract_unit k (key (hit_unit h)))
         /\ let meets := exists i span, hit_identity h = Some i /\ span ∈ rendered_spans i
              /\ start_byte span < blen (take (Z.to_nat (ch_end_at sample_located)) (u8"# 标题 end"))
              /\ blen (take (Z.to_nat (ch_start_at sample_located)) (u8"# 标题 end")) < end_byte span in
            (hit_resolved h = true /\ meets)
            \/ (hit_resolved h = false /\ 0 = 0
                /\ forall i, hit_identity h = Some i -> rendered_spans i = []).
Proof.
  apply (@annotate_source_locators_exact nat [sample_located] (u8"# 标题 end") [sample_unit (u8"a")]
           None 0 sample_located).
  reflexivity.
Defined.
