(* ===== verification/Regions.v ===== *)
(** * [crates/knowledge/src/enrichment/regions.rs]

    Bounded subdivision of an image for text recognition: horizontal strips that overlap,
    a recognition of every overlap, and the stitching of the strips' texts.

    The image crate is a parameter: [encode_png top bottom] is the encoding of a strip, which
    can fail.  The recogniser is a parameter as well: [recognise n bytes] is the answer to the
    [n]-th physical call. *)
From S2P Require Import Prelude RustStr.

Record Fragment := {
  left : nat; top : nat; right : nat; bottom : nat;
  fr_text : str; complete : bool; reason : option str;
}.

Record Recognition := {
  rc_text : str; rc_complete : bool; physical_calls : nat;
  fragments : list Fragment; overlap_fragments : list Fragment;
}.

(** [todo] is the stack with its top first. *)
Record Plan := {
  width : nat; todo : list (nat * nat * nat); p_fragments : list Fragment;
  calls : nat; max_depth : nat; max_calls : nat;
}.

Definition E_EMPTY_IMAGE : str := u8"invalid empty OCR image geometry".
Definition E_GEOMETRY : str := u8"invalid OCR region geometry".
Definition E_BUDGET : str := u8"OCR physical call budget exhausted".
Definition E_ENCODE : str := u8"encode OCR region: ".
Definition E_BOUNDARY : str := u8"incomplete spatial boundary evidence".
Definition E_AMBIGUOUS : str :=
  u8"ambiguous OCR overlap: physical boundary does not uniquely match crop edges; manual review required".

Definition plan_new (w h depth_limit call_limit : nat) : Plan :=
  let valid := (0 <? w) && (0 <? h) in
  {| width := w;
     todo := if valid then [(0, h, 0)] else [];
     p_fragments := if valid then []
       else [{| left := 0; top := 0; right := w; bottom := h; fr_text := []; complete := false;
                reason := Some E_EMPTY_IMAGE |}];
     calls := 0; max_depth := depth_limit; max_calls := call_limit |}.

Definition fragment (p : Plan) (t b : nat) (r : result str str) : Fragment :=
  match r with
  | Ok s => {| left := 0; top := t; right := width p; bottom := b; fr_text := s;
               complete := true; reason := None |}
  | Err e => {| left := 0; top := t; right := width p; bottom := b; fr_text := [];
                complete := false; reason := Some e |}
  end.

Definition with_todo (p : Plan) (l : list (nat * nat * nat)) : Plan :=
  {| width := width p; todo := l; p_fragments := p_fragments p; calls := calls p;
     max_depth := max_depth p; max_calls := max_calls p |}.

Definition with_calls (p : Plan) (n : nat) : Plan :=
  {| width := width p; todo := todo p; p_fragments := p_fragments p; calls := n;
     max_depth := max_depth p; max_calls := max_calls p |}.

Definition push_fragment (p : Plan) (f : Fragment) : Plan :=
  {| width := width p; todo := todo p; p_fragments := p_fragments p ++ [f]; calls := calls p;
     max_depth := max_depth p; max_calls := max_calls p |}.

Definition too_long (error : str) : bool :=
  contains error (u8"length") || contains error (u8"max_tokens").

Definition overlap_of (h : nat) : nat := Nat.min (Nat.max (h / 20) 1) 32.

(** The failure of a strip that is split in two instead of being recorded. *)
Definition subdivides (p : Plan) (t b depth : nat) (r : result str str) : bool :=
  match r with
  | Ok _ => false
  | Err error => too_long error && (depth <? max_depth p) && (64 <=? b - t)
  end.

Definition accept (p : Plan) (t b depth : nat) (r : result str str) : Plan :=
  if subdivides p t b depth r then
    let mid := t + (b - t) / 2 in
    let overlap := overlap_of (b - t) in
    with_todo p ((t, mid + overlap, depth + 1) :: (mid - overlap, b, depth + 1) :: todo p)
  else push_fragment p (fragment p t b r).

Definition strip_between (f g : Fragment) : nat * nat :=
  (Nat.max (top f) (top g), Nat.min (bottom f) (bottom g)).

(** ** Stitching *)

Definition set_incomplete (f : Fragment) (e : str) : Fragment :=
  {| left := left f; top := top f; right := right f; bottom := bottom f; fr_text := fr_text f;
     complete := false; reason := Some e |}.

Definition NL_STR : str := [NL].

(** One turn of the loop: the text so far, the fragment before and the current one; the new
    text and the current fragment, marked when its overlap proves nothing. *)
Definition stitch (text : str) (previous current boundary : Fragment) : str * Fragment :=
  if negb (complete previous) || negb (complete current) || negb (complete boundary) then
    (text, set_incomplete current E_BOUNDARY)
  else
    let shared := fr_text boundary in
    if str_is_empty shared then
      let sep := if negb (str_is_empty text) && negb (str_is_empty (fr_text current))
                    && negb (ends_with text NL_STR) && negb (starts_with (fr_text current) NL_STR)
                 then NL_STR else [] in
      (text ++ sep ++ fr_text current, current)
    else
      let unique_previous := matches_count (fr_text previous) shared =? 1 in
      let unique_current := matches_count (fr_text current) shared =? 1 in
      if negb unique_previous || negb unique_current
         || negb (ends_with (fr_text previous) shared)
         || negb (starts_with (fr_text current) shared)
      then (text, set_incomplete current E_AMBIGUOUS)
      else (text ++ drop (length shared) (fr_text current), current).

(** [boundaries[index - 1]] of an absent boundary would panic: [None]. *)
Fixpoint stitch_all (text : str) (previous : Fragment) (rest boundaries : list Fragment)
    : option (str * list Fragment) :=
  match rest with
  | [] => Some (text, [])
  | current :: rest' =>
    match boundaries with
    | [] => None
    | boundary :: boundaries' =>
      let '(text', current') := stitch text previous current boundary in
      '(text'', fs) ← stitch_all text' current' rest' boundaries';
      Some (text'', current' :: fs)
    end
  end.

Definition finish (p : Plan) (boundaries : list Fragment) : option Recognition :=
  '(text, fs) ← (match p_fragments p with
                 | [] => Some ([], [])
                 | f :: rest =>
                   '(text, fs) ← stitch_all (if complete f then fr_text f else []) f rest boundaries;
                   Some (text, f :: fs)
                 end);
  Some {| rc_text := text;
          rc_complete := forallb complete fs && forallb complete boundaries;
          physical_calls := calls p; fragments := fs; overlap_fragments := boundaries |}.

Section recognition.
Context (height : nat) (encode_png : nat -> nat -> result str (list Z))
        (recognise : nat -> list Z -> result str str).

(** [Plan::crop]: the plan with one call more, or the error. *)
Definition crop (p : Plan) (t b : nat) : Plan * result str (list Z) :=
  if (b <=? t) || (height <? b) || (width p =? 0) then (p, Err E_GEOMETRY)
  else if max_calls p <=? calls p then (p, Err E_BUDGET)
  else
    match encode_png t b with
    | Err e => (p, Err (E_ENCODE ++ e))
    | Ok bytes => (with_calls p (calls p + 1), Ok bytes)
    end.

(** [Plan::next]; [None] when the fuel runs out. *)
Fixpoint next (fuel : nat) (p : Plan) : option (Plan * option (nat * nat * nat * list Z)) :=
  match fuel with
  | 0 => None
  | S fuel' =>
    match todo p with
    | [] => Some (p, None)
    | (t, b, depth) :: rest =>
      let '(p', r) := crop (with_todo p rest) t b in
      match r with
      | Ok bytes => Some (p', Some (t, b, depth, bytes))
      | Err e => next fuel' (accept p' t b depth (Err e))
      end
    end
  end.

(** The answer to the call just counted. *)
Definition ask (p : Plan) (bytes : list Z) : result str str := recognise (calls p - 1) bytes.

Fixpoint drain (fuel : nat) (p : Plan) : option Plan :=
  match fuel with
  | 0 => None
  | S fuel' =>
    '(p', r) ← next fuel p;
    match r with
    | None => Some p'
    | Some (t, b, depth, bytes) => drain fuel' (accept p' t b depth (ask p' bytes))
    end
  end.

(** The boundary loop over neighbouring fragments. *)
Fixpoint recognise_boundaries (p : Plan) (fs : list Fragment) : Plan * list Fragment :=
  match fs with
  | f :: ((g :: _) as rest) =>
    let '(t, b) := strip_between f g in
    let '(p', r) := crop p t b in
    let r := match r with Ok bytes => ask p' bytes | Err e => Err e end in
    let '(p'', boundaries) := recognise_boundaries p' rest in
    (p'', fragment p t b r :: boundaries)
  | _ => (p, [])
  end.

(** A strip at depth [d] leads to fewer than 2^(max_depth - d + 1) strips. *)
Definition recognition_fuel (depth_limit : nat) : nat := S (2 ^ (depth_limit + 1)).

Definition recognize (w depth_limit call_limit : nat) : option Recognition :=
  p ← drain (recognition_fuel depth_limit) (plan_new w height depth_limit call_limit);
  let '(p', boundaries) := recognise_boundaries p (p_fragments p) in
  finish p' boundaries.
End recognition.

(** ** Lemmas: the strips *)

Definition strip_weight (limit d : nat) : nat := 2 ^ (limit - d + 1) - 1.

Definition todo_weight (p : Plan) : nat :=
  sum_list_with (fun x : nat * nat * nat => strip_weight (max_depth p) x.2) (todo p).

Lemma pow2_pos n : 1 <= 2 ^ n.
Proof. apply Nat.neq_0_lt_0, Nat.pow_nonzero. done. Qed.

Lemma strip_weight_pos limit d : 1 <= strip_weight limit d.
Proof.
  unfold strip_weight. rewrite Nat.pow_add_r. pose proof (pow2_pos (limit - d)).
  change (2 ^ 1) with 2. lia.
Qed.

Lemma strip_weight_split limit d : d < limit ->
  strip_weight limit (d + 1) + strip_weight limit (d + 1) < strip_weight limit d.
Proof.
  intros Hd. unfold strip_weight. replace (limit - d + 1) with ((limit - (d + 1) + 1) + 1) by lia.
  rewrite (Nat.pow_add_r 2 (limit - (d + 1) + 1) 1). change (2 ^ 1) with 2.
  pose proof (pow2_pos (limit - (d + 1) + 1)). lia.
Qed.

Lemma overlap_of_bounds h : 1 <= overlap_of h <= 32.
Proof. unfold overlap_of. lia. Qed.

Lemma half_and_overlap h : 64 <= h ->
  3 <= overlap_of h /\ h / 2 + overlap_of h < h /\ h < h / 2 * 2 + 2 /\ h / 2 * 2 <= h.
Proof.
  intros Hh. unfold overlap_of.
  pose proof (Nat.div_mod_eq h 20). pose proof (Nat.mod_upper_bound h 20).
  pose proof (Nat.div_mod_eq h 2). pose proof (Nat.mod_upper_bound h 2). lia.
Qed.

Lemma accept_fields p t b d r :
  width (accept p t b d r) = width p /\ calls (accept p t b d r) = calls p
  /\ max_depth (accept p t b d r) = max_depth p /\ max_calls (accept p t b d r) = max_calls p.
Proof. unfold accept. by destruct (subdivides p t b d r). Qed.

(** Taking the strip off the stack pays for what [accept] puts back. *)
Lemma accept_weight p t b d r :
  todo_weight (accept p t b d r) < strip_weight (max_depth p) d + todo_weight p.
Proof.
  unfold accept. destruct (subdivides p t b d r) eqn:E.
  - destruct r as [|e]; [done|]. unfold subdivides in E. bool_to_prop.
    unfold todo_weight. simpl. pose proof (strip_weight_split (max_depth p) d). lia.
  - unfold todo_weight. simpl. pose proof (strip_weight_pos (max_depth p) d). lia.
Qed.

(** The strips, recorded or still to do, from the top of the image to its end: each starts
    above the end of the one before, at most 64 rows, and none is thin. *)
Definition strips (p : Plan) : list (nat * nat) :=
  map (fun f => (top f, bottom f)) (p_fragments p) ++ map fst (todo p).

Fixpoint chained (l : list (nat * nat)) : Prop :=
  match l with
  | (t1, b1) :: (((t2, b2) :: _) as rest) =>
    t2 < b1 <= t2 + 64 /\ 35 <= b1 - t1 /\ 35 <= b2 - t2 /\ chained rest
  | _ => True
  end.

Definition covers_rows (h : nat) (l : list (nat * nat)) : Prop :=
  (exists b, head l = Some (0, b)) /\ (exists t, last l = Some (t, h))
  /\ Forall (fun s => s.1 < s.2 <= h) l /\ chained l.

Lemma chained_app_inv l1 l2 : chained (l1 ++ l2) -> chained l1 /\ chained l2.
Proof.
  induction l1 as [|[t1 b1] l1 IH]; simpl; [done|].
  destruct l1 as [|[t2 b2] l1]; simpl in *.
  - destruct l2 as [|[t2 b2] l2]; [done|]. by intros (_ & _ & _ & ?).
  - intros (? & ? & ? & Hc). apply IH in Hc as [? ?]. done.
Qed.

(** Splitting a strip of at least 64 rows keeps the chain. *)
Lemma chained_split l1 l2 t b :
  64 <= b - t -> chained (l1 ++ (t, b) :: l2) ->
  chained (l1 ++ (t, t + (b - t) / 2 + overlap_of (b - t))
              :: (t + (b - t) / 2 - overlap_of (b - t), b) :: l2).
Proof.
  intros Hh. pose proof (overlap_of_bounds (b - t)) as Ho.
  pose proof (half_and_overlap (b - t) Hh).
  set (h := b - t) in *. assert (h = b - t) as Hhdef by done. clearbody h.
  set (o := overlap_of h) in *. clearbody o.
  set (q := h / 2) in *. clearbody q.
  assert (chained ((t, b) :: l2) ->
    chained ((t, t + q + o) :: (t + q - o, b) :: l2)) as Htail.
  { intros Hc. simpl. split_and!; [lia|lia|lia|lia|].
    destruct l2 as [|[t2 b2] l2]; [done|]. simpl in Hc. destruct Hc as (? & ? & ? & ?).
    split_and!; [lia|lia|lia|lia|done]. }
  induction l1 as [|[t1 b1] l1 IH]; [exact Htail|].
  destruct l1 as [|[t2 b2] l1].
  - intros (? & ? & ? & Hc). apply Htail in Hc. cbn [app] in *.
    split_and!; [lia|lia|lia|lia|exact Hc].
  - intros (? & ? & ? & Hc). apply IH in Hc. cbn [app] in *. split_and!; [lia|lia|lia|lia|exact Hc].
Qed.

Lemma covers_rows_split h l1 l2 t b :
  64 <= b - t -> covers_rows h (l1 ++ (t, b) :: l2) ->
  covers_rows h (l1 ++ (t, t + (b - t) / 2 + overlap_of (b - t))
                    :: (t + (b - t) / 2 - overlap_of (b - t), b) :: l2).
Proof.
  intros Hh ((b0 & Hhd) & (t0 & Hl) & Hall & Hc). apply Forall_app in Hall as [H1 H2].
  apply Forall_cons in H2 as [[H2 H3] H4]. simpl in H2, H3.
  pose proof (half_and_overlap (b - t) Hh).
  split; [|split; [|split]].
  - destruct l1 as [|s l1]; simpl in *; [injection Hhd as ->; by eexists|by exists b0].
  - rewrite last_app in Hl |- *. rewrite !last_cons in *. destruct (last l2); [by exists t0|].
    injection Hl as -> ->. by eexists.
  - apply Forall_app. split; [done|]. rewrite !Forall_cons. cbn [fst snd]. split_and!; [lia..|done].
  - by apply chained_split.
Qed.

(** The plan while the strip [(t, b)] is being worked on. *)
Definition working (p : Plan) (t b : nat) : list (nat * nat) :=
  map (fun f => (top f, bottom f)) (p_fragments p) ++ (t, b) :: map fst (todo p).

Lemma accept_covers h p t b d r :
  covers_rows h (working p t b) -> covers_rows h (strips (accept p t b d r)).
Proof.
  unfold working, strips, accept. intros Hc. destruct (subdivides p t b d r) eqn:E.
  - destruct r as [|e]; [done|]. unfold subdivides in E. bool_to_prop.
    cbn [p_fragments todo with_todo map fst]. by apply covers_rows_split.
  - cbn [p_fragments todo push_fragment]. rewrite map_app, <- app_assoc. by destruct r.
Qed.

Lemma working_pop h p t b d rest :
  todo p = (t, b, d) :: rest -> covers_rows h (strips p) -> covers_rows h (working (with_todo p rest) t b).
Proof. unfold strips, working. by intros ->. Qed.

Section termination.
Context (height : nat) (encode_png : nat -> nat -> result str (list Z))
        (recognise : nat -> list Z -> result str str).

Lemma crop_fields p t b p' r :
  crop height encode_png p t b = (p', r) ->
  width p' = width p /\ todo p' = todo p /\ p_fragments p' = p_fragments p
  /\ max_depth p' = max_depth p /\ max_calls p' = max_calls p
  /\ (calls p <= max_calls p -> calls p' <= max_calls p).
Proof.
  unfold crop. destruct (_ || _ || _); [by intros [= <- _]|].
  destruct (Nat.leb_spec (max_calls p) (calls p)); [by intros [= <- _]|].
  destruct (encode_png t b); intros [= <- _]; simpl; split_and!; try done; lia.
Qed.

(** What holds of a plan between its steps. *)
Definition plan_ok (p : Plan) : Prop := covers_rows height (strips p) /\ calls p <= max_calls p.

Lemma crop_ok p t b p' r :
  crop height encode_png p t b = (p', r) -> calls p <= max_calls p ->
  covers_rows height (working p t b) ->
  calls p' <= max_calls p' /\ covers_rows height (working p' t b)
  /\ todo_weight p' = todo_weight p /\ max_depth p' = max_depth p.
Proof.
  intros (_ & Ht & Hf & Hd & Hm & Hcalls)%crop_fields Hle Hc.
  unfold working, todo_weight in *. rewrite Ht, Hf, Hd, Hm. split_and!; auto.
Qed.

Lemma next_ok fuel : forall p, todo_weight p < fuel -> plan_ok p ->
  exists p' r, next height encode_png fuel p = Some (p', r)
    /\ calls p' <= max_calls p'
    /\ match r with
       | None => todo p' = [] /\ covers_rows height (strips p')
       | Some (t, b, d, _) =>
         covers_rows height (working p' t b)
         /\ strip_weight (max_depth p') d + todo_weight p' <= todo_weight p
       end.
Proof.
  induction fuel as [|fuel IH]; intros p Hw [Hc Hcalls]; [lia|]. cbn [next].
  destruct (todo p) as [|[[t b] d] rest] eqn:Et.
  { eexists _, _. split; [done|]. by split_and!. }
  pose proof (working_pop height p t b d rest Et Hc) as Hwork.
  assert (todo_weight p = strip_weight (max_depth p) d + todo_weight (with_todo p rest)) as Hsum
    by (unfold todo_weight; by rewrite Et).
  destruct (crop height encode_png (with_todo p rest) t b) as [p1 r] eqn:Ecrop.
  apply crop_ok in Ecrop as (Hcalls1 & Hc1 & Hw1 & Hd1); [|done|done].
  simpl in Hd1. destruct r as [bytes|e].
  - eexists _, _. split; [done|]. split_and!; [done|done|]. rewrite Hd1, Hw1. lia.
  - pose proof (accept_weight p1 t b d (Err e)) as Hdec.
    destruct (accept_fields p1 t b d (Err e)) as (_ & Ha & Hb & Hm).
    destruct (IH (accept p1 t b d (Err e))) as (p2 & r2 & -> & Hcalls2 & Hr2).
    + rewrite Hd1, Hw1 in Hdec. lia.
    + split; [by apply accept_covers|]. by rewrite Ha, Hm.
    + exists p2, r2. split_and!; [done|done|]. destruct r2 as [[[[t2 b2] d2] by2]|]; [|done].
      destruct Hr2 as [? ?]. split; [done|]. rewrite Hd1, Hw1 in Hdec. lia.
Qed.

Lemma drain_ok fuel : forall p, todo_weight p < fuel -> plan_ok p ->
  exists p', drain height encode_png recognise fuel p = Some p' /\ todo p' = [] /\ plan_ok p'.
Proof.
  induction fuel as [|fuel IH]; intros p Hw Hok; [lia|]. cbn [drain].
  destruct (next_ok (S fuel) p Hw Hok) as (p1 & r & -> & Hcalls & Hr). rewrite some_bind.
  destruct r as [[[[t b] d] bytes]|]; [|by exists p1; destruct Hr].
  destruct Hr as [Hc Hw1]. apply IH.
  - pose proof (accept_weight p1 t b d (ask recognise p1 bytes)). lia.
  - destruct (accept_fields p1 t b d (ask recognise p1 bytes)) as (_ & Ha & _ & Hm).
    split; [by apply accept_covers|]. by rewrite Ha, Hm.
Qed.

Lemma plan_new_ok w limit calls_limit : 0 < w -> 0 < height ->
  plan_ok (plan_new w height limit calls_limit)
  /\ todo_weight (plan_new w height limit calls_limit) < recognition_fuel limit.
Proof.
  intros Hw Hh. unfold plan_new, plan_ok, strips, todo_weight.
  rewrite (proj2 (Nat.ltb_lt 0 w) Hw), (proj2 (Nat.ltb_lt 0 height) Hh). simpl.
  split; [split; [|lia]|].
  - split_and!; [by eexists|by eexists| |done]. repeat constructor; simpl; lia.
  - unfold strip_weight, recognition_fuel. rewrite Nat.sub_0_r. lia.
Qed.

Lemma boundaries_ok fs : forall p p' bs,
  recognise_boundaries height encode_png recognise p fs = (p', bs) -> calls p <= max_calls p ->
  calls p' <= max_calls p /\ p_fragments p' = p_fragments p /\ length bs = length fs - 1
  /\ max_calls p' = max_calls p.
Proof.
  induction fs as [|f fs IH]; intros p p' bs; cbn [recognise_boundaries]; [by intros [= <- <-]|].
  destruct fs as [|g fs]; [by intros [= <- <-]|]. destruct (strip_between f g) as [t b].
  destruct (crop height encode_png p t b) as [p1 r] eqn:Ec.
  destruct (recognise_boundaries height encode_png recognise p1 (g :: fs)) as [p2 bs2] eqn:Er.
  intros [= <- <-] Hle. apply crop_fields in Ec as (_ & _ & Hf & _ & Hm & Hcalls).
  apply IH in Er as (H1 & H2 & H3 & H4); [|rewrite Hm; auto].
  rewrite Hm in *. split_and!; [done|congruence| |done]. simpl in *. lia.
Qed.
Lemma next_limit fuel : forall p p' r,
  next height encode_png fuel p = Some (p', r) -> max_calls p' = max_calls p.
Proof.
  induction fuel as [|fuel IH]; intros p p' r; [done|]. cbn [next].
  destruct (todo p) as [|[[t b] d] rest]; [by intros [= <- _]|].
  destruct (crop _ _ _ _ _) as [p1 r1] eqn:Ec. apply crop_fields in Ec as (_ & _ & _ & _ & Hm & _).
  destruct r1 as [bytes|e]; [by intros [= <- _]|]. intros Hn%IH.
  destruct (accept_fields p1 t b d (Err e)) as (_ & _ & _ & Hm2). simpl in Hm. congruence.
Qed.

Lemma drain_limit fuel : forall p p',
  drain height encode_png recognise fuel p = Some p' -> max_calls p' = max_calls p.
Proof.
  induction fuel as [|fuel IH]; intros p p'; [done|]. cbn [drain].
  intros ([p1 r] & Hn%next_limit & Hr)%bind_Some.
  destruct r as [[[[t b] d] bytes]|]; [|by injection Hr as <-]. apply IH in Hr.
  destruct (accept_fields p1 t b d (ask recognise p1 bytes)) as (_ & _ & _ & Hm). congruence.
Qed.
End termination.

(** ** Lemmas: stitching *)

Definition rows (f : Fragment) : nat * nat := (top f, bottom f).

Lemma stitch_rows text prev cur b text' cur' :
  stitch text prev cur b = (text', cur') -> rows cur' = rows cur.
Proof. unfold stitch. repeat case_match; intros [= <- <-]; done. Qed.

Lemma stitch_all_total rest : forall text prev bs, length bs = length rest ->
  exists text' fs, stitch_all text prev rest bs = Some (text', fs) /\ map rows fs = map rows rest.
Proof.
  induction rest as [|cur rest IH]; intros text prev bs Hl; [by exists text, []|].
  destruct bs as [|b bs]; [done|]. cbn [stitch_all].
  destruct (stitch text prev cur b) as [text1 cur1] eqn:E.
  destruct (IH text1 cur1 bs) as (text2 & fs & -> & Hr); [simpl in Hl; lia|].
  rewrite some_bind. exists text2, (cur1 :: fs). split; [done|]. simpl. rewrite Hr. f_equal.
  by apply stitch_rows in E.
Qed.

(** A current fragment that stays complete is at the end of the new text, in full. *)
Lemma stitch_complete text prev cur b text' cur' :
  stitch text prev cur b = (text', cur') -> complete cur' = true ->
  (exists x, text = x ++ fr_text prev) ->
  (exists y, text' = text ++ y) /\ (exists x, text' = x ++ fr_text cur') /\ fr_text cur' = fr_text cur.
Proof.
  unfold stitch. intros E Hc (x & Hx). destruct (_ || _ || negb (complete b)); [by injection E as <- <-|].
  destruct (str_is_empty (fr_text b)).
  - injection E as <- <-. split_and!; [by eexists| |done]. rewrite app_assoc. by eexists.
  - destruct (_ || _ || _ || _) eqn:Eg; [by injection E as <- <-|]. injection E as <- <-.
    rewrite !orb_false_iff, !negb_false_iff in Eg. destruct Eg as [[_ He] Hs].
    apply ends_with_spec in He as (q & Hq). apply starts_with_spec in Hs as (r & Hr).
    split_and!; [by eexists| |done]. exists (x ++ q).
    rewrite Hx, Hq, Hr, drop_app_length, <- !app_assoc. done.
Qed.

Lemma stitch_all_complete rest : forall text prev bs text' fs,
  stitch_all text prev rest bs = Some (text', fs) -> forallb complete fs = true ->
  (exists x, text = x ++ fr_text prev) ->
  (exists y, text' = text ++ y) /\ Forall (fun f => contains text' (fr_text f) = true) fs
  /\ map fr_text fs = map fr_text rest.
Proof.
  induction rest as [|cur rest IH]; intros text prev bs text' fs; cbn [stitch_all].
  - intros [= <- <-] _ _. split_and!; [exists []; by rewrite app_nil_r|constructor|done].
  - destruct bs as [|b bs]; [done|]. destruct (stitch text prev cur b) as [text1 cur1] eqn:E.
    intros Hst Hc Hx. apply bind_Some in Hst as ([text2 fs2] & Hrest & [= <- <-]).
    simpl in Hc. apply andb_true_iff in Hc as [Hc1 Hc2].
    destruct (stitch_complete _ _ _ _ _ _ E Hc1 Hx) as ((y & ->) & Hx1 & Heq).
    destruct (IH _ _ _ _ _ Hrest Hc2 Hx1) as ((z & ->) & Hall & Hm). split_and!.
    + rewrite <- app_assoc. by eexists.
    + constructor; [|done]. destruct Hx1 as (x1 & ->). apply contains_spec. exists x1, z.
      by rewrite <- app_assoc.
    + simpl. by rewrite Heq, Hm.
Qed.

Lemma forallb_complete fs : forallb complete fs = true -> Forall (fun f => complete f = true) fs.
Proof. induction fs as [|f fs IH]; simpl; [constructor|]. intros [? ?]%andb_true_iff. constructor; auto. Qed.

Lemma finish_rows p bs rc : finish p bs = Some rc ->
  length bs = length (p_fragments p) - 1 -> map rows (fragments rc) = map rows (p_fragments p).
Proof.
  unfold finish. destruct (p_fragments p) as [|f rest]; [by intros [= <-]|]. intros Hf Hl.
  destruct (stitch_all_total rest (if complete f then fr_text f else []) f bs) as (t & fs & E & Hr);
    [simpl in Hl; lia|]. rewrite E in Hf. injection Hf as <-. simpl. by rewrite Hr.
Qed.

(** ** Properties *)

Section properties.
Context (encode_png : nat -> nat -> result str (list Z))
        (recognise : nat -> list Z -> result str str).

(** The recognition and the plan it ends with. *)
Lemma recognize_run w h depth_limit call_limit : 0 < w -> 0 < h ->
  exists p p' bs rc,
    drain h encode_png recognise (recognition_fuel depth_limit) (plan_new w h depth_limit call_limit)
      = Some p
    /\ recognise_boundaries h encode_png recognise p (p_fragments p) = (p', bs)
    /\ recognize h encode_png recognise w depth_limit call_limit = Some rc
    /\ finish p' bs = Some rc /\ p_fragments p' = p_fragments p
    /\ length bs = length (p_fragments p) - 1 /\ overlap_fragments rc = bs
    /\ physical_calls rc <= max_calls p /\ covers_rows h (map rows (p_fragments p)).
Proof.
  intros Hw Hh. destruct (plan_new_ok h w depth_limit call_limit Hw Hh) as [Hok Hfuel].
  destruct (drain_ok h encode_png recognise (recognition_fuel depth_limit) _ Hfuel Hok)
    as (p & Hd & Ht & Hc & Hcalls).
  destruct (recognise_boundaries h encode_png recognise p (p_fragments p)) as [p' bs] eqn:Eb.
  pose proof Eb as Eb'. apply boundaries_ok in Eb' as (H1 & H2 & H3 & H4); [|done].
  assert (exists rc, finish p' bs = Some rc /\ overlap_fragments rc = bs
            /\ physical_calls rc = calls p') as (rc & Hf & Hbs & Hpc).
  { unfold finish. rewrite H2. destruct (p_fragments p) as [|f rest]; [by eexists|].
    destruct (stitch_all_total rest (if complete f then fr_text f else []) f bs) as (t & fs & -> & _);
      [simpl in H3; lia|]. by eexists. }
  exists p, p', bs, rc. split_and!; try done.
  - unfold recognize. rewrite Hd, some_bind, Eb. done.
  - by rewrite Hpc.
  - unfold strips in Hc. rewrite Ht, app_nil_r in Hc. done.
Qed.
End properties.

(** C40: recognition terminates for every image, encoder and recogniser, within the call budget;
    the fragments of a non-empty image, from top to bottom, cover all its rows, neighbours
    overlapping by 1 to 64 rows, and there is one overlap fragment per pair of neighbours. *)
Theorem recognize_covers_image (encode_png : nat -> nat -> result str (list Z))
    (recognise : nat -> list Z -> result str str) (w h depth_limit call_limit : nat) :
  exists rc,
    recognize h encode_png recognise w depth_limit call_limit = Some rc
    /\ physical_calls rc <= call_limit
    /\ (0 < w -> 0 < h ->
          covers_rows h (map rows (fragments rc))
          /\ length (overlap_fragments rc) = length (fragments rc) - 1)
    /\ (w = 0 \/ h = 0 -> rc_complete rc = false /\ physical_calls rc = 0).
Proof.
  destruct (decide (0 < w /\ 0 < h)) as [[Hw Hh]|Hz].
  - destruct (recognize_run encode_png recognise w h depth_limit call_limit Hw Hh)
      as (p & p' & bs & rc & Hd & Hb & Hr & Hf & Hfr & Hlen & Hov & Hcalls & Hc).
    exists rc. split_and!; [done| | |lia].
    + apply drain_limit in Hd. simpl in Hd. lia.
    + intros _ _. assert (map rows (fragments rc) = map rows (p_fragments p)) as Hrows
        by (rewrite <- Hfr; apply (finish_rows p' bs); [done|by rewrite Hfr]).
      split; [by rewrite Hrows|]. rewrite Hov, Hlen.
      by rewrite <- (length_map rows (fragments rc)), Hrows, length_map.
  - assert ((0 <? w) && (0 <? h) = false) as E
      by (apply andb_false_iff; rewrite !Nat.ltb_ge; lia).
    unfold recognize, recognition_fuel. unfold plan_new. rewrite E. eexists.
    split; [reflexivity|]. split_and!; [simpl; lia|lia|done].
Qed.

(** when a recognition is complete nothing that was recognised is lost: the text of every
    fragment occurs in the result text in full. *)
Theorem recognize_complete_text (encode_png : nat -> nat -> result str (list Z))
    (recognise : nat -> list Z -> result str str) (w h depth_limit call_limit : nat)
    (rc : Recognition)
    (Hr : recognize h encode_png recognise w depth_limit call_limit = Some rc)
    (Hc : rc_complete rc = true) :
  Forall (fun f => contains (rc_text rc) (fr_text f) = true /\ complete f = true) (fragments rc)
  /\ Forall (fun f => complete f = true) (overlap_fragments rc).
Proof.
  unfold recognize in Hr. apply bind_Some in Hr as (p & _ & Hr).
  destruct (recognise_boundaries _ _ _ _ _) as [p' bs]. unfold finish in Hr.
  apply bind_Some in Hr as ([text fs] & Hst & [= <-]). simpl in *.
  apply andb_true_iff in Hc as [Hc1 Hc2]. split; [|by apply forallb_complete].
  apply Forall_and. split; [|by apply forallb_complete].
  destruct (p_fragments p') as [|f rest]; [by injection Hst as _ <-|].
  apply bind_Some in Hst as ([text2 fs2] & Hall & [= <- <-]).
  simpl in Hc1. apply andb_true_iff in Hc1 as [Hf Hfs]. rewrite Hf in Hall.
  apply stitch_all_complete in Hall as ((y & ->) & Hall & _); [|done|by exists []].
  constructor; [|done]. apply contains_spec. by exists [], y.
Qed.

(** ** Witnesses *)

(** A recogniser that is overrun by strips of more than 100 rows, and otherwise reads one line
    for each 40 rows that start in the strip. *)
Definition demo_encode (t b : nat) : result str (list Z) := Ok [Z.of_nat t; Z.of_nat b].

Definition demo_lines (t b : nat) : str :=
  concat (map (fun i => if (t <=? i * 40) && (i * 40 + 10 <=? b) then [65 + Z.of_nat i; NL]%Z else [])
            (List.seq 0 10)).

Definition demo_recognise (n : nat) (bytes : list Z) : result str str :=
  match bytes with
  | [t; b] =>
    if 100 <? Z.to_nat b - Z.to_nat t then Err (u8"finish_reason length")
    else Ok (demo_lines (Z.to_nat t) (Z.to_nat b))
  | _ => Err []
  end.

Definition demo_recognition : Recognition :=
  match recognize 150 demo_encode demo_recognise 10 3 20 with
  | Some rc => rc
  | None => {| rc_text := []; rc_complete := false; physical_calls := 0; fragments := [];
               overlap_fragments := [] |}
  end.

Lemma recognize_complete_text_witness :
  (Forall (fun f => contains (rc_text demo_recognition) (fr_text f) = true /\ complete f = true)
    (fragments demo_recognition)
   /\ Forall (fun f => complete f = true) (overlap_fragments demo_recognition))
  /\ (length (fragments demo_recognition), rc_text demo_recognition) = (2, demo_lines 0 150).
Proof.
  split; [|vm_compute; reflexivity].
  apply (recognize_complete_text demo_encode demo_recognise 10 150 3 20 demo_recognition);
    vm_compute; reflexivity.
Defined.
