(* ===== verification/Order.v ===== *)
(** * Comparators ([std::cmp::Ordering])

    Lexicographic comparison as the retrieval code writes it ([cmp], [then], [reverse]), the
    laws such a comparator has, and the stable sort by a comparator that may fault.  The
    comparators of the ranking are instances of the class, so their laws are found by
    resolution. *)
From S2P Require Import Prelude.

(** [Ordering::then]; the comparators here are pure, so [then_with] is the same. *)
Definition cmp_then (c d : comparison) : comparison := match c with Eq => d | _ => c end.

Definition is_le (c : comparison) : bool := match c with Gt => false | _ => true end.

(** What [sort_by] asks of a comparator: a total preorder. *)
Class Comparator {A} (cmp : A -> A -> comparison) : Prop := {
  cmp_antisym x y : cmp y x = CompOpp (cmp x y);
  cmp_trans x y z : is_le (cmp x y) = true -> is_le (cmp y z) = true -> is_le (cmp x z) = true;
}.

(** The stable sort by a comparator that can fault; the first fault ends the sort. *)
Fixpoint insert_cmp {A} (cmp : A -> A -> option comparison) (x : A) (l : list A) : option (list A) :=
  match l with
  | [] => Some [x]
  | y :: l' =>
    c ← cmp x y;
    if is_le c then Some (x :: y :: l') else (r ← insert_cmp cmp x l'; Some (y :: r))
  end.

Fixpoint sort_cmp {A} (cmp : A -> A -> option comparison) (l : list A) : option (list A) :=
  match l with
  | [] => Some []
  | x :: l' => r ← sort_cmp cmp l'; insert_cmp cmp x r
  end.

(** [slice::sort_by] with a comparator that never faults. *)
Definition sort_with {A} (cmp : A -> A -> comparison) : list A -> list A :=
  sort_by (fun x y => is_le (cmp x y)).

Section comparator.
Context {A : Type} (cmp : A -> A -> comparison) `{!Comparator cmp}.

Lemma cmp_refl x : cmp x x = Eq.
Proof. pose proof (cmp_antisym x x) as H. by destruct (cmp x x). Qed.

Lemma cmp_total x y : is_le (cmp x y) = false -> is_le (cmp y x) = true.
Proof. rewrite (cmp_antisym x y). by destruct (cmp x y). Qed.

Lemma cmp_eq_l x y z : cmp x y = Eq -> cmp x z = cmp y z.
Proof.
  intros H. assert (cmp y x = Eq) as H' by (by rewrite (cmp_antisym x y), H).
  pose proof (cmp_trans x y z) as T1. pose proof (cmp_trans y x z) as T2.
  pose proof (cmp_trans z x y) as T3. pose proof (cmp_trans z y x) as T4.
  rewrite (cmp_antisym y z) in T4. rewrite (cmp_antisym x z) in T3, T4.
  rewrite (cmp_antisym y z) in T3. rewrite H in T1, T3. rewrite H' in T2, T4.
  destruct (cmp x z), (cmp y z); simpl in *; naive_solver.
Qed.

Lemma cmp_eq_r x y z : cmp x y = Eq -> cmp z x = cmp z y.
Proof.
  intros H. rewrite (cmp_antisym x z), (cmp_antisym y z). f_equal. by apply cmp_eq_l.
Qed.

Lemma cmp_lt_le x y z : cmp x y = Lt -> is_le (cmp y z) = true -> cmp x z = Lt.
Proof.
  intros H1 H2. pose proof (cmp_trans x y z ltac:(by rewrite H1) H2) as H3.
  destruct (cmp x z) eqn:E; [|done|done].
  rewrite (cmp_antisym z y), <- (cmp_eq_l x z y E), H1 in H2. done.
Qed.

Lemma sort_with_perm l : sort_with cmp l ≡ₚ l.
Proof. apply sort_by_perm. Qed.

Lemma sort_with_sorted l : StronglySorted (fun x y => is_le (cmp x y) = true) (sort_with cmp l).
Proof. apply sort_by_sorted; [apply cmp_total|apply cmp_trans]. Qed.

(** Two sorted arrangements of the same elements agree where ties are equal elements. *)
Lemma sorted_cmp_unique l1 l2 :
  (forall x y, x ∈ l1 -> y ∈ l1 -> cmp x y = Eq -> x = y) ->
  StronglySorted (fun x y => is_le (cmp x y) = true) l1 ->
  StronglySorted (fun x y => is_le (cmp x y) = true) l2 ->
  l1 ≡ₚ l2 -> l1 = l2.
Proof.
  revert l2. induction l1 as [|x l1 IH]; intros l2 Heq S1 S2 P.
  { by apply Permutation_nil_l in P. }
  destruct l2 as [|y l2]; [by apply Permutation_nil_r in P|].
  apply StronglySorted_inv in S1 as [S1 F1]. apply StronglySorted_inv in S2 as [S2 F2].
  rewrite Forall_forall in F1, F2.
  assert (x = y) as ->.
  { assert (x ∈ y :: l2) as Hx by (rewrite <- P; left).
    assert (y ∈ x :: l1) as Hy by (rewrite P; left).
    apply elem_of_cons in Hx as [->|Hx]; [done|]. apply elem_of_cons in Hy as [->|Hy]; [done|].
    apply Heq; [left|by right|]. specialize (F1 _ Hy). specialize (F2 _ Hx).
    rewrite (cmp_antisym x y) in F2. by destruct (cmp x y). }
  apply Permutation_cons_inv in P. f_equal.
  apply IH; [|done..]. intros u v Hu Hv. apply Heq; by right.
Qed.

(** The faulting sort is the plain one where the comparator answers on the elements. *)
Lemma insert_cmp_pure f x l :
  (forall y, y ∈ l -> f x y = Some (cmp x y)) ->
  insert_cmp f x l = Some (insert_sorted (fun x y => is_le (cmp x y)) x l).
Proof.
  induction l as [|y l IH]; intros Hf; simpl; [done|].
  rewrite Hf by left. simpl. destruct (is_le _); [done|].
  rewrite IH; [done|]. intros z Hz. apply Hf. by right.
Qed.

Lemma sort_cmp_pure f l :
  (forall x y, x ∈ l -> y ∈ l -> f x y = Some (cmp x y)) ->
  sort_cmp f l = Some (sort_with cmp l).
Proof.
  induction l as [|x l IH]; intros Hf; [done|]. simpl.
  rewrite IH by (intros; apply Hf; by right). rewrite some_bind.
  apply insert_cmp_pure. intros y Hy. apply Hf; [left|].
  rewrite sort_with_perm in Hy. by right.
Qed.
End comparator.

#[export] Instance comparator_proj {A B} (cmp : B -> B -> comparison) (f : A -> B) :
  Comparator cmp -> Comparator (fun x y => cmp (f x) (f y)).
Proof. intros H. split; intros; [apply cmp_antisym|by eapply cmp_trans]. Qed.

#[export] Instance comparator_then {A} (c d : A -> A -> comparison) :
  Comparator c -> Comparator d -> Comparator (fun x y => cmp_then (c x y) (d x y)).
Proof.
  intros Hc Hd. split.
  - intros x y. rewrite (cmp_antisym (cmp:=c) x y), (cmp_antisym (cmp:=d) x y).
    by destruct (c x y).
  - intros x y z. destruct (c x y) eqn:Exy; simpl; [| |done].
    + rewrite (cmp_eq_l c x y z Exy). destruct (c y z); simpl; [|done|done]. apply cmp_trans.
    + intros _ Hyz. rewrite (cmp_lt_le c x y z Exy); [done|]. by destruct (c y z).
Qed.

#[export] Instance comparator_flip {A} (c : A -> A -> comparison) :
  Comparator c -> Comparator (fun x y => c y x).
Proof. intros H. split; intros; [apply cmp_antisym|by eapply cmp_trans]. Qed.

#[export] Instance comparator_N : Comparator N.compare.
Proof.
  split; [intros; apply N.compare_antisym|]. intros x y z.
  destruct (N.compare_spec x y), (N.compare_spec y z), (N.compare_spec x z); simpl; try done; lia.
Qed.
