(* ===== verification/Rank.v ===== *)
(** * [crates/knowledge/src/knowledge_retrieval_pg/semantic_v2.rs]: exact rank fusion

    The reciprocal-rank-fusion score as an exact fraction of [u128] numbers, its comparison
    without products, and the order of the candidates.  Numbers are [N]; checked operations
    answer with the error of the code when the result does not fit in 128 bits.  Identifiers
    ([Uuid]) are compared as the 128-bit numbers their bytes spell. *)
From Stdlib Require Import QArith_base.
From S2P Require Import Prelude RustStr Policy Order.

Local Open Scope N_scope.

Inductive KnowledgeRetrievalError :=
| InvalidRequest (m : str) | Unavailable (m : str) | PolicyRevoked (m : str)
| DigestMismatch (m : str) | QuotaExceeded (m : str) | InvalidHit (m : str).

Definition integrity (message : str) : KnowledgeRetrievalError := Unavailable message.

Definition u128_modulus : N := 340282366920938463463374607431768211456.

Definition u128_checked_add (a b : N) : option N := if a + b <? u128_modulus then Some (a + b) else None.
Definition u128_checked_mul (a b : N) : option N := if a * b <? u128_modulus then Some (a * b) else None.

Definition MILLION : N := 1000000.

Definition E_ZERO_DENOMINATOR : str := u8"zero RRF denominator".
Definition E_RANK_OVERFLOW : str := u8"RRF rank denominator overflow".
Definition E_WEIGHT_OVERFLOW : str := u8"RRF weight denominator overflow".
Definition E_NUMERATOR_OVERFLOW : str := u8"RRF numerator overflow".
Definition E_DENOMINATOR_OVERFLOW : str := u8"RRF denominator overflow".
Definition E_NO_RANK : str := u8"folded source has no channel rank".

(** The number of bits bounds the turns of Euclid's loop: two turns halve the divisor. *)
Definition euclid_fuel (n : N) : nat := (2 * N.size_nat n + 2)%nat.

Fixpoint gcd_loop (fuel : nat) (left right : N) : option N :=
  match fuel with
  | O => None
  | S fuel' =>
    if negb (right =? 0) then gcd_loop fuel' right (left mod right)
    else Some (N.max left 1)
  end.

Definition gcd (left right : N) : option N := gcd_loop (euclid_fuel right) left right.

Record ExactRationalV2 := { numerator : N; denominator : N }.

(** [None] is a loop out of fuel or a division by zero; neither happens ([rational_new_spec]). *)
Definition rational_new (n d : N) : option (result KnowledgeRetrievalError ExactRationalV2) :=
  if d =? 0 then Some (Err (integrity E_ZERO_DENOMINATOR))
  else
    divisor ← gcd n d;
    Some (Ok {| numerator := n / divisor; denominator := d / divisor |}).

(** A [Result] of a function that can also fault. *)
Definition andThen {E A B} (r : option (result E A)) (f : A -> option (result E B))
    : option (result E B) :=
  match r with
  | None => None
  | Some (Err e) => Some (Err e)
  | Some (Ok a) => f a
  end.

Definition channel (weight_millionths k rank : N)
    : option (result KnowledgeRetrievalError ExactRationalV2) :=
  andThen (Some (ok_or (u128_checked_add k rank) (integrity E_RANK_OVERFLOW))) (fun rank_denominator =>
  andThen (Some (ok_or (u128_checked_mul MILLION rank_denominator) (integrity E_WEIGHT_OVERFLOW)))
    (fun d => rational_new weight_millionths d)).

Definition rational_add (a b : ExactRationalV2)
    : option (result KnowledgeRetrievalError ExactRationalV2) :=
  andThen (Some (ok_or (u128_checked_mul (numerator a) (denominator b)) (integrity E_NUMERATOR_OVERFLOW)))
    (fun left =>
  andThen (Some (ok_or (u128_checked_mul (numerator b) (denominator a)) (integrity E_NUMERATOR_OVERFLOW)))
    (fun right =>
  andThen (Some (ok_or (u128_checked_add left right) (integrity E_NUMERATOR_OVERFLOW))) (fun n =>
  andThen (Some (ok_or (u128_checked_mul (denominator a) (denominator b))
                   (integrity E_DENOMINATOR_OVERFLOW))) (fun d =>
  rational_new n d)))).

Definition reverse_if (inverted : bool) (c : comparison) : comparison :=
  if inverted then CompOpp c else c.

(** [None]: a zero denominator (division by zero) or no fuel. *)
Fixpoint compare_loop (fuel : nat) (ln ld rn rd : N) (inverted : bool) : option comparison :=
  match fuel with
  | O => None
  | S fuel' =>
    if (ld =? 0) || (rd =? 0) then None
    else
      let left_integer := ln / ld in
      let right_integer := rn / rd in
      if negb (left_integer =? right_integer) then
        Some (reverse_if inverted (left_integer ?= right_integer))
      else
        let left_remainder := ln mod ld in
        let right_remainder := rn mod rd in
        if (left_remainder =? 0) || (right_remainder =? 0) then
          Some (reverse_if inverted (left_remainder ?= right_remainder))
        else compare_loop fuel' ld left_remainder rd right_remainder (negb inverted)
  end.

Definition compare_fractions_without_products (ln ld rn rd : N) : option comparison :=
  compare_loop (euclid_fuel ld) ln ld rn rd false.

Definition cmp_exact (a b : ExactRationalV2) : option comparison :=
  compare_fractions_without_products (numerator a) (denominator a) (numerator b) (denominator b).

Definition rrf_score (policy : RetrievalRrfPolicyV2) (vector_rank keyword_rank : option N)
    : option (result KnowledgeRetrievalError ExactRationalV2) :=
  andThen (match vector_rank with
           | Some rank =>
             andThen (channel (vector_weight_millionths policy) (rrf_k policy) rank)
               (fun s => Some (Ok (Some s)))
           | None => Some (Ok None)
           end) (fun score =>
  andThen (match keyword_rank with
           | Some rank =>
             andThen (channel (keyword_weight_millionths policy) (rrf_k policy) rank) (fun part =>
               match score with
               | Some old => andThen (rational_add old part) (fun s => Some (Ok (Some s)))
               | None => Some (Ok (Some part))
               end)
           | None => Some (Ok score)
           end) (fun score => Some (ok_or score (integrity E_NO_RANK)))).

Inductive KnowledgeSourceTypeV2 := Text | ParentText | ImageOcr.

Record SemanticCandidateV2 := {
  document_id : N; source_chunk_id : N; product_id : N; product_version_id : N;
  frozen_document_display_name : str; chunk_utf8 : str; chunk_sha256 : str;
  chunk_byte_length : N; source_type : KnowledgeSourceTypeV2;
  vector_rank_of : option N; keyword_rank_of : option N;
  exact_rrf_score : ExactRationalV2; pre_rerank_rrf_rank : N;
}.

Definition option_rank (l r : option N) : comparison :=
  match l, r with
  | Some l, Some r => l ?= r
  | Some _, None => Lt
  | None, Some _ => Gt
  | None, None => Eq
  end.

Definition compare_candidates (l r : SemanticCandidateV2) : option comparison :=
  by_score ← cmp_exact (exact_rrf_score r) (exact_rrf_score l);
  Some (cmp_then by_score
       (cmp_then (option_rank (vector_rank_of l) (vector_rank_of r))
       (cmp_then (option_rank (keyword_rank_of l) (keyword_rank_of r))
       (cmp_then (product_id l ?= product_id r)
       (cmp_then (product_version_id l ?= product_version_id r)
       (cmp_then (document_id l ?= document_id r)
                 (source_chunk_id l ?= source_chunk_id r))))))).

(** ** Lemmas: Euclid's loop *)

Lemma size_nat_half a b : 2 * a < b -> (N.size_nat a < N.size_nat b)%nat.
Proof.
  intros Hab. destruct a as [|a]; [destruct b; [lia|]; simpl; destruct p; simpl; lia|].
  pose proof (N.size_gt (Npos a)) as Ha. pose proof (N.size_le (Npos a)) as Ha2.
  pose proof (N.size_gt b) as Hb.
  assert (forall n, N.of_nat (N.size_nat n) = N.size n) as Hs.
  { intros [|p]; [done|]. simpl. induction p; simpl in *; lia. }
  destruct (decide (N.size_nat (Npos a) < N.size_nat b)%nat) as [|Hn]; [done|]. exfalso.
  assert (2 ^ N.size b <= 2 ^ N.size (Npos a)) as Hpow
    by (apply N.pow_le_mono_r; [done|]; rewrite <- !Hs; lia).
  rewrite N.succ_double_spec in Ha2. lia.
Qed.

Lemma mod_half a b : b <> 0 -> b <= a -> 2 * (a mod b) < a.
Proof.
  intros Hb Hle. pose proof (N.div_mod a b Hb) as Hd. pose proof (N.mod_lt a b Hb) as Hm.
  assert (1 <= a / b) by (apply N.div_le_lower_bound; lia).
  assert (b * 1 <= b * (a / b)) by (apply N.mul_le_mono_l; lia). lia.
Qed.


(** Two turns halve the right operand, so the fuel of [gcd] is enough. *)
Lemma gcd_loop_spec n : forall fuel l r,
  (N.size_nat r <= n)%nat -> (2 * n + 2 <= fuel)%nat ->
  gcd_loop fuel l r = Some (N.max (N.gcd l r) 1).
Proof.
  induction n as [n IH] using lt_wf_ind. intros fuel l r Hr Hf.
  destruct fuel as [|[|fuel]]; [lia|lia|]. cbn [gcd_loop].
  destruct (N.eqb_spec r 0) as [->|Hr0]; cbn [negb]; [by rewrite N.gcd_0_r|].
  pose proof (N.mod_lt l r Hr0) as Hm. rewrite (N.gcd_comm l r), <- (N.gcd_mod l r Hr0).
  destruct (N.eqb_spec (l mod r) 0) as [->|Hm0]; cbn [negb]; [by rewrite N.gcd_0_l|].
  pose proof (mod_half r (l mod r) Hm0 ltac:(lia)) as Hhalf.
  pose proof (size_nat_half _ _ Hhalf) as Hsz.
  rewrite (IH (N.size_nat (r mod (l mod r)))); [|lia|lia|lia].
  rewrite (N.gcd_comm (l mod r)), (N.gcd_mod _ _ Hm0). by rewrite N.gcd_comm.
Qed.

Lemma gcd_spec l r : gcd l r = Some (N.max (N.gcd l r) 1).
Proof. apply (gcd_loop_spec (N.size_nat r)); unfold euclid_fuel; lia. Qed.

Lemma gcd_pos l r : r <> 0 -> gcd l r = Some (N.gcd l r).
Proof.
  intros Hr. rewrite gcd_spec. f_equal. apply N.max_l.
  destruct (N.eq_dec (N.gcd l r) 0) as [H%N.gcd_eq_0_r|]; lia.
Qed.

(** ** Lemmas: the comparison without products *)

Lemma lt_quotients ln ld rn rd :
  ld <> 0 -> rd <> 0 -> ln / ld < rn / rd -> ln * rd < rn * ld.
Proof.
  intros Hl Hr Hlt. pose proof (N.div_mod ln ld Hl) as Dl. pose proof (N.div_mod rn rd Hr) as Dr.
  pose proof (N.mod_lt ln ld Hl) as Ml.
  assert (ld * (ln / ld + 1) <= ld * (rn / rd)) by (apply N.mul_le_mono_l; lia).
  assert (ln * rd < ld * (rn / rd) * rd) by (apply N.mul_lt_mono_pos_r; [lia|]; rewrite N.mul_add_distr_l, N.mul_1_r in *; lia).
  assert (rd * (rn / rd) * ld <= rn * ld) by (apply N.mul_le_mono_r, N.Div0.mul_div_le).
  replace (ld * (rn / rd) * rd) with (rd * (rn / rd) * ld) in * by lia. lia.
Qed.

Lemma compare_quotients ln ld rn rd :
  ld <> 0 -> rd <> 0 -> ln / ld <> rn / rd ->
  (ln / ld ?= rn / rd) = (ln * rd ?= rn * ld).
Proof.
  intros Hl Hr Hne.
  destruct (N.compare_spec (ln / ld) (rn / rd)) as [|Hlt|Hlt]; [done| |]; symmetry.
  - by apply N.compare_lt_iff, lt_quotients.
  - by apply N.compare_gt_iff, lt_quotients.
Qed.

Lemma N_add_compare_l a b c : (a + b ?= a + c) = (b ?= c).
Proof.
  destruct (N.compare_spec b c) as [->|H|H];
    [apply N.compare_refl|apply N.compare_lt_iff; lia|apply N.compare_gt_iff; lia].
Qed.

Lemma compare_remainders ln ld rn rd :
  ld <> 0 -> rd <> 0 -> ln / ld = rn / rd ->
  (ln * rd ?= rn * ld) = ((ln mod ld) * rd ?= (rn mod rd) * ld).
Proof.
  intros Hl Hr Heq. pose proof (N.div_mod ln ld Hl) as Dl. pose proof (N.div_mod rn rd Hr) as Dr.
  symmetry. rewrite <- (N_add_compare_l (ld * (ln / ld) * rd)), <- N.mul_add_distr_r, <- Dl. f_equal.
  rewrite Heq. transitivity ((rd * (rn / rd) + rn mod rd) * ld); [|by rewrite <- Dr].
  rewrite N.mul_add_distr_r. f_equal. lia.
Qed.

Lemma compare_zero_remainder l r ld rd :
  ld <> 0 -> rd <> 0 -> l = 0 \/ r = 0 -> (l ?= r) = (l * rd ?= r * ld).
Proof.
  intros Hl Hr [->| ->]; symmetry.
  - rewrite N.mul_0_l. destruct (N.eq_dec r 0) as [->|]; [by rewrite N.mul_0_l|].
    transitivity Lt; [apply N.compare_lt_iff; nia|symmetry; apply N.compare_lt_iff; lia].
  - rewrite N.mul_0_l. destruct (N.eq_dec l 0) as [->|]; [by rewrite N.mul_0_l|].
    transitivity Gt; [apply N.compare_gt_iff; nia|symmetry; apply N.compare_gt_iff; lia].
Qed.

(** One turn of the loop on positive denominators: it answers, or it inverts both fractions. *)
Lemma compare_turn fuel ln ld rn rd inv :
  ld <> 0 -> rd <> 0 ->
  compare_loop (S fuel) ln ld rn rd inv = Some (reverse_if inv (ln * rd ?= rn * ld)) \/
  (ln mod ld <> 0 /\ rn mod rd <> 0 /\
   compare_loop (S fuel) ln ld rn rd inv = compare_loop fuel ld (ln mod ld) rd (rn mod rd) (negb inv) /\
   reverse_if inv (ln * rd ?= rn * ld)
   = reverse_if (negb inv) (ld * (rn mod rd) ?= rd * (ln mod ld))).
Proof.
  intros Hl Hr. cbn [compare_loop].
  rewrite (proj2 (N.eqb_neq ld 0) Hl), (proj2 (N.eqb_neq rd 0) Hr). cbn [orb].
  destruct (N.eqb_spec (ln / ld) (rn / rd)) as [Heq|Hne]; cbn [negb].
  2: { left. by rewrite compare_quotients. }
  destruct (N.eqb_spec (ln mod ld) 0) as [Hz|Hnl]; cbn [orb].
  { left. rewrite compare_remainders by done. rewrite <- compare_zero_remainder; auto. }
  destruct (N.eqb_spec (rn mod rd) 0) as [Hz|Hnr]; cbn [orb].
  { left. rewrite compare_remainders by done. rewrite <- compare_zero_remainder; auto. }
  right. repeat split; [done|done|]. rewrite compare_remainders by done.
  rewrite (N.compare_antisym (rd * (ln mod ld))), (N.mul_comm rd), (N.mul_comm ld).
  by destruct inv, (_ ?= _).
Qed.

Lemma compare_loop_spec n : forall fuel ln ld rn rd inv,
  (N.size_nat ld <= n)%nat -> (2 * n + 2 <= fuel)%nat -> ld <> 0 -> rd <> 0 ->
  compare_loop fuel ln ld rn rd inv = Some (reverse_if inv (ln * rd ?= rn * ld)).
Proof.
  induction n as [n IH] using lt_wf_ind. intros fuel ln ld rn rd inv Hn Hf Hl Hr.
  destruct fuel as [|[|fuel]]; [lia|lia|].
  destruct (compare_turn (S fuel) ln ld rn rd inv Hl Hr) as [->|(Hl1 & Hr1 & -> & ->)]; [done|].
  destruct (compare_turn fuel ld (ln mod ld) rd (rn mod rd) (negb inv) Hl1 Hr1)
    as [->|(Hl2 & Hr2 & -> & ->)]; [done|].
  pose proof (N.mod_lt ln ld Hl) as Hm.
  pose proof (size_nat_half _ _ (mod_half ld (ln mod ld) Hl1 ltac:(lia))) as Hsz.
  apply (IH (N.size_nat (ld mod (ln mod ld)))); [lia|lia|lia|done|done].
Qed.

Lemma compare_fractions_value ln ld rn rd :
  ld <> 0 -> rd <> 0 ->
  compare_fractions_without_products ln ld rn rd = Some (ln * rd ?= rn * ld).
Proof.
  intros Hl Hr. unfold compare_fractions_without_products.
  rewrite (compare_loop_spec (N.size_nat ld)); [done|lia|unfold euclid_fuel; lia|done|done].
Qed.

(** ** Exact fractions *)

(** The number a fraction stands for (the denominator is never zero, [reduced]). *)
Definition positive_of (n : N) : positive := match n with N0 => 1%positive | Npos p => p end.

Definition rational_value (q : ExactRationalV2) : Q :=
  Qmake (Z.of_N (numerator q)) (positive_of (denominator q)).

Definition reduced (q : ExactRationalV2) : Prop :=
  denominator q <> 0 /\ N.gcd (numerator q) (denominator q) = 1.

(** The contribution of a channel: nothing without a rank, else [w / (10^6 (k + rank))]. *)
Definition channel_value (w k : N) (rank : option N) : Q :=
  match rank with
  | None => 0#1
  | Some r => Qmake (Z.of_N w) (positive_of (MILLION * (k + r)))
  end.

Definition u32_number (n : N) : Prop := n < 4294967296.

Lemma positive_of_N n : n <> 0 -> Npos (positive_of n) = n.
Proof. by destruct n. Qed.

Lemma positive_of_Z n : n <> 0 -> Zpos (positive_of n) = Z.of_N n.
Proof. by destruct n. Qed.

Lemma rational_value_compare a b :
  denominator a <> 0 -> denominator b <> 0 ->
  (numerator a * denominator b ?= numerator b * denominator a)
  = Qcompare (rational_value a) (rational_value b).
Proof.
  intros Ha Hb. unfold Qcompare, rational_value. cbn [Qnum Qden].
  rewrite !positive_of_Z by done. rewrite <- !N2Z.inj_mul. symmetry. apply N2Z.inj_compare.
Qed.

Lemma cmp_exact_value a b :
  reduced a -> reduced b -> cmp_exact a b = Some (Qcompare (rational_value a) (rational_value b)).
Proof.
  intros [Ha _] [Hb _]. unfold cmp_exact. rewrite compare_fractions_value by done.
  by rewrite rational_value_compare.
Qed.

#[export] Instance comparator_Q : Comparator Qcompare.
Proof.
  split.
  - intros x y. symmetry. apply Qcompare_antisym.
  - intros x y z. assert (forall c, is_le c = true <-> c <> Gt) as E by (by intros []).
    rewrite !E. apply Qle_trans.
Qed.

#[export] Instance comparator_option_rank : Comparator option_rank.
Proof.
  split.
  - intros [x|] [y|]; simpl; try done. apply N.compare_antisym.
  - intros [x|] [y|] [z|]; simpl; try done. apply (cmp_trans (cmp:=N.compare)).
Qed.

Lemma rational_new_spec n d :
  d <> 0 -> exists q, rational_new n d = Some (Ok q) /\ reduced q
    /\ numerator q * d = n * denominator q /\ numerator q <= n /\ denominator q <= d.
Proof.
  intros Hd. unfold rational_new. rewrite (proj2 (N.eqb_neq d 0) Hd), (gcd_pos n d Hd).
  set (g := N.gcd n d). assert (g <> 0) as Hg by (intros H%N.gcd_eq_0_r; lia).
  destruct (N.gcd_divide_l n d) as [a Ha]. destruct (N.gcd_divide_r n d) as [b Hb].
  fold g in Ha, Hb. eexists. split; [rewrite some_bind; reflexivity|]. cbn [numerator denominator].
  assert (n / g = a) as -> by (rewrite Ha; by apply N.div_mul).
  assert (d / g = b) as -> by (rewrite Hb; by apply N.div_mul).
  assert (b <> 0) as Hb0 by (intros ->; lia).
  repeat split; [done| | | |].
  - cbn [numerator denominator]. apply (N.mul_cancel_r _ _ g); [done|].
    rewrite <- N.gcd_mul_mono_r, <- Ha, <- Hb. fold g. lia.
  - rewrite Ha, Hb at 1. lia.
  - rewrite Ha. nia.
  - rewrite Hb. nia.
Qed.

Lemma rational_new_reduced n d q : rational_new n d = Some (Ok q) -> reduced q.
Proof.
  destruct (N.eq_dec d 0) as [->|Hd]; [done|].
  destruct (rational_new_spec n d Hd) as (q' & -> & Hq & _). by intros [= <-].
Qed.

Lemma andThen_Ok {E A B} (r : option (result E A)) (f : A -> option (result E B)) b :
  andThen r f = Some (Ok b) -> exists a, r = Some (Ok a) /\ f a = Some (Ok b).
Proof. destruct r as [[a|]|]; cbn; naive_solver. Qed.

(** Every score that is returned is in lowest terms. *)
Lemma rrf_score_reduced policy v k s : rrf_score policy v k = Some (Ok s) -> reduced s.
Proof.
  intros (s1 & H1 & (s2 & H2 & H3)%andThen_Ok)%andThen_Ok.
  assert (forall a w k' r, channel w k' r = Some (Ok a) -> reduced a) as Hc.
  { unfold channel. intros a w k' r (? & _ & (? & _ & H)%andThen_Ok)%andThen_Ok.
    by eapply rational_new_reduced. }
  assert (forall a, s1 = Some a -> reduced a) as R1.
  { intros a ->. destruct v; [|done]. apply andThen_Ok in H1 as (b & Hb & [= ->]). by eapply Hc. }
  destruct s2 as [s2|]; [|done]. injection H3 as <-.
  destruct k as [r|]; [|injection H2 as ->; by apply R1].
  apply andThen_Ok in H2 as (b & Hb & H2). destruct s1 as [a|]; [|injection H2 as <-; by eapply Hc].
  apply andThen_Ok in H2 as (q & H2 & [= ->]). unfold rational_add in H2.
  repeat (apply andThen_Ok in H2 as (? & _ & H2)). by eapply rational_new_reduced.
Qed.

Lemma channel_spec w k r :
  u32_number w -> u32_number k -> u32_number r -> k + r <> 0 ->
  exists q, channel w k r = Some (Ok q) /\ reduced q
    /\ Qeq (rational_value q) (channel_value w k (Some r))
    /\ numerator q < 4294967296 /\ denominator q < 9007199254740992.
Proof.
  unfold u32_number. intros Hw Hk Hr Hkr. unfold channel, u128_checked_add, u128_checked_mul.
  rewrite (proj2 (N.ltb_lt _ _)) by (unfold u128_modulus; lia). cbn [ok_or andThen].
  rewrite (proj2 (N.ltb_lt _ _)) by (unfold u128_modulus, MILLION; lia). cbn [ok_or andThen].
  assert (MILLION * (k + r) <> 0) as Hd by (unfold MILLION; lia).
  destruct (rational_new_spec w _ Hd) as (q & -> & Hq & E & Hn & Hdq).
  exists q. repeat split; try apply Hq; [|lia|unfold MILLION in *; lia].
  unfold Qeq, rational_value, channel_value. cbn [Qnum Qden]. destruct Hq as [Hq _].
  rewrite !positive_of_Z, <- !N2Z.inj_mul by done. by f_equal.
Qed.

Lemma rational_add_spec a b :
  reduced a -> reduced b -> numerator a < 4294967296 -> numerator b < 4294967296 ->
  denominator a < 9007199254740992 -> denominator b < 9007199254740992 ->
  exists q, rational_add a b = Some (Ok q) /\ reduced q
    /\ Qeq (rational_value q) (rational_value a + rational_value b).
Proof.
  intros [Ha _] [Hb _] Na Nb Da Db. unfold rational_add, u128_checked_mul, u128_checked_add.
  assert (numerator a * denominator b < 2 ^ 85) by (change (2 ^ 85) with (4294967296 * 9007199254740992); nia).
  assert (numerator b * denominator a < 2 ^ 85) by (change (2 ^ 85) with (4294967296 * 9007199254740992); nia).
  assert (denominator a * denominator b < 2 ^ 106) by (change (2 ^ 106) with (9007199254740992 * 9007199254740992); nia).
  assert (2 ^ 85 + 2 ^ 106 < u128_modulus) as Hm by (by vm_compute).
  assert (2 ^ 85 < 2 ^ 106) as Hp by (by vm_compute).
  do 4 (rewrite (proj2 (N.ltb_lt _ _)) by lia; cbn [ok_or andThen]).
  assert (denominator a * denominator b <> 0) as Hd by nia.
  destruct (rational_new_spec (numerator a * denominator b + numerator b * denominator a) _ Hd)
    as (q & -> & Hq & E & _ & _).
  exists q. split; [done|]. split; [done|]. destruct Hq as [Hq _].
  unfold Qeq, Qplus, rational_value. cbn [Qnum Qden].
  rewrite Pos2Z.inj_mul, !positive_of_Z, <- !N2Z.inj_mul, <- N2Z.inj_add, <- N2Z.inj_mul by done.
  by f_equal.
Qed.

(** ** The order of the candidates *)

Definition candidate_order (l r : SemanticCandidateV2) : comparison :=
  cmp_then (Qcompare (rational_value (exact_rrf_score r)) (rational_value (exact_rrf_score l)))
 (cmp_then (option_rank (vector_rank_of l) (vector_rank_of r))
 (cmp_then (option_rank (keyword_rank_of l) (keyword_rank_of r))
 (cmp_then (product_id l ?= product_id r)
 (cmp_then (product_version_id l ?= product_version_id r)
 (cmp_then (document_id l ?= document_id r)
           (source_chunk_id l ?= source_chunk_id r)))))).

#[export] Instance comparator_candidate : Comparator candidate_order.
Proof.
  unfold candidate_order.
  apply (comparator_then (fun l r => Qcompare (rational_value (exact_rrf_score r))
                                              (rational_value (exact_rrf_score l)))).
  { apply (comparator_flip (fun l r => Qcompare (rational_value (exact_rrf_score l))
                                                (rational_value (exact_rrf_score r)))).
    apply (comparator_proj Qcompare (fun c => rational_value (exact_rrf_score c))), _. }
  repeat match goal with
  | |- Comparator (fun l r => cmp_then (option_rank (?f l) _) _) =>
    apply (comparator_then (fun l r => option_rank (f l) (f r)));
      [apply (comparator_proj option_rank f), _|]
  | |- Comparator (fun l r => cmp_then (?f l ?= _) _) =>
    apply (comparator_then (fun l r => f l ?= f r)); [apply (comparator_proj N.compare f), _|]
  | |- Comparator (fun l r => ?f l ?= _) => apply (comparator_proj N.compare f), _
  end.
Qed.

Lemma compare_candidates_order l r :
  reduced (exact_rrf_score l) -> reduced (exact_rrf_score r) ->
  compare_candidates l r = Some (candidate_order l r).
Proof. intros Hl Hr. unfold compare_candidates. by rewrite cmp_exact_value. Qed.

Lemma cmp_then_Eq c d : cmp_then c d = Eq <-> c = Eq /\ d = Eq.
Proof. destruct c; simpl; naive_solver. Qed.

Lemma candidate_order_tie l r : candidate_order l r = Eq -> source_chunk_id l = source_chunk_id r.
Proof. unfold candidate_order. rewrite !cmp_then_Eq. intros (_ & _ & _ & _ & _ & _ & H). by apply N.compare_eq. Qed.

(** ** Properties *)

Lemma rrf_score_value policy v k :
  u32_number (rrf_k policy) -> u32_number (keyword_weight_millionths policy) ->
  u32_number (vector_weight_millionths policy) ->
  (forall r, v = Some r \/ k = Some r -> u32_number r /\ rrf_k policy + r <> 0) ->
  is_Some v \/ is_Some k ->
  exists s, rrf_score policy v k = Some (Ok s) /\ reduced s
    /\ Qeq (rational_value s)
         (channel_value (vector_weight_millionths policy) (rrf_k policy) v
          + channel_value (keyword_weight_millionths policy) (rrf_k policy) k).
Proof.
  intros Hk Hkw Hvw Hr Hsome. unfold rrf_score.
  assert (forall w r, u32_number w -> v = Some r \/ k = Some r ->
    exists q, channel w (rrf_k policy) r = Some (Ok q) /\ reduced q
    /\ Qeq (rational_value q) (channel_value w (rrf_k policy) (Some r))
    /\ numerator q < 4294967296 /\ denominator q < 9007199254740992) as Hc
    by (intros; apply channel_spec; naive_solver).
  destruct v as [rv|], k as [rk|]; [..|naive_solver].
  - destruct (Hc (vector_weight_millionths policy) rv) as (a & -> & Ra & Va & Na & Da); [done|auto|].
    destruct (Hc (keyword_weight_millionths policy) rk) as (b & -> & Rb & Vb & Nb & Db); [done|auto|].
    cbn [andThen]. destruct (rational_add_spec a b) as (s & -> & Rs & Vs); [done..|].
    exists s. split; [done|]. split; [done|]. by rewrite Vs, Va, Vb.
  - destruct (Hc (vector_weight_millionths policy) rv) as (a & -> & Ra & Va & _); [done|auto|].
    exists a. split; [done|]. split; [done|]. rewrite Va. cbn [channel_value]. by rewrite Qplus_0_r.
  - destruct (Hc (keyword_weight_millionths policy) rk) as (a & -> & Ra & Va & _); [done|auto|].
    exists a. split; [done|]. split; [done|]. rewrite Va. cbn [channel_value]. by rewrite Qplus_0_l.
Qed.

(** The comparison of two fractions without a product ([compare_fractions_without_products],
    a continued-fraction expansion) returns for all positive denominators, and its answer is
    the comparison of the cross products; Euclid's loop likewise returns the greatest common
    divisor. *)
Theorem compare_fractions_exact ln ld rn rd :
  0 < ld -> 0 < rd ->
  compare_fractions_without_products ln ld rn rd = Some (ln * rd ?= rn * ld)
  /\ gcd ln ld = Some (N.gcd ln ld).
Proof. intros Hl Hr. split; [apply compare_fractions_value; lia|apply gcd_pos; lia]. Qed.

Lemma compare_fractions_exact_witness :
  0 < 7 /\ 0 < 9 /\ compare_fractions_without_products 3 7 4 9 = Some Lt /\ gcd 3 7 = Some 1.
Proof.
  split; [done|]. split; [done|]. apply (compare_fractions_exact 3 7 4 9); vm_compute; done.
Defined.

(** The fused score of a candidate: for a policy and ranks of 32 bits no 128-bit operation
    overflows, and [rrf_score] returns, in lowest terms, exactly
    [w_v / (10^6 (k + r_v)) + w_k / (10^6 (k + r_k))], where a channel without a rank adds
    nothing; no rank at all is the error of the code. *)
Theorem rrf_score_exact policy v k :
  u32_number (rrf_k policy) -> u32_number (keyword_weight_millionths policy) ->
  u32_number (vector_weight_millionths policy) ->
  (forall r, v = Some r \/ k = Some r -> u32_number r /\ 0 < rrf_k policy + r) ->
  match v, k with
  | None, None => rrf_score policy v k = Some (Err (integrity E_NO_RANK))
  | _, _ =>
    exists s, rrf_score policy v k = Some (Ok s) /\ reduced s
    /\ Qeq (rational_value s)
         (channel_value (vector_weight_millionths policy) (rrf_k policy) v
          + channel_value (keyword_weight_millionths policy) (rrf_k policy) k)
  end.
Proof.
  intros Hk Hkw Hvw Hr.
  assert (forall r, v = Some r \/ k = Some r -> u32_number r /\ rrf_k policy + r <> 0) as Hr'
    by (intros r [H1 H2]%Hr; split; [done|lia]).
  destruct v, k; [apply rrf_score_value; eauto..|reflexivity].
Qed.

Definition demo_policy : RetrievalRrfPolicyV2 :=
  {| rrf_k := 60; keyword_weight_millionths := 400000; vector_weight_millionths := 600000;
     score_representation_version := RETRIEVAL_RRF_SCORE_REPRESENTATION_VERSION_V2 |}.

Lemma rrf_score_exact_witness :
  u32_number 60 /\ exists s, rrf_score demo_policy (Some 1) (Some 3) = Some (Ok s) /\ reduced s
    /\ Qeq (rational_value s)
         (channel_value 600000 60 (Some 1) + channel_value 400000 60 (Some 3)).
Proof.
  split; [done|]. apply (rrf_score_exact demo_policy (Some 1) (Some 3)); [done|done|done|].
  intros r [[= <-]|[= <-]]; done.
Defined.
