(* ===== verification/Recall.v ===== *)
(** * [crates/knowledge/src/knowledge_retrieval_pg/semantic_v2.rs]: folding the recall

    After the two channels of the recall have ranked the signals of a snapshot, each ranked
    signal is folded to the source chunk it was derived from, the best ranks of a source are
    kept, and the sources become candidates in the order of their fused scores.  The rows the
    database returned are arguments.  Rust iterates over its hash maps and hash sets in an
    unspecified order: the order of the ranked signals ([active]) and of the folded entries
    ([iter]) are arguments too, and [Recall.recall_order_independent] shows that they do not
    matter. *)
From Stdlib Require Import QArith_base.
From S2P Require Import Prelude RustStr Policy Order Rank.

Local Open Scope N_scope.

Definition TEXT : str := u8"text".
Definition PARENT_TEXT : str := u8"parent_text".
Definition IMAGE_OCR : str := u8"image_ocr".
Definition QUESTION : str := u8"question".
Definition SUMMARY : str := u8"summary".
Definition IMAGE_CAPTION : str := u8"image_caption".
Definition GRAPH_NODE : str := u8"graph_node".
Definition WIKI_PAGE : str := u8"wiki_page".

Definition E_SIGNAL_MISSING : str := u8"derived signal missing".
Definition E_SIGNAL_SCOPE : str := u8"ranked signal left snapshot scope".
Definition E_SOURCE_SCOPE : str := u8"folded source left snapshot scope".
Definition E_UNTRUSTED : str := u8"folded source is not trusted".
Definition E_PRE_RANK : str := u8"pre-rerank rank overflow".

Record Signal := {
  sg_id : N; sg_product_id : N; sg_version_id : N; sg_document_id : N;
  sg_chunk_type : str; sg_context_header : str; sg_parent_chunk_id : option N;
}.

Record Source := {
  src_product_id : N; src_version_id : N; src_document_id : N; src_id : N;
  src_chunk_type : str; src_content : str; src_file_name : str;
  src_context_header : str; src_parent_chunk_id : option N;
}.

Record FoldedRanks := { folded_vector : option N; folded_keyword : option N }.

Definition no_ranks : FoldedRanks := {| folded_vector := None; folded_keyword := None |}.

(** [rows.map(|row| (row.id, row)).collect()]: the last row of an id stays. *)
Definition by_id {A} (id : A -> N) (rows : list A) : gmap N A :=
  foldl (fun m row => <[id row := row]> m) ∅ rows.

(** [ranks.map_or(rank, |old| old.min(rank))] *)
Definition keep_best (old : option N) (rank : N) : option N :=
  Some (match old with Some o => N.min o rank | None => rank end).

(** [for x in l { out.push(f(x)?) }] *)
Fixpoint collect {E A B} (f : A -> option (result E B)) (l : list A) : option (result E (list B)) :=
  match l with
  | [] => Some (Ok [])
  | x :: l' => andThen (f x) (fun y => andThen (collect f l') (fun ys => Some (Ok (y :: ys))))
  end.

Section recall.

(** The Unicode lower case of a char, and [hex::encode(Sha256::digest(_))]. *)
Context (to_lowercase : char -> str) (sha256_hex : str -> str).

Definition normalize_exact_v2 (value : str) : str :=
  concat (map to_lowercase (List.filter (fun c => negb (is_whitespace c)) value)).

Context (signal_rows : list Signal) (source_rows : list Source).
Context (graph_refs wiki_refs : gmap N (list N)) (vector_ranks keyword_ranks : gmap N N).
Context (normalized_requirement : str) (policy : RetrievalPolicyV2).

Definition signals : gmap N Signal := by_id sg_id signal_rows.
Definition sources : gmap N Source := by_id src_id source_rows.

(** The sources a signal can stand for.  Only a list of one element is used, so the order
    of [sources.values()] does not matter. *)
Definition fold_targets (signal : Signal) : list N :=
  let t := sg_chunk_type signal in
  if str_eqb t TEXT || str_eqb t PARENT_TEXT || str_eqb t IMAGE_OCR then [sg_id signal]
  else if str_eqb t QUESTION || str_eqb t SUMMARY then option_list (sg_parent_chunk_id signal)
  else if str_eqb t IMAGE_CAPTION then
    if str_is_empty (sg_context_header signal) then []
    else map src_id (List.filter (fun source =>
           str_eqb (src_chunk_type source) IMAGE_OCR
           && (src_version_id source =? sg_version_id signal)
           && (src_document_id source =? sg_document_id signal)
           && str_eqb (src_context_header source) (sg_context_header signal)
           && bool_decide (src_parent_chunk_id source = sg_parent_chunk_id signal))
         (map_to_list sources).*2)
  else if str_eqb t GRAPH_NODE then default [] (graph_refs !! sg_id signal)
  else if str_eqb t WIKI_PAGE then default [] (wiki_refs !! sg_id signal)
  else [].

Definition fold_signal (signal : Signal) : result KnowledgeRetrievalError (option N) :=
  match fold_targets signal with
  | [id] =>
    match sources !! id with
    | None => Ok None
    | Some source =>
      if negb (src_version_id source =? sg_version_id signal)
         || negb (src_document_id source =? sg_document_id signal)
         || negb (src_product_id source =? sg_product_id signal) then Ok None
      else if (str_eqb (sg_chunk_type signal) QUESTION || str_eqb (sg_chunk_type signal) SUMMARY)
              && negb (bool_decide (is_Some (signals !! sg_id signal))) then
        Err (integrity E_SIGNAL_MISSING)
      else Ok (Some id)
    end
  | _ => Ok None
  end.

Definition exact_source_chunk_ids : gset N :=
  list_to_set (map src_id (List.filter
    (fun source => contains (normalize_exact_v2 (src_content source)) normalized_requirement)
    (map_to_list sources).*2)).

(** The body of the loop over the ranked signals. *)
Definition fold_one (folded : gmap N FoldedRanks) (signal_id : N)
    : result KnowledgeRetrievalError (gmap N FoldedRanks) :=
  signal ← ok_or (signals !! signal_id) (integrity E_SIGNAL_SCOPE);
  target ← fold_signal signal;
  match target with
  | None => Ok folded
  | Some source_id =>
    if bool_decide (source_id ∈ exact_source_chunk_ids) then Ok folded
    else
      let ranks := default no_ranks (folded !! source_id) in
      Ok (<[source_id := {|
        folded_vector := match vector_ranks !! signal_id with
                         | Some rank => keep_best (folded_vector ranks) rank
                         | None => folded_vector ranks
                         end;
        folded_keyword := match keyword_ranks !! signal_id with
                          | Some rank => keep_best (folded_keyword ranks) rank
                          | None => folded_keyword ranks
                          end |}]> folded)
  end.

Definition source_type_of (chunk_type : str) : option KnowledgeSourceTypeV2 :=
  if str_eqb chunk_type TEXT then Some Text
  else if str_eqb chunk_type PARENT_TEXT then Some ParentText
  else if str_eqb chunk_type IMAGE_OCR then Some ImageOcr
  else None.

(** The body of the loop over the folded sources. *)
Definition candidate_of (entry : N * FoldedRanks)
    : option (result KnowledgeRetrievalError SemanticCandidateV2) :=
  let '(source_id, ranks) := entry in
  andThen (Some (ok_or (sources !! source_id) (integrity E_SOURCE_SCOPE))) (fun source =>
  andThen (rrf_score (rrf policy) (folded_vector ranks) (folded_keyword ranks)) (fun score =>
  andThen (Some (ok_or (source_type_of (src_chunk_type source)) (integrity E_UNTRUSTED))) (fun ty =>
  Some (Ok {|
    document_id := src_document_id source; source_chunk_id := src_id source;
    product_id := src_product_id source; product_version_id := src_version_id source;
    frozen_document_display_name := src_file_name source;
    chunk_utf8 := src_content source; chunk_sha256 := sha256_hex (src_content source);
    chunk_byte_length := N.of_nat (blen (src_content source));
    source_type := ty;
    vector_rank_of := folded_vector ranks; keyword_rank_of := folded_keyword ranks;
    exact_rrf_score := score; pre_rerank_rrf_rank := 0;
  |})))).

Definition set_pre_rank (c : SemanticCandidateV2) (rank : N) : SemanticCandidateV2 := {|
  document_id := document_id c; source_chunk_id := source_chunk_id c;
  product_id := product_id c; product_version_id := product_version_id c;
  frozen_document_display_name := frozen_document_display_name c;
  chunk_utf8 := chunk_utf8 c; chunk_sha256 := chunk_sha256 c;
  chunk_byte_length := chunk_byte_length c; source_type := source_type c;
  vector_rank_of := vector_rank_of c; keyword_rank_of := keyword_rank_of c;
  exact_rrf_score := exact_rrf_score c; pre_rerank_rrf_rank := rank;
|}.

(** The loop that numbers the candidates from one. *)
Fixpoint assign_ranks (index : N) (l : list SemanticCandidateV2)
    : result KnowledgeRetrievalError (list SemanticCandidateV2) :=
  match l with
  | [] => Ok []
  | c :: l' =>
    rank ← (if index + 1 <? 4294967296 then Ok (index + 1) else Err (integrity E_PRE_RANK));
    rest ← assign_ranks (index + 1) l';
    Ok (set_pre_rank c rank :: rest)
  end.

(** The signals that a channel ranked. *)
Definition active_signal_ids : gset N := dom keyword_ranks ∪ dom vector_ranks.

(** From the ranked signals of the snapshot to the numbered candidates ([None]: an
    arithmetic fault, which does not happen). *)
Definition recall_candidates (active : list N) (iter : gmap N FoldedRanks -> list (N * FoldedRanks))
    : option (result KnowledgeRetrievalError (list SemanticCandidateV2)) :=
  andThen (Some (foldR fold_one ∅ active)) (fun folded =>
  andThen (collect candidate_of (iter folded)) (fun candidates =>
  match sort_cmp compare_candidates candidates with
  | None => None
  | Some sorted => Some (assign_ranks 0 (take (N.to_nat (rp_top_k (rerank policy))) sorted))
  end)).

(** ** What the fold computes *)

(** The source that a ranked signal counts for, if any. *)
Definition classify (signal_id : N) : result KnowledgeRetrievalError (option N) :=
  signal ← ok_or (signals !! signal_id) (integrity E_SIGNAL_SCOPE);
  target ← fold_signal signal;
  Ok (match target with
      | Some source_id => if bool_decide (source_id ∈ exact_source_chunk_ids) then None else Some source_id
      | None => None
      end).

Definition counts_for (x signal_id : N) : bool :=
  match classify signal_id with Ok (Some y) => x =? y | _ => false end.

(** The ranked signals that count for source [x]. *)
Definition members (active : list N) (x : N) : list N := List.filter (counts_for x) active.

(** The best rank among some signals. *)
Definition best_with (old : option N) (rank : option N) : option N :=
  match rank with Some r => keep_best old r | None => old end.

Definition best (ranks : gmap N N) (ids : list N) : option N :=
  foldl (fun old id => best_with old (ranks !! id)) None ids.

Definition folded_ranks (active : list N) (x : N) : option FoldedRanks :=
  match members active x with
  | [] => None
  | ids => Some {| folded_vector := best vector_ranks ids; folded_keyword := best keyword_ranks ids |}
  end.

Lemma fold_one_eq folded sid :
  fold_one folded sid =
  (o ← classify sid;
   match o with
   | None => Ok folded
   | Some x =>
     let ranks := default no_ranks (folded !! x) in
     Ok (<[x := {| folded_vector := best_with (folded_vector ranks) (vector_ranks !! sid);
                   folded_keyword := best_with (folded_keyword ranks) (keyword_ranks !! sid) |}]> folded)
   end).
Proof.
  unfold fold_one, classify. destruct (ok_or _ _) as [sg|e]; [|done]. cbn.
  destruct (fold_signal sg) as [[x|]|e]; [|done|done]. cbn. by case_bool_decide.
Qed.

Lemma members_snoc active sid x :
  members (active ++ [sid]) x = members active x ++ (if counts_for x sid then [sid] else []).
Proof. unfold members. by rewrite List.filter_app. Qed.

Lemma best_snoc ranks ids sid : best ranks (ids ++ [sid]) = best_with (best ranks ids) (ranks !! sid).
Proof. unfold best. by rewrite foldl_app. Qed.

(** Ranks of the entry of a source, [no_ranks] when it has none. *)
Lemma folded_ranks_default active x :
  default no_ranks (folded_ranks active x)
  = {| folded_vector := best vector_ranks (members active x);
       folded_keyword := best keyword_ranks (members active x) |}.
Proof. unfold folded_ranks. by destruct (members active x). Qed.

Lemma folded_ranks_snoc active sid x :
  folded_ranks (active ++ [sid]) x =
  if counts_for x sid then
    let ranks := default no_ranks (folded_ranks active x) in
    Some {| folded_vector := best_with (folded_vector ranks) (vector_ranks !! sid);
            folded_keyword := best_with (folded_keyword ranks) (keyword_ranks !! sid) |}
  else folded_ranks active x.
Proof.
  rewrite folded_ranks_default. unfold folded_ranks at 1. rewrite members_snoc.
  destruct (counts_for x sid); [|by rewrite app_nil_r].
  cbn [folded_vector folded_keyword]. rewrite <- !best_snoc. by destruct (members active x).
Qed.

Lemma fold_one_spec active folded sid o :
  (forall x, folded !! x = folded_ranks active x) -> classify sid = Ok o ->
  exists folded', fold_one folded sid = Ok folded'
    /\ forall x, folded' !! x = folded_ranks (active ++ [sid]) x.
Proof.
  intros Hf Ho. rewrite fold_one_eq, Ho. cbn. destruct o as [y|]; eexists; (split; [reflexivity|]).
  - intros x. rewrite folded_ranks_snoc. unfold counts_for. rewrite Ho, (Hf y).
    destruct (N.eqb_spec x y) as [->|Hne]; [by rewrite lookup_insert_eq|by rewrite lookup_insert_ne].
  - intros x. rewrite folded_ranks_snoc. unfold counts_for. by rewrite Ho, Hf.
Qed.

Lemma fold_all_from active : forall pre folded,
  (forall x, folded !! x = folded_ranks pre x) ->
  Forall (fun sid => exists o, classify sid = Ok o) active ->
  exists folded', foldR fold_one folded active = Ok folded'
    /\ forall x, folded' !! x = folded_ranks (pre ++ active) x.
Proof.
  induction active as [|sid active IH]; intros pre folded Hf Hall; simpl.
  { exists folded. split; [done|]. intros x. by rewrite app_nil_r. }
  apply Forall_cons in Hall as [[o Ho] Hall].
  destruct (fold_one_spec pre folded sid o Hf Ho) as (f1 & -> & H1). cbn.
  destruct (IH _ _ H1 Hall) as (f2 & -> & H2). exists f2. split; [done|].
  intros x. by rewrite H2, <- app_assoc.
Qed.

(** The fold returns when every ranked signal can be classified, and then holds exactly the
    best ranks of the sources that signals count for. *)
Lemma fold_all_spec active :
  Forall (fun sid => exists o, classify sid = Ok o) active ->
  exists folded, foldR fold_one ∅ active = Ok folded /\ forall x, folded !! x = folded_ranks active x.
Proof. intros H. apply (fold_all_from active [] ∅); [|done]. intros x. by rewrite lookup_empty. Qed.

Lemma fold_all_classified active folded0 folded :
  foldR fold_one folded0 active = Ok folded -> Forall (fun sid => exists o, classify sid = Ok o) active.
Proof.
  revert folded0. induction active as [|sid active IH]; intros f0; simpl; [constructor|].
  intros (f1 & H1 & H2)%bind_Ok. constructor; [|by eapply IH].
  rewrite fold_one_eq in H1. apply bind_Ok in H1 as (o & Ho & _). eauto.
Qed.

Lemma fold_all_ok active folded :
  foldR fold_one ∅ active = Ok folded -> forall x, folded !! x = folded_ranks active x.
Proof.
  intros H. destruct (fold_all_spec active (fold_all_classified _ _ _ H)) as (f & Hf & Hx).
  rewrite H in Hf. by injection Hf as ->.
Qed.

(** ** The fold does not depend on the order of the signals *)

Lemma best_with_comm old r1 r2 : best_with (best_with old r1) r2 = best_with (best_with old r2) r1.
Proof. destruct old, r1, r2; simpl; unfold keep_best; f_equal; lia. Qed.

Lemma best_perm ranks ids ids' : ids ≡ₚ ids' -> best ranks ids = best ranks ids'.
Proof.
  unfold best. generalize (@None N). intros o P. revert o.
  induction P as [|x l l' P IH|x y l|l1 l2 l3 P1 IH1 P2 IH2]; intros o; simpl; [done|by apply IH| |].
  - by rewrite best_with_comm.
  - by rewrite IH1.
Qed.

Lemma members_perm active active' x : active ≡ₚ active' -> members active x ≡ₚ members active' x.
Proof.
  unfold members. induction 1 as [|y l l' P IH|y z l|]; simpl.
  - done.
  - case_match; [by rewrite IH|done].
  - repeat case_match; try done. apply Permutation_swap.
  - by etrans.
Qed.

Lemma folded_ranks_perm active active' x :
  active ≡ₚ active' -> folded_ranks active x = folded_ranks active' x.
Proof.
  intros P%(members_perm _ _ x). unfold folded_ranks.
  pose proof (best_perm vector_ranks _ _ P) as Hv. pose proof (best_perm keyword_ranks _ _ P) as Hk.
  destruct (members active x) as [|a l], (members active' x) as [|b l'];
    [done|by apply Permutation_nil_cons in P|by symmetry in P; apply Permutation_nil_cons in P|].
  by rewrite Hv, Hk.
Qed.

Lemma fold_all_perm active active' folded :
  active ≡ₚ active' -> foldR fold_one ∅ active = Ok folded -> foldR fold_one ∅ active' = Ok folded.
Proof.
  intros P H. pose proof (fold_all_classified _ _ _ H) as Hc. rewrite P in Hc.
  destruct (fold_all_spec active' Hc) as (f' & Hf' & Hx). rewrite Hf'. f_equal.
  apply map_eq. intros x. rewrite Hx, (fold_all_ok _ _ H). symmetry. by apply folded_ranks_perm.
Qed.

(** ** The candidates *)

Lemma collect_ok {E A B} (f : A -> option (result E B)) l : forall ys,
  collect f l = Some (Ok ys) <-> Forall2 (fun x y => f x = Some (Ok y)) l ys.
Proof.
  induction l as [|x l IH]; intros ys; simpl.
  { split; [by intros [= <-]; constructor|]. by intros ->%Forall2_nil_inv_l. }
  split.
  - destruct (f x) as [[y|]|] eqn:Ex; simpl; [|done|done].
    destruct (collect f l) as [[ys'|]|]; simpl; [|done|done]. intros [= <-].
    constructor; [done|]. by apply IH.
  - intros (y & ys' & Hy & Hys & ->)%Forall2_cons_inv_l. rewrite Hy. simpl.
    by rewrite (proj2 (IH ys') Hys).
Qed.

Lemma by_id_lookup {A} (id : A -> N) rows k row :
  by_id id rows !! k = Some row -> id row = k /\ row ∈ rows.
Proof using.
  clear -id rows k row.
  unfold by_id. assert (forall m : gmap N A, (forall k' r', m !! k' = Some r' -> id r' = k' /\ r' ∈ rows) ->
    forall rows', rows' ⊆ rows -> forall k' r',
    foldl (fun m row => <[id row := row]> m) m rows' !! k' = Some r' -> id r' = k' /\ r' ∈ rows) as Hg.
  { intros m Hm rows'. revert m Hm. induction rows' as [|r rows' IH]; intros m Hm Hsub; simpl; [done|].
    apply IH; [|set_solver]. intros k' r' H. destruct (decide (k' = id r)) as [->|Hne].
    - rewrite lookup_insert_eq in H. injection H as <-. split; [done|]. apply Hsub. left.
    - rewrite lookup_insert_ne in H by done. by apply Hm. }
  apply (Hg ∅); [|done]. intros ? ?. by rewrite lookup_empty.
Qed.

Lemma sources_id x source : sources !! x = Some source -> src_id source = x.
Proof. intros [H _]%by_id_lookup. done. Qed.

(** What a candidate says of its source. *)
Definition describes (entry : N * FoldedRanks) (c : SemanticCandidateV2) : Prop :=
  exists source, sources !! entry.1 = Some source /\ source_chunk_id c = entry.1
  /\ document_id c = src_document_id source /\ product_id c = src_product_id source
  /\ product_version_id c = src_version_id source /\ chunk_utf8 c = src_content source
  /\ frozen_document_display_name c = src_file_name source
  /\ chunk_sha256 c = sha256_hex (src_content source)
  /\ chunk_byte_length c = N.of_nat (blen (src_content source))
  /\ source_type_of (src_chunk_type source) = Some (source_type c)
  /\ vector_rank_of c = folded_vector entry.2 /\ keyword_rank_of c = folded_keyword entry.2
  /\ rrf_score (rrf policy) (vector_rank_of c) (keyword_rank_of c) = Some (Ok (exact_rrf_score c)).

Lemma candidate_of_ok entry c : candidate_of entry = Some (Ok c) -> describes entry c.
Proof.
  destruct entry as [x ranks]. unfold candidate_of.
  destruct (sources !! x) as [source|] eqn:Es; cbn [ok_or andThen]; [|done].
  destruct (rrf_score _ _ _) as [[score|]|] eqn:Er; cbn [andThen]; [|done|done].
  destruct (source_type_of _) as [ty|] eqn:Et; cbn [ok_or andThen]; [|done].
  intros [= <-]. exists source. cbn. rewrite (sources_id _ _ Es), Er, Et. tauto.
Qed.

Lemma describes_reduced entry c : describes entry c -> reduced (exact_rrf_score c).
Proof. intros (? & _ & _ & _ & _ & _ & _ & _ & _ & _ & _ & _ & _ & H). by eapply rrf_score_reduced. Qed.

Lemma describes_id entry c : describes entry c -> source_chunk_id c = entry.1.
Proof. by intros (? & _ & ? & _). Qed.

Lemma candidates_of_entries entries cs :
  collect candidate_of entries = Some (Ok cs) ->
  Forall2 describes entries cs /\ Forall (fun c => reduced (exact_rrf_score c)) cs
  /\ map source_chunk_id cs = entries.*1.
Proof.
  intros H%collect_ok. assert (Forall2 describes entries cs) as Hd
    by (eapply Forall2_impl; [exact H|apply candidate_of_ok]).
  split; [done|]. clear H. induction Hd as [|e c entries cs H Hd [IH1 IH2]]; [by split|]. split.
  - constructor; [by eapply describes_reduced|done].
  - cbn. by rewrite IH2, (describes_id _ _ H).
Qed.

Lemma sort_candidates cs :
  Forall (fun c => reduced (exact_rrf_score c)) cs ->
  sort_cmp compare_candidates cs = Some (sort_with candidate_order cs).
Proof.
  rewrite Forall_forall. intros H. apply sort_cmp_pure. intros x y Hx Hy.
  by apply compare_candidates_order; apply H.
Qed.

(** Two arrangements of the same candidates are sorted into the same sequence. *)
Lemma sort_candidates_perm cs cs' :
  NoDup (map source_chunk_id cs) -> cs ≡ₚ cs' ->
  sort_with candidate_order cs = sort_with candidate_order cs'.
Proof.
  intros Hnd P. apply (sorted_cmp_unique candidate_order).
  - intros x y Hx Hy Heq%candidate_order_tie. rewrite sort_with_perm in Hx, Hy.
    apply list_elem_of_lookup in Hx as [i Hi]. apply list_elem_of_lookup in Hy as [j Hj].
    assert (i = j) as ->; [|congruence].
    eapply (NoDup_lookup (map source_chunk_id cs)); [done|..]; rewrite list_lookup_fmap.
    + by rewrite Hi. + rewrite Hj. cbn. by rewrite Heq.
  - by apply sort_with_sorted; apply _.
  - by apply sort_with_sorted; apply _.
  - by rewrite !sort_with_perm.
Qed.

Lemma collect_perm {E A B} (f : A -> option (result E B)) l l' ys :
  l ≡ₚ l' -> collect f l = Some (Ok ys) -> exists ys', collect f l' = Some (Ok ys') /\ ys ≡ₚ ys'.
Proof.
  intros P H%collect_ok.
  destruct (Permutation_Forall2 P H) as (ys' & Hys & H').
  exists ys'. split; [by apply collect_ok|done].
Qed.

Lemma entries_nodup (iter : gmap N FoldedRanks -> list (N * FoldedRanks)) folded cs :
  iter folded ≡ₚ map_to_list folded -> collect candidate_of (iter folded) = Some (Ok cs) ->
  NoDup (map source_chunk_id cs).
Proof.
  intros P H. destruct (candidates_of_entries _ _ H) as (_ & _ & ->). rewrite P.
  apply NoDup_fst_map_to_list.
Qed.

(** The order in which Rust visits its hash set of ranked signals and its hash map of folded
    sources does not matter: if the fold returns candidates for one order, it returns the
    same candidates, in the same sequence and with the same numbers, for every other. *)
Theorem recall_order_independent active active' iter iter' cs :
  active ≡ₚ active' ->
  (forall m, iter m ≡ₚ map_to_list m) -> (forall m, iter' m ≡ₚ map_to_list m) ->
  recall_candidates active iter = Some (Ok cs) -> recall_candidates active' iter' = Some (Ok cs).
Proof.
  intros P I I'. unfold recall_candidates. intros (folded & [= Hf] & H)%andThen_Ok.
  rewrite (fold_all_perm _ _ _ P Hf). cbn [andThen].
  apply andThen_Ok in H as (cands & Hc & H).
  destruct (collect_perm candidate_of (iter folded) (iter' folded) cands
              ltac:(by rewrite I, I') Hc) as (cands' & Hc' & Pc). rewrite Hc'. cbn [andThen].
  destruct (candidates_of_entries _ _ Hc) as (_ & R & _).
  destruct (candidates_of_entries _ _ Hc') as (_ & R' & _).
  rewrite sort_candidates in H by done. rewrite sort_candidates by done.
  by rewrite <- (sort_candidates_perm cands cands' (entries_nodup _ _ _ (I folded) Hc) Pc).
Qed.

(** ** The fold of a well-formed snapshot *)

Lemma assign_ranks_numbered l : forall index,
  index + N.of_nat (length l) < 4294967296 ->
  assign_ranks index l = Ok (imap (fun i c => set_pre_rank c (index + N.of_nat i + 1)) l).
Proof.
  induction l as [|c l IH]; intros index Hlen; [done|]. cbn [assign_ranks imap].
  cbn [length] in Hlen. rewrite (proj2 (N.ltb_lt _ _)) by lia. cbn [mbind result_bind].
  rewrite IH by lia. cbn [mbind result_bind]. f_equal. f_equal; [f_equal; lia|].
  apply imap_ext. intros i c' _. cbn. f_equal. lia.
Qed.

Lemma fold_signal_target sg x :
  fold_signal sg = Ok (Some x) -> is_Some (sources !! x).
Proof.
  unfold fold_signal. destruct (fold_targets sg) as [|y [|]]; [done| |done].
  destruct (sources !! y) as [source|] eqn:Es; [|done].
  repeat case_match; try done. intros [= ->]. by rewrite Es.
Qed.

Lemma fold_signal_total sid sg : signals !! sid = Some sg -> exists o, fold_signal sg = Ok o.
Proof.
  intros Hs. pose proof (by_id_lookup _ _ _ _ Hs) as [Hid _]. unfold fold_signal.
  destruct (fold_targets sg) as [|y [|]]; eauto. destruct (sources !! y) as [source|]; eauto.
  case_match; eauto. rewrite Hid, Hs. rewrite bool_decide_true by done.
  rewrite andb_false_r. eauto.
Qed.

Lemma classify_total sid : is_Some (signals !! sid) -> exists o, classify sid = Ok o.
Proof.
  intros [sg Hs]. unfold classify. rewrite Hs. cbn.
  destruct (fold_signal_total _ _ Hs) as [o ->]. cbn. eauto.
Qed.

Lemma classify_source sid x : classify sid = Ok (Some x) -> is_Some (sources !! x).
Proof.
  unfold classify. destruct (ok_or _ _) as [sg|]; [|done]. cbn.
  destruct (fold_signal sg) as [[y|]|] eqn:Ef; cbn; [|done|done].
  case_bool_decide; [done|]. intros [= <-]. by eapply fold_signal_target.
Qed.

Lemma counts_for_spec x sid : counts_for x sid = true <-> classify sid = Ok (Some x).
Proof.
  unfold counts_for. destruct (classify sid) as [[y|]|]; [|done|done].
  rewrite N.eqb_eq. split; [by intros ->|by intros [= ->]].
Qed.

Lemma elem_of_members active x sid :
  sid ∈ members active x <-> sid ∈ active /\ classify sid = Ok (Some x).
Proof.
  unfold members. rewrite !list_elem_of_In, filter_In, counts_for_spec. done.
Qed.

Lemma folded_ranks_Some active x r :
  folded_ranks active x = Some r ->
  r = {| folded_vector := best vector_ranks (members active x);
         folded_keyword := best keyword_ranks (members active x) |}
  /\ exists sid, sid ∈ members active x.
Proof.
  unfold folded_ranks. destruct (members active x) as [|sid ids]; [done|].
  intros [= <-]. split; [done|]. exists sid. left.
Qed.

Lemma folded_ranks_is_Some active x :
  is_Some (folded_ranks active x) <-> exists sid, sid ∈ active /\ classify sid = Ok (Some x).
Proof.
  setoid_rewrite <- elem_of_members. unfold folded_ranks.
  destruct (members active x) as [|sid ids].
  - split; [by intros [? [=]]|]. intros [sid H]. by apply elem_of_nil in H.
  - split; [|eauto]. intros _. exists sid. left.
Qed.

(** The best rank is one of the ranks, and there is one as soon as a member has a rank. *)
Lemma best_from (ranks : gmap N N) ids : forall old r,
  foldl (fun old id => best_with old (ranks !! id)) old ids = Some r ->
  old = Some r \/ exists id : N, id ∈ ids /\ ranks !! id = Some r.
Proof.
  induction ids as [|id ids IH]; intros old r; cbn; [by left|].
  intros [H|(id' & Hid & H)]%IH; [|right; exists id'; split; [by right|done]].
  destruct (ranks !! id) as [r'|] eqn:E; cbn in H; [|by left].
  unfold keep_best in H. injection H as <-. destruct old as [o|].
  - destruct (N.min_dec o r') as [Hm|Hm]; rewrite Hm; [by left|right].
    exists id. split; [left|done].
  - right. exists id. split; [left|done].
Qed.

Lemma best_some (ranks : gmap N N) ids : forall old,
  is_Some old \/ (exists id : N, id ∈ ids /\ is_Some (ranks !! id)) ->
  is_Some (foldl (fun old id => best_with old (ranks !! id)) old ids).
Proof.
  induction ids as [|id ids IH]; intros old; cbn.
  - intros [H|(id & H & _)]; [done|by apply elem_of_nil in H].
  - intros H. apply IH. destruct (ranks !! id) as [r|] eqn:E; cbn; [left; by eexists|].
    destruct H as [H|(id' & [->|Hid]%elem_of_cons & H)]; [by left| |right; by exists id'].
    rewrite E in H. by destruct H.
Qed.

(** The snapshot as the queries deliver it: both channels rank from one, in 32 bits
    ([row_number()], [u32::try_from]); the ranked signals are rows of the snapshot; the
    rows of [load_sources] are of the trusted types. *)
Record snapshot_ok : Prop := {
  ok_rrf_k : u32_number (rrf_k (rrf policy));
  ok_keyword_weight : u32_number (keyword_weight_millionths (rrf policy));
  ok_vector_weight : u32_number (vector_weight_millionths (rrf policy));
  ok_top_k : u32_number (rp_top_k (rerank policy));
  ok_ranks : forall sid r,
    vector_ranks !! sid = Some r \/ keyword_ranks !! sid = Some r -> 0 < r /\ u32_number r;
  ok_signals : forall sid, sid ∈ active_signal_ids -> is_Some (signals !! sid);
  ok_sources : forall source, source ∈ source_rows -> is_Some (source_type_of (src_chunk_type source));
}.

Section snapshot.
Context (Hok : snapshot_ok) (active : list N) (Hactive : active ≡ₚ elements active_signal_ids).

Lemma active_ranked sid :
  sid ∈ active -> is_Some (vector_ranks !! sid) \/ is_Some (keyword_ranks !! sid).
Proof.
  rewrite Hactive, elem_of_elements. unfold active_signal_ids.
  rewrite elem_of_union, !elem_of_dom. tauto.
Qed.

(** A folded source always has a score, the exact fused one. *)
Lemma folded_score x r :
  folded_ranks active x = Some r ->
  exists s, rrf_score (rrf policy) (folded_vector r) (folded_keyword r) = Some (Ok s)
    /\ Qeq (rational_value s)
         (channel_value (vector_weight_millionths (rrf policy)) (rrf_k (rrf policy)) (folded_vector r)
          + channel_value (keyword_weight_millionths (rrf policy)) (rrf_k (rrf policy)) (folded_keyword r)).
Proof.
  intros (-> & sid & Hsid)%folded_ranks_Some. cbn [folded_vector folded_keyword].
  destruct (rrf_score_value (rrf policy) (best vector_ranks (members active x))
    (best keyword_ranks (members active x))) as (s & H & _ & V); [apply Hok..| | |by exists s].
  - intros r [H|H]; apply best_from in H as [[=]|(id & _ & H)];
      destruct (ok_ranks Hok id r) as [H1 H2]; auto; split; (done || lia).
  - pose proof Hsid as [Hin _]%elem_of_members. unfold best.
    destruct (active_ranked _ Hin) as [H|H]; [left|right]; apply best_some; right; eauto.
Qed.

Lemma folded_candidate x r :
  folded_ranks active x = Some r -> exists c, candidate_of (x, r) = Some (Ok c).
Proof.
  intros H. destruct (folded_score x r H) as (s & Hs & _).
  destruct (proj1 (folded_ranks_is_Some active x) ltac:(by rewrite H)) as (sid & _ & Hc).
  destruct (classify_source _ _ Hc) as [source Hsrc].
  destruct (by_id_lookup _ _ _ _ Hsrc) as [_ Hin]. destruct (ok_sources Hok _ Hin) as [ty Hty].
  unfold candidate_of. rewrite Hsrc, Hs. cbn [ok_or andThen]. rewrite Hty. cbn [ok_or andThen]. eauto.
Qed.

Lemma fold_active :
  exists folded, foldR fold_one ∅ active = Ok folded /\ forall x, folded !! x = folded_ranks active x.
Proof.
  apply fold_all_spec, Forall_forall. intros sid Hsid. apply classify_total, (ok_signals Hok).
  by rewrite Hactive, elem_of_elements in Hsid.
Qed.

(** The candidates before the sort: one for every folded source. *)
Lemma collect_entries entries :
  (forall x r, (x, r) ∈ entries -> folded_ranks active x = Some r) ->
  exists cs, collect candidate_of entries = Some (Ok cs).
Proof.
  induction entries as [|[x r] entries IH]; intros H; [by exists []|].
  destruct (folded_candidate x r) as [c Hc]; [apply H; left|].
  destruct IH as [cs Hcs]; [intros; apply H; by right|].
  exists (c :: cs). apply collect_ok. constructor; [done|]. by apply collect_ok.
Qed.

(** What the candidate of a folded source says. *)
Definition faithful (c : SemanticCandidateV2) : Prop :=
  let x := source_chunk_id c in
  x ∉ exact_source_chunk_ids
  /\ vector_rank_of c = best vector_ranks (members active x)
  /\ keyword_rank_of c = best keyword_ranks (members active x)
  /\ describes (x, {| folded_vector := vector_rank_of c; folded_keyword := keyword_rank_of c |}) c
  /\ Qeq (rational_value (exact_rrf_score c))
       (channel_value (vector_weight_millionths (rrf policy)) (rrf_k (rrf policy)) (vector_rank_of c)
        + channel_value (keyword_weight_millionths (rrf policy)) (rrf_k (rrf policy)) (keyword_rank_of c)).

Lemma describes_faithful x r c :
  folded_ranks active x = Some r -> describes (x, r) c -> faithful c.
Proof.
  intros Hf Hd. pose proof (describes_id _ _ Hd) as Hid. cbn in Hid.
  pose proof Hf as (Hr & sid & [Hin Hc]%elem_of_members)%folded_ranks_Some.
  destruct (folded_score x r Hf) as (s & Hs & V).
  pose proof Hd as (source & Hsrc & _ & _ & _ & _ & _ & _ & _ & _ & _ & Hv & Hk & Hscore).
  cbn in Hsrc, Hv, Hk. rewrite Hv, Hk, Hs in Hscore. injection Hscore as Hscore.
  unfold faithful. rewrite Hid, Hv, Hk, <- Hscore. split; [|split; [by rewrite Hr|split; [by rewrite Hr|]]].
  - unfold classify in Hc. destruct (ok_or _ _) as [sg|]; [|done]. cbn in Hc.
    destruct (fold_signal sg) as [[y|]|]; cbn in Hc; [|done|done].
    case_bool_decide; [done|]. by injection Hc as <-.
  - split; [|done]. by destruct r.
Qed.
End snapshot.

(** On a snapshot as the queries deliver it the fold succeeds.  There is one candidate for
    each source that a ranked signal counts for and that does not already contain the
    requirement; each candidate carries its source's identity, text and digest, the best
    rank its signals have in each channel, and the exact fused score; the candidates come in
    the order of [compare_candidates], and the first [top_k] of them are returned, numbered
    from one. *)
Theorem recall_candidates_correct active iter :
  snapshot_ok -> active ≡ₚ elements active_signal_ids -> (forall m, iter m ≡ₚ map_to_list m) ->
  exists all,
    recall_candidates active iter
    = Some (Ok (imap (fun i c => set_pre_rank c (N.of_nat i + 1)) (take (N.to_nat (rp_top_k (rerank policy))) all)))
  /\ NoDup (map source_chunk_id all)
  /\ (forall x, x ∈ map source_chunk_id all <-> exists sid, sid ∈ active /\ classify sid = Ok (Some x))
  /\ StronglySorted (fun l r => is_le (candidate_order l r) = true) all
  /\ Forall (faithful active) all.
Proof.
  intros Hok Ha I. destruct (fold_active Hok active Ha) as (folded & Hf & Hx).
  assert (forall x r, (x, r) ∈ iter folded -> folded_ranks active x = Some r) as He.
  { intros x r. rewrite (I folded), elem_of_map_to_list. by rewrite Hx. }
  destruct (collect_entries Hok active Ha _ He) as [cs Hc].
  destruct (candidates_of_entries _ _ Hc) as (Hd & R & Hids).
  exists (sort_with candidate_order cs). unfold recall_candidates. rewrite Hf. cbn [andThen].
  rewrite Hc. cbn [andThen]. rewrite sort_candidates by done. split; [|split; [|split; [|split]]].
  - f_equal. rewrite assign_ranks_numbered; [done|]. rewrite length_take.
    pose proof (ok_top_k Hok). unfold u32_number in *. lia.
  - rewrite sort_with_perm. by apply (entries_nodup iter folded).
  - intros x. rewrite sort_with_perm, Hids, (I folded), <- folded_ranks_is_Some, <- Hx.
    rewrite list_elem_of_fmap. split.
    + intros ([y r] & -> & H%elem_of_map_to_list). by eexists.
    + intros [r H]. exists (x, r). split; [done|]. by apply elem_of_map_to_list.
  - apply sort_with_sorted, _.
  - rewrite sort_with_perm. apply Forall_forall. intros c Hin.
    apply list_elem_of_lookup in Hin as [i Hi].
    destruct (Forall2_lookup_r _ _ _ _ _ Hd Hi) as ([x r] & Hxr & Hdc).
    apply (describes_faithful Hok active Ha x r); [|done]. apply He. by eapply list_elem_of_lookup_2.
Qed.

End recall.

(** ** A concrete snapshot *)

Definition demo_signals : list Signal :=
  [ {| sg_id := 1; sg_product_id := 10; sg_version_id := 20; sg_document_id := 30;
       sg_chunk_type := TEXT; sg_context_header := []; sg_parent_chunk_id := None |};
    {| sg_id := 2; sg_product_id := 10; sg_version_id := 20; sg_document_id := 30;
       sg_chunk_type := QUESTION; sg_context_header := []; sg_parent_chunk_id := Some 1 |};
    {| sg_id := 3; sg_product_id := 10; sg_version_id := 20; sg_document_id := 30;
       sg_chunk_type := TEXT; sg_context_header := []; sg_parent_chunk_id := None |} ].

Definition demo_sources : list Source :=
  [ {| src_product_id := 10; src_version_id := 20; src_document_id := 30; src_id := 1;
       src_chunk_type := TEXT; src_content := u8"alpha"; src_file_name := u8"a.pdf";
       src_context_header := []; src_parent_chunk_id := None |};
    {| src_product_id := 10; src_version_id := 20; src_document_id := 30; src_id := 3;
       src_chunk_type := TEXT; src_content := u8"beta"; src_file_name := u8"a.pdf";
       src_context_header := []; src_parent_chunk_id := None |} ].

Definition demo_retrieval_policy : RetrievalPolicyV2 := {|
  pol_schema_version := RETRIEVAL_POLICY_SCHEMA_V2; pol_contract_version := KNOWLEDGE_EVIDENCE_CONTRACT_V2;
  pol_normalization_version := RETRIEVAL_NORMALIZATION_VERSION_V2;
  trusted_source_types := RETRIEVAL_TRUSTED_SOURCE_TYPES_V2;
  ranking := {|
    a_primary_comparator := RETRIEVAL_A_PRIMARY_COMPARATOR_V2;
    a_version_comparator := RETRIEVAL_A_VERSION_COMPARATOR_V2;
    b_exact_comparator := RETRIEVAL_B_EXACT_COMPARATOR_V2;
    c_semantic_comparator := RETRIEVAL_C_SEMANTIC_COMPARATOR_V2;
    source_folding_version := RETRIEVAL_SOURCE_FOLDING_VERSION_V2;
    channel_score_quantization_version := RETRIEVAL_CHANNEL_SCORE_QUANTIZATION_VERSION_V2;
    channel_rank_comparator := RETRIEVAL_CHANNEL_RANK_COMPARATOR_V2;
    pre_rerank_rrf_comparator := RETRIEVAL_PRE_RERANK_RRF_COMPARATOR_V2;
    quota_semantics_version := RETRIEVAL_QUOTA_SEMANTICS_VERSION_V2 |};
  keyword := {|
    kw_tokenizer := RETRIEVAL_KEYWORD_TOKENIZER_V2; kw_tokenizer_version := RETRIEVAL_KEYWORD_TOKENIZER_VERSION_V2;
    kw_score_version := RETRIEVAL_KEYWORD_SCORE_VERSION_V2; kw_top_k := 10; kw_threshold_millionths := 0 |};
  embedding := {|
    ep_policy := RETRIEVAL_EMBEDDING_POLICY_V2; ep_policy_version := RETRIEVAL_EMBEDDING_POLICY_VERSION_V2;
    ep_similarity_version := RETRIEVAL_EMBEDDING_SIMILARITY_VERSION_V2;
    ep_model_revision_sha256 := replicate 64 97%Z; ep_top_k := 10; ep_threshold_millionths := 500000 |};
  rrf := demo_policy;
  rerank := {|
    rp_provider_protocol_version := RETRIEVAL_RERANK_PROTOCOL_VERSION_V2;
    rp_revision_sha256 := replicate 64 98%Z; rp_model_revision_sha256 := replicate 64 99%Z;
    rp_config_revision_sha256 := replicate 64 100%Z; rp_top_k := 10; rp_timeout_ms := 30000;
    rp_score_normalization_version := RETRIEVAL_RERANK_SCORE_NORMALIZATION_VERSION_V2 |};
  request_quotas := {| rq_max_hits := 20; rq_max_chunk_bytes := 65536; rq_max_total_bytes := 1048576 |};
|}.

Definition demo_recall (active : list N) (iter : gmap N FoldedRanks -> list (N * FoldedRanks)) :=
  recall_candidates (fun c => [to_ascii_lowercase c]) (fun _ => u8"digest") demo_signals demo_sources ∅ ∅
    {[1 := 2; 2 := 1]} {[3 := 1]} (u8"gamma") demo_retrieval_policy active iter.

Definition demo_candidates : list SemanticCandidateV2 :=
  match demo_recall [1; 2; 3] map_to_list with Some (Ok cs) => cs | _ => [] end.

Lemma recall_order_independent_witness :
  length demo_candidates = 2%nat
  /\ demo_recall [3; 1; 2] (fun m => reverse (map_to_list m)) = Some (Ok demo_candidates).
Proof.
  split; [by vm_compute|].
  apply (recall_order_independent _ _ _ _ _ _ _ _ _ _ [1; 2; 3] [3; 1; 2] map_to_list
           (fun m => reverse (map_to_list m))).
  - rewrite (Permutation_cons_append [1; 2] 3). done.
  - done.
  - intros m. apply reverse_Permutation.
  - by vm_compute.
Defined.

Lemma recall_candidates_correct_witness :
  exists all, demo_recall [1; 2; 3] map_to_list
    = Some (Ok (imap (fun i c => set_pre_rank c (N.of_nat i + 1)) (take 10 all)))
  /\ NoDup (map source_chunk_id all).
Proof.
  destruct (recall_candidates_correct (fun c => [to_ascii_lowercase c]) (fun _ => u8"digest")
    demo_signals demo_sources ∅ ∅ {[1 := 2; 2 := 1]} {[3 := 1]} (u8"gamma")
    demo_retrieval_policy [1; 2; 3] map_to_list) as (all & H & Hnd & _).
  - split; [done|done|done|done| | |].
    + intros sid r. rewrite !lookup_insert_Some, !lookup_singleton_Some, ?lookup_empty.
      intros [[[_ <-]|[_ [_ <-]]]|[_ <-]]; done.
    + intros sid. unfold active_signal_ids. rewrite !dom_insert, dom_singleton.
      intros H. assert (sid = 1 \/ sid = 2 \/ sid = 3) as [->|[->| ->]] by set_solver; vm_compute; by eexists.
    + intros source H. repeat (apply elem_of_cons in H as [->|H]; [vm_compute; by eexists|]).
      by apply elem_of_nil in H.
  - apply NoDup_Permutation; [by apply (bool_decide_unpack _); vm_compute|apply NoDup_elements|].
    intros x. rewrite elem_of_elements. unfold active_signal_ids. set_solver.
  - done.
  - exists all. split; [exact H|exact Hnd].
Defined.
