(* ===== verification/Selection.v ===== *)
(** * [crates/knowledge/src/knowledge_retrieval_pg/mod.rs]: selecting the evidence

    The exact candidates of the snapshot are grouped by version; every version sends its
    least candidate first, then the remaining ones fill the quotas.  The reranked semantic
    candidates follow as a tail.  Byte counts are [N] with the 64-bit bound of the checked
    additions written out; [None] stands for the panic of [expect]. *)
From S2P Require Import Prelude RustStr Policy Order Rank.

Local Open Scope N_scope.

Definition u64_modulus : N := 18446744073709551616.

(** [a.checked_add(b)] on [u64]. *)
Definition u64_checked_add (a b : N) : option N := if a + b <? u64_modulus then Some (a + b) else None.

Record ExactCandidateV2 := {
  e_document_id : N; e_source_chunk_id : N; e_product_id : N; e_product_version_id : N;
  e_display_name : str; e_chunk_utf8 : str; e_source_type : KnowledgeSourceTypeV2;
}.

Definition byte_length (c : ExactCandidateV2) : N := N.of_nat (blen (e_chunk_utf8 c)).

Definition version_of (c : ExactCandidateV2) : N * N := (e_product_id c, e_product_version_id c).

Record ExactSelectionV2 := {
  sel_hits : list ExactCandidateV2; sel_versions_truncated : N; sel_hits_truncated : N;
}.

Definition compare_primary_v2 (l r : ExactCandidateV2) : comparison :=
  cmp_then (byte_length l ?= byte_length r)
 (cmp_then (e_document_id l ?= e_document_id r) (e_source_chunk_id l ?= e_source_chunk_id r)).

Definition compare_b_v2 (l r : ExactCandidateV2) : comparison :=
  cmp_then (e_product_id l ?= e_product_id r)
 (cmp_then (e_product_version_id l ?= e_product_version_id r) (compare_primary_v2 l r)).

(** The order of the keys of the [BTreeMap]. *)
Definition compare_version (l r : N * N) : comparison := cmp_then (l.1 ?= r.1) (l.2 ?= r.2).

(** [by_version.entry(key).or_default().push(candidate)] on a map in key order. *)
Fixpoint btree_push {A} (key : N * N) (a : A) (m : list ((N * N) * list A)) : list ((N * N) * list A) :=
  match m with
  | [] => [(key, [a])]
  | (k, l) :: m' =>
    match compare_version key k with
    | Lt => (key, [a]) :: m
    | Eq => (k, l ++ [a]) :: m'
    | Gt => (k, l) :: btree_push key a m'
    end
  end.

Definition E_PRIMARY_CHUNK (id : str) : str :=
  u8"exact primary chunk " ++ id ++ u8" exceeds max_chunk_bytes".
Definition E_PREFIX_OVERFLOW : str := u8"exact primary prefix byte length overflow".
Definition E_PREFIX_TOTAL : str := u8"exact primary prefix exceeds max_total_bytes".

(** [for x in l] whose body can fault or return an error. *)
Fixpoint foldOR {A S E} (f : S -> A -> option (result E S)) (s : S) (l : list A) : option (result E S) :=
  match l with
  | [] => Some (Ok s)
  | x :: l' => andThen (f s x) (fun s' => foldOR f s' l')
  end.

Record PrimaryState := { pr_hits : list ExactCandidateV2; pr_ids : gset N; pr_bytes : N }.

Section select.

(** [Uuid]'s [Display] *)
Context (uuid_to_string : N -> str).

(** The body of the loop over the first [max_hits] versions. *)
Definition primary_step (policy : RetrievalPolicyIdentityV1) (st : PrimaryState)
    (version_candidates : list ExactCandidateV2) : option (result KnowledgeRetrievalError PrimaryState) :=
  match version_candidates with
  | [] => None
  | primary :: _ =>
    Some (
      _ ← reject_if (max_chunk_bytes policy <? byte_length primary) 
             (QuotaExceeded (E_PRIMARY_CHUNK (uuid_to_string (e_source_chunk_id primary))));
      bytes ← ok_or (u64_checked_add (pr_bytes st) (byte_length primary)) (QuotaExceeded E_PREFIX_OVERFLOW);
      _ ← reject_if (max_total_bytes policy <? bytes) (QuotaExceeded E_PREFIX_TOTAL);
      Ok {| pr_hits := pr_hits st ++ [primary];
            pr_ids := {[e_source_chunk_id primary]} ∪ pr_ids st; pr_bytes := bytes |})
  end.

(** The body of the loop over the remaining candidates: one that does not fit is skipped. *)
Definition fill_step (policy : RetrievalPolicyIdentityV1) (st : list ExactCandidateV2 * N)
    (candidate : ExactCandidateV2) : list ExactCandidateV2 * N :=
  let '(hits, chosen_bytes) := st in
  if (max_hits policy <=? N.of_nat (length hits)) || (max_chunk_bytes policy <? byte_length candidate) then st
  else
    match u64_checked_add chosen_bytes (byte_length candidate) with
    | None => st
    | Some next_bytes =>
      if max_total_bytes policy <? next_bytes then st else (hits ++ [candidate], next_bytes)
    end.

Definition group_versions (candidates : list ExactCandidateV2) : list ((N * N) * list ExactCandidateV2) :=
  map (fun '(k, l) => (k, sort_with compare_primary_v2 l))
    (foldl (fun m c => btree_push (version_of c) c m) [] candidates).

Definition select_exact_prefix_v2 (candidates : list ExactCandidateV2) (policy : RetrievalPolicyIdentityV1)
    : option (result KnowledgeRetrievalError ExactSelectionV2) :=
  let by_version := group_versions candidates in
  andThen (foldOR (primary_step policy) {| pr_hits := []; pr_ids := ∅; pr_bytes := 0 |}
             (take (N.to_nat (max_hits policy)) by_version.*2)) (fun st =>
  let remaining := sort_with compare_b_v2
    (List.filter (fun c => negb (bool_decide (e_source_chunk_id c ∈ pr_ids st))) (concat by_version.*2)) in
  let '(hits, _) := foldl (fill_step policy) (pr_hits st, pr_bytes st) remaining in
  Some (Ok {|
    sel_hits_truncated := N.of_nat (length candidates) - N.of_nat (length hits);
    sel_versions_truncated := N.of_nat (length by_version) - max_hits policy;
    sel_hits := hits |})).

End select.

(** ** Hits *)

(** Of the JSON [bounding_region] only whether it is an object is used. *)
Record KnowledgeEvidenceMediaV1 := {
  image_artifact_revision_id : N; object_ref : str; media_sha256 : str; media_type : str;
  media_width : N; media_height : N; page_ordinal : option N;
  bounding_region_is_object : option bool; media_display_name : str;
}.

Record KnowledgeEvidenceHitV3 := {
  schema_version : N; hit_document_id : N; hit_source_chunk_id : N; hit_product_id : N;
  hit_product_version_id : N; hit_workspace_kind : str; hit_display_name : str;
  hit_chunk_utf8 : str; hit_chunk_sha256 : str; hit_chunk_byte_length : N;
  quote_start_offset : N; quote_end_offset : N; offset_unit : str; retrieval_rank : N;
  retrieval_raw_score : str; hit_pre_rerank_rrf_rank : option N;
  retrieval_contract_version : str; hit_source_type : KnowledgeSourceTypeV2;
  media : option KnowledgeEvidenceMediaV1;
}.

Definition KNOWLEDGE_EVIDENCE_SCHEMA_V3 : N := 3.
Definition UTF8_BYTE_OFFSET_UNIT : str := u8"utf8_byte".
Definition SCORE_ONE : str := u8"1.000000".

(** [index as u32 + 1] is written [(index + 1) mod 2^32] below (the sum wraps).

    A digit, and [format!("{:06}", n)] for [n < 10^6]. *)
Definition digit_char (n : N) : char := (48 + Z.of_N (n mod 10))%Z.

Definition six_digits (n : N) : str :=
  [digit_char (n / 100000); digit_char (n / 10000); digit_char (n / 1000);
   digit_char (n / 100); digit_char (n / 10); digit_char n].

Record RerankedSemanticCandidateV2 := { candidate : SemanticCandidateV2; score_millionths : N }.

Definition fixed_score (r : RerankedSemanticCandidateV2) : str :=
  decimal (score_millionths r / 1000000) ++ [46%Z] ++ six_digits (score_millionths r mod 1000000).

Section hits.

(** [hex::encode(Sha256::digest(_))] *)
Context (sha256_hex : str -> str) (workspace_kind : str).

Definition exact_candidate_hit_v2 (index : nat) (c : ExactCandidateV2) : KnowledgeEvidenceHitV3 := {|
  schema_version := KNOWLEDGE_EVIDENCE_SCHEMA_V3;
  hit_document_id := e_document_id c; hit_source_chunk_id := e_source_chunk_id c;
  hit_product_id := e_product_id c; hit_product_version_id := e_product_version_id c;
  hit_workspace_kind := workspace_kind; hit_display_name := e_display_name c;
  hit_chunk_sha256 := sha256_hex (e_chunk_utf8 c); hit_chunk_utf8 := e_chunk_utf8 c;
  hit_chunk_byte_length := byte_length c;
  quote_start_offset := 0; quote_end_offset := byte_length c;
  offset_unit := UTF8_BYTE_OFFSET_UNIT;
  retrieval_rank := (N.of_nat index + 1) mod 4294967296;
  retrieval_raw_score := SCORE_ONE; hit_pre_rerank_rrf_rank := None;
  retrieval_contract_version := KNOWLEDGE_EVIDENCE_CONTRACT_V2;
  hit_source_type := e_source_type c; media := None;
|}.

Definition semantic_candidate_hit_v2 (r : RerankedSemanticCandidateV2) (index : nat) : KnowledgeEvidenceHitV3 :=
  let c := candidate r in {|
  schema_version := KNOWLEDGE_EVIDENCE_SCHEMA_V3;
  hit_document_id := document_id c; hit_source_chunk_id := source_chunk_id c;
  hit_product_id := product_id c; hit_product_version_id := product_version_id c;
  hit_workspace_kind := workspace_kind; hit_display_name := frozen_document_display_name c;
  hit_chunk_sha256 := chunk_sha256 c; hit_chunk_utf8 := chunk_utf8 c;
  hit_chunk_byte_length := chunk_byte_length c;
  quote_start_offset := 0; quote_end_offset := chunk_byte_length c;
  offset_unit := UTF8_BYTE_OFFSET_UNIT;
  retrieval_rank := (N.of_nat index + 1) mod 4294967296;
  retrieval_raw_score := fixed_score r; hit_pre_rerank_rrf_rank := Some (pre_rerank_rrf_rank c);
  retrieval_contract_version := KNOWLEDGE_EVIDENCE_CONTRACT_V2;
  hit_source_type := source_type c; media := None;
|}.

Record TailState := { tail_hits : list KnowledgeEvidenceHitV3; tail_truncated : N; tail_bytes : N }.

(** The body of the loop of [append_semantic_tail_v2]. *)
Definition tail_step (policy : RetrievalPolicyIdentityV1) (st : TailState) (r : RerankedSemanticCandidateV2)
    : TailState :=
  let length_of := chunk_byte_length (candidate r) in
  let eligible :=
    (N.of_nat (length (tail_hits st)) <? max_hits policy)
    && (length_of <=? max_chunk_bytes policy)
    && match u64_checked_add (tail_bytes st) length_of with
       | Some required => required <=? max_total_bytes policy
       | None => false
       end in
  if negb eligible then
    {| tail_hits := tail_hits st; tail_truncated := N.min (tail_truncated st + 1) (u64_modulus - 1);
       tail_bytes := tail_bytes st |}
  else
    {| tail_hits := tail_hits st ++ [semantic_candidate_hit_v2 r (length (tail_hits st))];
       tail_truncated := tail_truncated st; tail_bytes := tail_bytes st + length_of |}.

(** The hits with the tail appended, and the number of candidates that did not fit. *)
Definition append_semantic_tail_v2 (hits : list KnowledgeEvidenceHitV3)
    (reranked : list RerankedSemanticCandidateV2) (policy : RetrievalPolicyIdentityV1)
    : list KnowledgeEvidenceHitV3 * N :=
  let total_bytes := foldl (fun n hit => (n + hit_chunk_byte_length hit) mod u64_modulus) 0 hits in
  let st := foldl (tail_step policy)
    {| tail_hits := hits; tail_truncated := 0; tail_bytes := total_bytes |} reranked in
  (tail_hits st, tail_truncated st).

End hits.

(** ** Comparators *)

#[export] Instance comparator_primary : Comparator compare_primary_v2.
Proof.
  unfold compare_primary_v2.
  apply (comparator_then (fun l r => byte_length l ?= byte_length r));
    [apply (comparator_proj N.compare byte_length), _|].
  apply (comparator_then (fun l r => e_document_id l ?= e_document_id r));
    [apply (comparator_proj N.compare e_document_id), _|].
  apply (comparator_proj N.compare e_source_chunk_id), _.
Qed.

#[export] Instance comparator_version : Comparator compare_version.
Proof.
  unfold compare_version.
  apply (comparator_then (fun l r : N * N => l.1 ?= r.1)); [apply (comparator_proj N.compare fst), _|].
  apply (comparator_proj N.compare snd), _.
Qed.

#[export] Instance comparator_b : Comparator compare_b_v2.
Proof.
  unfold compare_b_v2.
  apply (comparator_then (fun l r => e_product_id l ?= e_product_id r));
    [apply (comparator_proj N.compare e_product_id), _|].
  apply (comparator_then (fun l r => e_product_version_id l ?= e_product_version_id r));
    [apply (comparator_proj N.compare e_product_version_id), _|]. apply _.
Qed.

Lemma compare_version_Eq l r : compare_version l r = Eq -> l = r.
Proof.
  destruct l, r. unfold compare_version. rewrite cmp_then_Eq. cbn.
  intros [->%N.compare_eq ->%N.compare_eq]. done.
Qed.

(** ** The grouping by version *)

Definition version_lt (l r : N * N) : Prop := compare_version l r = Lt.

(** Keys in strict order, groups that are not empty and hold the candidates of their key. *)
Definition grouped (m : list ((N * N) * list ExactCandidateV2)) : Prop :=
  StronglySorted version_lt m.*1
  /\ Forall (fun e => e.2 <> [] /\ Forall (fun c => version_of c = e.1) e.2) m.

Lemma btree_push_keys {A} key (a : A) m k :
  k ∈ (btree_push key a m).*1 <-> k = key \/ k ∈ m.*1.
Proof.
  induction m as [|[k' l] m IH]; cbn; [set_solver|].
  destruct (compare_version key k') eqn:E; cbn; [|set_solver|].
  - apply compare_version_Eq in E as ->. set_solver.
  - rewrite !elem_of_cons, IH. tauto.
Qed.

Lemma btree_push_grouped c m : grouped m -> grouped (btree_push (version_of c) c m).
Proof.
  induction m as [|[k l] m IH]; intros [Hs Hf]; cbn.
  { split; [repeat constructor|]. repeat constructor; done. }
  cbn in Hs. apply StronglySorted_inv in Hs as [Hs Hk].
  apply Forall_cons in Hf as [[Hne Hl] Hf]. cbn in Hne, Hl.
  destruct (compare_version (version_of c) k) eqn:E.
  - apply compare_version_Eq in E as <-. split; [by constructor|].
    constructor; [|done]. cbn. split; [by destruct l|]. apply Forall_app. split; [done|by repeat constructor].
  - split; cbn.
    + constructor; [by constructor|]. constructor; [done|].
      eapply Forall_impl; [exact Hk|]. intros k' Hk'. eapply (cmp_lt_le compare_version); [exact E|].
      by rewrite Hk'.
    + repeat constructor; done.
  - destruct (IH (conj Hs Hf)) as [Hs' Hf']. split; [|by constructor]. cbn. constructor; [done|].
    apply Forall_forall. intros k' [->|Hk']%btree_push_keys; [|by rewrite Forall_forall in Hk; apply Hk].
    unfold version_lt. rewrite (cmp_antisym (cmp:=compare_version) (version_of c) k), E. done.
Qed.

Lemma btree_push_concat {A} key (a : A) m : concat (btree_push key a m).*2 ≡ₚ a :: concat m.*2.
Proof.
  induction m as [|[k l] m IH]; cbn; [done|].
  destruct (compare_version key k); cbn; [|done|].
  - rewrite <- app_assoc. cbn. by rewrite <- Permutation_middle.
  - rewrite IH. by rewrite <- Permutation_middle.
Qed.

Lemma group_versions_spec candidates :
  grouped (group_versions candidates) /\ concat (group_versions candidates).*2 ≡ₚ candidates
  /\ Forall (fun e => StronglySorted (fun l r => is_le (compare_primary_v2 l r) = true) e.2)
       (group_versions candidates).
Proof.
  assert (forall l m, grouped m ->
    grouped (foldl (fun m c => btree_push (version_of c) c m) m l)
    /\ concat (foldl (fun m c => btree_push (version_of c) c m) m l).*2 ≡ₚ l ++ concat m.*2) as H.
  { induction l as [|c l IH]; intros m Hm; cbn; [done|].
    destruct (IH _ (btree_push_grouped c m Hm)) as [H1 H2]. split; [done|].
    rewrite H2, btree_push_concat. by rewrite <- Permutation_middle. }
  destruct (H candidates [] ltac:(by repeat constructor)) as [[Hs Hf] P]. clear H.
  cbn in P. rewrite app_nil_r in P. unfold group_versions.
  revert P Hs Hf. generalize (foldl (fun m c => btree_push (version_of c) c m) [] candidates).
  intros m P Hs Hf. split; [split|split].
  - replace ((map _ m).*1) with (m.*1); [done|]. clear. induction m as [|[k l] m IH]; cbn; congruence.
  - apply Forall_fmap. eapply Forall_impl; [exact Hf|]. intros [k l] [Hne Hl]. cbn in *.
    split; [|by rewrite sort_with_perm].
    intros E. apply Hne. apply Permutation_nil_r. by rewrite <- E, sort_with_perm.
  - rewrite <- P. clear. induction m as [|[k l] m IH]; cbn; [done|]. by rewrite IH, sort_with_perm.
  - apply Forall_fmap, Forall_forall. intros [k l] _. cbn. apply sort_with_sorted, _.
Qed.

(** ** The two loops *)

Definition bytes_of (l : list ExactCandidateV2) : N := foldr (fun c n => byte_length c + n) 0 l.

Lemma bytes_of_app l1 l2 : bytes_of (l1 ++ l2) = bytes_of l1 + bytes_of l2.
Proof. unfold bytes_of. induction l1 as [|c l1 IH]; cbn in *; lia. Qed.

(** The least candidates of the groups. *)
Definition primaries (groups : list (list ExactCandidateV2)) : list ExactCandidateV2 := omap head groups.

Section loops.
Context (uuid_to_string : N -> str) (policy : RetrievalPolicyIdentityV1).
Context (Htotal : max_total_bytes policy < u64_modulus).

Definition fits (ps : list ExactCandidateV2) (bytes : N) : Prop :=
  Forall (fun c => byte_length c <= max_chunk_bytes policy) ps /\ bytes + bytes_of ps <= max_total_bytes policy.

(** One primary: it is taken when it fits, and refused otherwise. *)
Lemma primary_step_spec st p l :
  pr_bytes st <= max_total_bytes policy ->
  (byte_length p <= max_chunk_bytes policy /\ pr_bytes st + byte_length p <= max_total_bytes policy
   /\ primary_step uuid_to_string policy st (p :: l) = Some (Ok {|
        pr_hits := pr_hits st ++ [p]; pr_ids := {[e_source_chunk_id p]} ∪ pr_ids st;
        pr_bytes := pr_bytes st + byte_length p |}))
  \/ (~ (byte_length p <= max_chunk_bytes policy /\ pr_bytes st + byte_length p <= max_total_bytes policy)
      /\ exists m, primary_step uuid_to_string policy st (p :: l) = Some (Err (QuotaExceeded m))).
Proof.
  intros Hb. cbn [primary_step]. unfold reject_if, u64_checked_add.
  destruct (N.ltb_spec (max_chunk_bytes policy) (byte_length p)); cbn [mbind result_bind].
  { right. split; [lia|eauto]. }
  destruct (N.ltb_spec (pr_bytes st + byte_length p) u64_modulus); cbn [ok_or mbind result_bind].
  2: { right. split; [lia|eauto]. }
  destruct (N.ltb_spec (max_total_bytes policy) (pr_bytes st + byte_length p)); cbn [mbind result_bind].
  { right. split; [lia|eauto]. }
  left. done.
Qed.

Lemma primary_loop gs : forall st,
  Forall (fun g => g <> []) gs -> pr_bytes st <= max_total_bytes policy ->
  (fits (primaries gs) (pr_bytes st)
   /\ foldOR (primary_step uuid_to_string policy) st gs = Some (Ok {|
        pr_hits := pr_hits st ++ primaries gs;
        pr_ids := list_to_set (map e_source_chunk_id (primaries gs)) ∪ pr_ids st;
        pr_bytes := pr_bytes st + bytes_of (primaries gs) |}))
  \/ (~ fits (primaries gs) (pr_bytes st)
      /\ exists m, foldOR (primary_step uuid_to_string policy) st gs = Some (Err (QuotaExceeded m))).
Proof.
  induction gs as [|[|p l] gs IH]; intros st Hne Hb; [|by apply Forall_cons in Hne as [? _]|].
  { left. split; [split; [constructor|cbn; lia]|]. cbn. rewrite app_nil_r, N.add_0_r, (left_id_L ∅ _).
    by destruct st. }
  apply Forall_cons in Hne as [_ Hne]. cbn [foldOR].
  change (primaries ((p :: l) :: gs)) with (p :: primaries gs).
  destruct (primary_step_spec st p l Hb) as [(H1 & H2 & ->)|(H1 & m & ->)]; cbn [andThen].
  2: { right. split; [|eauto]. intros [[Hp _]%Forall_cons Hs]. apply H1. cbn in Hs. split; [done|].
       fold (bytes_of (primaries gs)) in Hs. lia. }
  destruct (IH {| pr_hits := pr_hits st ++ [p]; pr_ids := {[e_source_chunk_id p]} ∪ pr_ids st;
                  pr_bytes := pr_bytes st + byte_length p |} Hne H2) as [([F1 F2] & ->)|(Hnf & m & ->)];
    cbn [pr_hits pr_ids pr_bytes] in *.
  - left. split; [split; [by constructor|]|].
    + cbn. fold (bytes_of (primaries gs)). lia.
    + do 2 f_equal. f_equal; [by rewrite <- app_assoc| |cbn; fold (bytes_of (primaries gs)); lia].
      cbn. set_solver.
  - right. split; [|eauto]. intros [[Hp F1]%Forall_cons F2]. apply Hnf. split; [done|].
    cbn in F2. fold (bytes_of (primaries gs)) in F2. lia.
Qed.

(** The candidate [c] could not join hits that end up as [hits]. *)
Definition no_room (hits : list ExactCandidateV2) (c : ExactCandidateV2) : Prop :=
  max_hits policy <= N.of_nat (length hits) \/ max_chunk_bytes policy < byte_length c
  \/ max_total_bytes policy < bytes_of hits + byte_length c.

Definition within (hits : list ExactCandidateV2) : Prop :=
  N.of_nat (length hits) <= max_hits policy
  /\ Forall (fun c => byte_length c <= max_chunk_bytes policy) hits
  /\ bytes_of hits <= max_total_bytes policy.

Lemma fill_step_spec hits c :
  within hits ->
  (fill_step policy (hits, bytes_of hits) c = (hits ++ [c], bytes_of (hits ++ [c])) /\ within (hits ++ [c]))
  \/ (fill_step policy (hits, bytes_of hits) c = (hits, bytes_of hits) /\ no_room hits c).
Proof.
  intros (W1 & W2 & W3). unfold fill_step, no_room, u64_checked_add.
  destruct (N.leb_spec (max_hits policy) (N.of_nat (length hits))); cbn [orb]; [right; split; [done|lia]|].
  destruct (N.ltb_spec (max_chunk_bytes policy) (byte_length c)); [right; split; [done|lia]|].
  destruct (N.ltb_spec (bytes_of hits + byte_length c) u64_modulus); [|right; split; [done|lia]].
  destruct (N.ltb_spec (max_total_bytes policy) (bytes_of hits + byte_length c)); [right; split; [done|lia]|].
  left. rewrite bytes_of_app. cbn. rewrite N.add_0_r. split; [done|]. split; [|split].
  - rewrite length_app. cbn. lia.
  - apply Forall_app. split; [done|by repeat constructor].
  - rewrite bytes_of_app. cbn. lia.
Qed.

Lemma no_room_app hits more c : no_room hits c -> no_room (hits ++ more) c.
Proof. unfold no_room. rewrite length_app, bytes_of_app. lia. Qed.

Lemma fill_loop l : forall hits,
  within hits ->
  exists rest, foldl (fill_step policy) (hits, bytes_of hits) l = (hits ++ rest, bytes_of (hits ++ rest))
    /\ within (hits ++ rest) /\ sublist rest l
    /\ forall c, c ∈ l -> c ∉ rest -> no_room (hits ++ rest) c.
Proof.
  induction l as [|c l IH]; intros hits W; cbn [foldl].
  { exists []. rewrite app_nil_r. split; [done|]. split; [done|]. split; [constructor|set_solver]. }
  destruct (fill_step_spec hits c W) as [[-> W']|[-> Hn]].
  - destruct (IH _ W') as (rest & -> & W2 & S & H). exists (c :: rest).
    rewrite <- app_assoc in *. cbn in *. split; [done|]. split; [done|].
    split; [by apply sublist_skip|]. intros c' Hc' Hn'. apply H; set_solver.
  - destruct (IH _ W) as (rest & -> & W2 & S & H). exists rest. split; [done|]. split; [done|].
    split; [by apply sublist_cons|]. intros c' [->|Hc']%elem_of_cons Hn'; [by apply no_room_app|by apply H].
Qed.
End loops.

(** ** The specification of the exact prefix *)

(** The first primaries: the least candidate of each of the first [max_hits] versions. *)
Record primary_prefix (policy : RetrievalPolicyIdentityV1) (candidates : list ExactCandidateV2)
    (versions : list (N * N)) (ps : list ExactCandidateV2) : Prop := {
  pp_sorted : StronglySorted version_lt versions;
  pp_versions : forall v, v ∈ versions <-> exists c, c ∈ candidates /\ version_of c = v;
  pp_prefix : map version_of ps = take (N.to_nat (max_hits policy)) versions;
  pp_least : forall p c, p ∈ ps -> c ∈ candidates -> version_of c = version_of p ->
    is_le (compare_primary_v2 p c) = true;
}.

(** What a selection promises: the primaries, then more candidates in order; only candidates,
    within all quotas, and none left out that still fits; the counters of what is missing. *)
Record exact_selection (policy : RetrievalPolicyIdentityV1) (candidates : list ExactCandidateV2)
    (versions : list (N * N)) (ps : list ExactCandidateV2) (sel : ExactSelectionV2) : Prop := {
  xs_hits : exists rest, sel_hits sel = ps ++ rest
    /\ StronglySorted (fun l r => is_le (compare_b_v2 l r) = true) rest;
  xs_candidates : sel_hits sel ⊆+ candidates;
  xs_within : within policy (sel_hits sel);
  xs_maximal : forall c, c ∈ candidates -> c ∉ sel_hits sel -> no_room policy (sel_hits sel) c;
  xs_hits_truncated :
    sel_hits_truncated sel = N.of_nat (length candidates) - N.of_nat (length (sel_hits sel));
  xs_versions_truncated : sel_versions_truncated sel = N.of_nat (length versions) - max_hits policy;
}.

Lemma primaries_versions m n :
  Forall (fun e => e.2 <> [] /\ Forall (fun c => version_of c = e.1) e.2) m ->
  map version_of (primaries (take n m.*2)) = take n m.*1.
Proof.
  revert n. induction m as [|[k l] m IH]; intros n Hf; [by destruct n|].
  apply Forall_cons in Hf as [[Hne Hl] Hf]. destruct n as [|n]; [done|]. cbn in *.
  destruct l as [|p l]; [done|]. cbn. apply Forall_cons in Hl as [-> _].
  f_equal. apply (IH n Hf).
Qed.

Lemma length_primaries gs : (length (primaries gs) <= length gs)%nat.
Proof. unfold primaries. induction gs as [|[|p l] gs IH]; cbn; lia. Qed.

Lemma elem_of_primaries gs p :
  p ∈ primaries gs <-> exists l, (p :: l) ∈ gs.
Proof.
  unfold primaries. rewrite list_elem_of_omap. split.
  - intros ([|q l] & Hin & [= ->]). by exists l.
  - intros [l H]. by exists (p :: l).
Qed.

(** The primaries and the other candidates are all candidates. *)
Lemma concat_primaries gs n : exists others, concat gs ≡ₚ primaries (take n gs) ++ others.
Proof.
  revert n. induction gs as [|g gs IH]; intros n; [exists []; by destruct n|].
  destruct n as [|n]; [by exists (concat (g :: gs))|]. destruct (IH n) as [others P]. cbn [concat take].
  destruct g as [|p l]; cbn; [by exists others|]. exists (l ++ others). rewrite P.
  rewrite !(assoc_L (++)). by rewrite (comm (++) l).
Qed.

Lemma elem_of_concat {A} (x : A) ls : x ∈ concat ls <-> exists l, x ∈ l /\ l ∈ ls.
Proof.
  rewrite list_elem_of_In, in_concat. setoid_rewrite list_elem_of_In. firstorder.
Qed.

Lemma sublist_sorted {A} (R : A -> A -> Prop) l l' :
  sublist l l' -> StronglySorted R l' -> StronglySorted R l.
Proof.
  induction 1 as [|x l l' S IH|x l l' S IH]; intros H; [constructor|..];
    apply StronglySorted_inv in H as [H F]; [|auto].
  constructor; [auto|]. rewrite Forall_forall in *. intros y Hy. apply F.
  by eapply sublist_subseteq.
Qed.

Lemma group_of c candidates :
  c ∈ candidates -> exists l, (version_of c, l) ∈ group_versions candidates /\ c ∈ l.
Proof.
  destruct (group_versions_spec candidates) as ([_ Hf] & P & _). rewrite <- P at 1.
  intros (l & Hc & Hl)%elem_of_concat. apply list_elem_of_fmap in Hl as ([k l'] & -> & Hin).
  rewrite Forall_forall in Hf. destruct (Hf _ Hin) as [_ Hv]. rewrite Forall_forall in Hv.
  cbn in *. rewrite (Hv _ Hc). eauto.
Qed.

Lemma group_unique candidates k l l' :
  (k, l) ∈ group_versions candidates -> (k, l') ∈ group_versions candidates -> l = l'.
Proof.
  destruct (group_versions_spec candidates) as ([Hs _] & _ & _). revert Hs.
  generalize (group_versions candidates). induction l0 as [|[k0 l0'] m IH]; cbn; intros Hs H1 H2.
  { by apply elem_of_nil in H1. }
  apply StronglySorted_inv in Hs as [Hs Hk]. rewrite Forall_forall in Hk.
  assert (forall l1, (k0, l1) ∈ m -> False) as Hno.
  { intros l1 Hin. specialize (Hk k0 ltac:(by apply list_elem_of_fmap; exists (k0, l1))).
    unfold version_lt in Hk. by rewrite (cmp_refl compare_version) in Hk. }
  apply elem_of_cons in H1 as [H1|H1]; apply elem_of_cons in H2 as [H2|H2]; simplify_eq;
    [done|exfalso; eauto|exfalso; eauto|eauto].
Qed.

(** The primaries of the code are the primary prefix of the specification. *)
Lemma primaries_prefix policy candidates :
  primary_prefix policy candidates (group_versions candidates).*1
    (primaries (take (N.to_nat (max_hits policy)) (group_versions candidates).*2)).
Proof.
  destruct (group_versions_spec candidates) as ([Hs Hf] & P & Hl). split; [done| | |].
  - intros v. split.
    + intros ([k l] & -> & Hin)%list_elem_of_fmap. rewrite Forall_forall in Hf.
      destruct (Hf _ Hin) as [Hne Hv]. cbn in *. destruct l as [|c l]; [done|].
      apply Forall_cons in Hv as [Hv _]. exists c. split; [|done].
      rewrite <- P. apply elem_of_concat. exists (c :: l). split; [left|].
      apply list_elem_of_fmap. by exists (k, c :: l).
    + intros (c & Hc & <-). destruct (group_of c candidates Hc) as (l & Hin & _).
      apply list_elem_of_fmap. by exists (version_of c, l).
  - by apply primaries_versions.
  - intros p c (l & Hp)%elem_of_primaries Hc Hv. apply elem_of_take in Hp as (i & Hi & _).
    apply list_elem_of_lookup_2, list_elem_of_fmap in Hi as ([k l'] & E & Hin). cbn in E. subst l'.
    rewrite Forall_forall in Hf, Hl. destruct (Hf _ Hin) as [_ Hk]. apply Forall_cons in Hk as [Hk _].
    cbn in Hk. destruct (group_of c candidates Hc) as (l2 & Hin2 & Hc2).
    rewrite Hv, Hk in Hin2. pose proof (group_unique _ _ _ _ Hin Hin2) as <-.
    specialize (Hl _ Hin). cbn in Hl. apply StronglySorted_inv in Hl as [_ Hl].
    apply elem_of_cons in Hc2 as [->|Hc2]; [by rewrite (cmp_refl compare_primary_v2)|].
    rewrite Forall_forall in Hl. by apply Hl.
Qed.

Lemma filter_out_all {A} (f : A -> bool) l : (forall x, x ∈ l -> f x = false) -> List.filter f l = [].
Proof.
  induction l as [|x l IH]; intros H; cbn; [done|]. rewrite H by left.
  apply IH. intros y Hy. apply H. by right.
Qed.

Lemma filter_submseteq {A} (f : A -> bool) l : List.filter f l ⊆+ l.
Proof. induction l as [|x l IH]; cbn; [done|]. case_match; [by constructor|by constructor]. Qed.

Lemma filter_perm {A} (f : A -> bool) l l' : l ≡ₚ l' -> List.filter f l ≡ₚ List.filter f l'.
Proof.
  induction 1 as [|x l l' P IH|x y l|]; cbn; [done| | |by etrans].
  - case_match; [by rewrite IH|done].
  - repeat case_match; try done. apply Permutation_swap.
Qed.

Lemma elem_of_filter_list {A} (f : A -> bool) x l : x ∈ List.filter f l <-> x ∈ l /\ f x = true.
Proof. by rewrite !list_elem_of_In, filter_In. Qed.

Lemma nodup_id (candidates : list ExactCandidateV2) x y :
  NoDup (map e_source_chunk_id candidates) -> x ∈ candidates -> y ∈ candidates ->
  e_source_chunk_id x = e_source_chunk_id y -> x = y.
Proof.
  intros Hnd Hx Hy E. apply list_elem_of_lookup in Hx as [i Hi]. apply list_elem_of_lookup in Hy as [j Hj].
  assert (i = j) as ->; [|congruence].
  eapply (NoDup_lookup (map e_source_chunk_id candidates)); [done|..]; rewrite list_lookup_fmap.
  + by rewrite Hi. + rewrite Hj. cbn. by rewrite E.
Qed.

(** The selection with primaries [ps] that fit. *)
Lemma select_fits uuid policy candidates ps others :
  NoDup (map e_source_chunk_id candidates) -> max_total_bytes policy < u64_modulus ->
  primary_prefix policy candidates (group_versions candidates).*1 ps ->
  ps = primaries (take (N.to_nat (max_hits policy)) (group_versions candidates).*2) ->
  candidates ≡ₚ ps ++ others -> fits policy ps 0 ->
  exists sel, select_exact_prefix_v2 uuid candidates policy = Some (Ok sel)
    /\ exact_selection policy candidates (group_versions candidates).*1 ps sel.
Proof.
  intros Hnd Ht Hpp Hps P [F1 F2]. destruct (group_versions_spec candidates) as ([_ Hf] & Pc & _).
  unfold select_exact_prefix_v2.
  assert (Forall (fun g => g <> []) (take (N.to_nat (max_hits policy)) (group_versions candidates).*2)) as Hne.
  { apply Forall_take, Forall_fmap. eapply Forall_impl; [exact Hf|]. by intros e [? _]. }
  destruct (primary_loop uuid policy Ht _ {| pr_hits := []; pr_ids := ∅; pr_bytes := 0 |} Hne ltac:(cbn; lia))
    as [[_ ->]|[Hn _]]; cbn [pr_hits pr_ids pr_bytes] in *; rewrite <- Hps in *; [|by destruct Hn].
  cbn [andThen pr_hits pr_ids pr_bytes app]. rewrite N.add_0_l, (right_id_L ∅ (∪)).
  assert (within policy ps) as W.
  { split; [|split; [done|lia]]. rewrite Hps.
    pose proof (length_primaries (take (N.to_nat (max_hits policy)) (group_versions candidates).*2)) as Hl.
    rewrite length_take in Hl. lia. }
  set (remaining := sort_with compare_b_v2 _).
  destruct (fill_loop policy Ht remaining ps W) as (rest & -> & W' & S & Hmax).
  eexists. split; [reflexivity|].
  assert (forall c, c ∈ remaining <-> c ∈ candidates /\ e_source_chunk_id c ∉ map e_source_chunk_id ps) as Hrem.
  { intros c. unfold remaining. rewrite sort_with_perm, elem_of_filter_list, Pc, negb_true_iff, bool_decide_eq_false.
    by rewrite elem_of_list_to_set. }
  split; cbn [sel_hits sel_hits_truncated sel_versions_truncated]; try done.
  - exists rest. split; [done|]. eapply sublist_sorted; [exact S|]. apply sort_with_sorted, _.
  - rewrite P. apply submseteq_skips_l. etrans; [by apply sublist_submseteq|]. unfold remaining.
    rewrite sort_with_perm, (filter_perm _ _ _ Pc), (filter_perm _ _ _ P), List.filter_app.
    rewrite filter_out_all; [apply filter_submseteq|]. intros c Hc.
    apply negb_false_iff, bool_decide_eq_true, elem_of_list_to_set, list_elem_of_fmap. by exists c.
  - intros c Hc Hn. apply Hmax; [|set_solver]. apply Hrem. split; [done|].
    intros (p & E & Hp)%list_elem_of_fmap. apply Hn, elem_of_app. left.
    assert (p ∈ candidates) as Hpc by (rewrite P; apply elem_of_app; by left).
    by rewrite (nodup_id _ _ _ Hnd Hc Hpc E).
  - by rewrite length_fmap.
Qed.

Lemma select_exact_outcome uuid policy candidates :
  NoDup (map e_source_chunk_id candidates) -> max_total_bytes policy < u64_modulus ->
  exists versions ps, primary_prefix policy candidates versions ps
  /\ ((fits policy ps 0
       /\ exists sel, select_exact_prefix_v2 uuid candidates policy = Some (Ok sel)
         /\ exact_selection policy candidates versions ps sel)
     \/ (~ fits policy ps 0
       /\ exists m, select_exact_prefix_v2 uuid candidates policy = Some (Err (QuotaExceeded m)))).
Proof.
  intros Hnd Ht. destruct (group_versions_spec candidates) as ([_ Hf] & Pc & _).
  pose proof (primaries_prefix policy candidates) as Hpp.
  eexists _, _. split; [exact Hpp|].
  set (ps := primaries (take (N.to_nat (max_hits policy)) (group_versions candidates).*2)) in *.
  destruct (concat_primaries (group_versions candidates).*2 (N.to_nat (max_hits policy))) as [others P].
  rewrite Pc in P.
  assert (Forall (fun g => g <> []) (take (N.to_nat (max_hits policy)) (group_versions candidates).*2)) as Hne.
  { apply Forall_take, Forall_fmap. eapply Forall_impl; [exact Hf|]. by intros e [? _]. }
  destruct (primary_loop uuid policy Ht _ {| pr_hits := []; pr_ids := ∅; pr_bytes := 0 |} Hne ltac:(cbn; lia))
    as [[Hfit _]|[Hn (m & E)]]; cbn [pr_bytes] in *.
  - left. split; [done|]. by apply (select_fits uuid policy candidates ps others).
  - right. split; [done|]. exists m. unfold select_exact_prefix_v2. by rewrite E.
Qed.

(** C37: The exact prefix of the evidence ([select_exact_prefix_v2]).  Every version, in key
    order and up to [max_hits], has its least candidate as primary.  If these fit the chunk
    and total byte quotas, the selection succeeds: the primaries come first, candidates in
    the second order follow, nothing but candidates is chosen (none twice), all quotas hold,
    a candidate that is left out could not join any more, and both truncation counters are
    exact.  If they do not fit, the answer is the quota error. *)
Theorem select_exact_prefix_correct uuid policy candidates :
  NoDup (map e_source_chunk_id candidates) -> max_total_bytes policy < u64_modulus ->
  exists versions ps, primary_prefix policy candidates versions ps
  /\ ((fits policy ps 0
       /\ exists sel, select_exact_prefix_v2 uuid candidates policy = Some (Ok sel)
         /\ exact_selection policy candidates versions ps sel)
     \/ (~ fits policy ps 0
       /\ exists m, select_exact_prefix_v2 uuid candidates policy = Some (Err (QuotaExceeded m)))).
Proof. apply select_exact_outcome. Qed.

Definition demo_identity : RetrievalPolicyIdentityV1 :=
  {| contract_version := KNOWLEDGE_EVIDENCE_CONTRACT_V2; policy_sha256 := u8"p";
     max_hits := 3; max_chunk_bytes := 10; max_total_bytes := 12 |}.

Definition demo_exact (id product : N) (text : str) : ExactCandidateV2 :=
  {| e_document_id := 30; e_source_chunk_id := id; e_product_id := product; e_product_version_id := 20;
     e_display_name := u8"a.pdf"; e_chunk_utf8 := text; e_source_type := Text |}.

Definition demo_exact_candidates : list ExactCandidateV2 :=
  [demo_exact 1 8 (u8"alpha"); demo_exact 2 7 (u8"gamma ray"); demo_exact 3 8 (u8"be"); demo_exact 4 7 (u8"eta")].

Lemma select_exact_prefix_correct_witness :
  match select_exact_prefix_v2 (fun _ => []) demo_exact_candidates demo_identity with
  | Some (Ok sel) => map e_source_chunk_id (sel_hits sel) = [4; 3; 1] /\ sel_hits_truncated sel = 1
  | _ => False
  end
  /\ exists versions ps, primary_prefix demo_identity demo_exact_candidates versions ps.
Proof.
  split; [by vm_compute|].
  destruct (select_exact_prefix_correct (fun _ => []) demo_identity demo_exact_candidates)
    as (versions & ps & H & _).
  - apply (bool_decide_unpack _). by vm_compute.
  - by vm_compute.
  - by exists versions, ps.
Defined.
