(* ===== verification/Evidence.v ===== *)
(** * [crates/knowledge/src/knowledge_retrieval_pg/{rerank_v2,mod}.rs] and
      [crates/knowledge/src/knowledge_retrieval.rs]: from the rows to a validated batch

    The provider's rerank response applied to the candidates, the validator of the evidence
    batch, and [retrieve_v2] between the database reads: the rows become the eligible versions
    and exact candidates, the selection and the semantic tail become hits, the hits get their
    media, and the batch is validated before it leaves. *)
From Stdlib Require Import QArith_base Qround.
From S2P Require Import Prelude RustStr Batches Policy Order Rank Recall Selection.

Local Open Scope N_scope.

(** ** The rerank response *)

Definition E_RERANK_JSON (error : str) : str := u8"invalid rerank provider JSON: " ++ error.
Definition E_RERANK_IDENTITY : str := u8"rerank provider identity mismatch".
Definition E_RERANK_COVER : str := u8"rerank response does not cover every input index".
Definition E_RERANK_INDEX : str := u8"rerank response index is duplicate or out of range".
Definition E_RERANK_MISSING : str := u8"rerank response is missing an input index".
Definition E_SCORE_NUMBER : str := u8"rerank score is not a JSON number".
Definition E_SCORE_DECIMAL : str := u8"rerank score is not finite decimal".
Definition E_SCORE_RANGE : str := u8"rerank score is outside unit interval".
Definition E_SCORE_QUANTIZE : str := u8"rerank score cannot be quantized".

(** The fields of the response that are read. *)
Record RerankResponseV2 (Value : Type) := {
  rs_model_revision_sha256 : str; rs_config_revision_sha256 : str; rs_results : list (nat * Value);
}.
Arguments rs_model_revision_sha256 {Value} r.
Arguments rs_config_revision_sha256 {Value} r.
Arguments rs_results {Value} r.

Definition compare_reranked (l r : RerankedSemanticCandidateV2) : comparison :=
  cmp_then (score_millionths r ?= score_millionths l)
 (cmp_then (pre_rerank_rrf_rank (candidate l) ?= pre_rerank_rrf_rank (candidate r))
 (cmp_then (product_id (candidate l) ?= product_id (candidate r))
 (cmp_then (product_version_id (candidate l) ?= product_version_id (candidate r))
 (cmp_then (document_id (candidate l) ?= document_id (candidate r))
           (source_chunk_id (candidate l) ?= source_chunk_id (candidate r)))))).

Section rerank.

(** [serde_json] values and [rust_decimal]: the text of a JSON number, the decimal it spells,
    the number that decimal stands for, and its value in millionths cut towards zero as a
    [u32] ([round_dp_with_strategy(6, ToZero)], [* 1_000_000], [to_u32]). *)
Context {Value Decimal : Type}.
Context (as_number : Value -> option str) (decimal_from_str : str -> option Decimal).
Context (decimal_value : Decimal -> Q) (decimal_millionths : Decimal -> option N).
Context (parse_response : list Z -> result str (RerankResponseV2 Value)).
(** [hex::encode(Sha256::digest(_))] and [serde_json] for the revision. *)
Context (sha256_hex : list Z -> str) (rerank_json : RerankRevisionV2 -> result str (list Z)).

(** [revision.sha256().ok()] *)
Definition rerank_digest (revision : RerankRevisionV2) : option str :=
  match rerank_sha256 sha256_hex rerank_json revision with Ok digest => Some digest | Err _ => None end.

Definition score_of (value : Value) : result KnowledgeRetrievalError N :=
  number ← ok_or (as_number value) (Unavailable E_SCORE_NUMBER);
  decimal ← ok_or (decimal_from_str number) (Unavailable E_SCORE_DECIMAL);
  _ ← reject_if (match Qcompare (decimal_value decimal) (0#1) with Lt => true | _ => false end
                 || match Qcompare (decimal_value decimal) (1#1) with Gt => true | _ => false end)
        (Unavailable E_SCORE_RANGE);
  ok_or (decimal_millionths decimal) (Unavailable E_SCORE_QUANTIZE).

(** The loop over the results: each score takes the slot of its index. *)
Definition file_scores (count : nat) (results : list (nat * Value)) : result KnowledgeRetrievalError (list (option N)) :=
  fill_slots score_of (Unavailable E_RERANK_INDEX) count results.

Definition apply_response (bytes : list Z) (candidates : list SemanticCandidateV2)
    (policy : RetrievalPolicyV2) (revision : RerankRevisionV2)
    : result KnowledgeRetrievalError (list RerankedSemanticCandidateV2) :=
  response ← match parse_response bytes with
             | Ok r => Ok r
             | Err error => Err (Unavailable (E_RERANK_JSON error))
             end;
  _ ← reject_if
        (negb (bool_decide (rerank_digest revision = Some (rp_revision_sha256 (rerank policy))))
         || negb (str_eqb (rs_model_revision_sha256 response) (rp_model_revision_sha256 (rerank policy)))
         || negb (str_eqb (rs_model_revision_sha256 response) (rr_provider_model_revision_sha256 revision))
         || negb (str_eqb (rs_config_revision_sha256 response) (rp_config_revision_sha256 (rerank policy)))
         || negb (str_eqb (rs_config_revision_sha256 response) (rr_config_revision_sha256 revision)))
        (InvalidRequest E_RERANK_IDENTITY);
  _ ← reject_if (negb (length (rs_results response) =? length candidates)%nat) (Unavailable E_RERANK_COVER);
  scores ← file_scores (length candidates) (rs_results response);
  scores ← ok_or (mapM id scores) (Unavailable E_RERANK_MISSING);
  Ok (sort_with compare_reranked
        (zip_with (fun c s => {| candidate := c; score_millionths := s |}) candidates scores)).

End rerank.

(** ** The batch and its validator *)

Record EligibleEvidenceVersionV1 := {
  el_product_id : N; el_product_version_id : N; el_workspace_kind : str; el_display_name : str;
}.

Record KnowledgeEvidenceBatchV3 := {
  batch_schema_version : N; eligible_versions : list EligibleEvidenceVersionV1;
  hits : list KnowledgeEvidenceHitV3; exact_prefix_hit_count : nat;
  exact_versions_truncated : N; exact_hits_truncated : N; semantic_hits_truncated : N;
}.

Definition E_BATCH_SCHEMA : str := u8"invalid v2 evidence schema, contract, scope, quota, or metric".
Definition E_BATCH_VERSION : str := u8"invalid or duplicate eligible v2 evidence version".
Definition E_BATCH_METRICS : str := u8"inconsistent v2 exact truncation metrics".
Definition E_BATCH_OVERFLOW : str := u8"v2 hit byte quota overflow".
Definition E_BATCH_HIT : str :=
  u8"v2 evidence scope, source, bytes, digest, offset, rank, score, or identity is invalid".
Definition E_BATCH_RANK : str := u8"duplicate v2 semantic pre-rerank rank".
Definition E_BATCH_ORDER : str := u8"v2 semantic suffix violates the rerank total order".
Definition E_BATCH_BYTES : str := u8"returned v2 hit byte quota exceeded".
Definition E_BATCH_PREFIX : str := u8"v2 truncated exact versions require a complete distinct primary prefix".

Definition is_nil (id : N) : bool := id =? 0.

Definition WORKSPACE_KINDS : list str := [u8"product_line"; u8"company"].
Definition MEDIA_TYPES : list str := [u8"image/png"; u8"image/jpeg"; u8"image/webp"].
Definition OBJECTS : str := u8"objects/".
Definition ZERO_POINT : str := u8"0.".

Definition is_lower_hex (c : char) : bool :=
  is_ascii_digit c || ((97 <=? c)%Z && (c <=? 102)%Z).

Definition is_unit_interval_millionths (value : str) : bool :=
  str_eqb value SCORE_ONE
  || ((blen value =? 8)%nat && starts_with value ZERO_POINT && forallb is_ascii_digit (drop 2 value)).

Definition media_valid (hit : KnowledgeEvidenceHitV3) : bool :=
  match hit_source_type hit, media hit with
  | ImageOcr, Some m =>
    negb (is_nil (image_artifact_revision_id m))
    && str_eqb (object_ref m) (OBJECTS ++ media_sha256 m)
    && (blen (media_sha256 m) =? 64)%nat
    && forallb is_lower_hex (media_sha256 m)
    && existsb (str_eqb (media_type m)) MEDIA_TYPES
    && (0 <? media_width m) && (0 <? media_height m)
    && str_eqb (media_display_name m) (hit_display_name hit)
    && match bounding_region_is_object m with Some false => false | _ => true end
  | ImageOcr, None => false
  | _, None => true
  | _, Some _ => false
  end.

Section validate.
Context (sha256_hex : str -> str) (expected_workspace_kind : str) (policy : RetrievalPolicyIdentityV1).

(** The loop over the eligible versions. *)
Definition eligible_step (eligible : gset (N * N)) (v : EligibleEvidenceVersionV1)
    : result KnowledgeRetrievalError (gset (N * N)) :=
  let key := (el_product_id v, el_product_version_id v) in
  _ ← reject_if
        (is_nil (el_product_id v) || is_nil (el_product_version_id v)
         || negb (str_eqb (el_workspace_kind v) expected_workspace_kind)
         || str_is_empty (el_display_name v) || bool_decide (key ∈ eligible))
        (InvalidHit E_BATCH_VERSION);
  Ok ({[key]} ∪ eligible).

Record HitState := { seen : gset (N * N); hit_versions : gset (N * N); total_bytes : N }.

(** Is [hit] wrong as the hit number [index] (but for its identity being new)? *)
Definition hit_wrong (eligible : gset (N * N)) (exact_count index : nat) (hit : KnowledgeEvidenceHitV3) : bool :=
  let chunk_len := blen (hit_chunk_utf8 hit) in
  negb (schema_version hit =? KNOWLEDGE_EVIDENCE_SCHEMA_V3)
  || negb (media_valid hit)
  || negb (str_eqb (hit_workspace_kind hit) expected_workspace_kind)
  || is_nil (hit_document_id hit) || is_nil (hit_source_chunk_id hit)
  || is_nil (hit_product_id hit) || is_nil (hit_product_version_id hit)
  || str_is_empty (hit_display_name hit)
  || negb (str_eqb (retrieval_contract_version hit) KNOWLEDGE_EVIDENCE_CONTRACT_V2)
  || negb (str_eqb (offset_unit hit) UTF8_BYTE_OFFSET_UNIT)
  || negb (hit_chunk_byte_length hit =? N.of_nat chunk_len)
  || (max_chunk_bytes policy <? hit_chunk_byte_length hit)
  || negb (str_eqb (hit_chunk_sha256 hit) (sha256_hex (hit_chunk_utf8 hit)))
  || negb (quote_start_offset hit =? 0)
  || negb (quote_end_offset hit =? N.of_nat chunk_len)
  || negb (is_char_boundary (hit_chunk_utf8 hit) chunk_len)
  || negb (retrieval_rank hit =? (N.of_nat index + 1) mod 4294967296)
  || ((index <? exact_count)%nat
      && (negb (str_eqb (retrieval_raw_score hit) SCORE_ONE) || bool_decide (is_Some (hit_pre_rerank_rrf_rank hit))))
  || ((exact_count <=? index)%nat
      && (negb (is_unit_interval_millionths (retrieval_raw_score hit))
          || match hit_pre_rerank_rrf_rank hit with None => true | Some rank => rank =? 0 end))
  || negb (bool_decide ((hit_product_id hit, hit_product_version_id hit) ∈ eligible)).

(** The body of the loop over the hits. *)
Definition hit_step (eligible : gset (N * N)) (exact_count : nat) (st : HitState)
    (entry : nat * KnowledgeEvidenceHitV3) : result KnowledgeRetrievalError HitState :=
  let '(index, hit) := entry in
  bytes ← ok_or (u64_checked_add (total_bytes st) (N.of_nat (blen (hit_chunk_utf8 hit))))
            (InvalidHit E_BATCH_OVERFLOW);
  let identity := (hit_document_id hit, hit_source_chunk_id hit) in
  _ ← reject_if (hit_wrong eligible exact_count index hit || bool_decide (identity ∈ seen st))
        (InvalidHit E_BATCH_HIT);
  Ok {| seen := {[identity]} ∪ seen st;
        hit_versions := if (index <? exact_count)%nat
                        then {[(hit_product_id hit, hit_product_version_id hit)]} ∪ hit_versions st
                        else hit_versions st;
        total_bytes := bytes |}.

Record SuffixState := { ranks_seen : gset N; previous : option KnowledgeEvidenceHitV3 }.

(** [previous] comes after [hit] in the order of the reranking. *)
Definition wrongly_ordered (previous hit : KnowledgeEvidenceHitV3) : bool :=
  str_ltb (retrieval_raw_score previous) (retrieval_raw_score hit)
  || (str_eqb (retrieval_raw_score previous) (retrieval_raw_score hit)
      && match hit_pre_rerank_rrf_rank previous, hit_pre_rerank_rrf_rank hit with
         | Some p, Some h => h <? p
         | Some _, None => true
         | None, _ => false
         end).

(** The body of the loop over the semantic suffix ([None]: the [expect] of the code). *)
Definition suffix_step (st : SuffixState) (hit : KnowledgeEvidenceHitV3)
    : option (result KnowledgeRetrievalError SuffixState) :=
  rank ← hit_pre_rerank_rrf_rank hit;
  Some (
    _ ← reject_if (bool_decide (rank ∈ ranks_seen st)) (InvalidHit E_BATCH_RANK);
    _ ← reject_if (match previous st with Some p => wrongly_ordered p hit | None => false end)
          (InvalidHit E_BATCH_ORDER);
    Ok {| ranks_seen := {[rank]} ∪ ranks_seen st; previous := Some hit |}).

Definition validate_evidence_batch_v3 (batch : KnowledgeEvidenceBatchV3)
    : option (result KnowledgeRetrievalError unit) :=
  let max_hits := N.to_nat (max_hits policy) in
  let exact_count := exact_prefix_hit_count batch in
  andThen (Some (reject_if
    (negb (batch_schema_version batch =? KNOWLEDGE_EVIDENCE_SCHEMA_V3)
     || negb (str_eqb (contract_version policy) KNOWLEDGE_EVIDENCE_CONTRACT_V2)
     || negb (existsb (str_eqb expected_workspace_kind) WORKSPACE_KINDS)
     || (Policy.max_hits policy =? 0) || (max_chunk_bytes policy =? 0) || (max_total_bytes policy =? 0)
     || (max_hits <? length (hits batch))%nat || (length (hits batch) <? exact_count)%nat)
    (InvalidHit E_BATCH_SCHEMA))) (fun _ =>
  andThen (Some (foldR eligible_step ∅ (eligible_versions batch))) (fun eligible =>
  andThen (Some (reject_if
    ((N.of_nat (size eligible) - Policy.max_hits policy <? exact_versions_truncated batch)
     || (exact_hits_truncated batch <? exact_versions_truncated batch)
     || ((exact_count =? 0)%nat
         && (negb (exact_versions_truncated batch =? 0) || negb (exact_hits_truncated batch =? 0)))
     || ((0 <? exact_versions_truncated batch) && negb (exact_count =? max_hits)%nat))
    (InvalidHit E_BATCH_METRICS))) (fun _ =>
  andThen (Some (foldR (hit_step eligible exact_count) {| seen := ∅; hit_versions := ∅; total_bytes := 0 |}
                   (imap pair (hits batch)))) (fun st =>
  andThen (foldOR suffix_step {| ranks_seen := ∅; previous := None |} (drop exact_count (hits batch))) (fun _ =>
  andThen (Some (reject_if (max_total_bytes policy <? total_bytes st) (InvalidHit E_BATCH_BYTES))) (fun _ =>
  Some (reject_if ((0 <? exact_versions_truncated batch) && negb (size (hit_versions st) =? max_hits)%nat)
          (InvalidHit E_BATCH_PREFIX)))))))).

End validate.

(** ** [retrieve_v2] *)

(** A row of the query over the selected versions (left joins: a version may have no chunk). *)
Record EvidenceRow := {
  row_product_id : N; row_product_version_id : N; row_content : option str;
  row_document_id : option N; row_source_chunk_id : option N;
  row_file_name : option str; row_chunk_type : option str;
}.

Definition E_PARTIAL_ROW : str := u8"v2 retrieval query returned a partial hit projection".
Definition E_UNTRUSTED_ROW : str := u8"v2 retrieval query returned an untrusted source type".
Definition E_SCOPE : str := u8"selected versions are not the exact current eligible workspace scope".
Definition E_PREFIX_LENGTH : str := u8"v2 exact prefix length cannot be represented".
Definition E_NO_RUNTIME : str := u8"complete knowledge-evidence-v2 semantic runtime is not configured".
Definition E_NO_MEDIA : str := u8"image OCR hit lacks immutable media mapping".

(** [entry(key).or_insert(v)] on a map in key order. *)
Fixpoint eligible_insert (v : EligibleEvidenceVersionV1) (l : list EligibleEvidenceVersionV1)
    : list EligibleEvidenceVersionV1 :=
  match l with
  | [] => [v]
  | w :: l' =>
    match compare_version (el_product_id v, el_product_version_id v) (el_product_id w, el_product_version_id w) with
    | Lt => v :: l
    | Eq => l
    | Gt => w :: eligible_insert v l'
    end
  end.

Definition set_media (hit : KnowledgeEvidenceHitV3) (m : option KnowledgeEvidenceMediaV1) : KnowledgeEvidenceHitV3 := {|
  schema_version := schema_version hit; hit_document_id := hit_document_id hit;
  hit_source_chunk_id := hit_source_chunk_id hit; hit_product_id := hit_product_id hit;
  hit_product_version_id := hit_product_version_id hit; hit_workspace_kind := hit_workspace_kind hit;
  hit_display_name := hit_display_name hit; hit_chunk_utf8 := hit_chunk_utf8 hit;
  hit_chunk_sha256 := hit_chunk_sha256 hit; hit_chunk_byte_length := hit_chunk_byte_length hit;
  quote_start_offset := quote_start_offset hit; quote_end_offset := quote_end_offset hit;
  offset_unit := offset_unit hit; retrieval_rank := retrieval_rank hit;
  retrieval_raw_score := retrieval_raw_score hit; hit_pre_rerank_rrf_rank := hit_pre_rerank_rrf_rank hit;
  retrieval_contract_version := retrieval_contract_version hit; hit_source_type := hit_source_type hit;
  media := m;
|}.

Definition set_media_name (m : KnowledgeEvidenceMediaV1) (name : str) : KnowledgeEvidenceMediaV1 := {|
  image_artifact_revision_id := image_artifact_revision_id m; object_ref := object_ref m;
  media_sha256 := media_sha256 m; media_type := media_type m; media_width := media_width m;
  media_height := media_height m; page_ordinal := page_ordinal m;
  bounding_region_is_object := bounding_region_is_object m; media_display_name := name;
|}.

Definition is_image_ocr (t : KnowledgeSourceTypeV2) : bool := match t with ImageOcr => true | _ => false end.

Section retrieve.

(** The Unicode lower case of a char, [hex::encode(Sha256::digest(_))], [Uuid]'s [Display]. *)
Context (to_lowercase : char -> str) (sha256_hex : str -> str) (uuid_to_string : N -> str).
(** The media rows of the query by chunk. *)
Context (media_rows : gmap N KnowledgeEvidenceMediaV1).
Context (workspace_kind : str) (policy : RetrievalPolicyIdentityV1).

Definition hydrate_hit (hit : KnowledgeEvidenceHitV3) : result KnowledgeRetrievalError KnowledgeEvidenceHitV3 :=
  if is_image_ocr (hit_source_type hit) then
    value ← ok_or (media_rows !! hit_source_chunk_id hit) (Unavailable E_NO_MEDIA);
    Ok (set_media hit (Some (set_media_name value (hit_display_name hit))))
  else Ok (set_media hit None).

Fixpoint hydrate_all (l : list KnowledgeEvidenceHitV3)
    : result KnowledgeRetrievalError (list KnowledgeEvidenceHitV3) :=
  match l with
  | [] => Ok []
  | hit :: l' => hit ← hydrate_hit hit; rest ← hydrate_all l'; Ok (hit :: rest)
  end.

Definition hydrate_evidence_media_v3 (l : list KnowledgeEvidenceHitV3)
    : result KnowledgeRetrievalError (list KnowledgeEvidenceHitV3) :=
  if existsb (fun hit => is_image_ocr (hit_source_type hit)) l then hydrate_all l else Ok l.

(** The body of the loop over the rows. *)
Definition row_step (normalized_requirement : str)
    (st : list EligibleEvidenceVersionV1 * list ExactCandidateV2) (row : EvidenceRow)
    : result KnowledgeRetrievalError (list EligibleEvidenceVersionV1 * list ExactCandidateV2) :=
  let '(eligible, candidates) := st in
  let eligible := eligible_insert {|
    el_product_id := row_product_id row; el_product_version_id := row_product_version_id row;
    el_workspace_kind := workspace_kind;
    el_display_name := uuid_to_string (row_product_version_id row) |} eligible in
  match row_content row with
  | None => Ok (eligible, candidates)
  | Some chunk_utf8 =>
    match row_document_id row, row_source_chunk_id row, row_file_name row, row_chunk_type row with
    | Some document_id, Some source_chunk_id, Some file_name, Some chunk_type =>
      if negb (contains (normalize_exact_v2 to_lowercase chunk_utf8) normalized_requirement) then
        Ok (eligible, candidates)
      else
        source_type ← ok_or (source_type_of chunk_type) (Unavailable E_UNTRUSTED_ROW);
        Ok (eligible, candidates ++ [{|
          e_document_id := document_id; e_source_chunk_id := source_chunk_id;
          e_product_id := row_product_id row; e_product_version_id := row_product_version_id row;
          e_display_name := file_name; e_chunk_utf8 := chunk_utf8; e_source_type := source_type |}])
    | _, _, _, _ => Err (Unavailable E_PARTIAL_ROW)
    end
  end.

(** [semantic] is what the semantic runtime (embedding, recall and rerank) answers, [None]
    when none is configured; it is only asked when the exact prefix leaves room. *)
Definition retrieve_v2 (requirement_text : str) (selected_versions : list N) (allow_exact_only : bool)
    (semantic : option (result KnowledgeRetrievalError (list RerankedSemanticCandidateV2)))
    (rows : list EvidenceRow) : option (result KnowledgeRetrievalError KnowledgeEvidenceBatchV3) :=
  andThen (Some (foldR (row_step (normalize_exact_v2 to_lowercase requirement_text)) ([], []) rows))
    (fun '(eligible, candidates) =>
  andThen (Some (reject_if
    (negb (bool_decide ((list_to_set selected_versions : gset N) = ∅))
     && negb (bool_decide ((list_to_set (map el_product_version_id eligible) : gset N)
                           = list_to_set selected_versions)))
    (InvalidRequest E_SCOPE))) (fun _ =>
  andThen (select_exact_prefix_v2 uuid_to_string candidates policy) (fun selection =>
  let prefix := imap (exact_candidate_hit_v2 sha256_hex workspace_kind) (sel_hits selection) in
  andThen (Some (reject_if (4294967296 <=? N.of_nat (length prefix)) (InvalidHit E_PREFIX_LENGTH))) (fun _ =>
  let room := negb (match eligible with [] => true | _ => false end)
              && (N.of_nat (length prefix) <? max_hits policy) in
  andThen (Some (reject_if (room && match semantic with None => negb allow_exact_only | Some _ => false end)
                   (InvalidRequest E_NO_RUNTIME))) (fun _ =>
  andThen (Some (match semantic with
                 | Some answer =>
                   if room then
                     reranked ← answer;
                     Ok (append_semantic_tail_v2 workspace_kind prefix reranked policy)
                   else Ok (prefix, 0)
                 | None => Ok (prefix, 0)
                 end)) (fun '(all_hits, semantic_truncated) =>
  andThen (Some (hydrate_evidence_media_v3 all_hits)) (fun hydrated =>
  let batch := {|
    batch_schema_version := KNOWLEDGE_EVIDENCE_SCHEMA_V3; eligible_versions := eligible;
    hits := hydrated; exact_prefix_hit_count := length prefix;
    exact_versions_truncated := sel_versions_truncated selection;
    exact_hits_truncated := sel_hits_truncated selection;
    semantic_hits_truncated := semantic_truncated |} in
  andThen (validate_evidence_batch_v3 sha256_hex workspace_kind policy batch) (fun _ =>
  Some (Ok batch))))))))).

End retrieve.

(** ** A concrete retrieval *)

Definition demo_row (product chunk : N) (text : str) : EvidenceRow :=
  {| row_product_id := product; row_product_version_id := 20; row_content := Some text;
     row_document_id := Some 30; row_source_chunk_id := Some chunk; row_file_name := Some (u8"a.pdf");
     row_chunk_type := Some TEXT |}.

Definition demo_rows : list EvidenceRow := [demo_row 7 1 (u8"alpha"); demo_row 8 2 (u8"beta")].

Definition demo_reranked : list RerankedSemanticCandidateV2 :=
  [ {| candidate := {|
         document_id := 30; source_chunk_id := 2; product_id := 8; product_version_id := 20;
         frozen_document_display_name := u8"a.pdf"; chunk_utf8 := u8"beta"; chunk_sha256 := u8"digest";
         chunk_byte_length := 4; source_type := Text; vector_rank_of := Some 1; keyword_rank_of := None;
         exact_rrf_score := {| numerator := 3; denominator := 305 |}; pre_rerank_rrf_rank := 1 |};
       score_millionths := 250000 |} ].

Definition demo_kind : str := u8"company".

Definition demo_retrieve : option (result KnowledgeRetrievalError KnowledgeEvidenceBatchV3) :=
  retrieve_v2 (fun c => [to_ascii_lowercase c]) (fun _ => u8"digest") (fun _ => u8"v") ∅ demo_kind demo_identity
    (u8"alp") [20] false (Some (Ok demo_reranked)) demo_rows.

Definition demo_batch : KnowledgeEvidenceBatchV3 :=
  match demo_retrieve with
  | Some (Ok batch) => batch
  | _ => {| batch_schema_version := 0; eligible_versions := []; hits := []; exact_prefix_hit_count := 0;
            exact_versions_truncated := 0; exact_hits_truncated := 0; semantic_hits_truncated := 0 |}
  end.
