(* ===== verification/BatchFacts.v ===== *)
(** * The evidence validator: theorems

    The specification [evidence_ok] of a valid batch, the loops of the validator by induction,
    and their equivalence. *)
From S2P Require Import Prelude RustStr Policy Order Rank Selection Evidence.

Local Open Scope N_scope.

(** ** The specification of a valid batch *)

Definition identity_of (hit : KnowledgeEvidenceHitV3) : N * N := (hit_document_id hit, hit_source_chunk_id hit).
Definition hit_version_of (hit : KnowledgeEvidenceHitV3) : N * N := (hit_product_id hit, hit_product_version_id hit).
Definition key_of (v : EligibleEvidenceVersionV1) : N * N := (el_product_id v, el_product_version_id v).

Definition hit_bytes (l : list KnowledgeEvidenceHitV3) : N :=
  foldr (fun hit n => N.of_nat (blen (hit_chunk_utf8 hit)) + n) 0 l.

(** No hit of the suffix comes after its successor in the order of the reranking. *)
Fixpoint chain (previous : option KnowledgeEvidenceHitV3) (l : list KnowledgeEvidenceHitV3) : Prop :=
  match l with
  | [] => True
  | hit :: l' =>
    match previous with Some p => wrongly_ordered p hit = false | None => True end /\ chain (Some hit) l'
  end.

Record version_ok (kind : str) (v : EligibleEvidenceVersionV1) : Prop := {
  vo_product : el_product_id v <> 0; vo_version : el_product_version_id v <> 0;
  vo_kind : el_workspace_kind v = kind; vo_name : el_display_name v <> [];
}.

(** A hit that is right as the hit number [index] of a batch with [exact_count] exact hits. *)
Record hit_ok (sha256_hex : str -> str) (kind : str) (policy : RetrievalPolicyIdentityV1)
    (eligible : list (N * N)) (exact_count index : nat) (hit : KnowledgeEvidenceHitV3) : Prop := {
  ho_schema : schema_version hit = KNOWLEDGE_EVIDENCE_SCHEMA_V3;
  ho_media : media_valid hit = true;
  ho_kind : hit_workspace_kind hit = kind;
  ho_ids : hit_document_id hit <> 0 /\ hit_source_chunk_id hit <> 0
    /\ hit_product_id hit <> 0 /\ hit_product_version_id hit <> 0;
  ho_name : hit_display_name hit <> [];
  ho_contract : retrieval_contract_version hit = KNOWLEDGE_EVIDENCE_CONTRACT_V2;
  ho_unit : offset_unit hit = UTF8_BYTE_OFFSET_UNIT;
  ho_length : hit_chunk_byte_length hit = N.of_nat (blen (hit_chunk_utf8 hit));
  ho_quota : hit_chunk_byte_length hit <= max_chunk_bytes policy;
  ho_digest : hit_chunk_sha256 hit = sha256_hex (hit_chunk_utf8 hit);
  ho_quote : quote_start_offset hit = 0 /\ quote_end_offset hit = N.of_nat (blen (hit_chunk_utf8 hit));
  ho_rank : retrieval_rank hit = (N.of_nat index + 1) mod 4294967296;
  ho_exact : (index < exact_count)%nat ->
    retrieval_raw_score hit = SCORE_ONE /\ hit_pre_rerank_rrf_rank hit = None;
  ho_semantic : (exact_count <= index)%nat ->
    is_unit_interval_millionths (retrieval_raw_score hit) = true
    /\ exists rank, hit_pre_rerank_rrf_rank hit = Some rank /\ rank <> 0;
  ho_eligible : hit_version_of hit ∈ eligible;
}.

Record evidence_ok (sha256_hex : str -> str) (kind : str) (policy : RetrievalPolicyIdentityV1)
    (batch : KnowledgeEvidenceBatchV3) : Prop := {
  eo_schema : batch_schema_version batch = KNOWLEDGE_EVIDENCE_SCHEMA_V3;
  eo_contract : contract_version policy = KNOWLEDGE_EVIDENCE_CONTRACT_V2;
  eo_kind : kind ∈ WORKSPACE_KINDS;
  eo_quotas : max_hits policy <> 0 /\ max_chunk_bytes policy <> 0 /\ max_total_bytes policy <> 0;
  eo_count : (exact_prefix_hit_count batch <= length (hits batch))%nat
    /\ N.of_nat (length (hits batch)) <= max_hits policy;
  eo_versions : Forall (version_ok kind) (eligible_versions batch)
    /\ NoDup (map key_of (eligible_versions batch));
  eo_versions_truncated :
    exact_versions_truncated batch <= N.of_nat (length (eligible_versions batch)) - max_hits policy;
  eo_hits_truncated : exact_versions_truncated batch <= exact_hits_truncated batch;
  eo_no_prefix : exact_prefix_hit_count batch = 0%nat ->
    exact_versions_truncated batch = 0 /\ exact_hits_truncated batch = 0;
  eo_full_prefix : exact_versions_truncated batch <> 0 ->
    N.of_nat (exact_prefix_hit_count batch) = max_hits policy
    /\ NoDup (map hit_version_of (take (exact_prefix_hit_count batch) (hits batch)));
  eo_hits : forall i hit, hits batch !! i = Some hit ->
    hit_ok sha256_hex kind policy (map key_of (eligible_versions batch)) (exact_prefix_hit_count batch) i hit;
  eo_identities : NoDup (map identity_of (hits batch));
  eo_bytes : hit_bytes (hits batch) <= max_total_bytes policy;
  eo_suffix_ranks : NoDup (map hit_pre_rerank_rrf_rank (drop (exact_prefix_hit_count batch) (hits batch)));
  eo_suffix_order : chain None (drop (exact_prefix_hit_count batch) (hits batch));
}.

(** ** Reflection of the tests *)

Lemma negb_str_eqb a b : negb (str_eqb a b) = false <-> a = b.
Proof. rewrite negb_false_iff. apply str_eqb_spec. Qed.

Lemma str_is_empty_false s : str_is_empty s = false <-> s <> [].
Proof. by destruct s. Qed.

Lemma negb_eqb a b : negb (a =? b) = false <-> a = b.
Proof. rewrite negb_false_iff. apply N.eqb_eq. Qed.

Lemma is_char_boundary_end s : is_char_boundary s (blen s) = true.
Proof.
  unfold is_char_boundary. assert (split_at_byte s (blen s) = Some (s, [])) as ->; [|done].
  induction s as [|c s IH]; [done|]. cbn [blen].
  assert (1 <= len_utf8 c)%nat as Hc by (unfold len_utf8; repeat case_match; lia).
  destruct (len_utf8 c + blen s)%nat as [|n] eqn:E; [lia|]. cbn [split_at_byte]. rewrite <- E.
  rewrite (proj2 (Nat.leb_le _ _)) by lia.
  replace (len_utf8 c + blen s - len_utf8 c)%nat with (blen s) by lia. by rewrite IH.
Qed.

Lemma implb_false (b c : bool) : b && c = false <-> (b = true -> c = false).
Proof. destruct b, c; simpl; intuition discriminate. Qed.

Lemma hit_wrong_spec sha kind policy eligible n i hit :
  hit_wrong sha kind policy (list_to_set eligible) n i hit = false <-> hit_ok sha kind policy eligible n i hit.
Proof.
  unfold hit_wrong, is_nil.
  rewrite !orb_false_iff, !implb_false, !orb_false_iff, !negb_str_eqb, !negb_eqb, !N.eqb_neq, str_is_empty_false,
    !negb_false_iff, N.ltb_ge, !Nat.ltb_lt, Nat.leb_le, is_char_boundary_end, bool_decide_eq_true,
    bool_decide_eq_false, elem_of_list_to_set.
  split.
  - intros H. decompose [and] H. clear H. split; try done; try (intros; tauto).
    + intros Hi. destruct (hit_pre_rerank_rrf_rank hit) as [r|] eqn:E; [|tauto].
      exfalso. match goal with H : (i < n)%nat -> _ |- _ => destruct (H Hi) as [_ Hno] end. apply Hno. eauto.
    + intros Hi. match goal with H : (n <= i)%nat -> _ |- _ => destruct (H Hi) as [-> Hr] end. split; [done|].
      destruct (hit_pre_rerank_rrf_rank hit) as [r|]; [|done]. exists r. split; [done|]. by apply N.eqb_neq.
  - intros H. destruct H. destruct ho_ids0 as (? & ? & ? & ?), ho_quote0 as [? ?].
    assert (~ is_Some (hit_pre_rerank_rrf_rank hit) \/ ~ (i < n)%nat) as Hx.
    { destruct (decide (i < n)%nat) as [Hi|]; [left|by right]. destruct (ho_exact0 Hi) as [_ ->]. by intros [? [=]]. }
    assert ((n <= i)%nat -> match hit_pre_rerank_rrf_rank hit with None => true | Some rank => rank =? 0 end = false) as Hs.
    { intros Hi. destruct (ho_semantic0 Hi) as (_ & r & -> & Hr). by apply N.eqb_neq. }
    repeat split; try done; naive_solver.
Qed.

(** ** The loops of the validator *)

Lemma eligible_loop kind l : forall S,
  match foldR (eligible_step kind) S l with
  | Ok S' => Forall (version_ok kind) l /\ NoDup (map key_of l) /\ (forall k, k ∈ map key_of l -> k ∉ S)
             /\ S' = list_to_set (map key_of l) ∪ S
  | Err _ => ~ (Forall (version_ok kind) l /\ NoDup (map key_of l) /\ (forall k, k ∈ map key_of l -> k ∉ S))
  end.
Proof.
  induction l as [|v l IH]; intros S.
  { cbn. repeat split; [constructor|constructor|set_solver|set_solver]. }
  cbn [foldR]. unfold eligible_step at 2. fold (key_of v).
  match goal with |- context [reject_if ?c _] => destruct c eqn:Ew end.
  - cbn [reject_if mbind result_bind]. intros (F & Hnd & Hno). apply Forall_cons in F as [[] _].
    rewrite !orb_true_iff in Ew. unfold is_nil in Ew.
    rewrite !N.eqb_eq, negb_true_iff, bool_decide_eq_true in Ew.
    destruct Ew as [[[[?|?]|Hk]|He]|Hin]; [done|done| | |].
    + apply (proj2 (str_eqb_spec _ _)) in vo_kind0. congruence.
    + by destruct (el_display_name v).
    + apply (Hno (key_of v)); [left|done].
  - cbn [reject_if mbind result_bind]. rewrite !orb_false_iff in Ew. unfold is_nil in Ew.
    rewrite !N.eqb_neq, negb_str_eqb, str_is_empty_false, bool_decide_eq_false in Ew.
    destruct Ew as ((((H1 & H2) & H3) & H4) & H5). specialize (IH ({[key_of v]} ∪ S)).
    destruct (foldR _ _ _) as [S'|e].
    + destruct IH as (F & Hnd & Hno & ->). cbn [map]. repeat split.
      * by constructor.
      * constructor; [|done]. intros Hin. apply (Hno _ Hin). set_solver.
      * intros k [->|Hin]%elem_of_cons; [done|]. specialize (Hno _ Hin). set_solver.
      * cbn. set_solver.
    + intros (F & Hnd & Hno). apply IH. cbn [map] in Hnd, Hno. apply Forall_cons in F as [_ F].
      apply NoDup_cons in Hnd as [Hv Hnd]. split; [done|]. split; [done|].
      intros k Hk. specialize (Hno k ltac:(by right)).
      assert (k <> key_of v) by congruence. set_solver.
Qed.

Section hit_loop.
Context (sha : str -> str) (kind : str) (policy : RetrievalPolicyIdentityV1).
Context (eligible : list (N * N)) (n : nat).

(** The entries of the loop: hits with their indices. *)
Definition entries_ok (es : list (nat * KnowledgeEvidenceHitV3)) (S : gset (N * N)) : Prop :=
  Forall (fun e => hit_ok sha kind policy eligible n e.1 e.2) es
  /\ NoDup (map identity_of es.*2) /\ (forall k, k ∈ map identity_of es.*2 -> k ∉ S).

Definition exact_versions (es : list (nat * KnowledgeEvidenceHitV3)) : gset (N * N) :=
  list_to_set (map (fun e => hit_version_of e.2) (List.filter (fun e => (e.1 <? n)%nat) es)).

Lemma hit_loop es : forall st,
  match foldR (hit_step sha kind policy (list_to_set eligible) n) st es with
  | Ok st' => entries_ok es (seen st) /\ (es = [] \/ total_bytes st + hit_bytes es.*2 < u64_modulus)
      /\ total_bytes st' = total_bytes st + hit_bytes es.*2
      /\ hit_versions st' = exact_versions es ∪ hit_versions st
  | Err _ => ~ (entries_ok es (seen st) /\ total_bytes st + hit_bytes es.*2 < u64_modulus)
  end.
Proof.
  induction es as [|[i hit] es IH]; intros st.
  { cbn. split; [split; [constructor|split; [constructor|set_solver]]|]. split; [by left|].
    split; [lia|]. unfold exact_versions. cbn. set_solver. }
  cbn [foldR]. unfold hit_step at 2. unfold u64_checked_add.
  change (hit_bytes ((i, hit) :: es).*2) with (N.of_nat (blen (hit_chunk_utf8 hit)) + hit_bytes es.*2).
  destruct (N.ltb_spec (total_bytes st + N.of_nat (blen (hit_chunk_utf8 hit))) u64_modulus) as [Hb|Hb];
    cbn [ok_or mbind result_bind]; [|intros [_ H]; lia].
  fold (identity_of hit) (hit_version_of hit).
  match goal with |- context [reject_if ?c _] => destruct c eqn:Ew end; cbn [reject_if mbind result_bind].
  - intros [(F & _ & Hno) _]. apply Forall_cons in F as [Hh _]. cbn [fst snd] in Hh.
    apply orb_true_iff in Ew as [Ew|Ew%bool_decide_eq_true].
    + by rewrite (proj2 (hit_wrong_spec _ _ _ _ _ _ _) Hh) in Ew.
    + apply (Hno (identity_of hit)); [left|done].
  - apply orb_false_iff in Ew as [Hh%hit_wrong_spec Hid%bool_decide_eq_false].
    set (st1 := {| seen := _; hit_versions := _; total_bytes := _ |}). specialize (IH st1).
    destruct (foldR _ _ _) as [st'|e].
    + destruct IH as ((F & Hnd & Hno) & Hlt & Ht & Hv). cbn [st1 total_bytes hit_versions seen] in *.
      split; [|split; [|split]].
      * split; [by constructor|]. cbn. split.
        -- constructor; [|done]. intros Hin. apply (Hno _ Hin). set_solver.
        -- intros k [->|Hin]%elem_of_cons; [done|]. specialize (Hno _ Hin). set_solver.
      * right. destruct Hlt as [->|Hlt]; [cbn|]; lia.
      * lia.
      * rewrite Hv. unfold exact_versions. cbn [List.filter fst]. destruct (i <? n)%nat; [|done].
        cbn [map list_to_set snd]. by rewrite (assoc_L (∪)), (comm_L (∪) (list_to_set _) {[_]}).
    + intros [(F & Hnd & Hno) Hlt]. apply IH. cbn in Hnd, Hno. apply Forall_cons in F as [_ F].
      apply NoDup_cons in Hnd as [Hx Hnd]. cbn [st1 seen total_bytes]. split; [|lia].
      split; [done|]. split; [done|]. intros k Hk. specialize (Hno k ltac:(by right)).
      assert (k <> identity_of hit) by congruence. set_solver.
Qed.
End hit_loop.

Lemma suffix_step_cases st hit r :
  hit_pre_rerank_rrf_rank hit = Some r ->
  (exists e, suffix_step st hit = Some (Err e)
    /\ (r ∈ ranks_seen st \/ exists p, previous st = Some p /\ wrongly_ordered p hit = true))
  \/ (suffix_step st hit = Some (Ok {| ranks_seen := {[r]} ∪ ranks_seen st; previous := Some hit |})
      /\ r ∉ ranks_seen st
      /\ match previous st with Some p => wrongly_ordered p hit = false | None => True end).
Proof.
  intros Hr. unfold suffix_step. rewrite Hr, some_bind. generalize E_BATCH_RANK E_BATCH_ORDER. intros e1 e2.
  case_bool_decide as Eb; [left; eexists; split; [reflexivity|by left]|].
  destruct (previous st) as [p|]; [destruct (wrongly_ordered p hit) eqn:Ew|].
  - left. eexists. split; [reflexivity|]. right. by exists p.
  - right. done.
  - right. done.
Qed.

Lemma suffix_loop l : forall st,
  Forall (fun hit => is_Some (hit_pre_rerank_rrf_rank hit)) l ->
  match foldOR suffix_step st l with
  | None => False
  | Some (Ok _) => NoDup (map hit_pre_rerank_rrf_rank l) /\ chain (previous st) l
      /\ (forall r, Some r ∈ map hit_pre_rerank_rrf_rank l -> r ∉ ranks_seen st)
  | Some (Err _) => ~ (NoDup (map hit_pre_rerank_rrf_rank l) /\ chain (previous st) l
      /\ (forall r, Some r ∈ map hit_pre_rerank_rrf_rank l -> r ∉ ranks_seen st))
  end.
Proof.
  induction l as [|hit l IH]; intros st F.
  { cbn. split; [constructor|]. split; [done|]. set_solver. }
  apply Forall_cons in F as [[r Hr] F]. cbn [foldOR map chain]. rewrite Hr.
  destruct (suffix_step_cases st hit r Hr) as [(e & -> & Hbad)|(-> & Eb & Hp)]; cbn [andThen].
  { intros (_ & [Hc _] & H). destruct Hbad as [Hin|(p & Hpr & Hw)]; [apply (H r); [left|done]|].
    rewrite Hpr in Hc. congruence. }
  specialize (IH {| ranks_seen := {[r]} ∪ ranks_seen st; previous := Some hit |} F).
  cbn [previous ranks_seen] in IH.
  destruct (foldOR _ _ _) as [[st'|e]|]; [| |done].
  - destruct IH as (Hnd & Hc & Hno). split; [|split; [done|]].
    + constructor; [|done]. intros Hin. apply (Hno _ Hin). set_solver.
    + intros r' [[= ->]|Hin]%elem_of_cons; [done|]. specialize (Hno _ Hin). set_solver.
  - intros (Hnd & [_ Hc] & Hno). apply IH. apply NoDup_cons in Hnd as [Hx Hnd]. split; [done|]. split; [done|].
    intros r' Hin. specialize (Hno r' ltac:(by right)).
    assert (r' <> r) by congruence. set_solver.
Qed.

(** ** Entries of the loop over the hits *)

Lemma imap_pair_snd (l : list KnowledgeEvidenceHitV3) : (imap pair l).*2 = l.
Proof. apply list_eq. intros i. rewrite list_lookup_fmap, list_lookup_imap. by destruct (l !! i). Qed.

Lemma imap_pair_Forall (P : nat -> KnowledgeEvidenceHitV3 -> Prop) l :
  Forall (fun e => P e.1 e.2) (imap pair l) <-> forall i hit, l !! i = Some hit -> P i hit.
Proof.
  rewrite Forall_lookup. setoid_rewrite list_lookup_imap. split.
  - intros H i hit Hi. apply (H i (i, hit)). by rewrite Hi.
  - intros H i [j hit]. destruct (l !! i) as [h|] eqn:E; cbn; [|done]. intros [= <- <-]. cbn. by apply H.
Qed.

Lemma imap_pair_filter n (l : list KnowledgeEvidenceHitV3) : forall k,
  map snd (List.filter (fun e => (e.1 <? n)%nat) (imap (fun i h => ((k + i)%nat, h)) l)) = take (n - k) l.
Proof.
  induction l as [|h l IH]; intros k; [by rewrite take_nil|]. cbn [imap List.filter fst].
  rewrite Nat.add_0_r. specialize (IH (S k)).
  rewrite (imap_ext ((fun i h => ((k + i)%nat, h)) ∘ S) (fun i h => ((S k + i)%nat, h)) l)
    by (intros i x _; cbn; f_equal; lia).
  destruct (Nat.ltb_spec k n) as [Hk|Hk].
  - cbn [map snd]. rewrite IH. by replace (n - k)%nat with (S (n - S k)) by lia.
  - rewrite IH. replace (n - k)%nat with 0%nat by lia. by replace (n - S k)%nat with 0%nat by lia.
Qed.

Lemma exact_versions_imap n l :
  exact_versions n (imap pair l) = list_to_set (map hit_version_of (take n l)).
Proof.
  unfold exact_versions. f_equal. rewrite <- (map_map snd hit_version_of). f_equal.
  pose proof (imap_pair_filter n l 0) as H. rewrite Nat.sub_0_r in H. exact H.
Qed.

(** ** The validator and its specification *)

Lemma andThen_ok {E A B} (r : result E A) (f : A -> option (result E B)) b :
  andThen (Some r) f = Some (Ok b) <-> exists a, r = Ok a /\ f a = Some (Ok b).
Proof. destruct r as [a|e]; cbn; naive_solver. Qed.

Lemma andThen_ok' {E A B} (r : option (result E A)) (f : A -> option (result E B)) b :
  andThen r f = Some (Ok b) <-> exists a, r = Some (Ok a) /\ f a = Some (Ok b).
Proof. destruct r as [[a|e]|]; cbn; naive_solver. Qed.

Lemma reject_ok {E} c (e : E) : reject_if c e = Ok tt <-> c = false.
Proof. by destruct c. Qed.

(** A continuation of a step that only faults when the step's value makes it fault. *)
Lemma andThen_total {E A B} (r : result E A) (f : A -> option (result E B)) :
  (forall a, r = Ok a -> exists v, f a = Some v) -> exists v, andThen (Some r) f = Some v.
Proof. destruct r; cbn; eauto. Qed.

Section validator.
Context (sha : str -> str) (kind : str) (policy : RetrievalPolicyIdentityV1).
Context (Hu64 : max_total_bytes policy < u64_modulus).

Lemma eligible_loop_ok l S :
  foldR (eligible_step kind) ∅ l = Ok S <->
  Forall (version_ok kind) l /\ NoDup (map key_of l) /\ S = list_to_set (map key_of l).
Proof.
  pose proof (eligible_loop kind l ∅) as H. destruct (foldR _ _ _) as [S'|e].
  - destruct H as (F & Hnd & _ & ->). rewrite (right_id_L ∅ (∪)).
    split; [by intros [= <-]|by intros (_ & _ & ->)].
  - split; [done|]. intros (F & Hnd & _). destruct H. split; [done|]. split; [done|]. set_solver.
Qed.

Lemma hit_loop_ok l n keys st :
  foldR (hit_step sha kind policy (list_to_set keys) n) {| seen := ∅; hit_versions := ∅; total_bytes := 0 |}
    (imap pair l) = Ok st ->
  (forall i hit, l !! i = Some hit -> hit_ok sha kind policy keys n i hit)
  /\ NoDup (map identity_of l) /\ total_bytes st = hit_bytes l
  /\ hit_versions st = list_to_set (map hit_version_of (take n l)).
Proof.
  intros E. pose proof (hit_loop sha kind policy keys n (imap pair l) {| seen := ∅; hit_versions := ∅; total_bytes := 0 |}) as H.
  rewrite E in H. destruct H as ((F & Hnd & _) & _ & Ht & Hv). rewrite imap_pair_snd in *.
  cbn [total_bytes hit_versions] in *. rewrite imap_pair_Forall in F.
  split; [done|]. split; [done|]. split; [lia|]. by rewrite Hv, exact_versions_imap, (right_id_L ∅ (∪)).
Qed.

Lemma hit_loop_returns l n keys :
  (forall i hit, l !! i = Some hit -> hit_ok sha kind policy keys n i hit) ->
  NoDup (map identity_of l) -> hit_bytes l < u64_modulus ->
  exists st, foldR (hit_step sha kind policy (list_to_set keys) n)
    {| seen := ∅; hit_versions := ∅; total_bytes := 0 |} (imap pair l) = Ok st.
Proof.
  intros F Hnd Hb.
  pose proof (hit_loop sha kind policy keys n (imap pair l) {| seen := ∅; hit_versions := ∅; total_bytes := 0 |}) as H.
  destruct (foldR _ _ _) as [st|e]; [by exists st|]. destruct H. unfold entries_ok.
  rewrite imap_pair_snd, imap_pair_Forall. cbn [seen total_bytes].
  rewrite N.add_0_l. split; [split; [done|split; [done|]]|done]. set_solver.
Qed.

Lemma suffix_present l n keys :
  (forall i hit, l !! i = Some hit -> hit_ok sha kind policy keys n i hit) ->
  Forall (fun hit => is_Some (hit_pre_rerank_rrf_rank hit)) (drop n l).
Proof.
  intros F. apply Forall_lookup. intros i hit Hi. rewrite lookup_drop in Hi.
  destruct (ho_semantic _ _ _ _ _ _ _ (F _ _ Hi) ltac:(lia)) as (_ & r & -> & _). by eexists.
Qed.

Lemma suffix_loop_ok l :
  Forall (fun hit => is_Some (hit_pre_rerank_rrf_rank hit)) l ->
  (exists st, foldOR suffix_step {| ranks_seen := ∅; previous := None |} l = Some (Ok st))
  <-> NoDup (map hit_pre_rerank_rrf_rank l) /\ chain None l.
Proof.
  intros F. pose proof (suffix_loop l {| ranks_seen := ∅; previous := None |} F) as H.
  destruct (foldOR _ _ _) as [[st|e]|]; cbn [previous ranks_seen] in H; [| |done].
  - split; [tauto|eauto].
  - split; [by intros [? [=]]|]. intros [Hnd Hc]. destruct H. split; [done|]. split; [done|]. set_solver.
Qed.

Lemma nodup_size (l : list (N * N)) : size (list_to_set l : gset (N * N)) = length l <-> NoDup l.
Proof.
  split; [|apply size_list_to_set]. induction l as [|x l IH]; cbn; [constructor|].
  intros H. assert (size (list_to_set l : gset (N * N)) <= length l)%nat as Hle.
  { clear. induction l as [|y l IH]; cbn; [done|]. rewrite size_union_alt, size_singleton.
    pose proof (subseteq_size (list_to_set l ∖ {[y]}) (list_to_set l : gset (N * N)) ltac:(set_solver)). lia. }
  destruct (decide (x ∈ l)) as [Hx|Hx].
  - rewrite (subseteq_union_1_L) in H by set_solver. lia.
  - constructor; [done|]. apply IH. rewrite size_union, size_singleton in H by set_solver. lia.
Qed.

Lemma existsb_str a l : existsb (str_eqb a) l = true <-> a ∈ l.
Proof.
  rewrite existsb_exists, list_elem_of_In. setoid_rewrite str_eqb_spec. split.
  - by intros (x & Hx & ->).
  - eauto.
Qed.

(** The two tests outside the loops. *)
Lemma header_ok batch :
  negb (batch_schema_version batch =? KNOWLEDGE_EVIDENCE_SCHEMA_V3)
  || negb (str_eqb (contract_version policy) KNOWLEDGE_EVIDENCE_CONTRACT_V2)
  || negb (existsb (str_eqb kind) WORKSPACE_KINDS)
  || (max_hits policy =? 0) || (max_chunk_bytes policy =? 0) || (max_total_bytes policy =? 0)
  || (N.to_nat (max_hits policy) <? length (hits batch))%nat
  || (length (hits batch) <? exact_prefix_hit_count batch)%nat = false
  <-> batch_schema_version batch = KNOWLEDGE_EVIDENCE_SCHEMA_V3
      /\ contract_version policy = KNOWLEDGE_EVIDENCE_CONTRACT_V2 /\ kind ∈ WORKSPACE_KINDS
      /\ (max_hits policy <> 0 /\ max_chunk_bytes policy <> 0 /\ max_total_bytes policy <> 0)
      /\ (exact_prefix_hit_count batch <= length (hits batch))%nat
      /\ N.of_nat (length (hits batch)) <= max_hits policy.
Proof.
  rewrite !orb_false_iff, !negb_eqb, negb_str_eqb, negb_false_iff, existsb_str, !N.eqb_neq, !Nat.ltb_ge.
  split; [intros H; decompose [and] H; repeat split; (done || lia)|].
  intros H; decompose [and] H; repeat split; (done || lia).
Qed.

Lemma metrics_ok batch versions :
  (N.of_nat versions - max_hits policy <? exact_versions_truncated batch)
  || (exact_hits_truncated batch <? exact_versions_truncated batch)
  || ((exact_prefix_hit_count batch =? 0)%nat
      && (negb (exact_versions_truncated batch =? 0) || negb (exact_hits_truncated batch =? 0)))
  || ((0 <? exact_versions_truncated batch)
      && negb (exact_prefix_hit_count batch =? N.to_nat (max_hits policy))%nat) = false
  <-> exact_versions_truncated batch <= N.of_nat versions - max_hits policy
      /\ exact_versions_truncated batch <= exact_hits_truncated batch
      /\ (exact_prefix_hit_count batch = 0%nat ->
          exact_versions_truncated batch = 0 /\ exact_hits_truncated batch = 0)
      /\ (exact_versions_truncated batch <> 0 -> N.of_nat (exact_prefix_hit_count batch) = max_hits policy).
Proof.
  rewrite !orb_false_iff, !N.ltb_ge, !implb_false, orb_false_iff, !negb_eqb, negb_false_iff, Nat.eqb_eq,
    Nat.eqb_eq, N.ltb_lt. lia.
Qed.

(** What an accepted batch satisfies. *)
Lemma validate_sound batch :
  validate_evidence_batch_v3 sha kind policy batch = Some (Ok tt) -> evidence_ok sha kind policy batch.
Proof.
  unfold validate_evidence_batch_v3. intros (u & H1 & H)%andThen_ok. destruct u. apply reject_ok, header_ok in H1.
  apply andThen_ok in H as (S & (F & Hnd & ->)%eligible_loop_ok & H).
  rewrite (proj2 (nodup_size _) Hnd), length_map in H.
  apply andThen_ok in H as (u & H2 & H). destruct u. apply reject_ok, metrics_ok in H2.
  apply andThen_ok in H as (st & (Hh & Hids & Ht & Hv)%hit_loop_ok & H).
  apply andThen_ok' in H as (sx & Hsx & H).
  apply andThen_ok in H as (u & H3 & H4). destruct u. apply reject_ok, N.ltb_ge in H3. rewrite Ht in H3.
  injection H4 as H4%reject_ok. rewrite Hv, implb_false, N.ltb_lt in H4.
  destruct (proj1 (suffix_loop_ok (drop (exact_prefix_hit_count batch) (hits batch)) ltac:(by eapply suffix_present))) as [Hr Hc];
    [by eexists|].
  destruct H1 as (? & ? & ? & ? & Hc1 & Hc2), H2 as (? & ? & ? & Hfull).
  split; try done. intros Hne. split; [by apply Hfull|].
  specialize (H4 ltac:(lia)). apply negb_false_iff, Nat.eqb_eq in H4.
  apply nodup_size. rewrite H4, length_map, length_take. specialize (Hfull Hne). lia.
Qed.

Lemma validate_complete batch :
  evidence_ok sha kind policy batch -> validate_evidence_batch_v3 sha kind policy batch = Some (Ok tt).
Proof.
  intros []. destruct eo_count0 as [Hc1 Hc2], eo_versions0 as [F Hnd].
  unfold validate_evidence_batch_v3. apply andThen_ok. exists tt. split; [by apply reject_ok, header_ok|].
  apply andThen_ok. exists (list_to_set (map key_of (eligible_versions batch))).
  split; [by apply eligible_loop_ok|]. apply andThen_ok. exists tt.
  rewrite (proj2 (nodup_size _) Hnd), length_map. split.
  { apply reject_ok, metrics_ok. repeat split; try done; [by apply eo_no_prefix0..|]. intros; by apply eo_full_prefix0. }
  destruct (hit_loop_returns (hits batch) (exact_prefix_hit_count batch) (map key_of (eligible_versions batch)))
    as [st Hst]; [done|done|lia|].
  apply andThen_ok. exists st. split; [done|]. apply hit_loop_ok in Hst as (_ & _ & Ht & Hv).
  destruct (proj2 (suffix_loop_ok (drop (exact_prefix_hit_count batch) (hits batch)) ltac:(by eapply suffix_present)))
    as [sx Hsx]; [done|].
  apply andThen_ok'. exists sx. split; [done|]. apply andThen_ok. exists tt. split.
  { apply reject_ok, N.ltb_ge. by rewrite Ht. }
  f_equal. apply reject_ok. rewrite Hv, implb_false, N.ltb_lt. intros Hne.
  destruct (eo_full_prefix0 ltac:(lia)) as [Hfull Hnp]. rewrite (proj2 (nodup_size _) Hnp), length_map, length_take.
  apply negb_false_iff, Nat.eqb_eq. lia.
Qed.

(** The [expect] of the suffix loop is never reached without a rank. *)
Lemma validate_total batch : exists r, validate_evidence_batch_v3 sha kind policy batch = Some r.
Proof.
  unfold validate_evidence_batch_v3. apply andThen_total. intros _ _. apply andThen_total.
  intros S (F & Hnd & ->)%eligible_loop_ok. apply andThen_total. intros _ _. apply andThen_total.
  intros st (Hh & _ & _ & _)%hit_loop_ok.
  pose proof (suffix_loop _ {| ranks_seen := ∅; previous := None |} (suffix_present _ _ _ Hh)) as Hs.
  destruct (foldOR suffix_step _ _) as [[sx|e]|]; [|by eexists|done].
  cbn [andThen]. destruct (reject_if (max_total_bytes policy <? total_bytes st) _); cbn [andThen]; by eexists.
Qed.

End validator.

(** C36: The validator of an evidence batch ([validate_evidence_batch_v3]) never panics, and it
    accepts exactly the batches of the specification: the schema, contract, scope and quotas
    are right; the eligible versions are well formed and distinct; the truncation counters
    are consistent with the prefix; every hit at every index is right (identity, digest,
    byte length, offsets, rank, score, media, scope); no source is cited twice; the byte
    quota holds; the semantic suffix has distinct ranks in the order of the reranking. *)
Theorem validate_evidence_batch_exact sha kind policy batch :
  max_total_bytes policy < u64_modulus ->
  (validate_evidence_batch_v3 sha kind policy batch = Some (Ok tt) <-> evidence_ok sha kind policy batch)
  /\ exists r, validate_evidence_batch_v3 sha kind policy batch = Some r.
Proof.
  intros Hu. split; [|by apply validate_total]. split; [by apply validate_sound|by apply validate_complete].
Qed.

Lemma validate_evidence_batch_exact_witness :
  max_total_bytes demo_identity < u64_modulus
  /\ (validate_evidence_batch_v3 (fun _ => u8"digest") demo_kind demo_identity demo_batch = Some (Ok tt)
      <-> evidence_ok (fun _ => u8"digest") demo_kind demo_identity demo_batch).
Proof.
  split; [by vm_compute|].
  apply (validate_evidence_batch_exact (fun _ => u8"digest") demo_kind demo_identity demo_batch). by vm_compute.
Defined.
