(* ===== verification/RerankFacts.v ===== *)
(** * The rerank response: theorems

    The order of the fixed scores as strings, and [apply_response] as a permutation of the
    candidates. *)
From Stdlib Require Import QArith_base Qround.
From S2P Require Import Prelude RustStr Batches Policy Order Rank Recall Selection Evidence BatchFacts.

Local Open Scope N_scope.

(** ** The fixed scores *)

Fixpoint digits_n (k : nat) (n : N) : str :=
  match k with O => [] | S k' => digits_n k' (n / 10) ++ [digit_char n] end.

Lemma six_digits_n n : six_digits n = digits_n 6 n.
Proof. unfold six_digits. cbn [digits_n app]. by rewrite !N.Div0.div_div. Qed.

Lemma str_ltb_snoc x y c d :
  length x = length y -> str_ltb (x ++ [c]) (y ++ [d]) = str_ltb x y || (str_eqb x y && (c <? d)%Z).
Proof.
  revert y. induction x as [|a x IH]; intros [|b y] Hl; try done.
  { cbn. by destruct (c <? d)%Z, (c =? d)%Z. }
  cbn. injection Hl as Hl. rewrite (IH y Hl). unfold str_eqb.
  destruct (Z.ltb_spec a b); cbn; [done|]. destruct (Z.eqb_spec a b) as [->|Hne]; cbn.
  - f_equal. f_equal. apply bool_decide_ext. split; [congruence|by intros [= ->]].
  - rewrite bool_decide_false by congruence. done.
Qed.

Lemma length_digits_n k n : length (digits_n k n) = k.
Proof. revert n. induction k as [|k IH]; intros n; cbn; [done|]. rewrite length_app, IH. cbn. lia. Qed.

Lemma digits_n_order k : forall a b, a < 10 ^ N.of_nat k -> b < 10 ^ N.of_nat k ->
  str_ltb (digits_n k a) (digits_n k b) = (a <? b) /\ str_eqb (digits_n k a) (digits_n k b) = (a =? b).
Proof.
  induction k as [|k IH]; intros a b Ha Hb.
  { change (10 ^ N.of_nat 0) with 1 in *. assert (a = 0) as -> by lia. assert (b = 0) as -> by lia. done. }
  rewrite Nat2N.inj_succ, N.pow_succ_r' in Ha, Hb.
  destruct (IH (a / 10) (b / 10)) as [IH1 IH2]; [apply N.Div0.div_lt_upper_bound; lia..|].
  pose proof (N.div_mod a 10 ltac:(lia)) as Da. pose proof (N.div_mod b 10 ltac:(lia)) as Db.
  pose proof (N.mod_lt a 10 ltac:(lia)) as Ma. pose proof (N.mod_lt b 10 ltac:(lia)) as Mb.
  cbn [digits_n]. split.
  - rewrite str_ltb_snoc by (by rewrite !length_digits_n). rewrite IH1, IH2. unfold digit_char.
    clear IH1 IH2 IH Ha Hb. revert Da Db Ma Mb. generalize (a / 10) (b / 10) (a mod 10) (b mod 10).
    intros qa qb ra rb Da Db Ma Mb.
    destruct (N.ltb_spec qa qb), (N.eqb_spec qa qb), (Z.ltb_spec (48 + Z.of_N ra) (48 + Z.of_N rb)),
      (N.ltb_spec a b); cbn [orb andb]; try done; exfalso; lia.
  - unfold str_eqb in *. destruct (N.eqb_spec a b) as [->|Hne]; [by apply bool_decide_eq_true|].
    apply bool_decide_eq_false. intros [E1 E2]%app_inj_tail. unfold digit_char in E2.
    rewrite E1 in IH2. rewrite bool_decide_true in IH2 by done. symmetry in IH2. apply N.eqb_eq in IH2. lia.
Qed.

Lemma fixed_score_cases r :
  score_millionths r <= 1000000 ->
  (score_millionths r = 1000000 /\ fixed_score r = SCORE_ONE)
  \/ (score_millionths r < 1000000 /\ fixed_score r = 48%Z :: 46%Z :: digits_n 6 (score_millionths r)).
Proof.
  intros H. unfold fixed_score. destruct (N.eq_dec (score_millionths r) 1000000) as [->|Hne].
  - left. split; [done|]. by vm_compute.
  - right. split; [lia|]. rewrite N.div_small, N.mod_small by lia. by rewrite six_digits_n.
Qed.

(** The order of the score strings is the order of the scores. *)
Lemma fixed_score_order a b :
  score_millionths a <= 1000000 -> score_millionths b <= 1000000 ->
  str_ltb (fixed_score a) (fixed_score b) = (score_millionths a <? score_millionths b)
  /\ str_eqb (fixed_score a) (fixed_score b) = (score_millionths a =? score_millionths b).
Proof.
  intros Ha Hb. assert (SCORE_ONE = [49; 46; 48; 48; 48; 48; 48; 48]%Z) as Hone by (by vm_compute).
  destruct (fixed_score_cases a Ha) as [[Ea ->]|[La ->]], (fixed_score_cases b Hb) as [[Eb ->]|[Lb ->]].
  - rewrite Ea, Eb. split; [by rewrite Hone|]. by apply bool_decide_eq_true.
  - rewrite Hone. split; symmetry; [apply N.ltb_ge; lia|]. transitivity false; [apply N.eqb_neq; lia|].
    symmetry. apply bool_decide_eq_false. by intros [=].
  - rewrite Hone. split; symmetry; [apply N.ltb_lt; lia|]. transitivity false; [apply N.eqb_neq; lia|].
    symmetry. apply bool_decide_eq_false. by intros [=].
  - destruct (digits_n_order 6 (score_millionths a) (score_millionths b)) as [H1 H2];
      [change (10 ^ N.of_nat 6) with 1000000; lia..|].
    split; [by rewrite <- H1|]. rewrite <- H2. apply bool_decide_ext. split; [congruence|intros ->; reflexivity].
Qed.

Lemma digit_char_digit n : is_ascii_digit (digit_char n) = true /\ len_utf8 (digit_char n) = 1%nat.
Proof.
  pose proof (N.mod_lt n 10 ltac:(lia)) as H. unfold is_ascii_digit, len_utf8, digit_char.
  revert H. generalize (n mod 10). intros d H. split; [apply andb_true_iff; split; apply Z.leb_le; lia|]. by rewrite (proj2 (Z.ltb_lt _ _)) by lia.
Qed.

Lemma digits_n_ascii k : forall n, forallb is_ascii_digit (digits_n k n) = true /\ blen (digits_n k n) = k.
Proof.
  induction k as [|k IH]; intros n; cbn [digits_n]; [done|]. destruct (IH (n / 10)) as [H1 H2].
  destruct (digit_char_digit n) as [D1 D2]. split.
  - rewrite forallb_app, H1. cbn. by rewrite D1.
  - assert (forall a b, blen (a ++ b) = (blen a + blen b)%nat) as Happ
      by (induction a as [|c a IHa]; intros b; cbn; [done|]; rewrite IHa; lia).
    rewrite Happ, H2. cbn [blen]. rewrite D2. lia.
Qed.

Lemma fixed_score_unit r :
  score_millionths r <= 1000000 -> is_unit_interval_millionths (fixed_score r) = true.
Proof.
  intros H. unfold is_unit_interval_millionths. destruct (fixed_score_cases r H) as [[_ ->]|[_ ->]].
  - by rewrite (proj2 (str_eqb_spec _ _)).
  - apply orb_true_iff. right. destruct (digits_n_ascii 6 (score_millionths r)) as [H1 H2].
    change (drop 2 _) with (digits_n 6 (score_millionths r)). cbn [blen]. rewrite H1, H2.
    generalize (digits_n 6 (score_millionths r)). by vm_compute.
Qed.

(** ** The rerank response *)

#[export] Instance comparator_reranked : Comparator compare_reranked.
Proof.
  unfold compare_reranked.
  apply (comparator_then (fun l r => score_millionths r ?= score_millionths l)).
  { apply (comparator_flip (fun l r => score_millionths l ?= score_millionths r)),
      (comparator_proj N.compare score_millionths), _. }
  repeat match goal with
  | |- Comparator (fun l r => cmp_then (?f (candidate l) ?= _) _) =>
    apply (comparator_then (fun l r => f (candidate l) ?= f (candidate r)));
      [apply (comparator_proj N.compare (fun l => f (candidate l))), _|]
  | |- Comparator (fun l r => ?f (candidate l) ?= _) => apply (comparator_proj N.compare (fun l => f (candidate l))), _
  end.
Qed.

Section rerank.
Context {Value Decimal : Type}.
Context (as_number : Value -> option str) (decimal_from_str : str -> option Decimal).
Context (decimal_value : Decimal -> Q) (decimal_millionths : Decimal -> option N).
Context (parse_response : list Z -> result str (RerankResponseV2 Value)).
Context (sha256_hex : list Z -> str) (rerank_json : RerankRevisionV2 -> result str (list Z)).

Notation score := (score_of as_number decimal_from_str decimal_value decimal_millionths).

(** [rust_decimal] on the unit interval: cutting at six digits is the floor of the millionths. *)
Definition decimal_law : Prop := forall d, Qle (0#1) (decimal_value d) -> Qle (decimal_value d) (1#1) ->
  decimal_millionths d = Some (Z.to_N (Qfloor (decimal_value d * (1000000#1)))).

Lemma score_of_bound v s : decimal_law -> score v = Ok s -> s <= 1000000.
Proof.
  intros Hlaw (n & _ & H)%bind_Ok. apply bind_Ok in H as (d & _ & H).
  apply bind_Ok in H as (u & [E1 E2]%reject_if_Ok%orb_false_iff & Hs%ok_or_Ok).
  assert (Qle (0#1) (decimal_value d)) as L0.
  { apply Qnot_lt_le. intros H. by rewrite (proj1 (Qlt_alt _ _) H) in E1. }
  assert (Qle (decimal_value d) (1#1)) as L1.
  { apply Qnot_lt_le. intros H%Qgt_alt. by rewrite H in E2. }
  rewrite (Hlaw d L0 L1) in Hs.
  assert (s = Z.to_N (Qfloor (decimal_value d * (1000000#1)))) as -> by congruence.
  assert (Qfloor (decimal_value d * (1000000#1)) <= 1000000)%Z as Hf; [|lia].
  change 1000000%Z with (Qfloor (1000000#1)). apply Qfloor_resp_le.
  apply (Qle_trans _ ((1#1) * (1000000#1))); [apply Qmult_le_compat_r; [exact L1|]|]; by vm_compute.
Qed.

Lemma zip_candidates cs : forall ss,
  length cs = length ss ->
  map candidate (zip_with (fun c s => {| candidate := c; score_millionths := s |}) cs ss) = cs.
Proof. induction cs as [|c cs IH]; intros [|s ss] H; try done. cbn. f_equal. apply IH. by injection H. Qed.

(** An accepted response: every position has the score sent for it, and the candidates with their
    scores are sorted. *)
Lemma apply_response_filed bytes candidates policy revision out :
  apply_response as_number decimal_from_str decimal_value decimal_millionths parse_response
    sha256_hex rerank_json bytes candidates policy revision = Ok out ->
  exists response ss, parse_response bytes = Ok response
  /\ (rs_results response).*1 ≡ₚ seq 0 (length candidates) /\ length ss = length candidates
  /\ (forall i v, (i, v) ∈ rs_results response -> exists s, score v = Ok s /\ ss !! i = Some s)
  /\ (forall i s, ss !! i = Some s -> exists v, score v = Ok s)
  /\ out = sort_with compare_reranked
             (zip_with (fun c s => {| candidate := c; score_millionths := s |}) candidates ss).
Proof.
  unfold apply_response. destruct (parse_response bytes) as [response|e]; [|done].
  cbn [mbind result_bind]. intros (u & _ & H)%bind_Ok. apply bind_Ok in H as (u' & Hlen%reject_if_Ok & H).
  apply negb_false_iff, Nat.eqb_eq in Hlen.
  apply bind_Ok in H as (scores & Hloop & H). apply bind_Ok in H as (ss & Hss%ok_or_Ok & [= <-]).
  destruct (fill_slots_all _ _ _ _ _ Hlen Hloop) as (Hperm & ss' & Hss' & L2 & Hread & Hall).
  rewrite Hss in Hss'. injection Hss' as <-. exists response, ss. split; [done|]. split; [done|]. split; [lia|].
  split; [done|]. split; [|done]. intros i s Hs. destruct (Hall i s Hs) as (v & _ & H). by exists v.
Qed.

Lemma filed_out candidates ss : length ss = length candidates ->
  let out := sort_with compare_reranked
               (zip_with (fun c s => {| candidate := c; score_millionths := s |}) candidates ss) in
  map candidate out ≡ₚ candidates /\ StronglySorted (fun l r => is_le (compare_reranked l r) = true) out.
Proof.
  intros Hl. split; [|apply sort_with_sorted, _].
  transitivity (map candidate (zip_with (fun c s => {| candidate := c; score_millionths := s |}) candidates ss)).
  { apply fmap_Permutation, sort_with_perm. }
  rewrite zip_candidates by lia. done.
Qed.

Lemma filed_scores candidates ss : decimal_law -> (forall i s, ss !! i = Some s -> exists v, score v = Ok s) ->
  Forall (fun r => score_millionths r <= 1000000)
    (sort_with compare_reranked (zip_with (fun c s => {| candidate := c; score_millionths := s |}) candidates ss)).
Proof.
  intros Hlaw Hall. rewrite sort_with_perm. apply Forall_lookup. intros i r Hr. rewrite lookup_zip_with in Hr.
  destruct (candidates !! i) as [c|] eqn:Ec; [|done]. cbn in Hr.
  destruct (ss !! i) as [s|] eqn:Es; [|done]. cbn in Hr. injection Hr as <-. cbn [score_millionths].
  destruct (Hall i s Es) as (v & Hs). by eapply score_of_bound.
Qed.

(** The response of the rerank provider ([apply_response]): when it is accepted, its indices
    are a permutation of the positions of the candidates, every candidate comes back exactly
    once with the score sent for its position, the scores are at most one million, and the
    result is in the order of [compare_reranked]. *)
Theorem apply_response_permutes bytes candidates policy revision out :
  decimal_law ->
  apply_response as_number decimal_from_str decimal_value decimal_millionths parse_response
    sha256_hex rerank_json bytes candidates policy revision = Ok out ->
  exists response, parse_response bytes = Ok response
  /\ (rs_results response).*1 ≡ₚ seq 0 (length candidates)
  /\ map candidate out ≡ₚ candidates
  /\ (forall i v, (i, v) ∈ rs_results response ->
       exists c s, candidates !! i = Some c /\ score v = Ok s /\ {| candidate := c; score_millionths := s |} ∈ out)
  /\ Forall (fun r => score_millionths r <= 1000000) out
  /\ StronglySorted (fun l r => is_le (compare_reranked l r) = true) out.
Proof.
  intros Hlaw (response & ss & Hp & Hperm & Hl & Hread & Hall & ->)%apply_response_filed.
  destruct (filed_out candidates ss Hl) as [Hc Hs]. exists response. do 3 (split; [done|]). split; [|split; [|done]].
  - intros i v Hiv. destruct (Hread i v Hiv) as (s & Hv & Hsi).
    destruct (lookup_lt_is_Some_2 candidates i) as [c Hci]; [apply lookup_lt_Some in Hsi; lia|].
    exists c, s. split; [done|]. split; [done|]. rewrite sort_with_perm. apply list_elem_of_lookup. exists i.
    by rewrite lookup_zip_with, Hci, Hsi.
  - by apply filed_scores.
Qed.
End rerank.

(** Scores sent as millionths: a provider for which the law of the decimals holds. *)
Definition demo_from_str (t : str) : option N := match t with [z] => Some (Z.to_N z) | _ => None end.
Definition demo_decimal (d : N) : Q := Qmake (Z.of_N d) 1000000.
Definition demo_response : RerankResponseV2 N :=
  {| rs_model_revision_sha256 := replicate 64 99%Z; rs_config_revision_sha256 := replicate 64 100%Z;
     rs_results := [(1%nat, 900000); (0%nat, 100000)] |}.

Definition demo_rerank_revision : RerankRevisionV2 := {|
  rr_schema_version := 2; rr_provider_protocol_version := RETRIEVAL_RERANK_PROTOCOL_VERSION_V2;
  rr_provider_model_identifier := u8"bge/reranker-v2@2024-02-29";
  rr_provider_model_revision_sha256 := replicate 64 99%Z; rr_config_revision_sha256 := replicate 64 100%Z;
  rr_endpoint_identity := u8"https://rerank.example:8443/v1/rerank";
  rr_request_config_sha256 := RERANK_REQUEST_CONFIG_SHA256_V2;
  rr_score_normalization_version := RETRIEVAL_RERANK_SCORE_NORMALIZATION_VERSION_V2;
|}.

Lemma demo_law : decimal_law demo_decimal Some.
Proof.
  intros d _ _. unfold demo_decimal, Qfloor, Qmult. cbn [Qnum Qden].
  rewrite Z.mul_comm, Pos.mul_1_r, Z.mul_comm, Z.div_mul by done. by rewrite N2Z.id.
Qed.

Lemma apply_response_permutes_witness :
  decimal_law demo_decimal Some
  /\ exists out, apply_response (fun v : N => Some [Z.of_N v]) demo_from_str demo_decimal Some (fun _ => Ok demo_response)
       (fun _ => replicate 64 98%Z) (fun _ => Ok []) [] demo_candidates demo_retrieval_policy demo_rerank_revision
     = Ok out
  /\ map score_millionths out = [900000; 100000] /\ map candidate out ≡ₚ demo_candidates.
Proof.
  split; [exact demo_law|]. eexists. split; [vm_compute; reflexivity|]. split; [reflexivity|].
  destruct (apply_response_permutes (fun v : N => Some [Z.of_N v]) demo_from_str demo_decimal Some
    (fun _ => Ok demo_response) (fun _ => replicate 64 98%Z) (fun _ => Ok []) [] demo_candidates
    demo_retrieval_policy demo_rerank_revision
    _ demo_law ltac:(vm_compute; reflexivity)) as (_ & _ & _ & H & _).
  exact H.
Defined.
