(* ===== verification/RetrieveFacts.v ===== *)
(** * [retrieve_v2]: theorems

    What the loop over the rows collects, the media and the semantic tail of the hits, and the
    assembled batch: [retrieve_v2] assembles batches that its own validator accepts. *)
From S2P Require Import Prelude RustStr Policy Order Rank Recall Selection Evidence BatchFacts.
From S2P Require Import RerankFacts.

Local Open Scope N_scope.

(** ** The rows *)

Definition row_version (row : EvidenceRow) : N * N := (row_product_id row, row_product_version_id row).

Lemma eligible_insert_keys v l k : k ∈ map key_of (eligible_insert v l) <-> k = key_of v \/ k ∈ map key_of l.
Proof.
  induction l as [|w l IH]; cbn; [set_solver|]. fold (key_of v) (key_of w).
  destruct (compare_version (key_of v) (key_of w)) eqn:E; cbn; [|set_solver|].
  - apply compare_version_Eq in E as ->. set_solver.
  - rewrite !elem_of_cons, IH. tauto.
Qed.

Lemma eligible_insert_sorted v l :
  StronglySorted version_lt (map key_of l) -> StronglySorted version_lt (map key_of (eligible_insert v l)).
Proof.
  induction l as [|w l IH]; intros Hs; cbn; [repeat constructor|]. fold (key_of v) (key_of w).
  pose proof Hs as [Hs' Hk]%StronglySorted_inv.
  destruct (compare_version (key_of v) (key_of w)) eqn:E; [done| |]; cbn.
  - constructor; [done|]. constructor; [done|]. eapply Forall_impl; [exact Hk|]. intros k Hlt.
    eapply (cmp_lt_le compare_version); [exact E|]. by rewrite Hlt.
  - constructor; [by apply IH|]. apply Forall_forall. intros k [->|Hin]%eligible_insert_keys.
    + unfold version_lt. by rewrite (cmp_antisym (cmp:=compare_version) (key_of v) (key_of w)), E.
    + rewrite Forall_forall in Hk. by apply Hk.
Qed.

Lemma eligible_insert_Forall (P : EligibleEvidenceVersionV1 -> Prop) v l :
  P v -> Forall P l -> Forall P (eligible_insert v l).
Proof.
  induction 2 as [|w l Hw F IH]; cbn; [by repeat constructor|]. case_match; repeat constructor; done.
Qed.

Lemma sorted_nodup l : StronglySorted version_lt l -> NoDup l.
Proof.
  induction 1 as [|k l Hs IH Hk]; constructor; [|done]. intros Hin. rewrite Forall_forall in Hk.
  specialize (Hk _ Hin). unfold version_lt in Hk. by rewrite (cmp_refl compare_version) in Hk.
Qed.

(** A row with names and identifiers; a chunk has a document, an identifier and a file name. *)
Record row_ok (row : EvidenceRow) : Prop := {
  ro_product : row_product_id row <> 0; ro_version : row_product_version_id row <> 0;
  ro_document : forall d, row_document_id row = Some d -> d <> 0;
  ro_chunk : forall c, row_source_chunk_id row = Some c -> c <> 0;
  ro_name : forall n, row_file_name row = Some n -> n <> [];
}.

(** An exact candidate with names and identifiers, of a version in [keys]. *)
Definition candidate_ok (keys : list (N * N)) (c : ExactCandidateV2) : Prop :=
  e_document_id c <> 0 /\ e_source_chunk_id c <> 0 /\ e_product_id c <> 0 /\ e_product_version_id c <> 0
  /\ e_display_name c <> [] /\ version_of c ∈ keys.

Section rows.
Context (lower : char -> str) (uuid : N -> str) (kind : str) (needle : str).
Context (Huuid : forall id, uuid id <> []).

(** What the loop over the rows has collected from [pre]. *)
Record collected (pre : list EvidenceRow)
    (st : list EligibleEvidenceVersionV1 * list ExactCandidateV2) : Prop := {
  co_sorted : StronglySorted version_lt (map key_of st.1);
  co_versions : Forall (version_ok kind) st.1;
  co_keys : forall k, k ∈ map key_of st.1 <-> k ∈ map row_version pre;
  co_candidates : Forall (candidate_ok (map key_of st.1)) st.2;
  co_chunks : sublist (map e_source_chunk_id st.2) (omap row_source_chunk_id pre);
  co_exact : forall c, c ∈ st.2 -> exists row text, row ∈ pre /\ row_content row = Some text
    /\ contains (normalize_exact_v2 lower text) needle = true
    /\ row_source_chunk_id row = Some (e_source_chunk_id c);
}.

Lemma collected_eligible pre st row :
  row_ok row -> collected pre st ->
  collected (pre ++ [row]) (eligible_insert {|
    el_product_id := row_product_id row; el_product_version_id := row_product_version_id row;
    el_workspace_kind := kind; el_display_name := uuid (row_product_version_id row) |} st.1, st.2).
Proof.
  intros Hrow []. set (v := {| el_product_id := _ |}). split; cbn [fst snd].
  - by apply eligible_insert_sorted.
  - apply eligible_insert_Forall; [|done]. split; cbn; try done; by apply Hrow.
  - intros k. rewrite eligible_insert_keys, co_keys0, map_app, elem_of_app. cbn.
    rewrite list_elem_of_singleton. unfold row_version at 2, key_of at 1. cbn. tauto.
  - eapply Forall_impl; [exact co_candidates0|]. intros c (H1 & H2 & H3 & H4 & H5 & H6).
    repeat split; try done. rewrite eligible_insert_keys. by right.
  - rewrite omap_app. eapply sublist_inserts_r, co_chunks0.
  - intros c Hc. destruct (co_exact0 c Hc) as (r & t & Hr & H). exists r, t. split; [set_solver|done].
Qed.

Lemma row_step_collected pre st row st' :
  row_ok row -> collected pre st -> row_step lower uuid kind needle st row = Ok st' ->
  collected (pre ++ [row]) st'.
Proof.
  intros Hrow Hst. pose proof (collected_eligible _ _ _ Hrow Hst) as He.
  destruct st as [eligible candidates]. unfold row_step. cbn [fst snd] in He.
  set (eligible' := eligible_insert _ _) in *. cbv zeta.
  destruct (row_content row) as [text|] eqn:Etext; [|by intros [= <-]].
  destruct (row_document_id row) as [d|] eqn:Ed, (row_source_chunk_id row) as [c|] eqn:Ec,
    (row_file_name row) as [n|] eqn:En, (row_chunk_type row) as [t|]; try done.
  destruct (contains _ _) eqn:Econt; cbn [negb]; [|by intros [= <-]]. intros (ty & _ & [= <-])%bind_Ok.
  destruct He. split; cbn [fst snd] in *; try done.
  - apply Forall_app. split; [done|]. apply Forall_singleton. unfold candidate_ok. cbn.
    repeat split; [by eapply ro_document|by eapply ro_chunk|apply Hrow|apply Hrow|by eapply ro_name|].
    rewrite co_keys0. unfold version_of. cbn. rewrite map_app, elem_of_app. right. by left.
  - rewrite map_app, omap_app. cbn. rewrite Ec. apply sublist_app; [|done]. apply Hst.
  - intros x [Hx|Hx]%elem_of_app; [by apply co_exact0|]. apply list_elem_of_singleton in Hx as ->.
    exists row, text. cbn. repeat split; try done. set_solver.
Qed.

Lemma rows_collected rows : forall pre st st',
  Forall row_ok rows -> collected pre st ->
  foldR (row_step lower uuid kind needle) st rows = Ok st' -> collected (pre ++ rows) st'.
Proof.
  induction rows as [|row rows IH]; intros pre st st' F Hst; cbn [foldR].
  { intros [= <-]. by rewrite app_nil_r. }
  apply Forall_cons in F as [Hrow F]. intros (st1 & H1 & H2)%bind_Ok.
  replace (pre ++ row :: rows) with ((pre ++ [row]) ++ rows) by (by rewrite <- app_assoc).
  eapply IH; [done| |done]. by eapply row_step_collected.
Qed.

Lemma rows_collected_all rows st :
  Forall row_ok rows -> foldR (row_step lower uuid kind needle) ([], []) rows = Ok st -> collected rows st.
Proof.
  intros F. apply (rows_collected rows []); [done|]. split; cbn; repeat constructor; set_solver.
Qed.

(** The loop fails only for a row the query should not return. *)
Lemma rows_error rows e : forall st,
  foldR (row_step lower uuid kind needle) st rows = Err e -> exists m, e = Unavailable m.
Proof.
  induction rows as [|row rows IH]; intros st; cbn [foldR]; [done|].
  destruct (row_step lower uuid kind needle st row) as [st'|e'] eqn:E; cbn [mbind result_bind]; [apply IH|].
  intros [= <-]. clear IH. unfold row_step in E. destruct st. cbv zeta in E.
  destruct (row_content row); [|done].
  destruct (row_document_id row), (row_source_chunk_id row), (row_file_name row), (row_chunk_type row) as [t|];
    try (injection E as <-; by eexists).
  destruct (negb _); [done|]. destruct (source_type_of t); cbn [ok_or mbind result_bind] in E; [done|].
  injection E as <-. by eexists.
Qed.
End rows.

(** ** Media *)

(** A media row the validator accepts (its display name is set from the hit). *)
Record media_row_ok (m : KnowledgeEvidenceMediaV1) : Prop := {
  mo_id : image_artifact_revision_id m <> 0;
  mo_object : object_ref m = OBJECTS ++ media_sha256 m;
  mo_length : blen (media_sha256 m) = 64%nat;
  mo_hex : forallb is_lower_hex (media_sha256 m) = true;
  mo_type : media_type m ∈ MEDIA_TYPES;
  mo_size : 0 < media_width m /\ 0 < media_height m;
  mo_region : bounding_region_is_object m <> Some false;
}.

Lemma set_media_valid hit m :
  media_row_ok m -> is_image_ocr (hit_source_type hit) = true ->
  media_valid (set_media hit (Some (set_media_name m (hit_display_name hit)))) = true.
Proof.
  intros [] Ht. unfold media_valid. cbn [hit_source_type set_media media].
  destruct (hit_source_type hit); try done. unfold is_nil.
  cbn [image_artifact_revision_id object_ref media_sha256 media_type media_width media_height
       bounding_region_is_object media_display_name set_media_name hit_display_name set_media].
  rewrite !andb_true_iff, negb_true_iff, N.eqb_neq, !str_eqb_spec, Nat.eqb_eq, existsb_str, !N.ltb_lt.
  repeat split; try done; try lia. by destruct (bounding_region_is_object m) as [[]|].
Qed.

Lemma set_media_none hit : media hit = None -> set_media hit None = hit.
Proof. destruct hit. cbn. by intros ->. Qed.

Lemma media_valid_none hit : is_image_ocr (hit_source_type hit) = false -> media_valid (set_media hit None) = true.
Proof. unfold media_valid. cbn. by destruct (hit_source_type hit). Qed.

(** [hit'] is [hit] with valid media. *)
Definition hydrated (hit hit' : KnowledgeEvidenceHitV3) : Prop :=
  exists m, hit' = set_media hit m /\ media_valid (set_media hit m) = true.

Section hydrate.
Context (media_rows : gmap N KnowledgeEvidenceMediaV1).
Context (Hmedia : forall id m, media_rows !! id = Some m -> media_row_ok m).

Lemma hydrate_hit_spec hit :
  match hydrate_hit media_rows hit with
  | Ok hit' => hydrated hit hit'
  | Err e => exists m, e = Unavailable m
  end.
Proof.
  unfold hydrate_hit. destruct (is_image_ocr _) eqn:E.
  - destruct (media_rows !! _) as [m|] eqn:Em; cbn [ok_or mbind result_bind]; [|by eexists].
    eexists. split; [done|]. apply set_media_valid; [by eapply Hmedia|done].
  - exists None. split; [done|]. by apply media_valid_none.
Qed.

Lemma hydrate_all_spec l :
  match hydrate_all media_rows l with
  | Ok l' => Forall2 hydrated l l'
  | Err e => exists m, e = Unavailable m
  end.
Proof.
  induction l as [|hit l IH]; cbn [hydrate_all]; [constructor|].
  pose proof (hydrate_hit_spec hit) as H. destruct (hydrate_hit media_rows hit) as [hit'|e]; [|done].
  cbn [mbind result_bind]. destruct (hydrate_all media_rows l) as [l'|e]; [|done].
  cbn [mbind result_bind]. by constructor.
Qed.

Lemma hydrate_spec l :
  Forall (fun hit => media hit = None) l ->
  match hydrate_evidence_media_v3 media_rows l with
  | Ok l' => Forall2 hydrated l l'
  | Err e => exists m, e = Unavailable m
  end.
Proof.
  intros F. unfold hydrate_evidence_media_v3. destruct (existsb _ l) eqn:E; [apply hydrate_all_spec|].
  induction F as [|hit l Hn F IH]; [constructor|]. cbn in E. apply orb_false_iff in E as [E1 E2].
  constructor; [|auto]. exists None. rewrite set_media_none by done. split; [done|].
  rewrite <- (set_media_none hit Hn). by apply media_valid_none.
Qed.
End hydrate.

(** What the media does not change. *)
Lemma hydrated_map {A} (f : KnowledgeEvidenceHitV3 -> A) l l' :
  (forall hit m, f (set_media hit m) = f hit) -> Forall2 hydrated l l' -> map f l' = map f l.
Proof.
  intros Hf. induction 1 as [|hit hit' l l' (m & -> & _) F IH]; cbn; [done|]. by rewrite Hf, IH.
Qed.

Lemma hydrated_bytes l l' : Forall2 hydrated l l' -> hit_bytes l' = hit_bytes l.
Proof.
  induction 1 as [|hit hit' l l' (m & -> & _) F IH]; cbn; [done|]. unfold hit_bytes in IH. by rewrite IH.
Qed.

Lemma hydrated_chain l l' p p' :
  Forall2 hydrated l l' ->
  match p, p' with Some q, Some q' => exists m, q' = set_media q m | None, None => True | _, _ => False end ->
  chain p l -> chain p' l'.
Proof.
  intros F. revert p p'. induction F as [|hit hit' l l' (m & -> & _) F IH]; intros p p' Hp; cbn; [done|].
  intros [H1 H2]. split.
  - destruct p as [q|], p' as [q'|]; try done. by destruct Hp as [m' ->].
  - eapply IH; [|exact H2]. by exists m.
Qed.

(** ** The semantic tail *)

Definition sem_bytes (l : list RerankedSemanticCandidateV2) : N :=
  foldr (fun r n => chunk_byte_length (candidate r) + n) 0 l.

Definition tail_hits_of (kind : str) (start : nat) (l : list RerankedSemanticCandidateV2)
    : list KnowledgeEvidenceHitV3 :=
  imap (fun i r => semantic_candidate_hit_v2 kind r (start + i)) l.

Section tail.
Context (kind : str) (policy : RetrievalPolicyIdentityV1) (Hu64 : max_total_bytes policy < u64_modulus).

(** A reranked candidate joins the hits when there is room, and is counted otherwise. *)
Lemma tail_step_cases st r :
  (tail_step kind policy st r
   = {| tail_hits := tail_hits st ++ [semantic_candidate_hit_v2 kind r (length (tail_hits st))];
        tail_truncated := tail_truncated st; tail_bytes := tail_bytes st + chunk_byte_length (candidate r) |}
   /\ N.of_nat (length (tail_hits st)) < max_hits policy
   /\ chunk_byte_length (candidate r) <= max_chunk_bytes policy
   /\ tail_bytes st + chunk_byte_length (candidate r) <= max_total_bytes policy)
  \/ (tail_hits (tail_step kind policy st r) = tail_hits st
      /\ tail_bytes (tail_step kind policy st r) = tail_bytes st).
Proof.
  unfold tail_step, u64_checked_add.
  destruct (N.ltb_spec (N.of_nat (length (tail_hits st))) (max_hits policy)); cbn [andb negb]; [|by right].
  destruct (N.leb_spec (chunk_byte_length (candidate r)) (max_chunk_bytes policy)); cbn [andb negb]; [|by right].
  destruct (N.ltb_spec (tail_bytes st + chunk_byte_length (candidate r)) u64_modulus); cbn [andb negb]; [|by right].
  destruct (N.leb_spec (tail_bytes st + chunk_byte_length (candidate r)) (max_total_bytes policy));
    cbn [andb negb]; [by left|by right].
Qed.

Lemma tail_loop l : forall st,
  N.of_nat (length (tail_hits st)) <= max_hits policy -> tail_bytes st <= max_total_bytes policy ->
  let st' := foldl (tail_step kind policy) st l in
  exists chosen, sublist chosen l
    /\ tail_hits st' = tail_hits st ++ tail_hits_of kind (length (tail_hits st)) chosen
    /\ N.of_nat (length (tail_hits st')) <= max_hits policy
    /\ Forall (fun r => chunk_byte_length (candidate r) <= max_chunk_bytes policy) chosen
    /\ tail_bytes st + sem_bytes chosen <= max_total_bytes policy.
Proof.
  induction l as [|r l IH]; intros st Hn Hb; cbn [foldl].
  { exists []. cbn. rewrite app_nil_r, N.add_0_r. repeat split; (done || constructor). }
  destruct (tail_step_cases st r) as [(E & H1 & H2 & H3)|(E1 & E2)].
  - rewrite E. destruct (IH {| tail_hits := tail_hits st ++ [semantic_candidate_hit_v2 kind r (length (tail_hits st))];
        tail_truncated := tail_truncated st; tail_bytes := tail_bytes st + chunk_byte_length (candidate r) |})
      as (chosen & S & Ht & Hl & F & Hs); cbn [tail_hits tail_bytes].
    { rewrite length_app. cbn. lia. } { exact H3. }
    cbn [tail_hits tail_bytes] in *. exists (r :: chosen). split; [by apply sublist_skip|].
    split; [|split; [done|split; [by constructor|cbn; fold (sem_bytes chosen); lia]]].
    rewrite Ht. unfold tail_hits_of. cbn [imap]. rewrite <- app_assoc, Nat.add_0_r. cbn [app].
    do 2 f_equal. rewrite length_app. cbn. apply imap_ext. intros i x _. cbn. f_equal. lia.
  - destruct (IH (tail_step kind policy st r)) as (chosen & S & Ht & Hl & F & Hs);
      [by rewrite E1|by rewrite E2|].
    exists chosen. rewrite E1 in Ht. rewrite E2 in Hs. split; [by apply sublist_cons|]. done.
Qed.

Lemma total_bytes_exact hits : forall n,
  n + foldr (fun hit m => hit_chunk_byte_length hit + m) 0 hits < u64_modulus ->
  foldl (fun n hit => (n + hit_chunk_byte_length hit) mod u64_modulus) n hits
  = n + foldr (fun hit m => hit_chunk_byte_length hit + m) 0 hits.
Proof.
  induction hits as [|hit hits IH]; intros n H; cbn [foldl foldr] in *; [lia|].
  rewrite N.mod_small by lia. rewrite IH by lia. lia.
Qed.

(** The tail: a part of the reranked candidates, in their order and within the quotas. *)
Lemma append_spec hits reranked :
  N.of_nat (length hits) <= max_hits policy ->
  foldr (fun hit m => hit_chunk_byte_length hit + m) 0 hits <= max_total_bytes policy ->
  exists chosen truncated, append_semantic_tail_v2 kind hits reranked policy
      = (hits ++ tail_hits_of kind (length hits) chosen, truncated)
    /\ sublist chosen reranked
    /\ N.of_nat (length (hits ++ tail_hits_of kind (length hits) chosen)) <= max_hits policy
    /\ Forall (fun r => chunk_byte_length (candidate r) <= max_chunk_bytes policy) chosen
    /\ foldr (fun hit m => hit_chunk_byte_length hit + m) 0 hits + sem_bytes chosen <= max_total_bytes policy.
Proof.
  intros Hn Hb. unfold append_semantic_tail_v2. cbv zeta. rewrite total_bytes_exact, N.add_0_l by lia.
  destruct (tail_loop reranked {| tail_hits := hits; tail_truncated := 0;
    tail_bytes := foldr (fun hit m => hit_chunk_byte_length hit + m) 0 hits |} Hn Hb)
    as (chosen & S & Ht & Hl & F & Hs). cbn [tail_hits tail_bytes] in *.
  rewrite Ht in *. eauto 10.
Qed.
End tail.

(** ** The counters of the selection *)

Lemma submseteq_nodup {A} (l k : list A) : l ⊆+ k -> NoDup k -> NoDup l.
Proof. intros [k' ->]%submseteq_Permutation. by intros [H _]%NoDup_app. Qed.

Lemma nodup_length_le {A} (l l' : list A) : NoDup l -> (forall x, x ∈ l -> x ∈ l') -> (length l <= length l')%nat.
Proof. intros Hnd H. by apply submseteq_length, NoDup_submseteq. Qed.

Lemma selection_metrics policy candidates versions ps sel keys :
  max_hits policy <> 0 -> primary_prefix policy candidates versions ps ->
  exact_selection policy candidates versions ps sel ->
  (forall c, c ∈ candidates -> version_of c ∈ keys) ->
  sel_versions_truncated sel <= N.of_nat (length keys) - max_hits policy
  /\ sel_versions_truncated sel <= sel_hits_truncated sel
  /\ (length (sel_hits sel) = 0%nat -> sel_versions_truncated sel = 0 /\ sel_hits_truncated sel = 0)
  /\ (sel_versions_truncated sel <> 0 ->
      N.of_nat (length (sel_hits sel)) = max_hits policy /\ NoDup (map version_of (sel_hits sel))).
Proof.
  intros Hm [Hs Hv Hp _] [(rest & Hh & _) _ [Hw _] _ Hht Hvt] Hkeys.
  pose proof (sorted_nodup _ Hs) as Hnd.
  assert (length versions <= length keys)%nat as L1.
  { apply nodup_length_le; [done|]. intros v (c & Hc & <-)%Hv. by apply Hkeys. }
  assert (length versions <= length candidates)%nat as L2.
  { rewrite <- (length_map version_of candidates). apply nodup_length_le; [done|].
    intros v (c & Hc & <-)%Hv. apply list_elem_of_fmap. by exists c. }
  assert (length ps = N.to_nat (max_hits policy) `min` length versions)%nat as L3.
  { by rewrite <- (length_map version_of ps), Hp, length_take. }
  assert (length (sel_hits sel) = length ps + length rest)%nat as L4 by (by rewrite Hh, length_app).
  split; [lia|]. split; [lia|]. split.
  - intros H0. assert (versions = []) as -> by (apply nil_length_inv; lia).
    assert (candidates = []) as ->.
    { destruct candidates as [|c l]; [done|]. exfalso.
      assert (version_of c ∈ @nil (N * N)) as Hin by (apply Hv; exists c; split; [left|done]). by apply elem_of_nil in Hin. }
    cbn in *. lia.
  - intros Hne. split; [lia|]. assert (rest = []) as -> by (apply nil_length_inv; lia).
    rewrite Hh, app_nil_r, Hp. eapply sublist_NoDup; [exact Hnd|apply sublist_take].
Qed.

(** ** The hits *)

Section hits.
Context (sha : str -> str) (kind : str) (policy : RetrievalPolicyIdentityV1) (keys : list (N * N)).

(** A hit without media that is right once it has valid media. *)
Definition shape (n i : nat) (hit : KnowledgeEvidenceHitV3) : Prop :=
  media hit = None
  /\ forall m, media_valid (set_media hit m) = true -> hit_ok sha kind policy keys n i (set_media hit m).

Lemma exact_shape n i c :
  (i < n)%nat -> candidate_ok keys c -> byte_length c <= max_chunk_bytes policy ->
  shape n i (exact_candidate_hit_v2 sha kind i c).
Proof.
  intros Hi (H1 & H2 & H3 & H4 & H5 & H6) Hb. split; [done|]. intros m Hm. split; try done; cbn; try lia.
Qed.

(** A reranked candidate with names, identifiers, length and digest, of an eligible version. *)
Record semantic_ok (r : RerankedSemanticCandidateV2) : Prop := {
  so_ids : document_id (candidate r) <> 0 /\ source_chunk_id (candidate r) <> 0
    /\ product_id (candidate r) <> 0 /\ product_version_id (candidate r) <> 0;
  so_name : frozen_document_display_name (candidate r) <> [];
  so_length : chunk_byte_length (candidate r) = N.of_nat (blen (chunk_utf8 (candidate r)));
  so_digest : chunk_sha256 (candidate r) = sha (chunk_utf8 (candidate r));
  so_version : (product_id (candidate r), product_version_id (candidate r)) ∈ keys;
  so_rank : pre_rerank_rrf_rank (candidate r) <> 0;
  so_score : score_millionths r <= 1000000;
}.

Lemma semantic_shape n i r :
  (n <= i)%nat -> semantic_ok r -> chunk_byte_length (candidate r) <= max_chunk_bytes policy ->
  shape n i (semantic_candidate_hit_v2 kind r i).
Proof.
  intros Hi [] Hb. split; [done|]. intros m Hm.
  split; try done; cbn; try lia; try tauto.
  intros _. split; [by apply fixed_score_unit|]. by eexists.
Qed.

Lemma semantic_chain l : forall start p,
  Forall semantic_ok l -> StronglySorted (fun a b => is_le (compare_reranked a b) = true) l ->
  match p with
  | Some (q, i) => semantic_ok q /\ Forall (fun r => is_le (compare_reranked q r) = true) l
  | None => True
  end ->
  chain (match p with Some (q, i) => Some (semantic_candidate_hit_v2 kind q i) | None => None end)
    (tail_hits_of kind start l).
Proof.
  induction l as [|r l IH]; intros start p F Hs Hp; [done|].
  apply Forall_cons in F as [Hr F]. apply StronglySorted_inv in Hs as [Hs Fl].
  unfold tail_hits_of. cbn [imap chain]. split.
  - destruct p as [[q i]|]; [|done]. destruct Hp as [Hq [Hqr _]%Forall_cons].
    unfold wrongly_ordered. cbn [retrieval_raw_score hit_pre_rerank_rrf_rank semantic_candidate_hit_v2].
    destruct (fixed_score_order q r) as [-> ->]; [apply Hq|apply Hr|].
    unfold compare_reranked in Hqr. apply orb_false_iff.
    destruct (N.compare_spec (score_millionths r) (score_millionths q)) as [E|E|E]; cbn [cmp_then is_le] in Hqr; [| |done].
    + split; [apply N.ltb_ge; lia|]. apply andb_false_iff. right.
      destruct (N.compare_spec (pre_rerank_rrf_rank (candidate q)) (pre_rerank_rrf_rank (candidate r)));
        cbn [cmp_then is_le] in Hqr; [apply N.ltb_ge; lia|apply N.ltb_ge; lia|done].
    + split; [apply N.ltb_ge; lia|]. apply andb_false_iff. left. apply N.eqb_neq. lia.
  - rewrite Nat.add_0_r.
    rewrite (imap_ext _ (fun i x => semantic_candidate_hit_v2 kind x (S start + i)) l)
      by (intros i x _; cbn; f_equal; lia).
    apply (IH (S start) (Some (r, start))); done.
Qed.
End hits.

(** ** The assembled batch *)

Section assembly.
Context (lower : char -> str) (sha : str -> str) (uuid : N -> str).
Context (media_rows : gmap N KnowledgeEvidenceMediaV1) (kind : str) (policy : RetrievalPolicyIdentityV1).
Context (requirement_text : str) (rows : list EvidenceRow).

Notation needle := (normalize_exact_v2 lower requirement_text).

(** Does the reranked answer fit the snapshot: candidates of its versions, in the order of the
    reranking, each source and each recall rank once, and no exact source among them? *)
Record reranked_ok (reranked : list RerankedSemanticCandidateV2) : Prop := {
  rr_each : Forall (semantic_ok sha (map row_version rows)) reranked;
  rr_sorted : StronglySorted (fun a b => is_le (compare_reranked a b) = true) reranked;
  rr_sources : NoDup (map (fun r => source_chunk_id (candidate r)) reranked);
  rr_ranks : NoDup (map (fun r => pre_rerank_rrf_rank (candidate r)) reranked);
  rr_not_exact : forall r row text, r ∈ reranked -> row ∈ rows -> row_content row = Some text ->
    contains (normalize_exact_v2 lower text) needle = true ->
    row_source_chunk_id row <> Some (source_chunk_id (candidate r));
}.

(** What the retrieval assumes of its policy and of the rows of the database. *)
Record retrieval_ok : Prop := {
  rk_uuid : forall id, uuid id <> [];
  rk_kind : kind ∈ WORKSPACE_KINDS;
  rk_contract : contract_version policy = KNOWLEDGE_EVIDENCE_CONTRACT_V2;
  rk_quotas : (0 < max_hits policy /\ u32_number (max_hits policy))
    /\ 0 < max_chunk_bytes policy /\ (0 < max_total_bytes policy /\ max_total_bytes policy < u64_modulus);
  rk_rows : Forall row_ok rows;
  rk_chunks : NoDup (omap row_source_chunk_id rows);
  rk_media : forall id m, media_rows !! id = Some m -> media_row_ok m;
}.

Context (Hok : retrieval_ok).
Context (eligible : list EligibleEvidenceVersionV1) (candidates : list ExactCandidateV2).
Context (Hrows : collected lower kind needle rows (eligible, candidates)).
Context (versions : list (N * N)) (ps : list ExactCandidateV2) (sel : ExactSelectionV2).
Context (Hps : primary_prefix policy candidates versions ps).
Context (Hsel : exact_selection policy candidates versions ps sel).
Context (reranked chosen : list RerankedSemanticCandidateV2) (Hrer : reranked_ok reranked).
Context (Hchosen : sublist chosen reranked).

Definition exact_part : list KnowledgeEvidenceHitV3 := imap (exact_candidate_hit_v2 sha kind) (sel_hits sel).
Definition raw_hits : list KnowledgeEvidenceHitV3 := exact_part ++ tail_hits_of kind (length exact_part) chosen.

Lemma length_exact_part : length exact_part = length (sel_hits sel).
Proof. unfold exact_part. by rewrite length_imap. Qed.

Lemma sel_in c : c ∈ sel_hits sel -> c ∈ candidates.
Proof. intros H. eapply elem_of_submseteq; [exact H|apply Hsel]. Qed.

Lemma candidates_nodup : NoDup (map e_source_chunk_id candidates).
Proof. eapply sublist_NoDup; [apply (rk_chunks Hok)|apply Hrows]. Qed.

Lemma chosen_each : Forall (semantic_ok sha (map key_of eligible)) chosen.
Proof.
  apply Forall_forall. intros r Hr. assert (r ∈ reranked) as Hin by (by eapply sublist_subseteq).
  pose proof (rr_each _ Hrer) as F. rewrite Forall_forall in F. destruct (F r Hin). split; try done.
  by apply (co_keys _ _ _ _ _ Hrows).
Qed.

Lemma raw_shape i hit :
  Forall (fun r => chunk_byte_length (candidate r) <= max_chunk_bytes policy) chosen ->
  raw_hits !! i = Some hit -> shape sha kind policy (map key_of eligible) (length (sel_hits sel)) i hit.
Proof.
  intros Hb. unfold raw_hits. rewrite lookup_app_Some, length_exact_part. intros [H|[Hi H]].
  - unfold exact_part in H. rewrite list_lookup_imap in H.
    destruct (sel_hits sel !! i) as [c|] eqn:Ec; [|done]. injection H as <-.
    pose proof (list_elem_of_lookup_2 _ _ _ Ec) as Hc. apply exact_shape.
    + by eapply lookup_lt_Some.
    + pose proof (co_candidates _ _ _ _ _ Hrows) as F. rewrite Forall_forall in F. by apply F, sel_in.
    + destruct (xs_within _ _ _ _ _ Hsel) as (_ & F & _). rewrite Forall_forall in F. by apply F.
  - unfold tail_hits_of in H. rewrite list_lookup_imap in H.
    destruct (chosen !! (i - length (sel_hits sel))%nat) as [r|] eqn:Er; [|done]. injection H as <-.
    replace (length (sel_hits sel) + (i - length (sel_hits sel)))%nat with i by lia.
    pose proof (list_elem_of_lookup_2 _ _ _ Er) as Hr.
    apply semantic_shape; [done| |]; [|by rewrite Forall_forall in Hb; apply Hb].
    pose proof chosen_each as F. rewrite Forall_forall in F. by apply F.
Qed.

Lemma raw_sources :
  map hit_source_chunk_id raw_hits
  = map e_source_chunk_id (sel_hits sel) ++ map (fun r => source_chunk_id (candidate r)) chosen.
Proof.
  unfold raw_hits, exact_part, tail_hits_of. rewrite map_app. f_equal;
    apply list_eq; intros i; rewrite !list_lookup_fmap, list_lookup_imap; by destruct (_ !! i).
Qed.

Lemma raw_identities : NoDup (map identity_of raw_hits).
Proof.
  apply (NoDup_fmap_1 snd). rewrite <- list_fmap_compose.
  change (NoDup (map hit_source_chunk_id raw_hits)). rewrite raw_sources. apply NoDup_app. split; [|split].
  - eapply submseteq_nodup; [|apply candidates_nodup]. apply fmap_submseteq, Hsel.
  - intros x (c & -> & Hc)%list_elem_of_fmap (r & E & Hr)%list_elem_of_fmap.
    destruct (co_exact _ _ _ _ _ Hrows c (sel_in c Hc)) as (row & text & Hrow & Ht & Hcont & Hid).
    rewrite E in Hid. revert Hid. eapply (rr_not_exact _ Hrer); [by eapply sublist_subseteq|done..].
  - eapply sublist_NoDup; [apply (rr_sources _ Hrer)|by apply fmap_sublist].
Qed.

Lemma imap_sum {A} (g : KnowledgeEvidenceHitV3 -> N) (h : A -> N) l : forall f,
  (forall i x, x ∈ l -> g (f i x) = h x) ->
  foldr (fun hit n => g hit + n) 0 (imap f l) = foldr (fun x n => h x + n) 0 l.
Proof.
  induction l as [|x l IH]; intros f H; cbn; [done|]. rewrite (H 0%nat x) by left. f_equal.
  apply IH. intros i y Hy. apply H. by right.
Qed.

Lemma exact_part_bytes :
  foldr (fun hit m => hit_chunk_byte_length hit + m) 0 exact_part = bytes_of (sel_hits sel).
Proof. unfold exact_part. by rewrite (imap_sum hit_chunk_byte_length byte_length). Qed.

Lemma hit_bytes_app l1 l2 : hit_bytes (l1 ++ l2) = hit_bytes l1 + hit_bytes l2.
Proof. unfold hit_bytes. induction l1 as [|x l1 IH]; cbn in *; [done|]. rewrite IH. lia. Qed.

Lemma raw_bytes : hit_bytes raw_hits = bytes_of (sel_hits sel) + sem_bytes chosen.
Proof.
  unfold raw_hits. rewrite hit_bytes_app. f_equal.
  - unfold exact_part, hit_bytes.
    by rewrite (imap_sum (fun hit => N.of_nat (blen (hit_chunk_utf8 hit))) byte_length).
  - unfold tail_hits_of, hit_bytes, sem_bytes.
    rewrite (imap_sum (fun hit => N.of_nat (blen (hit_chunk_utf8 hit))) (fun r => chunk_byte_length (candidate r))); [done|].
    intros i r Hr. pose proof chosen_each as F. rewrite Forall_forall in F. symmetry. by apply F.
Qed.

Lemma raw_suffix : drop (length (sel_hits sel)) raw_hits = tail_hits_of kind (length (sel_hits sel)) chosen.
Proof. unfold raw_hits. rewrite length_exact_part. by rewrite drop_app_length' by (by rewrite length_exact_part). Qed.

Lemma raw_prefix : map hit_version_of (take (length (sel_hits sel)) raw_hits) = map version_of (sel_hits sel).
Proof.
  unfold raw_hits. rewrite take_app_length' by (by rewrite length_exact_part). unfold exact_part.
  apply list_eq. intros i. rewrite !list_lookup_fmap, list_lookup_imap. by destruct (_ !! i).
Qed.

Lemma raw_suffix_ranks :
  NoDup (map hit_pre_rerank_rrf_rank (drop (length (sel_hits sel)) raw_hits)).
Proof.
  rewrite raw_suffix.
  replace (map hit_pre_rerank_rrf_rank _) with (map Some (map (fun r => pre_rerank_rrf_rank (candidate r)) chosen)).
  - apply (NoDup_fmap_2 Some). eapply sublist_NoDup; [apply (rr_ranks _ Hrer)|by apply fmap_sublist].
  - unfold tail_hits_of. apply list_eq. intros i. rewrite !list_lookup_fmap, list_lookup_imap. by destruct (_ !! i).
Qed.

Lemma raw_suffix_order : chain None (drop (length (sel_hits sel)) raw_hits).
Proof.
  rewrite raw_suffix. apply (semantic_chain sha kind (map key_of eligible) chosen _ None); [apply chosen_each| |done].
  eapply sublist_sorted; [done|apply (rr_sorted _ Hrer)].
Qed.

(** The batch of the code, with the media filled in, meets its specification. *)
Lemma batch_valid hits' truncated :
  N.of_nat (length raw_hits) <= max_hits policy ->
  Forall (fun r => chunk_byte_length (candidate r) <= max_chunk_bytes policy) chosen ->
  bytes_of (sel_hits sel) + sem_bytes chosen <= max_total_bytes policy ->
  Forall2 hydrated raw_hits hits' ->
  evidence_ok sha kind policy {|
    batch_schema_version := KNOWLEDGE_EVIDENCE_SCHEMA_V3; eligible_versions := eligible;
    hits := hits'; exact_prefix_hit_count := length exact_part;
    exact_versions_truncated := sel_versions_truncated sel;
    exact_hits_truncated := sel_hits_truncated sel; semantic_hits_truncated := truncated |}.
Proof.
  intros Hlen Hchunk Hbytes Hhyd. rewrite length_exact_part.
  pose proof (Forall2_length _ _ _ Hhyd) as Hl.
  destruct (selection_metrics policy candidates versions ps sel (map key_of eligible)) as (M1 & M2 & M3 & M4);
    [pose proof (rk_quotas Hok); lia|done|done| |].
  { intros c Hc. pose proof (co_candidates _ _ _ _ _ Hrows) as F. rewrite Forall_forall in F. by apply F. }
  rewrite length_map in M1.
  assert (length (sel_hits sel) <= length raw_hits)%nat as Hcount
    by (unfold raw_hits; rewrite length_app, length_exact_part; lia).
  split; cbn [batch_schema_version eligible_versions hits exact_prefix_hit_count exact_versions_truncated
              exact_hits_truncated]; try done.
  - apply (rk_contract Hok).
  - apply (rk_kind Hok).
  - pose proof (rk_quotas Hok). lia.
  - lia.
  - split; [apply (co_versions _ _ _ _ _ Hrows)|]. apply sorted_nodup, (co_sorted _ _ _ _ _ Hrows).
  - intros Hne. destruct (M4 Hne) as [M5 M6]. split; [done|].
    rewrite (hydrated_map hit_version_of (take (length (sel_hits sel)) raw_hits));
      [by rewrite raw_prefix|done|by apply Forall2_take].
  - intros i hit' Hi. destruct (Forall2_lookup_r _ _ _ _ _ Hhyd Hi) as (hit & Hhit & m & -> & Hm).
    by apply (proj2 (raw_shape i hit Hchunk Hhit)).
  - rewrite (hydrated_map identity_of raw_hits) by done. apply raw_identities.
  - rewrite (hydrated_bytes raw_hits) by done. by rewrite raw_bytes.
  - rewrite (hydrated_map hit_pre_rerank_rrf_rank (drop (length (sel_hits sel)) raw_hits));
      [apply raw_suffix_ranks|done|by apply Forall2_drop].
  - eapply (hydrated_chain (drop (length (sel_hits sel)) raw_hits) _ None None);
      [by apply Forall2_drop|done|apply raw_suffix_order].
Qed.
End assembly.

(** ** [retrieve_v2] never fails its own validator *)

Definition harmless (e : KnowledgeRetrievalError) : Prop := match e with InvalidHit _ => False | _ => True end.

(** An outcome that is a batch with [P] or an error that is not the validator's. *)
Definition outcome {A} (P : A -> Prop) (r : option (result KnowledgeRetrievalError A)) : Prop :=
  match r with Some (Ok a) => P a | Some (Err e) => harmless e | None => False end.

Lemma outcome_andThen {A B} (P : B -> Prop) (Q : A -> Prop) r f :
  outcome Q r -> (forall a, r = Some (Ok a) -> Q a -> outcome P (f a)) -> outcome P (andThen r f).
Proof. destruct r as [[a|e]|]; cbn; auto. Qed.

Lemma outcome_reject c e : harmless e -> outcome (fun _ => c = false) (Some (reject_if c e)).
Proof. by destruct c. Qed.

Section retrieve.
Context (lower : char -> str) (sha : str -> str) (uuid : N -> str).
Context (media_rows : gmap N KnowledgeEvidenceMediaV1) (kind : str) (policy : RetrievalPolicyIdentityV1).
Context (requirement_text : str) (rows : list EvidenceRow).
Context (Hok : retrieval_ok uuid media_rows kind policy rows).

Lemma rows_outcome :
  outcome (collected lower kind (normalize_exact_v2 lower requirement_text) rows)
    (Some (foldR (row_step lower uuid kind (normalize_exact_v2 lower requirement_text)) ([], []) rows)).
Proof.
  destruct (foldR _ _ _) as [st|e] eqn:E; cbn.
  - apply (rows_collected_all lower uuid kind _ (rk_uuid _ _ _ _ _ Hok) rows st (rk_rows _ _ _ _ _ Hok) E).
  - by destruct (rows_error _ _ _ _ _ _ _ E) as [m ->].
Qed.

Lemma select_outcome candidates :
  NoDup (map e_source_chunk_id candidates) ->
  outcome (fun sel => exists versions ps, primary_prefix policy candidates versions ps
             /\ exact_selection policy candidates versions ps sel)
    (select_exact_prefix_v2 uuid candidates policy).
Proof.
  intros Hnd. destruct (select_exact_outcome uuid policy candidates Hnd) as (versions & ps & Hps & H);
    [pose proof (rk_quotas _ _ _ _ _ Hok); lia|].
  destruct H as [(_ & sel & -> & Hsel)|(_ & m & ->)]; [|done]. by exists versions, ps.
Qed.

(** The tail of the code: what is appended to the exact hits, if there is room. *)
Lemma tail_outcome semantic (room : bool) prefix :
  (forall reranked, semantic = Some (Ok reranked) -> reranked_ok lower sha requirement_text rows reranked) ->
  (forall e, semantic = Some (Err e) -> harmless e) ->
  N.of_nat (length prefix) <= max_hits policy ->
  foldr (fun hit m => hit_chunk_byte_length hit + m) 0 prefix <= max_total_bytes policy ->
  outcome (fun '(all_hits, _) => exists reranked chosen, reranked_ok lower sha requirement_text rows reranked
      /\ sublist chosen reranked /\ all_hits = prefix ++ tail_hits_of kind (length prefix) chosen
      /\ N.of_nat (length all_hits) <= max_hits policy
      /\ Forall (fun r => chunk_byte_length (candidate r) <= max_chunk_bytes policy) chosen
      /\ foldr (fun hit m => hit_chunk_byte_length hit + m) 0 prefix + sem_bytes chosen <= max_total_bytes policy)
    (Some (match semantic with
           | Some answer =>
             if room then reranked ← answer; Ok (append_semantic_tail_v2 kind prefix reranked policy)
             else Ok (prefix, 0)
           | None => Ok (prefix, 0)
           end)).
Proof.
  intros Hs He Hlen Hb.
  assert (outcome (fun '(all_hits, _) => exists reranked chosen, reranked_ok lower sha requirement_text rows reranked
      /\ sublist chosen reranked /\ all_hits = prefix ++ tail_hits_of kind (length prefix) chosen
      /\ N.of_nat (length all_hits) <= max_hits policy
      /\ Forall (fun r => chunk_byte_length (candidate r) <= max_chunk_bytes policy) chosen
      /\ foldr (fun hit m => hit_chunk_byte_length hit + m) 0 prefix + sem_bytes chosen <= max_total_bytes policy)
      (Some (Ok (prefix, 0)))) as Hnone.
  { exists [], []. split; [split; cbn; try constructor; set_solver|]. cbn. rewrite app_nil_r.
    repeat split; try done; [lia]. }
  destruct semantic as [[reranked|e]|]; [| |exact Hnone]; (destruct room; [|exact Hnone]).
  - cbn [mbind result_bind outcome].
    destruct (append_spec kind policy ltac:(pose proof (rk_quotas _ _ _ _ _ Hok); lia) prefix reranked Hlen Hb)
      as (chosen & t & -> & S & Hl & F & Hsum).
    exists reranked, chosen. split; [by apply Hs|]. done.
  - by apply He.
Qed.

Lemma retrieve_outcome selected allow_exact_only semantic :
  (forall reranked, semantic = Some (Ok reranked) -> reranked_ok lower sha requirement_text rows reranked) ->
  (forall e, semantic = Some (Err e) -> harmless e) ->
  outcome (evidence_ok sha kind policy)
    (retrieve_v2 lower sha uuid media_rows kind policy requirement_text selected allow_exact_only semantic rows).
Proof.
  intros Hs He. pose proof (rk_quotas _ _ _ _ _ Hok) as Hq. unfold retrieve_v2.
  eapply outcome_andThen; [apply rows_outcome|]. intros [eligible candidates] _ Hrows.
  eapply outcome_andThen; [by apply outcome_reject|]. intros _ _ _.
  eapply outcome_andThen; [apply select_outcome; by eapply candidates_nodup|].
  intros sel _ (versions & ps & Hps & Hsel). cbv zeta. fold (exact_part sha kind sel).
  destruct (xs_within _ _ _ _ _ Hsel) as (W1 & _ & W3).
  assert (N.of_nat (length (exact_part sha kind sel)) <= max_hits policy) as Hlen by (by rewrite length_exact_part).
  assert (outcome (fun _ => True) (Some (reject_if (4294967296 <=? N.of_nat (length (exact_part sha kind sel)))
            (InvalidHit E_PREFIX_LENGTH)))) as Hrep.
  { rewrite (proj2 (N.leb_gt _ _)); [done|]. destruct Hq as [[_ Hu] _]. unfold u32_number in Hu. lia. }
  eapply outcome_andThen; [exact Hrep|]. intros _ _ _.
  eapply outcome_andThen; [by apply outcome_reject|]. intros _ _ _.
  eapply outcome_andThen; [apply tail_outcome; [done|done|done|by rewrite exact_part_bytes]|].
  intros [all_hits truncated] _ (reranked & chosen & Hrer & S & -> & Hl & F & Hsum).
  rewrite exact_part_bytes in Hsum. fold (raw_hits sha kind sel chosen) in *.
  assert (Forall (fun hit => media hit = None) (raw_hits sha kind sel chosen)) as Hnone.
  { apply Forall_lookup. intros i hit Hi.
    by apply (raw_shape lower sha kind policy requirement_text rows eligible candidates Hrows versions ps sel Hsel
                reranked chosen Hrer S i hit F) in Hi as [? _]. }
  pose proof (hydrate_spec media_rows (rk_media _ _ _ _ _ Hok) _ Hnone) as Hhyd.
  destruct (hydrate_evidence_media_v3 media_rows _) as [hits'|e]; cbn [andThen outcome];
    [|by destruct Hhyd as [m ->]].
  rewrite validate_complete; [|lia|].
  - cbn [andThen outcome]. by eapply batch_valid.
  - by eapply batch_valid.
Qed.
End retrieve.

(** [retrieve_v2], from the rows of the database and the answer of the semantic runtime to
    the batch: on a well-formed snapshot it never panics and never reports an invalid hit; it
    returns a batch that meets the specification of its validator, or one of the errors of the
    request, the quotas or the missing data. *)
Theorem retrieve_v2_valid lower sha uuid media_rows kind policy requirement_text rows selected
    allow_exact_only semantic :
  retrieval_ok uuid media_rows kind policy rows ->
  (forall reranked, semantic = Some (Ok reranked) -> reranked_ok lower sha requirement_text rows reranked) ->
  (forall e, semantic = Some (Err e) -> harmless e) ->
  match retrieve_v2 lower sha uuid media_rows kind policy requirement_text selected allow_exact_only semantic rows with
  | Some (Ok batch) => evidence_ok sha kind policy batch
  | Some (Err e) => forall m, e <> InvalidHit m
  | None => False
  end.
Proof.
  intros Hok Hs He.
  pose proof (retrieve_outcome lower sha uuid media_rows kind policy requirement_text rows Hok selected
                allow_exact_only semantic Hs He) as H.
  destruct (retrieve_v2 _ _ _ _ _ _ _ _ _ _ _) as [[batch|e]|]; [done| |done]. by intros m ->.
Qed.

Lemma retrieve_v2_valid_witness :
  map retrieval_rank (hits demo_batch) = [1; 2]
  /\ match demo_retrieve with
     | Some (Ok batch) => evidence_ok (fun _ => u8"digest") demo_kind demo_identity batch
     | Some (Err e) => forall m, e <> InvalidHit m
     | None => False
     end.
Proof.
  split; [by vm_compute|]. apply retrieve_v2_valid.
  - split; try (by vm_compute).
    + right. left.
    + apply Forall_cons. split; [split; cbn; try congruence; intros ? [= <-]; by vm_compute|].
      apply Forall_cons. split; [split; cbn; try congruence; intros ? [= <-]; by vm_compute|constructor].
    + apply (bool_decide_unpack _). by vm_compute.
  - intros reranked [= <-]. split.
    + constructor; [|constructor]. split; try done; try (by vm_compute).
      cbn. right. left.
    + repeat constructor.
    + apply (bool_decide_unpack _). by vm_compute.
    + apply (bool_decide_unpack _). by vm_compute.
    + intros r row text Hr Hrow. apply list_elem_of_singleton in Hr as ->.
      repeat (apply elem_of_cons in Hrow as [->|Hrow]; [|try by apply elem_of_nil in Hrow]);
        intros [= <-]; [done|]. by vm_compute.
  - done.
Defined.
