(* ===== verification/PolicyFacts.v ===== *)
(** * Facts about the retrieval artifacts

    The dates, model identifiers and endpoints the validators accept, the policies and the
    frozen identities they accept, and what an accepted policy means for the ranking. *)
From Stdlib Require Import QArith_base.
From S2P Require Import Prelude RustStr StrReplace NumText Policy Order Rank Recall Selection Evidence BatchFacts RerankFacts.

Local Open Scope N_scope.
#[local] Arguments lit : simpl never.

(** ** Digits of a fixed width *)

Lemma digits_n_digits k n : Forall (fun c => is_ascii_digit c = true) (digits_n k n).
Proof.
  revert n. induction k as [|k IH]; intros n; cbn [digits_n]; [constructor|].
  apply Forall_app. split; [apply IH|]. constructor; [apply digit_char_digit|constructor].
Qed.

Lemma digits_n_value k n : n < 10 ^ N.of_nat k -> digits_value (digits_n k n) = n.
Proof.
  revert n. induction k as [|k IH]; intros n Hn.
  { change (10 ^ N.of_nat 0) with 1 in Hn. cbn. lia. }
  rewrite Nat2N.inj_succ, N.pow_succ_r' in Hn. cbn [digits_n]. rewrite digits_value_snoc, IH.
  - unfold digit_char. pose proof (N.div_mod n 10 ltac:(lia)) as H. pose proof (N.mod_lt n 10 ltac:(lia)) as Hm.
    revert H Hm. generalize (n mod 10) (n / 10). intros r q H Hm. lia.
  - apply N.Div0.div_lt_upper_bound. lia.
Qed.

Lemma digits_n_of s : Forall (fun c => is_ascii_digit c = true) s ->
  digits_n (length s) (digits_value s) = s /\ digits_value s < 10 ^ N.of_nat (length s).
Proof.
  induction s as [|c s IH] using rev_ind; [done|]. intros [Hs [Hc _]%Forall_cons]%Forall_app.
  destruct (IH Hs) as [E Hv]. unfold is_ascii_digit in Hc. rewrite andb_true_iff, !Z.leb_le in Hc.
  rewrite length_app, Nat.add_comm, Nat2N.inj_succ, N.pow_succ_r', digits_value_snoc. cbn [length Nat.add digits_n].
  set (v := digits_value s) in *. split; [|lia]. f_equal.
  - rewrite N.div_add_l, N.div_small, N.add_0_r by lia. exact E.
  - unfold digit_char. rewrite N.add_comm, N.Div0.mod_add, N.mod_small by lia. f_equal. lia.
Qed.

Lemma parse_u32_digits s : s <> [] -> Forall (fun c => is_ascii_digit c = true) s -> digits_value s < 4294967296 ->
  parse_u32_or_default s = digits_value s.
Proof.
  intros Hne Hs Hv. unfold parse_u32_or_default. rewrite parse_usize_digits by done.
  rewrite (proj2 (N.ltb_lt _ usize_modulus)) by (unfold usize_modulus; lia). by rewrite (proj2 (N.ltb_lt _ _)).
Qed.

(** ** Dates *)

(** The Gregorian calendar: the days of the months of a year. *)
Definition calendar (year : N) : list N :=
  [31; if bool_decide ((year mod 4 = 0 /\ year mod 100 <> 0) \/ year mod 400 = 0) then 29 else 28;
   31; 30; 31; 30; 31; 31; 30; 31; 30; 31].

Definition calendar_day (year month day : N) : Prop :=
  1 <= year <= 9999 /\ 1 <= month
  /\ exists days, calendar year !! N.to_nat (month - 1) = Some days /\ 1 <= day <= days.

Definition iso_date (year month day : N) : str :=
  digits_n 4 year ++ [DASH] ++ digits_n 2 month ++ [DASH] ++ digits_n 2 day.

Lemma is_leap_year_spec y :
  is_leap_year y = bool_decide ((y mod 4 = 0 /\ y mod 100 <> 0) \/ y mod 400 = 0).
Proof.
  unfold is_leap_year. apply Bool.eq_true_iff_eq. rewrite bool_decide_eq_true, andb_true_iff, orb_true_iff,
    negb_true_iff, N.eqb_neq, !N.eqb_eq. split; [tauto|]. intros [[H1 H2]|H]; [tauto|]. split; [|tauto].
  pose proof (N.div_mod y 400 ltac:(lia)) as E. rewrite H in E.
  apply N.Div0.mod_divides. exists (100 * (y / 400)). lia.
Qed.

Lemma days_in_month_calendar y m : 
  days_in_month m (is_leap_year y) = if 1 <=? m then calendar y !! N.to_nat (m - 1) else None.
Proof.
  rewrite is_leap_year_spec. unfold calendar. set (l := bool_decide _). clearbody l.
  assert (m = 0 \/ m = 1 \/ m = 2 \/ m = 3 \/ m = 4 \/ m = 5 \/ m = 6 \/ m = 7 \/ m = 8 \/ m = 9 \/ m = 10
    \/ m = 11 \/ m = 12 \/ 13 <= m) as H by lia.
  repeat destruct H as [->|H]; try done.
  unfold days_in_month. cbn [existsb]. rewrite !(proj2 (N.eqb_neq m _)) by lia. cbn [orb].
  rewrite (proj2 (N.leb_le 1 m)) by lia. symmetry. apply lookup_ge_None. cbn [length]. lia.
Qed.

Lemma date_shape_spec v : date_shape v = true <->
  exists a b c, v = a ++ [DASH] ++ b ++ [DASH] ++ c /\ length a = 4%nat /\ length b = 2%nat /\ length c = 2%nat
    /\ Forall (fun x => is_ascii_digit x = true) (a ++ b ++ c).
Proof.
  unfold date_shape. rewrite !andb_true_iff, !bool_decide_eq_true, Nat.eqb_eq. split.
  - intros [[[Hl H4] H7] Hd].
    destruct (as_bytes v) as [|x0 [|x1 [|x2 [|x3 [|x4 [|x5 [|x6 [|x7 [|x8 [|x9 [|]]]]]]]]]]] eqn:E; try done.
    cbn in H4, H7. injection H4 as ->. injection H7 as ->. cbn in Hd. rewrite !andb_true_iff in Hd.
    destruct Hd as (H0 & H1 & H2 & H3 & H5 & H6 & H8 & H9 & _).
    assert (Hv : as_bytes v = v).
    { apply ascii_bytes_chars. rewrite E. unfold is_ascii_digit in *.
      rewrite andb_true_iff, !Z.leb_le in H0, H1, H2, H3, H5, H6, H8, H9.
      repeat constructor; unfold DASH; lia. }
    rewrite Hv in E. exists [x0; x1; x2; x3], [x5; x6], [x8; x9]. split; [done|]. repeat split. by repeat constructor.
  - intros (a & b & c & -> & Ha & Hb & Hc & Hd).
    destruct a as [|a0 [|a1 [|a2 [|a3 [|]]]]]; try done. destruct b as [|b0 [|b1 [|]]]; try done.
    destruct c as [|c0 [|c1 [|]]]; try done. cbn [app] in *.
    assert (as_bytes [a0; a1; a2; a3; DASH; b0; b1; DASH; c0; c1] = [a0; a1; a2; a3; DASH; b0; b1; DASH; c0; c1]) as ->.
    { apply ascii_as_bytes. assert (forall x, is_ascii_digit x = true -> (x < 128)%Z) as Hlt
        by (intros x; unfold is_ascii_digit; rewrite andb_true_iff, !Z.leb_le; lia).
      repeat (apply Forall_cons in Hd as [?%Hlt Hd]). by repeat constructor. }
    split; [done|]. repeat (apply Forall_cons in Hd as [? Hd]). cbn.
    repeat match goal with H : is_ascii_digit _ = true |- _ => rewrite H; clear H end. done.
Qed.

(** The three slices and what is read from them. *)
Lemma date_parts a b c : length a = 4%nat -> length b = 2%nat -> length c = 2%nat ->
  Forall (fun x => is_ascii_digit x = true) (a ++ b ++ c) ->
  is_real_iso_date (a ++ [DASH] ++ b ++ [DASH] ++ c) = true
  <-> calendar_day (digits_value a) (digits_value b) (digits_value c).
Proof.
  intros Ha Hb Hc Hd. assert (date_shape (a ++ [DASH] ++ b ++ [DASH] ++ c) = true) as Hshape
    by (apply date_shape_spec; by exists a, b, c).
  apply Forall_app in Hd as [Da [Db Dc]%Forall_app].
  assert (Hblen : forall s, Forall (fun x => is_ascii_digit x = true) s -> blen s = length s).
  { intros s Hs. apply ascii_as_bytes. eapply Forall_impl; [exact Hs|]. intros x. unfold is_ascii_digit.
    cbv beta. rewrite andb_true_iff, !Z.leb_le. lia. }
  pose proof (slice_middle [] a ([DASH] ++ b ++ [DASH] ++ c)) as Sa.
  pose proof (slice_middle (a ++ [DASH]) b ([DASH] ++ c)) as Sb.
  pose proof (slice_middle (a ++ [DASH] ++ b ++ [DASH]) c []) as Sc.
  assert (blen a = 4 /\ blen b = 2 /\ blen c = 2)%nat as (La & Lb & Lc) by (by rewrite !Hblen).
  repeat rewrite <- app_assoc in Sb. repeat rewrite <- app_assoc in Sc.
  repeat rewrite blen_app in Sb. repeat rewrite blen_app in Sc. rewrite app_nil_r in Sc.
  rewrite La in Sa, Sb, Sc. rewrite Lb in Sb, Sc. rewrite Lc in Sc.
  change (blen [DASH]) with 1%nat in *. change (blen []) with 0%nat in Sa. cbn [app Nat.add] in Sa, Sb, Sc.
  unfold is_real_iso_date. cbn [app] in *. rewrite Hshape, Sa, Sb, Sc. cbn [negb default]. unfold id.
  destruct (digits_n_of a Da) as [_ Va]. destruct (digits_n_of b Db) as [_ Vb]. destruct (digits_n_of c Dc) as [_ Vc].
  rewrite Ha in Va. rewrite Hb in Vb. rewrite Hc in Vc.
  change (10 ^ N.of_nat 4) with 10000 in Va. change (10 ^ N.of_nat 2) with 100 in Vb, Vc.
  rewrite !parse_u32_digits by (done || lia || (intros ->; done)).
  rewrite days_in_month_calendar. unfold calendar_day.
  destruct (N.leb_spec 1 (digits_value b)) as [Hm|Hm]; [|split; [done|lia]].
  destruct (calendar (digits_value a) !! N.to_nat (digits_value b - 1)) as [days|].
  - rewrite !andb_true_iff, negb_true_iff, N.eqb_neq, !N.leb_le. split.
    + intros (Hy & Hd). split; [lia|]. split; [done|]. by exists days.
    + intros (Hy & _ & ? & [= <-] & Hd). split; [lia|done].
  - split; [done|]. by intros (_ & _ & ? & ? & _).
Qed.

Lemma calendar_bounds y m days : calendar y !! N.to_nat (m - 1) = Some days -> m <= 12 /\ days <= 31.
Proof.
  intros Hl. pose proof (lookup_lt_Some _ _ _ Hl) as Hlt. cbn [length calendar] in Hlt. split; [lia|].
  apply list_elem_of_lookup_2 in Hl. unfold calendar in Hl. destruct (bool_decide _) in Hl;
    repeat (apply elem_of_cons in Hl as [->|Hl]; [lia|]); by apply not_elem_of_nil in Hl.
Qed.

(** The dates a revision may be pinned to are the days of the calendar, written out. *)
Lemma is_real_iso_date_exact v :
  is_real_iso_date v = true <-> exists y m d, calendar_day y m d /\ v = iso_date y m d.
Proof.
  split.
  - intros H. assert (date_shape v = true) as (a & b & c & -> & Ha & Hb & Hc & Hd)%date_shape_spec
      by (unfold is_real_iso_date in H; by destruct (date_shape v)).
    exists (digits_value a), (digits_value b), (digits_value c). split; [by apply date_parts|].
    apply Forall_app in Hd as [Da [Db Dc]%Forall_app]. unfold iso_date.
    destruct (digits_n_of a Da) as [Ea _]. destruct (digits_n_of b Db) as [Eb _]. destruct (digits_n_of c Dc) as [Ec _].
    rewrite Ha in Ea. rewrite Hb in Eb. rewrite Hc in Ec. by rewrite Ea, Eb, Ec.
  - intros (y & m & d & Hday & ->). apply date_parts; [apply length_digits_n..| |].
    + apply Forall_app; split; [|apply Forall_app; split]; apply digits_n_digits.
    + pose proof Hday as (Hy & Hm & days & [Hm' Hdays]%calendar_bounds & Hd).
      by rewrite !digits_n_value by (change (10 ^ N.of_nat 4) with 10000; change (10 ^ N.of_nat 2) with 100; lia).
Qed.

(** ** Endpoints *)

(** The labels of a host name. *)
Definition dns_label (label : str) : Prop :=
  Forall (fun c => lower_or_digit c = true \/ c = DASH) label
  /\ exists x y, head label = Some x /\ last label = Some y /\ lower_or_digit x = true /\ lower_or_digit y = true.

Definition path_segment (segment : str) : Prop :=
  segment <> [] /\ segment <> u8"." /\ segment <> u8".." /\ Forall (fun c => path_byte c = true) segment.

Definition port_number (port : N) : Prop := 1 <= port <= 65535 /\ port <> 443.

(** The text of an endpoint with these parts. *)
Definition endpoint_text (labels : list str) (port : option N) (segments : list str) : str :=
  HTTPS ++ join [C_DOT] labels ++ match port with Some p => C_COLON :: decimal p | None => [] end
  ++ match segments with [] => [] | _ => C_SLASH :: join [C_SLASH] segments end.

Definition endpoint_parts (labels : list str) (port : option N) (segments : list str) : Prop :=
  labels <> [] /\ Forall dns_label labels /\ (forall p, port = Some p -> port_number p)
  /\ Forall path_segment segments.

Lemma lower_or_digit_ascii : ascii_test lower_or_digit.
Proof. intros b Hb. unfold lower_or_digit, is_ascii_lowercase, is_ascii_digit. lia. Qed.

Lemma path_byte_ascii : ascii_test path_byte.
Proof.
  intros b Hb. unfold path_byte, is_ascii_alphanumeric, is_ascii_alphabetic, is_ascii_uppercase, is_ascii_lowercase,
    is_ascii_digit, C_DOT, DASH. lia.
Qed.

Lemma valid_dns_label_spec label : valid_dns_label label = true <-> dns_label label.
Proof.
  unfold valid_dns_label, dns_label. set (f := fun b => lower_or_digit b || (b =? DASH)%Z).
  assert (Hf : ascii_test f).
  { intros b Hb. unfold f. rewrite lower_or_digit_ascii by done. unfold DASH. lia. }
  assert (Hall : forallb f label = true <-> Forall (fun c => lower_or_digit c = true \/ c = DASH) label).
  { rewrite forallb_forall, Forall_forall. unfold f. split; intros H c Hc; specialize (H c ltac:(by apply list_elem_of_In));
      rewrite ?orb_true_iff, ?Z.eqb_eq in *; exact H. }
  split.
  - rewrite !andb_true_iff. intros (((_ & Hh) & Hl) & Hb). rewrite forallb_bytes in Hb by done.
    rewrite (proj1 (ascii_test_bytes f label Hf Hb)) in Hh, Hl. split; [by apply Hall|].
    destruct (head label) as [x|]; [|done]. destruct (last label) as [y|]; [|done]. by exists x, y.
  - intros [Hs (x & y & Hx & Hy & Lx & Ly)]. apply Hall in Hs. rewrite forallb_bytes, Hs by done.
    rewrite (proj1 (ascii_test_bytes f label Hf Hs)), Hx, Hy, Lx, Ly. rewrite bool_decide_eq_false_2; [done|].
    by intros ->.
Qed.

Lemma bad_segment_spec segment : bad_segment segment = false <-> path_segment segment.
Proof.
  unfold bad_segment, path_segment. rewrite !orb_false_iff, negb_false_iff, (forallb_bytes _ _ path_byte_ascii).
  assert (Hall : forallb path_byte segment = true <-> Forall (fun c => path_byte c = true) segment).
  { rewrite forallb_forall, Forall_forall. by setoid_rewrite list_elem_of_In. }
  rewrite Hall. unfold str_eqb. rewrite !bool_decide_eq_false.
  assert (str_is_empty segment = false <-> segment <> []) as -> by (by destruct segment). tauto.
Qed.

Lemma bind_check {E A} (c : bool) (e : E) (k : result E A) b :
  (_ ← reject_if c e; k) = Ok b <-> c = false /\ k = Ok b.
Proof. destruct c; cbn; [|tauto]. split; [done|by intros [H _]]. Qed.

Lemma bind_unit {E A} (r : result E unit) (k : result E A) b :
  (_ ← r; k) = Ok b <-> r = Ok tt /\ k = Ok b.
Proof. destruct r as [[]|e]; cbn; [tauto|]. split; [done|by intros [H _]]. Qed.

Lemma parse_u16_digits s : s <> [] -> Forall (fun c => is_ascii_digit c = true) s ->
  parse_u16 s = if digits_value s <? 65536 then Some (digits_value s) else None.
Proof.
  intros Hne Hs. unfold parse_u16. rewrite parse_usize_digits by done. unfold usize_modulus.
  destruct (N.ltb_spec (digits_value s) 18446744073709551616); [done|].
  by rewrite (proj2 (N.ltb_ge (digits_value s) 65536)) by lia.
Qed.

Lemma starts_zero s : starts_with s (u8"0") = false <-> head s <> Some 48%Z.
Proof.
  change (u8"0") with [48%Z]. rewrite <- not_true_iff_false, starts_with_spec. split; intros H.
  - intros Hh. apply H. destruct s as [|c s]; [done|]. injection Hh as ->. by exists s.
  - by intros (r & ->).
Qed.

(** A port is the decimal text of a number of 16 bits that is not the default one. *)
Lemma validate_port_spec s : validate_port s = Ok tt <-> exists p, port_number p /\ s = decimal p.
Proof.
  unfold validate_port. rewrite bind_check, !orb_false_iff, negb_false_iff, digits_bytes, starts_zero. split.
  - intros [[[Hne Hz] Hd] H]. assert (s <> []) as Hs by (by destruct s).
    apply bind_Ok in H as (p & Hp%ok_or_Ok & H%reject_if_Ok). apply N.eqb_neq in H.
    rewrite parse_u16_digits in Hp by done. destruct (N.ltb_spec (digits_value s) 65536); [|done].
    injection Hp as <-. destruct (decimal_unique s Hs Hd Hz) as [E Hpos]. exists (digits_value s).
    split; [split; [lia|done]|done].
  - intros (p & [Hp Hne] & ->). split; [split; [split|]|].
    + pose proof (decimal_nonempty p). by destruct (decimal p).
    + apply decimal_head. lia.
    + apply decimal_digits.
    + rewrite parse_u16_digits, decimal_value by (apply decimal_nonempty || apply decimal_digits).
      rewrite (proj2 (N.ltb_lt p 65536)) by lia. cbn. by rewrite (proj2 (N.eqb_neq p 443)).
Qed.

Definition port_text (port : option N) : str := match port with Some p => C_COLON :: decimal p | None => [] end.
Definition segments_text (segments : list str) : str :=
  match segments with [] => [] | _ => C_SLASH :: join [C_SLASH] segments end.

(** Which chars the parts can hold. *)
Lemma join_chars (P : Z -> Prop) sep l : Forall P sep -> Forall (Forall P) l -> Forall P (join sep l).
Proof.
  intros Hsep. induction 1 as [|s l Hs Hl IH]; [constructor|]. destruct l as [|t l]; [done|].
  change (join sep (s :: t :: l)) with (s ++ sep ++ join sep (t :: l)). by repeat (apply Forall_app; split).
Qed.

Definition host_char (c : char) : Prop := lower_or_digit c = true \/ c = DASH \/ c = C_DOT.

Lemma host_chars labels : Forall dns_label labels -> Forall host_char (join [C_DOT] labels).
Proof.
  intros H. apply join_chars; [constructor; [by right; right|constructor]|]. eapply Forall_impl; [exact H|].
  intros s [Hs _]. eapply Forall_impl; [exact Hs|]. intros c. unfold host_char. tauto.
Qed.

Lemma host_char_free d s : Forall host_char s -> ~ host_char d -> d ∉ s.
Proof. intros Hs Hd Hin. rewrite Forall_forall in Hs. by apply Hd, Hs. Qed.

Lemma not_host_char d : d = C_SLASH \/ d = C_COLON -> ~ host_char d.
Proof. by intros [-> | ->] [H|[H|H]]. Qed.

Lemma decimal_free d n : is_ascii_digit d = false -> d ∉ decimal n.
Proof. intros Hd Hin. pose proof (decimal_digits n) as H. rewrite Forall_forall in H. apply H in Hin. congruence. Qed.

Lemma label_free c s : dns_label s -> lower_or_digit c = false -> c <> DASH -> c ∉ s.
Proof. intros [Hs _] H1 H2 Hin. rewrite Forall_forall in Hs. destruct (Hs c Hin); congruence. Qed.

Section endpoint.
Context (labels : list str) (port : option N) (segments : list str).
Context (Hparts : endpoint_parts labels port segments).
Notation host := (join [C_DOT] labels).
Notation path := (join [C_SLASH] segments).

Lemma parts_host_chars : Forall host_char host.
Proof. apply host_chars, Hparts. Qed.

Lemma parts_labels : split_char C_DOT host = labels.
Proof.
  destruct Hparts as (Hne & Hl & _). apply split_char_join; [done|]. eapply Forall_impl; [exact Hl|].
  intros s Hs. by apply label_free.
Qed.

Lemma parts_segments : segments <> [] -> split_char C_SLASH path = segments.
Proof.
  intros Hne. destruct Hparts as (_ & _ & _ & Hs). apply split_char_join; [done|]. eapply Forall_impl; [exact Hs|].
  intros s (_ & _ & _ & H) Hin. rewrite Forall_forall in H. by apply H in Hin.
Qed.

Lemma parts_authority_free : C_SLASH ∉ host ++ port_text port.
Proof.
  rewrite not_elem_of_app. split; [apply host_char_free; [apply parts_host_chars|apply not_host_char; by left]|].
  destruct port as [p|]; [|apply not_elem_of_nil]. cbn [port_text]. rewrite not_elem_of_cons. split; [done|].
  by apply decimal_free.
Qed.

Lemma parts_cut_path :
  default (host ++ port_text port ++ segments_text segments, []) (split_once C_SLASH (host ++ port_text port ++ segments_text segments))
  = (host ++ port_text port, path).
Proof.
  pose proof parts_authority_free as Hfree. unfold segments_text. destruct segments as [|s l] eqn:E.
  - rewrite app_nil_r. by rewrite (proj2 (split_once_None _ _) Hfree).
  - rewrite <- E, app_assoc. by rewrite (proj2 (split_once_Some _ _ _ _) (conj eq_refl Hfree)).
Qed.

Lemma parts_cut_port :
  match rsplit_once C_COLON (host ++ port_text port) with
  | Some (h, p) => (h, Some p)
  | None => (host ++ port_text port, None)
  end = (host, option_map decimal port).
Proof.
  pose proof parts_host_chars as Hh. destruct port as [p|]; cbn [port_text option_map].
  - rewrite (proj2 (rsplit_once_Some C_COLON (host ++ C_COLON :: decimal p) host (decimal p))); [done|].
    split; [done|by apply decimal_free].
  - rewrite app_nil_r. rewrite (proj2 (rsplit_once_None _ _)); [done|].
    apply host_char_free; [exact Hh|apply not_host_char; by right].
Qed.

Lemma parts_one_colon :
  (length (List.filter (fun b => (b =? C_COLON)%Z) (as_bytes (host ++ port_text port))) <= 1)%nat.
Proof.
  assert (Hlow : forall c, host_char c -> (c < 128)%Z).
  { intros c [H|[-> | ->]]; [|done..]. revert H. unfold lower_or_digit, is_ascii_lowercase, is_ascii_digit. lia. }
  assert (Hnone : forall s, C_COLON ∉ s -> List.filter (fun b => (b =? C_COLON)%Z) s = []).
  { induction s as [|c s IH]; [done|]. intros H. cbn. destruct (Z.eqb_spec c C_COLON) as [->|]; [set_solver|].
    apply IH. set_solver. }
  pose proof parts_host_chars as Hh.
  assert (Forall (fun c => c < 128)%Z (host ++ port_text port)) as Hascii.
  { apply Forall_app. split; [eapply Forall_impl; [exact Hh|exact Hlow]|].
    destruct port as [p|]; [|constructor]. constructor; [done|]. eapply Forall_impl; [apply decimal_digits|].
    intros c. cbv beta. unfold is_ascii_digit. lia. }
  rewrite (proj1 (ascii_as_bytes _ Hascii)), List.filter_app, length_app, Hnone.
  - destruct port as [p|]; cbn; [|lia]. rewrite Hnone by (by apply decimal_free). cbn. lia.
  - apply host_char_free; [exact Hh|apply not_host_char; by right].
Qed.

Lemma parts_host_nonempty : host <> [].
Proof.
  destruct Hparts as (Hne & Hl & _). destruct labels as [|l ls]; [done|]. apply Forall_inv in Hl as [_ (x & _ & Hx & _)].
  destruct l as [|c l]; [done|]. by destruct ls.
Qed.

Lemma parts_no_trailing_slash : ends_with (host ++ port_text port ++ segments_text segments) (u8"/") = false.
Proof.
  rewrite <- not_true_iff_false, ends_with_spec. change (u8"/") with [C_SLASH]. intros (r & H).
  destruct Hparts as (_ & _ & _ & Hs). unfold segments_text in H. destruct (decide (segments = [])) as [E|Hne].
  - rewrite E, app_nil_r in H. apply parts_authority_free. rewrite H. set_solver.
  - destruct segments as [|s0 l0] eqn:E; [done|]. rewrite <- E in *. clear E s0 l0.
    destruct (exists_last Hne) as (l & s & ->). apply Forall_app in Hs as [_ Hs]. apply Forall_inv in Hs as (Hs0 & _ & _ & Hs).
    assert (exists q, join [C_SLASH] (l ++ [s]) = q ++ s) as (q & Hq).
    { clear. induction l as [|t l (q & Hq)]; [by exists []|]. exists (t ++ [C_SLASH] ++ q).
      cbn [app]. destruct (l ++ [s]) as [|u m] eqn:E; [by destruct l|].
      change (join [C_SLASH] (t :: u :: m)) with (t ++ [C_SLASH] ++ join [C_SLASH] (u :: m)). rewrite Hq. by rewrite <- !app_assoc. }
    rewrite Hq in H. destruct (exists_last Hs0) as (s' & c & ->).
    apply Forall_app in Hs as [_ Hc]. apply Forall_inv in Hc.
    assert (c = C_SLASH) as ->; [|done].
    assert (host ++ port_text port ++ C_SLASH :: q ++ s' ++ [c] = (host ++ port_text port ++ C_SLASH :: q ++ s') ++ [c]) as E
      by (by rewrite <- !app_assoc, <- app_comm_cons, <- app_assoc).
    rewrite E in H. by apply app_inj_tail in H as [_ ->].
Qed.

Lemma endpoint_accepted : validate_endpoint_identity (endpoint_text labels port segments) = Ok tt.
Proof.
  unfold validate_endpoint_identity, endpoint_text. unfold strip_prefix. rewrite starts_with_app, drop_app_length. cbn [ok_or].
  change (Ok ?x ≫= ?k) with (k x). cbv beta.
  fold (port_text port) (segments_text segments). rewrite parts_cut_path, parts_cut_port.
  pose proof parts_host_nonempty as Hne. destruct Hparts as (_ & Hl & Hp & Hs).
  rewrite bind_check, bind_unit, bind_check, reject_if_Ok, !orb_false_iff, negb_false_iff, parts_labels.
  split; [split; [split|]|split; [|split]].
  - by destruct (join [C_DOT] labels).
  - apply Nat.ltb_ge, parts_one_colon.
  - apply forallb_forall. intros l Hin. apply valid_dns_label_spec. rewrite Forall_forall in Hl. by apply Hl, list_elem_of_In.
  - destruct port as [p|]; [|done]. cbn [option_map]. apply validate_port_spec. exists p. split; [by apply Hp|done].
  - destruct (decide (segments = [])) as [->|Hseg]; [done|]. rewrite parts_segments by done.
    apply andb_false_iff. right. apply not_true_iff_false. rewrite existsb_exists. intros (s & Hin & Hb).
    rewrite Forall_forall in Hs. apply list_elem_of_In, Hs, bad_segment_spec in Hin. congruence.
  - apply parts_no_trailing_slash.
Qed.

End endpoint.

(** What is read from the host and the path of an accepted endpoint. *)
Lemma host_labels host : forallb valid_dns_label (split_char C_DOT host) = true -> Forall dns_label (split_char C_DOT host).
Proof.
  intros H. apply Forall_forall. intros l Hin. apply valid_dns_label_spec. rewrite forallb_forall in H.
  by apply H, list_elem_of_In.
Qed.

Lemma path_segments path : path <> [] -> existsb bad_segment (split_char C_SLASH path) = false ->
  Forall path_segment (split_char C_SLASH path).
Proof.
  intros Hne H. apply Forall_forall. intros s Hin. apply bad_segment_spec. apply not_true_iff_false. intros Hb.
  apply not_true_iff_false in H. apply H, existsb_exists. exists s. by rewrite <- list_elem_of_In.
Qed.

Lemma endpoint_read v : validate_endpoint_identity v = Ok tt ->
  exists labels port segments, endpoint_parts labels port segments /\ v = endpoint_text labels port segments.
Proof.
  unfold validate_endpoint_identity. intros (remainder & Hr%ok_or_Ok%strip_prefix_Some & H)%bind_Ok.
  destruct (default (remainder, []) (split_once C_SLASH remainder)) as [authority path] eqn:Ecut.
  destruct (match rsplit_once C_COLON authority with Some (h, p) => (h, Some p) | None => (authority, None) end)
    as [host port] eqn:Eport.
  rewrite bind_check, bind_unit, bind_check, reject_if_Ok, !orb_false_iff, negb_false_iff, andb_false_iff,
    negb_false_iff, str_is_empty_spec in H.
  destruct H as (((_ & _) & Hlabels%host_labels) & Hport & Hpath & Hslash).
  assert (exists p, port = option_map decimal p /\ (forall n, p = Some n -> port_number n)) as (p & -> & Hp).
  { destruct port as [s|]; [|by exists None]. apply validate_port_spec in Hport as (n & Hn & ->).
    exists (Some n). split; [done|]. by intros m [= <-]. }
  assert (authority = host ++ port_text p) as ->.
  { destruct (rsplit_once C_COLON authority) as [[h s]|] eqn:E; injection Eport as <- Es.
    - apply rsplit_once_Some in E as [-> _]. destruct p as [n|]; [|done]. by injection Es as ->.
    - destruct p; [done|]. by rewrite app_nil_r. }
  set (segments := match path with [] => [] | _ => split_char C_SLASH path end).
  assert (Hsegs : Forall path_segment segments).
  { unfold segments. destruct path as [|c path'] eqn:E; [constructor|]. rewrite <- E in *.
    apply path_segments; [by rewrite E|]. destruct Hpath as [|Hpath]; [congruence|done]. }
  exists (split_char C_DOT host), p, segments. split.
  { split; [apply split_char_nonempty|]. by split; [|split]. }
  unfold endpoint_text. fold (port_text p) (segments_text segments). rewrite join_split_char, Hr. f_equal.
  destruct (split_once C_SLASH remainder) as [[a q]|] eqn:E; injection Ecut as Ea Ep.
  - rewrite Ea, Ep in E. apply split_once_Some in E as [-> _]. rewrite <- app_assoc. do 2 f_equal. unfold segments.
    destruct path as [|c path'] eqn:Eq.
    + exfalso. apply not_true_iff_false in Hslash. apply Hslash, ends_with_spec. by eexists.
    + rewrite <- Eq. unfold segments_text. destruct (split_char C_SLASH path) as [|s l] eqn:Es; [by apply split_char_nonempty in Es|].
      by rewrite <- Es, join_split_char.
  - unfold segments. rewrite <- Ep. by rewrite Ea, app_nil_r.
Qed.

(** C32: The endpoints the registry accepts ([validate_endpoint_identity]): exactly the texts
    [https://host[:port][/segment...]] whose host is a sequence of lower-case DNS labels, whose
    port is the decimal text of a number of 16 bits other than 443, and whose segments are
    non-empty, unreserved and no dot segments; and the text determines the host, the port and
    the path, so an endpoint has one identity. *)
Theorem endpoint_identity_exact v :
  (validate_endpoint_identity v = Ok tt
   <-> exists labels port segments, endpoint_parts labels port segments /\ v = endpoint_text labels port segments)
  /\ (forall labels port segments labels' port' segments',
        endpoint_parts labels port segments -> endpoint_parts labels' port' segments' ->
        endpoint_text labels port segments = endpoint_text labels' port' segments' ->
        labels = labels' /\ port = port' /\ segments = segments').
Proof.
  split.
  - split; [apply endpoint_read|]. intros (l & p & s & H & ->). by apply endpoint_accepted.
  - intros l p s l' p' s' H H' E. apply app_inv_head in E. fold (port_text p) (port_text p') (segments_text s) (segments_text s') in E.
    pose proof (parts_cut_path l p s H) as Hc. rewrite E, (parts_cut_path l' p' s' H') in Hc. injection Hc as Ha Hpath.
    pose proof (parts_cut_port l p s H) as Hq. rewrite <- Ha, (parts_cut_port l' p' s' H') in Hq. injection Hq as Hh Hport.
    split; [|split].
    + by rewrite <- (parts_labels l p s H), <- (parts_labels l' p' s' H'), Hh.
    + destruct p, p'; try done. cbn in Hport. injection Hport as Hport%decimal_inj. by subst.
    + assert (Hnil : forall l p s, endpoint_parts l p s -> join [C_SLASH] s = [] -> s = []).
      { intros ? ? s0 (_ & _ & _ & Hs) Hj. destruct s0 as [|t s0]; [done|]. apply Forall_inv in Hs as (Ht & _).
        destruct t; [done|]. by destruct s0. }
      destruct (decide (s = [])) as [->|Hs].
      { symmetry. by apply (Hnil _ _ _ H'). }
      destruct (decide (s' = [])) as [->|Hs']; [exfalso; apply Hs; by apply (Hnil _ _ _ H)|].
      by rewrite <- (parts_segments l p s H), <- (parts_segments l' p' s' H'), Hpath.
Qed.

Lemma endpoint_identity_exact_witness :
  validate_endpoint_identity (u8"https://rerank.example:8443/v1/rerank") = Ok tt
  /\ exists labels port segments, endpoint_parts labels port segments
     /\ u8"https://rerank.example:8443/v1/rerank" = endpoint_text labels port segments.
Proof.
  split; [by vm_compute|]. apply (endpoint_identity_exact (u8"https://rerank.example:8443/v1/rerank")). by vm_compute.
Defined.

(** ** Model identifiers *)

Definition sha256_text (s : str) : Prop :=
  length s = 64%nat /\ Forall (fun c => is_ascii_digit c = true \/ (97 <= c <= 102)%Z) s.

Lemma hex_ascii : ascii_test (fun b => is_ascii_hexdigit b && negb (is_ascii_uppercase b)).
Proof. intros b Hb. unfold is_ascii_hexdigit, is_ascii_uppercase, is_ascii_digit. lia. Qed.

Lemma is_sha256_hex_spec s : is_sha256_hex s = true <-> sha256_text s.
Proof.
  unfold is_sha256_hex, sha256_text. rewrite andb_true_iff, Nat.eqb_eq, (forallb_bytes _ _ hex_ascii).
  assert (Hall : forallb (fun b => is_ascii_hexdigit b && negb (is_ascii_uppercase b)) s = true
    <-> Forall (fun c => is_ascii_digit c = true \/ (97 <= c <= 102)%Z) s).
  { rewrite forallb_forall, Forall_forall. setoid_rewrite list_elem_of_In.
    unfold is_ascii_hexdigit, is_ascii_uppercase, is_ascii_digit. split; intros H c Hc; specialize (H c Hc); lia. }
  rewrite <- Hall. split; intros [Hl H]; (split; [|done]);
    destruct (ascii_test_bytes _ _ hex_ascii H) as [_ E]; congruence.
Qed.

Lemma validate_embedding_sha256_spec label s : validate_embedding_sha256 label s = Ok tt <-> sha256_text s.
Proof. unfold validate_embedding_sha256. by rewrite reject_if_Ok, negb_false_iff, is_sha256_hex_spec. Qed.

Definition SHA256_PREFIX : str := u8"sha256:".

(** A model is pinned to a day of the calendar or to a digest. *)
Definition pinned_identifier (value base revision : str) : Prop :=
  value = base ++ C_AT :: revision /\ base <> [] /\ (blen value <= 256)%nat
  /\ Forall (fun c => model_base_byte c = true) base
  /\ ((exists digest, revision = SHA256_PREFIX ++ digest /\ sha256_text digest)
      \/ exists y m d, calendar_day y m d /\ revision = iso_date y m d).

Lemma model_base_ascii : ascii_test model_base_byte.
Proof.
  intros b Hb. unfold model_base_byte, is_ascii_alphanumeric, is_ascii_alphabetic, is_ascii_uppercase,
    is_ascii_lowercase, is_ascii_digit, C_DOT, C_SLASH, DASH. lia.
Qed.

Lemma iso_date_no_prefix y m d r : calendar_day y m d -> iso_date y m d <> SHA256_PREFIX ++ r.
Proof.
  intros Hd E. assert (is_real_iso_date (SHA256_PREFIX ++ r) = true) as H
    by (apply is_real_iso_date_exact; exists y, m, d; by rewrite E).
  unfold is_real_iso_date in H. destruct (date_shape (SHA256_PREFIX ++ r)) eqn:Es; [|done].
  unfold date_shape in Es. rewrite as_bytes_app, !andb_true_iff in Es. destruct Es as [_ Es].
  change (as_bytes SHA256_PREFIX) with [115; 104; 97; 50; 53; 54; 58]%Z in Es. by cbn in Es.
Qed.

Lemma validate_provider_model_identifier_exact value :
  validate_provider_model_identifier value = Ok tt <-> exists base revision, pinned_identifier value base revision.
Proof.
  unfold validate_provider_model_identifier. rewrite bind_check, orb_false_iff, Nat.ltb_ge.
  change (u8"sha256:") with SHA256_PREFIX. unfold EMBEDDING_PROVIDER_MODEL_IDENTIFIER_MAX_BYTES.
  assert (Hbase : forall base, existsb (fun b => negb (model_base_byte b)) (as_bytes base) = false
    <-> Forall (fun c => model_base_byte c = true) base).
  { intros base. rewrite existsb_negb_forallb, negb_false_iff, (forallb_bytes _ _ model_base_ascii), forallb_forall,
      Forall_forall. by setoid_rewrite list_elem_of_In. }
  split.
  - intros [[_ Hl] H]. apply bind_Ok in H as ([base revision] & Hs%ok_or_Ok & H).
    apply split_once_Some in Hs as [-> Hfree]. rewrite bind_check, !orb_false_iff, Hbase in H.
    destruct H as [[[Hb Hr] Hchars] H]. exists base, revision. split; [done|].
    split; [by intros ->|]. split; [done|]. split; [done|].
    destruct (strip_prefix revision SHA256_PREFIX) as [digest|] eqn:E.
    + left. exists digest. apply strip_prefix_Some in E. split; [done|]. by apply validate_embedding_sha256_spec in H.
    + right. apply reject_if_Ok, negb_false_iff in H. by apply is_real_iso_date_exact.
  - intros (base & revision & -> & Hne & Hl & Hchars & Hrev). split; [split; [by destruct base|done]|].
    assert (C_AT ∉ base) as Hfree by (intros Hin; rewrite Forall_forall in Hchars; by apply Hchars in Hin).
    rewrite (proj2 (split_once_Some _ _ _ _) (conj eq_refl Hfree)). cbn [ok_or]. change (Ok ?x ≫= ?k) with (k x). cbv beta iota.
    rewrite bind_check, !orb_false_iff, Hbase. split; [split; [split|done]|].
    + by destruct base.
    + destruct Hrev as [(d & -> & _)|(y & m & d & _ & ->)]; [done|]. unfold iso_date. by cbn [digits_n app].
    + destruct Hrev as [(digest & -> & H)|(y & m & d & Hd & ->)].
      * rewrite (proj2 (strip_prefix_Some _ _ _) eq_refl). by apply validate_embedding_sha256_spec.
      * destruct (strip_prefix (iso_date y m d) SHA256_PREFIX) as [r|] eqn:E.
        -- apply strip_prefix_Some in E. by apply iso_date_no_prefix in E.
        -- apply reject_if_Ok, negb_false_iff, is_real_iso_date_exact. by exists y, m, d.
Qed.

(** ** Policies *)

(** What an accepted policy is free to choose. *)
Record PolicyChoices := {
  ch_keyword_top_k : N; ch_keyword_threshold : N; ch_embedding_revision : str; ch_embedding_top_k : N;
  ch_embedding_threshold : N; ch_rrf_k : N; ch_keyword_weight : N; ch_vector_weight : N;
  ch_rerank_revision : str; ch_rerank_model : str; ch_rerank_config : str; ch_rerank_top_k : N;
  ch_timeout_ms : N; ch_max_hits : N; ch_max_chunk_bytes : N; ch_max_total_bytes : N;
}.

Definition choices_ok (c : PolicyChoices) : Prop :=
  1 <= ch_keyword_top_k c <= 1000000 /\ ch_keyword_threshold c <= 1000000 /\ sha256_text (ch_embedding_revision c)
  /\ 1 <= ch_embedding_top_k c <= 1000000 /\ ch_embedding_threshold c <= 1000000
  /\ 1 <= ch_rrf_k c <= 1000000 /\ 1 <= ch_keyword_weight c <= 1000000000 /\ 1 <= ch_vector_weight c <= 1000000000
  /\ sha256_text (ch_rerank_revision c) /\ sha256_text (ch_rerank_model c) /\ sha256_text (ch_rerank_config c)
  /\ 1 <= ch_rerank_top_k c <= 1000000 /\ 1 <= ch_timeout_ms c <= 3600000
  /\ 1 <= ch_max_hits c <= 1000000 /\ 1 <= ch_max_chunk_bytes c <= 1073741824
  /\ 1 <= ch_max_total_bytes c <= 1099511627776.

Definition supported_ranking : RetrievalRankingPolicyV2 := {|
    a_primary_comparator := RETRIEVAL_A_PRIMARY_COMPARATOR_V2;
    a_version_comparator := RETRIEVAL_A_VERSION_COMPARATOR_V2;
    b_exact_comparator := RETRIEVAL_B_EXACT_COMPARATOR_V2;
    c_semantic_comparator := RETRIEVAL_C_SEMANTIC_COMPARATOR_V2;
    source_folding_version := RETRIEVAL_SOURCE_FOLDING_VERSION_V2;
    channel_score_quantization_version := RETRIEVAL_CHANNEL_SCORE_QUANTIZATION_VERSION_V2;
    channel_rank_comparator := RETRIEVAL_CHANNEL_RANK_COMPARATOR_V2;
    pre_rerank_rrf_comparator := RETRIEVAL_PRE_RERANK_RRF_COMPARATOR_V2;
    quota_semantics_version := RETRIEVAL_QUOTA_SEMANTICS_VERSION_V2 |}.

Definition policy_of (c : PolicyChoices) : RetrievalPolicyV2 := {|
  pol_schema_version := RETRIEVAL_POLICY_SCHEMA_V2; pol_contract_version := KNOWLEDGE_EVIDENCE_CONTRACT_V2;
  pol_normalization_version := RETRIEVAL_NORMALIZATION_VERSION_V2;
  trusted_source_types := RETRIEVAL_TRUSTED_SOURCE_TYPES_V2;
  ranking := supported_ranking;
  keyword := {|
    kw_tokenizer := RETRIEVAL_KEYWORD_TOKENIZER_V2; kw_tokenizer_version := RETRIEVAL_KEYWORD_TOKENIZER_VERSION_V2;
    kw_score_version := RETRIEVAL_KEYWORD_SCORE_VERSION_V2; kw_top_k := ch_keyword_top_k c;
    kw_threshold_millionths := ch_keyword_threshold c |};
  embedding := {|
    ep_policy := RETRIEVAL_EMBEDDING_POLICY_V2; ep_policy_version := RETRIEVAL_EMBEDDING_POLICY_VERSION_V2;
    ep_similarity_version := RETRIEVAL_EMBEDDING_SIMILARITY_VERSION_V2;
    ep_model_revision_sha256 := ch_embedding_revision c; ep_top_k := ch_embedding_top_k c;
    ep_threshold_millionths := ch_embedding_threshold c |};
  rrf := {|
    rrf_k := ch_rrf_k c; keyword_weight_millionths := ch_keyword_weight c;
    vector_weight_millionths := ch_vector_weight c;
    score_representation_version := RETRIEVAL_RRF_SCORE_REPRESENTATION_VERSION_V2 |};
  rerank := {|
    rp_provider_protocol_version := RETRIEVAL_RERANK_PROTOCOL_VERSION_V2;
    rp_revision_sha256 := ch_rerank_revision c; rp_model_revision_sha256 := ch_rerank_model c;
    rp_config_revision_sha256 := ch_rerank_config c; rp_top_k := ch_rerank_top_k c;
    rp_timeout_ms := ch_timeout_ms c;
    rp_score_normalization_version := RETRIEVAL_RERANK_SCORE_NORMALIZATION_VERSION_V2 |};
  request_quotas := {|
    rq_max_hits := ch_max_hits c; rq_max_chunk_bytes := ch_max_chunk_bytes c;
    rq_max_total_bytes := ch_max_total_bytes c |};
|}.

Definition choices_of (p : RetrievalPolicyV2) : PolicyChoices := {|
  ch_keyword_top_k := kw_top_k (keyword p); ch_keyword_threshold := kw_threshold_millionths (keyword p);
  ch_embedding_revision := ep_model_revision_sha256 (embedding p); ch_embedding_top_k := ep_top_k (embedding p);
  ch_embedding_threshold := ep_threshold_millionths (embedding p); ch_rrf_k := rrf_k (rrf p);
  ch_keyword_weight := keyword_weight_millionths (rrf p); ch_vector_weight := vector_weight_millionths (rrf p);
  ch_rerank_revision := rp_revision_sha256 (rerank p); ch_rerank_model := rp_model_revision_sha256 (rerank p);
  ch_rerank_config := rp_config_revision_sha256 (rerank p); ch_rerank_top_k := rp_top_k (rerank p);
  ch_timeout_ms := rp_timeout_ms (rerank p); ch_max_hits := rq_max_hits (request_quotas p);
  ch_max_chunk_bytes := rq_max_chunk_bytes (request_quotas p);
  ch_max_total_bytes := rq_max_total_bytes (request_quotas p);
|}.

Lemma supported_identity_spec label v s : validate_supported_identity label v s = Ok tt <-> v = s.
Proof. unfold validate_supported_identity. by rewrite reject_if_Ok, negb_false_iff, str_eqb_spec. Qed.

Lemma supported_values_spec label l s : validate_supported_values label l s = Ok tt <-> l = s.
Proof.
  unfold validate_supported_values. rewrite reject_if_Ok, orb_false_iff, !negb_false_iff, Nat.eqb_eq, bool_decide_eq_true.
  split; [tauto|by intros ->].
Qed.

Lemma validate_sha256_spec label s : validate_sha256 label s = Ok tt <-> sha256_text s.
Proof.
  rewrite <- is_sha256_hex_spec. unfold validate_sha256, is_sha256_hex.
  rewrite reject_if_Ok, <- negb_andb, negb_false_iff, !andb_true_iff.
  assert (forall l, forallb (fun b => is_ascii_digit b || (97 <=? b) && (b <=? 102))%Z l
    = forallb (fun b => is_ascii_hexdigit b && negb (is_ascii_uppercase b)) l) as ->; [|done].
  intros l. induction l as [|b l IH]; [done|]. cbn [forallb]. rewrite IH. f_equal. unfold is_ascii_hexdigit, is_ascii_uppercase, is_ascii_digit. lia.
Qed.

Lemma validate_top_k_spec label n : validate_top_k label n = Ok tt <-> 1 <= n <= 1000000.
Proof. unfold validate_top_k, RETRIEVAL_POLICY_MAX_TOP_K. rewrite reject_if_Ok, orb_false_iff, N.eqb_neq, N.ltb_ge. lia. Qed.
Lemma validate_threshold_spec label n : validate_threshold label n = Ok tt <-> n <= 1000000.
Proof. unfold validate_threshold, MILLIONTHS_ONE. rewrite reject_if_Ok, N.ltb_ge. done. Qed.
Lemma validate_weight_spec label n : validate_weight label n = Ok tt <-> 1 <= n <= 1000000000.
Proof. unfold validate_weight, RETRIEVAL_POLICY_MAX_WEIGHT_MILLIONTHS. rewrite reject_if_Ok, orb_false_iff, N.eqb_neq, N.ltb_ge. lia. Qed.

#[local] Opaque validate_supported_identity validate_supported_values validate_sha256 validate_top_k
  validate_threshold validate_weight reject_if lit.

Lemma validate_ranking_spec r : validate_ranking r = Ok tt <-> r = supported_ranking.
Proof.
  destruct r as [a1 a2 a3 a4 a5 a6 a7 a8 a9]. unfold validate_ranking. rewrite !bind_unit.
  cbn [a_primary_comparator a_version_comparator b_exact_comparator c_semantic_comparator source_folding_version
    channel_score_quantization_version channel_rank_comparator pre_rerank_rrf_comparator quota_semantics_version].
  rewrite !supported_values_spec, !supported_identity_spec. unfold supported_ranking.
  split; [by intros (-> & -> & -> & -> & -> & -> & -> & -> & ->)|]. intros [= -> -> -> -> -> -> -> -> ->]. done.
Qed.

Lemma validate_keyword_spec k : validate_keyword k = Ok tt <->
  1 <= kw_top_k k <= 1000000 /\ kw_threshold_millionths k <= 1000000
  /\ k = {| kw_tokenizer := RETRIEVAL_KEYWORD_TOKENIZER_V2; kw_tokenizer_version := RETRIEVAL_KEYWORD_TOKENIZER_VERSION_V2;
            kw_score_version := RETRIEVAL_KEYWORD_SCORE_VERSION_V2; kw_top_k := kw_top_k k;
            kw_threshold_millionths := kw_threshold_millionths k |}.
Proof.
  destruct k as [a b c d e]. unfold validate_keyword. rewrite !bind_unit, !supported_identity_spec, validate_top_k_spec,
    validate_threshold_spec. cbn. split; [by intros (-> & -> & -> & H1 & H2)|]. by intros (H1 & H2 & [= -> -> ->]).
Qed.

Lemma validate_embedding_spec e : validate_embedding e = Ok tt <->
  sha256_text (ep_model_revision_sha256 e) /\ 1 <= ep_top_k e <= 1000000 /\ ep_threshold_millionths e <= 1000000
  /\ e = {| ep_policy := RETRIEVAL_EMBEDDING_POLICY_V2; ep_policy_version := RETRIEVAL_EMBEDDING_POLICY_VERSION_V2;
            ep_similarity_version := RETRIEVAL_EMBEDDING_SIMILARITY_VERSION_V2;
            ep_model_revision_sha256 := ep_model_revision_sha256 e; ep_top_k := ep_top_k e;
            ep_threshold_millionths := ep_threshold_millionths e |}.
Proof.
  destruct e as [a b c d e f]. unfold validate_embedding. rewrite !bind_unit, !supported_identity_spec, validate_sha256_spec,
    validate_top_k_spec, validate_threshold_spec. cbn.
  split; [by intros (-> & -> & -> & H1 & H2 & H3)|]. by intros (H1 & H2 & H3 & [= -> -> ->]).
Qed.

Lemma validate_rrf_spec r : validate_rrf r = Ok tt <->
  1 <= rrf_k r <= 1000000 /\ 1 <= keyword_weight_millionths r <= 1000000000
  /\ 1 <= vector_weight_millionths r <= 1000000000
  /\ r = {| rrf_k := rrf_k r; keyword_weight_millionths := keyword_weight_millionths r;
            vector_weight_millionths := vector_weight_millionths r;
            score_representation_version := RETRIEVAL_RRF_SCORE_REPRESENTATION_VERSION_V2 |}.
Proof.
  destruct r as [a b c d]. unfold validate_rrf. rewrite !bind_unit, !validate_weight_spec, supported_identity_spec, reject_if_Ok,
    orb_false_iff, N.eqb_neq, N.ltb_ge. unfold RETRIEVAL_POLICY_MAX_RRF_K. cbn [rrf_k keyword_weight_millionths
    vector_weight_millionths score_representation_version].
  split; [intros (H1 & H2 & H3 & ->); split; [lia|done]|]. intros (H1 & H2 & H3 & [= ->]). split; [lia|done].
Qed.

Lemma validate_rerank_spec r : validate_rerank r = Ok tt <->
  sha256_text (rp_revision_sha256 r) /\ sha256_text (rp_model_revision_sha256 r)
  /\ sha256_text (rp_config_revision_sha256 r) /\ 1 <= rp_top_k r <= 1000000 /\ 1 <= rp_timeout_ms r <= 3600000
  /\ r = {| rp_provider_protocol_version := RETRIEVAL_RERANK_PROTOCOL_VERSION_V2;
            rp_revision_sha256 := rp_revision_sha256 r; rp_model_revision_sha256 := rp_model_revision_sha256 r;
            rp_config_revision_sha256 := rp_config_revision_sha256 r; rp_top_k := rp_top_k r;
            rp_timeout_ms := rp_timeout_ms r;
            rp_score_normalization_version := RETRIEVAL_RERANK_SCORE_NORMALIZATION_VERSION_V2 |}.
Proof.
  destruct r as [a b c d e f g]. unfold validate_rerank. rewrite !bind_unit, !supported_identity_spec, !validate_sha256_spec,
    validate_top_k_spec, reject_if_Ok, orb_false_iff, N.eqb_neq, N.ltb_ge. unfold RETRIEVAL_POLICY_MAX_TIMEOUT_MS.
  cbn [rp_provider_protocol_version rp_revision_sha256 rp_model_revision_sha256 rp_config_revision_sha256 rp_top_k
    rp_timeout_ms rp_score_normalization_version].
  split; [intros (-> & H1 & H2 & H3 & H4 & H5 & ->); repeat split; lia || apply H1 || apply H2 || apply H3|].
  intros (H1 & H2 & H3 & H4 & H5 & [= -> ->]). do 5 (split; [done|]). split; [lia|done].
Qed.

Lemma validate_quotas_spec q : validate_quotas q = Ok tt <->
  1 <= rq_max_hits q <= 1000000 /\ 1 <= rq_max_chunk_bytes q <= 1073741824 /\ 1 <= rq_max_total_bytes q <= 1099511627776.
Proof.
  unfold validate_quotas, RETRIEVAL_POLICY_MAX_HITS, RETRIEVAL_POLICY_MAX_CHUNK_BYTES, RETRIEVAL_POLICY_MAX_TOTAL_BYTES.
  rewrite reject_if_Ok, !orb_false_iff, !N.eqb_neq, !N.ltb_ge. lia.
Qed.

(** The policies the registry accepts ([RetrievalPolicyV2::validate]): exactly those that
    pin every version, comparator and trusted type to the one the code implements and choose
    the sixteen numbers and digests of [PolicyChoices] within their bounds; two accepted
    policies with the same choices are the same policy. *)
Theorem validate_policy_exact p :
  validate_policy p = Ok tt <-> choices_ok (choices_of p) /\ p = policy_of (choices_of p).
Proof.
  unfold validate_policy. rewrite !bind_unit, validate_ranking_spec, validate_keyword_spec, validate_embedding_spec,
    validate_rrf_spec, validate_rerank_spec, validate_quotas_spec, supported_identity_spec, supported_values_spec,
    !reject_if_Ok, !negb_false_iff, N.eqb_eq, str_eqb_spec.
  destruct p as [sv cv nv ts rk kw em rf rr rq]. unfold choices_ok, choices_of, policy_of.
  cbn [pol_schema_version pol_contract_version pol_normalization_version trusted_source_types ranking keyword embedding
    rrf rerank request_quotas ch_keyword_top_k ch_keyword_threshold ch_embedding_revision ch_embedding_top_k
    ch_embedding_threshold ch_rrf_k ch_keyword_weight ch_vector_weight ch_rerank_revision ch_rerank_model
    ch_rerank_config ch_rerank_top_k ch_timeout_ms ch_max_hits ch_max_chunk_bytes ch_max_total_bytes].
  assert (rq = {| rq_max_hits := rq_max_hits rq; rq_max_chunk_bytes := rq_max_chunk_bytes rq;
                  rq_max_total_bytes := rq_max_total_bytes rq |}) as Hq by (by destruct rq).
  split.
  - intros (-> & -> & -> & -> & -> & (K1 & K2 & ->) & (E1 & E2 & E3 & ->) & (R1 & R2 & R3 & ->)
      & (S1 & S2 & S3 & S4 & S5 & ->) & (Q1 & Q2 & Q3)). split; [tauto|]. by rewrite Hq at 1.
  - intros [H [= -> -> -> -> -> Hk He Hr Hs _]]. tauto.
Qed.

(** An accepted policy is within the bounds under which the fused scores are exact. *)
Lemma accepted_policy_numbers p : validate_policy p = Ok tt ->
  u32_number (rrf_k (rrf p)) /\ u32_number (keyword_weight_millionths (rrf p))
  /\ u32_number (vector_weight_millionths (rrf p)) /\ u32_number (rp_top_k (rerank p)) /\ 0 < rrf_k (rrf p).
Proof.
  intros [(_ & _ & _ & _ & _ & Hk & Hkw & Hvw & _ & _ & _ & Ht & _) _]%validate_policy_exact.
  cbn [choices_of ch_rrf_k ch_keyword_weight ch_vector_weight ch_rerank_top_k] in *. unfold u32_number. lia.
Qed.

(** ** The frozen identity of a request *)

Lemma map_err_Ok {E F A} (f : E -> F) (r : result E A) a : map_err f r = Ok a <-> r = Ok a.
Proof. destruct r; cbn; split; intros H; try done; by injection H as ->. Qed.

Lemma unsorted_pair_spec ids : unsorted_pair ids = false <-> StronglySorted N.lt ids.
Proof.
  induction ids as [|a ids IH]; [split; [constructor|done]|]. destruct ids as [|b ids].
  - split; [repeat constructor|done].
  - change (unsorted_pair (a :: b :: ids)) with ((b <=? a) || unsorted_pair (b :: ids)).
    rewrite orb_false_iff, IH, N.leb_gt. split.
    + intros [Hab Hs]. constructor; [done|]. inversion_clear Hs as [|? ? Hs' Hb]. constructor; [done|].
      eapply Forall_impl; [exact Hb|]. intros x Hx. cbv beta in Hx. lia.
    + intros Hs. inversion_clear Hs as [|? ? Hs' Ha]. split; [by apply Forall_inv in Ha|done].
Qed.

Section frozen.
Context (sha256_hex : list Z -> str) (embedding_json : EmbeddingRevisionV2 -> result str (list Z)).
Context (rerank_json : RerankRevisionV2 -> result str (list Z)) (policy_json : RetrievalPolicyV2 -> result str (list Z)).
Context (parse_policy : str -> result str RetrievalPolicyV2) (parse_embedding : str -> result str EmbeddingRevisionV2).
Context (parse_rerank : str -> result str RerankRevisionV2) (scope_jcs : list N -> list N -> result str (list Z)).

Notation frozen_validate := (frozen_validate sha256_hex embedding_json rerank_json policy_json parse_policy
  parse_embedding parse_rerank scope_jcs).
Notation request_identity := (request_identity sha256_hex policy_json).

(** The artifacts an accepted identity names, and what ties them to it. *)
Record frozen_ok (f : FrozenRetrievalPolicyIdentityV1) (identity : RetrievalPolicyIdentityV1)
    (policy : RetrievalPolicyV2) (em : EmbeddingRevisionV2) (re : RerankRevisionV2) : Prop := {
  fo_schema : fz_schema_version f = 1;
  fo_mode : fz_mode f = u8"exact";
  fo_policy : parse_policy (canonical_policy_utf8 f) = Ok policy;
  fo_embedding : parse_embedding (canonical_embedding_revision_utf8 f) = Ok em;
  fo_rerank : parse_rerank (canonical_rerank_revision_utf8 f) = Ok re;
  fo_identity : request_identity policy = Ok identity;
  fo_frozen : identity = {| contract_version := fz_contract_version f; policy_sha256 := fz_policy_sha256 f;
                            max_hits := fz_max_hits f; max_chunk_bytes := fz_max_chunk_bytes f;
                            max_total_bytes := fz_max_total_bytes f |};
  fo_embedding_digest : embedding_sha256 sha256_hex embedding_json em = Ok (embedding_revision_sha256 f);
  fo_embedding_policy : embedding_revision_sha256 f = ep_model_revision_sha256 (embedding policy);
  fo_embedding_credential : embedding_credential_ref f <> [];
  fo_rerank_digest : rerank_sha256 sha256_hex rerank_json re = Ok (rerank_revision_sha256 f);
  fo_rerank_policy : rerank_revision_sha256 f = rp_revision_sha256 (rerank policy);
  fo_rerank_credential : rerank_credential_ref f <> [];
  fo_products : StronglySorted N.lt (fz_product_version_ids f);
  fo_libraries : StronglySorted N.lt (fz_library_version_ids f);
  fo_scope : eligible_scope_sha256_for sha256_hex scope_jcs (fz_product_version_ids f) (fz_library_version_ids f)
             = Ok (eligible_scope_sha256 f);
}.

#[local] Opaque validate_policy retrieval_policy_sha256 embedding_sha256 rerank_sha256 eligible_scope_sha256_for.

Lemma policy_digest_valid policy digest :
  retrieval_policy_sha256 sha256_hex policy_json policy = Ok digest -> validate_policy policy = Ok tt.
Proof.
  Transparent retrieval_policy_sha256. unfold retrieval_policy_sha256, policy_canonical_bytes. rewrite bind_Ok.
  intros (bytes & H & _). by apply bind_unit in H as [H _].
Qed.

Lemma frozen_validate_sound f identity : frozen_validate f = Ok identity ->
  exists policy em re, frozen_ok f identity policy em re.
Proof.
  unfold Policy.frozen_validate. rewrite bind_check, orb_false_iff, !negb_false_iff, N.eqb_eq, str_eqb_spec.
  intros [[Hs Hm] H]. apply bind_Ok in H as (policy & Hp%map_err_Ok & H).
  rewrite bind_unit in H. destruct H as [Hv%map_err_Ok H].
  apply bind_Ok in H as (digest & Hd%map_err_Ok & H).
  rewrite bind_check, !orb_false_iff, !negb_false_iff, !str_eqb_spec, !N.eqb_eq in H.
  destruct H as [[[[[-> Hc] Hh] Hcb] Htb] H].
  apply bind_Ok in H as (em & He%map_err_Ok & H). apply bind_Ok in H as (edigest & Hed%map_err_Ok & H).
  rewrite bind_check, !orb_false_iff, !negb_false_iff, !str_eqb_spec, str_is_empty_false in H.
  destruct H as [[[-> Hep] Hec] H].
  apply bind_Ok in H as (re & Hr%map_err_Ok & H). apply bind_Ok in H as (rdigest & Hrd%map_err_Ok & H).
  rewrite bind_check, !orb_false_iff, !negb_false_iff, !str_eqb_spec, str_is_empty_false in H.
  destruct H as [[[-> Hrp] Hrc] H]. rewrite bind_check, orb_false_iff, !unsorted_pair_spec in H.
  destruct H as [[Hps Hls] H]. apply bind_Ok in H as (scope & Hscope & H).
  rewrite bind_check, negb_false_iff, str_eqb_spec in H. destruct H as [-> [= <-]].
  exists policy, em, re. constructor; try done.
  unfold Policy.request_identity. rewrite Hd. change (Ok ?x ≫= ?k) with (k x). cbv beta. by rewrite Hc, Hh, Hcb, Htb.
Qed.

Lemma frozen_validate_complete f identity policy em re :
  frozen_ok f identity policy em re -> frozen_validate f = Ok identity.
Proof.
  intros [Hs Hm Hp He Hr Hi Hf Hed Hep Hec Hrd Hrp Hrc Hps Hls Hscope]. unfold Policy.frozen_validate.
  unfold Policy.request_identity in Hi. apply bind_Ok in Hi as (digest & Hd & Hi).
  rewrite Hf in Hi. injection Hi as Ec Edg Eh Ecb Etb.
  rewrite bind_check, orb_false_iff, !negb_false_iff, N.eqb_eq, str_eqb_spec. split; [done|].
  rewrite Hp. apply bind_Ok. exists policy. split; [done|]. rewrite bind_unit, map_err_Ok.
  split; [by eapply policy_digest_valid|]. apply bind_Ok. exists digest. split; [by rewrite Hd|].
  rewrite bind_check, !orb_false_iff, !negb_false_iff, !str_eqb_spec, !N.eqb_eq. split; [done|].
  apply bind_Ok. exists em. split; [by rewrite He|]. apply bind_Ok. exists (embedding_revision_sha256 f).
  split; [by rewrite Hed|]. rewrite bind_check, !orb_false_iff, !negb_false_iff, !str_eqb_spec, str_is_empty_false.
  split; [done|]. apply bind_Ok. exists re. split; [by rewrite Hr|]. apply bind_Ok.
  exists (rerank_revision_sha256 f). split; [by rewrite Hrd|].
  rewrite bind_check, !orb_false_iff, !negb_false_iff, !str_eqb_spec, str_is_empty_false. split; [done|].
  rewrite bind_check, orb_false_iff, !unsorted_pair_spec. split; [done|]. apply bind_Ok.
  exists (eligible_scope_sha256 f). split; [done|]. rewrite bind_check, negb_false_iff, str_eqb_spec.
  split; [done|]. by rewrite Hf.
Qed.

(** C20: The frozen identity of a request ([FrozenRetrievalPolicyIdentityV1::validate]): it is
    accepted exactly when its three artifacts read back, the policy derives the very identity
    and quotas the request was frozen with ([request_identity]), the embedding and rerank
    revisions are valid and have the digests the policy names, and the version lists are
    strictly increasing and have the frozen scope digest.  Under an accepted identity every
    candidate with ranks of 32 bits has its exact fused score; no 128-bit operation of the
    ranking overflows. *)
Theorem frozen_validate_exact f :
  (forall identity, frozen_validate f = Ok identity <-> exists policy em re, frozen_ok f identity policy em re)
  /\ (forall identity policy em re v k, frozen_ok f identity policy em re ->
      is_Some v \/ is_Some k -> (forall r, v = Some r \/ k = Some r -> u32_number r) ->
      exists s, rrf_score (rrf policy) v k = Some (Ok s) /\ reduced s
      /\ Qeq (rational_value s)
           (channel_value (vector_weight_millionths (rrf policy)) (rrf_k (rrf policy)) v
            + channel_value (keyword_weight_millionths (rrf policy)) (rrf_k (rrf policy)) k)).
Proof.
  split.
  - intros identity. split; [apply frozen_validate_sound|]. intros (policy & em & re & H).
    by eapply frozen_validate_complete.
  - intros identity policy em re v k [_ _ _ _ _ Hi _ _ _ _ _ _ _ _ _ _] Hsome Hr.
    unfold Policy.request_identity in Hi. apply bind_Ok in Hi as (digest & Hd%policy_digest_valid & _).
    destruct (accepted_policy_numbers policy Hd) as (Hk & Hkw & Hvw & _ & Hpos).
    apply rrf_score_value; [done..| |done]. intros r E. split; [by apply Hr|lia].
Qed.

End frozen.

(** ** A concrete request *)

Definition demo_embedding_revision : EmbeddingRevisionV2 := {|
  em_schema_version := 2; em_provider_protocol_version := EMBEDDING_PROVIDER_PROTOCOL_VERSION_V2;
  em_provider_model_identifier := u8"bge/m3@2024-02-29"; em_provider_model_revision_sha256 := replicate 64 101%Z;
  em_endpoint_config_sha256 := replicate 64 102%Z; em_endpoint_identity := u8"https://embed.example/v1/embeddings";
  em_dimension := 1024; em_request_config_sha256 := EMBEDDING_REQUEST_CONFIG_SHA256_V2;
  em_output_normalization_version := EMBEDDING_OUTPUT_NORMALIZATION_VERSION_V2;
|}.

Definition demo_frozen : FrozenRetrievalPolicyIdentityV1 := {|
  fz_schema_version := 1; fz_policy_sha256 := replicate 64 48%Z; canonical_policy_utf8 := u8"{policy}";
  fz_contract_version := KNOWLEDGE_EVIDENCE_CONTRACT_V2; fz_mode := u8"exact"; fz_max_hits := 20;
  fz_max_chunk_bytes := 65536; fz_max_total_bytes := 1048576;
  embedding_revision_sha256 := replicate 64 97%Z; canonical_embedding_revision_utf8 := u8"{embedding}";
  embedding_credential_ref := u8"env:EMBED_KEY"; rerank_revision_sha256 := replicate 64 98%Z;
  canonical_rerank_revision_utf8 := u8"{rerank}"; rerank_credential_ref := u8"env:RERANK_KEY";
  fz_product_version_ids := [3; 7]; fz_library_version_ids := []; eligible_scope_sha256 := replicate 64 49%Z;
|}.

(** A digest that tells the four artifacts apart. *)
Definition demo_artifact_sha (bytes : list Z) : str := replicate 64 (default 0%Z (head bytes)).

Notation demo_frozen_validate := (frozen_validate demo_artifact_sha (fun _ => Ok [97]%Z) (fun _ => Ok [98]%Z) (fun _ => Ok [48]%Z)
  (fun _ => Ok demo_retrieval_policy) (fun _ => Ok demo_embedding_revision) (fun _ => Ok demo_rerank_revision)
  (fun _ _ => Ok [49]%Z)).

Lemma frozen_validate_exact_witness :
  exists identity, demo_frozen_validate demo_frozen = Ok identity /\ policy_sha256 identity = replicate 64 48%Z
  /\ exists s, rrf_score (rrf demo_retrieval_policy) (Some 1) (Some 2) = Some (Ok s) /\ reduced s.
Proof.
  eexists. split; [vm_compute; reflexivity|]. split; [reflexivity|].
  destruct (frozen_validate_exact demo_artifact_sha (fun _ => Ok [97]%Z) (fun _ => Ok [98]%Z) (fun _ => Ok [48]%Z)
    (fun _ => Ok demo_retrieval_policy) (fun _ => Ok demo_embedding_revision) (fun _ => Ok demo_rerank_revision)
    (fun _ _ => Ok [49]%Z) demo_frozen) as [H1 H2].
  destruct (proj1 (H1 _) ltac:(vm_compute; reflexivity)) as (policy & em & re & H).
  pose proof (f_equal (fun r => match r with Ok p => p | Err _ => policy end) (fo_policy _ _ _ _ _ _ _ _ _ _ _ _ _ H)) as E.
  cbv beta iota in E. subst policy.
  destruct (H2 _ _ _ _ (Some 1) (Some 2) H) as (s & Hs & Hr & _); [left; by exists 1| |exists s; split; [exact Hs|exact Hr]].
  intros r [[= <-]|[= <-]]; done.
Defined.
