(* ===== verification/Providers.v ===== *)
(** * The clients of the model providers

    [crates/knowledge/src/knowledge_retrieval_pg/http_v2.rs] (bodies read within a limit),
    [crates/knowledge/src/knowledge_index_v2.rs] (document vectors, batch by batch),
    [semantic_v2.rs] (the vector of a query) and [rerank_v2.rs] (the call around
    [apply_response]).

    A server is a function from the calls it has seen and the next call to its reply: an error
    text, or a status with the declared length and the pieces of the body as they arrive.  A
    client answers with the calls it has made and its result, so the theorems speak about what
    leaves the process as well.  Lengths are [N]. *)
From S2P Require Import Prelude RustStr RustFloat Batches Policy Order Rank Recall Selection Evidence.

Local Open Scope N_scope.

(** ** Bodies within a limit: [http_v2.rs] *)

Definition STRICT_V2_MAX_RESPONSE_BYTES : N := 67108864.

(** What [reqwest] hands out: [status()], [content_length()] and the results of [chunk()]. *)
Record HttpResponse := {
  status : N; content_length : option N; body_chunks : list (result str (list Z));
}.

Record BoundedResponseBodyV2 := { bb_status : N; bb_content_length : option N; bb_bytes : list Z }.

Inductive BoundedBodyErrorV2 := TooLarge | Transport (error : str).

Definition len {A} (l : list A) : N := N.of_nat (length l).

(** [o.is_some_and(|length| length > limit)] *)
Definition declared_above (declared : option N) (limit : N) : bool :=
  match declared with Some length => limit <? length | None => false end.

(** The loop over [response.chunk()]. *)
Fixpoint read_chunks (limit : N) (bytes : list Z) (chunks : list (result str (list Z)))
    : result BoundedBodyErrorV2 (list Z) :=
  match chunks with
  | [] => Ok bytes
  | Err error :: _ => Err (Transport error)
  | Ok chunk :: chunks =>
    if limit - len bytes <? len chunk then Err TooLarge else read_chunks limit (bytes ++ chunk) chunks
  end.

Definition read_bounded_response_body_v2 (response : HttpResponse) (limit : N)
    : result BoundedBodyErrorV2 BoundedResponseBodyV2 :=
  _ ← reject_if (declared_above (content_length response) limit) TooLarge;
  bytes ← read_chunks limit [] (body_chunks response);
  Ok {| bb_status := status response; bb_content_length := content_length response; bb_bytes := bytes |}.

(** ** Calls *)

(** The request of an embedding provider: address, bearer token and JSON body. *)
Record EmbeddingCall := {
  ec_endpoint : str; ec_bearer : str; ec_model : str; ec_input : list str; ec_dimensions : N;
  ec_request_config_sha256 : str;
}.

(** The request of a rerank provider. *)
Record RerankCall := {
  rc_endpoint : str; rc_timeout_ms : N; rc_bearer : str; rc_model : str; rc_query : str; rc_documents : list str;
}.

(** A credential registry: the trait [EmbeddingCredentialResolverV2] of either client. *)
Class CredentialResolver (E : Type) := resolve : str -> result E str.

(** [env:VARIABLE_NAME] *)
Definition ENV_PREFIX : str := u8"env:".
Definition env_name_byte (b : Z) : bool := is_ascii_uppercase b || is_ascii_digit b || (b =? 95)%Z.
Definition bad_env_name (variable : str) : bool :=
  str_is_empty variable || (128 <? blen variable)%nat || negb (forallb env_name_byte (as_bytes variable)).

(** ** Document vectors: [knowledge_index_v2.rs] *)

Definition VECTOR_INDEX_DIMENSION_V2 : nat := 1024.
Definition VECTOR_EMBEDDING_BATCH_MAX_INPUTS_V2 : nat := 64.
Definition VECTOR_EMBEDDING_MAX_VERSION_INPUTS_V2 : N := 16384.
Definition VECTOR_EMBEDDING_MAX_INPUT_BYTES_V2 : N := 1048576.
Definition VECTOR_EMBEDDING_MAX_REQUEST_BYTES_V2 : N := 8388608.
Definition VECTOR_EMBEDDING_MAX_BATCH_RESPONSE_BYTES_V2 : N := 67108864.
Definition VECTOR_EMBEDDING_MAX_TOTAL_RESPONSE_BYTES_V2 : N := 268435456.

Inductive VectorIndexErrorV2 :=
| VInvalidConfiguration (m : str) | VUnavailable (m : str) | VPendingDerived (m : str)
| VSnapshotChanged (m : str) | VDatabase (error : str).

Definition retryable (e : VectorIndexErrorV2) : bool :=
  match e with VUnavailable _ | VPendingDerived _ | VSnapshotChanged _ => true | _ => false end.

Record VectorEmbeddingInputV2 := { vi_chunk_id : N; vi_canonical_input : str; vi_indexed_content_sha256 : str }.

Record EmbeddingBatchResponseV2 := {
  er_data : list (nat * list f32); er_model : str; er_model_revision_sha256 : str; er_request_config_sha256 : str;
}.

(** The process environment: the variables that are set to Unicode text. *)
#[global] Instance EnvironmentVectorCredentials (env : str -> option str) : CredentialResolver VectorIndexErrorV2 :=
  fun credential_ref =>
  match strip_prefix credential_ref ENV_PREFIX with
  | None => Err (VInvalidConfiguration (u8"embedding credential reference must use env:<VARIABLE_NAME>"))
  | Some variable =>
    _ ← reject_if (bad_env_name variable)
          (VInvalidConfiguration (u8"embedding credential environment reference is invalid"));
    ok_or (value ← env variable; if str_is_empty value then None else Some value)
      (VInvalidConfiguration (u8"embedding credential reference is not configured"))
  end.

Definition E_BYTE_LIMIT : str := u8"embedding provider response exceeds byte limit".

(** [ReqwestVectorEmbeddingTransportV2::send] after the reply has come. *)
Definition received (max_response_bytes : N) (reply : result str HttpResponse)
    : result VectorIndexErrorV2 BoundedResponseBodyV2 :=
  response ← map_err (fun error => VUnavailable (u8"embedding provider request failed: " ++ error)) reply;
  map_err (fun error => VUnavailable (match error with
                                      | TooLarge => E_BYTE_LIMIT
                                      | Transport error => u8"embedding provider response failed: " ++ error
                                      end))
    (read_bounded_response_body_v2 response max_response_bytes).

Definition validate_vector (vector : list f32) : result VectorIndexErrorV2 unit :=
  reject_if (negb (length vector =? VECTOR_INDEX_DIMENSION_V2)%nat
             || existsb (fun component => negb (is_finite component)) vector
             || forallb is_zero vector)
    (VUnavailable (u8"embedding provider returned an invalid vector")).

Definition read_vector (vector : list f32) : result VectorIndexErrorV2 (list f32) :=
  _ ← validate_vector vector; Ok vector.

Section index_client.

(** [hex::encode(Sha256::digest(_))], [serde_json] for a response, [StatusCode]'s [Display]. *)
Context (sha256_hex : list Z -> str).
Context (parse_batch : list Z -> result str EmbeddingBatchResponseV2).
Context (status_text : N -> str).

Definition canonical_sha256 (value : str) : str := sha256_hex (as_bytes value).

Definition provider_status_error (status : N) : VectorIndexErrorV2 :=
  let message := u8"embedding provider returned status " ++ status_text status in
  if (status =? 408) || (status =? 429) || is_server_error status then VUnavailable message
  else VInvalidConfiguration message.

(** The body of the loop over the inputs. *)
Definition bound_step (st : N * gset N) (input : VectorEmbeddingInputV2) : result VectorIndexErrorV2 (N * gset N) :=
  let '(total, ids) := st in
  let bytes := N.of_nat (blen (vi_canonical_input input)) in
  _ ← reject_if (VECTOR_EMBEDDING_MAX_INPUT_BYTES_V2 <? bytes)
        (VInvalidConfiguration (u8"embedding input exceeds per-input byte bound"));
  total ← ok_or (u64_checked_add total bytes) (VInvalidConfiguration (u8"embedding input byte count overflow"));
  _ ← reject_if (VECTOR_EMBEDDING_MAX_REQUEST_BYTES_V2 <? total)
        (VInvalidConfiguration (u8"embedding inputs exceed request byte bound"));
  _ ← reject_if (bool_decide (vi_chunk_id input ∈ ids))
        (VInvalidConfiguration (u8"embedding inputs contain duplicate chunk identity"));
  _ ← reject_if (negb (str_eqb (canonical_sha256 (vi_canonical_input input)) (vi_indexed_content_sha256 input)))
        (VInvalidConfiguration (u8"embedding input digest mismatch"));
  Ok (total, {[vi_chunk_id input]} ∪ ids).

Definition validate_input_bounds (inputs : list VectorEmbeddingInputV2) : result VectorIndexErrorV2 unit :=
  _ ← reject_if (VECTOR_EMBEDDING_MAX_VERSION_INPUTS_V2 <? len inputs)
        (VInvalidConfiguration (u8"embedding input count exceeds absolute bound"));
  _ ← foldR bound_step (0, ∅) inputs;
  Ok tt.

Definition response_identity_differs (response : EmbeddingBatchResponseV2) (revision : EmbeddingRevisionV2) : bool :=
  negb (str_eqb (er_model response) (em_provider_model_identifier revision))
  || negb (str_eqb (er_model_revision_sha256 response) (em_provider_model_revision_sha256 revision))
  || negb (str_eqb (er_request_config_sha256 response) (em_request_config_sha256 revision)).

Definition parse_batch_response (bytes : list Z) (revision : EmbeddingRevisionV2) (expected_count : nat)
    : result VectorIndexErrorV2 (list (list f32)) :=
  response ← map_err (fun error => VUnavailable (u8"invalid embedding provider JSON: " ++ error)) (parse_batch bytes);
  _ ← reject_if (response_identity_differs response revision)
        (VInvalidConfiguration (u8"embedding provider response identity mismatch"));
  _ ← reject_if (negb (length (er_data response) =? expected_count)%nat)
        (VUnavailable (u8"embedding provider response is partial or oversized"));
  ordered ← fill_slots read_vector
              (VUnavailable (u8"embedding provider response index is duplicate or out of range"))
              expected_count (er_data response);
  ok_or (mapM id ordered) (VUnavailable (u8"embedding provider response is missing an input index")).

(** What [embed_batch] does with the response to one batch: its vectors and the bytes so far. *)
Definition absorb (revision : EmbeddingRevisionV2) (expected_count : nat) (total_response_bytes : N)
    (response : BoundedResponseBodyV2) : result VectorIndexErrorV2 (list (list f32) * N) :=
  _ ← reject_if (negb (is_success (bb_status response))) (provider_status_error (bb_status response));
  _ ← reject_if (declared_above (bb_content_length response) VECTOR_EMBEDDING_MAX_BATCH_RESPONSE_BYTES_V2
                 || (VECTOR_EMBEDDING_MAX_BATCH_RESPONSE_BYTES_V2 <? len (bb_bytes response)))
        (VUnavailable E_BYTE_LIMIT);
  total_response_bytes ← ok_or (u64_checked_add total_response_bytes (len (bb_bytes response)))
        (VUnavailable (u8"embedding provider response byte count overflow"));
  _ ← reject_if (VECTOR_EMBEDDING_MAX_TOTAL_RESPONSE_BYTES_V2 <? total_response_bytes)
        (VUnavailable (u8"embedding provider version response exceeds byte limit"));
  vectors ← parse_batch_response (bb_bytes response) revision expected_count;
  Ok (vectors, total_response_bytes).

Definition batch_call (revision : EmbeddingRevisionV2) (credential : str) (batch : list VectorEmbeddingInputV2)
    : EmbeddingCall := {|
  ec_endpoint := em_endpoint_identity revision; ec_bearer := credential;
  ec_model := em_provider_model_identifier revision; ec_input := map vi_canonical_input batch;
  ec_dimensions := N.of_nat VECTOR_INDEX_DIMENSION_V2;
  ec_request_config_sha256 := em_request_config_sha256 revision;
|}.

Context (server : list EmbeddingCall -> EmbeddingCall -> result str HttpResponse).

(** The loop over the batches: the calls made, and the vectors or the first error. *)
Fixpoint embed_loop (revision : EmbeddingRevisionV2) (credential : str) (calls : list EmbeddingCall)
    (total_response_bytes : N) (embeddings : list (list f32)) (batches : list (list VectorEmbeddingInputV2))
    : list EmbeddingCall * result VectorIndexErrorV2 (list (list f32)) :=
  match batches with
  | [] => (calls, Ok embeddings)
  | batch :: batches =>
    let call := batch_call revision credential batch in
    match (response ← received VECTOR_EMBEDDING_MAX_BATCH_RESPONSE_BYTES_V2 (server calls call);
           absorb revision (length batch) total_response_bytes response) with
    | Err e => (calls ++ [call], Err e)
    | Ok (vectors, total_response_bytes) =>
      embed_loop revision credential (calls ++ [call]) total_response_bytes (embeddings ++ vectors) batches
    end
  end.

Context `{Resolver : CredentialResolver VectorIndexErrorV2}.

(** The checks before the first call; [None] when there is nothing to embed. *)
Definition embed_credential (revision : EmbeddingRevisionV2) (credential_ref : str)
    (inputs : list VectorEmbeddingInputV2) : result VectorIndexErrorV2 (option str) :=
  _ ← map_err (fun error => VInvalidConfiguration (u8"invalid embedding revision: " ++ show_embedding_error error))
        (validate_embedding_revision revision);
  _ ← reject_if (negb (starts_with (em_endpoint_identity revision) HTTPS))
        (VInvalidConfiguration (u8"embedding endpoint must use https"));
  match inputs with
  | [] => Ok None
  | _ =>
    _ ← validate_input_bounds inputs;
    credential ← resolve credential_ref;
    _ ← reject_if (str_is_empty credential)
          (VInvalidConfiguration (u8"embedding credential resolution returned an empty credential"));
    Ok (Some credential)
  end.

Definition embed_batch (revision : EmbeddingRevisionV2) (credential_ref : str)
    (inputs : list VectorEmbeddingInputV2) : list EmbeddingCall * result VectorIndexErrorV2 (list (list f32)) :=
  match embed_credential revision credential_ref inputs with
  | Err e => ([], Err e)
  | Ok None => ([], Ok [])
  | Ok (Some credential) =>
    let '(calls, answer) :=
      embed_loop revision credential [] 0 [] (chunks_of VECTOR_EMBEDDING_BATCH_MAX_INPUTS_V2 inputs) in
    (calls, embeddings ← answer;
            _ ← reject_if (negb (length embeddings =? length inputs)%nat)
                  (VUnavailable (u8"embedding provider returned partial batch output"));
            Ok embeddings)
  end.

End index_client.

(** ** The vector of a query: [semantic_v2.rs] *)

Record QueryEmbeddingV2 := { qe_revision_sha256 : str; qe_values : list f32 }.

Record ValidatedSemanticPolicyV2 := {
  v_policy : RetrievalPolicyV2; v_revision : EmbeddingRevisionV2; v_credential_ref : str;
}.

Definition invalid_request (message : str) : KnowledgeRetrievalError := InvalidRequest message.

#[global] Instance EnvironmentEmbeddingCredentials (env : str -> option str)
    : CredentialResolver KnowledgeRetrievalError :=
  fun credential_ref =>
  variable ← ok_or (strip_prefix credential_ref ENV_PREFIX)
               (invalid_request (u8"embedding/rerank credential reference must use env:<VARIABLE_NAME>"));
  _ ← reject_if (bad_env_name variable) (invalid_request (u8"embedding/rerank credential environment name is invalid"));
  ok_or (env variable) (integrity (u8"embedding/rerank credential is unavailable")).

(** The errors a resolver may return are passed on. *)
Definition resolver_error (error : KnowledgeRetrievalError) : KnowledgeRetrievalError :=
  match error with
  | InvalidRequest _ | Unavailable _ | PolicyRevoked _ | DigestMismatch _ => error
  | QuotaExceeded _ | InvalidHit _ => invalid_request (u8"embedding credential resolver returned an invalid error variant")
  end.

(** [values.map(|v| f64::from(v) * f64::from(v)).sum()] *)
Definition square_norm (values : list f32) : f64 :=
  fold_left (fun acc value => f64_add acc (f64_mul (f64_from_f32 value) (f64_from_f32 value))) values (S754_zero false).

Definition validate_query_embedding_values (embedding : QueryEmbeddingV2) : result KnowledgeRetrievalError unit :=
  _ ← reject_if (negb (length (qe_values embedding) =? VECTOR_INDEX_DIMENSION_V2)%nat)
        (invalid_request (u8"query embedding dimension must be exactly 1024"));
  _ ← reject_if (existsb (fun value => negb (is_finite value)) (qe_values embedding))
        (invalid_request (u8"query embedding contains a non-finite value"));
  let norm := square_norm (qe_values embedding) in
  reject_if (negb (is_finite norm) || is_zero norm) (invalid_request (u8"query embedding must have a finite non-zero norm")).

Definition validate_query_embedding (query_embedding : QueryEmbeddingV2) (policy : RetrievalPolicyV2)
    : result KnowledgeRetrievalError unit :=
  _ ← reject_if (negb (str_eqb (qe_revision_sha256 query_embedding) (ep_model_revision_sha256 (embedding policy))))
        (invalid_request (u8"query embedding revision does not match policy"));
  validate_query_embedding_values query_embedding.

(** The reply to a call that is made once: the status is looked at before the body is read. *)
Definition success_body {E} (failed : str -> E) (status_error : N -> E) (name : str)
    (reply : result str HttpResponse) : result E (list Z) :=
  response ← map_err (fun error => failed (name ++ u8" provider request failed: " ++ error)) reply;
  _ ← reject_if (negb (is_success (status response))) (status_error (status response));
  body ← map_err (fun error => failed (name ++ match error with
                                               | TooLarge => u8" provider response exceeds byte limit"
                                               | Transport error => u8" provider response failed: " ++ error
                                               end))
           (read_bounded_response_body_v2 response STRICT_V2_MAX_RESPONSE_BYTES);
  Ok (bb_bytes body).

Section semantic_clients.

Context (sha256_hex : list Z -> str) (embedding_json : EmbeddingRevisionV2 -> result str (list Z)).
Context (parse_embedding : list Z -> result str EmbeddingBatchResponseV2) (status_text : N -> str).

(** [embedding_status_error] and the [status_error] of the rerank client. *)
Definition status_error (name : str) (status : N) : KnowledgeRetrievalError :=
  let message := name ++ u8" provider returned status " ++ status_text status in
  if (status =? 408) || (status =? 429) || is_server_error status then Unavailable message else invalid_request message.

Definition parse_embedding_response (bytes : list Z) (revision : EmbeddingRevisionV2)
    : result KnowledgeRetrievalError QueryEmbeddingV2 :=
  response ← map_err (fun error => integrity (u8"invalid embedding provider JSON: " ++ error)) (parse_embedding bytes);
  _ ← reject_if (response_identity_differs response revision)
        (invalid_request (u8"embedding provider response identity mismatch"));
  match er_data response with
  | [(0%nat, values)] =>
    digest ← map_err (fun error => invalid_request (u8"invalid embedding revision: " ++ show_embedding_error error))
               (embedding_sha256 sha256_hex embedding_json revision);
    let embedding := {| qe_revision_sha256 := digest; qe_values := values |} in
    _ ← map_err (fun _ => integrity (u8"embedding provider returned an invalid vector"))
          (validate_query_embedding_values embedding);
    Ok embedding
  | _ => Err (integrity (u8"embedding provider response must contain exactly data index 0"))
  end.

Definition query_call (requirement_text : str) (revision : EmbeddingRevisionV2) (credential : str) : EmbeddingCall := {|
  ec_endpoint := em_endpoint_identity revision; ec_bearer := credential;
  ec_model := em_provider_model_identifier revision; ec_input := [requirement_text];
  ec_dimensions := N.of_nat VECTOR_INDEX_DIMENSION_V2;
  ec_request_config_sha256 := em_request_config_sha256 revision;
|}.

Context `{Resolver : CredentialResolver KnowledgeRetrievalError}.

Definition query_credential (validated : ValidatedSemanticPolicyV2) : result KnowledgeRetrievalError str :=
  _ ← reject_if (negb (starts_with (em_endpoint_identity (v_revision validated)) HTTPS))
        (invalid_request (u8"embedding endpoint must use https"));
  credential ← map_err resolver_error (resolve (v_credential_ref validated));
  _ ← reject_if (str_is_empty credential)
        (invalid_request (u8"embedding credential resolution returned an empty credential"));
  Ok credential.

Definition embed (server : EmbeddingCall -> result str HttpResponse) (requirement_text : str)
    (validated : ValidatedSemanticPolicyV2) : list EmbeddingCall * result KnowledgeRetrievalError QueryEmbeddingV2 :=
  match query_credential validated with
  | Err e => ([], Err e)
  | Ok credential =>
    let call := query_call requirement_text (v_revision validated) credential in
    ([call], bytes ← success_body integrity (status_error (u8"embedding")) (u8"embedding") (server call);
             parse_embedding_response bytes (v_revision validated))
  end.

(** ** The rerank call: [rerank_v2.rs] *)

Context {Value Decimal : Type}.
Context (as_number : Value -> option str) (decimal_from_str : str -> option Decimal).
Context (decimal_value : Decimal -> QArith_base.Q) (decimal_millionths : Decimal -> option N).
Context (parse_rerank_response : list Z -> result str (RerankResponseV2 Value)).
Context (rerank_json : RerankRevisionV2 -> result str (list Z)).

Definition rerank_credential (policy : RetrievalPolicyV2) (revision : RerankRevisionV2) (credential_ref : str)
    : result KnowledgeRetrievalError str :=
  _ ← reject_if (negb (starts_with (rr_endpoint_identity revision) HTTPS)) (invalid_request (u8"rerank endpoint must use https"));
  _ ← reject_if
        (negb (bool_decide (rerank_digest sha256_hex rerank_json revision = Some (rp_revision_sha256 (rerank policy))))
         || negb (str_eqb (rr_provider_model_revision_sha256 revision) (rp_model_revision_sha256 (rerank policy)))
         || negb (str_eqb (rr_config_revision_sha256 revision) (rp_config_revision_sha256 (rerank policy))))
        (invalid_request (u8"rerank revision does not match policy"));
  credential ← resolve credential_ref;
  _ ← reject_if (str_is_empty credential) (invalid_request (u8"rerank credential is empty"));
  Ok credential.

Definition rerank_call (requirement_text : str) (candidates : list SemanticCandidateV2) (policy : RetrievalPolicyV2)
    (revision : RerankRevisionV2) (credential : str) : RerankCall := {|
  rc_endpoint := rr_endpoint_identity revision; rc_timeout_ms := rp_timeout_ms (rerank policy);
  rc_bearer := credential; rc_model := rr_provider_model_identifier revision; rc_query := requirement_text;
  rc_documents := map chunk_utf8 candidates;
|}.

(** [StrictRerankClientV2::rerank] with the transport it uses. *)
Definition rerank_candidates (server : RerankCall -> result str HttpResponse) (requirement_text : str)
    (candidates : list SemanticCandidateV2) (policy : RetrievalPolicyV2) (revision : RerankRevisionV2)
    (credential_ref : str) : list RerankCall * result KnowledgeRetrievalError (list RerankedSemanticCandidateV2) :=
  match candidates with
  | [] => ([], Ok [])
  | _ =>
    match rerank_credential policy revision credential_ref with
    | Err e => ([], Err e)
    | Ok credential =>
      let call := rerank_call requirement_text candidates policy revision credential in
      ([call], bytes ← success_body Unavailable (status_error (u8"rerank")) (u8"rerank") (server call);
               apply_response as_number decimal_from_str decimal_value decimal_millionths parse_rerank_response
                 sha256_hex rerank_json bytes candidates policy revision)
    end
  end.

End semantic_clients.
