(* ===== verification/ProvidersFacts.v ===== *)
(** * The clients of the model providers: theorems

    A body is read exactly when it fits, an embedding run is accepted exactly when every batch
    was answered in full, and what the clients send is fixed by the revision they were given. *)
From S2P Require Import Prelude RustStr RustFloat NumText Batches Policy Order Rank Recall Selection Evidence.
From S2P Require Import PolicyFacts Providers.

Local Open Scope N_scope.

(** ** Bodies *)

Lemma len_app {A} (a b : list A) : len (a ++ b) = len a + len b.
Proof. unfold len. rewrite length_app. lia. Qed.

Lemma read_chunks_exact limit chunks : forall bytes b,
  len bytes <= limit ->
  read_chunks limit bytes chunks = Ok b <->
  exists pieces, chunks = map Ok pieces /\ b = bytes ++ concat pieces /\ len b <= limit.
Proof.
  induction chunks as [|[chunk|e] chunks IH]; intros bytes b Hl; cbn [read_chunks].
  - split.
    + intros [= <-]. exists []. cbn. by rewrite app_nil_r.
    + intros ([|p ps] & [=] & -> & _). cbn. by rewrite app_nil_r.
  - destruct (N.ltb_spec (limit - len bytes) (len chunk)) as [Hgt|Hle].
    + split; [done|]. intros ([|p ps] & [=] & -> & Hb). subst. cbn in Hb. rewrite !len_app in Hb. lia.
    + rewrite IH by (rewrite len_app; lia). split.
      * intros (ps & -> & -> & Hb). exists (chunk :: ps). cbn. by rewrite <- app_assoc in *.
      * intros ([|p ps] & [=] & -> & Hb). subst. exists ps. cbn in *. by rewrite <- app_assoc in *.
  - split; [done|]. by intros ([|p ps] & [=] & _).
Qed.

(** A body that was read: its pieces arrived, and neither the declaration nor they exceed the limit. *)
Definition body_read (limit : N) (response : HttpResponse) (bytes : list Z) : Prop :=
  (forall declared, content_length response = Some declared -> declared <= limit)
  /\ (exists pieces, body_chunks response = map Ok pieces /\ bytes = concat pieces)
  /\ len bytes <= limit.

Lemma declared_above_false declared limit :
  declared_above declared limit = false <-> forall n, declared = Some n -> n <= limit.
Proof. destruct declared as [n|]; cbn; [rewrite N.ltb_ge|]; naive_solver. Qed.

Lemma read_bounded_exact limit response b :
  read_bounded_response_body_v2 response limit = Ok b <->
  body_read limit response (bb_bytes b)
  /\ bb_status b = status response /\ bb_content_length b = content_length response.
Proof.
  unfold read_bounded_response_body_v2, body_read. rewrite bind_Ok. setoid_rewrite reject_if_Ok.
  rewrite <- declared_above_false. split.
  - intros (u & Hd & (bytes & Hr%read_chunks_exact & [= <-])%bind_Ok); [|apply N.le_0_l]. cbn.
    destruct Hr as (ps & Hc & -> & Hl). repeat split; try done. by exists ps.
  - intros ((Hd & (ps & Hc & Hb) & Hl) & Hs & Hcl). exists tt. split; [done|]. apply bind_Ok. exists (bb_bytes b).
    split; [|destruct b; cbn in *; congruence]. apply read_chunks_exact; [apply N.le_0_l|]. by exists ps.
Qed.

(** ** Vectors *)

Definition valid_vector (v : list f32) : Prop :=
  length v = 1024%nat /\ Forall (fun x => is_finite x = true) v /\ Exists (fun x => is_zero x = false) v.

Lemma finite_all (v : list f32) :
  existsb (fun x => negb (is_finite x)) v = false <-> Forall (fun x => is_finite x = true) v.
Proof. rewrite existsb_negb_forallb, negb_false_iff. apply forallb_Forall. Qed.

Lemma validate_vector_exact v : validate_vector v = Ok tt <-> valid_vector v.
Proof.
  unfold validate_vector, valid_vector, VECTOR_INDEX_DIMENSION_V2.
  rewrite reject_if_Ok, !orb_false_iff, negb_false_iff, Nat.eqb_eq, finite_all, forallb_false_Exists. tauto.
Qed.

Lemma read_vector_exact v a : read_vector v = Ok a <-> valid_vector v /\ a = v.
Proof.
  unfold read_vector. rewrite bind_Ok. split.
  - intros ([] & Hv%validate_vector_exact & [= <-]). done.
  - intros [Hv ->]. exists tt. split; [by apply validate_vector_exact|done].
Qed.

(** ** Inputs *)

Definition input_bytes (input : VectorEmbeddingInputV2) : N := N.of_nat (blen (vi_canonical_input input)).

Fixpoint sum_N (l : list N) : N := match l with [] => 0 | n :: l => n + sum_N l end.

Lemma sum_N_app a b : sum_N (a ++ b) = sum_N a + sum_N b.
Proof. induction a as [|n a IH]; cbn; [done|]. rewrite IH. lia. Qed.

Section inputs.
Context (sha256_hex : list Z -> str).

(** Inputs within the bounds, of distinct chunks, each with the digest of its text. *)
Record inputs_ok (inputs : list VectorEmbeddingInputV2) : Prop := {
  io_count : len inputs <= 16384;
  io_each : Forall (fun i => input_bytes i <= 1048576
                    /\ vi_indexed_content_sha256 i = sha256_hex (as_bytes (vi_canonical_input i))) inputs;
  io_total : sum_N (map input_bytes inputs) <= 8388608;
  io_distinct : NoDup (map vi_chunk_id inputs);
}.

Lemma u64_checked_add_Some a b c : u64_checked_add a b = Some c <-> c = a + b /\ a + b < u64_modulus.
Proof. unfold u64_checked_add. destruct (N.ltb_spec (a + b) u64_modulus); naive_solver lia. Qed.

Lemma bound_step_exact total ids input st' :
  bound_step sha256_hex (total, ids) input = Ok st' <->
  (input_bytes input <= 1048576 /\ vi_indexed_content_sha256 input = sha256_hex (as_bytes (vi_canonical_input input)))
  /\ total + input_bytes input <= 8388608 /\ vi_chunk_id input ∉ ids
  /\ st' = (total + input_bytes input, {[vi_chunk_id input]} ∪ ids).
Proof.
  unfold bound_step, canonical_sha256. fold (input_bytes input).
  repeat setoid_rewrite bind_Ok. setoid_rewrite reject_if_Ok. setoid_rewrite ok_or_Ok.
  setoid_rewrite u64_checked_add_Some. setoid_rewrite N.ltb_ge. setoid_rewrite negb_false_iff.
  setoid_rewrite str_eqb_spec. setoid_rewrite bool_decide_eq_false.
  unfold VECTOR_EMBEDDING_MAX_INPUT_BYTES_V2, VECTOR_EMBEDDING_MAX_REQUEST_BYTES_V2. split.
  - intros (_ & H1 & t & (-> & _) & _ & H2 & _ & H3 & _ & H4 & [= <-]). done.
  - intros ((H1 & H4) & H2 & H3 & ->). exists tt. split; [done|]. exists (total + input_bytes input).
    split; [split; [done|unfold u64_modulus; lia]|]. exists tt. split; [done|]. exists tt. split; [done|].
    exists tt. done.
Qed.

Lemma bound_loop_exact inputs : forall total ids,
  is_Ok (foldR (bound_step sha256_hex) (total, ids) inputs) <->
  Forall (fun i => input_bytes i <= 1048576
          /\ vi_indexed_content_sha256 i = sha256_hex (as_bytes (vi_canonical_input i))) inputs
  /\ (inputs = [] \/ total + sum_N (map input_bytes inputs) <= 8388608)
  /\ NoDup (map vi_chunk_id inputs) /\ (forall i, i ∈ inputs -> vi_chunk_id i ∉ ids).
Proof.
  unfold is_Ok. induction inputs as [|i l IH]; intros total ids; cbn [foldR].
  { split; [intros _; repeat split; try constructor; [done|set_solver]|]. intros _. by eexists. }
  split.
  - intros (st & ([t ids'] & H1 & H2)%bind_Ok). apply bound_step_exact in H1 as (He & Ht & Hi & [= -> ->]).
    destruct (proj1 (IH _ _) (ex_intro _ st H2)) as (F & Hs & Hnd & Hid). split; [by constructor|].
    split; [right|]. { destruct Hs as [->|Hs]; cbn; lia. }
    split.
    + cbn. constructor; [|done]. intros (j & E & Hj)%list_elem_of_fmap. specialize (Hid j Hj). set_solver.
    + intros j [->|Hj]%elem_of_cons; [done|]. specialize (Hid j Hj). set_solver.
  - intros (F & [[=]|Hs] & Hnd & Hid). apply Forall_cons in F as [He F]. cbn in Hs, Hnd.
    apply NoDup_cons in Hnd as [Hni Hnd].
    destruct (proj2 (IH (total + input_bytes i) ({[vi_chunk_id i]} ∪ ids))) as [st Hst].
    + split; [done|]. split; [right; lia|]. split; [done|]. intros j Hj.
      apply not_elem_of_union. split; [|apply Hid; by right]. intros E%elem_of_singleton. apply Hni.
      apply list_elem_of_fmap. by exists j.
    + exists st. apply bind_Ok. eexists. split; [|exact Hst]. apply bound_step_exact.
      split; [done|]. split; [lia|]. split; [apply Hid; by left|done].
Qed.

Lemma validate_input_bounds_exact inputs : validate_input_bounds sha256_hex inputs = Ok tt <-> inputs_ok inputs.
Proof.
  unfold validate_input_bounds, VECTOR_EMBEDDING_MAX_VERSION_INPUTS_V2. rewrite bind_Ok. setoid_rewrite reject_if_Ok.
  setoid_rewrite N.ltb_ge. pose proof (bound_loop_exact inputs 0 ∅) as B. split.
  - intros ([] & Hc & (st & Hst & _)%bind_Ok). destruct (proj1 B (ex_intro _ st Hst)) as (F & Hs & Hnd & _).
    split; [done|done| |done]. destruct Hs as [->|Hs]; cbn in *; lia.
  - intros []. exists tt. split; [done|]. apply bind_Ok.
    destruct (proj2 B) as [st Hst]; [|by exists st]. split; [done|]. split; [right; lia|]. split; [done|]. set_solver.
Qed.

End inputs.

(** ** The response to one batch *)

Section batches.
Context (parse_batch : list Z -> result str EmbeddingBatchResponseV2).
Context (status_text : N -> str) (server : list EmbeddingCall -> EmbeddingCall -> result str HttpResponse).

(** The reply answers a batch of [count] inputs with these vectors: a successful status, a body
    of [size] bytes within the limit, the identity of the revision, and for every position
    exactly one valid vector. *)
Definition batch_answered (revision : EmbeddingRevisionV2) (count : nat) (reply : result str HttpResponse)
    (vectors : list (list f32)) (size : N) : Prop :=
  exists response bytes parsed,
    reply = Ok response /\ is_success (status response) = true
    /\ body_read VECTOR_EMBEDDING_MAX_BATCH_RESPONSE_BYTES_V2 response bytes /\ size = len bytes
    /\ parse_batch bytes = Ok parsed
    /\ er_model parsed = em_provider_model_identifier revision
    /\ er_model_revision_sha256 parsed = em_provider_model_revision_sha256 revision
    /\ er_request_config_sha256 parsed = em_request_config_sha256 revision
    /\ (er_data parsed).*1 ≡ₚ seq 0 count /\ length vectors = count
    /\ (forall i v, (i, v) ∈ er_data parsed -> valid_vector v /\ vectors !! i = Some v).

Lemma identity_exact parsed revision : response_identity_differs parsed revision = false <->
  er_model parsed = em_provider_model_identifier revision
  /\ er_model_revision_sha256 parsed = em_provider_model_revision_sha256 revision
  /\ er_request_config_sha256 parsed = em_request_config_sha256 revision.
Proof. unfold response_identity_differs. rewrite !orb_false_iff, !negb_false_iff, !str_eqb_spec. tauto. Qed.

Lemma parse_batch_response_exact bytes revision count vectors :
  parse_batch_response parse_batch bytes revision count = Ok vectors <->
  exists parsed, parse_batch bytes = Ok parsed
    /\ er_model parsed = em_provider_model_identifier revision
    /\ er_model_revision_sha256 parsed = em_provider_model_revision_sha256 revision
    /\ er_request_config_sha256 parsed = em_request_config_sha256 revision
    /\ (er_data parsed).*1 ≡ₚ seq 0 count /\ length vectors = count
    /\ (forall i v, (i, v) ∈ er_data parsed -> valid_vector v /\ vectors !! i = Some v).
Proof.
  unfold parse_batch_response. rewrite bind_Ok. setoid_rewrite map_err_Ok. split.
  - intros (parsed & Hp & ([] & Hid%reject_if_Ok%identity_exact & ([] & Hl%reject_if_Ok & (slots & Hf & Hm%ok_or_Ok)%bind_Ok)%bind_Ok)%bind_Ok).
    apply negb_false_iff, Nat.eqb_eq in Hl. destruct (fill_slots_all _ _ _ _ _ Hl Hf) as (Hperm & out & Hout & Lo & Hr & _).
    assert (out = vectors) as -> by congruence. exists parsed. destruct Hid as (I1 & I2 & I3).
    do 4 (split; [done|]). split; [done|]. split; [done|].
    intros i v Hiv. by destruct (Hr i v Hiv) as (a & [Hv ->]%read_vector_exact & Ha).
  - intros (parsed & Hp & I1 & I2 & I3 & Hperm & Lv & Hd). exists parsed. split; [done|].
    apply bind_Ok. exists tt. split; [by apply reject_if_Ok, identity_exact|].
    assert (length (er_data parsed) = count) as Hl.
    { apply Permutation_length in Hperm. by rewrite length_fmap, length_seq in Hperm. }
    apply bind_Ok. exists tt. split; [by apply reject_if_Ok, negb_false_iff, Nat.eqb_eq|].
    destruct (fill_slots_complete read_vector (VUnavailable (u8"embedding provider response index is duplicate or out of range"))
      count (er_data parsed) Hperm) as [slots Hf].
    { intros i v Hiv. exists v. apply read_vector_exact. by destruct (Hd i v Hiv). }
    apply bind_Ok. exists slots. split; [done|]. apply ok_or_Ok.
    destruct (fill_slots_all _ _ _ _ _ Hl Hf) as (_ & out & -> & Lo & Hr & Hall). f_equal. apply list_eq. intros i.
    destruct (out !! i) as [a|] eqn:Ea.
    + destruct (Hall i a Ea) as (v & Hiv & [_ ->]%read_vector_exact). symmetry. by apply Hd.
    + apply lookup_ge_None in Ea. symmetry. apply lookup_ge_None. lia.
Qed.

Lemma received_exact reply b :
  received VECTOR_EMBEDDING_MAX_BATCH_RESPONSE_BYTES_V2 reply = Ok b <->
  exists response, reply = Ok response /\ body_read VECTOR_EMBEDDING_MAX_BATCH_RESPONSE_BYTES_V2 response (bb_bytes b)
    /\ bb_status b = status response /\ bb_content_length b = content_length response.
Proof.
  unfold received. rewrite bind_Ok. setoid_rewrite map_err_Ok. by setoid_rewrite read_bounded_exact.
Qed.

Lemma absorb_exact revision count total reply vectors total' :
  total <= VECTOR_EMBEDDING_MAX_TOTAL_RESPONSE_BYTES_V2 ->
  (response ← received VECTOR_EMBEDDING_MAX_BATCH_RESPONSE_BYTES_V2 reply;
   absorb parse_batch status_text revision count total response) = Ok (vectors, total') <->
  exists size, batch_answered revision count reply vectors size
    /\ total' = total + size /\ total' <= VECTOR_EMBEDDING_MAX_TOTAL_RESPONSE_BYTES_V2.
Proof.
  intros Ht. rewrite bind_Ok. setoid_rewrite received_exact. unfold absorb, batch_answered. split.
  - intros (b & (response & Hr & Hb & Hs & Hc) & ([] & Hok%reject_if_Ok%negb_false_iff & ([] & _ & Hrest)%bind_Ok)%bind_Ok).
    apply bind_Ok in Hrest as (t & [-> _]%ok_or_Ok%u64_checked_add_Some & Hrest).
    apply bind_Ok in Hrest as ([] & Hmax%reject_if_Ok%N.ltb_ge & Hrest).
    apply bind_Ok in Hrest as (vs & (parsed & Hp & Hi)%parse_batch_response_exact & [= <- <-]).
    exists (len (bb_bytes b)). split; [|done]. exists response, (bb_bytes b), parsed. rewrite <- Hs. done.
  - intros (size & (response & bytes & parsed & Hr & Hok & Hb & -> & Hp & Hi) & -> & Hmax).
    exists {| bb_status := status response; bb_content_length := content_length response; bb_bytes := bytes |}.
    split; [by exists response|]. cbn [bb_status bb_content_length bb_bytes].
    destruct Hb as (Hd%declared_above_false & Hpieces & Hl).
    apply bind_Ok. exists tt. split; [by apply reject_if_Ok, negb_false_iff|].
    apply bind_Ok. exists tt. split; [by apply reject_if_Ok, orb_false_iff; split; [|apply N.ltb_ge]|].
    apply bind_Ok. exists (total + len bytes). split.
    { apply ok_or_Ok, u64_checked_add_Some. split; [done|].
      eapply N.le_lt_trans; [exact Hmax|done]. }
    apply bind_Ok. exists tt. split; [by apply reject_if_Ok, N.ltb_ge|].
    apply bind_Ok. exists vectors. split; [|done]. apply parse_batch_response_exact. by exists parsed.
Qed.

(** The answers to the batches, one call after the other. *)
Fixpoint batches_answered (revision : EmbeddingRevisionV2) (credential : str) (calls : list EmbeddingCall)
    (batches : list (list VectorEmbeddingInputV2)) (answers : list (list (list f32))) (sizes : list N) : Prop :=
  match batches, answers, sizes with
  | [], [], [] => True
  | batch :: batches, answer :: answers, size :: sizes =>
    let call := batch_call revision credential batch in
    batch_answered revision (length batch) (server calls call) answer size
    /\ batches_answered revision credential (calls ++ [call]) batches answers sizes
  | _, _, _ => False
  end.

Notation loop := (embed_loop parse_batch status_text server).

Lemma embed_loop_exact revision credential batches : forall calls total embeddings calls' vectors,
  total <= VECTOR_EMBEDDING_MAX_TOTAL_RESPONSE_BYTES_V2 ->
  loop revision credential calls total embeddings batches = (calls', Ok vectors) <->
  exists answers sizes, batches_answered revision credential calls batches answers sizes
    /\ total + sum_N sizes <= VECTOR_EMBEDDING_MAX_TOTAL_RESPONSE_BYTES_V2
    /\ vectors = embeddings ++ concat answers /\ calls' = calls ++ map (batch_call revision credential) batches.
Proof.
  induction batches as [|batch batches IH]; intros calls total embeddings calls' vectors Ht; cbn [embed_loop].
  { split.
    - intros [= <- <-]. exists [], []. cbn. rewrite N.add_0_r, !app_nil_r. done.
    - intros ([|] & [|] & [] & _ & -> & ->). cbn. by rewrite !app_nil_r. }
  pose proof (fun vs t => absorb_exact revision (length batch) total
    (server calls (batch_call revision credential batch)) vs t Ht) as A.
  destruct (_ ≫= _) as [[vs t]|e].
  - destruct (proj1 (A vs t) eq_refl) as (size & Hb & -> & Hmax). rewrite IH by done. split.
    + intros (answers & sizes & Hs & Hsum & -> & ->). exists (vs :: answers), (size :: sizes). cbn.
      rewrite <- !app_assoc. split; [done|]. split; [lia|done].
    + intros ([|answer answers] & [|size' sizes] & Hs & Hsum & -> & ->); try done. destruct Hs as [Hb' Hs]. cbn in Hsum.
      assert (@Ok VectorIndexErrorV2 _ (vs, total + size) = Ok (answer, total + size')) as [= <- E].
      { apply A. exists size'. split; [done|]. split; [done|]. lia. }
      exists answers, sizes. cbn. rewrite <- !app_assoc. split; [done|]. split; [lia|done].
  - split; [done|]. intros ([|answer answers] & [|size sizes] & Hs & Hsum & _); try done. destruct Hs as [Hb Hs].
    cbn in Hsum. assert (@Err _ (list (list f32) * N) e = Ok (answer, total + size)) as [=].
    apply A. exists size. split; [done|]. split; [done|]. lia.
Qed.

(** Whatever the server replies, the calls are the first of the calls planned. *)
Lemma embed_loop_calls revision credential batches : forall calls total embeddings,
  (loop revision credential calls total embeddings batches).1
    `prefix_of` calls ++ map (batch_call revision credential) batches.
Proof.
  induction batches as [|batch batches IH]; intros calls total embeddings; cbn [embed_loop].
  { cbn. by rewrite app_nil_r. }
  set (call := batch_call revision credential batch). cbn [map]. fold call.
  rewrite (app_assoc calls [call] (map _ batches) : calls ++ call :: map _ batches = _).
  destruct (_ ≫= _) as [[vs t]|e]; [apply IH|]. by eexists.
Qed.

Lemma batches_answered_vectors revision credential batches : forall calls answers sizes,
  batches_answered revision credential calls batches answers sizes ->
  length (concat answers) = length (concat batches) /\ Forall valid_vector (concat answers).
Proof.
  induction batches as [|batch batches IH]; intros calls [|answer answers] [|size sizes]; cbn; try done.
  intros [(response & bytes & parsed & _ & _ & _ & _ & _ & _ & _ & _ & Hperm & Hl & Hd) Hrest].
  destruct (IH _ _ _ Hrest) as [H1 H2]. rewrite !length_app. split; [lia|]. apply Forall_app. split; [|done].
  apply Forall_lookup. intros i v Hv. assert (i ∈ (er_data parsed).*1) as ([j w] & E & Hw)%list_elem_of_fmap.
  { rewrite Hperm, elem_of_seq. apply lookup_lt_Some in Hv. lia. }
  cbn in E. subst j. destruct (Hd i w Hw) as [Hok E]. congruence.
Qed.

End batches.

Lemma endpoint_https v : validate_endpoint_identity v = Ok tt -> starts_with v HTTPS = true.
Proof.
  unfold validate_endpoint_identity. intros (r & Hr%ok_or_Ok%strip_prefix_Some & _)%bind_Ok.
  apply starts_with_spec. by exists r.
Qed.

Lemma validated_revision_https r :
  validate_embedding_revision r = Ok tt -> starts_with (em_endpoint_identity r) HTTPS = true.
Proof.
  unfold validate_embedding_revision. intros ([] & _ & ([] & _ & ([] & _ & ([] & _ & H)%bind_Ok)%bind_Ok)%bind_Ok)%bind_Ok.
  apply bind_Ok in H as ([] & _ & ([] & He & _)%bind_Ok). by apply endpoint_https.
Qed.

(** ** The vectors of the documents *)

Section embed_batch.
Context (sha256_hex : list Z -> str) (parse_batch : list Z -> result str EmbeddingBatchResponseV2).
Context (status_text : N -> str) (server : list EmbeddingCall -> EmbeddingCall -> result str HttpResponse).
Context `{Resolver : CredentialResolver VectorIndexErrorV2}.

(** What must hold before anything is sent. *)
Definition may_embed (revision : EmbeddingRevisionV2) (credential_ref : str) (inputs : list VectorEmbeddingInputV2)
    (credential : str) : Prop :=
  validate_embedding_revision revision = Ok tt /\ inputs_ok sha256_hex inputs
  /\ resolve credential_ref = Ok credential /\ credential <> [].

Lemma embed_credential_exact revision credential_ref inputs credential :
  inputs <> [] ->
  embed_credential sha256_hex revision credential_ref inputs = Ok (Some credential) <->
  may_embed revision credential_ref inputs credential.
Proof.
  intros Hne. unfold embed_credential, may_embed. destruct inputs as [|input inputs']; [done|]. set (inputs := input :: inputs').
  rewrite <- validate_input_bounds_exact. split.
  - intros ([] & Hv%map_err_Ok & ([] & _ & ([] & Hi & (c & Hc & ([] & He%reject_if_Ok & [= <-])%bind_Ok)%bind_Ok)%bind_Ok)%bind_Ok)%bind_Ok.
    split; [done|]. split; [done|]. split; [done|]. by intros ->.
  - intros (Hv & Hi & Hc & Hne'). apply bind_Ok. exists tt. split; [by apply map_err_Ok|].
    apply bind_Ok. exists tt. split; [by apply reject_if_Ok, negb_false_iff, validated_revision_https|].
    apply bind_Ok. exists tt. split; [done|]. apply bind_Ok. exists credential. split; [done|].
    apply bind_Ok. exists tt. split; [|done]. apply reject_if_Ok. by destruct credential.
Qed.

Lemma embed_credential_none revision credential_ref inputs :
  inputs <> [] -> embed_credential sha256_hex revision credential_ref inputs <> Ok None.
Proof.
  unfold embed_credential. destruct inputs as [|input inputs']; [done|]. intros _.
  intros (? & _ & (? & _ & (? & _ & (? & _ & (? & _ & [=])%bind_Ok)%bind_Ok)%bind_Ok)%bind_Ok)%bind_Ok.
Qed.

Notation run := (embed_batch sha256_hex parse_batch status_text server).
Notation batches := (chunks_of 64).

Definition answered (revision : EmbeddingRevisionV2) (credential_ref : str) (inputs : list VectorEmbeddingInputV2)
    (calls : list EmbeddingCall) (vectors : list (list f32)) : Prop :=
  exists credential answers sizes, may_embed revision credential_ref inputs credential
  /\ calls = map (batch_call revision credential) (batches inputs)
  /\ batches_answered parse_batch server revision credential [] (batches inputs) answers sizes
  /\ sum_N sizes <= VECTOR_EMBEDDING_MAX_TOTAL_RESPONSE_BYTES_V2
  /\ vectors = concat answers.

Lemma answered_vectors revision credential_ref inputs calls vectors :
  answered revision credential_ref inputs calls vectors ->
  length vectors = length inputs /\ Forall valid_vector vectors.
Proof.
  intros (c & answers & sizes & _ & _ & H & _ & ->). apply batches_answered_vectors in H as [Hl F].
  by rewrite chunks_of_concat in Hl by lia.
Qed.

Lemma embed_batch_run revision credential_ref inputs credential calls answer :
  may_embed revision credential_ref inputs credential -> inputs <> [] ->
  run revision credential_ref inputs = (calls, answer) ->
  calls `prefix_of` map (batch_call revision credential) (batches inputs)
  /\ (forall vectors, answer = Ok vectors <-> answered revision credential_ref inputs calls vectors).
Proof.
  intros Hmay Hne. unfold embed_batch. rewrite (proj2 (embed_credential_exact _ _ _ _ Hne) Hmay).
  pose proof (embed_loop_calls parse_batch status_text server revision credential (batches inputs) [] 0 []) as Hc.
  pose proof (embed_loop_exact parse_batch status_text server revision credential (batches inputs) [] 0 []) as Hx.
  unfold VECTOR_EMBEDDING_BATCH_MAX_INPUTS_V2. destruct (embed_loop _ _ _ _ _ _ _ _ _) as [calls' answer'].
  intros [= <- <-]. split; [exact Hc|]. intros vectors. unfold answered. split.
  - intros (v & -> & ([] & _ & [= ->])%bind_Ok)%bind_Ok.
    destruct (proj1 (Hx calls' vectors ltac:(done)) eq_refl) as (answers & sizes & H1 & H2 & -> & ->).
    by exists credential, answers, sizes.
  - intros Ha. pose proof Ha as [Hl _]%answered_vectors.
    destruct Ha as (c & answers & sizes & (_ & _ & Hcred & _) & Hcalls & H1 & H2 & Hv).
    assert (c = credential) as ->. { destruct Hmay as (_ & _ & Hr & _). congruence. }
    assert ((calls', answer') = (calls', Ok vectors)) as [= ->].
    { apply Hx; [done|]. by exists answers, sizes. }
    apply bind_Ok. exists vectors. split; [done|]. apply bind_Ok. exists tt. split; [|done].
    by apply reject_if_Ok, negb_false_iff, Nat.eqb_eq.
Qed.

(** C21: The run that embeds the texts of a version ([embed_batch] of [knowledge_index_v2.rs]),
    against any provider.  Whatever it replies, the calls are the first of a fixed sequence, one
    per batch of 64, each to the endpoint of the revision with its model, its configuration and
    the resolved credential, and the first is only made when revision, inputs and credential are
    in order.  The run returns vectors exactly when every batch is answered in full, within the
    limit of each and of all bodies: they are the answers in the order of the inputs, and then
    there is one for each input, with 1024 finite components that are not all zero. *)
Theorem embed_batch_exact revision credential_ref inputs calls answer :
  inputs <> [] ->
  run revision credential_ref inputs = (calls, answer) ->
  (calls <> [] -> exists credential, may_embed revision credential_ref inputs credential
     /\ calls `prefix_of` map (batch_call revision credential) (batches inputs))
  /\ (forall vectors, answer = Ok vectors <-> answered revision credential_ref inputs calls vectors)
  /\ (forall vectors, answer = Ok vectors -> length vectors = length inputs /\ Forall valid_vector vectors).
Proof.
  intros Hne Hrun.
  assert ((exists c, may_embed revision credential_ref inputs c)
          \/ ((forall c, ~ may_embed revision credential_ref inputs c) /\ calls = [] /\ exists e, answer = Err e)) as [[c Hmay]|(Hno & -> & e & ->)].
  { unfold embed_batch in Hrun. pose proof (embed_credential_none revision credential_ref inputs Hne) as Hnone.
    pose proof (fun c => embed_credential_exact revision credential_ref inputs c Hne) as Hmay.
    destruct (embed_credential _ _ _ _) as [[c|]|e]; [|done|].
    - left. exists c. by apply Hmay.
    - right. injection Hrun as <- <-. split; [|by eauto]. intros c Hc%Hmay. done. }
  - destruct (embed_batch_run _ _ _ _ _ _ Hmay Hne Hrun) as [Hprefix Hok].
    split; [intros _; by exists c|]. split; [exact Hok|]. intros vectors Hv%Hok. by eapply answered_vectors.
  - split; [done|]. split; [|done]. intros vectors. split; [done|].
    intros (c & ? & ? & Hmay & _). by destruct (Hno c).
Qed.
End embed_batch.

(** ** The vector of a query and the rerank call *)

(** A vector of a query: as for a document, and with a finite norm. *)
Definition query_vector (values : list f32) : Prop :=
  valid_vector values /\ is_finite (square_norm values) = true /\ is_zero (square_norm values) = false.

Lemma square_norm_zero values : forall acc, acc = S754_zero false -> Forall (fun x => is_zero x = true) values ->
  fold_left (fun acc value => f64_add acc (f64_mul (f64_from_f32 value) (f64_from_f32 value))) values acc
  = S754_zero false.
Proof.
  induction values as [|x l IH]; intros acc -> F; [done|]. apply Forall_cons in F as [[s ->]%is_zero_spec F].
  cbn. by destruct s; apply IH.
Qed.

Lemma validate_query_values_exact q : validate_query_embedding_values q = Ok tt <-> query_vector (qe_values q).
Proof.
  unfold validate_query_embedding_values, query_vector, valid_vector, VECTOR_INDEX_DIMENSION_V2.
  rewrite !bind_check. rewrite negb_false_iff, Nat.eqb_eq, finite_all. cbv zeta.
  rewrite reject_if_Ok, orb_false_iff, negb_false_iff. split; [|tauto].
  intros (Hl & Hf & Hn & Hz). repeat split; try done. apply forallb_false_Exists, not_true_iff_false.
  intros Hall%forallb_Forall. revert Hz. unfold square_norm. by rewrite square_norm_zero.
Qed.

Section clients.
Context (sha256_hex : list Z -> str) (embedding_json : EmbeddingRevisionV2 -> result str (list Z)).
Context (parse_embedding : list Z -> result str EmbeddingBatchResponseV2) (status_text : N -> str).

Lemma success_body_exact {E} (failed : str -> E) status_error name reply bytes :
  success_body failed status_error name reply = Ok bytes <->
  exists response, reply = Ok response /\ is_success (status response) = true
  /\ body_read STRICT_V2_MAX_RESPONSE_BYTES response bytes.
Proof.
  unfold success_body. rewrite bind_Ok. setoid_rewrite map_err_Ok. split.
  - intros (response & Hr & ([] & Hok%reject_if_Ok%negb_false_iff & (b & Hb%map_err_Ok & [= <-])%bind_Ok)%bind_Ok).
    apply read_bounded_exact in Hb as (Hb & _). by exists response.
  - intros (response & Hr & Hok & Hb). exists response. split; [done|]. apply bind_Ok. exists tt.
    split; [by apply reject_if_Ok, negb_false_iff|]. apply bind_Ok.
    exists {| bb_status := status response; bb_content_length := content_length response; bb_bytes := bytes |}.
    split; [|done]. by apply map_err_Ok, read_bounded_exact.
Qed.

(** The reply gives the vector of the query under the revision. *)
Definition query_answered (revision : EmbeddingRevisionV2) (reply : result str HttpResponse) (q : QueryEmbeddingV2) : Prop :=
  exists response bytes parsed,
    reply = Ok response /\ is_success (status response) = true
    /\ body_read STRICT_V2_MAX_RESPONSE_BYTES response bytes /\ parse_embedding bytes = Ok parsed
    /\ er_model parsed = em_provider_model_identifier revision
    /\ er_model_revision_sha256 parsed = em_provider_model_revision_sha256 revision
    /\ er_request_config_sha256 parsed = em_request_config_sha256 revision
    /\ er_data parsed = [(0%nat, qe_values q)] /\ query_vector (qe_values q)
    /\ embedding_sha256 sha256_hex embedding_json revision = Ok (qe_revision_sha256 q).

Lemma parse_embedding_exact revision bytes q :
  parse_embedding_response sha256_hex embedding_json parse_embedding bytes revision = Ok q <->
  exists parsed, parse_embedding bytes = Ok parsed
    /\ er_model parsed = em_provider_model_identifier revision
    /\ er_model_revision_sha256 parsed = em_provider_model_revision_sha256 revision
    /\ er_request_config_sha256 parsed = em_request_config_sha256 revision
    /\ er_data parsed = [(0%nat, qe_values q)] /\ query_vector (qe_values q)
    /\ embedding_sha256 sha256_hex embedding_json revision = Ok (qe_revision_sha256 q).
Proof.
  unfold parse_embedding_response. rewrite bind_Ok. setoid_rewrite map_err_Ok. split.
  - intros (parsed & Hp & ([] & (I1 & I2 & I3)%reject_if_Ok%identity_exact & H)%bind_Ok). exists parsed.
    destruct (er_data parsed) as [|[[|] values] [|]]; try done.
    apply bind_Ok in H as (digest & Hd%map_err_Ok & ([] & Hv%map_err_Ok%validate_query_values_exact & [= <-])%bind_Ok).
    by cbn in *.
  - intros (parsed & Hp & I1 & I2 & I3 & Hd & Hv & Hs). exists parsed. split; [done|]. apply bind_Ok. exists tt.
    split; [by apply reject_if_Ok, identity_exact|]. rewrite Hd. apply bind_Ok. exists (qe_revision_sha256 q).
    split; [by apply map_err_Ok|]. apply bind_Ok. exists tt.
    split; [by apply map_err_Ok, validate_query_values_exact|]. by destruct q.
Qed.

Context `{Resolver : CredentialResolver KnowledgeRetrievalError}.

(** One call, to the endpoint of the revision under its credential; or none and an error. *)
Lemma embed_exact server text validated calls answer :
  embed sha256_hex embedding_json parse_embedding status_text server text validated = (calls, answer) ->
  (calls = [] /\ exists e, answer = Err e)
  \/ exists credential, resolve (v_credential_ref validated) = Ok credential /\ credential <> []
     /\ starts_with (em_endpoint_identity (v_revision validated)) HTTPS = true
     /\ calls = [query_call text (v_revision validated) credential]
     /\ forall q, answer = Ok q <->
          query_answered (v_revision validated) (server (query_call text (v_revision validated) credential)) q.
Proof.
  unfold embed. destruct (query_credential validated) as [credential|e] eqn:E; intros [= <- <-]; [right|left; by eauto].
  unfold query_credential in E. rewrite bind_check, negb_false_iff in E. destruct E as (Hs & E).
  apply bind_Ok in E as (c & Hc%map_err_Ok & ([] & He%reject_if_Ok & [= <-])%bind_Ok).
  exists c. split; [done|]. split; [by intros ->|]. split; [done|]. split; [done|].
  intros q. rewrite bind_Ok. setoid_rewrite success_body_exact. setoid_rewrite parse_embedding_exact.
  unfold query_answered. naive_solver.
Qed.

Context {Value Decimal : Type}.
Context (as_number : Value -> option str) (decimal_from_str : str -> option Decimal).
Context (decimal_value : Decimal -> QArith_base.Q) (decimal_millionths : Decimal -> option N).
Context (parse_rerank_response : list Z -> result str (RerankResponseV2 Value)).
Context (rerank_json : RerankRevisionV2 -> result str (list Z)).

Notation apply := (apply_response as_number decimal_from_str decimal_value decimal_millionths parse_rerank_response
                     sha256_hex rerank_json).

(** No candidates need no call; otherwise one call, for a revision that is the one of the policy. *)
Lemma rerank_exact server text candidates policy revision reference calls answer :
  rerank_candidates sha256_hex status_text as_number decimal_from_str decimal_value decimal_millionths
    parse_rerank_response rerank_json server text candidates policy revision reference = (calls, answer) ->
  (candidates = [] /\ calls = [] /\ answer = Ok []) \/ (calls = [] /\ exists e, answer = Err e)
  \/ exists credential, resolve reference = Ok credential /\ credential <> []
     /\ starts_with (rr_endpoint_identity revision) HTTPS = true
     /\ rerank_digest sha256_hex rerank_json revision = Some (rp_revision_sha256 (rerank policy))
     /\ calls = [rerank_call text candidates policy revision credential]
     /\ forall out, answer = Ok out <-> exists response bytes,
          server (rerank_call text candidates policy revision credential) = Ok response
          /\ is_success (status response) = true /\ body_read STRICT_V2_MAX_RESPONSE_BYTES response bytes
          /\ apply bytes candidates policy revision = Ok out.
Proof.
  unfold rerank_candidates. destruct candidates as [|c cs]; [intros [= <- <-]; by left|]. set (candidates := c :: cs).
  destruct (rerank_credential _ _ _ _ _) as [credential|e] eqn:E; intros [= <- <-]; right; [right|left; by eauto].
  unfold rerank_credential in E. rewrite !bind_check, negb_false_iff, !orb_false_iff, !negb_false_iff,
    bool_decide_eq_true in E. destruct E as (Hs & ((Hd & _) & _) & E).
  apply bind_Ok in E as (c' & Hc & ([] & He%reject_if_Ok & [= <-])%bind_Ok).
  exists c'. split; [done|]. split; [by intros ->|]. split; [done|]. split; [done|]. split; [done|].
  intros out. rewrite bind_Ok. setoid_rewrite success_body_exact. naive_solver.
Qed.
End clients.

(** ** A concrete run *)

Definition one (e : Z) : f32 := S754_finite false 1 e.
Definition demo_vector (e : Z) : list f32 := replicate 1024 (one e).

Definition demo_inputs : list VectorEmbeddingInputV2 :=
  [ {| vi_chunk_id := 1; vi_canonical_input := u8"Intro
alpha"; vi_indexed_content_sha256 := replicate 64 73%Z |};
    {| vi_chunk_id := 2; vi_canonical_input := u8"Setup
beta"; vi_indexed_content_sha256 := replicate 64 83%Z |} ].

(** The provider answers the second input first. *)
Definition demo_parse_batch (bytes : list Z) : result str EmbeddingBatchResponseV2 :=
  Ok {| er_data := [(1%nat, demo_vector 0); (0%nat, demo_vector (-1))]; er_model := u8"bge/m3@2024-02-29";
        er_model_revision_sha256 := replicate 64 101%Z;
        er_request_config_sha256 := EMBEDDING_REQUEST_CONFIG_SHA256_V2 |}.

Definition demo_server {Call} (_ : list Call) (_ : Call) : result str HttpResponse :=
  Ok {| status := 200; content_length := Some 4; body_chunks := [Ok [1; 2]%Z; Ok [3; 4]%Z] |}.

Definition demo_secret_env (variable : str) : option str :=
  if str_eqb variable (u8"EMBED_KEY") then Some (u8"secret") else None.

Definition demo_batch_run : list EmbeddingCall * result VectorIndexErrorV2 (list (list f32)) :=
  embed_batch demo_artifact_sha demo_parse_batch (fun _ => []) demo_server
    (Resolver := EnvironmentVectorCredentials demo_secret_env) demo_embedding_revision (u8"env:EMBED_KEY") demo_inputs.

Lemma embed_batch_exact_witness :
  map ec_bearer demo_batch_run.1 = [u8"secret"]
  /\ exists vectors, demo_batch_run.2 = Ok vectors /\ vectors = [demo_vector (-1); demo_vector 0]
  /\ Forall valid_vector vectors.
Proof.
  split; [vm_compute; reflexivity|]. eexists. split; [vm_compute; reflexivity|]. split; [vm_compute; reflexivity|].
  destruct (embed_batch_exact demo_artifact_sha demo_parse_batch (fun _ => []) demo_server
    (Resolver := EnvironmentVectorCredentials demo_secret_env) demo_embedding_revision (u8"env:EMBED_KEY") demo_inputs
    demo_batch_run.1 demo_batch_run.2 ltac:(discriminate) ltac:(vm_compute; reflexivity)) as (_ & _ & H).
  exact (proj2 (H _ ltac:(vm_compute; reflexivity))).
Defined.
