(* ===== verification/Lexical.v ===== *)
(** * [crates/knowledge/src/knowledge_retrieval_pg/mod.rs] and
      [crates/knowledge/src/knowledge_retrieval.rs]: lexical retrieval (contract v1)

    The requests of the first contract, the lexical score of a chunk, the choice of the hits
    within the quotas and the validator of the batch.  The rows of the query, lower case
    ([str::to_lowercase]), SHA-256, the text of identifiers and [rust_decimal] are parameters. *)
From S2P Require Import Prelude RustStr Policy Order Rank Recall Selection Evidence.

Local Open Scope N_scope.

Definition KNOWLEDGE_EVIDENCE_SCHEMA_V1 : N := 1.
Definition KNOWLEDGE_EVIDENCE_CONTRACT_V1 : str := u8"knowledge-evidence-v1".
Definition ABSOLUTE_MAX_HITS : N := 256.
Definition ABSOLUTE_MAX_CHUNK_BYTES : N := 1048576.
Definition ABSOLUTE_MAX_TOTAL_BYTES : N := 16777216.
Definition V2_MAX_HITS : N := 1000000.
Definition V2_MAX_CHUNK_BYTES : N := 1073741824.
Definition V2_MAX_TOTAL_BYTES : N := 1099511627776.

Record ProductEvidenceRequestV1 := {
  pe_schema_version : N; pe_requirement_identity_sha256 : str; pe_requirement_text : str;
  pe_product_version_ids : list N; pe_retrieval_policy : RetrievalPolicyIdentityV1;
}.
Record CompanyEvidenceRequestV1 := {
  ce_schema_version : N; ce_requirement_identity_sha256 : str; ce_requirement_text : str;
  ce_library_version_ids : list N; ce_retrieval_policy : RetrievalPolicyIdentityV1;
}.
Record KnowledgeEvidenceHitV1 := {
  h1_schema_version : N; h1_document_id : N; h1_source_chunk_id : N; h1_product_id : N;
  h1_product_version_id : N; h1_workspace_kind : str; h1_display_name : str; h1_chunk_utf8 : str;
  h1_chunk_sha256 : str; h1_chunk_byte_length : N; h1_quote_start_offset : N; h1_quote_end_offset : N;
  h1_offset_unit : str; h1_retrieval_rank : N; h1_retrieval_raw_score : str; h1_retrieval_contract_version : str;
}.
Record KnowledgeEvidenceBatchV1 := {
  b1_schema_version : N; b1_eligible_versions : list EligibleEvidenceVersionV1; b1_hits : list KnowledgeEvidenceHitV1;
}.
Record RetrievalQuery := {
  q_workspace_kind : str; q_requirement_identity_sha256 : str; q_requirement_text : str;
  q_selected_versions : list N; q_policy : RetrievalPolicyIdentityV1;
}.

(** ** Requests *)

Inductive RetrievalContract := LexicalV1.

Definition dispatch_contract (contract_version : str) : result KnowledgeRetrievalError RetrievalContract :=
  if str_eqb contract_version KNOWLEDGE_EVIDENCE_CONTRACT_V1 then Ok LexicalV1
  else if str_eqb contract_version KNOWLEDGE_EVIDENCE_CONTRACT_V2 then
    Err (InvalidRequest (u8"knowledge-evidence-v2 is not available until the v2 implementation"))
  else Err (InvalidRequest (u8"unsupported knowledge evidence contract: " ++ contract_version)).

Definition is_sha256 (value : str) : bool :=
  (blen value =? 64)%nat && forallb (fun b => is_ascii_hexdigit b && negb (is_ascii_uppercase b)) (as_bytes value).

Definition validate_request (requirement_sha256 requirement_text contract_version policy_sha256 : str)
    (max_hits max_chunk_bytes max_total_bytes : N) : result KnowledgeRetrievalError unit :=
  reject_if
    (negb (is_sha256 requirement_sha256) || negb (is_sha256 policy_sha256)
     || str_is_empty (trim requirement_text) || str_is_empty contract_version
     || (max_hits =? 0) || (ABSOLUTE_MAX_HITS <? max_hits)
     || (max_chunk_bytes =? 0) || (ABSOLUTE_MAX_CHUNK_BYTES <? max_chunk_bytes)
     || (max_total_bytes =? 0) || (ABSOLUTE_MAX_TOTAL_BYTES <? max_total_bytes))
    (InvalidRequest (u8"invalid evidence scope, policy, or quota")).

(** The set of the selected versions and its size. *)
Definition selected_unique (selected : list N) : bool :=
  (size (list_to_set selected : gset N) =? length selected)%nat
  && negb (bool_decide (0 ∈ (list_to_set selected : gset N))).

Definition validate_request_v2 (to_lowercase : char -> str) (request_schema_version : N)
    (requirement_sha256 requirement_text : str) (selected : list N) (policy : RetrievalPolicyIdentityV1)
    : result KnowledgeRetrievalError unit :=
  reject_if
    (negb (request_schema_version =? KNOWLEDGE_EVIDENCE_SCHEMA_V1)
     || negb (str_eqb (contract_version policy) KNOWLEDGE_EVIDENCE_CONTRACT_V2)
     || negb (is_sha256 requirement_sha256) || negb (is_sha256 (policy_sha256 policy))
     || str_is_empty (normalize_exact_v2 to_lowercase requirement_text)
     || (max_hits policy =? 0) || (V2_MAX_HITS <? max_hits policy)
     || (max_chunk_bytes policy =? 0) || (V2_MAX_CHUNK_BYTES <? max_chunk_bytes policy)
     || (max_total_bytes policy =? 0) || (V2_MAX_TOTAL_BYTES <? max_total_bytes policy)
     || negb (selected_unique selected))
    (InvalidRequest (u8"invalid v2 evidence scope, policy, or quota")).

(** ** The lexical score *)

(** [s.split_whitespace()] *)
Fixpoint split_whitespace_loop (s word : str) : list str :=
  match s with
  | [] => match word with [] => [] | _ => [reverse word] end
  | c :: s' =>
    if is_whitespace c then
      match word with [] => split_whitespace_loop s' [] | _ => reverse word :: split_whitespace_loop s' [] end
    else split_whitespace_loop s' (c :: word)
  end.
Definition split_whitespace (s : str) : list str := split_whitespace_loop s [].

(** [chars.windows(2)] as strings. *)
Fixpoint bigrams (s : str) : list str :=
  match s with
  | a :: (b :: _) as rest => [a; b] :: bigrams rest
  | _ => []
  end.

Definition lexical_terms (value : str) : gset str :=
  let words := List.filter (fun part => negb (str_is_empty part)) (map trim (split_whitespace value)) in
  if (1 <? length words)%nat then list_to_set words
  else list_to_set (bigrams (List.filter (fun c => negb (is_whitespace c)) value)).

Section lexical.

(** [rust_decimal]: zero, one, whole numbers, division, comparison, rounding to six places
    ([MidpointNearestEven]), [rescale(6)] and [{:.6}]. *)
Context {Decimal : Type} (dec_zero dec_one : Decimal) (dec_from : N -> Decimal).
Context (dec_div : Decimal -> Decimal -> Decimal) (dec_cmp : Decimal -> Decimal -> comparison).
Context (dec_round6 dec_rescale6 : Decimal -> Decimal) (dec_show6 : Decimal -> str).
(** [str::to_lowercase], [hex::encode(Sha256::digest(_))] and [Uuid]'s [Display]. *)
Context (to_lowercase : str -> str) (sha256_hex : str -> str) (uuid_to_string : N -> str).

Definition fixed_six (value : Decimal) : str := dec_show6 (dec_rescale6 (dec_round6 value)).

Definition lexical_score (requirement content : str) : Decimal :=
  let requirement := to_lowercase (trim requirement) in
  let content := to_lowercase content in
  if str_is_empty requirement || str_is_empty content then dec_zero
  else if contains content requirement then dec_one
  else
    let required := lexical_terms requirement in
    if bool_decide (required = ∅) then dec_zero
    else
      let available := lexical_terms content in
      let matched := size (filter (fun term => term ∈ available) required) in
      dec_div (dec_from (N.of_nat matched)) (dec_from (N.of_nat (size required))).

(** ** Validators *)

Definition is_decimal_literal (value : str) : bool :=
  let value := default value (strip_prefix value (u8"-")) in
  let parts := split_char C_DOT value in
  let integer := default [] (parts !! 0%nat) in
  negb (str_is_empty integer) && forallb is_ascii_digit (as_bytes integer)
  && match parts !! 1%nat with
     | None => true
     | Some part => negb (str_is_empty part) && forallb is_ascii_digit (as_bytes part)
     end
  && negb (bool_decide (is_Some (parts !! 2%nat))).

Record V1State := { v1_identities : gset (N * N * N * N); v1_total_bytes : N }.

Definition E_V1_HIT : str := u8"evidence scope, bytes, digest, offset, rank, or identity is invalid".

Section validate.
Context (expected_workspace_kind : str) (policy : RetrievalPolicyIdentityV1).

Definition v1_hit_wrong (index : nat) (hit : KnowledgeEvidenceHitV1) : bool :=
  let chunk_len := blen (h1_chunk_utf8 hit) in
  let start := N.to_nat (h1_quote_start_offset hit) in
  let stop := N.to_nat (h1_quote_end_offset hit) in
  negb (h1_schema_version hit =? KNOWLEDGE_EVIDENCE_SCHEMA_V1)
  || negb (str_eqb (h1_workspace_kind hit) expected_workspace_kind)
  || is_nil (h1_document_id hit) || is_nil (h1_source_chunk_id hit)
  || is_nil (h1_product_id hit) || is_nil (h1_product_version_id hit)
  || str_is_empty (h1_display_name hit)
  || negb (str_eqb (h1_retrieval_contract_version hit) (contract_version policy))
  || negb (str_eqb (h1_offset_unit hit) UTF8_BYTE_OFFSET_UNIT)
  || negb (h1_chunk_byte_length hit =? N.of_nat chunk_len)
  || (max_chunk_bytes policy <? h1_chunk_byte_length hit)
  || negb (str_eqb (h1_chunk_sha256 hit) (sha256_hex (h1_chunk_utf8 hit)))
  || (stop <=? start)%nat || (chunk_len <? stop)%nat
  || negb (is_char_boundary (h1_chunk_utf8 hit) start)
  || negb (is_char_boundary (h1_chunk_utf8 hit) stop)
  || negb (h1_retrieval_rank hit =? (N.of_nat index + 1) mod 4294967296)
  || negb (is_decimal_literal (h1_retrieval_raw_score hit)).

Definition v1_hit_step (st : V1State) (entry : nat * KnowledgeEvidenceHitV1)
    : result KnowledgeRetrievalError V1State :=
  let '(index, hit) := entry in
  bytes ← ok_or (u64_checked_add (v1_total_bytes st) (N.of_nat (blen (h1_chunk_utf8 hit))))
            (InvalidHit (u8"hit byte quota overflow"));
  let identity := (h1_document_id hit, h1_source_chunk_id hit, h1_quote_start_offset hit, h1_quote_end_offset hit) in
  _ ← reject_if (v1_hit_wrong index hit || bool_decide (identity ∈ v1_identities st)) (InvalidHit E_V1_HIT);
  Ok {| v1_identities := {[identity]} ∪ v1_identities st; v1_total_bytes := bytes |}.

Definition validate_evidence_hit_batch (hits : list KnowledgeEvidenceHitV1) : result KnowledgeRetrievalError unit :=
  _ ← reject_if
        (negb (existsb (str_eqb expected_workspace_kind) WORKSPACE_KINDS) || str_is_empty (contract_version policy)
         || (max_hits policy =? 0) || (max_chunk_bytes policy =? 0) || (max_total_bytes policy =? 0)
         || (N.to_nat (max_hits policy) <? length hits)%nat)
        (InvalidHit (u8"invalid expected scope or returned-hit quota"));
  st ← foldR v1_hit_step {| v1_identities := ∅; v1_total_bytes := 0 |} (imap pair hits);
  reject_if (max_total_bytes policy <? v1_total_bytes st) (InvalidHit (u8"returned-hit byte quota exceeded")).

Definition v1_eligible_step (eligible : gset (N * N)) (v : EligibleEvidenceVersionV1)
    : result KnowledgeRetrievalError (gset (N * N)) :=
  let key := (el_product_id v, el_product_version_id v) in
  _ ← reject_if
        (is_nil (el_product_id v) || is_nil (el_product_version_id v)
         || negb (str_eqb (el_workspace_kind v) expected_workspace_kind)
         || str_is_empty (el_display_name v) || bool_decide (key ∈ eligible))
        (InvalidHit (u8"invalid or duplicate eligible evidence version"));
  Ok ({[key]} ∪ eligible).

Definition validate_evidence_batch (batch : KnowledgeEvidenceBatchV1) : result KnowledgeRetrievalError unit :=
  _ ← reject_if (negb (b1_schema_version batch =? KNOWLEDGE_EVIDENCE_SCHEMA_V1))
        (InvalidHit (u8"invalid evidence batch schema"));
  eligible ← foldR v1_eligible_step ∅ (b1_eligible_versions batch);
  _ ← validate_evidence_hit_batch (b1_hits batch);
  reject_if
    (existsb (fun hit => negb (bool_decide ((h1_product_id hit, h1_product_version_id hit) ∈ eligible))) (b1_hits batch))
    (InvalidHit (u8"evidence hit is outside the eligible version scope")).

End validate.

(** ** [retrieve] *)

(** A row of the query (left joins: a version may have no document, a document no chunk). *)
Record LexicalRow := {
  lr_source_chunk_id : option N; lr_content : option str; lr_document_id : option N; lr_file_name : option str;
  lr_product_id : N; lr_product_version_id : N;
}.

Record RankedRow := {
  rk_score : Decimal; rk_product_id : N; rk_product_version_id : N; rk_document_id : N; rk_source_chunk_id : N;
  rk_file_name : str; rk_chunk_utf8 : str;
}.

Definition compare_ranked (l r : RankedRow) : comparison :=
  cmp_then (dec_cmp (rk_score r) (rk_score l))
 (cmp_then (rk_product_id l ?= rk_product_id r)
 (cmp_then (rk_product_version_id l ?= rk_product_version_id r)
 (cmp_then (rk_document_id l ?= rk_document_id r) (rk_source_chunk_id l ?= rk_source_chunk_id r)))).

Record LexicalState := { ls_ranked : list RankedRow; ls_eligible : list EligibleEvidenceVersionV1 }.

(** The body of the loop over the rows. *)
Definition lexical_step (workspace_kind requirement_text : str) (st : LexicalState) (row : LexicalRow)
    : result KnowledgeRetrievalError LexicalState :=
  let eligible := eligible_insert
        {| el_product_id := lr_product_id row; el_product_version_id := lr_product_version_id row;
           el_workspace_kind := workspace_kind; el_display_name := uuid_to_string (lr_product_version_id row) |}
        (ls_eligible st) in
  match lr_content row with
  | None => Ok {| ls_ranked := ls_ranked st; ls_eligible := eligible |}
  | Some chunk_utf8 =>
    match lr_document_id row, lr_source_chunk_id row, lr_file_name row with
    | Some document_id, Some source_chunk_id, Some file_name =>
      Ok {| ls_ranked := ls_ranked st ++
              [{| rk_score := lexical_score requirement_text chunk_utf8; rk_product_id := lr_product_id row;
                  rk_product_version_id := lr_product_version_id row; rk_document_id := document_id;
                  rk_source_chunk_id := source_chunk_id; rk_file_name := file_name; rk_chunk_utf8 := chunk_utf8 |}];
            ls_eligible := eligible |}
    | _, _, _ => Err (Unavailable (u8"retrieval query returned a partial hit projection"))
    end
  end.

(** The loop that fills the quotas; it stops when there are enough hits.  The sum of bytes is
    below the quota plus one chunk, far below [2^64]. *)
Fixpoint choose (policy : RetrievalPolicyIdentityV1) (rows chosen : list RankedRow) (chosen_chunks : gset N)
    (chosen_bytes : N) : list RankedRow :=
  match rows with
  | [] => chosen
  | row :: rows =>
    if (N.to_nat (max_hits policy) <=? length chosen)%nat then chosen
    else if is_le (dec_cmp (rk_score row) dec_zero) then choose policy rows chosen chosen_chunks chosen_bytes
    else if bool_decide (rk_source_chunk_id row ∈ chosen_chunks) then
      choose policy rows chosen chosen_chunks chosen_bytes
    else
      let chosen_chunks := {[rk_source_chunk_id row]} ∪ chosen_chunks in
      let next_bytes := chosen_bytes + N.of_nat (blen (rk_chunk_utf8 row)) in
      if next_bytes <=? max_total_bytes policy then
        choose policy rows (chosen ++ [row]) chosen_chunks next_bytes
      else choose policy rows chosen chosen_chunks chosen_bytes
  end.

Definition lexical_hit (workspace_kind : str) (policy : RetrievalPolicyIdentityV1) (index : nat) (row : RankedRow)
    : KnowledgeEvidenceHitV1 :=
  let chunk_byte_length := N.of_nat (blen (rk_chunk_utf8 row)) in
  {| h1_schema_version := KNOWLEDGE_EVIDENCE_SCHEMA_V1; h1_document_id := rk_document_id row;
     h1_source_chunk_id := rk_source_chunk_id row; h1_product_id := rk_product_id row;
     h1_product_version_id := rk_product_version_id row; h1_workspace_kind := workspace_kind;
     h1_display_name := rk_file_name row; h1_chunk_utf8 := rk_chunk_utf8 row;
     h1_chunk_sha256 := sha256_hex (rk_chunk_utf8 row); h1_chunk_byte_length := chunk_byte_length;
     h1_quote_start_offset := 0; h1_quote_end_offset := chunk_byte_length;
     h1_offset_unit := UTF8_BYTE_OFFSET_UNIT; h1_retrieval_rank := (N.of_nat index + 1) mod 4294967296;
     h1_retrieval_raw_score := fixed_six (rk_score row);
     h1_retrieval_contract_version := contract_version policy |}.

(** [rows workspace_kind selected max_chunk_bytes]: the answer of the database. *)
Definition retrieve (rows : str -> list N -> N -> result str (list LexicalRow)) (query : RetrievalQuery)
    : result KnowledgeRetrievalError KnowledgeEvidenceBatchV1 :=
  let policy := q_policy query in
  let kind := q_workspace_kind query in
  _ ← dispatch_contract (contract_version policy);
  _ ← validate_request (q_requirement_identity_sha256 query) (q_requirement_text query) (contract_version policy)
        (policy_sha256 policy) (max_hits policy) (max_chunk_bytes policy) (max_total_bytes policy);
  let selected_ids : gset N := list_to_set (q_selected_versions query) in
  _ ← reject_if (negb (size selected_ids =? length (q_selected_versions query))%nat || bool_decide (0 ∈ selected_ids))
        (InvalidRequest (u8"selected versions must be unique, non-nil UUIDs"));
  rows ← map_err Unavailable (rows kind (q_selected_versions query) (max_chunk_bytes policy));
  st ← foldR (lexical_step kind (q_requirement_text query)) {| ls_ranked := []; ls_eligible := [] |} rows;
  _ ← reject_if
        (negb (bool_decide (selected_ids = ∅))
         && negb (bool_decide (list_to_set (map el_product_version_id (ls_eligible st)) = selected_ids)))
        (InvalidRequest E_SCOPE);
  let ranked := sort_with compare_ranked (ls_ranked st) in
  let chosen := choose policy ranked [] ∅ 0 in
  let batch := {| b1_schema_version := KNOWLEDGE_EVIDENCE_SCHEMA_V1; b1_eligible_versions := ls_eligible st;
                  b1_hits := imap (lexical_hit kind policy) chosen |} in
  _ ← validate_evidence_batch kind policy batch;
  Ok batch.

Definition PRODUCT_LINE : str := u8"product_line".
Definition COMPANY : str := u8"company".

Definition retrieve_product_evidence (rows : str -> list N -> N -> result str (list LexicalRow))
    (request : ProductEvidenceRequestV1) : result KnowledgeRetrievalError KnowledgeEvidenceBatchV1 :=
  _ ← reject_if (negb (pe_schema_version request =? KNOWLEDGE_EVIDENCE_SCHEMA_V1))
        (InvalidRequest (u8"unsupported ProductEvidenceRequestV1 schema_version"));
  retrieve rows
    {| q_workspace_kind := PRODUCT_LINE; q_requirement_identity_sha256 := pe_requirement_identity_sha256 request;
       q_requirement_text := pe_requirement_text request; q_selected_versions := pe_product_version_ids request;
       q_policy := pe_retrieval_policy request |}.

Definition retrieve_company_evidence (rows : str -> list N -> N -> result str (list LexicalRow))
    (request : CompanyEvidenceRequestV1) : result KnowledgeRetrievalError KnowledgeEvidenceBatchV1 :=
  _ ← reject_if (negb (ce_schema_version request =? KNOWLEDGE_EVIDENCE_SCHEMA_V1))
        (InvalidRequest (u8"unsupported CompanyEvidenceRequestV1 schema_version"));
  retrieve rows
    {| q_workspace_kind := COMPANY; q_requirement_identity_sha256 := ce_requirement_identity_sha256 request;
       q_requirement_text := ce_requirement_text request; q_selected_versions := ce_library_version_ids request;
       q_policy := ce_retrieval_policy request |}.

End lexical.
