(* ===== verification/LexicalFacts.v ===== *)
(** * Facts about lexical retrieval

    The loop that fills the quotas, and the batch of [retrieve]: what a request without
    errors delivers, and that its own validator accepts it. *)
From S2P Require Import Prelude RustStr NumText Policy Order Rank Recall Selection Evidence BatchFacts RerankFacts RetrieveFacts Lexical.

Local Open Scope N_scope.
#[local] Arguments lit : simpl never.

(** ** Filling the quotas *)

Section choose.
Context {Decimal : Type} (dec_zero : Decimal) (dec_cmp : Decimal -> Decimal -> comparison).
Context (policy : RetrievalPolicyIdentityV1).
Notation choose := (choose dec_zero dec_cmp policy).
Notation Row := (RankedRow (Decimal:=Decimal)).

Definition positive (row : Row) : Prop := is_le (dec_cmp (rk_score row) dec_zero) = false.
Definition row_bytes (row : Row) : N := N.of_nat (blen (rk_chunk_utf8 row)).
Definition rows_bytes (rows : list Row) : N := foldr (fun r n => row_bytes r + n) 0 rows.

Lemma rows_bytes_app a b : rows_bytes (a ++ b) = rows_bytes a + rows_bytes b.
Proof.
  induction a as [|r a IH]; [done|]. change (rows_bytes ((r :: a) ++ b)) with (row_bytes r + rows_bytes (a ++ b)).
  change (rows_bytes (r :: a)) with (row_bytes r + rows_bytes a). rewrite IH. lia.
Qed.

(** The quotas leave no room for [r] after the rows [taken]. *)
Definition no_room (taken : list Row) (r : Row) : Prop :=
  length taken = N.to_nat (max_hits policy) \/ max_total_bytes policy < rows_bytes taken + row_bytes r.

(** What the loop adds to the rows chosen before.  It goes through the rows from the first on: a
    positive row is left out only when those taken before it, from [chosen] and from the rows in
    front of it, leave no room for it. *)
Record chosen_from (rows chosen extra : list Row) : Prop := {
  cf_rows : sublist extra rows;
  cf_positive : Forall positive extra;
  cf_hits : (length (chosen ++ extra) <= N.to_nat (max_hits policy))%nat;
  cf_bytes : rows_bytes (chosen ++ extra) <= max_total_bytes policy;
  cf_first : forall before r after, rows = before ++ r :: after -> positive r -> r ∉ extra ->
    exists front back, extra = front ++ back /\ sublist front before /\ sublist back after
    /\ no_room (chosen ++ front) r;
}.

Lemma chosen_from_skip row rows chosen extra :
  chosen_from rows chosen extra -> (positive row -> no_room chosen row) ->
  chosen_from (row :: rows) chosen extra.
Proof.
  intros [H1 H2 H3 H4 H5] Hrow. split; [by apply sublist_cons|done..|].
  intros [|b before] r after E Hp Hr; injection E as <- E.
  - subst after. exists [], extra. rewrite app_nil_r. split; [done|]. split; [done|]. split; [done|by apply Hrow].
  - destruct (H5 _ _ _ E Hp Hr) as (front & back & Ex & Hf & Hb & Hn). exists front, back.
    split; [done|]. split; [by apply sublist_cons|done].
Qed.

Lemma chosen_from_take row rows chosen extra :
  positive row -> chosen_from rows (chosen ++ [row]) extra -> chosen_from (row :: rows) chosen (row :: extra).
Proof.
  intros Hrow [H1 H2 H3 H4 H5]. rewrite <- app_assoc in H3, H4.
  split; [by apply sublist_skip|by constructor|done|done|].
  intros [|b before] r after E Hp Hr; injection E as <- E; [destruct Hr; by left|].
  destruct (H5 _ _ _ E Hp) as (front & back & -> & Hf & Hb & Hn); [intros Hin; apply Hr; by right|].
  rewrite <- app_assoc in Hn. exists (row :: front), back. split; [done|]. split; [by apply sublist_skip|done].
Qed.

Lemma chosen_from_full rows chosen :
  length chosen = N.to_nat (max_hits policy) -> rows_bytes chosen <= max_total_bytes policy -> chosen_from rows chosen [].
Proof.
  intros Hl Hb. split; rewrite ?app_nil_r; [apply sublist_nil_l|constructor|by rewrite Hl|done|].
  intros before r after _ _ _. exists [], [].
  split; [done|]. split; [apply sublist_nil_l|]. split; [apply sublist_nil_l|left; by rewrite app_nil_r].
Qed.

Lemma choose_spec rows : forall chosen chunks,
  NoDup (map rk_source_chunk_id rows) -> (forall r, r ∈ rows -> rk_source_chunk_id r ∉ chunks) ->
  (length chosen <= N.to_nat (max_hits policy))%nat -> rows_bytes chosen <= max_total_bytes policy ->
  exists extra, choose rows chosen chunks (rows_bytes chosen) = chosen ++ extra /\ chosen_from rows chosen extra.
Proof.
  induction rows as [|row rows IH]; intros chosen chunks Hnd Hch Hl Hb; cbn [Lexical.choose].
  { exists []. rewrite app_nil_r. split; [done|]. split; rewrite ?app_nil_r; [constructor|constructor|done|done|].
    intros before r after E. by destruct before. }
  apply NoDup_cons in Hnd as [Hnew Hnd].
  destruct (Nat.leb_spec (N.to_nat (max_hits policy)) (length chosen)) as [Hfull|Hroom].
  { exists []. rewrite app_nil_r. split; [done|]. apply chosen_from_full; [lia|done]. }
  assert (Hch' : forall r, r ∈ rows -> rk_source_chunk_id r ∉ chunks) by (intros r Hr; apply Hch; by right).
  destruct (is_le (dec_cmp (rk_score row) dec_zero)) eqn:Escore.
  { destruct (IH chosen chunks Hnd Hch' Hl Hb) as (extra & -> & H). exists extra. split; [done|].
    apply chosen_from_skip; [done|]. unfold positive. by rewrite Escore. }
  rewrite bool_decide_eq_false_2 by (apply Hch; by left).
  assert (Hch2 : forall r, r ∈ rows -> rk_source_chunk_id r ∉ {[rk_source_chunk_id row]} ∪ chunks).
  { intros r Hr. rewrite not_elem_of_union, not_elem_of_singleton. split; [|by apply Hch'].
    intros E. apply Hnew. rewrite <- E. apply list_elem_of_fmap. by exists r. }
  destruct (N.leb_spec (rows_bytes chosen + N.of_nat (blen (rk_chunk_utf8 row))) (max_total_bytes policy)) as [Hfit|Hbig].
  - destruct (IH (chosen ++ [row]) ({[rk_source_chunk_id row]} ∪ chunks)) as (extra & E & H); [done|done| | |].
    { rewrite length_app. cbn. lia. }
    { rewrite rows_bytes_app. cbn. unfold row_bytes. lia. }
    exists (row :: extra). rewrite rows_bytes_app in E. cbn [rows_bytes foldr] in E. unfold row_bytes in E.
    rewrite N.add_0_r in E. rewrite E, <- app_assoc. split; [done|by apply chosen_from_take].
  - destruct (IH chosen ({[rk_source_chunk_id row]} ∪ chunks) Hnd Hch2 Hl Hb) as (extra & -> & H). exists extra. split; [done|].
    apply chosen_from_skip; [done|]. intros _. right. unfold row_bytes. lia.
Qed.

End choose.

(** ** Decimal literals *)

(** What [{:.6}] writes: an optional sign, digits, a point, six digits. *)
Definition decimal_text (s : str) : Prop :=
  exists (negative : bool) whole fraction, s = (if negative then [DASH] else []) ++ whole ++ [C_DOT] ++ fraction
  /\ whole <> [] /\ length fraction = 6%nat /\ Forall (fun c => is_ascii_digit c = true) (whole ++ fraction).

Lemma digits_no_dot s : Forall (fun c => is_ascii_digit c = true) s -> C_DOT ∉ s.
Proof. intros H Hin. rewrite Forall_forall in H. by apply H in Hin. Qed.

Lemma decimal_text_literal s : decimal_text s -> is_decimal_literal s = true.
Proof.
  intros (negative & whole & fraction & -> & Hw & Hl & [Dw Df]%Forall_app). unfold is_decimal_literal.
  change (u8"-") with [DASH].
  assert (default ((if negative then [DASH] else []) ++ whole ++ [C_DOT] ++ fraction)
    (strip_prefix ((if negative then [DASH] else []) ++ whole ++ [C_DOT] ++ fraction) [DASH])
    = whole ++ [C_DOT] ++ fraction) as ->.
  { destruct negative; [by rewrite (proj2 (strip_prefix_Some _ [DASH] _) eq_refl)|].
    destruct (strip_prefix _ _) as [r|] eqn:E; [|done]. apply strip_prefix_Some in E.
    destruct whole as [|c whole]; [done|]. injection E as -> _. by apply Forall_inv in Dw. }
  rewrite split_char_app_sep, !split_char_free by (by apply digits_no_dot). cbn [app].
  change ([whole; fraction] !! 0%nat) with (Some whole). change ([whole; fraction] !! 1%nat) with (Some fraction).
  change ([whole; fraction] !! 2%nat) with (@None str). cbn [default]. unfold id.
  rewrite !(proj2 (digits_bytes _)) by done.
  assert (str_is_empty whole = false) as -> by (by apply str_is_empty_false).
  assert (str_is_empty fraction = false) as -> by (apply str_is_empty_false; by intros ->).
  done.
Qed.

(** ** The validator accepts what it asks for *)

Definition hit1_version (hit : KnowledgeEvidenceHitV1) : N * N := (h1_product_id hit, h1_product_version_id hit).
Definition hit1_identity (hit : KnowledgeEvidenceHitV1) : N * N * N * N :=
  (h1_document_id hit, h1_source_chunk_id hit, h1_quote_start_offset hit, h1_quote_end_offset hit).
Definition hit1_bytes (hits : list KnowledgeEvidenceHitV1) : N :=
  foldr (fun hit n => N.of_nat (blen (h1_chunk_utf8 hit)) + n) 0 hits.

Lemma v1_eligible_loop kind l : forall S,
  Forall (version_ok kind) l -> NoDup (map key_of l) -> (forall k, k ∈ map key_of l -> k ∉ S) ->
  foldR (v1_eligible_step kind) S l = Ok (list_to_set (map key_of l) ∪ S).
Proof.
  induction l as [|v l IH]; intros S F Hnd Hno.
  { cbn. by rewrite (left_id_L ∅ (∪)). }
  apply Forall_cons in F as [[H1 H2 H3 H4] F]. apply NoDup_cons in Hnd as [Hv Hnd]. cbn [foldR].
  unfold v1_eligible_step at 2. fold (key_of v). unfold is_nil.
  rewrite (proj2 (N.eqb_neq _ _) H1), (proj2 (N.eqb_neq _ _) H2), (proj2 (str_eqb_spec _ _) H3),
    (proj2 (str_is_empty_false _) H4).
  rewrite bool_decide_eq_false_2 by (apply Hno; by left). cbn [negb orb reject_if].
  cbn [mbind result_bind]. rewrite IH; [|done|done|].
  - f_equal. cbn [map list_to_set]. set_solver.
  - intros k Hk. specialize (Hno k ltac:(by right)). assert (k <> key_of v) by (by intros ->). set_solver.
Qed.

Lemma v1_hits_loop sha kind policy hits : forall n seen bytes,
  (forall i hit, hits !! i = Some hit -> v1_hit_wrong sha kind policy (n + i) hit = false) ->
  NoDup (map hit1_identity hits) -> (forall h, h ∈ hits -> hit1_identity h ∉ seen) ->
  bytes + hit1_bytes hits < u64_modulus ->
  exists seen', foldR (v1_hit_step sha kind policy) {| v1_identities := seen; v1_total_bytes := bytes |}
    (imap (fun i h => ((n + i)%nat, h)) hits) = Ok {| v1_identities := seen'; v1_total_bytes := bytes + hit1_bytes hits |}.
Proof.
  induction hits as [|h hits IH]; intros n seen bytes Hw Hnd Hseen Hb.
  { cbn. rewrite N.add_0_r. by eexists. }
  apply NoDup_cons in Hnd as [Hnew Hnd]. change (hit1_bytes (h :: hits)) with (N.of_nat (blen (h1_chunk_utf8 h)) + hit1_bytes hits) in *.
  cbn [imap foldR]. unfold v1_hit_step at 2. cbn [v1_total_bytes v1_identities]. unfold u64_checked_add.
  rewrite (proj2 (N.ltb_lt _ _)) by lia. cbn [ok_or]. cbn [mbind result_bind].
  rewrite (Hw 0%nat h eq_refl). fold (hit1_identity h).
  rewrite bool_decide_eq_false_2 by (apply Hseen; by left). cbn [orb reject_if]. cbn [mbind result_bind].
  rewrite (imap_ext ((fun i h => ((n + i)%nat, h)) ∘ S) (fun i h => ((S n + i)%nat, h)) hits)
    by (intros i x _; cbn; by rewrite Nat.add_succ_r).
  destruct (IH (S n) ({[hit1_identity h]} ∪ seen) (bytes + N.of_nat (blen (h1_chunk_utf8 h)))) as (seen' & E).
  - intros i hit Hi. rewrite Nat.add_succ_l, <- Nat.add_succ_r. by apply Hw.
  - done.
  - intros g Hg. specialize (Hseen g ltac:(by right)). assert (hit1_identity g <> hit1_identity h); [|set_solver].
    intros E. apply Hnew. rewrite <- E. apply list_elem_of_fmap. by exists g.
  - lia.
  - exists seen'. rewrite E, N.add_assoc. done.
Qed.

(** ** [retrieve] *)

Section retrieve.
Context {Decimal : Type} (dec_zero dec_one : Decimal) (dec_from : N -> Decimal).
Context (dec_div : Decimal -> Decimal -> Decimal) (dec_cmp : Decimal -> Decimal -> comparison).
Context (dec_round6 dec_rescale6 : Decimal -> Decimal) (dec_show6 : Decimal -> str).
Context (to_lowercase : str -> str) (sha256_hex : str -> str) (uuid_to_string : N -> str).
Context (rows : str -> list N -> N -> result str (list LexicalRow)).

(** The documented behaviour of the libraries: the order of decimals is total, [{:.6}] writes
    a decimal, nothing has no lower case, an identifier has a text. *)
Context (Hcmp : Comparator dec_cmp) (Hshow : forall d, decimal_text (dec_show6 d)).
Context (Hlower : to_lowercase [] = []) (Huuid : forall id, uuid_to_string id <> []).

Notation Row := (RankedRow (Decimal:=Decimal)).
Notation score := (lexical_score dec_zero dec_one dec_from dec_div to_lowercase).
Notation step := (lexical_step dec_zero dec_one dec_from dec_div to_lowercase uuid_to_string).
Notation compare := (compare_ranked dec_cmp).
Notation hit_of := (lexical_hit dec_round6 dec_rescale6 dec_show6 sha256_hex).
Notation retrieve := (retrieve dec_zero dec_one dec_from dec_div dec_cmp dec_round6 dec_rescale6 dec_show6
  to_lowercase sha256_hex uuid_to_string rows).

#[export] Instance comparator_ranked : Comparator compare.
Proof.
  unfold compare_ranked. apply (comparator_then (fun l r => dec_cmp (rk_score r) (rk_score l))).
  { apply (comparator_flip (fun l r => dec_cmp (rk_score l) (rk_score r))), comparator_proj, Hcmp. }
  repeat (apply comparator_then; [apply comparator_proj, _|]). apply comparator_proj, _.
Qed.

(** A row as the query delivers it: identifiers, names, and chunks within the limit. *)
Record lexical_row_ok (limit : N) (row : LexicalRow) : Prop := {
  lo_product : lr_product_id row <> 0; lo_version : lr_product_version_id row <> 0;
  lo_chunk : forall t, lr_content row = Some t -> N.of_nat (blen t) <= limit
    /\ exists d c n, lr_document_id row = Some d /\ lr_source_chunk_id row = Some c /\ lr_file_name row = Some n
       /\ d <> 0 /\ c <> 0 /\ n <> [];
}.

Definition lexical_version (row : LexicalRow) : N * N := (lr_product_id row, lr_product_version_id row).

(** The candidate a row stands for. *)
Definition ranked_of (text : str) (row : LexicalRow) : option Row :=
  t ← lr_content row; d ← lr_document_id row; c ← lr_source_chunk_id row; n ← lr_file_name row;
  Some {| rk_score := score text t; rk_product_id := lr_product_id row;
          rk_product_version_id := lr_product_version_id row; rk_document_id := d; rk_source_chunk_id := c;
          rk_file_name := n; rk_chunk_utf8 := t |}.

(** A candidate with identifiers and names, of a listed version, scored by its text. *)
Record candidate1_ok (text : str) (limit : N) (keys : list (N * N)) (r : Row) : Prop := {
  c1_product : rk_product_id r <> 0; c1_version : rk_product_version_id r <> 0; c1_document : rk_document_id r <> 0;
  c1_chunk : rk_source_chunk_id r <> 0; c1_name : rk_file_name r <> []; c1_bytes : row_bytes r <= limit;
  c1_score : rk_score r = score text (rk_chunk_utf8 r);
  c1_key : (rk_product_id r, rk_product_version_id r) ∈ keys;
}.

Lemma ranked_of_ok text limit keys row r : lexical_row_ok limit row -> lexical_version row ∈ keys ->
  ranked_of text row = Some r -> candidate1_ok text limit keys r.
Proof.
  intros [Hp Hv Hc] Hk. unfold ranked_of. destruct (lr_content row) as [t|]; [|done].
  destruct (Hc t eq_refl) as (Hl & d & c & n & -> & -> & -> & Hd & Hcc & Hn). intros [= <-]. by split.
Qed.

Definition listed (kind : str) (row : LexicalRow) : EligibleEvidenceVersionV1 :=
  {| el_product_id := lr_product_id row; el_product_version_id := lr_product_version_id row;
     el_workspace_kind := kind; el_display_name := uuid_to_string (lr_product_version_id row) |}.

Lemma lexical_step_ok kind text limit st row : lexical_row_ok limit row ->
  step kind text st row = Ok {| ls_ranked := ls_ranked st ++ option_list (ranked_of text row);
                                ls_eligible := eligible_insert (listed kind row) (ls_eligible st) |}.
Proof.
  intros [_ _ Hc]. unfold lexical_step, ranked_of. fold (listed kind row). destruct (lr_content row) as [t|].
  - destruct (Hc t eq_refl) as (_ & d & c & n & -> & -> & -> & _). done.
  - cbn. by rewrite app_nil_r.
Qed.

Lemma omap_cons_list {A B} (f : A -> option B) x l : omap f (x :: l) = option_list (f x) ++ omap f l.
Proof. cbn. by destruct (f x). Qed.

(** The loop over the rows collects the candidates in order and the versions sorted. *)
Lemma lexical_loop kind text limit rs : forall st,
  Forall (lexical_row_ok limit) rs ->
  StronglySorted version_lt (map key_of (ls_eligible st)) -> Forall (version_ok kind) (ls_eligible st) ->
  exists eligible, foldR (step kind text) st rs
    = Ok {| ls_ranked := ls_ranked st ++ omap (ranked_of text) rs; ls_eligible := eligible |}
  /\ StronglySorted version_lt (map key_of eligible) /\ Forall (version_ok kind) eligible
  /\ forall k, k ∈ map key_of eligible <-> k ∈ map key_of (ls_eligible st) \/ k ∈ map lexical_version rs.
Proof.
  induction rs as [|row rs IH]; intros st F Hs Hv.
  { exists (ls_eligible st). cbn. rewrite app_nil_r. destruct st. split; [done|]. split; [done|]. split; [done|].
    intros k. split; [by left|]. intros [H|H]; [done|by apply elem_of_nil in H]. }
  apply Forall_cons in F as [Hrow F]. cbn [foldR]. rewrite (lexical_step_ok kind text limit st row Hrow).
  cbn [mbind result_bind]. rewrite omap_cons_list, app_assoc.
  edestruct (IH {| ls_ranked := ls_ranked st ++ option_list (ranked_of text row);
                  ls_eligible := eligible_insert (listed kind row) (ls_eligible st) |} F)
    as (eligible & E & H1 & H2 & H3).
  { by apply eligible_insert_sorted. }
  { apply eligible_insert_Forall; [|done]. destruct Hrow. split; cbn; try done. }
  exists eligible. split; [exact E|]. split; [done|]. split; [done|]. intros k. rewrite H3.
  cbn [ls_eligible map]. rewrite eligible_insert_keys, elem_of_cons.
  change (key_of (listed kind row)) with (lexical_version row). tauto.
Qed.

(** Rank order: the higher score first, and equal scores by product, version, document and
    chunk. *)
Definition key_first (l r : Row) : Prop :=
  rk_product_id l < rk_product_id r \/ rk_product_id l = rk_product_id r /\
  (rk_product_version_id l < rk_product_version_id r \/ rk_product_version_id l = rk_product_version_id r /\
  (rk_document_id l < rk_document_id r \/ rk_document_id l = rk_document_id r /\
   rk_source_chunk_id l <= rk_source_chunk_id r)).
Definition ranks_first (l r : Row) : Prop :=
  dec_cmp (rk_score l) (rk_score r) = Gt \/ dec_cmp (rk_score l) (rk_score r) = Eq /\ key_first l r.

Lemma compare_ranked_first l r : is_le (compare l r) = true -> ranks_first l r.
Proof.
  unfold compare_ranked, cmp_then, ranks_first, key_first, is_le. rewrite (cmp_antisym (rk_score l) (rk_score r)).
  destruct (dec_cmp (rk_score l) (rk_score r)); cbn [CompOpp]; [|done|by left].
  intros H. right. split; [done|].
  destruct (N.compare_spec (rk_product_id l) (rk_product_id r)) as [E1|E1|E1]; [right; split; [done|]|by left|done].
  destruct (N.compare_spec (rk_product_version_id l) (rk_product_version_id r)) as [E2|E2|E2];
    [right; split; [done|]|by left|done].
  destruct (N.compare_spec (rk_document_id l) (rk_document_id r)) as [E3|E3|E3]; [right; split; [done|]|by left|done].
  destruct (N.compare_spec (rk_source_chunk_id l) (rk_source_chunk_id r)); [lia|lia|done].
Qed.

Lemma ranked_sorted l : StronglySorted ranks_first (sort_with compare l).
Proof.
  pose proof (sort_with_sorted compare l) as H. induction H as [|x l' _ IH F]; constructor; [done|].
  eapply Forall_impl; [exact F|apply compare_ranked_first].
Qed.

(** What a request that is answered delivers: the versions of the rows, in order, and the
    candidates the quotas leave, numbered in rank order. *)
Record lexical_answer (query : RetrievalQuery) (rs : list LexicalRow) (batch : KnowledgeEvidenceBatchV1)
    (chosen : list Row) : Prop := {
  la_sorted : StronglySorted version_lt (map key_of (b1_eligible_versions batch));
  la_versions : forall k, k ∈ map key_of (b1_eligible_versions batch) <-> k ∈ map lexical_version rs;
  la_hits : b1_hits batch = imap (hit_of (q_workspace_kind query) (q_policy query)) chosen;
  la_chosen : exists ranked, ranked ≡ₚ omap (ranked_of (q_requirement_text query)) rs
                /\ StronglySorted ranks_first ranked
                /\ chosen_from dec_zero dec_cmp (q_policy query) ranked [] chosen;
}.

Lemma nothing_scores_zero text : score text [] = dec_zero.
Proof. unfold lexical_score. rewrite Hlower. by rewrite orb_true_r. Qed.

Lemma positive_nonempty text limit keys r :
  candidate1_ok text limit keys r -> positive dec_zero dec_cmp r -> rk_chunk_utf8 r <> [].
Proof.
  intros Hc Hp E. unfold positive in Hp. rewrite (c1_score _ _ _ _ Hc), E, nothing_scores_zero in Hp.
  by rewrite (cmp_refl dec_cmp) in Hp.
Qed.

Lemma hit_of_right kind policy text keys i r :
  candidate1_ok text (max_chunk_bytes policy) keys r -> positive dec_zero dec_cmp r ->
  v1_hit_wrong sha256_hex kind policy i (hit_of kind policy i r) = false.
Proof.
  intros Hc Hp. pose proof (positive_nonempty _ _ _ _ Hc Hp) as Hne. destruct Hc as [H1 H2 H3 H4 H5 H6 _ _].
  assert (0 < blen (rk_chunk_utf8 r))%nat as Hpos.
  { destruct (rk_chunk_utf8 r) as [|c t] eqn:E; [done|]. cbn. pose proof (len_utf8_pos c). lia. }
  unfold v1_hit_wrong, lexical_hit. cbn [h1_schema_version h1_document_id h1_source_chunk_id h1_product_id
    h1_product_version_id h1_workspace_kind h1_display_name h1_chunk_utf8 h1_chunk_sha256 h1_chunk_byte_length
    h1_quote_start_offset h1_quote_end_offset h1_offset_unit h1_retrieval_rank h1_retrieval_raw_score
    h1_retrieval_contract_version].
  assert (forall s, str_eqb s s = true) as Heq by (intros s; by apply str_eqb_spec).
  unfold is_nil, fixed_six. rewrite !Heq, decimal_text_literal by apply Hshow.
  rewrite !(proj2 (N.eqb_neq _ 0)) by done. rewrite (proj2 (str_is_empty_false _) H5), !N.eqb_refl, Nat2N.id.
  unfold row_bytes in H6. rewrite (proj2 (N.ltb_ge _ _)) by done.
  assert (is_char_boundary (rk_chunk_utf8 r) (blen (rk_chunk_utf8 r)) = true) as ->
    by (apply is_char_boundary_spec; exists (rk_chunk_utf8 r), []; by rewrite app_nil_r).
  assert (is_char_boundary (rk_chunk_utf8 r) (N.to_nat 0) = true) as ->
    by (apply is_char_boundary_spec; by exists [], (rk_chunk_utf8 r)).
  rewrite (proj2 (Nat.leb_gt _ _)) by (change (N.to_nat 0) with 0%nat; lia). by rewrite Nat.ltb_irrefl.
Qed.

Lemma hits_bytes kind policy chosen : forall n,
  hit1_bytes (imap (fun i r => hit_of kind policy (n + i) r) chosen) = rows_bytes chosen.
Proof.
  induction chosen as [|r chosen IH]; intros n; [done|]. cbn [imap].
  rewrite (imap_ext _ (fun i r => hit_of kind policy (S n + i) r)) by (intros i x _; cbn; by rewrite Nat.add_succ_r).
  change (rows_bytes (r :: chosen)) with (row_bytes r + rows_bytes chosen). rewrite <- (IH (S n)). done.
Qed.

Lemma hits_lookup kind policy chosen i hit : imap (hit_of kind policy) chosen !! i = Some hit ->
  exists r, chosen !! i = Some r /\ hit = hit_of kind policy i r.
Proof. rewrite list_lookup_imap. destruct (chosen !! i) as [r|]; [|done]. intros [= <-]. by exists r. Qed.

Lemma hits_identities kind policy chosen :
  NoDup (map rk_source_chunk_id chosen) -> NoDup (map hit1_identity (imap (hit_of kind policy) chosen)).
Proof.
  rewrite !NoDup_alt. intros H i j k. rewrite !list_lookup_fmap. intros (h & Hh & ->)%fmap_Some (g & Hg & E)%fmap_Some.
  apply hits_lookup in Hh as (r & Hr & ->), Hg as (q & Hq & ->). injection E as Ed Ec _.
  apply (H i j (rk_source_chunk_id r)); rewrite list_lookup_fmap; [by rewrite Hr|by rewrite Hq, Ec].
Qed.

Lemma hits_accepted kind policy text keys chosen :
  kind ∈ WORKSPACE_KINDS -> contract_version policy <> [] -> max_hits policy <> 0 -> max_chunk_bytes policy <> 0 ->
  max_total_bytes policy <> 0 -> max_total_bytes policy < u64_modulus ->
  Forall (candidate1_ok text (max_chunk_bytes policy) keys) chosen -> Forall (positive dec_zero dec_cmp) chosen ->
  NoDup (map rk_source_chunk_id chosen) -> (length chosen <= N.to_nat (max_hits policy))%nat ->
  rows_bytes chosen <= max_total_bytes policy ->
  validate_evidence_hit_batch sha256_hex kind policy (imap (hit_of kind policy) chosen) = Ok tt.
Proof.
  intros Hk Hc Hh Hcb Htb Hu F P Hnd Hl Hb. unfold validate_evidence_hit_batch.
  assert (existsb (str_eqb kind) WORKSPACE_KINDS = true) as ->.
  { apply existsb_exists. exists kind. split; [by apply list_elem_of_In|by apply str_eqb_spec]. }
  rewrite (proj2 (str_is_empty_false _) Hc), !(proj2 (N.eqb_neq _ 0)) by done.
  rewrite length_imap, (proj2 (Nat.ltb_ge _ _)) by done. cbn [negb orb reject_if mbind result_bind].
  pose proof (hits_bytes kind policy chosen 0) as Hbytes. cbn [Nat.add] in Hbytes.
  change (imap (fun i r => hit_of kind policy i r) chosen) with (imap (hit_of kind policy) chosen) in Hbytes.
  destruct (v1_hits_loop sha256_hex kind policy (imap (hit_of kind policy) chosen) 0 ∅ 0) as (seen & E).
  - intros i hit (r & Hr & ->)%hits_lookup. rewrite Forall_lookup in F, P. cbn [Nat.add].
    eapply hit_of_right; [by eapply F|by eapply P].
  - by apply hits_identities.
  - set_solver.
  - rewrite Hbytes. lia.
  - cbn [Nat.add] in E. change (imap (fun i h => (i, h)) ?l) with (imap pair l) in E. rewrite E. cbn [mbind result_bind v1_total_bytes].
    rewrite Hbytes, N.add_0_l, (proj2 (N.ltb_ge _ _)) by done. done.
Qed.

Lemma request_numbers h t c p mh mcb mtb : validate_request h t c p mh mcb mtb = Ok tt ->
  c <> [] /\ mh <> 0 /\ mcb <> 0 /\ mtb <> 0 /\ mtb <= 16777216.
Proof.
  unfold validate_request. rewrite reject_if_Ok, !orb_false_iff, !N.eqb_neq, !N.ltb_ge, !str_is_empty_false.
  unfold ABSOLUTE_MAX_TOTAL_BYTES. tauto.
Qed.

Lemma listed_scope eligible rs :
  (forall k, k ∈ map key_of eligible <-> k ∈ map lexical_version rs) ->
  (list_to_set (map el_product_version_id eligible) : gset N) = list_to_set (map lr_product_version_id rs).
Proof.
  intros Hk. change (map el_product_version_id eligible) with (map (fun v => (key_of v).2) eligible).
  change (map lr_product_version_id rs) with (map (fun r => (lexical_version r).2) rs).
  rewrite <- (map_map key_of snd), <- (map_map lexical_version snd). apply set_eq. intros id.
  rewrite !elem_of_list_to_set, !list_elem_of_fmap. by setoid_rewrite Hk.
Qed.

(** The candidates chosen from sound rows are sound, and their chunks differ. *)
Lemma chosen_sound policy text limit keys rs chosen :
  Forall (lexical_row_ok limit) rs -> (forall k, k ∈ keys <-> k ∈ map lexical_version rs) ->
  NoDup (map rk_source_chunk_id (omap (ranked_of text) rs)) ->
  chosen_from dec_zero dec_cmp policy (sort_with compare (omap (ranked_of text) rs)) [] chosen ->
  Forall (candidate1_ok text limit keys) chosen /\ NoDup (map rk_source_chunk_id chosen).
Proof.
  intros F Hk Hnd Hchosen. pose proof (cf_rows _ _ _ _ _ _ Hchosen) as Hsub. split.
  - apply Forall_forall. intros r Hr. apply (elem_of_sublist _ _ _ Hr) in Hsub. rewrite sort_with_perm in Hsub.
    apply list_elem_of_omap in Hsub as (row & Hrow & Er). rewrite Forall_forall in F.
    apply (ranked_of_ok _ _ _ row); [by apply F| |done]. apply Hk. by apply (list_elem_of_fmap_2 lexical_version).
  - eapply sublist_NoDup; [|by apply fmap_sublist]. by rewrite sort_with_perm.
Qed.

Lemma batch_accepted kind policy text eligible chosen :
  kind ∈ WORKSPACE_KINDS -> contract_version policy <> [] -> max_hits policy <> 0 -> max_chunk_bytes policy <> 0 ->
  max_total_bytes policy <> 0 -> max_total_bytes policy < u64_modulus ->
  StronglySorted version_lt (map key_of eligible) -> Forall (version_ok kind) eligible ->
  Forall (candidate1_ok text (max_chunk_bytes policy) (map key_of eligible)) chosen ->
  NoDup (map rk_source_chunk_id chosen) ->
  Forall (positive dec_zero dec_cmp) chosen -> (length chosen <= N.to_nat (max_hits policy))%nat ->
  rows_bytes chosen <= max_total_bytes policy ->
  validate_evidence_batch sha256_hex kind policy
    {| b1_schema_version := KNOWLEDGE_EVIDENCE_SCHEMA_V1; b1_eligible_versions := eligible;
       b1_hits := imap (hit_of kind policy) chosen |} = Ok tt.
Proof.
  intros Hkind Hc Hmh Hmc Hmt Hlt Hs Fv Fc Hnd P Hl Hb. unfold validate_evidence_batch.
  cbn [b1_schema_version b1_eligible_versions b1_hits].
  change (negb (KNOWLEDGE_EVIDENCE_SCHEMA_V1 =? KNOWLEDGE_EVIDENCE_SCHEMA_V1)) with false. cbn [reject_if mbind result_bind].
  rewrite v1_eligible_loop; [|done|by apply sorted_nodup|set_solver]. cbn [mbind result_bind].
  rewrite (hits_accepted _ _ text (map key_of eligible)) by done. cbn [mbind result_bind].
  apply reject_if_Ok, not_true_iff_false. rewrite existsb_exists. intros (hit & Hin%list_elem_of_In & Hno).
  apply list_elem_of_lookup in Hin as (i & (r & Hr & ->)%hits_lookup). rewrite Forall_lookup in Fc.
  pose proof (c1_key _ _ _ _ (Fc i r Hr)) as Hkey. cbn in Hno. rewrite negb_true_iff, bool_decide_eq_false in Hno.
  apply Hno. set_solver.
Qed.

(** C31: Lexical retrieval ([retrieve]): a request the adapter accepts, over rows with
    identifiers and names and one row per chunk, is refused only when its version selection is
    not the eligible scope; otherwise it is answered, the batch passes the validator of the
    contract, lists the versions of the rows in order, and numbers the hits in rank order: the
    higher score first, equal scores by their identifiers.  The hits are the candidates with a
    positive score taken from the first on: one is left out exactly when the hits ranked before it
    already are as many as allowed or leave fewer bytes than its own. *)
Theorem retrieve_answers query rs :
  let policy := q_policy query in
  let selected : gset N := list_to_set (q_selected_versions query) in
  contract_version policy = KNOWLEDGE_EVIDENCE_CONTRACT_V1 -> q_workspace_kind query ∈ WORKSPACE_KINDS ->
  validate_request (q_requirement_identity_sha256 query) (q_requirement_text query) (contract_version policy)
    (policy_sha256 policy) (max_hits policy) (max_chunk_bytes policy) (max_total_bytes policy) = Ok tt ->
  size selected = length (q_selected_versions query) -> 0 ∉ selected ->
  rows (q_workspace_kind query) (q_selected_versions query) (max_chunk_bytes policy) = Ok rs ->
  Forall (lexical_row_ok (max_chunk_bytes policy)) rs ->
  NoDup (map rk_source_chunk_id (omap (ranked_of (q_requirement_text query)) rs)) ->
  if bool_decide (selected = ∅ \/ list_to_set (map lr_product_version_id rs) = selected)
  then exists batch chosen, retrieve query = Ok batch /\ lexical_answer query rs batch chosen
       /\ validate_evidence_batch sha256_hex (q_workspace_kind query) policy batch = Ok tt
  else retrieve query = Err (InvalidRequest E_SCOPE).
Proof.
  intros policy selected Hv Hkind Hreq Hsize Hnil Hrows F Hnd. unfold Lexical.retrieve.
  fold policy. fold selected. rewrite Hv. unfold dispatch_contract at 1. rewrite (proj2 (str_eqb_spec _ _) eq_refl).
  cbn [mbind result_bind]. rewrite Hv in Hreq. rewrite Hreq. cbn [mbind result_bind].
  rewrite Hsize, Nat.eqb_refl, (bool_decide_eq_false_2 (0 ∈ selected)) by done. cbn [negb orb reject_if mbind result_bind].
  rewrite Hrows. cbn [map_err mbind result_bind].
  destruct (lexical_loop (q_workspace_kind query) (q_requirement_text query) _ rs {| ls_ranked := []; ls_eligible := [] |} F)
    as (eligible & E & Hs & Fv & Hk); [constructor|constructor|]. cbn [ls_ranked ls_eligible app map] in *.
  rewrite E. cbn [mbind result_bind ls_ranked ls_eligible].
  assert (Hkeys : forall k, k ∈ map key_of eligible <-> k ∈ map lexical_version rs)
    by (intros k; rewrite Hk; pose proof (not_elem_of_nil k); tauto).
  rewrite (listed_scope _ _ Hkeys), <- bool_decide_not, <- bool_decide_not.
  case_bool_decide as Hsel.
  2: { rewrite (bool_decide_eq_true_2 (selected ≠ ∅)), (bool_decide_eq_true_2 (_ ≠ selected)) by tauto. done. }
  assert (bool_decide (selected ≠ ∅) && bool_decide (list_to_set (map lr_product_version_id rs) ≠ selected) = false) as ->.
  { apply andb_false_iff. rewrite !bool_decide_eq_false. destruct Hsel as [->| ->]; [left|right]; by intros []. }
  cbn [reject_if mbind result_bind]. destruct (request_numbers _ _ _ _ _ _ _ Hreq) as (Hc & Hmh & Hmc & Hmt & Hlt).
  set (text := q_requirement_text query) in *. set (ranked := sort_with compare (omap (ranked_of text) rs)).
  assert (Hperm : ranked ≡ₚ omap (ranked_of text) rs) by apply sort_with_perm.
  destruct (choose_spec dec_zero dec_cmp policy ranked [] ∅) as (chosen & Echosen & Hchosen);
    [by rewrite Hperm|set_solver|cbn; lia|cbn; lia|].
  cbn [app] in Echosen. change (rows_bytes []) with 0 in Echosen. rewrite Echosen.
  destruct (chosen_sound policy text _ _ _ _ F Hkeys Hnd Hchosen) as [Fc Hndc].
  pose proof Hchosen as [_ H2 H3 H4 _].
  assert (Hbatch := batch_accepted (q_workspace_kind query) policy text eligible chosen Hkind ltac:(by rewrite Hv)
    Hmh Hmc Hmt ltac:(unfold u64_modulus; lia) Hs Fv Fc Hndc H2 H3 H4).
  rewrite Hbatch. cbn [mbind result_bind]. eexists _, chosen. split; [reflexivity|]. split; [|done].
  split; [done|done|done|]. exists ranked. split; [done|]. split; [apply ranked_sorted|done].
Qed.

End retrieve.

(** ** A concrete request *)

(** Decimals as whole millionths. *)
Definition demo_show6 (d : N) : str := decimal (d / 1000000) ++ [C_DOT] ++ digits_n 6 d.

Lemma demo_show6_text d : decimal_text (demo_show6 d).
Proof.
  exists false, (decimal (d / 1000000)), (digits_n 6 d). split; [done|]. split; [apply decimal_nonempty|].
  split; [apply length_digits_n|]. apply Forall_app. split; [apply decimal_digits|].
  apply Forall_forall. intros c Hc. destruct (digits_n_ascii 6 d) as [H _]. rewrite forallb_forall in H.
  by apply H, list_elem_of_In.
Qed.

Definition demo_lower (s : str) : str := map to_ascii_lowercase s.

Definition demo_lexical_row (id : N) (text : str) : LexicalRow := {|
  lr_source_chunk_id := Some id; lr_content := Some text; lr_document_id := Some 5; lr_file_name := Some (u8"a.pdf");
  lr_product_id := 1; lr_product_version_id := 2 |}.

Lemma demo_row_ok id text : id <> 0 -> N.of_nat (blen text) <= 1000 -> lexical_row_ok 1000 (demo_lexical_row id text).
Proof. intros Hid Hl. split; [done|done|]. intros t [= <-]. split; [done|]. by exists 5, id, (u8"a.pdf"). Qed.

Definition demo_lexical_rows : list LexicalRow :=
  [demo_lexical_row 10 (u8"gamma delta"); demo_lexical_row 11 (u8"Beta only"); demo_lexical_row 12 (u8"see ALPHA beta")].

Definition demo_lexical_query : RetrievalQuery := {|
  q_workspace_kind := u8"product_line"; q_requirement_identity_sha256 := replicate 64 97%Z;
  q_requirement_text := u8"alpha beta"; q_selected_versions := [2];
  q_policy := {| contract_version := KNOWLEDGE_EVIDENCE_CONTRACT_V1; policy_sha256 := replicate 64 98%Z;
                 max_hits := 5; max_chunk_bytes := 1000; max_total_bytes := 20 |} |}.

Notation demo_retrieve := (Lexical.retrieve 0 1000000 (fun n => n * 1000000) (fun a b => a * 1000000 / b) N.compare
  (fun d => d) (fun d => d) demo_show6 demo_lower (fun s => s) (fun id => decimal id)
  (fun _ _ _ => Ok demo_lexical_rows)).

Lemma retrieve_answers_witness :
  exists batch, demo_retrieve demo_lexical_query = Ok batch
  /\ validate_evidence_batch (fun s => s) (u8"product_line") (q_policy demo_lexical_query) batch = Ok tt
  /\ map h1_source_chunk_id (b1_hits batch) = [12].
Proof.
  pose proof (retrieve_answers 0 1000000 (fun n => n * 1000000) (fun a b => a * 1000000 / b) N.compare
    (fun d => d) (fun d => d) demo_show6 demo_lower (fun s => s) (fun id => decimal id)
    (fun _ _ _ => Ok demo_lexical_rows) _ demo_show6_text eq_refl decimal_nonempty demo_lexical_query demo_lexical_rows) as H.
  cbv zeta in H. rewrite bool_decide_eq_true_2 in H by (right; set_solver).
  destruct H as (batch & chosen & Hb & _ & Hv).
  - done.
  - by left.
  - by vm_compute.
  - by vm_compute.
  - set_solver.
  - done.
  - repeat (apply Forall_cons; split; [by apply demo_row_ok|]). apply Forall_nil_2.
  - apply (bool_decide_unpack _). by vm_compute.
  - exists batch. split; [exact Hb|]. split; [exact Hv|].
    assert (match demo_retrieve demo_lexical_query with Ok b => map h1_source_chunk_id (b1_hits b) = [12] | Err _ => False end)
      as Hc by (by vm_compute).
    by rewrite Hb in Hc.
Defined.
