(* ===== verification/Linkify.v ===== *)
(** * Wiki links

    [wiki/linkify.rs]: [linkify_content] wraps the first safe mention of every wiki page
    in a [[[slug|text]]] link.  The code works on byte positions; every index, slice and
    [bytes[i]] is an option here, [None] where Rust panics, and the loops carry fuel.

    [LinkifyFacts] proves that no byte position is ever wrong, the loops end, the visible
    text stays what it was, protected spans stay untouched, no link cuts an ASCII word,
    no page is linked twice, and that when nothing is changed there was nothing to link. *)
From S2P Require Import Prelude RustStr.
Open Scope nat_scope.

Record LinkRef := { slug : str; match_text : str }.

Record Span := { start : nat; stop : nat }.

(** ** Byte helpers of the standard library *)

(** [&s[i..]] *)
Definition suffix (s : str) (i : nat) : option str :=
  '(_, r) ← split_at_byte s i; Some r.

(** [s.find(p)]: the byte offset of the first occurrence. *)
Fixpoint str_find (s p : str) : option nat :=
  if starts_with s p then Some 0
  else match s with [] => None | c :: s' => n ← str_find s' p; Some (len_utf8 c + n) end.

(** [bytes[i]] *)
Definition byte_at (s : str) (i : nat) : option Z := as_bytes s !! i.


(** [n as usize] for an [isize]. *)
Definition as_usize (n : Z) : nat := Z.to_nat (n mod 18446744073709551616).

Definition LBRACKET : char := 91.
Definition BACKTICK : char := 96.
Definition BANG : char := 33.
Definition FENCE : str := u8"```".
Definition LINK_OPEN : str := u8"[[".
Definition LINK_CLOSE : str := u8"]]".

(** ** The scanners *)

Definition next_char (s : str) (i : nat) : nat :=
  match suffix s i with
  | Some (c :: _) => i + len_utf8 c
  | _ => blen s
  end.

(** The condition [a && let Some(rel) = e] whose [e] may panic. *)
Definition when {A} (cond : bool) (e : option (option A)) : option (option A) :=
  if cond then e else Some None.

Definition find_after (content : str) (i : nat) (p : str) : option (option nat) :=
  rest ← suffix content i; Some (str_find rest p).

Fixpoint existing_slugs_loop (fuel : nat) (content : str) (i : nat) (out : list str)
    : option (list str) :=
  match fuel with
  | 0 => None
  | S fuel =>
    if i + 1 <? blen content then
      if negb (is_char_boundary content i)
      then existing_slugs_loop fuel content (next_char content i) out
      else
        b0 ← byte_at content i;
        b1 ← byte_at content (i + 1);
        link ← when ((b0 =? LBRACKET)%Z && (b1 =? LBRACKET)%Z && is_char_boundary content (i + 2))
                 (find_after content (i + 2) LINK_CLOSE);
        match link with
        | Some rel =>
          inner ← slice content (i + 2) (i + 2 + rel);
          let slug := trim (default inner (head (split_char PIPE inner))) in
          existing_slugs_loop fuel content (i + 2 + rel + 2)
            (if str_is_empty slug then out else out ++ [slug])
        | None => existing_slugs_loop fuel content (next_char content i) out
        end
    else Some out
  end.

Definition existing_slugs (content : str) : option (list str) :=
  existing_slugs_loop (S (blen content)) content 0 [].

Definition markdown_link_end (content : str) (start : nat) : option (option nat) :=
  rest ← suffix content start;
  if negb (starts_with rest [LBRACKET]) then Some None
  else
    match str_find rest (u8"]") with
    | None => Some None
    | Some close =>
      after ← suffix rest (close + 1);
      if negb (starts_with after (u8"(")) then Some None
      else
        match str_find after (u8")") with
        | None => Some None
        | Some close_paren => Some (Some (start + close + 1 + close_paren + 1))
        end
    end.

(** What the scanner finds at position [i]: the end of a span that starts there, and
    whether the scan stops behind it. *)
Definition span_at (content : str) (i : nat) : option (option (nat * bool)) :=
  here ← suffix content i;
  b ← byte_at content i;
  if starts_with here FENCE then
    rel ← find_after content (i + 3) FENCE;
    match rel with
    | Some rel => Some (Some (i + 3 + rel + 3, false))
    | None => Some (Some (blen content, true))
    end
  else
    code ← when (b =? BACKTICK)%Z (find_after content (i + 1) [BACKTICK]);
    match code with
    | Some rel => Some (Some (i + 1 + rel + 1, false))
    | None =>
      link ← when (starts_with here LINK_OPEN) (find_after content (i + 2) LINK_CLOSE);
      match link with
      | Some rel => Some (Some (i + 2 + rel + 2, false))
      | None =>
        image ← when ((b =? BANG)%Z && starts_with here (u8"![")) (markdown_link_end content (i + 1));
        match image with
        | Some e => Some (Some (e, false))
        | None =>
          link ← when (b =? LBRACKET)%Z (markdown_link_end content i);
          match link with
          | Some e => Some (Some (e, false))
          | None => Some None
          end
        end
      end
    end.

Fixpoint forbidden_loop (fuel : nat) (content : str) (i : nat) (spans : list Span)
    : option (list Span) :=
  match fuel with
  | 0 => None
  | S fuel =>
    if i <? blen content then
      if negb (is_char_boundary content i)
      then forbidden_loop fuel content (next_char content i) spans
      else
        found ← span_at content i;
        match found with
        | Some (e, true) => Some (spans ++ [{| start := i; stop := e |}])
        | Some (e, false) => forbidden_loop fuel content e (spans ++ [{| start := i; stop := e |}])
        | None => forbidden_loop fuel content (next_char content i) spans
        end
    else Some spans
  end.

Definition compute_forbidden_spans (content : str) : option (list Span) :=
  forbidden_loop (S (blen content)) content 0 [].

Definition has_ascii_letter_edge (s : str) : bool :=
  let b := as_bytes s in
  is_ascii_alphanumeric (default 0%Z (head b)) || is_ascii_alphanumeric (default 0%Z (last b)).

Definition has_word_boundary (haystack : str) (start stop : nat) : option bool :=
  left_ok ← (if start =? 0 then Some true
             else b ← byte_at haystack (start - 1); Some (negb (is_ascii_alphanumeric b)));
  right_ok ← (if blen haystack <=? stop then Some true
              else b ← byte_at haystack stop; Some (negb (is_ascii_alphanumeric b)));
  Some (left_ok && right_ok).

Definition span_contains (spans : list Span) (s e : nat) : bool :=
  existsb (fun sp => (s <? stop sp) && (start sp <? e)) spans.

Fixpoint safe_match_loop (fuel : nat) (haystack needle : str) (forbidden : list Span)
    (needs_boundary : bool) (start : nat) : option (option nat) :=
  match fuel with
  | 0 => None
  | S fuel =>
    if start + blen needle <=? blen haystack then
      found ← find_after haystack start needle;
      match found with
      | None => Some None
      | Some rel =>
        let pos := start + rel in
        let stop := pos + blen needle in
        let retry := safe_match_loop fuel haystack needle forbidden needs_boundary
                       (next_char haystack pos) in
        if negb (is_char_boundary haystack pos) || negb (is_char_boundary haystack stop) then retry
        else if span_contains forbidden pos stop then retry
        else
          bounded ← (if needs_boundary then has_word_boundary haystack pos stop else Some true);
          if (bounded : bool) then Some (Some pos) else retry
      end
    else Some None
  end.

Definition find_first_safe_match (haystack needle : str) (forbidden : list Span)
    : option (option nat) :=
  if str_is_empty needle then Some None
  else safe_match_loop (S (blen haystack)) haystack needle forbidden (has_ascii_letter_edge needle) 0.

Definition shift_spans_after (spans : list Span) (pos : nat) (delta : Z) : list Span :=
  map (fun s =>
    if pos <=? start s
    then {| start := as_usize (Z.of_nat (start s) + delta); stop := as_usize (Z.of_nat (stop s) + delta) |}
    else s) spans.

(** ** [linkify_content] *)

Record LinkState := {
  out : str; forbidden : list Span; used : list str; changed : bool;
}.

(** [format!("[[{}|{}]]", r.slug, r.match_text)] *)
Definition link_text (r : LinkRef) : str :=
  LINK_OPEN ++ slug r ++ [PIPE] ++ match_text r ++ LINK_CLOSE.

(** [out.replace_range(pos..end, &replacement)] *)
Definition replace_range (s : str) (pos stop : nat) (replacement : str) : option str :=
  '(p, _) ← split_at_byte s pos;
  '(_, r) ← split_at_byte s stop;
  if pos <=? stop then Some (p ++ replacement ++ r) else None.

(** The body of the loop over the sorted references. *)
Definition link_step (st : LinkState) (r : LinkRef) : option LinkState :=
  if existsb (fun s => str_eqb s (slug r)) (used st) then Some st
  else
    found ← find_first_safe_match (out st) (match_text r) (forbidden st);
    match found with
    | None => Some st
    | Some pos =>
      let replacement := link_text r in
      let stop := pos + blen (match_text r) in
      out' ← replace_range (out st) pos stop replacement;
      let delta := (Z.of_nat (blen replacement) - Z.of_nat (blen (match_text r)))%Z in
      let spans := shift_spans_after (forbidden st) pos delta
                   ++ [{| start := pos; stop := pos + blen replacement |}] in
      Some {| out := out';
              forbidden := sort_by (fun a b => start a <=? start b) spans;
              used := used st ++ [slug r]; changed := true |}
    end.

Definition usable (self_slug : str) (r : LinkRef) : bool :=
  negb (str_is_empty (slug r)) && negb (str_is_empty (match_text r))
  && negb (str_eqb (slug r) self_slug).

Definition linkify_content (content : str) (refs : list LinkRef) (self_slug : str)
    : option (str * bool) :=
  if str_is_empty content || (match refs with [] => true | _ => false end)
  then Some (content, false)
  else
    let sorted := sort_by (fun a b => length (match_text b) <=? length (match_text a))
                    (List.filter (usable self_slug) refs) in
    spans ← compute_forbidden_spans content;
    slugs ← existing_slugs content;
    st ← foldM link_step {| out := content; forbidden := spans; used := slugs; changed := false |} sorted;
    Some (out st, changed st).

(** The tests of the source. *)
Definition alpha_ref : LinkRef := {| slug := u8"entity/alpha"; match_text := u8"Alpha" |}.
Definition switch_ref : LinkRef :=
  {| slug := u8"concept/alpha-switch"; match_text := u8"Alpha Switch" |}.

Example wraps_first_safe_mention :
  linkify_content (u8"See Alpha in the lab. Alpha again.") [alpha_ref] (u8"summary/x")
  = Some (u8"See [[entity/alpha|Alpha]] in the lab. Alpha again.", true).
Proof. vm_compute. reflexivity. Qed.

Example skips_code_and_self :
  linkify_content (u8"use `Alpha` in code") [alpha_ref] (u8"summary/x") = Some (u8"use `Alpha` in code", false)
  /\ linkify_content (u8"Alpha page") [alpha_ref] (u8"entity/alpha") = Some (u8"Alpha page", false).
Proof. split; vm_compute; reflexivity. Qed.

Example longer_name_wins :
  linkify_content (u8"The Alpha Switch is ready.") [alpha_ref; switch_ref] (u8"summary/x")
  = Some (u8"The [[concept/alpha-switch|Alpha Switch]] is ready.", true).
Proof. vm_compute. reflexivity. Qed.

Example chinese_content_does_not_panic :
  linkify_content (u8"今天天气不错") [{| slug := u8"entity/tian"; match_text := u8"天" |}] (u8"summary/x")
  = Some (u8"今[[entity/tian|天]]天气不错", true).
Proof. vm_compute. reflexivity. Qed.

Example skips_links_images_fences :
  linkify_content (u8"![Alpha](x) [[y|Alpha]] ```Alpha``` Alphas Alpha") [alpha_ref] (u8"s")
  = Some (u8"![Alpha](x) [[y|Alpha]] ```Alpha``` Alphas [[entity/alpha|Alpha]]", true).
Proof. vm_compute. reflexivity. Qed.
