(* ===== verification/LinkifyFacts.v ===== *)
(** * Facts about the wiki links

    The document is seen as a sequence of pieces: free text, kept spans and links.
    [linkify_content] only ever cuts a free piece in two and puts a link between.  The kept spans
    and the pages already linked are specified by rules on the text ([protects], [links_to]). *)
From S2P Require Import Prelude RustStr NumText Linkify.
Open Scope nat_scope.

(** ** Byte positions *)

Lemma suffix_app p r : suffix (p ++ r) (blen p) = Some r.
Proof. unfold suffix. by rewrite split_at_byte_app. Qed.

Lemma is_char_boundary_app p r : is_char_boundary (p ++ r) (blen p) = true.
Proof. apply is_char_boundary_spec. eauto. Qed.

Lemma next_char_app p c r : next_char (p ++ c :: r) (blen p) = blen (p ++ [c]).
Proof. unfold next_char. rewrite suffix_app, blen_app. simpl. lia. Qed.

Lemma length_utf8_char c : length (utf8_char c) = len_utf8 c.
Proof. unfold utf8_char, len_utf8. repeat case_match; done. Qed.

(** The first and the last byte of a char, as far as ASCII letters are concerned. *)
Definition alnum (c : char) : bool := is_ascii_alphanumeric c.

Lemma alnum_big b : (128 <= b)%Z -> is_ascii_alphanumeric b = false.
Proof.
  intros. unfold is_ascii_alphanumeric, is_ascii_alphabetic, is_ascii_uppercase,
    is_ascii_lowercase, is_ascii_digit.
  repeat match goal with |- context [(?a <=? ?b)%Z] => destruct (Z.leb_spec a b) end; try lia; done.
Qed.

Lemma utf8_char_last c : exists bs b, utf8_char c = bs ++ [b] /\ is_ascii_alphanumeric b = alnum c.
Proof.
  unfold utf8_char.
  repeat case_match;
    [exists [], c; done | eexists [_], _ | eexists [_; _], _ | eexists [_; _; _], _];
    (split; [reflexivity|]); unfold alnum;
    rewrite !alnum_big; try done; bool_to_prop; try lia;
    (apply lor_ge; [lia|]; apply Z.land_nonneg; lia).
Qed.

(** The byte at a boundary is the first byte of the char there. *)
Lemma byte_at_app p c r : exists b, byte_at (p ++ c :: r) (blen p) = Some b /\ is_ascii_alphanumeric b = alnum c
  /\ (forall d, (0 <= d < 128)%Z -> (b =? d)%Z = (c =? d)%Z).
Proof.
  unfold byte_at. rewrite as_bytes_app, as_bytes_cons, lookup_app_r, length_as_bytes, Nat.sub_diag
    by (rewrite length_as_bytes; lia).
  destruct (utf8_char_head c) as (b & bs & Hc & [->|[Hb Hc']]); eexists; rewrite Hc;
    (split; [done|]); [done|].
  split; [unfold alnum; by rewrite !alnum_big|].
  intros d Hd. by rewrite (proj2 (Z.eqb_neq b d)), (proj2 (Z.eqb_neq c d)) by lia.
Qed.

(** The byte before a boundary is the last byte of the char there. *)
Lemma byte_before_app p c r : exists b, byte_at ((p ++ [c]) ++ r) (blen (p ++ [c]) - 1) = Some b
  /\ is_ascii_alphanumeric b = alnum c.
Proof.
  unfold byte_at. destruct (utf8_char_last c) as (bs & b & Hc & Ha). exists b. split; [|done].
  rewrite !as_bytes_app, as_bytes_cons, Hc, app_nil_r.
  assert (blen (p ++ [c]) - 1 = length (as_bytes p ++ bs)) as ->.
  { rewrite blen_app, length_app, length_as_bytes. simpl. rewrite <- (length_utf8_char c), Hc, length_app. simpl. lia. }
  rewrite <- !app_assoc. simpl. rewrite (app_assoc (as_bytes p)). by rewrite list_lookup_middle.
Qed.

(** ** Searching *)

Lemma str_find_unfold s p : str_find s p =
  if starts_with s p then Some 0
  else match s with [] => None | c :: s' => n ← str_find s' p; Some (len_utf8 c + n) end.
Proof. by destruct s. Qed.

Lemma str_find_Some s p n : str_find s p = Some n ->
  exists a b, s = a ++ p ++ b /\ blen a = n /\ forall a' b', s = a' ++ p ++ b' -> length a <= length a'.
Proof.
  revert n. induction s as [|c s IH]; intros n; rewrite str_find_unfold;
    destruct (starts_with _ p) eqn:E.
  - intros [= <-]. apply starts_with_spec in E as [r E]. exists [], r. naive_solver lia.
  - done.
  - intros [= <-]. apply starts_with_spec in E as [r E]. exists [], r. simpl. naive_solver lia.
  - intros (n' & Hn & [= <-])%bind_Some. destruct (IH _ Hn) as (a & b & -> & <- & Hmin).
    exists (c :: a), b. split; [done|]. split; [done|]. intros [|d a'] b' Heq; simpl in *.
    + rewrite Heq, starts_with_app in E. done.
    + injection Heq as _ Heq. apply Hmin in Heq. lia.
Qed.

Lemma str_find_None s p : str_find s p = None -> forall a b, s <> a ++ p ++ b.
Proof.
  induction s as [|c s IH]; rewrite str_find_unfold; destruct (starts_with _ p) eqn:E; try done;
    intros H a b Heq.
  - destruct a; [|done]. simpl in Heq. by rewrite Heq, starts_with_app in E.
  - destruct (str_find s p); [done|]. destruct a as [|d a]; simpl in Heq.
    + by rewrite Heq, starts_with_app in E.
    + injection Heq as _ Heq. by eapply IH.
Qed.

Lemma find_after_app p w rest n q : blen w = n ->
  find_after (p ++ w ++ rest) (blen p + n) q = Some (str_find rest q).
Proof. intros <-. unfold find_after. by rewrite app_assoc, <- blen_app, suffix_app. Qed.

(** What a scanner found at the cut [p | rest]: a non-empty span of whole chars. *)
Definition cuts (p rest : str) (e : nat) : Prop :=
  exists m r', rest = m ++ r' /\ m <> [] /\ blen p + blen m = e.

(** A closing delimiter found behind an opening one ends a span. *)
Lemma cuts_close p w rest q rel : w <> [] -> str_find rest q = Some rel ->
  cuts p (w ++ rest) (blen p + blen w + rel + blen q).
Proof.
  intros Hw Hf. apply str_find_Some in Hf as (a & b & -> & <- & _).
  exists (w ++ a ++ q), b. split; [by rewrite <- !app_assoc|]. split; [by destruct w|].
  rewrite !blen_app. lia.
Qed.

Lemma markdown_link_end_app p rest : exists res, markdown_link_end (p ++ rest) (blen p) = Some res
  /\ forall e, res = Some e -> cuts p rest e.
Proof.
  unfold markdown_link_end. rewrite suffix_app, some_bind.
  destruct (negb (starts_with rest [LBRACKET])) eqn:E; [by eexists|].
  destruct (str_find rest (u8"]")) as [close|] eqn:Hc; [|by eexists].
  apply str_find_Some in Hc as (a & b & -> & <- & _).
  replace (blen a + 1) with (blen (a ++ u8"]")) by by rewrite blen_app.
  rewrite app_assoc, suffix_app, some_bind.
  destruct (negb (starts_with b (u8"("))); [by eexists|].
  destruct (str_find b (u8")")) as [cp|] eqn:Hp; [|by eexists].
  eexists. split; [done|]. intros e [= <-].
  pose proof (cuts_close p (a ++ u8"]") b _ _ ltac:(by destruct a) Hp) as H.
  by rewrite blen_app, !Nat.add_assoc in H.
Qed.

Lemma when_total {A} cond (e : option (option A)) (P : A -> Prop) :
  (cond = true -> exists res, e = Some res /\ forall a, res = Some a -> P a) ->
  exists res, when cond e = Some res /\ forall a, res = Some a -> P a /\ cond = true.
Proof.
  intros H. unfold when. destruct cond; [|by eexists]. destruct H as (res & -> & H); [done|].
  eexists. split; [done|]. naive_solver.
Qed.

Lemma single_char_prefix c p (rest : str) (w : char) : (c =? w)%Z = true ->
  p ++ c :: rest = p ++ [w] ++ rest.
Proof. by intros ->%Z.eqb_eq. Qed.

Lemma span_at_app p c r : exists res, span_at (p ++ c :: r) (blen p) = Some res
  /\ forall e fin, res = Some (e, fin) -> cuts p (c :: r) e /\ (fin = true -> e = blen (p ++ c :: r)).
Proof.
  destruct (byte_at_app p c r) as (b & Hb & _ & Hascii).
  unfold span_at. rewrite suffix_app, some_bind, Hb, some_bind.
  destruct (starts_with (c :: r) FENCE) eqn:Hf.
  { apply starts_with_spec in Hf as [rest Hf]. rewrite Hf.
    rewrite (find_after_app p FENCE rest 3 FENCE eq_refl), some_bind.
    destruct (str_find rest FENCE) as [rel|] eqn:E; eexists; (split; [done|]); intros e fin [= <- <-].
    - split; [|done]. by apply (cuts_close p FENCE rest FENCE).
    - split; [|done]. exists (FENCE ++ rest), []. rewrite app_nil_r. split_and!; [done|discriminate|]. symmetry; apply blen_app. }
  destruct (when_total (b =? BACKTICK)%Z (find_after (p ++ c :: r) (blen p + 1) [BACKTICK])
    (fun rel => str_find r [BACKTICK] = Some rel)) as (code & -> & Hcode).
  { rewrite Hascii by done. intros Hc%(single_char_prefix c p r). rewrite Hc.
    rewrite (find_after_app p _ r) by done. eauto. }
  rewrite some_bind. destruct code as [rel|].
  { destruct (Hcode rel eq_refl) as [Hrel Hc]. rewrite Hascii in Hc by done. apply Z.eqb_eq in Hc as ->.
    eexists. split; [done|]. intros e fin [= <- <-]. split; [|done].
    by apply (cuts_close p [BACKTICK] r [BACKTICK]). }
  destruct (when_total (starts_with (c :: r) LINK_OPEN) (find_after (p ++ c :: r) (blen p + 2) LINK_CLOSE)
    (fun rel => cuts p (c :: r) (blen p + 2 + rel + 2))) as (link & -> & Hlink).
  { intros [rest ->]%starts_with_spec. rewrite (find_after_app p _ rest) by done.
    eexists. split; [done|]. intros rel Hrel. by apply (cuts_close p LINK_OPEN rest LINK_CLOSE). }
  rewrite some_bind. destruct link as [rel|].
  { eexists. split; [done|]. intros e fin [= <- <-]. split; [|done]. by apply Hlink. }
  destruct (when_total ((b =? BANG)%Z && starts_with (c :: r) (u8"![")) (markdown_link_end (p ++ c :: r) (blen p + 1))
    (fun e => cuts p (c :: r) e)) as (image & -> & Himage).
  { rewrite Hascii by done. intros [Hc _]%andb_prop. apply Z.eqb_eq in Hc as ->.
    destruct (markdown_link_end_app (p ++ [BANG]) r) as (res & Hres & Hcut).
    rewrite <- app_assoc, blen_app in Hres. exists res. split; [done|]. intros e He.
    destruct (Hcut e He) as (m & r' & -> & Hm & <-). exists (BANG :: m), r'.
    split; [done|]. split; [done|]. rewrite blen_app. simpl. lia. }
  rewrite some_bind. destruct image as [e|].
  { eexists. split; [done|]. intros e' fin [= <- <-]. split; [|done]. by apply Himage. }
  destruct (when_total (b =? LBRACKET)%Z (markdown_link_end (p ++ c :: r) (blen p))
    (fun e => cuts p (c :: r) e)) as (link & -> & Hlink2).
  { intros _. apply markdown_link_end_app. }
  rewrite some_bind. destruct link as [e|]; eexists; (split; [done|]); intros e' fin; [|done].
  intros [= <- <-]. split; [|done]. by apply Hlink2.
Qed.

(** ** What a page protects, by its text *)

(** [a] is what stands before the first [q] of a text that goes on with [b]. *)
Definition before_first (q a b : str) : Prop := forall a' b', a ++ q ++ b = a' ++ q ++ b' -> length a <= length a'.

Definition CODE : str := [BACKTICK].
Definition CLOSE : char := 93.
Definition PAREN : char := 41.

(** [\[a\](y)]: the text up to the first closing bracket, the target up to the first parenthesis. *)
Definition inline_link (m : str) : Prop :=
  exists a y, m = [LBRACKET] ++ a ++ u8"](" ++ y ++ u8")" /\ CLOSE ∉ a /\ PAREN ∉ y.

(** A text that starts with the protected part [m] and goes on with [r]: a fenced block, which may
    be open to the end, an inline code, a wiki link, an image, a link. *)
Inductive protected : str -> str -> Prop :=
| pr_fence a b : before_first FENCE a b -> protected (FENCE ++ a ++ FENCE) b
| pr_open_fence a : (forall x y, a <> x ++ FENCE ++ y) -> protected (FENCE ++ a) []
| pr_code a b : BACKTICK ∉ a -> (forall x, CODE ++ a ++ CODE ++ b <> FENCE ++ x) -> protected (CODE ++ a ++ CODE) b
| pr_wiki a b : before_first LINK_CLOSE a b -> protected (LINK_OPEN ++ a ++ LINK_CLOSE) b
| pr_image m b : inline_link m -> protected ([BANG] ++ m) b
| pr_link m b : inline_link m -> (forall x y, m ++ b <> LINK_OPEN ++ x ++ LINK_CLOSE ++ y) -> protected m b.

(** The protected spans of a text from left to right, none inside another. *)
Inductive protects : nat -> str -> list Span -> Prop :=
| ps_end off : protects off [] []
| ps_span off m r spans : m <> [] -> protected m r -> protects (off + blen m) r spans ->
    protects off (m ++ r) ({| start := off; stop := off + blen m |} :: spans)
| ps_char off c r spans : (forall m r', c :: r = m ++ r' -> ~ protected m r') -> protects (off + len_utf8 c) r spans ->
    protects off (c :: r) spans.

(** The pages a text links to: what stands in [[[...]]] before the bar, trimmed, if not empty. *)
Inductive links_to : str -> list str -> Prop :=
| lt_end : links_to [] []
| lt_link p q b l : PIPE ∉ p -> q = [] \/ head q = Some PIPE -> before_first LINK_CLOSE (p ++ q) b -> links_to b l ->
    links_to (LINK_OPEN ++ (p ++ q) ++ LINK_CLOSE ++ b) (if str_is_empty (trim p) then l else trim p :: l)
| lt_char c r l : (forall a b, c :: r <> LINK_OPEN ++ a ++ LINK_CLOSE ++ b) -> links_to r l -> links_to (c :: r) l.

Lemma find_first q a b : before_first q a b -> str_find (a ++ q ++ b) q = Some (blen a).
Proof.
  intros Hf. destruct (str_find (a ++ q ++ b) q) as [n|] eqn:E; [|exfalso; by eapply (str_find_None _ _ E)].
  apply str_find_Some in E as (a' & b' & E & <- & Hmin). do 2 f_equal.
  assert (length a = length a') as Hl by (apply Nat.le_antisymm; [by eapply Hf|by eapply Hmin]).
  by apply app_inj_1 in E as [-> _].
Qed.

Lemma find_char c s n : str_find s [c] = Some n -> exists a b, s = a ++ [c] ++ b /\ c ∉ a /\ blen a = n.
Proof.
  intros (a & b & -> & <- & Hmin)%str_find_Some. exists a, b. split; [done|]. split; [|done].
  intros (x & y & ->)%list_elem_of_split. specialize (Hmin x (y ++ [c] ++ b)).
  rewrite <- app_assoc, length_app in Hmin. cbn in Hmin. specialize (Hmin eq_refl). lia.
Qed.

Lemma before_first_char c a b : c ∉ a -> before_first [c] a b.
Proof.
  intros Hc a' b' E. destruct (decide (length a <= length a')) as [|Hn]; [done|]. exfalso. apply Hc.
  assert (a !! length a' = Some c) as H; [|by eapply list_elem_of_lookup_2].
  rewrite <- (lookup_app_l a ([c] ++ b)) by lia. rewrite E, lookup_app_r, Nat.sub_diag by lia. done.
Qed.

Lemma inline_link_end p rest : exists res, markdown_link_end (p ++ rest) (blen p) = Some res
  /\ match res with
     | Some e => exists m b, rest = m ++ b /\ inline_link m /\ e = blen p + blen m
     | None => forall m b, rest = m ++ b -> ~ inline_link m
     end.
Proof.
  unfold markdown_link_end. rewrite suffix_app, some_bind.
  destruct (starts_with rest [LBRACKET]) eqn:E; cbn [negb].
  2: { eexists. split; [done|]. intros m b -> (a & y & -> & _). by rewrite <- app_assoc, starts_with_app in E. }
  apply starts_with_spec in E as [s ->].
  destruct (str_find ([LBRACKET] ++ s) (u8"]")) as [close|] eqn:Hc.
  2: { eexists. split; [done|]. intros m b Hm (a & y & -> & _). apply (str_find_None _ _ Hc ([LBRACKET] ++ a) ((u8"(" ++ y ++ u8")") ++ b)).
       rewrite Hm, <- !app_assoc. done. }
  apply (find_char CLOSE) in Hc as (x & b & Hx & Hnx & <-). destruct x as [|c x]; [discriminate|].
  assert (c = LBRACKET /\ s = x ++ [CLOSE] ++ b) as [-> ->] by (injection Hx as E1 E2; by split). clear Hx.
  replace (blen (LBRACKET :: x) + 1) with (blen ([LBRACKET] ++ x ++ [CLOSE])) by (rewrite !blen_app; cbn; lia).
  replace ([LBRACKET] ++ x ++ [CLOSE] ++ b) with (([LBRACKET] ++ x ++ [CLOSE]) ++ b) by by rewrite <- !app_assoc.
  rewrite suffix_app, some_bind.
  assert (forall m d, ([LBRACKET] ++ x ++ [CLOSE]) ++ b = m ++ d -> inline_link m ->
    exists y, PAREN ∉ y /\ b = u8"(" ++ y ++ u8")" ++ d /\ m = [LBRACKET] ++ x ++ u8"](" ++ y ++ u8")") as Hany.
  { intros m d Hm (a & y & -> & Ha & Hy). exists y. split; [done|].
    assert (length x = length a) as Hl.
    { assert (E : x ++ [CLOSE] ++ b = a ++ [CLOSE] ++ (u8"(" ++ y ++ u8")" ++ d)).
      { apply (f_equal (drop 1)) in Hm. rewrite <- !app_assoc in Hm. exact Hm. }
      apply Nat.le_antisymm; eapply before_first_char; [|exact E| |symmetry; exact E]; [|exact Ha].
      intros H. apply Hnx. by right. }
    assert (x ++ [CLOSE] ++ b = a ++ [CLOSE] ++ (u8"(" ++ y ++ u8")" ++ d)) as Hm'.
    { apply (f_equal (drop 1)) in Hm. rewrite <- !app_assoc in Hm. exact Hm. }
    clear Hm. rename Hm' into Hm.
    apply app_inj_1 in Hm as [-> Hm]; [|done]. split; [|done].
    apply (f_equal (drop 1)) in Hm. exact Hm. }
  destruct (starts_with b (u8"(")) eqn:Eb; cbn [negb].
  2: { eexists. split; [done|]. intros m d Hm Hi. destruct (Hany m d Hm Hi) as (y & _ & -> & _). by rewrite starts_with_app in Eb. }
  apply starts_with_spec in Eb as [s ->]. destruct (str_find (u8"(" ++ s) (u8")")) as [cp|] eqn:Hp.
  - eexists. split; [done|]. cbn beta iota. apply (find_char PAREN) in Hp as (z & d & Hz & Hnz & <-).
    destruct z as [|c z]; [discriminate|].
    assert (c = 40%Z /\ s = z ++ [PAREN] ++ d) as [-> ->] by (injection Hz as E1 E2; by split). clear Hz.
    exists ([LBRACKET] ++ x ++ u8"](" ++ z ++ u8")"), d. split; [by rewrite <- !app_assoc|]. split.
    + exists x, z. split; [done|]. split; intros H; [apply Hnx|apply Hnz]; by right.
    + rewrite !blen_app. change (blen (40%Z :: z)) with (1 + blen z). change (blen (LBRACKET :: x)) with (1 + blen x).
      change (blen (u8"](")) with 2. change (blen (u8")")) with 1. change (blen [LBRACKET]) with 1. lia.
  - eexists. split; [done|]. intros m d Hm Hi. destruct (Hany m d Hm Hi) as (y & _ & Hs & _).
    by apply (str_find_None _ _ Hp (u8"(" ++ y) d).
Qed.

Lemma when_cases {A} cond (e : option (option A)) : (cond = true -> is_Some e) ->
  exists res, when cond e = Some res /\ ((cond = true /\ e = Some res) \/ (cond = false /\ res = None)).
Proof. unfold when. destruct cond; intros H; [destruct (H eq_refl) as [res ->]|]; eexists; eauto. Qed.

(** A closing delimiter that is not found ends no part. *)
Lemma find_none_apart rest q a b x : str_find rest q = None -> rest = a ++ q ++ b -> x.
Proof. intros H E. exfalso. by eapply (str_find_None _ _ H). Qed.

Lemma first_found rest q rel : str_find rest q = Some rel ->
  exists a b, rest = a ++ q ++ b /\ blen a = rel /\ before_first q a b.
Proof. intros (a & b & -> & <- & Hmin)%str_find_Some. exists a, b. split_and!; [done..|]. exact Hmin. Qed.

Lemma starts_with_false s q : starts_with s q = false -> forall x, s <> q ++ x.
Proof. intros H x ->. by rewrite starts_with_app in H. Qed.

(** What the scanner finds at a position is the protected part that starts there. *)
Lemma span_at_protected p c r : exists res, span_at (p ++ c :: r) (blen p) = Some res
  /\ match res with
     | Some (e, fin) => exists m r', c :: r = m ++ r' /\ m <> [] /\ protected m r' /\ e = blen p + blen m
                                     /\ (fin = true -> r' = [])
     | None => forall m r', c :: r = m ++ r' -> ~ protected m r'
     end.
Proof.
  destruct (byte_at_app p c r) as (b & Hb & _ & Hascii).
  unfold span_at. rewrite suffix_app, some_bind, Hb, some_bind. clear Hb.
  destruct (starts_with (c :: r) FENCE) eqn:Hf.
  { apply starts_with_spec in Hf as [rest Hf]. rewrite Hf, (find_after_app p FENCE rest 3 FENCE eq_refl), some_bind.
    destruct (str_find rest FENCE) as [rel|] eqn:E; eexists; (split; [done|]); cbn beta iota.
    - apply first_found in E as (a & d & -> & <- & Hfirst). exists (FENCE ++ a ++ FENCE), d. split_and!; [by rewrite <- !app_assoc|done| | |done].
      + by constructor.
      + rewrite !blen_app. change (blen FENCE) with 3. lia.
    - exists (FENCE ++ rest), []. rewrite app_nil_r. split_and!; [done|done| | |done].
      + constructor. by apply str_find_None.
      + by rewrite blen_app. }
  pose proof (starts_with_false _ _ Hf) as Hnf. clear Hf.
  rewrite !Hascii by done.
  destruct (when_cases (c =? BACKTICK)%Z (find_after (p ++ c :: r) (blen p + 1) [BACKTICK])) as (code & -> & Hcode).
  { intros Hc%(single_char_prefix c p r). rewrite Hc, (find_after_app p _ r) by done. done. }
  rewrite some_bind. destruct code as [rel|].
  { destruct Hcode as [[Hc Hrel]|[_ [=]]]. apply Z.eqb_eq in Hc as ->. change (BACKTICK :: r) with (CODE ++ r) in *.
    rewrite (find_after_app p CODE r) in Hrel by done. injection Hrel as Hrel. apply find_char in Hrel as (a & d & -> & Ha & <-).
    eexists. split; [done|]. cbn beta iota. exists (CODE ++ a ++ CODE), d. split_and!; [by rewrite <- !app_assoc|done| | |done].
    - by constructor.
    - rewrite !blen_app. change (blen CODE) with 1. lia. }
  assert (forall a d, c :: r = CODE ++ a ++ CODE ++ d -> BACKTICK ∈ a) as Hnc.
  { intros a d Heq. injection Heq as -> ->. destruct Hcode as [[_ Hrel]|[Hc _]]; [|by rewrite Z.eqb_refl in Hc].
    change (find_after (p ++ CODE ++ a ++ CODE ++ d) (blen p + 1) [BACKTICK] = Some None) in Hrel.
    rewrite (find_after_app p CODE) in Hrel by done. injection Hrel as Hrel. exact (find_none_apart _ _ _ _ _ Hrel eq_refl). }
  clear Hcode. destruct (when_cases (starts_with (c :: r) LINK_OPEN) (find_after (p ++ c :: r) (blen p + 2) LINK_CLOSE)) as (link & -> & Hlink).
  { intros [rest ->]%starts_with_spec. rewrite (find_after_app p _ rest) by done. done. }
  rewrite some_bind. destruct link as [rel|].
  { destruct Hlink as [[Hc Hrel]|[_ [=]]]. apply starts_with_spec in Hc as [rest Hc]. rewrite Hc in *.
    rewrite (find_after_app p LINK_OPEN rest) in Hrel by done. injection Hrel as Hrel.
    apply first_found in Hrel as (a & d & -> & <- & Hfirst). eexists. split; [done|]. cbn beta iota.
    exists (LINK_OPEN ++ a ++ LINK_CLOSE), d. split_and!; [by rewrite <- !app_assoc|done| | |done].
    - by constructor.
    - rewrite !blen_app. change (blen LINK_OPEN) with 2. change (blen LINK_CLOSE) with 2. lia. }
  assert (forall a d, c :: r <> LINK_OPEN ++ a ++ LINK_CLOSE ++ d) as Hnw.
  { intros a d Heq. destruct Hlink as [[_ Hrel]|[Hc _]]; [|by rewrite Heq, starts_with_app in Hc].
    rewrite Heq, (find_after_app p LINK_OPEN) in Hrel by done. injection Hrel as Hrel. exact (find_none_apart _ _ _ _ _ Hrel eq_refl). }
  clear Hlink. destruct (inline_link_end (p ++ [BANG]) r) as (image_end & Himage & Hend).
  rewrite <- app_assoc, blen_app in Himage. change (blen [BANG]) with 1 in *.
  destruct (when_cases ((c =? BANG)%Z && starts_with (c :: r) (u8"![")) (markdown_link_end (p ++ c :: r) (blen p + 1))) as (image & -> & Hi).
  { intros [Hc%Z.eqb_eq _]%andb_prop. subst c. change (p ++ BANG :: r) with (p ++ [BANG] ++ r). by rewrite Himage. }
  rewrite some_bind. destruct image as [e|].
  { destruct Hi as [[[Hc%Z.eqb_eq _]%andb_prop Hi]|[_ [=]]]. subst c. change (p ++ BANG :: r) with (p ++ [BANG] ++ r) in Hi.
    rewrite Himage in Hi. injection Hi as ->. destruct Hend as (m & d & -> & Hm & ->).
    eexists. split; [done|]. cbn beta iota. exists ([BANG] ++ m), d. split_and!; [done|done| | |done].
    - by constructor.
    - rewrite !blen_app. change (blen [BANG]) with 1. lia. }
  assert (forall m d, c :: r = [BANG] ++ m ++ d -> ~ inline_link m) as Hni.
  { intros m d Heq Hm. injection Heq as -> ->. destruct Hi as [[_ Hi]|[Hc _]].
    - change (p ++ BANG :: m ++ d) with (p ++ [BANG] ++ m ++ d) in Hi. rewrite Himage in Hi. injection Hi as ->. by apply (Hend m d).
    - destruct Hm as (a & y & -> & _). rewrite Z.eqb_refl in Hc. rewrite <- !app_assoc in Hc.
      change (starts_with ((u8"![") ++ a ++ u8"](" ++ y ++ u8")" ++ d) (u8"![") = false) in Hc. by rewrite starts_with_app in Hc. }
  clear Himage Hend Hi. destruct (inline_link_end p (c :: r)) as (link_end & Hl & Hend).
  destruct (when_cases (c =? LBRACKET)%Z (markdown_link_end (p ++ c :: r) (blen p))) as (link & -> & Hlink); [intros _; by rewrite Hl|].
  rewrite some_bind. destruct link as [e|].
  { destruct Hlink as [[_ Hlink]|[_ [=]]]. rewrite Hl in Hlink. injection Hlink as ->. destruct Hend as (m & d & E & Hm & ->).
    eexists. split; [done|]. cbn beta iota. exists m, d. split_and!; [done| | |done|done].
    - by destruct Hm as (a & y & -> & _).
    - constructor; [done|]. intros x y. rewrite <- E. apply Hnw. }
  eexists. split; [done|]. intros m d Heq Hp. inversion Hp as [a' d' _ Em|a' _ Em|a' d' Ha _ Em|a' d' _ Em|m' d' Hm Em|m' d' Hm _ Em]; subst.
  - by rewrite <- app_assoc in Heq; apply Hnf in Heq.
  - by rewrite app_nil_r in Heq; apply Hnf in Heq.
  - rewrite <- !app_assoc in Heq. by apply Hnc in Heq.
  - rewrite <- !app_assoc in Heq. by apply Hnw in Heq.
  - by apply Hni in Heq.
  - destruct Hlink as [[_ Hlink]|[Hc _]].
    + rewrite Hl in Hlink. injection Hlink as ->. by apply (Hend m d).
    + destruct Hm as (x & y & -> & _). injection Heq as -> _. by rewrite Z.eqb_refl in Hc.
Qed.

Lemma forbidden_loop_protects fuel : forall c1 c2 acc, blen c2 < fuel ->
  exists spans, forbidden_loop fuel (c1 ++ c2) (blen c1) acc = Some (acc ++ spans) /\ protects (blen c1) c2 spans.
Proof.
  induction fuel as [|fuel IH]; intros c1 c2 acc Hfuel; [lia|].
  cbn [forbidden_loop]. destruct c2 as [|c r].
  { rewrite app_nil_r, Nat.ltb_irrefl. exists []. rewrite app_nil_r. split; [done|constructor]. }
  pose proof (len_utf8_pos c) as Hc. simpl in Hfuel.
  rewrite (proj2 (Nat.ltb_lt _ _)) by (rewrite blen_app; simpl; lia).
  rewrite is_char_boundary_app. cbn [negb].
  destruct (span_at_protected c1 c r) as (res & -> & Hres). rewrite some_bind. destruct res as [[e fin]|].
  - destruct Hres as (m & r' & Hr & Hm & Hp & -> & Hfin). rewrite Hr. destruct fin.
    + rewrite (Hfin eq_refl) in *. exists [{| start := blen c1; stop := blen c1 + blen m |}]. split; [done|].
      apply ps_span; [done|done|constructor].
    + assert (blen m <> 0) by (intros Hz; by apply blen_nil_inv in Hz).
      assert (blen (c :: r) = blen m + blen r') as Hb by by rewrite Hr, blen_app. simpl in Hb.
      destruct (IH (c1 ++ m) r' (acc ++ [{| start := blen c1; stop := blen c1 + blen m |}])) as (spans & H1 & H2); [lia|].
      rewrite blen_app, <- app_assoc in H1. rewrite blen_app in H2. eexists. split; [by rewrite H1, <- app_assoc|].
      by apply ps_span.
  - rewrite next_char_app. destruct (IH (c1 ++ [c]) r acc) as (spans & H1 & H2); [lia|]. rewrite <- app_assoc in H1.
    exists spans. split; [done|]. rewrite blen_app in H2. simpl in H2. rewrite Nat.add_0_r in H2. by apply ps_char.
Qed.

Lemma compute_forbidden_spans_protects content :
  exists spans, compute_forbidden_spans content = Some spans /\ protects 0 content spans.
Proof. apply (forbidden_loop_protects (S (blen content)) [] content []). lia. Qed.

(** ** The document as pieces *)

Inductive Piece :=
| Free (s : str)
| Kept (s : str)
| Link (r : LinkRef).

(** What a piece is in the output, and what it was in the input. *)
Definition rendered (x : Piece) : str :=
  match x with Free s | Kept s => s | Link r => link_text r end.

Definition visible (x : Piece) : str :=
  match x with Free s | Kept s => s | Link r => match_text r end.

Definition is_free (x : Piece) : bool := match x with Free _ => true | _ => false end.

Definition render (l : list Piece) : str := concat (map rendered l).
Definition visible_text (l : list Piece) : str := concat (map visible l).

(** The byte ranges of the pieces that are not free, in the output. *)
Fixpoint block_ranges (off : nat) (l : list Piece) : list Span :=
  match l with
  | [] => []
  | x :: l' =>
    let e := off + blen (rendered x) in
    (if is_free x then [] else [{| start := off; stop := e |}]) ++ block_ranges e l'
  end.

(** The byte ranges of the kept spans in the input. *)
Fixpoint kept_ranges (off : nat) (l : list Piece) : list Span :=
  match l with
  | [] => []
  | x :: l' =>
    let e := off + blen (visible x) in
    (match x with Kept _ => [{| start := off; stop := e |}] | _ => [] end) ++ kept_ranges e l'
  end.

(** The links with the byte positions of their texts in the input. *)
Fixpoint links_at (off : nat) (l : list Piece) : list (nat * LinkRef) :=
  match l with
  | [] => []
  | x :: l' =>
    (match x with Link r => [(off, r)] | _ => [] end) ++ links_at (off + blen (visible x)) l'
  end.

(** No two free pieces are adjacent. *)
Fixpoint separated (l : list Piece) : Prop :=
  match l with
  | x :: l' => match l' with y :: _ => ~ (is_free x = true /\ is_free y = true) | [] => True end /\ separated l'
  | [] => True
  end.

Definition solid (x : Piece) : Prop := is_free x = true \/ (rendered x <> [] /\ visible x <> []).

Definition doc_ok (l : list Piece) : Prop := separated l /\ Forall solid l.

Lemma render_app l1 l2 : render (l1 ++ l2) = render l1 ++ render l2.
Proof. unfold render. by rewrite map_app, concat_app. Qed.

Lemma visible_text_app l1 l2 : visible_text (l1 ++ l2) = visible_text l1 ++ visible_text l2.
Proof. unfold visible_text. by rewrite map_app, concat_app. Qed.

Lemma render_cons x l : render (x :: l) = rendered x ++ render l.
Proof. done. Qed.

Lemma visible_text_cons x l : visible_text (x :: l) = visible x ++ visible_text l.
Proof. done. Qed.

Lemma block_ranges_app off l1 l2 :
  block_ranges off (l1 ++ l2) = block_ranges off l1 ++ block_ranges (off + blen (render l1)) l2.
Proof.
  revert off. induction l1 as [|x l1 IH]; intros off; simpl; [by rewrite Nat.add_0_r|].
  by rewrite IH, render_cons, blen_app, Nat.add_assoc, app_assoc.
Qed.

Lemma kept_ranges_app off l1 l2 :
  kept_ranges off (l1 ++ l2) = kept_ranges off l1 ++ kept_ranges (off + blen (visible_text l1)) l2.
Proof.
  revert off. induction l1 as [|x l1 IH]; intros off; simpl; [by rewrite Nat.add_0_r|].
  by rewrite IH, visible_text_cons, blen_app, Nat.add_assoc, app_assoc.
Qed.

Lemma links_at_app off l1 l2 :
  links_at off (l1 ++ l2) = links_at off l1 ++ links_at (off + blen (visible_text l1)) l2.
Proof.
  revert off. induction l1 as [|x l1 IH]; intros off; simpl; [by rewrite Nat.add_0_r|].
  by rewrite IH, visible_text_cons, blen_app, Nat.add_assoc, app_assoc.
Qed.

(** A free piece may be exchanged for pieces that start and end free. *)
Lemma separated_snoc_free l s s' : separated (l ++ [Free s]) -> separated (l ++ [Free s']).
Proof. induction l as [|x [|y l] IH]; simpl in *; naive_solver. Qed.

Lemma separated_insert xs f a b y ys : is_free y = false ->
  separated (xs ++ Free f :: ys) -> separated (xs ++ Free a :: y :: Free b :: ys).
Proof.
  intros Hy. induction xs as [|x [|x' xs] IH]; simpl in *; [|naive_solver..].
  intros [H1 H2]. repeat split; [by intros [? ?]; congruence..| |done]. by destruct ys.
Qed.

(** The part [c1] of the input that was read is the pieces [l] and the free text [w]. *)
Definition scanned (c1 : str) (l : list Piece) (w : str) : Prop :=
  c1 = render l ++ w /\ doc_ok (l ++ [Free w]) /\ links_at 0 l = [].

Lemma doc_ok_free l w w' : doc_ok (l ++ [Free w]) -> doc_ok (l ++ [Free w']).
Proof.
  intros [Hs Hf]. split; [by eapply separated_snoc_free|].
  apply Forall_app in Hf as [Hf _]. apply Forall_app. split; [done|]. repeat constructor.
Qed.

Lemma scanned_skip c1 l w c : scanned c1 l w -> scanned (c1 ++ [c]) l (w ++ [c]).
Proof. intros (-> & Hok & Hl). split; [by rewrite app_assoc|]. split; [by eapply doc_ok_free|done]. Qed.

Lemma scanned_keep c1 l w m : m <> [] -> scanned c1 l w ->
  scanned (c1 ++ m) (l ++ [Free w; Kept m]) []
  /\ block_ranges 0 (l ++ [Free w; Kept m])
     = block_ranges 0 l ++ [{| start := blen c1; stop := blen c1 + blen m |}].
Proof.
  intros Hm (-> & Hok & Hl). split; [split; [|split]|].
  - rewrite render_app, !render_cons. cbn -[app]. by rewrite !app_nil_r, app_assoc.
  - rewrite <- app_assoc. destruct Hok as [Hs Hf]. split; [by apply (separated_insert l w w [] (Kept m) [])|].
    apply Forall_app in Hf as [Hf _]. apply Forall_app. split; [done|].
    constructor; [by left|]. constructor; [by right|]. constructor; [by left|constructor].
  - by rewrite links_at_app, Hl.
  - by rewrite block_ranges_app, blen_app.
Qed.

Lemma scanned_done c1 l w : scanned c1 l w -> exists l',
  block_ranges 0 l' = block_ranges 0 l /\ render l' = c1 /\ doc_ok l' /\ links_at 0 l' = [].
Proof.
  intros (-> & Hok & Hl). exists (l ++ [Free w]).
  rewrite block_ranges_app, app_nil_r, render_app, links_at_app, Hl. cbn -[app]. by rewrite app_nil_r.
Qed.

(** The scanner reads the input as free text and kept spans. *)
Lemma forbidden_loop_spec fuel : forall c1 c2 l w, blen c2 < fuel -> scanned c1 l w ->
  exists l', forbidden_loop fuel (c1 ++ c2) (blen c1) (block_ranges 0 l) = Some (block_ranges 0 l')
    /\ render l' = c1 ++ c2 /\ doc_ok l' /\ links_at 0 l' = [].
Proof.
  induction fuel as [|fuel IH]; intros c1 c2 l w Hfuel Hscan; [lia|].
  cbn [forbidden_loop]. destruct c2 as [|c r].
  { rewrite app_nil_r, Nat.ltb_irrefl. destruct (scanned_done _ _ _ Hscan) as (l' & <- & HH). eauto. }
  pose proof (len_utf8_pos c) as Hc. simpl in Hfuel.
  rewrite (proj2 (Nat.ltb_lt _ _)) by (rewrite blen_app; simpl; lia).
  rewrite is_char_boundary_app. cbn [negb].
  destruct (span_at_app c1 c r) as (res & -> & Hres). rewrite some_bind.
  destruct res as [[e fin]|].
  - destruct (Hres e fin eq_refl) as [(m & r' & Hr & Hm & <-) Hfin].
    destruct (scanned_keep _ _ _ _ Hm Hscan) as [Hscan' <-]. rewrite Hr in *.
    destruct fin.
    + specialize (Hfin eq_refl). rewrite !blen_app in Hfin.
      assert (r' = []) as -> by (apply blen_nil_inv; lia). rewrite app_nil_r.
      destruct (scanned_done _ _ _ Hscan') as (l' & <- & HH). eauto.
    + rewrite app_assoc, <- blen_app. apply (IH _ _ _ []); [|done].
      assert (blen m <> 0) by (intros Hz; by apply blen_nil_inv in Hz).
      assert (blen (c :: r) = blen m + blen r') as Hb by by rewrite Hr, blen_app. simpl in Hb. lia.
  - rewrite next_char_app. destruct (IH (c1 ++ [c]) r l (w ++ [c])) as (l' & Hl' & HH);
      [lia|by apply scanned_skip|].
    rewrite <- app_assoc in Hl', HH. eauto.
Qed.

Lemma compute_forbidden_spans_spec content : exists l,
  compute_forbidden_spans content = Some (block_ranges 0 l)
  /\ render l = content /\ doc_ok l /\ links_at 0 l = [].
Proof.
  apply (forbidden_loop_spec (S (blen content)) [] content [] []); [lia|].
  split; [done|]. split; [|done]. split; [done|]. repeat constructor.
Qed.

(** A document without links is its own input. *)
Lemma no_links_visible off l : links_at off l = [] -> visible_text l = render l /\ kept_ranges off l = block_ranges off l.
Proof.
  revert off. induction l as [|x l IH]; intros off; simpl; [done|].
  intros [Hx Hl]%app_nil. destruct (IH _ Hl) as [IH1 IH2].
  rewrite visible_text_cons, render_cons, IH1. destruct x; simpl in *; by rewrite ?IH2.
Qed.

(** ** The slugs of the input *)

(** What stands before the first bar. *)
Lemma before_bar s : exists p q, s = p ++ q /\ PIPE ∉ p /\ (q = [] \/ head q = Some PIPE)
  /\ default s (head (split_char PIPE s)) = p.
Proof.
  pose proof (join_split_char PIPE s) as Hj. pose proof (split_char_no_sep PIPE s) as Hn.
  destruct (split_char_cons_inv PIPE s) as (f & fs & E). rewrite E in *. apply Forall_cons in Hn as [Hf _].
  destruct fs as [|f' fs].
  - exists s, []. cbn in Hj. subst f. rewrite app_nil_r. split_and!; [done|done|by left|done].
  - exists f, ([PIPE] ++ join [PIPE] (f' :: fs)). split_and!; [by rewrite <- Hj|done|by right|done].
Qed.

Lemma existing_slugs_loop_spec fuel : forall c1 c2 acc, blen c2 < fuel ->
  exists slugs, existing_slugs_loop fuel (c1 ++ c2) (blen c1) acc = Some (acc ++ slugs) /\ links_to c2 slugs.
Proof.
  induction fuel as [|fuel IH]; intros c1 c2 acc Hfuel; [lia|].
  cbn [existing_slugs_loop]. destruct (Nat.ltb_spec (blen c1 + 1) (blen (c1 ++ c2))) as [Hlt|Hge].
  2: { exists []. rewrite app_nil_r. split; [done|]. rewrite blen_app in Hge. destruct c2 as [|c r]; [constructor|].
       pose proof (len_utf8_pos c). simpl in Hge. assert (r = []) as -> by (apply blen_nil_inv; lia).
       apply lt_char; [|constructor]. intros a d Heq. apply (f_equal length) in Heq. rewrite !length_app in Heq.
       change (length LINK_OPEN) with 2 in Heq. cbn in Heq. lia. }
  destruct c2 as [|c r]; [rewrite app_nil_r in Hlt; lia|].
  pose proof (len_utf8_pos c) as Hc. simpl in Hfuel.
  rewrite is_char_boundary_app. cbn [negb].
  destruct (byte_at_app c1 c r) as (b0 & -> & _ & Hascii). rewrite some_bind.
  destruct (byte_at (c1 ++ c :: r) (blen c1 + 1)) as [b1|] eqn:Hb1;
    [|apply lookup_ge_None in Hb1; rewrite length_as_bytes in Hb1; lia].
  rewrite some_bind. rewrite (Hascii LBRACKET) by done.
  assert (Hskip : (forall a d, c :: r <> LINK_OPEN ++ a ++ LINK_CLOSE ++ d) -> exists slugs,
    existing_slugs_loop fuel (c1 ++ c :: r) (next_char (c1 ++ c :: r) (blen c1)) acc = Some (acc ++ slugs) /\ links_to (c :: r) slugs).
  { intros Hno. rewrite next_char_app. destruct (IH (c1 ++ [c]) r acc) as (slugs & H1 & H2); [lia|].
    rewrite <- app_assoc in H1. exists slugs. split; [done|by constructor]. }
  set (cond := (c =? LBRACKET)%Z && (b1 =? LBRACKET)%Z && is_char_boundary (c1 ++ c :: r) (blen c1 + 2)).
  assert (Hcond : cond = true <-> exists rest, c :: r = LINK_OPEN ++ rest).
  { unfold cond. split.
    - intros [[Hc0%Z.eqb_eq Hc1%Z.eqb_eq]%andb_prop _]%andb_prop. subst c. destruct r as [|c' r].
      { rewrite blen_app in Hlt. change (blen [LBRACKET]) with 1 in Hlt. lia. }
      destruct (byte_at_app (c1 ++ [LBRACKET]) c' r) as (b & Hb & _ & Ha). rewrite <- app_assoc, blen_app in Hb.
      change (blen [LBRACKET]) with 1 in Hb. change ((c1 ++ [LBRACKET] ++ c' :: r)) with (c1 ++ LBRACKET :: c' :: r) in Hb.
      rewrite Hb1 in Hb. injection Hb as <-. specialize (Ha LBRACKET ltac:(done)). rewrite Hc1, Z.eqb_refl in Ha.
      symmetry in Ha. apply Z.eqb_eq in Ha as ->. by exists r.
    - intros (rest & Heq). change (LINK_OPEN ++ rest) with (LBRACKET :: LBRACKET :: rest) in Heq. injection Heq as -> ->.
      destruct (byte_at_app (c1 ++ [LBRACKET]) LBRACKET rest) as (b & Hb & _ & Ha). rewrite <- app_assoc, blen_app in Hb.
      change (blen [LBRACKET]) with 1 in Hb. change ((c1 ++ [LBRACKET] ++ LBRACKET :: rest)) with (c1 ++ LBRACKET :: LBRACKET :: rest) in Hb.
      rewrite Hb1 in Hb. injection Hb as <-. rewrite (Ha LBRACKET), Z.eqb_refl by done. cbn [andb].
      change (c1 ++ LBRACKET :: LBRACKET :: rest) with (c1 ++ [LBRACKET; LBRACKET] ++ rest). rewrite app_assoc.
      replace (blen c1 + 2) with (blen (c1 ++ [LBRACKET; LBRACKET])) by by rewrite blen_app. apply is_char_boundary_app. }
  destruct (when_cases cond (find_after (c1 ++ c :: r) (blen c1 + 2) LINK_CLOSE)) as (link & -> & Hlink).
  { intros [rest ->]%Hcond. by rewrite (find_after_app c1 _ rest). }
  rewrite some_bind. destruct link as [rel|].
  - destruct Hlink as [[[rest Hr]%Hcond Hrel]|[_ [=]]]. rewrite Hr in *. rewrite (find_after_app c1 _ rest) in Hrel by done.
    injection Hrel as Hrel. apply first_found in Hrel as (a & d & -> & <- & Hfirst).
    assert (slice (c1 ++ LINK_OPEN ++ a ++ LINK_CLOSE ++ d) (blen c1 + 2) (blen c1 + 2 + blen a) = Some a) as ->.
    { rewrite app_assoc. replace (blen c1 + 2) with (blen (c1 ++ LINK_OPEN)) by by rewrite blen_app. apply slice_middle. }
    rewrite some_bind. destruct (before_bar a) as (s & q & -> & Hs & Hq & ->).
    destruct (IH (c1 ++ LINK_OPEN ++ (s ++ q) ++ LINK_CLOSE) d (if str_is_empty (trim s) then acc else acc ++ [trim s]))
      as (slugs & H1 & H2).
    { apply (f_equal blen) in Hr. rewrite !blen_app in Hr. change (blen LINK_OPEN) with 2 in Hr. cbn [blen] in Hr. lia. }
    exists (if str_is_empty (trim s) then slugs else trim s :: slugs). split; [|by apply lt_link].
    replace (blen (c1 ++ LINK_OPEN ++ (s ++ q) ++ LINK_CLOSE)) with (blen c1 + 2 + blen (s ++ q) + 2) in H1
      by (rewrite !blen_app; change (blen LINK_OPEN) with 2; change (blen LINK_CLOSE) with 2; lia).
    rewrite <- !(app_assoc c1), <- !(app_assoc LINK_OPEN), <- !(app_assoc (s ++ q)) in H1. rewrite H1.
    destruct (str_is_empty (trim s)); [done|]. by rewrite <- app_assoc.
  - apply Hskip. intros a d Heq. destruct Hlink as [[_ Hrel]|[Hno _]].
    + rewrite Heq, (find_after_app c1 LINK_OPEN) in Hrel by done. injection Hrel as Hrel.
      exact (find_none_apart _ _ _ _ _ Hrel eq_refl).
    + assert (cond = true) as Hyes by (apply Hcond; by eexists). congruence.
Qed.

Lemma existing_slugs_spec content : exists slugs, existing_slugs content = Some slugs /\ links_to content slugs.
Proof. apply (existing_slugs_loop_spec (S (blen content)) [] content []). lia. Qed.

(** ** The first safe match *)

Definition alnum_end (s : str) : bool := match last s with Some c => alnum c | None => false end.
Definition alnum_start (s : str) : bool := match head s with Some c => alnum c | None => false end.

(** An occurrence of [needle] outside the forbidden spans; when the needle has an ASCII
    letter or digit at an edge, no ASCII letter or digit may stand next to it. *)
Definition safe_match (haystack needle : str) (forbidden : list Span) (p r : str) : Prop :=
  haystack = p ++ needle ++ r
  /\ span_contains forbidden (blen p) (blen p + blen needle) = false
  /\ (has_ascii_letter_edge needle = true -> alnum_end p = false /\ alnum_start r = false).

Lemma has_word_boundary_app p m r : has_word_boundary (p ++ m ++ r) (blen p) (blen p + blen m)
  = Some (negb (alnum_end p) && negb (alnum_start r)).
Proof.
  unfold has_word_boundary.
  assert ((if blen p =? 0 then Some true
           else b ← byte_at (p ++ m ++ r) (blen p - 1); Some (negb (is_ascii_alphanumeric b)))
          = Some (negb (alnum_end p))) as ->.
  { destruct p as [|c p] using rev_ind; [done|]. rewrite (proj2 (Nat.eqb_neq _ _)).
    - destruct (byte_before_app p c (m ++ r)) as (b & -> & Hb). rewrite some_bind, Hb.
      unfold alnum_end. by rewrite last_snoc.
    - rewrite blen_app. simpl. pose proof (len_utf8_pos c). lia. }
  rewrite some_bind.
  assert ((if blen (p ++ m ++ r) <=? blen p + blen m then Some true
           else b ← byte_at (p ++ m ++ r) (blen p + blen m); Some (negb (is_ascii_alphanumeric b)))
          = Some (negb (alnum_start r))) as ->; [|done].
  rewrite app_assoc, <- blen_app. destruct r as [|c r].
  - rewrite app_nil_r, (proj2 (Nat.leb_le _ _)) by lia. done.
  - rewrite (proj2 (Nat.leb_gt _ _)).
    + destruct (byte_at_app (p ++ m) c r) as (b & -> & Hb & _). by rewrite some_bind, Hb.
    + rewrite (blen_app (p ++ m)). simpl. pose proof (len_utf8_pos c). lia.
Qed.

(** Behind an unsafe occurrence at [p] the next candidate starts one char later. *)
Lemma later_matches p c m' r (hay needle : str) forb p' r' :
  hay = p ++ (c :: m') ++ r -> safe_match hay needle forb p' r' -> blen p <= blen p' ->
  ~ (exists r'', safe_match hay needle forb p r'') -> blen (p ++ [c]) <= blen p'.
Proof.
  intros Hhay Hsafe Hle Hno. pose proof Hsafe as [Hhay' _]. rewrite Hhay in Hhay'.
  destruct (prefix_blen_le _ _ _ _ Hhay' Hle) as (m & -> & Hm).
  destruct m as [|d m].
  - exfalso. apply Hno. exists r'. by rewrite app_nil_r in Hsafe.
  - simpl in Hm. injection Hm as -> _. rewrite !blen_app. simpl. lia.
Qed.

(** The next occurrence is a lower bound of the safe matches. *)
Lemma first_after (hay needle : str) forb h1 a rest :
  hay = h1 ++ a ++ rest ->
  (forall p r, safe_match hay needle forb p r -> blen h1 <= blen p) ->
  (forall a' b', a ++ rest = a' ++ needle ++ b' -> length a <= length a') ->
  forall p r, safe_match hay needle forb p r -> blen (h1 ++ a) <= blen p.
Proof.
  intros Hhay Hbefore Hmin p r Hsafe. pose proof (Hbefore _ _ Hsafe) as Hle. pose proof Hsafe as [Heq _].
  rewrite Hhay in Heq. destruct (prefix_blen_le _ _ _ _ Heq Hle) as (m & -> & Hm).
  pose proof (Hmin _ _ Hm) as Hlen.
  destruct (decide (blen a <= blen m)) as [|Hgt]; [rewrite !blen_app; lia|].
  destruct (prefix_blen_le m a (needle ++ r) rest) as (k & -> & _); [by rewrite <- Hm|lia|].
  rewrite length_app in Hlen. assert (k = []) as -> by (apply nil_length_inv; lia).
  rewrite app_nil_r in Hgt. lia.
Qed.

Section first_match.
Context (haystack needle : str) (forbidden : list Span) (Hneedle : needle <> []).

(** What the search answers. *)
Definition first_safe (res : option nat) : Prop :=
  match res with
  | Some pos => exists p r, safe_match haystack needle forbidden p r /\ blen p = pos
      /\ forall p' r', safe_match haystack needle forbidden p' r' -> pos <= blen p'
  | None => forall p r, ~ safe_match haystack needle forbidden p r
  end.

Lemma safe_match_loop_spec fuel : forall h1 h2, haystack = h1 ++ h2 -> blen h2 < fuel ->
  (forall p r, safe_match haystack needle forbidden p r -> blen h1 <= blen p) ->
  exists res, safe_match_loop fuel haystack needle forbidden (has_ascii_letter_edge needle) (blen h1) = Some res
    /\ first_safe res.
Proof.
  induction fuel as [|fuel IH]; intros h1 h2 Hhay Hfuel Hbefore; [lia|]. cbn [safe_match_loop].
  destruct (Nat.leb_spec (blen h1 + blen needle) (blen haystack)) as [_|Hlt].
  2: { eexists. split; [done|]. intros p r Hsafe. pose proof (Hbefore _ _ Hsafe).
       destruct Hsafe as [-> _]. rewrite !blen_app in Hlt. lia. }
  assert (find_after haystack (blen h1) needle = Some (str_find h2 needle)) as ->
    by (rewrite Hhay; unfold find_after; by rewrite suffix_app).
  rewrite some_bind.
  destruct (str_find h2 needle) as [rel|] eqn:Hfind.
  2: { eexists. split; [done|]. intros p r Hsafe. pose proof (Hbefore _ _ Hsafe) as Hle.
       destruct Hsafe as [Heq _]. rewrite Hhay in Heq.
       destruct (prefix_blen_le _ _ _ _ Heq Hle) as (m & -> & ->). by eapply str_find_None. }
  apply str_find_Some in Hfind as (a & b & -> & <- & Hmin).
  rewrite <- blen_app.
  assert (Hat : haystack = (h1 ++ a) ++ needle ++ b) by by rewrite Hhay, <- app_assoc.
  pose proof (first_after haystack needle forbidden h1 a (needle ++ b) Hhay Hbefore Hmin) as Hfirst.
  destruct needle as [|c m'] eqn:En; [done|]. rewrite <- En in *.
  assert (Hretry : ~ (exists r, safe_match haystack needle forbidden (h1 ++ a) r) ->
    exists res, safe_match_loop fuel haystack needle forbidden (has_ascii_letter_edge needle)
                  (next_char haystack (blen (h1 ++ a))) = Some res /\ first_safe res).
  { intros Hno.
    assert (next_char haystack (blen (h1 ++ a)) = blen ((h1 ++ a) ++ [c])) as ->
      by (rewrite Hat, En; apply next_char_app).
    apply (IH ((h1 ++ a) ++ [c]) (m' ++ b)).
    - rewrite Hat, En, <- !app_assoc. done.
    - pose proof (len_utf8_pos c). rewrite !blen_app, En in Hfuel. simpl in Hfuel.
      rewrite blen_app. lia.
    - intros p r Hsafe. eapply (later_matches (h1 ++ a) c m' b haystack needle); eauto.
      by rewrite Hat, En. }
  assert (is_char_boundary haystack (blen (h1 ++ a)) = true) as -> by (rewrite Hat; apply is_char_boundary_app).
  assert (is_char_boundary haystack (blen (h1 ++ a) + blen needle) = true) as ->
    by (rewrite Hat, <- blen_app, app_assoc; apply is_char_boundary_app).
  cbn [negb orb].
  destruct (span_contains forbidden (blen (h1 ++ a)) (blen (h1 ++ a) + blen needle)) eqn:Hspan.
  { apply Hretry. intros [r (_ & Hs & _)]. congruence. }
  assert (Hbound : (if has_ascii_letter_edge needle
      then has_word_boundary haystack (blen (h1 ++ a)) (blen (h1 ++ a) + blen needle) else Some true)
    = Some (implb (has_ascii_letter_edge needle) (negb (alnum_end (h1 ++ a)) && negb (alnum_start b)))).
  { destruct (has_ascii_letter_edge needle); [|done]. by rewrite Hat, has_word_boundary_app. }
  rewrite Hbound, some_bind.
  destruct (implb _ _) eqn:Hok.
  - eexists. split; [done|]. exists (h1 ++ a), b. split; [|done]. split; [done|]. split; [done|].
    intros He. rewrite He in Hok. simpl in Hok. by bool_to_prop.
  - apply Hretry. intros [r (Heq & _ & Hb)]. rewrite Hat in Heq. simplify_list_eq.
    destruct (has_ascii_letter_edge needle); [|done]. destruct (Hb eq_refl) as [H1 H2].
    simpl in Hok. by rewrite H1, H2 in Hok.
Qed.

Lemma find_first_safe_match_exact : exists res,
  find_first_safe_match haystack needle forbidden = Some res /\ first_safe res.
Proof.
  unfold find_first_safe_match. destruct (str_is_empty needle) eqn:E; [by apply str_is_empty_spec in E|].
  apply (safe_match_loop_spec _ [] haystack); [done|lia|]. intros. simpl. lia.
Qed.

End first_match.

(** ** Putting a link into a free piece *)

#[export] Instance span_contains_perm s e : Proper ((≡ₚ) ==> eq) (fun spans => span_contains spans s e).
Proof.
  unfold span_contains. intros l l' Hp. induction Hp; simpl; [done|by f_equal| |congruence].
  rewrite !orb_assoc. f_equal. apply orb_comm.
Qed.

Lemma block_ranges_bounds l : Forall solid l -> forall off,
  Forall (fun sp => off <= start sp /\ start sp < stop sp /\ stop sp <= off + blen (render l)) (block_ranges off l).
Proof.
  induction 1 as [|x l Hx _ IH]; intros off; simpl; [constructor|].
  rewrite render_cons, blen_app. apply Forall_app. split.
  - destruct Hx as [->|[Hx _]]; [constructor|]. destruct (is_free x); constructor; [|constructor]. simpl.
    assert (blen (rendered x) <> 0) by (intros Hz; by apply blen_nil_inv in Hz). lia.
  - eapply Forall_impl; [apply IH|]. simpl. lia.
Qed.

Lemma block_ranges_shift off d l :
  block_ranges (off + d) l = map (fun sp => {| start := start sp + d; stop := stop sp + d |}) (block_ranges off l).
Proof.
  revert off. induction l as [|x l IH]; intros off; simpl; [done|].
  rewrite map_app. f_equal; [destruct (is_free x); simpl; do 2 f_equal; lia|].
  rewrite <- IH. f_equal. lia.
Qed.

(** An occurrence that meets no block lies inside one free piece. *)
Lemma locate l : separated l -> Forall solid l -> forall off p m r,
  render l = p ++ m ++ r -> m <> [] ->
  span_contains (block_ranges off l) (off + blen p) (off + blen p + blen m) = false ->
  exists xs a b ys, l = xs ++ Free (a ++ m ++ b) :: ys /\ p = render xs ++ a /\ r = b ++ render ys.
Proof.
  intros Hsep Hsolid. revert Hsep. induction Hsolid as [|x l Hx Hsolid IH]; intros Hsep off p m r Hr Hm Hno.
  { by destruct p, m. }
  assert (blen m <> 0) as Hm0 by (intros Hz; by apply blen_nil_inv in Hz).
  rewrite render_cons in Hr. simpl in Hno. unfold span_contains in Hno. rewrite existsb_app in Hno.
  bool_to_prop. destruct Hsep as [Hadj Hsep].
  destruct (decide (blen (rendered x) <= blen p)) as [Hle|Hgt].
  - destruct (prefix_blen_le _ _ _ _ Hr Hle) as (p' & -> & Hl).
    destruct (IH Hsep (off + blen (rendered x)) p' m r Hl Hm) as (xs & a & b & ys & -> & -> & ->).
    { unfold span_contains. rewrite blen_app in *. by rewrite !Nat.add_assoc in *. }
    exists (x :: xs), a, b, ys. by rewrite render_cons, <- !app_assoc.
  - destruct x as [s|s|ref]; simpl in *; bool_to_prop; [|rewrite !Nat.ltb_ge in *; lia..].
    destruct (decide (blen p + blen m <= blen s)) as [Hin|Hout].
    + destruct (prefix_blen_le (p ++ m) s r (render l)) as (b & -> & ->); [by rewrite <- app_assoc|rewrite blen_app; lia|].
      exists [], p, b, l. by rewrite <- app_assoc.
    + exfalso. destruct l as [|y l].
      * apply (f_equal blen) in Hr. rewrite !blen_app in Hr. simpl in Hr. lia.
      * destruct (is_free y) eqn:Ey; [by apply Hadj|].
        simpl in *. rewrite Ey in *. simpl in *. bool_to_prop.
        pose proof (Forall_inv Hsolid) as [?|[Hy _]]; [congruence|].
        assert (blen (rendered y) <> 0) by (intros Hz; by apply blen_nil_inv in Hz).
        rewrite !Nat.ltb_ge in *. lia.
Qed.

Lemma as_usize_small n : (0 <= n < 9223372036854775808)%Z -> as_usize n = Z.to_nat n.
Proof. intros. unfold as_usize. rewrite Z.mod_small by lia. done. Qed.

Lemma shift_before spans pos delta : Forall (fun sp => start sp < pos) spans ->
  shift_spans_after spans pos delta = spans.
Proof.
  induction 1 as [|sp spans Hsp _ IH]; simpl; [done|]. rewrite IH.
  by rewrite (proj2 (Nat.leb_gt _ _)) by lia.
Qed.

Lemma shift_behind spans pos d :
  Forall (fun sp => pos <= start sp /\ start sp < stop sp
                    /\ (Z.of_nat (stop sp + d) < 9223372036854775808)%Z) spans ->
  shift_spans_after spans pos (Z.of_nat d) = map (fun sp => {| start := start sp + d; stop := stop sp + d |}) spans.
Proof.
  induction 1 as [|sp spans Hsp _ IH]; simpl; [done|]. rewrite IH.
  rewrite (proj2 (Nat.leb_le _ _)) by lia. rewrite !as_usize_small by lia. do 3 f_equal; lia.
Qed.
Definition inserted (xs : list Piece) (a : str) (ref : LinkRef) (b : str) (ys : list Piece) : list Piece :=
  xs ++ Free a :: Link ref :: Free b :: ys.

Section insert.
Context (xs ys : list Piece) (a b : str) (ref : LinkRef).
Let l := xs ++ Free (a ++ match_text ref ++ b) :: ys.
Let l' := inserted xs a ref b ys.

Lemma inserted_visible : visible_text l' = visible_text l.
Proof.
  unfold l, l', inserted. rewrite !visible_text_app, !visible_text_cons. simpl. by rewrite <- !app_assoc.
Qed.

Lemma inserted_render : render l' = (render xs ++ a) ++ link_text ref ++ b ++ render ys.
Proof. unfold l', inserted. rewrite !render_app, !render_cons. simpl. by rewrite <- !app_assoc. Qed.

Lemma inserted_kept : kept_ranges 0 l' = kept_ranges 0 l.
Proof.
  unfold l, l', inserted. rewrite !kept_ranges_app. simpl. rewrite !blen_app. do 2 f_equal. lia.
Qed.

Lemma inserted_links : links_at 0 l' ≡ₚ (blen (visible_text xs ++ a), ref) :: links_at 0 l.
Proof.
  unfold l, l', inserted. rewrite !links_at_app. simpl. rewrite !blen_app.
  rewrite <- Permutation_middle. do 3 f_equiv. lia.
Qed.

Lemma inserted_ok : match_text ref <> [] -> doc_ok l -> doc_ok l'.
Proof.
  intros Hm [Hs Hf]. split; [by eapply separated_insert|].
  unfold l, l', inserted in *. apply Forall_app in Hf as [H1 H2]. apply Forall_app. split; [done|].
  inversion H2; subst. constructor; [by left|]. constructor; [by right|]. constructor; [by left|done].
Qed.

(** The new forbidden spans are the old ones, shifted behind the link, and the link. *)
Lemma inserted_ranges : Forall solid l ->
  (Z.of_nat (blen (render l')) < 9223372036854775808)%Z ->
  let pos := blen (render xs ++ a) in
  shift_spans_after (block_ranges 0 l) pos
    (Z.of_nat (blen (link_text ref)) - Z.of_nat (blen (match_text ref)))
  ++ [{| start := pos; stop := pos + blen (link_text ref) |}]
  ≡ₚ block_ranges 0 l'.
Proof.
  intros Hsolid Hsize pos. unfold l, l', inserted in *. apply Forall_app in Hsolid as [Hxs Hys].
  apply Forall_inv_tail in Hys.
  set (d := blen (link_text ref) - blen (match_text ref)).
  assert (Hd : blen (link_text ref) = blen (match_text ref) + d)
    by (unfold d, link_text; rewrite !blen_app; lia).
  replace (Z.of_nat (blen (link_text ref)) - Z.of_nat (blen (match_text ref)))%Z with (Z.of_nat d) by lia.
  rewrite !block_ranges_app. cbn [block_ranges is_free rendered app]. unfold shift_spans_after. rewrite map_app.
  fold (shift_spans_after (block_ranges 0 xs) pos (Z.of_nat d)).
  match goal with |- context [map _ (block_ranges ?o ys)] =>
    fold (shift_spans_after (block_ranges o ys) pos (Z.of_nat d)); set (off := o) in * end.
  assert (Hoff : off = pos + blen (match_text ref) + blen b) by (unfold off, pos; rewrite !blen_app; lia).
  rewrite !render_app, !render_cons in Hsize. cbn [rendered] in Hsize. rewrite !blen_app, Hd in Hsize.
  rewrite shift_before.
  2: { eapply Forall_impl; [by apply block_ranges_bounds|]. intros sp. unfold pos. rewrite blen_app. simpl. lia. }
  rewrite shift_behind.
  2: { eapply Forall_impl; [by apply block_ranges_bounds|]. intros sp. rewrite Hoff. unfold pos.
       rewrite blen_app. simpl. lia. }
  rewrite <- block_ranges_shift, <- app_assoc. f_equiv.
  rewrite (Permutation_app_comm _ [_]). cbn [app]. unfold pos. rewrite !blen_app. f_equiv.
  match goal with |- block_ranges ?x ys ≡ₚ block_ranges ?y ys => replace y with x; [done|] end.
  rewrite Hoff, Hd. unfold pos. rewrite !blen_app. lia.
Qed.
End insert.

(** ** Links do not cut words *)

(** [x] and [y] would be one ASCII word across the cut. *)
Definition joins (x y : str) : bool := alnum_end x && alnum_start y.

(** The text of a link stands in the input at byte [off] and cuts no ASCII word. *)
Definition link_ok (content : str) (link : nat * LinkRef) : Prop :=
  exists p q, content = p ++ match_text link.2 ++ q /\ blen p = link.1
    /\ joins p (match_text link.2) = false /\ joins (match_text link.2) q = false.

Lemma edge_spec m : m <> [] -> has_ascii_letter_edge m = alnum_start m || alnum_end m.
Proof.
  intros Hm. unfold has_ascii_letter_edge. f_equal.
  - destruct m as [|c m]; [done|]. destruct (byte_at_app [] c m) as (b & Hb & Ha & _).
    unfold byte_at in Hb. simpl in Hb. rewrite <- head_lookup in Hb. by rewrite Hb.
  - destruct m as [|c m] using rev_ind; [done|]. unfold alnum_end. rewrite last_snoc.
    destruct (utf8_char_last c) as (bs & b & Hc & Ha).
    rewrite as_bytes_app, as_bytes_cons, Hc, app_nil_r, app_assoc, last_snoc. done.
Qed.

Lemma alnum_end_app x y : y <> [] -> alnum_end (x ++ y) = alnum_end y.
Proof.
  intros Hy. destruct y as [|c y] using rev_ind; [done|]. unfold alnum_end.
  by rewrite app_assoc, !last_snoc.
Qed.

Lemma alnum_start_app x y : x <> [] -> alnum_start (x ++ y) = alnum_start x.
Proof. by destruct x. Qed.

Lemma separated_around xs f ys : separated (xs ++ Free f :: ys) ->
  (xs = [] \/ exists xs' x, xs = xs' ++ [x] /\ is_free x = false)
  /\ (ys = [] \/ exists y ys', ys = y :: ys' /\ is_free y = false).
Proof.
  intros Hs. split.
  - destruct xs as [|x xs _] using rev_ind; [by left|]. right. exists xs, x. split; [done|].
    revert Hs. rewrite <- app_assoc. simpl. induction xs as [|x' [|x'' xs] IH]; simpl in *; [|naive_solver..].
    destruct (is_free x); naive_solver.
  - destruct ys as [|y ys]; [by left|]. right. exists y, ys. split; [done|].
    induction xs as [|x xs IH]; simpl in *; [|apply IH; naive_solver].
    destruct (is_free y); naive_solver.
Qed.

Section word.
Context (content : str) (xs ys : list Piece) (a b : str) (ref : LinkRef).
Let m := match_text ref.
Let l := xs ++ Free (a ++ m ++ b) :: ys.
Context (Hcontent : visible_text l = content) (Hok : doc_ok l) (Hm : m <> [])
  (Hlinks : Forall (link_ok content) (links_at 0 l))
  (Hword : has_ascii_letter_edge m = true -> alnum_end (render xs ++ a) = false /\ alnum_start (b ++ render ys) = false).

Lemma content_around : content = (visible_text xs ++ a) ++ m ++ b ++ visible_text ys.
Proof. rewrite <- Hcontent. unfold l. rewrite visible_text_app, visible_text_cons. simpl. by rewrite <- !app_assoc. Qed.

Lemma join_left : joins (visible_text xs ++ a) m = false.
Proof.
  pose proof content_around as Hca.
  unfold joins. destruct (alnum_start m) eqn:Es; [|apply andb_false_r]. rewrite andb_true_r.
  destruct Hword as [Hl _]; [by rewrite edge_spec, Es|].
  destruct (decide (a = [])) as [->|Ha]; [|by rewrite alnum_end_app in Hl |- *].
  rewrite app_nil_r in Hl |- *. destruct Hok as [Hsep Hsolid].
  destruct (separated_around _ _ _ Hsep) as [[->|(xs' & x & Hxs & Hx)] _]; [done|].
  unfold l in Hsolid. rewrite Forall_app, Hxs, Forall_app in Hsolid. destruct Hsolid as [[_ Hsx] _].
  apply Forall_inv in Hsx as [?|[Hr Hv]]; [congruence|].
  rewrite Hxs, visible_text_app, visible_text_cons; rewrite Hxs in Hl; rewrite render_app, render_cons in Hl.
  cbn [render visible_text map concat] in Hl |- *. rewrite !app_nil_r in Hl |- *.
  rewrite alnum_end_app in Hl |- * by done. destruct x as [s|s|r']; [done|done|]. simpl in Hl, Hv |- *.
  pose proof Hlinks as Hl'. unfold l in Hl'. rewrite Hxs, !links_at_app, <- app_assoc in Hl'.
  apply Forall_app in Hl' as [_ Hlinks']. apply Forall_inv in Hlinks' as (p & q & Hc & Hp & _ & Hj).
  simpl in Hc, Hp, Hj. rewrite Hca, Hxs, visible_text_app, visible_text_cons in Hc. simpl in Hc.
  rewrite !app_nil_r, <- app_assoc in Hc.
  apply prefix_blen_inj in Hc as [_ Hc]; [|done]. apply app_inv_head in Hc. subst q.
  unfold joins in Hj. rewrite alnum_start_app, Es, andb_true_r in Hj by done. done.
Qed.

Lemma join_right : joins m (b ++ visible_text ys) = false.
Proof.
  pose proof content_around as Hca.
  unfold joins. destruct (alnum_end m) eqn:Ee; [|done]. simpl.
  destruct Hword as [_ Hr]; [by rewrite edge_spec, Ee, orb_true_r|].
  destruct (decide (b = [])) as [->|Hb]; [|by rewrite alnum_start_app in Hr |- *].
  simpl in Hr |- *. destruct Hok as [Hsep Hsolid].
  destruct (separated_around _ _ _ Hsep) as [_ [->|(y & ys' & Hys & Hy)]]; [done|].
  unfold l in Hsolid. rewrite Forall_app, Hys in Hsolid. destruct Hsolid as [_ Hsy].
  apply Forall_inv_tail, Forall_inv in Hsy as [?|[Hr' Hv]]; [congruence|].
  rewrite Hys, visible_text_cons. rewrite Hys, render_cons in Hr. rewrite alnum_start_app in Hr |- * by done.
  destruct y as [s|s|r']; [done|done|]. simpl in Hr, Hv |- *.
  pose proof Hlinks as Hl'. unfold l in Hl'. rewrite Hys, links_at_app in Hl'. simpl in Hl'.
  apply Forall_app in Hl' as [_ Hlinks']. apply Forall_inv in Hlinks' as (p & q & Hc & Hp & Hj & _).
  simpl in Hc, Hp, Hj. rewrite Hca, Hys, visible_text_cons in Hc. simpl in Hc.
  rewrite (app_assoc _ m) in Hc. apply prefix_blen_inj in Hc as [Hc _];
    [|rewrite Hp, !blen_app; simpl; rewrite ?blen_app; simpl; lia].
  unfold joins in Hj. rewrite <- Hc, alnum_end_app, Ee in Hj by done. done.
Qed.

Lemma new_link_ok : link_ok content (blen (visible_text xs ++ a), ref).
Proof.
  exists (visible_text xs ++ a), (b ++ visible_text ys).
  split; [apply content_around|]. split; [done|]. split; [apply join_left|apply join_right].
Qed.
End word.

(** ** One reference *)

Definition link_slug (k : nat * LinkRef) : str := slug k.2.

(** The bytes a link adds to its text. *)
Definition link_cost (r : LinkRef) : nat := blen (slug r) + 5.

Definition links_cost (refs : list LinkRef) : nat := sum_list_with link_cost refs.

Lemma blen_link_text r : blen (link_text r) = blen (match_text r) + link_cost r.
Proof.
  unfold link_text, link_cost. rewrite !blen_app.
  change (blen LINK_OPEN) with 2. change (blen LINK_CLOSE) with 2. change (blen [PIPE]) with 1. lia.
Qed.

Lemma replace_range_app p m r w :
  replace_range (p ++ m ++ r) (blen p) (blen p + blen m) w = Some (p ++ w ++ r).
Proof.
  unfold replace_range. rewrite split_at_byte_app, some_bind.
  rewrite app_assoc, <- blen_app, split_at_byte_app, some_bind.
  by rewrite (proj2 (Nat.leb_le _ _)) by (rewrite blen_app; lia).
Qed.

Lemma existsb_str_eqb (l : list str) s : existsb (fun t => str_eqb t s) l = true <-> s ∈ l.
Proof.
  rewrite existsb_exists. setoid_rewrite <- list_elem_of_In. unfold str_eqb.
  setoid_rewrite bool_decide_eq_true. naive_solver.
Qed.

Section run.
Context (content : str) (spans0 : list Span) (slugs0 : list str) (from : LinkRef -> Prop).

(** The state of the loop is the document [l]. *)
Record linked (st : LinkState) (l : list Piece) : Prop := {
  ln_out : out st = render l;
  ln_forbidden : forbidden st ≡ₚ block_ranges 0 l;
  ln_ok : doc_ok l;
  ln_visible : visible_text l = content;
  ln_kept : kept_ranges 0 l = spans0;
  ln_words : Forall (link_ok content) (links_at 0 l);
  ln_used : used st ≡ₚ slugs0 ++ map link_slug (links_at 0 l);
  ln_once : NoDup (map link_slug (links_at 0 l));
  ln_from : Forall (fun k => from k.2 /\ slug k.2 ∉ slugs0) (links_at 0 l);
  ln_changed : changed st = true <-> links_at 0 l <> [];
}.

(** Nothing to link for [r]: its page is linked already or no mention is safe. *)
Definition nothing_to_link (st : LinkState) (r : LinkRef) : Prop :=
  slug r ∈ used st \/ forall p q, ~ safe_match (out st) (match_text r) (forbidden st) p q.

Lemma link_step_spec st l r :
  linked st l -> from r -> match_text r <> [] ->
  (Z.of_nat (blen (out st) + link_cost r) < 9223372036854775808)%Z ->
  exists st' l', link_step st r = Some st' /\ linked st' l'
    /\ blen (out st') <= blen (out st) + link_cost r
    /\ ((st' = st /\ nothing_to_link st r) \/ changed st' = true).
Proof.
  intros Hl Hfrom Hm Hsize. unfold link_step.
  destruct (existsb (fun s => str_eqb s (slug r)) (used st)) eqn:Hu.
  { exists st, l. split; [done|]. split; [done|]. split; [lia|]. left. split; [done|]. left.
    by apply existsb_str_eqb. }
  assert (Hnew : slug r ∉ used st).
  { intros Hin. apply existsb_str_eqb in Hin. congruence. }
  destruct (find_first_safe_match_exact (out st) (match_text r) (forbidden st) Hm) as (res & -> & Hres).
  rewrite some_bind. destruct res as [pos|]; simpl in Hres.
  2: { exists st, l. split; [done|]. split; [done|]. split; [lia|]. left. split; [done|]. by right. }
  destruct Hres as (p & q & (Hout & Hspan & Hword) & <- & _), Hl as [].
  rewrite (span_contains_perm _ _ _ _ ln_forbidden0) in Hspan.
  rewrite Hout, replace_range_app, some_bind in *.
  destruct ln_ok0 as [Hsep Hsolid].
  destruct (locate l Hsep Hsolid 0 p (match_text r) q) as (xs & a & b & ys & -> & -> & ->); [done..|].
  rewrite !blen_app in Hsize.
  eexists _, (inserted xs a r b ys). split; [done|]. split; [|split; [|by right]].
  2: { cbn [out]. rewrite !blen_app, blen_link_text. lia. }
  assert (Hok' : link_ok content (blen (visible_text xs ++ a), r)) by by eapply new_link_ok.
  pose proof (inserted_links xs ys a b r) as Hlinks.
  split; cbn [out forbidden used changed].
  - by rewrite inserted_render.
  - rewrite sort_by_perm, <- inserted_ranges; [|done|].
    + f_equiv. unfold shift_spans_after. by rewrite ln_forbidden0.
    + rewrite inserted_render, !blen_app, blen_link_text. lia.
  - by apply inserted_ok.
  - by rewrite inserted_visible.
  - by rewrite inserted_kept.
  - rewrite Hlinks. by constructor.
  - rewrite Hlinks, (Permutation_app_comm (used st)), ln_used0. simpl. apply Permutation_middle.
  - rewrite Hlinks. simpl. constructor; [|done]. intros Hin. apply Hnew. rewrite ln_used0. set_solver.
  - rewrite Hlinks. constructor; [|done]. split; [done|]. simpl. intros Hin. apply Hnew. rewrite ln_used0. set_solver.
  - split; [|done]. intros _ Heq. rewrite Heq in Hlinks. by apply Permutation_nil_cons in Hlinks.
Qed.

(** All references: the document of the result, and, when nothing was changed, that
    nothing was to be linked. *)
Lemma link_loop_spec sorted : forall st l,
  linked st l -> Forall (fun r => from r /\ match_text r <> []) sorted ->
  (Z.of_nat (blen (out st) + links_cost sorted) < 9223372036854775808)%Z ->
  exists st' l', foldM link_step st sorted = Some st' /\ linked st' l'
    /\ (changed st' = false -> st' = st /\ Forall (nothing_to_link st) sorted).
Proof.
  induction sorted as [|r sorted IH]; intros st l Hl Hrefs Hsize; simpl.
  { exists st, l. split; [done|]. split; [done|]. intros _. split; [done|constructor]. }
  inversion Hrefs as [|? ? [Hfrom Hm] Hrefs']; subst.
  change (links_cost (r :: sorted)) with (link_cost r + links_cost sorted) in Hsize.
  destruct (link_step_spec st l r Hl Hfrom Hm) as (st1 & l1 & -> & Hl1 & Hlen & Hcase); [lia|].
  rewrite some_bind. destruct (IH st1 l1 Hl1 Hrefs') as (st2 & l2 & -> & Hl2 & Hun); [lia|].
  exists st2, l2. split; [done|]. split; [done|]. intros Hc. destruct (Hun Hc) as [-> Hall].
  destruct Hcase as [[-> Hnone]|Hch]; [|congruence]. split; [done|]. by constructor.
Qed.
End run.

(** ** [linkify_content] *)

(** What [linkify_content] promises for an input with the given forbidden spans and slugs. *)
Record Linkified (content : str) (refs : list LinkRef) (self_slug : str) (spans : list Span)
    (slugs : list str) (result : str) (linked_any : bool) (l : list Piece) : Prop := {
  (** the text is the input's, and the result is that text with the links *)
  lk_visible : visible_text l = content;
  lk_result : render l = result;
  (** exactly the forbidden spans are kept as they are *)
  lk_kept : kept_ranges 0 l = spans;
  (** a link is one of the usable references, to a page not linked in the input, once *)
  lk_from : Forall (fun k => (k.2 ∈ refs /\ usable self_slug k.2 = true) /\ slug k.2 ∉ slugs) (links_at 0 l);
  lk_once : NoDup (map link_slug (links_at 0 l));
  (** its text stands in the input and cuts no word *)
  lk_words : Forall (link_ok content) (links_at 0 l);
  lk_changed : linked_any = true <-> links_at 0 l <> [];
  (** nothing changed: every usable reference is linked already or has no safe mention *)
  lk_complete : linked_any = false -> forall r, r ∈ refs -> usable self_slug r = true -> slug r ∉ slugs ->
    forall p q, ~ safe_match content (match_text r) spans p q;
}.

Lemma usable_spec self_slug r : usable self_slug r = true ->
  slug r <> [] /\ match_text r <> [] /\ slug r <> self_slug.
Proof.
  unfold usable. intros H. bool_to_prop. repeat split; intros He.
  - rewrite He in *. done.
  - rewrite He in *. done.
  - rewrite He in *. unfold str_eqb in *. by rewrite bool_decide_eq_true_2 in *.
Qed.

Lemma links_cost_filter f refs : links_cost (List.filter f refs) <= links_cost refs.
Proof. unfold links_cost. induction refs as [|r refs IH]; simpl; [lia|]. destruct (f r); simpl; lia. Qed.

#[export] Instance links_cost_perm : Proper ((≡ₚ) ==> eq) links_cost.
Proof. intros l l' Hp. unfold links_cost. induction Hp; simpl; lia. Qed.

(** C28: [linkify_content] never indexes a string off a char boundary and always returns.  The
    protected spans are the fenced blocks, inline codes, wiki links, images and links of the text
    from left to right, and the known pages are those its wiki links name.  The result is the
    input with links put around texts that lie outside every protected span, cut no ASCII word and
    belong to different pages not linked in the input; nothing else changes, and when nothing
    changed no usable page had a safe mention. *)
Theorem linkify_content_correct content refs self_slug :
  (Z.of_nat (blen content + links_cost refs) < 9223372036854775808)%Z ->
  exists spans slugs result linked_any l,
    protects 0 content spans /\ links_to content slugs
    /\ linkify_content content refs self_slug = Some (result, linked_any)
    /\ Linkified content refs self_slug spans slugs result linked_any l.
Proof.
  intros Hsize.
  destruct (compute_forbidden_spans_spec content) as (l & Hspans & Hrender & Hok & Hnone).
  destruct (compute_forbidden_spans_protects content) as (spans' & Hspans' & Hprotects).
  rewrite Hspans in Hspans'. injection Hspans' as <-.
  destruct (existing_slugs_spec content) as (slugs & Hslugs & Hlinks).
  destruct (no_links_visible 0 l Hnone) as [Hvisible Hkept].
  exists (block_ranges 0 l), slugs. unfold linkify_content.
  destruct (str_is_empty content || _) eqn:Hempty.
  - exists content, false, l. split; [done|]. split; [done|]. split; [done|].
    split; rewrite ?Hnone; [by rewrite Hvisible|done|done|constructor|constructor|constructor|done|].
    + intros _ r Hr Hu _ p q (Heq & _). apply usable_spec in Hu as (_ & Hm & _).
      apply orb_prop in Hempty as [He|He]; [|by destruct refs; [inversion Hr|]].
      apply str_is_empty_spec in He. rewrite He in Heq. destruct p; [|done]. by destruct (match_text r).
  - rewrite Hspans, Hslugs, !some_bind.
    set (sorted := sort_by _ _).
    assert (Hsorted : sorted ≡ₚ List.filter (usable self_slug) refs) by apply sort_by_perm.
    destruct (link_loop_spec content (block_ranges 0 l) slugs (fun r => r ∈ refs /\ usable self_slug r = true)
      sorted {| out := content; forbidden := block_ranges 0 l; used := slugs; changed := false |} l)
      as (st & l' & -> & Hlinked & Hun).
    + split; rewrite ?Hnone; cbn; rewrite ?app_nil_r;
        [done|done|done|by rewrite Hvisible|done|constructor|done|constructor|constructor|done].
    + rewrite Hsorted. apply Forall_forall. intros r. rewrite list_elem_of_In, filter_In, <- list_elem_of_In.
      intros [Hr Hu]. split; [done|]. by apply usable_spec in Hu as (_ & ? & _).
    + cbn [out]. rewrite Hsorted. pose proof (links_cost_filter (usable self_slug) refs). lia.
    + rewrite some_bind. exists (out st), (changed st), l'. split; [done|]. split; [done|]. split; [done|].
      destruct Hlinked. split; try done.
      intros Hc r Hr Hu Hs p q Hsafe. destruct (Hun Hc) as [-> Hall].
      assert (Hin : r ∈ sorted) by (rewrite Hsorted, list_elem_of_In, filter_In, <- list_elem_of_In; done).
      rewrite Forall_forall in Hall. destruct (Hall r Hin) as [|Hno]; [done|]. by apply (Hno p q).
Qed.

Definition demo_content : str := u8"`Alpha` 与 Alphas, then Alpha.".

Lemma linkify_content_correct_witness :
  (Z.of_nat (blen demo_content + links_cost [alpha_ref; switch_ref]) < 9223372036854775808)%Z
  /\ exists spans slugs result linked_any l,
    protects 0 demo_content spans /\ links_to demo_content slugs
    /\ linkify_content demo_content [alpha_ref; switch_ref] (u8"s") = Some (result, linked_any)
    /\ Linkified demo_content [alpha_ref; switch_ref] (u8"s") spans slugs result linked_any l.
Proof. split; [vm_compute; reflexivity|]. apply linkify_content_correct. vm_compute; reflexivity. Defined.
