(* ===== verification/Pipeline.v ===== *)
(** * Processing status, stages and spans

    [status.rs] (the states of documents, spans and outbox rows), [obs.rs] (the graph of
    the five processing stages, the current step and the trace of an attempt) and the
    table operations of [catalog/spans.rs] for one document: a table is a map from
    attempt and name to the row, [ON CONFLICT] is a lookup, and a statement that matches
    no row changes nothing. *)
From S2P Require Import Prelude RustStr.
Open Scope Z_scope.

(** ** [status.rs] *)

Inductive ParseStatus := PPending | PProcessing | PFinalizing | PCompleted | PFailed | PCancelled | PDeleting | PDeleted.
Inductive SummaryStatus := SNone | SPending | SProcessing | SCompleted | SFailed.
Inductive SpanStatus := SpPending | SpRunning | SpDone | SpFailed | SpSkipped | SpCancelled.
Inductive OutboxState := OPending | OPublished | OComplete | OFailed.
Inductive WorkspaceKind := ProductLine | Company.

#[export] Instance ParseStatus_eq_dec : EqDecision ParseStatus. Proof. solve_decision. Defined.
#[export] Instance SummaryStatus_eq_dec : EqDecision SummaryStatus. Proof. solve_decision. Defined.
#[export] Instance SpanStatus_eq_dec : EqDecision SpanStatus. Proof. solve_decision. Defined.
#[export] Instance OutboxState_eq_dec : EqDecision OutboxState. Proof. solve_decision. Defined.

Definition span_status_str (s : SpanStatus) : str :=
  match s with
  | SpPending => u8"pending" | SpRunning => u8"running" | SpDone => u8"done"
  | SpFailed => u8"failed" | SpSkipped => u8"skipped" | SpCancelled => u8"cancelled"
  end.

Definition workspace_kind_str (k : WorkspaceKind) : str :=
  match k with ProductLine => u8"product_line" | Company => u8"company" end.

Definition workspace_kind_parse (s : str) : WorkspaceKind :=
  if str_eqb s (u8"company") then Company else ProductLine.

Definition is_aborted (s : ParseStatus) : bool :=
  match s with PCancelled | PDeleting | PDeleted => true | _ => false end.

Definition worker_should_exit (s : ParseStatus) : bool :=
  bool_decide (s = PCompleted) || is_aborted s.

(** ** [obs.rs]: names and kinds *)

Definition KIND_ROOT : str := u8"root".
Definition KIND_STAGE : str := u8"stage".
Definition KIND_SUBSPAN : str := u8"subspan".

Definition ROOT_NAME : str := u8"document_processing".
Definition SPAN_DOCREADER : str := u8"docreader".
Definition SPAN_CHUNKING : str := u8"chunking".
Definition SPAN_EMBEDDING : str := u8"embedding".
Definition SPAN_MULTIMODAL : str := u8"multimodal".
Definition SPAN_POSTPROCESS : str := u8"postprocess".

Definition ALL_STAGES : list str :=
  [SPAN_DOCREADER; SPAN_CHUNKING; SPAN_EMBEDDING; SPAN_MULTIMODAL; SPAN_POSTPROCESS].

Definition is_stage (name : str) : bool := existsb (str_eqb name) ALL_STAGES.

Definition kind_of (name : str) : str :=
  if str_eqb name ROOT_NAME then KIND_ROOT
  else if is_stage name then KIND_STAGE
  else KIND_SUBSPAN.

(** [serde] reads the snake-case names and the two aliases of the type. *)
Definition normalize_status (s : str) : option SpanStatus :=
  if str_eqb s (u8"pending") then Some SpPending
  else if str_eqb s (u8"running") then Some SpRunning
  else if str_eqb s (u8"done") || str_eqb s (u8"ok") then Some SpDone
  else if str_eqb s (u8"failed") || str_eqb s (u8"error") then Some SpFailed
  else if str_eqb s (u8"skipped") then Some SpSkipped
  else if str_eqb s (u8"cancelled") then Some SpCancelled
  else None.

(** [spans.rs]'s own copy of [kind_of]. *)
Definition span_kind (name : str) : str :=
  if str_eqb name (u8"document_processing") then u8"root"
  else if existsb (str_eqb name) [u8"docreader"; u8"chunking"; u8"embedding"; u8"multimodal"; u8"postprocess"]
  then u8"stage"
  else u8"subspan".

Section spans.

(** [serde_json::Value]. *)
Context {Value : Type}.

(** A span of an attempt; instants and durations are integers, identifiers numbers. *)
Record Span := {
  span_id : N; attempt : Z; name : str; parent_span_id : option N; kind : str;
  status : SpanStatus; output : option Value; error_message : str;
  started_at : Z; finished_at : option Z; duration_ms : option Z;
}.

(** ** The stage graph *)

Definition is_satisfied (s : SpanStatus) : bool :=
  match s with SpDone | SpSkipped => true | _ => false end.

Definition stage_satisfied (rows : list Span) (stage : str) : bool :=
  existsb (fun s => str_eqb (name s) stage && is_satisfied (status s)) rows.

Definition can_start_stage (stage : str) (rows : list Span) : bool :=
  if str_eqb stage SPAN_DOCREADER then true
  else if str_eqb stage SPAN_CHUNKING then stage_satisfied rows SPAN_DOCREADER
  else if str_eqb stage SPAN_EMBEDDING || str_eqb stage SPAN_MULTIMODAL then stage_satisfied rows SPAN_CHUNKING
  else if str_eqb stage SPAN_POSTPROCESS
  then stage_satisfied rows SPAN_EMBEDDING && stage_satisfied rows SPAN_MULTIMODAL
  else true.

Definition can_start_stage_or_legacy (stage : str) (rows : list Span) : bool :=
  let tracked := existsb (fun s =>
    str_eqb (kind s) KIND_ROOT || str_eqb (kind s) KIND_STAGE || is_stage (name s)) rows in
  if negb tracked then true else can_start_stage stage rows.

Definition dependents_of (stage : str) : list str :=
  if str_eqb stage SPAN_DOCREADER then [SPAN_CHUNKING; SPAN_EMBEDDING; SPAN_MULTIMODAL; SPAN_POSTPROCESS]
  else if str_eqb stage SPAN_CHUNKING then [SPAN_EMBEDDING; SPAN_MULTIMODAL; SPAN_POSTPROCESS]
  else if str_eqb stage SPAN_EMBEDDING || str_eqb stage SPAN_MULTIMODAL then [SPAN_POSTPROCESS]
  else [].

Definition current_step (spans : list Span) : option Span :=
  match List.find (fun s => str_eqb (kind s) KIND_STAGE && bool_decide (status s = SpRunning)) spans with
  | Some s => Some s
  | None => List.find (fun s => str_eqb (kind s) KIND_STAGE) (rev spans)
  end.

(** ** The trace *)

Inductive TraceNode := Node {
  n_span_id : option N; n_parent_span_id : option N; n_name : str; n_kind : str;
  n_status : SpanStatus; n_attempt : Z; n_output : option Value; n_error_message : str;
  n_started_at : option Z; n_finished_at : option Z; n_duration_ms : option Z;
  n_children : list TraceNode;
}.

Definition with_children (n : TraceNode) (children : list TraceNode) : TraceNode :=
  Node (n_span_id n) (n_parent_span_id n) (n_name n) (n_kind n) (n_status n) (n_attempt n) (n_output n)
    (n_error_message n) (n_started_at n) (n_finished_at n) (n_duration_ms n) children.

Definition push_child (n child : TraceNode) : TraceNode := with_children n (n_children n ++ [child]).

Definition node_from (r : Span) : TraceNode :=
  Node (Some (span_id r)) (parent_span_id r) (name r) (kind r) (status r) (attempt r) (output r)
    (error_message r) (Some (started_at r)) (finished_at r) (duration_ms r) [].

(** A node that stands for a row that is not there. *)
Definition synthetic_node (parent : option N) (name kind : str) (status : SpanStatus) (attempt : Z) : TraceNode :=
  Node None parent name kind status attempt None [] None None None [].

(** The node after the child was put below the first node with the id ([None]: there is none). *)
Fixpoint attach_child (node : TraceNode) (parent_id : N) (child : TraceNode) : option TraceNode :=
  if bool_decide (n_span_id node = Some parent_id) then Some (push_child node child)
  else
    children ← (fix attach_first (l : list TraceNode) : option (list TraceNode) :=
      match l with
      | [] => None
      | c :: l' =>
        match attach_child c parent_id child with
        | Some c' => Some (c' :: l')
        | None => l'' ← attach_first l'; Some (c :: l'')
        end
      end) (n_children node);
    Some (with_children node children).

Definition synthetic_status (parse_status : ParseStatus) : SpanStatus :=
  match parse_status with
  | PCompleted => SpDone
  | PFailed => SpFailed
  | PCancelled | PDeleting | PDeleted => SpCancelled
  | _ => SpPending
  end.

(** The first loop over the rows: current stage, last failure and root span. *)
Definition scan_step (st : str * option Span * option Span) (r : Span) : str * option Span * option Span :=
  let '(current_stage, last_fail, root_span) := st in
  (if str_eqb (kind r) KIND_STAGE && bool_decide (status r = SpRunning) && str_is_empty current_stage
   then name r else current_stage,
   if bool_decide (status r = SpFailed) then Some r else last_fail,
   if str_eqb (kind r) KIND_ROOT && negb (bool_decide (is_Some root_span)) then Some r else root_span).

(** The second loop: every row becomes a node of the tree. *)
Definition tree_step (root_id : option N) (st : TraceNode * list str) (r : Span) : TraceNode * list str :=
  let '(root, seen_stages) := st in
  if bool_decide (root_id = Some (span_id r)) then st
  else
    let seen_stages := if str_eqb (kind r) KIND_STAGE then name r :: seen_stages else seen_stages in
    let child := node_from r in
    let root :=
      if bool_decide (is_Some (parent_span_id r)) && bool_decide (parent_span_id r = root_id)
      then push_child root child
      else
        match parent_span_id r with
        | Some pid =>
          match attach_child root pid child with
          | Some root' => root'
          | None => push_child root (node_from r)
          end
        | None => if negb (str_eqb (kind r) KIND_ROOT) then push_child root child else root
        end in
    (root, seen_stages).

(** The third loop: the stages without a row. *)
Definition stage_step (root_id : option N) (attempt : Z) (synthetic : SpanStatus) (seen_stages : list str)
    (root : TraceNode) (stage : str) : TraceNode :=
  if existsb (str_eqb stage) seen_stages then root
  else push_child root (synthetic_node root_id stage KIND_STAGE synthetic attempt).

Definition build_trace (attempt : Z) (parse_status : ParseStatus) (rows : list Span)
    : TraceNode * str * option Span :=
  let synthetic := synthetic_status parse_status in
  let '(current_stage, last_fail, root_span) := foldl scan_step ([], None, None) rows in
  let root := match root_span with
              | Some r => node_from r
              | None => synthetic_node None ROOT_NAME KIND_ROOT synthetic attempt
              end in
  let root_id := n_span_id root in
  let '(root, seen_stages) := foldl (tree_step root_id) (root, []) rows in
  (foldl (stage_step root_id attempt synthetic seen_stages) root ALL_STAGES, current_stage, last_fail).

(** ** [catalog/spans.rs]: the rows of one document *)

(** A row; every column but the status may be null. *)
Record SpanRow := {
  row_span_id : option N; row_parent_span_id : option N; row_kind : option str; row_status : SpanStatus;
  row_input : option Value; row_output : option Value; row_error_message : option str;
  row_started_at : option Z; row_finished_at : option Z; row_duration_ms : option Z;
}.

(** The primary key is attempt and name. *)
#[local] Notation SpanTable := (gmap (Z * str) SpanRow).

(** [lock_span_document]: is the attempt the document's and the document not aborted;
    [elapsed_ms]: the milliseconds between two instants as the database rounds them;
    [error_of]: the string under [error] of a JSON output. *)
Context (lock_span_document : Z -> bool) (elapsed_ms : Z -> Z -> Z) (error_of : Value -> option str).

Definition lookup_span_id (t : SpanTable) (attempt : Z) (name : str) : option N :=
  row ← t !! (attempt, name); row_span_id row.

(** [COALESCE(a, b)] *)
Definition coalesce {A} (a b : option A) : option A := match a with Some _ => a | None => b end.

Definition start_span (now : Z) (new_id : N) (attempt : Z) (name : str) (parent_name : option str)
    (input : option Value) (t : SpanTable) : SpanTable :=
  let parent := match parent_name with
                | Some p => Some p
                | None => if str_eqb name (u8"document_processing") then None else Some (u8"document_processing")
                end in
  let parent_id := p ← parent; lookup_span_id t attempt p in
  if negb (lock_span_document attempt) then t
  else
    <[(attempt, name) :=
      match t !! (attempt, name) with
      | None => {|
          row_span_id := Some new_id; row_parent_span_id := parent_id; row_kind := Some (span_kind name);
          row_status := SpRunning; row_input := input; row_output := None; row_error_message := None;
          row_started_at := Some now; row_finished_at := None; row_duration_ms := None |}
      | Some row => {|
          row_span_id := row_span_id row; row_parent_span_id := coalesce parent_id (row_parent_span_id row);
          row_kind := Some (span_kind name); row_status := SpRunning;
          row_input := coalesce input (row_input row); row_output := row_output row; row_error_message := None;
          row_started_at := Some now; row_finished_at := None; row_duration_ms := None |}
      end]> t.

(** The stages of a new attempt, pending below the root. *)
Definition insert_pending (root : option N) (attempt : Z) (t : SpanTable) (stage : str * N) : SpanTable :=
  match t !! (attempt, stage.1) with
  | Some _ => t
  | None => <[(attempt, stage.1) := {|
      row_span_id := Some stage.2; row_parent_span_id := root; row_kind := Some (u8"stage"); row_status := SpPending;
      row_input := None; row_output := None; row_error_message := None; row_started_at := None;
      row_finished_at := None; row_duration_ms := None |}]> t
  end.

Definition open_attempt (now : Z) (new_ids : N * list N) (attempt : Z) (t : SpanTable) : SpanTable :=
  let t := start_span now new_ids.1 attempt (u8"document_processing") None None t in
  let root := lookup_span_id t attempt (u8"document_processing") in
  if negb (lock_span_document attempt) then t
  else
    foldl (insert_pending root attempt) t
      (zip [u8"docreader"; u8"chunking"; u8"embedding"; u8"multimodal"; u8"postprocess"] new_ids.2).

(** The upsert of a terminal or running status without a start. *)
Definition upsert_span_in_tx (now : Z) (new_id : N) (attempt : Z) (name : str) (status : SpanStatus)
    (output : option Value) (t : SpanTable) : SpanTable :=
  let running := bool_decide (status = SpRunning) in
  let finished := if running then None else Some now in
  <[(attempt, name) :=
    match t !! (attempt, name) with
    | None => {|
        row_span_id := Some new_id; row_parent_span_id := None; row_kind := Some name; row_status := status;
        row_input := None; row_output := output; row_error_message := None; row_started_at := Some now;
        row_finished_at := finished; row_duration_ms := None |}
    | Some row => {|
        row_span_id := row_span_id row; row_parent_span_id := row_parent_span_id row; row_kind := row_kind row;
        row_status := status; row_input := row_input row; row_output := output;
        row_error_message := row_error_message row; row_started_at := row_started_at row;
        row_finished_at := finished;
        row_duration_ms := if running then None
                           else option_map (fun s => elapsed_ms now s) (row_started_at row) |}
    end]> t.

Definition upsert_span (now : Z) (new_id : N) (attempt : Z) (name : str) (status : SpanStatus)
    (output : option Value) (t : SpanTable) : SpanTable :=
  if negb (lock_span_document attempt) then t else upsert_span_in_tx now new_id attempt name status output t.

Definition finish_span (now : Z) (new_id : N) (attempt : Z) (name : str) (status : SpanStatus)
    (output : option Value) (t : SpanTable) : SpanTable :=
  let err := if bool_decide (status = SpFailed) then o ← output; error_of o else None in
  if negb (lock_span_document attempt) then t
  else
    match t !! (attempt, name) with
    | Some row =>
      <[(attempt, name) := {|
        row_span_id := row_span_id row; row_parent_span_id := row_parent_span_id row; row_kind := row_kind row;
        row_status := status; row_input := row_input row; row_output := output; row_error_message := err;
        row_started_at := row_started_at row; row_finished_at := Some now;
        row_duration_ms := Some (elapsed_ms now (default now (row_started_at row))) |}]> t
    | None => upsert_span_in_tx now new_id attempt name status output t
    end.

Definition skip_span (now : Z) (new_id : N) (attempt : Z) (name : str) (reason : str) (t : SpanTable) : SpanTable :=
  let t := start_span now new_id attempt name (Some (u8"document_processing")) None t in
  if negb (lock_span_document attempt) then t
  else
    match t !! (attempt, name) with
    | Some row =>
      <[(attempt, name) := {|
        row_span_id := row_span_id row; row_parent_span_id := row_parent_span_id row; row_kind := row_kind row;
        row_status := SpSkipped; row_input := row_input row; row_output := row_output row;
        row_error_message := Some reason; row_started_at := row_started_at row; row_finished_at := Some now;
        row_duration_ms := Some 0 |}]> t
    | None => t
    end.

(** [spans.rs]'s own copy of [dependents_of]. *)
Definition cancelled_stages (failed_stage : str) : list str :=
  if str_eqb failed_stage (u8"docreader") then [u8"chunking"; u8"embedding"; u8"multimodal"; u8"postprocess"]
  else if str_eqb failed_stage (u8"chunking") then [u8"embedding"; u8"multimodal"; u8"postprocess"]
  else if str_eqb failed_stage (u8"embedding") || str_eqb failed_stage (u8"multimodal") then [u8"postprocess"]
  else [].

Definition cancel_row (now : Z) (failed_stage : str) (row : SpanRow) : SpanRow :=
  match row_status row with
  | SpPending | SpRunning => {|
      row_span_id := row_span_id row; row_parent_span_id := row_parent_span_id row; row_kind := row_kind row;
      row_status := SpCancelled; row_input := row_input row; row_output := row_output row;
      row_error_message := Some (u8"upstream " ++ failed_stage ++ u8" failed"); row_started_at := row_started_at row;
      row_finished_at := Some now; row_duration_ms := row_duration_ms row |}
  | _ => row
  end.

Definition cancel_dependent_stages (now : Z) (attempt : Z) (failed_stage : str) (t : SpanTable) : SpanTable :=
  let deps := cancelled_stages failed_stage in
  match deps with
  | [] => t
  | _ =>
    if negb (lock_span_document attempt) then t
    else
      map_imap (fun k row =>
        Some (if bool_decide (k.1 = attempt) && existsb (str_eqb k.2) deps
              then cancel_row now failed_stage row else row)) t
  end.

(** [into_span]: a missing identifier is drawn, a missing kind is a stage. *)
Definition into_span (new_id : N) (now : Z) (k : Z * str) (row : SpanRow) : Span := {|
  span_id := default new_id (row_span_id row); attempt := k.1; name := k.2;
  parent_span_id := row_parent_span_id row; kind := default (u8"stage") (row_kind row);
  status := row_status row; output := row_output row; error_message := default [] (row_error_message row);
  started_at := default now (row_started_at row); finished_at := row_finished_at row;
  duration_ms := row_duration_ms row |}.

(** [ORDER BY started_at NULLS LAST, name]; [name_le] is the order of the database. *)
Definition span_le (name_le : str -> str -> bool) (a b : (Z * str) * SpanRow) : bool :=
  match row_started_at a.2, row_started_at b.2 with
  | Some s, Some s' => if s =? s' then name_le a.1.2 b.1.2 else s <? s'
  | Some _, None => true
  | None, Some _ => false
  | None, None => name_le a.1.2 b.1.2
  end.

(** The rows of an attempt as the callers of [list_spans_attempt] see them. *)
Definition attempt_spans (name_le : str -> str -> bool) (new_id : Z * str -> N) (now : Z) (attempt : Z) (t : SpanTable)
    : list Span :=
  map (fun '(k, row) => into_span (new_id k) now k row)
    (sort_by (span_le name_le) (List.filter (fun kr => bool_decide (kr.1.1 = attempt)) (map_to_list t))).

End spans.
Arguments Span : clear implicits.
Arguments TraceNode : clear implicits.
Arguments SpanRow : clear implicits.

Notation SpanTable Value := (gmap (Z * str) (SpanRow Value)).

(** The tests of the source. *)
Definition test_span (id : N) (name : str) (status : SpanStatus) : Span unit := {|
  span_id := id; attempt := 1; name := name; parent_span_id := None;
  kind := if str_eqb name ROOT_NAME then KIND_ROOT else KIND_STAGE; status := status; output := None;
  error_message := []; started_at := 0; finished_at := None; duration_ms := None |}.

Definition test_rows (multimodal : SpanStatus) : list (Span unit) :=
  [test_span 1 ROOT_NAME SpRunning; test_span 2 SPAN_DOCREADER SpDone; test_span 3 SPAN_CHUNKING SpDone;
   test_span 4 SPAN_EMBEDDING SpDone; test_span 5 SPAN_MULTIMODAL multimodal].

Example postprocess_waits_for_both_siblings :
  map (fun s => can_start_stage SPAN_POSTPROCESS (test_rows s)) [SpRunning; SpDone; SpSkipped]
  = [false; true; true].
Proof. vm_compute. reflexivity. Qed.

Example build_trace_always_has_five_stages :
  let '(tree, current, fail) := build_trace 1 PProcessing ([] : list (Span unit)) in
  (n_name tree, map n_name (n_children tree), map n_status (n_children tree), current, fail)
  = (ROOT_NAME, ALL_STAGES, repeat SpPending 5, [], None).
Proof. vm_compute. reflexivity. Qed.

Example current_step_prefers_running :
  option_map name (current_step [test_span 1 ROOT_NAME SpRunning; test_span 2 SPAN_DOCREADER SpDone;
    test_span 3 SPAN_CHUNKING SpRunning]) = Some SPAN_CHUNKING.
Proof. vm_compute. reflexivity. Qed.

Example unknown_span_status_is_not_success :
  (normalize_status (u8"unexpected-state"), normalize_status (u8"ok"), normalize_status (u8"error"))
  = (None, Some SpDone, Some SpFailed).
Proof. vm_compute. reflexivity. Qed.
