(* ===== verification/PipelineFacts.v ===== *)
(** * Facts about the stages and the trace

    The stage graph ([dependents_of] is the closure of what [can_start_stage] asks for),
    its liveness on the table of spans, and what the trace of an attempt shows. *)
From S2P Require Import Prelude RustStr Pipeline.
From stdpp Require Import relations.
Open Scope Z_scope.
#[local] Arguments lit : simpl never.

Lemma existsb_stage (l : list str) s : existsb (str_eqb s) l = true <-> s ∈ l.
Proof.
  rewrite existsb_exists. setoid_rewrite str_eqb_spec. setoid_rewrite <- list_elem_of_In. naive_solver.
Qed.

(** The five names are five names. *)
Lemma stages_NoDup : NoDup ALL_STAGES.
Proof. apply (bool_decide_unpack _). vm_compute. exact I. Qed.

(** Two copies of one table. *)
Lemma span_kind_kind_of n : span_kind n = kind_of n.
Proof. done. Qed.

Lemma cancelled_stages_dependents s : cancelled_stages s = dependents_of s.
Proof. done. Qed.

(** Decide a closed membership of names. *)
Ltac decide_names := apply (bool_decide_unpack _); vm_compute; exact I.
Ltac refute_names H := apply (bool_decide_pack _) in H; vm_compute in H; destruct H.

Section stages.
Context {Value : Type}.
Implicit Types rows : list (Span Value).

Lemma stage_satisfied_spec rows stage : stage_satisfied rows stage = true <->
  exists s, s ∈ rows /\ name s = stage /\ is_satisfied (status s) = true.
Proof.
  unfold stage_satisfied. rewrite existsb_exists. setoid_rewrite andb_true_iff. setoid_rewrite str_eqb_spec.
  setoid_rewrite <- list_elem_of_In. naive_solver.
Qed.

(** What a stage waits for. *)
Definition prerequisites (stage : str) : list str :=
  if str_eqb stage SPAN_CHUNKING then [SPAN_DOCREADER]
  else if str_eqb stage SPAN_EMBEDDING || str_eqb stage SPAN_MULTIMODAL then [SPAN_CHUNKING]
  else if str_eqb stage SPAN_POSTPROCESS then [SPAN_EMBEDDING; SPAN_MULTIMODAL]
  else [].

Lemma can_start_prerequisites stage rows :
  can_start_stage stage rows = forallb (stage_satisfied rows) (prerequisites stage).
Proof.
  unfold can_start_stage, prerequisites.
  destruct (str_eqb stage SPAN_DOCREADER) eqn:E1.
  { apply str_eqb_spec in E1 as ->. done. }
  destruct (str_eqb stage SPAN_CHUNKING) eqn:E2; [cbn [forallb]; by rewrite andb_true_r|].
  destruct (str_eqb stage SPAN_EMBEDDING || str_eqb stage SPAN_MULTIMODAL) eqn:E3;
    [cbn [forallb]; by rewrite andb_true_r|].
  destruct (str_eqb stage SPAN_POSTPROCESS); [cbn [forallb]; by rewrite andb_true_r|done].
Qed.

(** A stage requires another when it never starts without the other being satisfied. *)
Definition requires (stage other : str) : Prop :=
  forall rows, can_start_stage stage rows = true -> stage_satisfied rows other = true.

Definition done_row (stage : str) : Span Value := {|
  span_id := 0; attempt := 1; name := stage; parent_span_id := None; kind := KIND_STAGE; status := SpDone;
  output := None; error_message := []; started_at := 0; finished_at := None; duration_ms := None |}.

Lemma requires_prerequisites stage other : requires stage other <-> other ∈ prerequisites stage.
Proof.
  split.
  - intros H. specialize (H (map done_row (prerequisites stage))).
    rewrite can_start_prerequisites in H. apply stage_satisfied_spec in H as (s & Hs & <- & _).
    + by apply list_elem_of_fmap in Hs as (p & -> & Hp).
    + apply forallb_forall. intros p Hp%list_elem_of_In. apply stage_satisfied_spec. exists (done_row p).
      split; [|done]. by apply list_elem_of_fmap_2.
  - intros Hin rows Hc. rewrite can_start_prerequisites in Hc. rewrite forallb_forall in Hc.
    by apply Hc, list_elem_of_In.
Qed.

(** [tc requires] by the names: every chain of requirements ends in [dependents_of]. *)
Lemma prerequisites_cases stage other : other ∈ prerequisites stage ->
  (stage, other) ∈ [(SPAN_CHUNKING, SPAN_DOCREADER); (SPAN_EMBEDDING, SPAN_CHUNKING); (SPAN_MULTIMODAL, SPAN_CHUNKING);
                    (SPAN_POSTPROCESS, SPAN_EMBEDDING); (SPAN_POSTPROCESS, SPAN_MULTIMODAL)].
Proof.
  unfold prerequisites. intros H.
  destruct (str_eqb stage SPAN_CHUNKING) eqn:E1; [apply str_eqb_spec in E1 as ->; set_solver|].
  destruct (str_eqb stage SPAN_EMBEDDING) eqn:E2; [apply str_eqb_spec in E2 as ->; set_solver|].
  destruct (str_eqb stage SPAN_MULTIMODAL) eqn:E3; [apply str_eqb_spec in E3 as ->; set_solver|].
  simpl in H. destruct (str_eqb stage SPAN_POSTPROCESS) eqn:E4; [apply str_eqb_spec in E4 as ->; set_solver|].
  set_solver.
Qed.

(** Case analysis on which stage a name is. *)
Lemma stage_cases s : s ∈ ALL_STAGES \/ (prerequisites s = [] /\ dependents_of s = []).
Proof.
  destruct (decide (s ∈ ALL_STAGES)) as [|Hs]; [by left|right].
  unfold prerequisites, dependents_of.
  assert (Hneq : forall t, t ∈ ALL_STAGES -> str_eqb s t = false).
  { intros t Ht. apply not_true_iff_false. intros ->%str_eqb_spec. done. }
  rewrite !Hneq by decide_names. done.
Qed.

Lemma dependents_trans x y z :
  y ∈ prerequisites x -> y ∈ dependents_of z -> x ∈ dependents_of z.
Proof.
  intros Hp Hd. apply prerequisites_cases in Hp.
  destruct (stage_cases z) as [Hz|[_ Hz]]; [|rewrite Hz in Hd; by apply not_elem_of_nil in Hd].
  unfold ALL_STAGES in Hz. repeat (apply elem_of_cons in Hz as [->|Hz]); [..|by apply not_elem_of_nil in Hz];
    repeat (apply elem_of_cons in Hp as [[= -> ->]|Hp]); try (by apply not_elem_of_nil in Hp);
    first [decide_names | refute_names Hd].
Qed.

Lemma dependents_base x y : y ∈ prerequisites x -> x ∈ dependents_of y.
Proof.
  intros Hp%prerequisites_cases.
  repeat (apply elem_of_cons in Hp as [[= -> ->]|Hp]); try (by apply not_elem_of_nil in Hp); decide_names.
Qed.

Lemma tc_step x y z : y ∈ prerequisites x -> tc requires y z -> tc requires x z.
Proof. intros Hp Ht. apply (tc_l requires x y z); [by apply requires_prerequisites|done]. Qed.

Lemma tc_one x y : y ∈ prerequisites x -> tc requires x y.
Proof. intros Hp. by apply tc_once, requires_prerequisites. Qed.

(** the dependents of a stage, which are cancelled when it fails, are exactly the stages
    that cannot start, directly or through other stages, before it is satisfied. *)
Theorem dependents_of_exact stage other : stage ∈ dependents_of other <-> tc requires stage other.
Proof.
  split.
  - intros Hd. destruct (stage_cases other) as [Ho|[_ Ho]]; [|rewrite Ho in Hd; by apply not_elem_of_nil in Hd].
    assert (Hc : tc requires SPAN_CHUNKING SPAN_DOCREADER) by (apply tc_one; decide_names).
    assert (He : forall z, tc requires SPAN_CHUNKING z -> tc requires SPAN_EMBEDDING z)
      by (intros z; apply tc_step; decide_names).
    assert (Hm : forall z, tc requires SPAN_CHUNKING z -> tc requires SPAN_MULTIMODAL z)
      by (intros z; apply tc_step; decide_names).
    assert (Hp : forall z, tc requires SPAN_EMBEDDING z -> tc requires SPAN_POSTPROCESS z)
      by (intros z; apply tc_step; decide_names).
    assert (He1 : tc requires SPAN_EMBEDDING SPAN_CHUNKING) by (apply tc_one; decide_names).
    assert (Hm1 : tc requires SPAN_MULTIMODAL SPAN_CHUNKING) by (apply tc_one; decide_names).
    assert (Hp1 : tc requires SPAN_POSTPROCESS SPAN_EMBEDDING) by (apply tc_one; decide_names).
    assert (Hp2 : tc requires SPAN_POSTPROCESS SPAN_MULTIMODAL) by (apply tc_one; decide_names).
    unfold ALL_STAGES in Ho. repeat (apply elem_of_cons in Ho as [->|Ho]); [..|by apply not_elem_of_nil in Ho];
      match type of Hd with _ ∈ ?l => let l' := eval vm_compute in l in
        assert (stage ∈ l') as Hd' by exact Hd end; clear Hd; set_solver.
  - induction 1 as [x y Hr|x y z Hr _ IH].
    + by apply dependents_base, requires_prerequisites.
    + eapply dependents_trans; [by apply requires_prerequisites|done].
Qed.
End stages.

(** ** The stages of an attempt, run on the table *)

Section table.
Context {Value : Type} (lock_span_document : Z -> bool) (elapsed_ms : Z -> Z -> Z) (error_of : Value -> option str).
Context (name_le : str -> str -> bool) (ids : Z * str -> N) (clock : Z).
Implicit Types t : SpanTable Value.

(** The status of a stage in the table is the status its readers see. *)
Definition satisfied_in (attempt : Z) (t : SpanTable Value) (stage : str) : bool :=
  match t !! (attempt, stage) with Some row => is_satisfied (row_status row) | None => false end.

Lemma stage_satisfied_table t attempt stage :
  stage_satisfied (attempt_spans name_le ids clock attempt t) stage = satisfied_in attempt t stage.
Proof.
  apply eq_true_iff_eq. rewrite stage_satisfied_spec. unfold attempt_spans, satisfied_in. split.
  - intros (s & Hs & <- & Hsat). apply list_elem_of_fmap in Hs as ([[a n] row] & -> & Hin).
    rewrite sort_by_perm, list_elem_of_In, filter_In in Hin. destruct Hin as [Hin Ha].
    apply list_elem_of_In, elem_of_map_to_list in Hin. apply bool_decide_eq_true in Ha. simpl in *. subst a.
    by rewrite Hin.
  - destruct (t !! (attempt, stage)) as [row|] eqn:E; [|done]. intros Hsat.
    exists (into_span (ids (attempt, stage)) clock (attempt, stage) row). split; [|done].
    apply list_elem_of_fmap. exists ((attempt, stage), row). split; [done|].
    rewrite sort_by_perm, list_elem_of_In, filter_In. split; [|by apply bool_decide_eq_true].
    by apply list_elem_of_In, elem_of_map_to_list.
Qed.

Context (attempt : Z) (Hlock : lock_span_document attempt = true).

Notation start := (start_span lock_span_document).
Notation finish := (finish_span lock_span_document elapsed_ms error_of).
Notation skip := (skip_span lock_span_document).
Notation spans t := (attempt_spans name_le ids clock attempt t).

Lemma satisfied_insert t n row stage :
  satisfied_in attempt (<[(attempt, n) := row]> t) stage
  = if bool_decide (stage = n) then is_satisfied (row_status row) else satisfied_in attempt t stage.
Proof.
  unfold satisfied_in. case_bool_decide as E.
  - subst. by rewrite lookup_insert_eq.
  - rewrite lookup_insert_ne; [done|]. congruence.
Qed.

Lemma satisfied_start now id n parent input t stage :
  satisfied_in attempt (start now id attempt n parent input t) stage
  = if bool_decide (stage = n) then false else satisfied_in attempt t stage.
Proof.
  unfold start_span. rewrite Hlock. cbn [negb]. rewrite satisfied_insert.
  destruct (t !! _); done.
Qed.

(** A stage that was run to its end is satisfied, the others are what they were. *)
Lemma satisfied_finish now id n output t stage :
  satisfied_in attempt (finish now id attempt n SpDone output t) stage
  = bool_decide (stage = n) || satisfied_in attempt t stage.
Proof.
  unfold finish_span, upsert_span_in_tx. rewrite Hlock. cbn [negb].
  destruct (t !! (attempt, n)) eqn:E; rewrite satisfied_insert; by case_bool_decide.
Qed.

Lemma satisfied_skip now id n reason t stage :
  satisfied_in attempt (skip now id attempt n reason t) stage
  = bool_decide (stage = n) || satisfied_in attempt t stage.
Proof.
  unfold skip_span. rewrite Hlock. cbn [negb].
  pose proof (satisfied_start now id n (Some (u8"document_processing")) None t stage) as Hs.
  destruct (start now id attempt n (Some (u8"document_processing")) None t !! (attempt, n)) eqn:E.
  - rewrite satisfied_insert, Hs. by case_bool_decide.
  - exfalso. unfold start_span in E. rewrite Hlock in E. cbn [negb] in E. by rewrite lookup_insert_eq in E.
Qed.

(** A worker runs a stage that may start and is not satisfied, to its end or past it. *)
Inductive stage_run : SpanTable Value -> SpanTable Value -> Prop :=
| run_done t stage now now' id id' parent input output :
    stage ∈ ALL_STAGES -> can_start_stage stage (spans t) = true -> stage_satisfied (spans t) stage = false ->
    stage_run t (finish now' id' attempt stage SpDone output (start now id attempt stage parent input t))
| run_skipped t stage now id reason :
    stage ∈ ALL_STAGES -> can_start_stage stage (spans t) = true -> stage_satisfied (spans t) stage = false ->
    stage_run t (skip now id attempt stage reason t).

Definition open_stages (t : SpanTable Value) : nat :=
  length (List.filter (fun s => negb (stage_satisfied (spans t) s)) ALL_STAGES).

Lemma filter_drop_one (l : list str) f g x : NoDup l -> x ∈ l -> f x = true -> g x = false ->
  (forall y, y <> x -> g y = f y) -> length (List.filter f l) = S (length (List.filter g l)).
Proof.
  intros Hnd Hin Hf Hg Heq. revert Hin. induction Hnd as [|y l Hy Hnd IH]; [by intros ?%not_elem_of_nil|].
  intros [<-|Hin]%elem_of_cons; simpl.
  - rewrite Hf, Hg. simpl. f_equal. f_equal. apply List.filter_ext_in. intros z Hz%list_elem_of_In.
    symmetry. apply Heq. congruence.
  - rewrite (Heq y) by congruence. destruct (f y); simpl; rewrite IH by done; done.
Qed.

Lemma closes_one t t' stage : stage ∈ ALL_STAGES -> stage_satisfied (spans t) stage = false ->
  (forall s, satisfied_in attempt t' s = bool_decide (s = stage) || satisfied_in attempt t s) ->
  open_stages t = S (open_stages t').
Proof.
  intros Hin Hopen Hsat. apply (filter_drop_one _ _ _ stage); [apply stages_NoDup|done|..].
  - by rewrite Hopen.
  - by rewrite stage_satisfied_table, Hsat, bool_decide_eq_true_2.
  - intros s Hs. by rewrite !stage_satisfied_table, Hsat, bool_decide_eq_false_2.
Qed.

Lemma stage_run_closes t t' : stage_run t t' -> open_stages t = S (open_stages t').
Proof.
  destruct 1 as [t stage now now' id id' parent input output Hin Hcan Hopen|t stage now id reason Hin Hcan Hopen];
    apply (closes_one _ _ stage); try done; intros s.
  - rewrite satisfied_finish, satisfied_start. by case_bool_decide.
  - by rewrite satisfied_skip.
Qed.

(** While a stage is open one of the open stages may start. *)
Lemma some_stage_starts t : open_stages t <> 0%nat ->
  exists stage, stage ∈ ALL_STAGES /\ can_start_stage stage (spans t) = true /\ stage_satisfied (spans t) stage = false.
Proof.
  set (sat := stage_satisfied (spans t)). intros Hopen.
  assert (Hcan : forall stage ps, prerequisites stage = ps -> forallb sat ps = true -> can_start_stage stage (spans t) = true).
  { intros stage ps <-. by rewrite can_start_prerequisites. }
  destruct (sat SPAN_DOCREADER) eqn:E1; [|exists SPAN_DOCREADER; split; [decide_names|done]].
  destruct (sat SPAN_CHUNKING) eqn:E2; [|exists SPAN_CHUNKING; split; [decide_names|split; [|done]]].
  2: { apply (Hcan _ [SPAN_DOCREADER]); [vm_compute; reflexivity|]. cbn [forallb]. by rewrite E1. }
  destruct (sat SPAN_EMBEDDING) eqn:E3; [|exists SPAN_EMBEDDING; split; [decide_names|split; [|done]]].
  2: { apply (Hcan _ [SPAN_CHUNKING]); [vm_compute; reflexivity|]. cbn [forallb]. by rewrite E2. }
  destruct (sat SPAN_MULTIMODAL) eqn:E4; [|exists SPAN_MULTIMODAL; split; [decide_names|split; [|done]]].
  2: { apply (Hcan _ [SPAN_CHUNKING]); [vm_compute; reflexivity|]. cbn [forallb]. by rewrite E2. }
  destruct (sat SPAN_POSTPROCESS) eqn:E5; [|exists SPAN_POSTPROCESS; split; [decide_names|split; [|done]]].
  2: { apply (Hcan _ [SPAN_EMBEDDING; SPAN_MULTIMODAL]); [vm_compute; reflexivity|]. cbn [forallb]. by rewrite E3, E4. }
  exfalso. apply Hopen. unfold open_stages, ALL_STAGES. cbn [List.filter]. fold sat.
  by rewrite E1, E2, E3, E4, E5.
Qed.

(** the stage graph cannot get stuck: while a stage is open some open stage may start
    and be run, every run closes exactly one stage, so from any table there are exactly as
    many runs left as stages are open, and when no run is left every stage is satisfied. *)
Theorem stage_runs_complete :
  (forall t, open_stages t <> 0%nat -> exists t', stage_run t t')
  /\ (forall n t t', nsteps stage_run n t t' -> open_stages t = (n + open_stages t')%nat)
  /\ (forall t t', rtc stage_run t t' -> nf stage_run t' ->
        forall stage, stage ∈ ALL_STAGES -> stage_satisfied (spans t') stage = true).
Proof.
  assert (Hlive : forall t, open_stages t <> 0%nat -> exists t', stage_run t t').
  { intros t Hopen. destruct (some_stage_starts t Hopen) as (stage & Hin & Hcan & Hsat).
    eexists. by apply (run_skipped t stage 0 0%N []). }
  split; [done|]. split.
  - intros n t t'. induction 1 as [t|n t1 t2 t3 Hrun _ IH]; [done|].
    rewrite (stage_run_closes _ _ Hrun), IH. done.
  - intros t t' _ Hnf stage Hin. apply not_false_iff_true. intros Hopen. apply Hnf, Hlive.
    unfold open_stages. intros Hz. apply nil_length_inv in Hz.
    assert (In stage (List.filter (fun s => negb (stage_satisfied (spans t') s)) ALL_STAGES)) as Hin'.
    { apply filter_In. split; [by apply list_elem_of_In|]. by rewrite Hopen. }
    rewrite Hz in Hin'. done.
Qed.
End table.

Lemma stage_runs_complete_witness :
  (fun _ : Z => true) 1 = true
  /\ (let lock := fun _ : Z => true in
      let spans := attempt_spans (Value:=unit) (fun _ _ => true) (fun _ => 0%N) 0 1 in
      let run := stage_run lock Z.sub (fun _ => None) (fun _ _ => true) (fun _ => 0%N) 0 1 in
      let opened := open_stages (Value:=unit) (fun _ _ => true) (fun _ => 0%N) 0 1 in
      opened (open_attempt lock 0 (1, [2; 3; 4; 5; 6])%N 1 ∅) = 5%nat
      /\ (forall t, opened t <> 0%nat -> exists t', run t t')
      /\ (forall n t t', nsteps run n t t' -> opened t = (n + opened t')%nat)
      /\ (forall t t', rtc run t t' -> nf run t' ->
            forall stage, stage ∈ ALL_STAGES -> stage_satisfied (spans t') stage = true)).
Proof.
  split; [reflexivity|]. split; [vm_compute; reflexivity|].
  apply (stage_runs_complete (fun _ => true) Z.sub (fun _ => None) (fun _ _ => true) (fun _ => 0%N) 0 1).
  reflexivity.
Defined.

(** ** The trace *)

Section trace.
Context {Value : Type}.
Implicit Types (rows : list (Span Value)) (n : TraceNode Value).

Lemma TraceNode_ind' (P : TraceNode Value -> Prop) :
  (forall n, Forall P (n_children n) -> P n) -> forall n, P n.
Proof.
  intros Hnode. fix IH 1. intros n. apply Hnode. destruct n as [? ? ? ? ? ? ? ? ? ? ? children]. simpl.
  induction children as [|c children IHc]; constructor; [apply IH|exact IHc].
Qed.

(** What identifies a node: its span, kind and name. *)
Definition label (n : TraceNode Value) : option N * str * str := (n_span_id n, n_kind n, n_name n).

Fixpoint labels (n : TraceNode Value) : list (option N * str * str) :=
  label n :: concat (map labels (n_children n)).

(** The label of a row. *)
Definition row_label (r : Span Value) : option N * str * str := (Some (span_id r), kind r, name r).

(** Below a node with an identifier stand only spans that name it as their parent. *)
Fixpoint nested (n : TraceNode Value) : Prop :=
  Forall (fun c => n_parent_span_id c = n_span_id n) (n_children n)
  /\ foldr and True (map nested (n_children n)).

Lemma labels_unfold n : labels n = label n :: concat (map labels (n_children n)).
Proof. by destruct n. Qed.

Lemma nested_unfold n : nested n <->
  Forall (fun c => n_parent_span_id c = n_span_id n) (n_children n) /\ Forall nested (n_children n).
Proof.
  destruct n as [? ? ? ? ? ? ? ? ? ? ? children]. simpl. f_equiv.
  induction children as [|c l IH]; simpl; [by split; [constructor|]|]. rewrite IH. split.
  - intros [? ?]. by constructor.
  - by inversion 1.
Qed.

Lemma push_child_labels n c : labels (push_child n c) ≡ₚ labels c ++ labels n.
Proof.
  rewrite (labels_unfold (push_child n c)), (labels_unfold n). unfold push_child, with_children. cbn.
  rewrite map_app, concat_app. cbn. rewrite app_nil_r. unfold label at 1. cbn.
  rewrite (Permutation_app_comm _ (labels c)). apply Permutation_middle.
Qed.

(** The recursion of [attach_child] over the children. *)
Fixpoint attach_first (l : list (TraceNode Value)) (pid : N) (child : TraceNode Value) : option (list (TraceNode Value)) :=
  match l with
  | [] => None
  | c :: l' =>
    match attach_child c pid child with
    | Some c' => Some (c' :: l')
    | None => l'' ← attach_first l' pid child; Some (c :: l'')
    end
  end.

Lemma attach_child_unfold n pid child : attach_child n pid child =
  if bool_decide (n_span_id n = Some pid) then Some (push_child n child)
  else children ← attach_first (n_children n) pid child; Some (with_children n children).
Proof.
  destruct n as [? ? ? ? ? ? ? ? ? ? ? children]. simpl. case_bool_decide; [done|]. f_equal.
  induction children as [|c l IH]; simpl; [done|]. by rewrite IH.
Qed.

(** Attaching keeps the node and its place; the child lands below the node with the id. *)
Lemma attach_child_spec pid child : forall n n', attach_child n pid child = Some n' ->
  label n' = label n /\ n_parent_span_id n' = n_parent_span_id n
  /\ labels n' ≡ₚ labels child ++ labels n
  /\ (n_parent_span_id child = Some pid -> nested child -> nested n -> nested n').
Proof.
  intros n. induction n as [n IH] using TraceNode_ind'. intros n'. rewrite attach_child_unfold.
  case_bool_decide as Hid.
  - intros [= <-]. split; [done|]. split; [done|]. split; [apply push_child_labels|].
    intros Hp Hc Hn. apply nested_unfold in Hn as [H1 H2]. apply nested_unfold. cbn.
    split; apply Forall_app; split; try done; constructor; try done. congruence.
  - intros (children & Hf & [= <-])%bind_Some.
    assert (Hch : concat (map labels children) ≡ₚ labels child ++ concat (map labels (n_children n))
      /\ (n_parent_span_id child = Some pid -> nested child -> Forall nested (n_children n) -> Forall nested children)
      /\ map n_parent_span_id children = map n_parent_span_id (n_children n)).
    { clear Hid. revert children Hf. induction IH as [|c l Hc _ IHl]; intros children; cbn; [done|].
      destruct (attach_child c pid child) as [c'|] eqn:E.
      - intros [= <-]. destruct (Hc _ eq_refl) as (_ & Hp & Hl & Hn). cbn. rewrite Hl, Hp, <- app_assoc.
        split; [done|]. split; [|done]. intros H1 H2. inversion 1; subst. constructor; eauto.
      - intros (l'' & Hf & [= <-])%bind_Some. destruct (IHl _ Hf) as (Hl & Hn & Hp). cbn. rewrite Hp, Hl.
        split; [by rewrite !app_assoc, (Permutation_app_comm (labels c))|]. split; [|done].
        intros H1 H2. inversion 1; subst. constructor; eauto. }
    destruct Hch as (Hl & Hn & Hp). split; [done|]. split; [done|].
    rewrite (labels_unfold n), (labels_unfold (with_children n children)). cbn. split.
    + rewrite Hl. apply Permutation_middle.
    + intros H1 H2 H3. apply nested_unfold in H3 as [H3 H4].
      apply (nested_unfold (with_children n children)). cbn. split; [|by apply Hn].
      revert H3. generalize (n_children n), children, Hp. clear. intros l. induction l as [|c l IH]; intros [|c' l']; try done.
      cbn. intros [= Hc Hl] Ha. inversion Ha; subst. constructor; [congruence|]. by apply IH.
Qed.

Definition children_nested (n : TraceNode Value) : Prop := Forall nested (n_children n).

Lemma nested_from r : nested (node_from (Value:=Value) r).
Proof. by apply nested_unfold. Qed.

Lemma children_nested_push n c : nested c -> children_nested n -> children_nested (push_child n c).
Proof. intros Hc Hn. apply Forall_app. split; [done|by constructor]. Qed.

(** The rows that the tree shows: not the root row itself, not another parentless root. *)
Definition shown (root_id : option N) (r : Span Value) : bool :=
  negb (bool_decide (root_id = Some (span_id r)))
  && (bool_decide (is_Some (parent_span_id r)) || negb (str_eqb (kind r) KIND_ROOT)).

Lemma children_nested_attach n n' pid c : attach_child n pid c = Some n' ->
  n_parent_span_id c = Some pid -> nested c -> children_nested n -> children_nested n'.
Proof.
  rewrite attach_child_unfold. case_bool_decide.
  - intros [= <-] _. apply children_nested_push.
  - intros (children & Hf & [= <-])%bind_Some Hp Hc. unfold children_nested. cbn.
    revert children Hf. generalize (n_children n). intros l. induction l as [|x l IH]; intros children; cbn; [done|].
    destruct (attach_child x pid c) as [x'|] eqn:E.
    + intros [= <-]. inversion 1; subst. constructor; [|done]. by eapply attach_child_spec.
    + intros (l'' & Hf & [= <-])%bind_Some. inversion 1; subst. constructor; eauto.
Qed.

Lemma tree_step_spec root_id root seen r :
  let '(root', seen') := tree_step root_id (root, seen) r in
  label root' = label root
  /\ labels root' ≡ₚ (if shown root_id r then [row_label r] else []) ++ labels root
  /\ (children_nested root -> children_nested root')
  /\ seen' = (if negb (bool_decide (root_id = Some (span_id r))) && str_eqb (kind r) KIND_STAGE
              then name r :: seen else seen).
Proof.
  unfold tree_step, shown. case_bool_decide as Hroot; [done|]. cbn [negb andb].
  assert (Hpush : label (push_child root (node_from r)) = label root
    /\ labels (push_child root (node_from r)) ≡ₚ [row_label r] ++ labels root
    /\ (children_nested root -> children_nested (push_child root (node_from r)))).
  { split; [done|]. split; [apply push_child_labels|]. apply children_nested_push, nested_from. }
  destruct Hpush as (H1 & H2 & H3).
  destruct (parent_span_id r) as [pid|] eqn:Ep.
  - rewrite (bool_decide_eq_true_2 (is_Some (Some pid))) by done. cbn [andb orb].
    case_bool_decide as Hparent; [done|].
    destruct (attach_child root pid (node_from r)) as [root'|] eqn:Ea; [|done].
    destruct (attach_child_spec _ _ _ _ Ea) as (Hl & _ & Hls & _).
    split; [done|]. split; [done|]. split; [|done].
    eapply children_nested_attach; [done|done|apply nested_from].
  - rewrite (bool_decide_eq_false_2 (is_Some None)) by (by intros [? ?]). cbn [andb orb].
    by destruct (str_eqb (kind r) KIND_ROOT).
Qed.

(** The rows whose stage needs no synthetic node. *)
Definition stage_row (root_id : option N) (r : Span Value) : bool :=
  negb (bool_decide (root_id = Some (span_id r))) && str_eqb (kind r) KIND_STAGE.

Lemma tree_fold_spec root_id rows : forall root seen,
  let '(root', seen') := foldl (tree_step root_id) (root, seen) rows in
  label root' = label root
  /\ labels root' ≡ₚ map row_label (List.filter (shown root_id) rows) ++ labels root
  /\ (children_nested root -> children_nested root')
  /\ (forall s, s ∈ seen' <-> s ∈ seen \/ s ∈ map name (List.filter (stage_row root_id) rows)).
Proof.
  induction rows as [|r rows IH]; intros root seen; cbn [foldl List.filter map].
  { split_and!; [done|done|done|]. intros s. set_solver. }
  pose proof (tree_step_spec root_id root seen r) as Hstep.
  destruct (tree_step root_id (root, seen) r) as [root1 seen1] eqn:E.
  destruct Hstep as (Hl1 & Hs1 & Hn1 & ->).
  pose proof (IH root1 (if stage_row root_id r then name r :: seen else seen)) as Hrest.
  unfold stage_row in Hrest at 1. unfold stage_row in *.
  destruct (foldl _ _ rows) as [root' seen']. destruct Hrest as (Hl & Hs & Hn & Hseen).
  split_and!; [congruence| |by auto|].
  - rewrite Hs, Hs1. destruct (shown root_id r); [|done]. cbn. symmetry. apply Permutation_middle.
  - intros s. rewrite Hseen. destruct (_ && _); [|done]. cbn [map]. set_solver.
Qed.

Lemma stage_fold_spec root_id att synthetic seen stages : forall root,
  let root' := foldl (stage_step root_id att synthetic seen) root stages in
  label root' = label root
  /\ labels root' ≡ₚ map (fun s => (None, KIND_STAGE, s)) (List.filter (fun s => negb (existsb (str_eqb s) seen)) stages)
                   ++ labels root
  /\ (children_nested root -> children_nested root').
Proof.
  induction stages as [|s stages IH]; intros root; cbn [foldl List.filter map]; [done|].
  assert (stage_step root_id att synthetic seen root s
    = if existsb (str_eqb s) seen then root
      else push_child root (synthetic_node root_id s KIND_STAGE synthetic att)) as -> by done.
  destruct (existsb (str_eqb s) seen); cbn [negb]; [apply IH|].
  destruct (IH (push_child root (synthetic_node root_id s KIND_STAGE synthetic att))) as (Hl & Hs & Hn).
  split; [exact Hl|]. split.
  - rewrite Hs, push_child_labels. cbn [map]. symmetry. apply Permutation_middle.
  - intros Hc. apply Hn, children_nested_push; [by apply nested_unfold|done].
Qed.

(** The first row with a property, as a fold; the last one. *)
Lemma scan_fold_spec rows : forall cur fail root,
  foldl scan_step (cur, fail, root) rows =
  (if str_is_empty cur
   then default [] (option_map name (List.find (fun r => str_eqb (kind r) KIND_STAGE && bool_decide (status r = SpRunning)
                                                && negb (str_is_empty (name r))) rows))
   else cur,
   match last (List.filter (fun r => bool_decide (status r = SpFailed)) rows) with Some r => Some r | None => fail end,
   match root with Some r => Some r | None => List.find (fun r => str_eqb (kind r) KIND_ROOT) rows end).
Proof.
  induction rows as [|r rows IH]; intros cur fail root; cbn [foldl List.find List.filter last].
  { destruct cur, root; done. }
  cbn [scan_step]. rewrite IH. clear IH. f_equal; [f_equal|].
  - destruct (str_eqb (kind r) KIND_STAGE && bool_decide (status r = SpRunning)); cbn [andb]; [|done].
    destruct cur; cbn [str_is_empty]; [|done]. destruct (name r) eqn:En; cbn; [done|by rewrite En].
  - case_bool_decide; [|done]. rewrite last_cons. by destruct (last _).
  - destruct root; cbn.
    + by rewrite andb_false_r.
    + rewrite andb_true_r. by destruct (str_eqb (kind r) KIND_ROOT).
Qed.

(** The trace of an attempt shows every row once (but a second parentless root), and a
    synthetic node for every stage without a row, so all five stages are there; below the
    root every span stands under the parent it names; the current stage is the first that
    runs and the failure the last one. *)
Theorem build_trace_complete att parse_status rows :
  let '(root, current_stage, last_fail) := build_trace att parse_status rows in
  let root_row := List.find (fun r => str_eqb (kind r) KIND_ROOT) rows in
  let root_id := option_map span_id root_row in
  let missing := List.filter (fun s => negb (existsb (str_eqb s) (map name (List.filter (stage_row root_id) rows)))) ALL_STAGES in
  label root = match root_row with Some r => row_label r | None => (None, KIND_ROOT, ROOT_NAME) end
  /\ labels root ≡ₚ label root :: map row_label (List.filter (shown root_id) rows)
                    ++ map (fun s => (None, KIND_STAGE, s)) missing
  /\ (forall stage, stage ∈ ALL_STAGES -> exists id, (id, KIND_STAGE, stage) ∈ labels root)
  /\ children_nested root
  /\ current_stage = default [] (option_map name (List.find (fun r => str_eqb (kind r) KIND_STAGE
        && bool_decide (status r = SpRunning) && negb (str_is_empty (name r))) rows))
  /\ last_fail = last (List.filter (fun r => bool_decide (status r = SpFailed)) rows).
Proof.
  unfold build_trace. rewrite scan_fold_spec. cbn [str_is_empty].
  set (root_row := List.find (fun r => str_eqb (kind r) KIND_ROOT) rows).
  set (root := match root_row with Some r => node_from r | None => _ end).
  assert (Hid : n_span_id root = option_map span_id root_row) by (unfold root; by destruct root_row).
  assert (Hlabel : label root = match root_row with Some r => row_label r | None => (None, KIND_ROOT, ROOT_NAME) end)
    by (unfold root; by destruct root_row).
  assert (Hempty : labels root = [label root]) by (unfold root; by destruct root_row).
  assert (Hnest : children_nested root) by (unfold root; destruct root_row; constructor).
  rewrite Hid. clearbody root. set (root_id := option_map span_id root_row) in *.
  pose proof (tree_fold_spec root_id rows root []) as Htree.
  destruct (foldl (tree_step root_id) (root, []) rows) as [tree seen].
  destruct Htree as (Hl1 & Hs1 & Hn1 & Hseen).
  destruct (stage_fold_spec root_id att (synthetic_status parse_status) seen ALL_STAGES tree) as (Hl2 & Hs2 & Hn2).
  set (final := foldl _ tree ALL_STAGES) in *. clearbody final.
  assert (Hsame : forall s, existsb (str_eqb s) seen
    = existsb (str_eqb s) (map name (List.filter (stage_row root_id) rows))).
  { intros s. apply eq_true_iff_eq. rewrite !existsb_stage, Hseen. set_solver. }
  split; [congruence|]. assert (Hperm : labels final ≡ₚ label final :: map row_label (List.filter (shown root_id) rows)
    ++ map (fun s => (None, KIND_STAGE, s)) (List.filter (fun s => negb (existsb (str_eqb s)
         (map name (List.filter (stage_row root_id) rows)))) ALL_STAGES)).
  { rewrite Hs2, Hs1, Hempty, Hl2, Hl1, (List.filter_ext _ _ (fun s => f_equal negb (Hsame s))).
    rewrite (Permutation_app_comm _ [label root]). cbn [app].
    rewrite (Permutation_app_comm _ (label root :: _)). done. }
  split; [exact Hperm|]. split; [|split; [auto|]].
  - intros stage Hin. destruct (existsb (str_eqb stage) (map name (List.filter (stage_row root_id) rows))) eqn:E.
    + apply existsb_stage, list_elem_of_fmap in E as (r & -> & Hr%list_elem_of_In).
      apply filter_In in Hr as [Hr Hstage]. exists (Some (span_id r)). rewrite Hperm. right.
      apply elem_of_app. left. apply list_elem_of_fmap. exists r. apply andb_prop in Hstage as [Ha Hb].
      apply str_eqb_spec in Hb. split; [unfold row_label; by rewrite Hb|].
      apply list_elem_of_In, filter_In. split; [done|]. unfold shown. rewrite Ha, Hb. cbn [andb].
      apply orb_true_r.
    + exists None. rewrite Hperm. right. apply elem_of_app. right. apply list_elem_of_fmap. exists stage.
      split; [done|]. apply list_elem_of_In, filter_In. rewrite E. split; [by apply list_elem_of_In|done].
  - split; [done|]. by destruct (last _).
Qed.
End trace.

(** A stage that is finished without having been started gets its own name as its kind, so
    that the trace does not know it for a stage and shows a pending stage beside it. *)
Example finished_without_start_shows_twice :
  let t := finish_span (fun _ => true) Z.sub (fun _ : unit => None) 5 7 1 SPAN_DOCREADER SpDone None ∅ in
  let '(root, _, _) := build_trace 1 PProcessing (attempt_spans (fun _ _ => true) (fun _ => 0%N) 9 1 t) in
  map (fun n => (n_name n, n_kind n, n_status n)) (take 2 (n_children root))
  = [(SPAN_DOCREADER, SPAN_DOCREADER, SpDone); (SPAN_DOCREADER, KIND_STAGE, SpPending)].
Proof. vm_compute. reflexivity. Qed.
