(* ===== verification/SemanticIndex.v ===== *)
(** * The semantic index of a product version

    [crates/knowledge/src/knowledge_index_v2.rs] and [knowledge_index_v2/storage.rs]: the
    intents of a version, the two sidecars (keywords and vectors) with their generations, and
    the job that brings them up to date; and the check of [semantic_v2.rs] before a recall
    reads them.

    The tables are one record.  A transaction is a function on it that returns the record
    unchanged when it fails; [FOR UPDATE] and [FOR SHARE] locks serialise transactions and
    have no counterpart.  Deleting a chunk deletes its sidecar rows (the foreign keys
    cascade).  Only the columns the code uses are kept; times are left out. *)
From S2P Require Import Prelude RustStr RustFloat Keywords Batches Policy Pipeline Order Rank Recall Selection.
From S2P Require Import Evidence Providers.

Local Open Scope N_scope.

(** ** Tables *)

Inductive SemanticIndexIntentStatus := IPending | ICompleted | ITerminal | ISuperseded.

#[export] Instance intent_status_eq_dec : EqDecision SemanticIndexIntentStatus.
Proof. solve_decision. Defined.

Definition intent_status_str (s : SemanticIndexIntentStatus) : str :=
  match s with
  | IPending => u8"pending" | ICompleted => u8"completed" | ITerminal => u8"terminal" | ISuperseded => u8"superseded"
  end.

(** [knowledge_semantic_index_intents] *)
Record SemanticIndexIntentV2 := {
  in_id : N; in_product_version_id : N; in_embedding_revision_sha256 : str; in_source_snapshot_sha256 : str;
  in_target_revision : Z; in_status : SemanticIndexIntentStatus; in_generation_marker_sha256 : option str;
  in_last_error_code : option str; in_last_error_detail : option str;
}.

(** [knowledge_documents] and [knowledge_chunks] *)
Record SourceDocument := {
  sd_product_version_id : N; sd_deleted : bool; sd_parse_status : ParseStatus; sd_summary_status : SummaryStatus;
  sd_pending_subtasks_count : Z; sd_active_generation : Z; sd_enabled : bool; sd_index_ready : bool; sd_file_name : str;
}.
Record SourceChunk := {
  sc_document_id : N; sc_product_version_id : N; sc_generation : Z; sc_chunk_type : str;
  sc_context_header : str; sc_content : str; sc_parent_chunk_id : option N;
}.

(** [knowledge_products] with the kind of their workspace. *)
Record ProductRow := { pr_kind : str; pr_workspace_kind : str }.

(** [knowledge_embedding_revisions] *)
Record RevisionRow := { rv_payload : list Z; rv_credential_ref : str; rv_supported : bool }.

(** [knowledge_chunk_keyword_indexes], [knowledge_chunk_vector_indexes] and the two tables of
    generations. *)
Record KeywordRow := { kr_indexed_content : str; kr_indexed_content_sha256 : str; kr_tokens : str }.
Record VectorRow := {
  vr_product_version_id : N; vr_source_snapshot_sha256 : str; vr_indexed_content_sha256 : str; vr_embedding : list f32;
}.
Record Generation := { gn_embedding_revision_sha256 : str; gn_source_snapshot_sha256 : str; gn_chunk_count : N }.

#[export] Instance generation_eq_dec : EqDecision Generation.
Proof. solve_decision. Defined.

(** The rows other parts of the program write. *)
Record Sources := {
  products : gmap N ProductRow; version_products : gmap N N; live_versions : gset N;
  bindings : gmap N str; revisions : gmap str RevisionRow;
  documents : gmap N SourceDocument; chunks : gmap N SourceChunk; image_links : gset N;
}.

Record SemanticStore := {
  sources : Sources; intents : list SemanticIndexIntentV2;
  keyword_rows : gmap N KeywordRow; keyword_generations : gmap N Generation;
  vector_rows : gmap (N * str) VectorRow; vector_generations : gmap N Generation;
}.

Definition with_intents (f : list SemanticIndexIntentV2 -> list SemanticIndexIntentV2) (s : SemanticStore) : SemanticStore := {|
  sources := sources s; intents := f (intents s); keyword_rows := keyword_rows s;
  keyword_generations := keyword_generations s; vector_rows := vector_rows s; vector_generations := vector_generations s;
|}.

Definition with_keywords (rows : gmap N KeywordRow) (generations : gmap N Generation) (s : SemanticStore) : SemanticStore := {|
  sources := sources s; intents := intents s; keyword_rows := rows; keyword_generations := generations;
  vector_rows := vector_rows s; vector_generations := vector_generations s;
|}.

Definition with_vectors (rows : gmap (N * str) VectorRow) (generations : gmap N Generation) (s : SemanticStore)
    : SemanticStore := {|
  sources := sources s; intents := intents s; keyword_rows := keyword_rows s;
  keyword_generations := keyword_generations s; vector_rows := rows; vector_generations := generations;
|}.

(** Other parts change the sources; the rows of chunks that are gone go with them. *)
Definition change_sources (new : Sources) (s : SemanticStore) : SemanticStore := {|
  sources := new; intents := intents s;
  keyword_rows := filter (fun '(id, _) => is_Some (chunks new !! id)) (keyword_rows s);
  keyword_generations := keyword_generations s;
  vector_rows := filter (fun '(id, _, row) =>
    sc_product_version_id <$> chunks new !! id = Some (vr_product_version_id row)) (vector_rows s);
  vector_generations := vector_generations s;
|}.

Inductive SqlError := RowNotFound | Protocol (m : str) | OtherSql (text : str).

(** The results of the operations on intents. *)
Inductive SemanticIndexPreparationV2 :=
| Unbound | PreparedPending | Enqueue (intent : SemanticIndexIntentV2) | Ready (intent : SemanticIndexIntentV2)
| Terminal (intent : SemanticIndexIntentV2) | Superseded (intent : SemanticIndexIntentV2).
Inductive SemanticIndexPreflightV2 :=
| PfCurrent | PfPendingDerived | PfCompleted | PfTerminal | PfSuperseded | PfDuplicate.
Inductive SemanticIndexCompletionV2 :=
| CpCompleted | CpPendingDerived | CpNotReady | CpTerminal | CpSuperseded | CpDuplicate.

Record VectorIndexGenerationV2 := {
  vg_product_version_id : N; vg_embedding_revision_sha256 : str; vg_source_snapshot_sha256 : str; vg_chunk_count : N;
}.

(** [ORDER BY id] over a table. *)
Definition by_id {A} (m : gmap N A) : list (N * A) := sort_by (fun a b => fst a <=? fst b) (map_to_list m).

Definition SIGNAL_TYPES_V2 : list str :=
  [TEXT; PARENT_TEXT; IMAGE_OCR; QUESTION; SUMMARY; IMAGE_CAPTION; GRAPH_NODE; WIKI_PAGE].

(** [deleted_at IS NULL AND parse_status NOT IN ('deleting','deleted','cancelled')] *)
Definition document_live (d : SourceDocument) : bool := negb (sd_deleted d) && negb (is_aborted (sd_parse_status d)).

(** The condition of the queries over the live signals of a version. *)
Definition is_source (src : Sources) (id : N) (c : SourceChunk) : bool :=
  match documents src !! sc_document_id c with
  | Some d =>
    (sd_product_version_id d =? sc_product_version_id c) && document_live d
    && (sc_generation c =? sd_active_generation d)%Z && sd_enabled d && sd_index_ready d
    && existsb (str_eqb (sc_chunk_type c)) SIGNAL_TYPES_V2
    && (negb (str_eqb (sc_chunk_type c) IMAGE_OCR) || bool_decide (id ∈ image_links src))
  | None => false
  end.

Definition source_chunks (src : Sources) (version : N) : list (N * SourceChunk) :=
  List.filter (fun '(id, c) => (sc_product_version_id c =? version) && is_source src id c) (by_id (chunks src)).

Definition document_pending (d : SourceDocument) : bool :=
  match sd_parse_status d with PPending | PProcessing | PFinalizing => true | _ => false end
  || negb (sd_pending_subtasks_count d =? 0)%Z
  || match sd_summary_status d with SPending | SProcessing => true | _ => false end.

Definition pending_derived (src : Sources) (version : N) : bool :=
  existsb (fun '(_, d) => (sd_product_version_id d =? version) && document_live d && document_pending d)
    (map_to_list (documents src)).

(** [binding]: the revision a version is bound to and whether it is supported. *)
Definition binding (src : Sources) (version : N) : option (str * bool) :=
  revision ← bindings src !! version; row ← revisions src !! revision; Some (revision, rv_supported row).

Definition supported_binding (src : Sources) (version : N) (revision : str) : bool :=
  match binding src version with Some (sha, supported) => str_eqb sha revision && supported | None => false end.

(** [generations_match]: both sidecars are of this generation. *)
Definition generations_match (s : SemanticStore) (version : N) (revision snapshot : str) (count : N) : bool :=
  let generation := {| gn_embedding_revision_sha256 := revision; gn_source_snapshot_sha256 := snapshot; gn_chunk_count := count |} in
  bool_decide (keyword_generations s !! version = Some generation)
  && bool_decide (vector_generations s !! version = Some generation).

(** ** Texts and digests *)

Definition canonical_embedding_input_v2 (context_header content : str) : str := context_header ++ [NL] ++ content.

Section index.

(** [hex::encode(Sha256::digest(_))], [Uuid]'s [Display], [serde_json] for a revision. *)
Context (sha256_hex : list Z -> str) (uuid_to_string : N -> str).
Context (embedding_json : EmbeddingRevisionV2 -> result str (list Z)).
Context (parse_revision : list Z -> result str EmbeddingRevisionV2).
(** The text of the error of a violated constraint of the tables. *)
Context (constraint_violation : str).

Definition embedding_input (row : N * SourceChunk) : VectorEmbeddingInputV2 :=
  let canonical_input := canonical_embedding_input_v2 (sc_context_header row.2) (sc_content row.2) in
  {| vi_chunk_id := row.1; vi_canonical_input := canonical_input;
     vi_indexed_content_sha256 := canonical_sha256 sha256_hex canonical_input |}.

Definition snapshot_line (input : VectorEmbeddingInputV2) : str :=
  uuid_to_string (vi_chunk_id input) ++ u8":" ++ vi_indexed_content_sha256 input ++ [NL].

Definition source_snapshot_sha256_v2 (embedding_revision_sha256 : str) (inputs : list VectorEmbeddingInputV2) : str :=
  sha256_hex (as_bytes (embedding_revision_sha256 ++ [NL] ++ concat (map snapshot_line inputs))).

(** [source_snapshot_v2]: the query computes the digest over the same lines, and counts them. *)
Definition source_snapshot_v2 (src : Sources) (version : N) (revision : str) : str * N :=
  let inputs := map embedding_input (source_chunks src version) in
  (source_snapshot_sha256_v2 revision inputs, len inputs).

(** ** Intents *)

Definition find_intent (s : SemanticStore) (id : N) (target_revision : Z) : option SemanticIndexIntentV2 :=
  List.find (fun i => (in_id i =? id) && (in_target_revision i =? target_revision)%Z) (intents s).

Definition set_status (status : SemanticIndexIntentStatus) (code detail : str) (i : SemanticIndexIntentV2)
    : SemanticIndexIntentV2 := {|
  in_id := in_id i; in_product_version_id := in_product_version_id i;
  in_embedding_revision_sha256 := in_embedding_revision_sha256 i; in_source_snapshot_sha256 := in_source_snapshot_sha256 i;
  in_target_revision := in_target_revision i; in_status := status;
  in_generation_marker_sha256 := in_generation_marker_sha256 i;
  in_last_error_code := Some code; in_last_error_detail := Some detail;
|}.

Definition complete_intent (i : SemanticIndexIntentV2) : SemanticIndexIntentV2 := {|
  in_id := in_id i; in_product_version_id := in_product_version_id i;
  in_embedding_revision_sha256 := in_embedding_revision_sha256 i; in_source_snapshot_sha256 := in_source_snapshot_sha256 i;
  in_target_revision := in_target_revision i; in_status := ICompleted;
  in_generation_marker_sha256 := Some (in_source_snapshot_sha256 i);
  in_last_error_code := None; in_last_error_detail := None;
|}.

(** [UPDATE ... WHERE p]. *)
Definition update_where (p : SemanticIndexIntentV2 -> bool) (f : SemanticIndexIntentV2 -> SemanticIndexIntentV2)
    (s : SemanticStore) : SemanticStore :=
  with_intents (map (fun i => if p i then f i else i)) s.

Definition is_pending (i : SemanticIndexIntentV2) : bool := bool_decide (in_status i = IPending).

Definition same_target (version : N) (revision snapshot : str) (i : SemanticIndexIntentV2) : bool :=
  (in_product_version_id i =? version) && str_eqb (in_embedding_revision_sha256 i) revision
  && str_eqb (in_source_snapshot_sha256 i) snapshot.

(** The pending intents of the version that a newer generation replaces. *)
Definition replaced (version : N) (revision snapshot : str) (supported : bool) (i : SemanticIndexIntentV2) : bool :=
  (in_product_version_id i =? version) && is_pending i
  && (negb (str_eqb (in_embedding_revision_sha256 i) revision) || negb (str_eqb (in_source_snapshot_sha256 i) snapshot)
      || negb supported).

Definition has_status (status : SemanticIndexIntentStatus) (i : SemanticIndexIntentV2) : bool :=
  bool_decide (in_status i = status).

(** [COALESCE(max(target_revision),0)+1] over the version. *)
Definition next_target (s : SemanticStore) (version : N) : Z :=
  (fold_right Z.max 0 (map in_target_revision
     (List.filter (fun i => (in_product_version_id i =? version)%N) (intents s))) + 1)%Z.

Definition new_intent (s : SemanticStore) (id version : N) (revision snapshot : str) (supported : bool)
    : SemanticIndexIntentV2 := {|
  in_id := id; in_product_version_id := version; in_embedding_revision_sha256 := revision;
  in_source_snapshot_sha256 := snapshot; in_target_revision := next_target s version;
  in_status := if supported then IPending else ITerminal; in_generation_marker_sha256 := None;
  in_last_error_code := if supported then None else Some (u8"EMBEDDING_REVISION_REVOKED");
  in_last_error_detail := if supported then None else Some (u8"embedding revision is revoked");
|}.

(** [storage::prepare]; [new_id] is what [gen_random_uuid()] gives if a row is inserted. *)
Definition prepare (version new_id : N) (s : SemanticStore) : SemanticStore * result SqlError SemanticIndexPreparationV2 :=
  if negb (bool_decide (version ∈ live_versions (sources s))) then (s, Err RowNotFound)
  else
  match binding (sources s) version with
  | None => (s, Ok Unbound)
  | Some (revision, supported) =>
    if pending_derived (sources s) version then (s, Ok PreparedPending)
    else
      let '(snapshot, count) := source_snapshot_v2 (sources s) version revision in
      let s := update_where (replaced version revision snapshot supported)
        (set_status ISuperseded (u8"SOURCE_GENERATION_SUPERSEDED")
           (u8"a newer settled source or binding generation exists")) s in
      let found := sort_by (fun a b => (in_target_revision b <=? in_target_revision a)%Z)
        (List.filter (same_target version revision snapshot) (intents s)) in
      match List.find is_pending found with
      | Some value => (s, Ok (Enqueue value))
      | None =>
        match (if supported && generations_match s version revision snapshot count
               then option_map Ready (List.find (has_status ICompleted) found)
               else if negb supported then option_map Terminal (List.find (has_status ITerminal) found)
               else None) with
        | Some answer => (s, Ok answer)
        | None =>
          let row := new_intent s new_id version revision snapshot supported in
          (with_intents (fun l => l ++ [row]) s, Ok (if supported then Enqueue row else Terminal row))
        end
      end
  end.

(** [storage::preflight] *)
Definition preflight (id : N) (target : Z) (complete : bool) (s : SemanticStore) : SemanticStore * str :=
  match find_intent s id target with
  | None => (s, u8"duplicate")
  | Some value =>
    let version := in_product_version_id value in
    let set status code detail := update_where (fun i => in_id i =? id) (set_status status code detail) s in
    if complete && bool_decide (in_status value = ICompleted) then (s, u8"duplicate")
    else if negb (is_pending value) then (s, intent_status_str (in_status value))
    else if negb (bool_decide (version ∈ live_versions (sources s))) then
      (set ISuperseded (u8"SOURCE_GENERATION_SUPERSEDED") (u8"product version is no longer live"), u8"superseded")
    else if negb (supported_binding (sources s) version (in_embedding_revision_sha256 value)) then
      (set ITerminal (u8"EMBEDDING_REVISION_UNSUPPORTED") (u8"embedding binding or revision is unsupported"), u8"terminal")
    else if pending_derived (sources s) version then (s, u8"pending_derived")
    else
      let '(snapshot, count) := source_snapshot_v2 (sources s) version (in_embedding_revision_sha256 value) in
      if negb (str_eqb snapshot (in_source_snapshot_sha256 value)) then
        (set ISuperseded (u8"SOURCE_GENERATION_SUPERSEDED") (u8"source snapshot changed before index publication"),
         u8"superseded")
      else if negb complete then (s, u8"current")
      else if negb (generations_match s version (in_embedding_revision_sha256 value) snapshot count) then (s, u8"not_ready")
      else (update_where (fun i => (in_id i =? id) && is_pending i) complete_intent s, u8"completed")
  end.

Definition E_PREFLIGHT_STATE : str := u8"semantic index preflight returned an unknown state".
Definition E_COMPLETION_STATE : str := u8"semantic index completion returned an unknown state".

Definition preflight_semantic_index_intent_v2 (id : N) (target : Z) (s : SemanticStore)
    : SemanticStore * result SqlError SemanticIndexPreflightV2 :=
  let '(s, state) := preflight id target false s in
  (s, if str_eqb state (u8"current") then Ok PfCurrent
      else if str_eqb state (u8"pending_derived") then Ok PfPendingDerived
      else if str_eqb state (u8"completed") then Ok PfCompleted
      else if str_eqb state (u8"terminal") then Ok PfTerminal
      else if str_eqb state (u8"superseded") then Ok PfSuperseded
      else if str_eqb state (u8"duplicate") then Ok PfDuplicate
      else Err (Protocol E_PREFLIGHT_STATE)).

Definition complete_semantic_index_intent_v2 (intent : SemanticIndexIntentV2) (s : SemanticStore)
    : SemanticStore * result SqlError SemanticIndexCompletionV2 :=
  let '(s, state) := preflight (in_id intent) (in_target_revision intent) true s in
  (s, if str_eqb state (u8"completed") then Ok CpCompleted
      else if str_eqb state (u8"pending_derived") then Ok CpPendingDerived
      else if str_eqb state (u8"not_ready") then Ok CpNotReady
      else if str_eqb state (u8"terminal") then Ok CpTerminal
      else if str_eqb state (u8"superseded") then Ok CpSuperseded
      else if str_eqb state (u8"duplicate") then Ok CpDuplicate
      else Err (Protocol E_COMPLETION_STATE)).

(** [record_semantic_index_error_v2] *)
Definition disposition_status (disposition : str) (status : SemanticIndexIntentStatus) : SemanticIndexIntentStatus :=
  if str_eqb disposition (u8"terminal") then ITerminal
  else if str_eqb disposition (u8"superseded") then ISuperseded else status.

Definition length_within (s : str) (most : nat) : bool := (1 <=? blen s)%nat && (blen s <=? most)%nat.

Definition record_semantic_index_error_v2 (id : N) (target : Z) (disposition error_code error_detail : str)
    (s : SemanticStore) : SemanticStore * result SqlError bool :=
  if negb (existsb (str_eqb disposition) [u8"retryable"; u8"terminal"; u8"superseded"])
     || negb (length_within error_code 96) || negb (length_within error_detail 512)
  then (s, Err (Protocol (u8"invalid semantic index error disposition")))
  else
    let hit i := (in_id i =? id) && (in_target_revision i =? target)%Z && is_pending i in
    (update_where hit (fun i => set_status (disposition_status disposition (in_status i)) error_code error_detail i) s,
     Ok (existsb hit (intents s))).

(** ** The sidecars *)

Definition keyword_row (c : SourceChunk) : KeywordRow := {|
  kr_indexed_content := sc_content c; kr_indexed_content_sha256 := sha256_hex (as_bytes (sc_content c));
  kr_tokens := keyword_token_stream_v2 (sc_content c);
|}.

(** [rebuild_keywords]: the rows of all chunks of the version are replaced. *)
Definition version_chunks (src : Sources) (version : N) : gmap N SourceChunk :=
  filter (fun '(_, c) => sc_product_version_id c = version) (chunks src).

Definition rebuild_keywords (version : N) (s : SemanticStore) : SemanticStore * result SqlError N :=
  if negb (bool_decide (version ∈ live_versions (sources s))) then (s, Err RowNotFound)
  else
    let rows := version_chunks (sources s) version in
    (with_keywords ((keyword_row <$> rows) ∪ filter (fun '(id, _) => rows !! id = None) (keyword_rows s))
       (keyword_generations s) s, Ok (N.of_nat (size rows))).

(** [CHECK (chunk_count BETWEEN 0 AND 16384)] *)
Definition MAX_CHUNK_COUNT : N := 16384.

Definition rebuild_semantic_keywords (version : N) (revision snapshot : str) (s : SemanticStore)
    : SemanticStore * result VectorIndexErrorV2 N :=
  if negb (bool_decide (version ∈ live_versions (sources s))) || negb (supported_binding (sources s) version revision)
  then (s, Err (VInvalidConfiguration (u8"semantic embedding revision is unsupported")))
  else if pending_derived (sources s) version
  then (s, Err (VPendingDerived (u8"semantic source has pending work")))
  else
    let '(actual, count) := source_snapshot_v2 (sources s) version revision in
    if negb (str_eqb actual snapshot) then (s, Err (VSnapshotChanged (u8"semantic source snapshot changed")))
    else if MAX_CHUNK_COUNT <? count then (s, Err (VDatabase constraint_violation))
    else
      let s := (rebuild_keywords version s).1 in
      (with_keywords (keyword_rows s)
         (<[version := {| gn_embedding_revision_sha256 := revision; gn_source_snapshot_sha256 := snapshot;
                          gn_chunk_count := count |}]> (keyword_generations s)) s, Ok count).

Record FrozenVectorIndexSnapshotV2 := {
  fv_revision : EmbeddingRevisionV2; fv_revision_sha256 : str; fv_credential_ref : str;
  fv_inputs : list VectorEmbeddingInputV2; fv_source_snapshot_sha256 : str;
}.

Definition freeze_vector_index_snapshot_v2 (s : SemanticStore) (version : N)
    : result VectorIndexErrorV2 FrozenVectorIndexSnapshotV2 :=
  '(revision_sha256, row) ← ok_or
    (if bool_decide (version ∈ live_versions (sources s)) then
       sha ← bindings (sources s) !! version; row ← revisions (sources s) !! sha;
       if rv_supported row then Some (sha, row) else None
     else None)
    (VInvalidConfiguration (u8"product version has no supported immutable V2 embedding binding"));
  revision ← map_err (fun error => VInvalidConfiguration (u8"invalid embedding revision artifact: " ++ error))
               (parse_revision (rv_payload row));
  canonical ← map_err (fun error => VInvalidConfiguration
                                      (u8"invalid embedding revision artifact: " ++ show_embedding_error error))
                (embedding_canonical_bytes embedding_json revision);
  _ ← reject_if (negb (bool_decide (canonical = rv_payload row)) || negb (str_eqb (sha256_hex canonical) revision_sha256))
        (VInvalidConfiguration (u8"non-canonical embedding revision artifact"));
  let inputs := map embedding_input (source_chunks (sources s) version) in
  _ ← validate_input_bounds sha256_hex inputs;
  Ok {| fv_revision := revision; fv_revision_sha256 := revision_sha256; fv_credential_ref := rv_credential_ref row;
        fv_inputs := inputs; fv_source_snapshot_sha256 := source_snapshot_sha256_v2 revision_sha256 inputs |}.

(** [rebuild_vector_indexes_v2_expected_in_transaction] up to the call of the provider. *)
Definition rebuild_begin (version : N) (expected : option (str * str)) (s : SemanticStore)
    : result VectorIndexErrorV2 FrozenVectorIndexSnapshotV2 :=
  snapshot ← freeze_vector_index_snapshot_v2 s version;
  match expected with
  | None => Ok snapshot
  | Some (expected_revision, expected_snapshot) =>
    _ ← reject_if (negb (str_eqb (fv_revision_sha256 snapshot) expected_revision)
                   || negb (str_eqb (fv_source_snapshot_sha256 snapshot) expected_snapshot))
          (VSnapshotChanged (u8"vector source no longer matches the immutable semantic target"));
    _ ← reject_if (pending_derived (sources s) version)
          (VPendingDerived (u8"semantic source has pending derived work"));
    Ok snapshot
  end.

Definition vector_row (version : N) (snapshot : str) (input : VectorEmbeddingInputV2) (embedding : list f32) : VectorRow := {|
  vr_product_version_id := version; vr_source_snapshot_sha256 := snapshot;
  vr_indexed_content_sha256 := vi_indexed_content_sha256 input; vr_embedding := embedding;
|}.

Definition new_vector_rows (version : N) (snapshot : FrozenVectorIndexSnapshotV2) (embeddings : list (list f32))
    : gmap (N * str) VectorRow :=
  list_to_map (zip_with (fun input embedding =>
    ((vi_chunk_id input, fv_revision_sha256 snapshot),
     vector_row version (fv_source_snapshot_sha256 snapshot) input embedding)) (fv_inputs snapshot) embeddings).

(** The foreign key of a vector row: the chunk is there and of that version. *)
Definition belongs (src : Sources) (version id : N) : bool :=
  bool_decide (sc_product_version_id <$> chunks src !! id = Some version).

(** The rest of the transaction, with the sources as they are after the call. *)
Definition rebuild_finish (version : N) (snapshot : FrozenVectorIndexSnapshotV2) (embeddings : list (list f32))
    (s : SemanticStore) : SemanticStore * result VectorIndexErrorV2 VectorIndexGenerationV2 :=
  let checked :=
    _ ← reject_if (negb (length embeddings =? length (fv_inputs snapshot))%nat)
          (VUnavailable (u8"embedding provider returned partial version output"));
    _ ← foldR (fun (_ : unit) embedding => validate_vector embedding) tt embeddings;
    _ ← reject_if (negb (bool_decide (version ∈ live_versions (sources s)))
                   || negb (supported_binding (sources s) version (fv_revision_sha256 snapshot)))
          (VInvalidConfiguration (u8"vector binding is unsupported"));
    let '(actual, count) := source_snapshot_v2 (sources s) version (fv_revision_sha256 snapshot) in
    _ ← reject_if (negb (str_eqb actual (fv_source_snapshot_sha256 snapshot))
                   || negb (count =? len (fv_inputs snapshot)))
          (VSnapshotChanged (u8"vector source snapshot changed"));
    _ ← reject_if (existsb (fun input => negb (belongs (sources s) version (vi_chunk_id input))) (fv_inputs snapshot))
          (VDatabase constraint_violation);
    _ ← reject_if (4294967296 <=? len (fv_inputs snapshot))
          (VInvalidConfiguration (u8"vector generation chunk count overflow"));
    Ok count in
  match checked with
  | Err e => (s, Err e)
  | Ok count =>
    (with_vectors
       (new_vector_rows version snapshot embeddings
        ∪ filter (fun '(_, row) => vr_product_version_id row <> version) (vector_rows s))
       (<[version := {| gn_embedding_revision_sha256 := fv_revision_sha256 snapshot;
                        gn_source_snapshot_sha256 := fv_source_snapshot_sha256 snapshot;
                        gn_chunk_count := count |}]> (vector_generations s)) s,
     Ok {| vg_product_version_id := version; vg_embedding_revision_sha256 := fv_revision_sha256 snapshot;
           vg_source_snapshot_sha256 := fv_source_snapshot_sha256 snapshot;
           vg_chunk_count := len (fv_inputs snapshot) |})
  end.

(** [semantic_vector_generation_matches_intent_v2] *)
Definition vector_generation_matches (s : SemanticStore) (intent : SemanticIndexIntentV2) : bool :=
  match vector_generations s !! in_product_version_id intent with
  | Some g => str_eqb (gn_embedding_revision_sha256 g) (in_embedding_revision_sha256 intent)
              && str_eqb (gn_source_snapshot_sha256 g) (in_source_snapshot_sha256 intent)
  | None => false
  end.

(** ** The job *)

(** [error[..end].trim()] where [end] is the last boundary at or before 512 bytes. *)
Fixpoint floor_boundary (s : str) (n : nat) : nat :=
  match n with
  | O => O
  | S n' => if is_char_boundary s n then n else floor_boundary s n'
  end.

Definition bounded_semantic_index_error_detail (error : str) : option str :=
  cut ← slice error 0 (floor_boundary error (Nat.min (blen error) 512));
  let detail := trim cut in
  Some (if str_is_empty detail then u8"semantic index v2 failure" else detail).

(** A provider answers a batch, as the trait says. *)
Class VectorEmbeddingProviderV2 :=
  embed_inputs : EmbeddingRevisionV2 -> str -> list VectorEmbeddingInputV2 -> result VectorIndexErrorV2 (list (list f32)).

Section job.

(** [ToString] of the errors; what happens to the store before the [k]-th transaction of a run
    and, in [between], while the provider works; which transactions fail (with their effect or
    without it); the identifier a new row would get. *)
Context (show_sql : SqlError -> str) (show_vector_error : VectorIndexErrorV2 -> str).
Context (change : nat -> SemanticStore -> SemanticStore) (between : SemanticStore -> SemanticStore).
Context (fault : nat -> option (SqlError * bool)) (new_id : SemanticStore -> N).
Context (provider : option VectorEmbeddingProviderV2) (provider_configuration_error : option str).

(** One transaction: begin, work, commit. *)
Definition transact {E A} (database : SqlError -> E) (k : nat) (work : SemanticStore -> SemanticStore * result E A)
    (s : SemanticStore) : SemanticStore * result E A :=
  let s := change k s in
  match fault k with
  | Some (error, applied) => ((if applied then (work s).1 else s), Err (database error))
  | None => work s
  end.

Definition rebuild_vector_indexes_for_intent_v2 (provider : VectorEmbeddingProviderV2) (intent : SemanticIndexIntentV2)
    (s : SemanticStore) : SemanticStore * result VectorIndexErrorV2 VectorIndexGenerationV2 :=
  match rebuild_begin (in_product_version_id intent)
          (Some (in_embedding_revision_sha256 intent, in_source_snapshot_sha256 intent)) s with
  | Err e => (s, Err e)
  | Ok snapshot =>
    let s := between s in
    match (match fv_inputs snapshot with
           | [] => Ok []
           | inputs => embed_inputs (VectorEmbeddingProviderV2 := provider) (fv_revision snapshot) (fv_credential_ref snapshot) inputs
           end) with
    | Err e => (s, Err e)
    | Ok embeddings => rebuild_finish (in_product_version_id intent) snapshot embeddings s
    end
  end.

Definition text_of {A} (r : result SqlError A) : result str A := map_err show_sql r.

Definition prepare_semantic_index_v2_successor (k : nat) (version : N) (s : SemanticStore)
    : SemanticStore * result str (option SemanticIndexIntentV2) :=
  let '(s, prepared) := transact id k (fun s => prepare version (new_id s) s) s in
  (s, match text_of prepared with
      | Err e => Err e
      | Ok (Enqueue successor) => Ok (Some successor)
      | Ok PreparedPending => Err (u8"semantic successor source has pending derived work")
      | Ok _ => Ok None
      end).

Definition record (k : nat) (intent : SemanticIndexIntentV2) (disposition code detail : str) (s : SemanticStore)
    : SemanticStore * result str bool :=
  let '(s, recorded) := transact id k
    (record_semantic_index_error_v2 (in_id intent) (in_target_revision intent) disposition code detail) s in
  (s, text_of recorded).

(** The retryable endings: the failure is recorded if that works, and returned. *)
Definition retry_later (k : nat) (intent : SemanticIndexIntentV2) (code detail : str) (s : SemanticStore)
    : SemanticStore * result str (option SemanticIndexIntentV2) :=
  ((record k intent (u8"retryable") code detail s).1, Err detail).

(** The three transactions of the attempt: keywords, vectors when they are missing, completion. *)
Definition attempt (provider : VectorEmbeddingProviderV2) (intent : SemanticIndexIntentV2) (s : SemanticStore)
    : SemanticStore * result VectorIndexErrorV2 SemanticIndexCompletionV2 :=
  let database error := VDatabase (show_sql error) in
  let '(s, keywords) := transact database 2
    (rebuild_semantic_keywords (in_product_version_id intent) (in_embedding_revision_sha256 intent)
       (in_source_snapshot_sha256 intent)) s in
  match keywords with
  | Err e => (s, Err e)
  | Ok _ =>
    let '(s, has_vector) := transact database 3 (fun s => (s, Ok (vector_generation_matches s intent))) s in
    match has_vector with
    | Err e => (s, Err e)
    | Ok has_vector =>
      let '(s, vectors) :=
        if has_vector then (s, Ok tt)
        else let '(s, r) := transact database 4 (rebuild_vector_indexes_for_intent_v2 provider intent) s in
             (s, _ ← r; Ok tt) in
      match vectors with
      | Err e => (s, Err e)
      | Ok _ =>
        let '(s, completion) := transact id 5 (complete_semantic_index_intent_v2 intent) s in
        (s, map_err database completion)
      end
    end
  end.

Definition DETAIL_PENDING : str := u8"semantic source has pending derived work".
Definition DETAIL_NOT_SETTLED : str := u8"semantic readiness is not yet publishable".
Definition DETAIL_NO_PROVIDER : str := u8"strict V2 vector provider could not be configured".

(** The [match] on the result of the attempt; [None] stands for a slice that panics. *)
Definition conclude (intent : SemanticIndexIntentV2) (answer : result VectorIndexErrorV2 SemanticIndexCompletionV2)
    (s : SemanticStore) : option (SemanticStore * result str (option SemanticIndexIntentV2)) :=
  match answer with
  | Ok (CpCompleted | CpDuplicate | CpTerminal) => Some (s, Ok None)
  | Ok CpSuperseded => Some (prepare_semantic_index_v2_successor 7 (in_product_version_id intent) s)
  | Ok (CpPendingDerived | CpNotReady) =>
    Some (retry_later 6 intent (u8"SEMANTIC_SOURCE_NOT_SETTLED") DETAIL_NOT_SETTLED s)
  | Err (VSnapshotChanged error) =>
    detail ← bounded_semantic_index_error_detail error;
    let '(s, recorded) := record 6 intent (u8"superseded") (u8"SOURCE_GENERATION_CHANGED") detail s in
    Some (match recorded with
          | Err e => (s, Err e)
          | Ok _ => prepare_semantic_index_v2_successor 7 (in_product_version_id intent) s
          end)
  | Err (VPendingDerived error) =>
    detail ← bounded_semantic_index_error_detail error;
    Some (retry_later 6 intent (u8"PENDING_DERIVED") detail s)
  | Err (VInvalidConfiguration error) =>
    detail ← bounded_semantic_index_error_detail error;
    let '(s, recorded) := record 6 intent (u8"terminal") (u8"INVALID_IMMUTABLE_CONFIGURATION") detail s in
    Some (s, _ ← recorded; Ok None)
  | Err (VUnavailable _ as error) =>
    detail ← bounded_semantic_index_error_detail (show_vector_error error);
    Some (retry_later 6 intent (u8"PROVIDER_UNAVAILABLE") detail s)
  | Err (VDatabase _ as error) =>
    detail ← bounded_semantic_index_error_detail (show_vector_error error);
    Some (retry_later 6 intent (u8"DATABASE_UNAVAILABLE") detail s)
  end.

Definition run_semantic_index_job (target_id : N) (target_revision : Z) (s : SemanticStore)
    : option (SemanticStore * result str (option SemanticIndexIntentV2)) :=
  let '(s, loaded) := transact id 0 (fun s => (s, Ok (find_intent s target_id target_revision))) s in
  match text_of loaded with
  | Err e => Some (s, Err e)
  | Ok None => Some (s, Ok None)
  | Ok (Some intent) =>
    let '(s, state) := transact id 1 (preflight_semantic_index_intent_v2 target_id target_revision) s in
    match text_of state with
    | Err e => Some (s, Err e)
    | Ok PfPendingDerived => Some (retry_later 6 intent (u8"PENDING_DERIVED") DETAIL_PENDING s)
    | Ok PfSuperseded => Some (prepare_semantic_index_v2_successor 7 (in_product_version_id intent) s)
    | Ok (PfCompleted | PfTerminal | PfDuplicate) => Some (s, Ok None)
    | Ok PfCurrent =>
      match provider with
      | None =>
        detail ← bounded_semantic_index_error_detail (default DETAIL_NO_PROVIDER provider_configuration_error);
        let '(s, recorded) := record 6 intent (u8"terminal") (u8"CLIENT_CONFIGURATION_INVALID") detail s in
        Some (s, _ ← recorded; Ok None)
      | Some provider =>
        let '(s, answer) := attempt provider intent s in
        conclude intent answer s
      end
    end
  end.

End job.

(** ** What other transactions can do between two steps *)

(** What the provider may answer for inputs under a revision. *)
Context (answers : EmbeddingRevisionV2 -> list VectorEmbeddingInputV2 -> list (list f32) -> Prop).

(** An empty version needs no answer. *)
Definition provided (snapshot : FrozenVectorIndexSnapshotV2) (embeddings : list (list f32)) : Prop :=
  (fv_inputs snapshot = [] /\ embeddings = []) \/ answers (fv_revision snapshot) (fv_inputs snapshot) embeddings.

Inductive step : SemanticStore -> SemanticStore -> Prop :=
| step_sources new s : step s (change_sources new s)
| step_prepare version new_id s :
    new_id ∉ map in_id (intents s) -> step s (prepare version new_id s).1
| step_preflight id target complete s : step s (preflight id target complete s).1
| step_record id target disposition code detail s :
    step s (record_semantic_index_error_v2 id target disposition code detail s).1
| step_keywords version s : step s (rebuild_keywords version s).1
| step_semantic_keywords version revision snapshot s :
    step s (rebuild_semantic_keywords version revision snapshot s).1
| step_vectors version frozen_at snapshot embeddings s :
    freeze_vector_index_snapshot_v2 frozen_at version = Ok snapshot ->
    provided snapshot embeddings ->
    step s (rebuild_finish version snapshot embeddings s).1.

Definition reachable (s : SemanticStore) : Prop :=
  exists src, rtc step {| sources := src; intents := []; keyword_rows := ∅; keyword_generations := ∅;
                          vector_rows := ∅; vector_generations := ∅ |} s.

End index.
