(* ===== verification/SemanticIndexFacts.v ===== *)
(** * The semantic index: theorems

    The invariant of the tables under every interleaving of the transactions, the job as a
    sequence of them, what a run of the job achieves. *)
From S2P Require Import Prelude RustStr RustFloat Keywords NumText Batches Policy Pipeline Order Rank Recall Selection.
From S2P Require Import Evidence BatchFacts PolicyFacts Providers ProvidersFacts SemanticIndex.

Local Open Scope N_scope.

(** [ORDER BY id] delivers each row of the table once. *)
Lemma elem_of_by_id {A} (m : gmap N A) id x : (id, x) ∈ by_id m <-> m !! id = Some x.
Proof. unfold by_id. by rewrite sort_by_perm, elem_of_map_to_list. Qed.

Section index.
Context (sha256_hex : list Z -> str) (uuid_to_string : N -> str).
Context (embedding_json : EmbeddingRevisionV2 -> result str (list Z)).
Context (parse_revision : list Z -> result str EmbeddingRevisionV2).
Context (constraint_violation : str).
Context (answers : EmbeddingRevisionV2 -> list VectorEmbeddingInputV2 -> list (list f32) -> Prop).

Notation freeze := (freeze_vector_index_snapshot_v2 sha256_hex uuid_to_string embedding_json parse_revision).
Notation prepare := (prepare sha256_hex uuid_to_string).
Notation preflight := (preflight sha256_hex uuid_to_string).
Notation finish := (rebuild_finish sha256_hex uuid_to_string constraint_violation).
Notation step := (step sha256_hex uuid_to_string embedding_json parse_revision constraint_violation answers).

(** ** Intents *)

(** What no statement changes in a row. *)
Definition in_key (i : SemanticIndexIntentV2) : N * N * str * str * Z :=
  (in_id i, in_product_version_id i, in_embedding_revision_sha256 i, in_source_snapshot_sha256 i, in_target_revision i).

Definition intent_ok (i : SemanticIndexIntentV2) : Prop :=
  in_generation_marker_sha256 i
    = (if bool_decide (in_status i = ICompleted) then Some (in_source_snapshot_sha256 i) else None)
  /\ (in_status i = ITerminal -> is_Some (in_last_error_code i)).

Record intents_ok (l : list SemanticIndexIntentV2) : Prop := {
  io_ids : NoDup (map in_id l);
  io_targets : NoDup (map (fun i => (in_product_version_id i, in_target_revision i)) l);
  io_pending : forall i j, i ∈ l -> j ∈ l -> in_status i = IPending -> in_status j = IPending ->
    in_product_version_id i = in_product_version_id j -> i = j;
  io_rows : Forall intent_ok l;
}.

Lemma map_key {B} (g : N * N * str * str * Z -> B) l l' :
  map in_key l' = map in_key l -> map (fun i => g (in_key i)) l' = map (fun i => g (in_key i)) l.
Proof. intros E. by rewrite <- (map_map in_key g l'), E, map_map. Qed.

(** An update that keeps the keys, makes no row pending, and keeps or makes rows consistent. *)
Lemma update_where_ok p f s :
  (forall i, i ∈ intents s -> p i = true -> in_key (f i) = in_key i /\ intent_ok (f i)
     /\ (in_status (f i) = IPending -> in_status i = IPending)) ->
  intents_ok (intents s) -> intents_ok (intents (update_where p f s)).
Proof.
  intros Hf [Hi Ht Hp Hr]. cbn. set (g := fun i => if p i then f i else i).
  assert (forall i, i ∈ intents s -> in_key (g i) = in_key i /\ (in_status (g i) = IPending -> in_status i = IPending)
    /\ intent_ok (g i)) as Hg.
  { intros i Hin. unfold g. destruct (p i) eqn:E; [by destruct (Hf i Hin E) as (? & ? & ?)|].
    split; [done|]. split; [done|]. rewrite Forall_forall in Hr. by apply Hr. }
  assert (map in_key (map g (intents s)) = map in_key (intents s)) as Ek.
  { rewrite map_map. apply map_ext_in. intros i Hin%list_elem_of_In. by apply Hg. }
  split.
  - exact (eq_ind_r NoDup Hi (map_key (fun k => k.1.1.1.1) _ _ Ek)).
  - exact (eq_ind_r NoDup Ht (map_key (fun k => (k.1.1.1.2, k.2)) _ _ Ek)).
  - intros i j (i' & -> & Hi')%list_elem_of_fmap (j' & -> & Hj')%list_elem_of_fmap Si Sj E. f_equal.
    destruct (Hg i' Hi') as (Ki & Pi & _), (Hg j' Hj') as (Kj & Pj & _). apply Hp; auto.
    injection Ki as _ Vi _ _ _. injection Kj as _ Vj _ _ _. congruence.
  - apply Forall_forall. intros i (i' & -> & Hi')%list_elem_of_fmap. by apply Hg.
Qed.

Lemma set_status_ok status code detail i :
  status <> IPending -> status <> ICompleted -> in_status i = IPending -> intent_ok i ->
  in_key (set_status status code detail i) = in_key i /\ intent_ok (set_status status code detail i)
  /\ (in_status (set_status status code detail i) = IPending -> in_status i = IPending).
Proof.
  intros H1 H2 H3 [Hm _]. rewrite bool_decide_false in Hm by congruence. split; [done|]. split; [|done].
  split; cbn; [by rewrite bool_decide_false|by eexists].
Qed.

Lemma is_pending_spec i : is_pending i = true <-> in_status i = IPending.
Proof. apply bool_decide_eq_true. Qed.

(** The target of a new row exceeds those of its version. *)
Lemma next_target_above s version i :
  i ∈ intents s -> in_product_version_id i = version -> (in_target_revision i < next_target s version)%Z.
Proof.
  intros Hi Hv. unfold next_target.
  assert (in_target_revision i ∈ map in_target_revision
    (List.filter (fun i => in_product_version_id i =? version) (intents s))) as Hin.
  { apply list_elem_of_fmap. exists i. split; [done|]. apply list_elem_of_In, filter_In.
    split; [by apply list_elem_of_In|by apply N.eqb_eq]. }
  induction (map _ _) as [|t l IH]; [by apply elem_of_nil in Hin|]. cbn [fold_right].
  apply elem_of_cons in Hin as [<-|Hin%IH]; lia.
Qed.

Lemma supersede_ok version revision snapshot supported s :
  intents_ok (intents s) ->
  intents_ok (intents (update_where (replaced version revision snapshot supported)
    (set_status ISuperseded (u8"SOURCE_GENERATION_SUPERSEDED")
       (u8"a newer settled source or binding generation exists")) s)).
Proof.
  intros Hok. apply update_where_ok; [|done]. intros i Hi Hp. unfold replaced in Hp.
  apply andb_prop in Hp as [[_ Hp%is_pending_spec]%andb_prop _]. apply set_status_ok; try done.
  destruct Hok as [_ _ _ Hr]. rewrite Forall_forall in Hr. by apply Hr.
Qed.

(** After it a pending row of the version has the current target, and is only there if that is supported. *)
Lemma supersede_pending version revision snapshot supported s i :
  let s' := update_where (replaced version revision snapshot supported)
    (set_status ISuperseded (u8"SOURCE_GENERATION_SUPERSEDED")
       (u8"a newer settled source or binding generation exists")) s in
  i ∈ intents s' -> in_status i = IPending -> in_product_version_id i = version ->
  same_target version revision snapshot i = true /\ supported = true.
Proof.
  intros s' (j & -> & Hj)%list_elem_of_fmap Hs Hv. destruct (replaced _ _ _ _ j) eqn:E; [done|].
  unfold replaced in E. rewrite (proj2 (is_pending_spec j) Hs), (proj2 (N.eqb_eq _ _) Hv) in E. cbn in E.
  apply orb_false_iff in E as [[E1 E2]%orb_false_iff E3]. apply negb_false_iff in E1, E2, E3.
  unfold same_target. by rewrite (proj2 (N.eqb_eq _ _) Hv), E1, E2.
Qed.

Lemma find_none_pending version revision snapshot s :
  List.find is_pending (sort_by (fun a b => (in_target_revision b <=? in_target_revision a)%Z)
    (List.filter (same_target version revision snapshot) (intents s))) = None ->
  forall i, i ∈ intents s -> same_target version revision snapshot i = true -> in_status i <> IPending.
Proof.
  intros Hn i Hi Ht Hs%is_pending_spec. assert (is_pending i = false) as E; [|congruence].
  apply (find_none _ _ Hn). apply list_elem_of_In. rewrite sort_by_perm. apply list_elem_of_In, filter_In.
  by rewrite <- list_elem_of_In.
Qed.

Lemma insert_ok s row :
  intents_ok (intents s) -> in_id row ∉ map in_id (intents s) -> intent_ok row ->
  in_target_revision row = next_target s (in_product_version_id row) ->
  (in_status row = IPending -> forall i, i ∈ intents s -> in_product_version_id i = in_product_version_id row ->
     in_status i <> IPending) ->
  intents_ok (intents (with_intents (fun l => l ++ [row]) s)).
Proof.
  intros [Hi Ht Hp Hr] Hid Hrow Htarget Hpend. cbn. split.
  - rewrite map_app. apply NoDup_app. split; [done|]. split; [|by apply NoDup_singleton].
    by intros x Hx ->%list_elem_of_singleton.
  - rewrite map_app. apply NoDup_app. split; [done|]. split; [|by apply NoDup_singleton].
    intros x (i & -> & Hin)%list_elem_of_fmap E%list_elem_of_singleton. injection E as Ev Et.
    pose proof (next_target_above s _ i Hin Ev). lia.
  - intros i j [Hin| ->%list_elem_of_singleton]%elem_of_app [Hjn| ->%list_elem_of_singleton]%elem_of_app Si Sj E; auto.
    + by destruct (Hpend Sj i Hin E).
    + by destruct (Hpend Si j Hjn (eq_sym E)).
  - apply Forall_app. by split; [|constructor].
Qed.

Lemma update_ids p f s :
  (forall i, in_id (f i) = in_id i) -> map in_id (intents (update_where p f s)) = map in_id (intents s).
Proof. intros Hf. unfold update_where. cbn [intents with_intents]. rewrite map_map. apply map_ext. intros i. destruct (p i); [apply Hf|done]. Qed.

Lemma prepare_ok version new_id s :
  new_id ∉ map in_id (intents s) -> intents_ok (intents s) -> intents_ok (intents (prepare version new_id s).1).
Proof.
  intros Hnew Hok. unfold SemanticIndex.prepare. destruct (negb _); [done|].
  destruct (binding _ _) as [[revision supported]|]; [|done]. destruct (pending_derived _ _); [done|].
  destruct (source_snapshot_v2 _ _ _ _ _) as [snapshot count]. set (s' := update_where _ _ s).
  assert (intents_ok (intents s')) as Hok' by by apply supersede_ok.
  destruct (List.find is_pending _) as [value|] eqn:Ep; [done|]. destruct (if _ && _ then _ else _) as [answer|]; [done|].
  apply insert_ok; [done| |by destruct supported|done|].
  - unfold s'. by rewrite update_ids.
  - intros Hs i Hi Hv Hp. destruct (supersede_pending _ _ _ _ _ _ Hi Hp Hv) as [Ht _].
    by apply (find_none_pending _ _ _ _ Ep i Hi Ht).
Qed.

Lemma find_intent_In s id target value :
  find_intent s id target = Some value -> value ∈ intents s /\ in_id value = id /\ in_target_revision value = target.
Proof.
  intros [Hin E]%find_some. apply andb_prop in E as [E1%N.eqb_eq E2%Z.eqb_eq]. by rewrite list_elem_of_In.
Qed.

(** With distinct identifiers, the rows an update of one identifier meets are that row. *)
Lemma same_id l i j : NoDup (map in_id l) -> i ∈ l -> j ∈ l -> in_id i = in_id j -> i = j.
Proof.
  intros Hnd (a & Ha)%list_elem_of_lookup (b & Hb)%list_elem_of_lookup E.
  assert (a = b) as ->; [|congruence].
  eapply NoDup_lookup; [exact Hnd| |]; rewrite list_lookup_fmap; [by rewrite Ha|rewrite Hb; cbn; congruence].
Qed.

Lemma preflight_ok id target complete s :
  intents_ok (intents s) -> intents_ok (intents (preflight id target complete s).1).
Proof.
  intros Hok. unfold SemanticIndex.preflight. destruct (find_intent s id target) as [value|] eqn:E; [|done].
  apply find_intent_In in E as (Hv & Hid & Ht). destruct (_ && _); [done|].
  destruct (is_pending value) eqn:Ep; cbn [negb]; [|done]. apply is_pending_spec in Ep.
  assert (forall status code detail, status <> IPending -> status <> ICompleted ->
    intents_ok (intents (update_where (fun i => in_id i =? id) (set_status status code detail) s))) as Hset.
  { intros status code detail H1 H2. apply update_where_ok; [|done]. intros i Hi Ei%N.eqb_eq.
    assert (i = value) as ->. { eapply same_id; [apply Hok|done|done|congruence]. }
    apply set_status_ok; try done. destruct Hok as [_ _ _ Hr]. rewrite Forall_forall in Hr. by apply Hr. }
  destruct (negb _); [by apply Hset|]. destruct (negb _); [by apply Hset|]. destruct (pending_derived _ _); [done|].
  destruct (source_snapshot_v2 _ _ _ _ _) as [snapshot count]. destruct (negb _); [by apply Hset|].
  destruct (negb complete); [done|]. destruct (negb _); [done|].
  apply update_where_ok; [|done]. intros i _ [_ Hi%is_pending_spec]%andb_prop. split; [done|]. split; [|done]. by split.
Qed.

Lemma record_ok id target disposition code detail s :
  intents_ok (intents s) ->
  intents_ok (intents (record_semantic_index_error_v2 id target disposition code detail s).1).
Proof.
  intros Hok. unfold record_semantic_index_error_v2. destruct (_ || _); [done|]. apply update_where_ok; [|done].
  intros i Hi [_ Hp%is_pending_spec]%andb_prop. destruct Hok as [_ _ _ Hr]. rewrite Forall_forall in Hr.
  destruct (Hr i Hi) as [Hm _]. rewrite Hp in *. rewrite bool_decide_false in Hm by done. split; [done|].
  assert (disposition_status disposition IPending <> ICompleted) as Hne.
  { unfold disposition_status. by repeat case_match. }
  split; [|done]. split; cbn; [by rewrite bool_decide_false|by eexists].
Qed.

(** ** The sidecars *)

(** The vector of a row is what the provider answered, under the revision whose digest is
    [revision_sha256], for a text with the digest of the row. *)
Definition from_provider (id : N) (revision_sha256 : str) (row : VectorRow) : Prop :=
  exists revision bytes inputs embeddings k input,
    embedding_canonical_bytes embedding_json revision = Ok bytes /\ revision_sha256 = sha256_hex bytes
    /\ answers revision inputs embeddings /\ inputs !! k = Some input
    /\ embeddings !! k = Some (vr_embedding row) /\ valid_vector (vr_embedding row)
    /\ vi_chunk_id input = id
    /\ vr_indexed_content_sha256 row = sha256_hex (as_bytes (vi_canonical_input input)).

Record sidecars_ok (s : SemanticStore) : Prop := {
  so_keyword : forall id row, keyword_rows s !! id = Some row ->
    kr_indexed_content_sha256 row = sha256_hex (as_bytes (kr_indexed_content row))
    /\ kr_tokens row = keyword_token_stream_v2 (kr_indexed_content row);
  so_vector : forall id sha row, vector_rows s !! (id, sha) = Some row ->
    sc_product_version_id <$> chunks (sources s) !! id = Some (vr_product_version_id row)
    /\ from_provider id sha row
    /\ exists g, vector_generations s !! vr_product_version_id row = Some g
       /\ gn_embedding_revision_sha256 g = sha /\ gn_source_snapshot_sha256 g = vr_source_snapshot_sha256 row;
}.

Lemma change_sources_sidecars new s : sidecars_ok s -> sidecars_ok (change_sources new s).
Proof.
  intros [Hk Hv]. split; cbn.
  - intros id row [Hrow _]%map_lookup_filter_Some. by apply Hk in Hrow.
  - intros id sha row [Hrow Hc]%map_lookup_filter_Some. split; [exact Hc|]. by apply Hv in Hrow as (_ & ? & ?).
Qed.

Lemma rebuild_keywords_sidecars version s : sidecars_ok s -> sidecars_ok (rebuild_keywords sha256_hex version s).1.
Proof.
  intros [Hk Hv]. unfold rebuild_keywords. destruct (negb _); [done|]. split; [|exact Hv]. cbn.
  intros id row [Hrow|[_ [Hrow _]%map_lookup_filter_Some]]%lookup_union_Some_raw; [|by apply Hk in Hrow].
  apply lookup_fmap_Some in Hrow as (c & <- & _). done.
Qed.

Lemma rebuild_semantic_keywords_sidecars version revision snapshot s : sidecars_ok s ->
  sidecars_ok (rebuild_semantic_keywords sha256_hex uuid_to_string constraint_violation version revision snapshot s).1.
Proof.
  intros Hok. unfold rebuild_semantic_keywords. destruct (_ || _); [done|]. destruct (pending_derived _ _); [done|].
  destruct (source_snapshot_v2 _ _ _ _ _) as [actual count]. destruct (negb _); [done|]. destruct (_ <? _); [done|].
  pose proof (rebuild_keywords_sidecars version s Hok) as [Hk Hv]. by split.
Qed.

(** A snapshot holds the inputs of the version as they were, under its canonical revision. *)
Record snapshot_ok (snapshot : FrozenVectorIndexSnapshotV2) : Prop := {
  sn_revision : exists bytes, embedding_canonical_bytes embedding_json (fv_revision snapshot) = Ok bytes
                  /\ fv_revision_sha256 snapshot = sha256_hex bytes;
  sn_inputs : inputs_ok sha256_hex (fv_inputs snapshot);
  sn_digest : fv_source_snapshot_sha256 snapshot
                = source_snapshot_sha256_v2 sha256_hex uuid_to_string (fv_revision_sha256 snapshot) (fv_inputs snapshot);
}.

Lemma freeze_exact s version snapshot : freeze s version = Ok snapshot <->
  exists sha row revision bytes, version ∈ live_versions (sources s) /\ bindings (sources s) !! version = Some sha
  /\ revisions (sources s) !! sha = Some row /\ rv_supported row = true
  /\ parse_revision (rv_payload row) = Ok revision
  /\ embedding_canonical_bytes embedding_json revision = Ok bytes /\ bytes = rv_payload row /\ sha256_hex bytes = sha
  /\ inputs_ok sha256_hex (map (embedding_input sha256_hex) (source_chunks (sources s) version))
  /\ snapshot = {| fv_revision := revision; fv_revision_sha256 := sha; fv_credential_ref := rv_credential_ref row;
       fv_inputs := map (embedding_input sha256_hex) (source_chunks (sources s) version);
       fv_source_snapshot_sha256 := source_snapshot_sha256_v2 sha256_hex uuid_to_string sha
         (map (embedding_input sha256_hex) (source_chunks (sources s) version)) |}.
Proof.
  unfold freeze_vector_index_snapshot_v2. rewrite bind_Ok. split.
  - intros ([sha row] & Hb%ok_or_Ok & H). destruct (bool_decide _) eqn:Ev; [|done]. apply bool_decide_eq_true in Ev.
    apply bind_Some in Hb as (sha' & Hsha & (row' & Hrow & Hs)%bind_Some).
    destruct (rv_supported row') eqn:Es; [|done]. injection Hs as -> ->.
    apply bind_Ok in H as (revision & Hr%map_err_Ok & (bytes & Hc%map_err_Ok & H)%bind_Ok).
    apply bind_Ok in H as ([] & [Eb Ed]%reject_if_Ok%orb_false_iff & ([] & Hi%validate_input_bounds_exact & [= <-])%bind_Ok).
    apply negb_false_iff in Eb, Ed. apply bool_decide_eq_true in Eb. apply str_eqb_spec in Ed.
    by exists sha, row, revision, bytes.
  - intros (sha & row & revision & bytes & Hv & Hb & Hrow & Hs & Hr & Hc & -> & Hsha & Hi & ->).
    exists (sha, row). rewrite bool_decide_true by done. split.
    { apply ok_or_Ok, bind_Some. exists sha. split; [done|]. apply bind_Some. exists row. by rewrite Hs. }
    apply bind_Ok. exists revision. rewrite Hr. split; [done|]. apply bind_Ok. exists (rv_payload row). rewrite Hc. split; [done|].
    apply bind_Ok. exists tt. split.
    { apply reject_if_Ok, orb_false_iff. split; apply negb_false_iff; [by apply bool_decide_eq_true|by apply str_eqb_spec]. }
    apply bind_Ok. exists tt. by split; [apply validate_input_bounds_exact|].
Qed.

Lemma freeze_ok s version snapshot : freeze s version = Ok snapshot -> snapshot_ok snapshot.
Proof.
  intros (sha & row & revision & bytes & _ & _ & _ & _ & _ & Hc & _ & Hsha & Hi & ->)%freeze_exact.
  split; cbn; [|done|done]. by exists bytes.
Qed.

(** The rows written for a snapshot. *)
Lemma new_rows_lookup version snapshot embeddings id sha row :
  new_vector_rows version snapshot embeddings !! (id, sha) = Some row ->
  exists k input embedding, fv_inputs snapshot !! k = Some input /\ embeddings !! k = Some embedding
  /\ vi_chunk_id input = id /\ fv_revision_sha256 snapshot = sha
  /\ row = vector_row version (fv_source_snapshot_sha256 snapshot) input embedding.
Proof.
  intros H%elem_of_list_to_map_2. apply list_elem_of_lookup in H as (k & Hk). rewrite lookup_zip_with in Hk.
  apply bind_Some in Hk as (input & Hi & (embedding & He & [= <- <- <-])%bind_Some). by exists k, input, embedding.
Qed.

(** What a publication that succeeds has checked. *)
Lemma finish_Ok version snapshot embeddings s s' g : finish version snapshot embeddings s = (s', Ok g) ->
  length embeddings = length (fv_inputs snapshot) /\ Forall valid_vector embeddings
  /\ (forall input, input ∈ fv_inputs snapshot ->
        sc_product_version_id <$> chunks (sources s) !! vi_chunk_id input = Some version)
  /\ s' = with_vectors
       (new_vector_rows version snapshot embeddings
        ∪ filter (fun '(_, row) => vr_product_version_id row <> version) (vector_rows s))
       (<[version := {| gn_embedding_revision_sha256 := fv_revision_sha256 snapshot;
                        gn_source_snapshot_sha256 := fv_source_snapshot_sha256 snapshot;
                        gn_chunk_count := len (fv_inputs snapshot) |}]> (vector_generations s)) s.
Proof.
  unfold rebuild_finish. destruct (_ ≫= _) as [count|e] eqn:E; [|done]. intros [= <- _].
  apply bind_Ok in E as ([] & Hl%reject_if_Ok%negb_false_iff%Nat.eqb_eq & ([] & Hv & ([] & _ & E)%bind_Ok)%bind_Ok).
  destruct (source_snapshot_v2 _ _ _ _ _) as [actual count'].
  apply bind_Ok in E as ([] & [_ Hc%negb_false_iff%N.eqb_eq]%reject_if_Ok%orb_false_iff & ([] & Hb%reject_if_Ok & E)%bind_Ok).
  apply bind_Ok in E as ([] & _ & [= ->]). split; [done|]. split; [|split; [|by rewrite Hc]].
  - apply foldR_unit in Hv. eapply Forall_impl; [exact Hv|]. intros v. apply validate_vector_exact.
  - intros input Hin. apply not_true_iff_false in Hb. destruct (belongs (sources s) version (vi_chunk_id input)) eqn:Eb.
    + by apply bool_decide_eq_true in Eb.
    + exfalso. apply Hb, existsb_exists. exists input. rewrite Eb. by rewrite <- list_elem_of_In.
Qed.

Lemma finish_Err version snapshot embeddings s s' e : finish version snapshot embeddings s = (s', Err e) -> s' = s.
Proof. unfold rebuild_finish. destruct (_ ≫= _); [done|]. by intros [= <- _]. Qed.

Lemma finish_sidecars version snapshot embeddings s :
  snapshot_ok snapshot -> provided answers snapshot embeddings -> sidecars_ok s ->
  sidecars_ok (finish version snapshot embeddings s).1.
Proof.
  intros Hsnap Hprov [Hk Hv]. destruct (finish version snapshot embeddings s) as [s' [g|e]] eqn:E; [|by apply finish_Err in E as ->].
  apply finish_Ok in E as (Hl & Hvalid & Hfk & ->). split; [exact Hk|]. cbn.
  intros id sha row [Hrow|[_ [Hrow Hne]%map_lookup_filter_Some]]%lookup_union_Some_raw.
  - apply new_rows_lookup in Hrow as (k & input & embedding & Hi & He & <- & <- & ->). cbn.
    assert (input ∈ fv_inputs snapshot) as Hin by by eapply list_elem_of_lookup_2.
    split; [by apply Hfk|]. split; [|rewrite lookup_insert_eq; by eexists].
    destruct Hprov as [[E' _]|Hans]; [rewrite E' in Hin; by apply elem_of_nil in Hin|].
    destruct Hsnap as [(bytes & Hb & Hs) Hinputs _].
    exists (fv_revision snapshot), bytes, (fv_inputs snapshot), embeddings, k, input.
    destruct Hinputs as [_ He' _ _]. rewrite Forall_forall in He'. rewrite Forall_forall in Hvalid.
    repeat split; try done; [by apply Hvalid; eapply list_elem_of_lookup_2..|]. by apply He'.
  - destruct (Hv _ _ _ Hrow) as (H1 & H2 & g' & H3 & H4). split; [done|]. split; [done|]. exists g'.
    by rewrite lookup_insert_ne.
Qed.

(** ** Every reachable store *)

Record index_ok (s : SemanticStore) : Prop := { ix_intents : intents_ok (intents s); ix_sidecars : sidecars_ok s }.

(** Operations on intents leave the sidecars alone, and the other way round. *)
Lemma same_sidecars s s' :
  sources s' = sources s -> keyword_rows s' = keyword_rows s -> vector_rows s' = vector_rows s ->
  vector_generations s' = vector_generations s -> sidecars_ok s -> sidecars_ok s'.
Proof. intros E1 E2 E3 E4 [Hk Hv]. split; rewrite ?E1, ?E2, ?E3, ?E4; done. Qed.

Definition only_intents (s s' : SemanticStore) : Prop :=
  sources s' = sources s /\ keyword_rows s' = keyword_rows s /\ keyword_generations s' = keyword_generations s
  /\ vector_rows s' = vector_rows s /\ vector_generations s' = vector_generations s.

Lemma prepare_only version new_id s : only_intents s (prepare version new_id s).1.
Proof.
  unfold SemanticIndex.prepare. destruct (negb _); [done|]. destruct (binding _ _) as [[revision supported]|]; [|done].
  destruct (pending_derived _ _); [done|]. destruct (source_snapshot_v2 _ _ _ _ _).
  destruct (List.find is_pending _); [done|]. by destruct (if _ && _ then _ else _).
Qed.

Lemma preflight_only id target complete s : only_intents s (preflight id target complete s).1.
Proof.
  unfold SemanticIndex.preflight. destruct (find_intent s id target); [|done]. destruct (_ && _); [done|].
  do 3 (destruct (negb _); [done|]). destruct (pending_derived _ _); [done|]. destruct (source_snapshot_v2 _ _ _ _ _).
  by repeat (destruct (negb _); [done|]).
Qed.

Lemma record_only id target disposition code detail s :
  only_intents s (record_semantic_index_error_v2 id target disposition code detail s).1.
Proof. unfold record_semantic_index_error_v2. by destruct (_ || _). Qed.

Lemma only_intents_ok s s' : only_intents s s' -> intents_ok (intents s') -> sidecars_ok s -> index_ok s'.
Proof. intros (H1 & H2 & _ & H4 & H5) Hi Hs. split; [done|]. by eapply same_sidecars. Qed.

Lemma rebuild_keywords_intents version s : intents (rebuild_keywords sha256_hex version s).1 = intents s.
Proof. unfold rebuild_keywords. by destruct (negb _). Qed.

Lemma rebuild_semantic_keywords_intents version revision snapshot s :
  intents (rebuild_semantic_keywords sha256_hex uuid_to_string constraint_violation version revision snapshot s).1
  = intents s.
Proof.
  unfold rebuild_semantic_keywords. destruct (_ || _); [done|]. destruct (pending_derived _ _); [done|].
  destruct (source_snapshot_v2 _ _ _ _ _). destruct (negb _); [done|]. destruct (_ <? _); [done|].
  apply rebuild_keywords_intents.
Qed.

Lemma finish_intents version snapshot embeddings s : intents (finish version snapshot embeddings s).1 = intents s.
Proof. unfold rebuild_finish. by destruct (_ ≫= _). Qed.

Lemma step_ok s s' : step s s' -> index_ok s -> index_ok s'.
Proof.
  intros Hstep [Hi Hs]. destruct Hstep.
  - split; [done|]. by apply change_sources_sidecars.
  - eapply only_intents_ok; [apply prepare_only|by apply prepare_ok|done].
  - eapply only_intents_ok; [apply preflight_only|by apply preflight_ok|done].
  - eapply only_intents_ok; [apply record_only|by apply record_ok|done].
  - split; [by rewrite rebuild_keywords_intents|by apply rebuild_keywords_sidecars].
  - split; [by rewrite rebuild_semantic_keywords_intents|by apply rebuild_semantic_keywords_sidecars].
  - split; [by rewrite finish_intents|]. apply finish_sidecars; [by eapply freeze_ok|done|done].
Qed.

Lemma reachable_index_ok s :
  reachable sha256_hex uuid_to_string embedding_json parse_revision constraint_violation answers s -> index_ok s.
Proof.
  intros (src & H). remember {| sources := src; intents := [] |} as s0 eqn:E0. assert (index_ok s0) as H0.
  { subst s0. split; cbn; [|split; cbn].
    - split; cbn; try constructor. by intros i j ?%elem_of_nil.
    - intros id row. by rewrite lookup_empty.
    - intros id sha row. by rewrite lookup_empty. }
  clear E0. induction H as [|s1 s2 s3 H1 _ IH]; [done|]. apply IH. by eapply step_ok.
Qed.

(** ** The job *)

Lemma floor_boundary_ok s n : is_char_boundary s (floor_boundary s n) = true /\ (floor_boundary s n <= n)%nat.
Proof.
  induction n as [|n [IH1 IH2]]; cbn [floor_boundary].
  - split; [|lia]. apply is_char_boundary_spec. by exists [], s.
  - destruct (is_char_boundary s (S n)) eqn:E; [done|]. split; [done|lia].
Qed.

(** The recorded detail exists (no slice panics) and fits its column. *)
Lemma bounded_detail error : exists detail, bounded_semantic_index_error_detail error = Some detail
  /\ length_within detail 512 = true.
Proof.
  unfold bounded_semantic_index_error_detail. destruct (floor_boundary_ok error (Nat.min (blen error) 512)) as [Hb Hle].
  set (n := floor_boundary _ _) in *. apply is_char_boundary_spec in Hb as (p & r & E & Hp).
  assert (slice error 0 n = Some p) as ->. { apply slice_Some. by exists [], r. }
  cbn [mbind option_bind]. destruct (str_is_empty (trim p)) eqn:Ee.
  - eexists. split; [reflexivity|]. by vm_compute.
  - eexists. split; [reflexivity|]. unfold length_within. apply andb_true_iff. split; apply Nat.leb_le.
    + apply str_is_empty_false in Ee. destruct (trim p) as [|c l]; [done|]. cbn. pose proof (len_utf8_pos c). lia.
    + etrans; [apply blen_trim_le|]. lia.
Qed.

Section job.
Context (show_sql : SqlError -> str) (show_vector_error : VectorIndexErrorV2 -> str).
Context (change : nat -> SemanticStore -> SemanticStore) (between : SemanticStore -> SemanticStore).
Context (fault : nat -> option (SqlError * bool)) (new_id : SemanticStore -> N).
Context (provider : option VectorEmbeddingProviderV2) (provider_configuration_error : option str).

Notation run := (run_semantic_index_job sha256_hex uuid_to_string embedding_json parse_revision constraint_violation
  show_sql show_vector_error change between fault new_id provider provider_configuration_error).
Notation attempt := (attempt sha256_hex uuid_to_string embedding_json parse_revision constraint_violation
  show_sql change between fault).
Notation conclude := (conclude sha256_hex uuid_to_string show_sql show_vector_error change fault new_id).
Notation successor := (prepare_semantic_index_v2_successor sha256_hex uuid_to_string show_sql change fault new_id).
Notation rebuild := (rebuild_vector_indexes_for_intent_v2 sha256_hex uuid_to_string embedding_json parse_revision
  constraint_violation between).

(** What others do around the run are steps too; new identifiers are new; the provider answers
    what it may. *)
Record environment_ok : Prop := {
  en_change : forall k s, rtc step s (change k s); en_between : forall s, rtc step s (between s);
  en_new : forall s, new_id s ∉ map in_id (intents s);
  en_provider : forall p revision reference inputs embeddings, provider = Some p -> inputs <> [] ->
    embed_inputs (VectorEmbeddingProviderV2 := p) revision reference inputs = Ok embeddings ->
    answers revision inputs embeddings;
}.
Context (Hen : environment_ok).

Lemma transact_steps {E A} (database : SqlError -> E) k (work : SemanticStore -> SemanticStore * result E A) s :
  (forall s, rtc step s (work s).1) -> rtc step s (transact change fault database k work s).1.
Proof using Hen.
  intros Hw. unfold transact. etrans; [apply (en_change Hen k)|]. destruct (fault k) as [[e [|]]|]; [apply Hw|done|apply Hw].
Qed.

Lemma successor_steps k version s : rtc step s (successor k version s).1.
Proof using Hen.
  unfold prepare_semantic_index_v2_successor.
  pose proof (transact_steps id k (fun s => prepare version (new_id s) s) s) as H.
  destruct (transact _ _ _ _ _ _) as [s' r]. apply H. intros s0. apply rtc_once. constructor. apply Hen.
Qed.

Lemma record_steps k intent disposition code detail s :
  rtc step s (record show_sql change fault k intent disposition code detail s).1.
Proof using Hen.
  unfold record. pose proof (transact_steps id k (record_semantic_index_error_v2 (in_id intent)
    (in_target_revision intent) disposition code detail) s) as H.
  destruct (transact _ _ _ _ _ _) as [s' r]. apply H. intros s0. apply rtc_once. constructor.
Qed.

Lemma retry_steps k intent code detail s : rtc step s (retry_later show_sql change fault k intent code detail s).1.
Proof using Hen. apply record_steps. Qed.

Lemma rebuild_begin_frozen version expected s snapshot :
  rebuild_begin sha256_hex uuid_to_string embedding_json parse_revision version expected s = Ok snapshot ->
  freeze s version = Ok snapshot.
Proof.
  unfold rebuild_begin. intros (x & Hx & H)%bind_Ok. destruct expected as [[a b]|]; [|congruence].
  apply bind_Ok in H as ([] & _ & ([] & _ & [= <-])%bind_Ok). done.
Qed.

Lemma rebuild_steps p intent s : provider = Some p -> rtc step s (rebuild p intent s).1.
Proof using Hen.
  intros Hp. unfold rebuild_vector_indexes_for_intent_v2. destruct (rebuild_begin _ _ _ _ _ _ _) as [snapshot|e] eqn:E; [|done].
  apply rebuild_begin_frozen in E.
  assert (forall es, match fv_inputs snapshot with [] => Ok []
    | inputs => embed_inputs (VectorEmbeddingProviderV2 := p) (fv_revision snapshot) (fv_credential_ref snapshot) inputs
    end = Ok es -> provided answers snapshot es) as Hprov.
  { intros es. unfold provided. destruct (fv_inputs snapshot) as [|i l] eqn:Ei; [intros [= <-]; by left|].
    intros H. right. by eapply en_provider. }
  destruct (match fv_inputs snapshot with [] => _ | _ => _ end) as [es|e]; (etrans; [apply (en_between Hen)|]); [|done].
  apply rtc_once. econstructor; [exact E|]. by apply Hprov.
Qed.

Lemma attempt_steps p intent s : provider = Some p -> rtc step s (attempt p intent s).1.
Proof using Hen.
  intros Hp. unfold SemanticIndex.attempt.
  set (database := fun error : SqlError => VDatabase (show_sql error)).
  set (kw := rebuild_semantic_keywords _ _ _ _ _ _).
  assert (rtc step s (transact change fault database 2 kw s).1) as H1.
  { apply transact_steps. intros s0. apply rtc_once. constructor. }
  destruct (transact change fault database 2 kw s) as [s1 [n|e]]; [|exact H1]. cbn [fst] in H1.
  set (hv := fun s : SemanticStore => (s, Ok (vector_generation_matches s intent))).
  assert (rtc step s1 (transact change fault database 3 hv s1).1) as H2 by by apply transact_steps.
  destruct (transact change fault database 3 hv s1) as [s2 [b|e]]; [|by etrans]. cbn [fst] in H2.
  assert (forall v : SemanticStore * result VectorIndexErrorV2 unit, rtc step s2 v.1 -> rtc step s (let '(s, vectors) := v in
    match vectors with
    | Err e => (s, Err e)
    | Ok _ => let '(s, completion) := transact change fault id 5
                (complete_semantic_index_intent_v2 sha256_hex uuid_to_string intent) s in
              (s, map_err database completion)
    end : SemanticStore * result VectorIndexErrorV2 SemanticIndexCompletionV2).1) as Hrest.
  { intros [s3 r] H3. cbn [fst] in H3. destruct r as [r|e]; [|etrans; [exact H1|]; by etrans].
    assert (rtc step s3 (transact change fault id 5 (complete_semantic_index_intent_v2 sha256_hex uuid_to_string intent) s3).1) as H4.
    { apply transact_steps. intros s0. unfold complete_semantic_index_intent_v2.
      pose proof (step_preflight sha256_hex uuid_to_string embedding_json parse_revision constraint_violation answers
        (in_id intent) (in_target_revision intent) true s0) as H. destruct (preflight _ _ _ s0). by apply rtc_once. }
    destruct (transact _ _ _ _ _ s3) as [s4 c]. cbn [fst] in *. etrans; [exact H1|]. etrans; [exact H2|]. by etrans. }
  apply Hrest. destruct b; [done|].
  assert (rtc step s2 (transact change fault database 4 (rebuild p intent) s2).1) as H3.
  { apply transact_steps. intros s0. by apply rebuild_steps. }
  by destruct (transact _ _ _ 4 _ _).
Qed.

Lemma conclude_steps intent answer s : exists s' r, conclude intent answer s = Some (s', r) /\ rtc step s s'.
Proof using Hen.
  assert (forall x : SemanticStore * result str (option SemanticIndexIntentV2), rtc step s x.1 ->
    exists s' r, Some x = Some (s', r) /\ rtc step s s') as Hx by (intros [s' r] H; by exists s', r).
  assert (forall k d code detail (f : result str bool -> SemanticStore -> SemanticStore * result str (option SemanticIndexIntentV2)),
    (forall r s0, rtc step s0 (f r s0).1) ->
    rtc step s (let '(s, r) := record show_sql change fault k intent d code detail s in f r s).1) as Hrec.
  { intros k d code detail f Hf. pose proof (record_steps k intent d code detail s) as H.
    destruct (record _ _ _ _ _ _ _ _ _) as [s1 r]. etrans; [exact H|apply Hf]. }
  destruct answer as [[]|[m|m|m|m|m]]; cbn [SemanticIndex.conclude]; try (apply Hx; done || apply retry_steps || apply successor_steps).
  all: match goal with |- context [bounded_semantic_index_error_detail ?e] =>
         destruct (bounded_detail e) as (detail & -> & _) end; cbn [mbind option_bind].
  - pose proof (Hrec 6%nat (u8"terminal") (u8"INVALID_IMMUTABLE_CONFIGURATION") detail
      (fun r s => (s, _ ← r; Ok None)) ltac:(done)) as H. destruct (record _ _ _ _ _ _ _ _ _). by apply Hx.
  - apply Hx, retry_steps.
  - apply Hx, retry_steps.
  - pose proof (Hrec 6%nat (u8"superseded") (u8"SOURCE_GENERATION_CHANGED") detail
      (fun r s => match r with Err e => (s, Err e) | Ok _ => successor 7 (in_product_version_id intent) s end)) as H.
    destruct (record _ _ _ _ _ _ _ _ _). apply Hx, H. intros [b|e] sx; [apply successor_steps|done].
  - apply Hx, retry_steps.
Qed.

(** A run of the job returns (no slice panics), and what it does is a sequence of steps. *)
Lemma run_steps id target s : exists s' r, run id target s = Some (s', r) /\ rtc step s s'.
Proof using Hen.
  unfold run_semantic_index_job.
  assert (rtc step s (transact change fault Datatypes.id 0 (fun s => (s, @Ok SqlError _ (find_intent s id target))) s).1) as H1.
  { by apply transact_steps. }
  destruct (transact _ _ _ 0 _ _) as [s1 loaded]. cbn [fst] in H1.
  destruct (text_of show_sql loaded) as [[intent|]|e]; [|by exists s1, (Ok None)|by exists s1, (Err e)].
  assert (rtc step s1 (transact change fault Datatypes.id 1
    (preflight_semantic_index_intent_v2 sha256_hex uuid_to_string id target) s1).1) as H2.
  { apply transact_steps. intros s0. unfold preflight_semantic_index_intent_v2.
    pose proof (step_preflight sha256_hex uuid_to_string embedding_json parse_revision constraint_violation answers
      id target false s0) as H. destruct (preflight _ _ _ s0). by apply rtc_once. }
  destruct (transact _ _ _ 1 _ _) as [s2 state]. cbn [fst] in H2.
  assert (rtc step s s2) as H12 by by etrans.
  assert (forall x : SemanticStore * result str (option SemanticIndexIntentV2), rtc step s2 x.1 ->
    exists s' r, Some x = Some (s', r) /\ rtc step s s') as Hx by (intros [s' r] H; exists s', r; split; [done|by etrans]).
  destruct (text_of show_sql state) as [[]|e]; try (apply Hx; done || apply retry_steps || apply successor_steps).
  destruct provider as [p|] eqn:Ep.
  - pose proof (attempt_steps p intent s2 Ep) as H3. destruct (attempt p intent s2) as [s3 answer]. cbn [fst] in H3.
    destruct (conclude_steps intent answer s3) as (s' & r & -> & H4). exists s', r. split; [done|].
    etrans; [exact H12|]. by etrans.
  - destruct (bounded_detail (default DETAIL_NO_PROVIDER provider_configuration_error)) as (detail & -> & _).
    cbn [mbind option_bind].
    pose proof (record_steps 6 intent (u8"terminal") (u8"CLIENT_CONFIGURATION_INVALID") detail s2) as H.
    destruct (record _ _ _ _ _ _ _ _ _) as [s3 r]. by apply Hx.
Qed.
End job.

(** ** A run that nobody disturbs *)

(** The intent is due: its version is live and settled, and both its target and its revision
    are the current ones. *)
Record due (s : SemanticStore) (intent : SemanticIndexIntentV2) (snapshot : FrozenVectorIndexSnapshotV2) : Prop := {
  du_found : find_intent s (in_id intent) (in_target_revision intent) = Some intent;
  du_pending : in_status intent = IPending;
  du_settled : pending_derived (sources s) (in_product_version_id intent) = false;
  du_frozen : freeze s (in_product_version_id intent) = Ok snapshot;
  du_revision : fv_revision_sha256 snapshot = in_embedding_revision_sha256 intent;
  du_target : fv_source_snapshot_sha256 snapshot = in_source_snapshot_sha256 intent;
}.

Section due.
Context (s : SemanticStore) (intent : SemanticIndexIntentV2) (snapshot : FrozenVectorIndexSnapshotV2).
Context (Hok : index_ok s) (Hdue : due s intent snapshot).
Notation version := (in_product_version_id intent).
Notation target := (in_source_snapshot_sha256 intent).
Notation sha := (in_embedding_revision_sha256 intent).
Notation inputs := (map (embedding_input sha256_hex) (source_chunks (sources s) version)).

Lemma due_inputs : fv_inputs snapshot = inputs.
Proof using Hdue. by destruct Hdue as [_ _ _ (? & ? & ? & ? & _ & _ & _ & _ & _ & _ & _ & _ & _ & ->)%freeze_exact _ _]. Qed.

Lemma due_inputs_ok : inputs_ok sha256_hex inputs.
Proof using Hdue. by destruct Hdue as [_ _ _ (? & ? & ? & ? & _ & _ & _ & _ & _ & _ & _ & _ & ? & _)%freeze_exact _ _]. Qed.

Lemma due_live : version ∈ live_versions (sources s).
Proof using Hdue. by destruct Hdue as [_ _ _ (? & ? & ? & ? & ? & _)%freeze_exact _ _]. Qed.

Lemma due_supported : supported_binding (sources s) version sha = true.
Proof using Hdue.
  destruct Hdue as [_ _ _ (sha' & row & rev & bytes & _ & Hb & Hrow & Hs & _ & _ & _ & _ & _ & ->)%freeze_exact E _].
  cbn in E. subst sha'. unfold supported_binding, binding. rewrite Hb. cbn [mbind option_bind]. rewrite Hrow.
  cbn [mbind option_bind]. by rewrite Hs, (proj2 (str_eqb_spec _ _) eq_refl).
Qed.

Lemma due_snapshot : source_snapshot_v2 sha256_hex uuid_to_string (sources s) version sha = (target, len inputs).
Proof using Hdue.
  unfold source_snapshot_v2. rewrite <- due_inputs. f_equal. destruct Hdue as [_ _ _ Hf E1 E2].
  apply freeze_ok in Hf as [_ _ Hd]. congruence.
Qed.

(** A store with the same sources and intents is due as well. *)
Lemma due_transfer s' : sources s' = sources s -> intents s' = intents s -> due s' intent snapshot.
Proof using Hdue.
  intros E1 E2. destruct Hdue as [H1 H2 H3 H4 H5 H6]. split; try done.
  - unfold find_intent in *. by rewrite E2.
  - by rewrite E1.
  - revert H4. unfold freeze_vector_index_snapshot_v2. by rewrite E1.
Qed.

Lemma due_preflight : preflight (in_id intent) (in_target_revision intent) false s = (s, u8"current").
Proof using Hdue.
  unfold SemanticIndex.preflight. rewrite (du_found _ _ _ Hdue), (proj2 (is_pending_spec _) (du_pending _ _ _ Hdue)).
  rewrite (bool_decide_true (version ∈ live_versions (sources s))) by apply due_live. rewrite due_supported, (du_settled _ _ _ Hdue), due_snapshot.
  by rewrite (proj2 (str_eqb_spec _ _) eq_refl).
Qed.

Lemma due_complete : generations_match s version sha target (len inputs) = true ->
  preflight (in_id intent) (in_target_revision intent) true s
  = (update_where (fun i => (in_id i =? in_id intent) && is_pending i) complete_intent s, u8"completed").
Proof using Hdue.
  intros Hg. unfold SemanticIndex.preflight.
  rewrite (du_found _ _ _ Hdue), (proj2 (is_pending_spec _) (du_pending _ _ _ Hdue)), (du_pending _ _ _ Hdue).
  rewrite (bool_decide_false (IPending = ICompleted)) by done.
  rewrite (bool_decide_true (version ∈ live_versions (sources s))) by apply due_live. rewrite due_supported, (du_settled _ _ _ Hdue), due_snapshot.
  rewrite (proj2 (str_eqb_spec _ _) eq_refl), Hg. done.
Qed.

Definition due_generation : Generation :=
  {| gn_embedding_revision_sha256 := sha; gn_source_snapshot_sha256 := target; gn_chunk_count := len inputs |}.

(** The store after the keywords, and after the vectors. *)
Definition with_new_keywords : SemanticStore :=
  with_keywords ((keyword_row sha256_hex <$> version_chunks (sources s) version)
      ∪ filter (fun '(id, _) => version_chunks (sources s) version !! id = None) (keyword_rows s))
    (<[version := due_generation]> (keyword_generations s)) s.

Lemma due_keywords :
  rebuild_semantic_keywords sha256_hex uuid_to_string constraint_violation version sha target s
  = (with_new_keywords, Ok (len inputs)).
Proof using Hdue.
  unfold rebuild_semantic_keywords. rewrite (bool_decide_true (version ∈ live_versions (sources s))) by apply due_live.
  rewrite due_supported, (du_settled _ _ _ Hdue), due_snapshot, (proj2 (str_eqb_spec _ _) eq_refl).
  rewrite (proj2 (N.ltb_ge _ _)) by apply due_inputs_ok. unfold rebuild_keywords.
  by rewrite (bool_decide_true (version ∈ live_versions (sources s))) by apply due_live.
Qed.

Definition with_new_vectors (embeddings : list (list f32)) : SemanticStore :=
  with_vectors (new_vector_rows version snapshot embeddings
      ∪ filter (fun '(_, row) => vr_product_version_id row <> version) (vector_rows s))
    (<[version := due_generation]> (vector_generations s)) s.

Lemma source_chunk_version id c : (id, c) ∈ source_chunks (sources s) version ->
  chunks (sources s) !! id = Some c /\ sc_product_version_id c = version /\ is_source (sources s) id c = true.
Proof. intros [H%list_elem_of_In%elem_of_by_id [Hv%N.eqb_eq Hs]%andb_prop]%list_elem_of_In%filter_In. done. Qed.

Lemma due_begin : rebuild_begin sha256_hex uuid_to_string embedding_json parse_revision version (Some (sha, target)) s
  = Ok snapshot.
Proof using Hdue.
  unfold rebuild_begin. rewrite (du_frozen _ _ _ Hdue). cbn [mbind result_bind].
  rewrite (du_revision _ _ _ Hdue), (du_target _ _ _ Hdue), !(proj2 (str_eqb_spec _ _) eq_refl), (du_settled _ _ _ Hdue).
  done.
Qed.

Lemma due_finish embeddings : length embeddings = length inputs -> Forall valid_vector embeddings ->
  exists g, finish version snapshot embeddings s = (with_new_vectors embeddings, Ok g).
Proof using Hdue.
  intros Hl Hv. unfold rebuild_finish. rewrite (du_revision _ _ _ Hdue), (du_target _ _ _ Hdue), due_inputs, due_snapshot.
  assert (foldR (fun (_ : unit) embedding => validate_vector embedding) tt embeddings = Ok tt) as E1.
  { apply foldR_unit. eapply Forall_impl; [exact Hv|]. intros v. apply validate_vector_exact. }
  assert (existsb (fun input => negb (belongs (sources s) version (vi_chunk_id input))) inputs = false) as E2.
  { rewrite existsb_negb_forallb, negb_false_iff. apply forallb_Forall, Forall_map, Forall_forall.
    intros [id c] (Hc & Hvc & _)%source_chunk_version. apply bool_decide_eq_true. cbn. rewrite Hc. by cbn; rewrite Hvc. }
  rewrite (proj2 (Nat.eqb_eq _ _) Hl), E1, (proj2 (str_eqb_spec _ _) eq_refl), E2, N.eqb_refl.
  rewrite (bool_decide_true (version ∈ live_versions (sources s))) by apply due_live. rewrite due_supported.
  rewrite (proj2 (N.leb_gt _ _)) by (eapply N.le_lt_trans; [apply due_inputs_ok|done]).
  by eexists.
Qed.
End due.

(** The store after an undisturbed run that had to make the vectors. *)
Definition published (s : SemanticStore) (intent : SemanticIndexIntentV2) (snapshot : FrozenVectorIndexSnapshotV2)
    (embeddings : list (list f32)) : SemanticStore :=
  update_where (fun i => (in_id i =? in_id intent) && is_pending i) complete_intent
    (with_new_vectors (with_new_keywords s intent) intent snapshot embeddings).

Lemma quiet_run show_sql show_vector_error new_id (p : VectorEmbeddingProviderV2) pce s intent snapshot embeddings :
  due s intent snapshot -> vector_generation_matches s intent = false ->
  match fv_inputs snapshot with
  | [] => Ok []
  | inputs => embed_inputs (VectorEmbeddingProviderV2 := p) (fv_revision snapshot) (fv_credential_ref snapshot) inputs
  end = Ok embeddings ->
  length embeddings = length (fv_inputs snapshot) -> Forall valid_vector embeddings ->
  run_semantic_index_job sha256_hex uuid_to_string embedding_json parse_revision constraint_violation show_sql
    show_vector_error (fun _ s => s) (fun s => s) (fun _ => None) new_id (Some p) pce
    (in_id intent) (in_target_revision intent) s
  = Some (published s intent snapshot embeddings, Ok None).
Proof.
  intros Hdue Hnone Hp Hl Hv. unfold run_semantic_index_job, transact. rewrite (du_found _ _ _ Hdue).
  cbn [text_of map_err]. unfold preflight_semantic_index_intent_v2. rewrite (due_preflight _ _ _ Hdue).
  change (str_eqb (u8"current") (u8"current")) with true. cbv iota. cbn [text_of map_err].
  unfold SemanticIndex.attempt, transact. rewrite (due_keywords _ _ _ Hdue).
  set (s1 := with_new_keywords s intent). assert (due s1 intent snapshot) as Hdue1 by by apply (due_transfer s).
  change (vector_generation_matches s1 intent) with (vector_generation_matches s intent). rewrite Hnone.
  unfold rebuild_vector_indexes_for_intent_v2. rewrite (due_begin _ _ _ Hdue1), Hp.
  destruct (due_finish _ _ _ Hdue1 embeddings) as [g ->]; [|done|].
  { by rewrite Hl, (due_inputs _ _ _ Hdue). }
  cbn [mbind result_bind]. set (s2 := with_new_vectors s1 intent snapshot embeddings).
  assert (due s2 intent snapshot) as Hdue2 by by apply (due_transfer s1).
  unfold complete_semantic_index_intent_v2. rewrite (due_complete _ _ _ Hdue2).
  { done. }
  unfold generations_match. apply andb_true_iff. cbn [s2 s1 with_new_vectors with_new_keywords with_vectors with_keywords
    sources keyword_generations vector_generations].
  by rewrite !lookup_insert_eq, !bool_decide_true by done.
Qed.

(** What is then in the tables. *)
Lemma input_chunk s intent snapshot k input : due s intent snapshot -> fv_inputs snapshot !! k = Some input ->
  exists c, chunks (sources s) !! vi_chunk_id input = Some c /\ sc_product_version_id c = in_product_version_id intent
  /\ input = embedding_input sha256_hex (vi_chunk_id input, c).
Proof.
  intros Hdue H. rewrite (due_inputs s intent snapshot Hdue) in H. apply list_lookup_fmap_Some in H as ([id c] & -> & H).
  apply list_elem_of_lookup_2, source_chunk_version in H as (Hc & Hv & _). by exists c.
Qed.

Lemma new_rows_at version snapshot embeddings k input embedding :
  NoDup (map vi_chunk_id (fv_inputs snapshot)) ->
  fv_inputs snapshot !! k = Some input -> embeddings !! k = Some embedding ->
  new_vector_rows version snapshot embeddings !! (vi_chunk_id input, fv_revision_sha256 snapshot)
  = Some (vector_row version (fv_source_snapshot_sha256 snapshot) input embedding).
Proof.
  intros Hnd Hi He. apply elem_of_list_to_map_1'.
  - intros row (j & Hj)%list_elem_of_lookup. rewrite lookup_zip_with in Hj.
    apply bind_Some in Hj as (input' & Hi' & (embedding' & He' & [= E <-])%bind_Some).
    assert (j = k) as ->; [|congruence]. eapply NoDup_lookup; [exact Hnd| |]; rewrite list_lookup_fmap.
    + by rewrite Hi'.
    + rewrite Hi. cbn. congruence.
  - apply list_elem_of_lookup. exists k. rewrite lookup_zip_with, Hi. cbn. by rewrite He.
Qed.

Record up_to_date (s : SemanticStore) (intent : SemanticIndexIntentV2) (inputs : list VectorEmbeddingInputV2)
    (embeddings : list (list f32)) : Prop := {
  ut_completed : find_intent s (in_id intent) (in_target_revision intent) = Some (complete_intent intent);
  ut_generations : generations_match s (in_product_version_id intent) (in_embedding_revision_sha256 intent)
                     (in_source_snapshot_sha256 intent) (len inputs) = true;
  ut_keywords : forall id c, chunks (sources s) !! id = Some c -> sc_product_version_id c = in_product_version_id intent ->
                  keyword_rows s !! id = Some (keyword_row sha256_hex c);
  ut_vectors : forall k input embedding, inputs !! k = Some input -> embeddings !! k = Some embedding ->
                 vector_rows s !! (vi_chunk_id input, in_embedding_revision_sha256 intent)
                 = Some (vector_row (in_product_version_id intent) (in_source_snapshot_sha256 intent) input embedding);
}.

Lemma published_up_to_date s intent snapshot embeddings : index_ok s -> due s intent snapshot ->
  up_to_date (published s intent snapshot embeddings) intent (fv_inputs snapshot) embeddings.
Proof.
  intros [Hok _] Hdue. pose proof (due_inputs s intent snapshot Hdue) as Ein. split.
  - unfold published, update_where, find_intent. cbn [intents with_intents with_new_vectors with_new_keywords with_vectors with_keywords].
    pose proof (du_found _ _ _ Hdue) as Hf. pose proof (find_intent_In _ _ _ _ Hf) as (Hin & _). revert Hf Hin.
    destruct Hok as [Hids _ _ _]. unfold find_intent. revert Hids.
    induction (intents s) as [|i l IH]; [done|]. intros [Hni Hnd]%NoDup_cons. cbn [List.find map].
    destruct ((in_id i =? in_id intent) && (in_target_revision i =? in_target_revision intent)%Z) eqn:E.
    + intros [= ->] _. rewrite N.eqb_refl, (proj2 (is_pending_spec _) (du_pending _ _ _ Hdue)). cbn [andb].
      by rewrite N.eqb_refl, Z.eqb_refl.
    + intros Hf Hin. apply elem_of_cons in Hin as [->|Hin]; [by rewrite N.eqb_refl, Z.eqb_refl in E|].
      assert (in_id i <> in_id intent) as Hne.
      { intros Ei. apply Hni. rewrite Ei. by apply list_elem_of_fmap_2. }
      rewrite (proj2 (N.eqb_neq _ _) Hne). cbn [andb]. rewrite (proj2 (N.eqb_neq _ _) Hne). cbn [andb]. by apply IH.
  - unfold generations_match. apply andb_true_iff. rewrite Ein.
    cbn [published update_where with_intents with_new_vectors with_new_keywords with_vectors with_keywords
      keyword_generations vector_generations]. by rewrite !lookup_insert_eq, !bool_decide_true by done.
  - intros id c Hc Hv. cbn in Hc |- *. apply lookup_union_Some_l, lookup_fmap_Some. exists c. split; [done|].
    by apply map_lookup_filter_Some.
  - intros k input embedding Hi He. cbn. apply lookup_union_Some_l.
    rewrite <- (du_revision _ _ _ Hdue), <- (du_target _ _ _ Hdue). apply new_rows_at with k; [|done|done].
    rewrite Ein. apply (due_inputs_ok s intent snapshot Hdue).
Qed.

(** C8: Whatever other transactions of the program come between those of a run of the job, which
    of its transactions fail (with their effect or without it), and whether and how the provider
    answers, the run returns (no slice panics) and its effect is a sequence of the program's
    transactions.  In every store such transactions reach, intents have distinct identifiers and
    distinct targets within a version, a version has at most one pending intent, exactly the
    completed intents carry their snapshot as marker, terminal ones have an error code; each
    keyword row holds the digest and the tokens of its text; each vector row belongs to the
    current generation of the version its chunk is of, and its vector is what the provider
    answered for a text with the digest of the row. *)
Theorem semantic_index_job_safe show_sql show_vector_error change between fault new_id provider pce id target s :
  environment_ok change between new_id provider ->
  reachable sha256_hex uuid_to_string embedding_json parse_revision constraint_violation answers s ->
  exists s' r,
    run_semantic_index_job sha256_hex uuid_to_string embedding_json parse_revision constraint_violation show_sql
      show_vector_error change between fault new_id provider pce id target s = Some (s', r)
    /\ reachable sha256_hex uuid_to_string embedding_json parse_revision constraint_violation answers s'
    /\ index_ok s'.
Proof.
  intros Hen (src & Hs). destruct (run_steps show_sql show_vector_error change between fault new_id provider pce Hen
    id target s) as (s' & r & H1 & H2).
  exists s', r. split; [done|].
  assert (reachable sha256_hex uuid_to_string embedding_json parse_revision constraint_violation answers s') as Hr.
  { exists src. by etrans. }
  split; [done|]. by apply reachable_index_ok.
Qed.

(** C18: A run of the job for an intent whose target and revision are current, that nobody disturbs
    and whose provider answers each input with a valid vector, succeeds: the intent is completed,
    both generations are those of its target, every chunk of the version has a keyword row of its
    content, and every input the vector that was answered for it. *)
Theorem undisturbed_run_publishes show_sql show_vector_error new_id (p : VectorEmbeddingProviderV2) pce s intent
    snapshot embeddings :
  index_ok s -> due s intent snapshot -> vector_generation_matches s intent = false -> fv_inputs snapshot <> [] ->
  embed_inputs (VectorEmbeddingProviderV2 := p) (fv_revision snapshot) (fv_credential_ref snapshot) (fv_inputs snapshot)
    = Ok embeddings ->
  length embeddings = length (fv_inputs snapshot) -> Forall valid_vector embeddings ->
  exists s',
    run_semantic_index_job sha256_hex uuid_to_string embedding_json parse_revision constraint_violation show_sql
      show_vector_error (fun _ s => s) (fun s => s) (fun _ => None) new_id (Some p) pce
      (in_id intent) (in_target_revision intent) s = Some (s', Ok None)
    /\ sources s' = sources s /\ up_to_date s' intent (fv_inputs snapshot) embeddings.
Proof.
  intros Hok Hdue Hm Hne Hp Hl Hv. exists (published s intent snapshot embeddings). split.
  - apply quiet_run; try done. by destruct (fv_inputs snapshot).
  - split; [done|by apply published_up_to_date].
Qed.
End index.

(** ** A concrete version *)

Definition demo_sha : str := replicate 64 97%Z.
Definition demo_payload (_ : EmbeddingRevisionV2) : result str (list Z) := Ok demo_sha.
Definition demo_parse (_ : list Z) : result str EmbeddingRevisionV2 := Ok demo_embedding_revision.
Definition demo_digest (bytes : list Z) : str := bytes.
Definition demo_uuid (id : N) : str := [Z.of_N id].

(** Two chunks of one document of the version 20, the second one of another type. *)
Definition demo_document : SourceDocument := {|
  sd_product_version_id := 20; sd_deleted := false; sd_parse_status := PCompleted; sd_summary_status := SNone;
  sd_pending_subtasks_count := 0; sd_active_generation := 1; sd_enabled := true; sd_index_ready := true;
  sd_file_name := u8"a.pdf";
|}.
Definition demo_chunk (ty content : str) : SourceChunk := {|
  sc_document_id := 30; sc_product_version_id := 20; sc_generation := 1; sc_chunk_type := ty;
  sc_context_header := []; sc_content := content; sc_parent_chunk_id := None;
|}.
Definition demo_content (content : str) : Sources := {|
  products := {[10 := {| pr_kind := u8"product"; pr_workspace_kind := u8"product_line" |}]};
  version_products := {[20 := 10]}; live_versions := {[20]}; bindings := {[20 := demo_sha]};
  revisions := {[demo_sha := {| rv_payload := demo_sha; rv_credential_ref := u8"env:EMBED_KEY"; rv_supported := true |}]};
  documents := {[30 := demo_document]};
  chunks := {[1 := demo_chunk TEXT content; 2 := demo_chunk QUESTION (u8"why")]}; image_links := ∅;
|}.

Definition empty_store (src : Sources) : SemanticStore := {|
  sources := src; intents := []; keyword_rows := ∅; keyword_generations := ∅; vector_rows := ∅; vector_generations := ∅;
|}.

Definition demo_provider : VectorEmbeddingProviderV2 := fun _ _ inputs => Ok (map (fun _ => demo_vector 0) inputs).
Definition any_answer (_ : EmbeddingRevisionV2) (_ : list VectorEmbeddingInputV2) (_ : list (list f32)) : Prop := True.
Definition next_id (s : SemanticStore) : N := fresh (list_to_set (map in_id (intents s)) : gset N).

Definition demo_prepare (id : N) (s : SemanticStore) : SemanticStore := (prepare demo_digest demo_uuid 20 id s).1.
Definition demo_run (id : N) (target : Z) (s : SemanticStore) : SemanticStore :=
  match run_semantic_index_job demo_digest demo_uuid demo_payload demo_parse (u8"23514") (fun _ => u8"sql")
          (fun _ => u8"vector") (fun _ s => s) (fun s => s) (fun _ => None) next_id (Some demo_provider) None id target s with
  | Some (s', _) => s'
  | None => s
  end.

Definition demo_store : SemanticStore := demo_prepare 7 (empty_store (demo_content (u8"alpha"))).

Lemma demo_environment :
  environment_ok demo_digest demo_uuid demo_payload demo_parse (u8"23514") any_answer (fun _ s => s) (fun s => s)
    next_id (Some demo_provider).
Proof.
  split; [done|done| |done]. intros s. unfold next_id. pose proof (is_fresh (list_to_set (map in_id (intents s)) : gset N)).
  by rewrite elem_of_list_to_set in H.
Qed.

Lemma demo_store_reachable : reachable demo_digest demo_uuid demo_payload demo_parse (u8"23514") any_answer demo_store.
Proof. exists (demo_content (u8"alpha")). apply rtc_once. apply step_prepare. by apply not_elem_of_nil. Qed.

Lemma semantic_index_job_safe_witness : exists s' r,
  run_semantic_index_job demo_digest demo_uuid demo_payload demo_parse (u8"23514") (fun _ => u8"sql")
    (fun _ => u8"vector") (fun _ s => s) (fun s => s) (fun k => if (k =? 5)%nat then Some (RowNotFound, false) else None)
    next_id (Some demo_provider) None 7 1 demo_store = Some (s', r)
  /\ reachable demo_digest demo_uuid demo_payload demo_parse (u8"23514") any_answer s'
  /\ index_ok demo_digest demo_payload any_answer s'.
Proof. apply semantic_index_job_safe; [exact demo_environment|exact demo_store_reachable]. Defined.

Definition demo_intent : SemanticIndexIntentV2 := default
  {| in_id := 0; in_product_version_id := 0; in_embedding_revision_sha256 := []; in_source_snapshot_sha256 := [];
     in_target_revision := 0; in_status := ITerminal; in_generation_marker_sha256 := None; in_last_error_code := None;
     in_last_error_detail := None |} (find_intent demo_store 7 1).
Definition demo_frozen : FrozenVectorIndexSnapshotV2 :=
  match freeze_vector_index_snapshot_v2 demo_digest demo_uuid demo_payload demo_parse demo_store 20 with
  | Ok snapshot => snapshot
  | Err _ => {| fv_revision := demo_embedding_revision; fv_revision_sha256 := []; fv_credential_ref := [];
                fv_inputs := []; fv_source_snapshot_sha256 := [] |}
  end.

Lemma demo_due : due demo_digest demo_uuid demo_payload demo_parse demo_store demo_intent demo_frozen.
Proof. by split; vm_compute. Qed.

Lemma undisturbed_run_publishes_witness :
  (map vi_canonical_input (fv_inputs demo_frozen) = [[NL] ++ u8"alpha"; [NL] ++ u8"why"])
  /\ exists s', run_semantic_index_job demo_digest demo_uuid demo_payload demo_parse (u8"23514") (fun _ => u8"sql")
       (fun _ => u8"vector") (fun _ s => s) (fun s => s) (fun _ => None) next_id (Some demo_provider) None 7 1 demo_store
     = Some (s', Ok None)
  /\ sources s' = sources demo_store
  /\ up_to_date demo_digest s' demo_intent (fv_inputs demo_frozen) [demo_vector 0; demo_vector 0].
Proof.
  split; [by vm_compute|].
  apply (undisturbed_run_publishes demo_digest demo_uuid demo_payload demo_parse (u8"23514") any_answer (fun _ => u8"sql")
    (fun _ => u8"vector") next_id demo_provider None demo_store demo_intent demo_frozen).
  - exact (reachable_index_ok _ _ _ _ _ _ _ demo_store_reachable).
  - exact demo_due.
  - by vm_compute.
  - by vm_compute.
  - by vm_compute.
  - by vm_compute.
  - repeat constructor; apply validate_vector_exact; by vm_compute.
Defined.
