(* ===== verification/Workflow.v ===== *)
(** * The durable workflow of a document

    [workflow.rs] and [workflow/lifecycle.rs], with what else changes the status of a document:
    the start and the end of a conversion ([ingest.rs]), a new attempt, cancellation and
    housekeeping ([catalog/document.rs]), the spans as signs of life ([catalog/spans.rs]) and the
    end of a deletion ([pipeline.rs]).  It is for one document: its row, its outbox rows and receipts by
    attempt and job key, and its spans.  A transaction is a function on this state; a
    statement whose condition fails changes nothing, and a transaction that returns before
    its commit leaves the state as it was.  Chunks, embeddings and wiki pages are kept in
    other tables and are not part of the state. *)
From S2P Require Import Prelude RustStr Pipeline.
Open Scope Z_scope.

(** ** Work *)

Inductive Work :=
| WConvert (passages : list str) (manual : bool)
| WPostprocess (clone_keep : bool)
| WSummary
| WDatatable
| WQuestions (chunk_ids : list N) (prev_ids next_ids : list (option N)) (batch : N)
| WExtract (chunk_id : N)
| WImage (image_key image_source_type : str)
| WWiki
| WReconcile.

Definition derived (w : Work) : bool :=
  match w with
  | WSummary | WDatatable | WQuestions _ _ _ _ | WExtract _ | WWiki => true
  | _ => false
  end.

Definition is_image (w : Work) : bool := match w with WImage _ _ => true | _ => false end.
Definition is_summary (w : Work) : bool := match w with WSummary => true | _ => false end.
Definition is_reconcile (w : Work) : bool := match w with WReconcile => true | _ => false end.

(** ** The rows *)

Record DocumentRow := {
  d_attempt : Z; d_deleted : bool; d_parse_status : ParseStatus; d_pending_subtasks_count : Z;
  d_summary_status : SummaryStatus; d_enabled : bool; d_index_ready : bool; d_active_generation : Z;
  d_error_message : option str; d_updated_at : Z; d_manual : bool; d_source_passages : option (list str);
}.

Record OutboxRow := {
  o_payload : Work; o_is_derived : bool; o_state : OutboxState; o_deliveries : Z; o_revision : Z;
  o_next_delivery_at : Z; o_last_error : option str;
}.

Section workflow.
Context {Value : Type}.

Record Db := {
  document : option DocumentRow;
  outbox : gmap (Z * str) OutboxRow;
  receipts : gset (Z * str);
  spans : SpanTable Value;
}.

Definition set_document (d : DocumentRow) (db : Db) : Db :=
  {| document := Some d; outbox := outbox db; receipts := receipts db; spans := spans db |}.
Definition set_outbox (o : gmap (Z * str) OutboxRow) (db : Db) : Db :=
  {| document := document db; outbox := o; receipts := receipts db; spans := spans db |}.
Definition set_receipts (r : gset (Z * str)) (db : Db) : Db :=
  {| document := document db; outbox := outbox db; receipts := r; spans := spans db |}.
Definition set_spans (s : SpanTable Value) (db : Db) : Db :=
  {| document := document db; outbox := outbox db; receipts := receipts db; spans := s |}.

(** [Uuid]'s [Display]; the milliseconds between two instants as the database rounds them;
    the time of the transaction. *)
Context (uuid_to_string : N -> str) (elapsed_ms : Z -> Z -> Z) (now : Z).

Definition work_key (w : Work) : str :=
  match w with
  | WConvert _ _ => u8"convert"
  | WPostprocess _ => u8"postprocess"
  | WSummary => u8"summary"
  | WDatatable => u8"datatable"
  | WQuestions _ _ _ batch => u8"questions:" ++ decimal batch
  | WExtract chunk_id => u8"extract:" ++ uuid_to_string chunk_id
  | WImage image_key _ => u8"image:" ++ image_key
  | WWiki => u8"wiki"
  | WReconcile => u8"reconcile"
  end.

Definition is_live (s : ParseStatus) : bool :=
  match s with PPending | PProcessing | PFinalizing => true | _ => false end.

(** [current] and [lock_current] ask the same of the document. *)
Definition lock_current (attempt : Z) (db : Db) : bool :=
  match document db with
  | Some d => (d_attempt d =? attempt) && negb (d_deleted d) && is_live (d_parse_status d)
  | None => false
  end.

(** A row inserted with the defaults of the table. *)
Definition new_row (w : Work) (is_derived : bool) : OutboxRow := {|
  o_payload := w; o_is_derived := is_derived; o_state := OPending; o_deliveries := 0; o_revision := 1;
  o_next_delivery_at := now; o_last_error := None |}.

(** [ON CONFLICT DO NOTHING] *)
Definition insert_row (k : Z * str) (row : OutboxRow) (o : gmap (Z * str) OutboxRow) : gmap (Z * str) OutboxRow :=
  match o !! k with Some _ => o | None => <[k := row]> o end.

Definition put_tx (attempt : Z) (w : Work) (db : Db) : Db :=
  set_outbox (insert_row (attempt, work_key w) (new_row w (derived w)) (outbox db)) db.

Definition put (attempt : Z) (w : Work) (db : Db) : Db :=
  if lock_current attempt db then put_tx attempt w db else db.

Definition is_offered (s : OutboxState) : bool :=
  match s with OPending | OPublished => true | _ => false end.

Definition pending (attempt : Z) (key : str) (db : Db) : bool :=
  if negb (lock_current attempt db) then false
  else
    match outbox db !! (attempt, key) with Some row => is_offered (o_state row) | None => false end
    && negb (bool_decide ((attempt, key) ∈ receipts db)).

(** ** [lifecycle.rs] *)

Definition set_state (s : OutboxState) (row : OutboxRow) : OutboxRow := {|
  o_payload := o_payload row; o_is_derived := o_is_derived row; o_state := s; o_deliveries := o_deliveries row;
  o_revision := o_revision row; o_next_delivery_at := o_next_delivery_at row; o_last_error := o_last_error row |}.

Definition set_error (e : option str) (row : OutboxRow) : OutboxRow := {|
  o_payload := o_payload row; o_is_derived := o_is_derived row; o_state := o_state row;
  o_deliveries := o_deliveries row; o_revision := o_revision row; o_next_delivery_at := o_next_delivery_at row;
  o_last_error := e |}.

(** The columns whose change concerns the semantic index. *)
Definition source_state (d : DocumentRow) : bool * bool * bool * ParseStatus * SummaryStatus * Z :=
  (d_deleted d, d_enabled d, d_index_ready d, d_parse_status d, d_summary_status d, d_active_generation d).

(** The reconcile row offered again. *)
Definition offer_reconcile (attempt : Z) (o : gmap (Z * str) OutboxRow) : gmap (Z * str) OutboxRow :=
  let k := (attempt, u8"reconcile") in
  <[k := match o !! k with
         | None => new_row WReconcile false
         | Some row => {|
             o_payload := o_payload row; o_is_derived := o_is_derived row; o_state := OPending; o_deliveries := 0;
             o_revision := o_revision row + 1; o_next_delivery_at := now; o_last_error := None |}
         end]> o.

(** The work of other attempts, or of a removed document, is over. *)
Definition close_work (attempt : Z) (terminal : bool) (o : gmap (Z * str) OutboxRow) : gmap (Z * str) OutboxRow :=
  map_imap (fun k row =>
    Some (if negb (str_eqb k.2 (u8"reconcile")) && (negb (k.1 =? attempt) || terminal)
          then set_state OComplete row else row)) o.

Definition record_document_change (before : option DocumentRow) (db : Db) : Db :=
  match document db with
  | None => db
  | Some after =>
    let attempt_changed := match before with Some old => negb (d_attempt old =? d_attempt after) | None => false end in
    let terminal := is_aborted (d_parse_status after) in
    let changed := match before with
                   | Some old => negb (bool_decide (source_state old = source_state after))
                   | None => false
                   end in
    let o := if changed then offer_reconcile (d_attempt after) (outbox db) else outbox db in
    let o := if attempt_changed || terminal then close_work (d_attempt after) terminal o else o in
    let o := if bool_decide (d_parse_status after = PPending) && (negb (bool_decide (is_Some before)) || attempt_changed)
             then insert_row (d_attempt after, u8"convert")
                    (new_row (WConvert (default [] (d_source_passages after)) (d_manual after)) false) o
             else o in
    set_outbox o db
  end.

(** ** Completion *)

(** [UPDATE ... WHERE job_key = $3] *)
Definition update_row (k : Z * str) (f : OutboxRow -> OutboxRow) (o : gmap (Z * str) OutboxRow) :=
  alter f k o.

Definition open_images (attempt : Z) (o : gmap (Z * str) OutboxRow) : bool :=
  existsb (fun '(k, row) => (k.1 =? attempt) && is_image (o_payload row) && negb (bool_decide (o_state row = OComplete)))
    (map_to_list o).

(** The number of derived rows that are not complete. *)
Definition open_derived (attempt : Z) (o : gmap (Z * str) OutboxRow) : Z :=
  Z.of_nat (length (List.filter (fun '(k, row) =>
    (k.1 =? attempt) && o_is_derived row && negb (bool_decide (o_state row = OComplete))) (map_to_list o))).

(** What a finished image does besides: the span of the stage and the next stage, once no
    image is left. *)
Definition finish_images (attempt : Z) (db : Db) : Db :=
  if open_images attempt (outbox db) then db
  else
    let s := alter (fun row => {|
      row_span_id := row_span_id row; row_parent_span_id := row_parent_span_id row; row_kind := row_kind row;
      row_status := SpDone; row_input := row_input row; row_output := row_output row;
      row_error_message := row_error_message row; row_started_at := row_started_at row;
      row_finished_at := Some now;
      row_duration_ms := Some (elapsed_ms now (default now (row_started_at row))) |}) (attempt, u8"multimodal") (spans db) in
    let db := set_spans s db in
    match document db with
    | Some d => if d_attempt d =? attempt
                then set_outbox (insert_row (attempt, u8"postprocess") (new_row (WPostprocess false) false) (outbox db)) db
                else db
    | None => db
    end.

Definition with_count (n : Z) (d : DocumentRow) : DocumentRow := {|
  d_attempt := d_attempt d; d_deleted := d_deleted d; d_parse_status := d_parse_status d;
  d_pending_subtasks_count := n; d_summary_status := d_summary_status d; d_enabled := d_enabled d;
  d_index_ready := d_index_ready d; d_active_generation := d_active_generation d;
  d_error_message := d_error_message d; d_updated_at := now; d_manual := d_manual d;
  d_source_passages := d_source_passages d |}.

Definition publish (attempt : Z) (d : DocumentRow) : DocumentRow := {|
  d_attempt := d_attempt d; d_deleted := d_deleted d; d_parse_status := PCompleted;
  d_pending_subtasks_count := d_pending_subtasks_count d; d_summary_status := d_summary_status d;
  d_enabled := true; d_index_ready := true; d_active_generation := attempt;
  d_error_message := d_error_message d; d_updated_at := now; d_manual := d_manual d;
  d_source_passages := d_source_passages d |}.

Definition summary_settled (s : SummaryStatus) : bool :=
  match s with SPending | SProcessing | SFailed => false | _ => true end.

(** The document is ready to be published. *)
Definition publishable (d : DocumentRow) : bool :=
  bool_decide (d_parse_status d = PFinalizing) && (d_pending_subtasks_count d =? 0)
  && summary_settled (d_summary_status d) && str_is_empty (default [] (d_error_message d)).

(** The counter is derived from the outbox, then the document published when it can be. *)
Definition settle_document (attempt : Z) (db : Db) : Db :=
  match document db with
  | Some d =>
    if d_attempt d =? attempt then
      let d := with_count (open_derived attempt (outbox db)) d in
      set_document (if publishable d then publish attempt d else d) db
    else db
  | None => db
  end.

Definition complete_tx (attempt : Z) (key : str) (db : Db) : Db * bool :=
  let before := document db in
  if bool_decide ((attempt, key) ∈ receipts db) then (db, false)
  else
    let db := set_receipts ({[(attempt, key)]} ∪ receipts db) db in
    let db := set_outbox (update_row (attempt, key) (fun row => set_error None (set_state OComplete row)) (outbox db)) db in
    let db := if starts_with key (u8"image:") then finish_images attempt db else db in
    let db := settle_document attempt db in
    (record_document_change before db, true).

Definition complete (attempt : Z) (key : str) (db : Db) : Db * bool :=
  if negb (lock_current attempt db) then (db, false) else complete_tx attempt key db.

Definition with_finalizing (count : Z) (summary : bool) (d : DocumentRow) : DocumentRow := {|
  d_attempt := d_attempt d; d_deleted := d_deleted d; d_parse_status := PFinalizing;
  d_pending_subtasks_count := count; d_summary_status := if summary then SPending else SNone;
  d_enabled := d_enabled d; d_index_ready := d_index_ready d; d_active_generation := d_active_generation d;
  d_error_message := d_error_message d; d_updated_at := now; d_manual := d_manual d;
  d_source_passages := d_source_passages d |}.

Definition begin_postprocess (attempt : Z) (work : list Work) (db : Db) : Db * bool :=
  let before := document db in
  if negb (lock_current attempt db) then (db, false)
  else
    match document db with
    | None => (db, false)
    | Some d =>
      if negb (bool_decide (d_parse_status d = PProcessing)) then (db, false)
      else
        let db := foldl (fun db w => put_tx attempt w db) db work in
        let summary := existsb is_summary work in
        let count := i32_wrap (Z.of_nat (length (List.filter derived work))) in
        let db := set_document (with_finalizing count summary d) db in
        let db := (complete_tx attempt (u8"postprocess") db).1 in
        (record_document_change before db, true)
    end.

(** [commit_chunks]: its effect on the document, the outbox and the receipts; [summary] is
    the summary status of the job ([None]: an error, nothing is written). *)
Definition with_summary (s : SummaryStatus) (d : DocumentRow) : DocumentRow := {|
  d_attempt := d_attempt d; d_deleted := d_deleted d; d_parse_status := d_parse_status d;
  d_pending_subtasks_count := d_pending_subtasks_count d; d_summary_status := s; d_enabled := d_enabled d;
  d_index_ready := d_index_ready d; d_active_generation := d_active_generation d;
  d_error_message := d_error_message d; d_updated_at := d_updated_at d; d_manual := d_manual d;
  d_source_passages := d_source_passages d |}.

Definition with_failure (error : str) (d : DocumentRow) : DocumentRow := {|
  d_attempt := d_attempt d; d_deleted := d_deleted d; d_parse_status := PFailed;
  d_pending_subtasks_count := d_pending_subtasks_count d; d_summary_status := d_summary_status d;
  d_enabled := d_enabled d; d_index_ready := d_index_ready d; d_active_generation := d_active_generation d;
  d_error_message := Some error; d_updated_at := d_updated_at d; d_manual := d_manual d;
  d_source_passages := d_source_passages d |}.

(** [UPDATE knowledge_documents ... WHERE id = $1 AND attempt = $2] *)
Definition update_document (attempt : Z) (f : DocumentRow -> DocumentRow) (db : Db) : Db :=
  match document db with
  | Some d => if d_attempt d =? attempt then set_document (f d) db else db
  | None => db
  end.

Definition commit_chunks (attempt : Z) (key : str) (summary : SummaryStatus) (is_complete : bool) (db : Db)
    : option (Db * bool) :=
  let before := document db in
  if negb (lock_current attempt db) then Some (db, false)
  else if bool_decide ((attempt, key) ∈ receipts db) then Some (db, false)
  else
    let is_summary := str_eqb key (u8"summary") in
    db ← (if is_summary then
            match summary with
            | SCompleted => Some (update_document attempt (with_summary SCompleted) db)
            | SFailed => Some (update_document attempt (with_summary SFailed) db)
            | _ => None
            end
          else Some db);
    let db := if is_complete then (complete_tx attempt key db).1 else db in
    let db := if is_summary && bool_decide (summary = SFailed)
              then update_document attempt (with_failure (u8"summary generation failed; retry required")) db
              else db in
    Some (record_document_change before db, true).

(** [commit_graph]: the graph rows are written when the receipt is fresh. *)
Definition commit_graph (attempt : Z) (key : str) (db : Db) : Db * bool :=
  if negb (lock_current attempt db) then (db, false) else complete_tx attempt key db.

(** ** Failure, status and generations *)

Definition is_failable (s : ParseStatus) : bool :=
  match s with PPending | PProcessing | PFinalizing | PFailed => true | _ => false end.

Definition with_status (s : ParseStatus) (error : str) (d : DocumentRow) : DocumentRow := {|
  d_attempt := d_attempt d; d_deleted := d_deleted d; d_parse_status := s;
  d_pending_subtasks_count := d_pending_subtasks_count d; d_summary_status := d_summary_status d;
  d_enabled := d_enabled d; d_index_ready := d_index_ready d; d_active_generation := d_active_generation d;
  d_error_message := Some error; d_updated_at := now; d_manual := d_manual d;
  d_source_passages := d_source_passages d |}.

Definition update_status (attempt : Z) (s : ParseStatus) (error : str) (db : Db) : Db :=
  let before := document db in
  let db := match document db with
            | Some d => if (d_attempt d =? attempt) && negb (d_deleted d) && is_failable (d_parse_status d)
                        then set_document (with_status s error d) db else db
            | None => db
            end in
  record_document_change before db.

Definition publish_empty (attempt : Z) (db : Db) : Db :=
  let before := document db in
  let db := match document db with
            | Some d => if (d_attempt d =? attempt) && bool_decide (d_parse_status d = PProcessing) && negb (d_deleted d)
                        then set_document (publish attempt d) db else db
            | None => db
            end in
  record_document_change before db.

Definition with_job_failure (error : str) (d : DocumentRow) : DocumentRow := {|
  d_attempt := d_attempt d; d_deleted := d_deleted d; d_parse_status := PFailed;
  d_pending_subtasks_count := d_pending_subtasks_count d;
  d_summary_status := match d_summary_status d with SPending | SProcessing => SFailed | s => s end;
  d_enabled := d_enabled d; d_index_ready := false; d_active_generation := d_active_generation d;
  d_error_message := Some error; d_updated_at := now; d_manual := d_manual d;
  d_source_passages := d_source_passages d |}.

Definition fail_job (attempt : Z) (key error : str) (db : Db) : Db :=
  let before := document db in
  match document db with
  | Some d =>
    if negb ((d_attempt d =? attempt) && negb (d_deleted d) && is_failable (d_parse_status d)) then db
    else
      let offered := match outbox db !! (attempt, key) with Some row => is_offered (o_state row) | None => false end in
      let db := if offered
                then update_document attempt (with_job_failure error)
                       (set_outbox (update_row (attempt, key) (fun row => set_error (Some error) (set_state OFailed row))
                                      (outbox db)) db)
                else db in
      record_document_change before db
  | None => db
  end.

(** A fresh generation; [None] is the overflow of the attempt number. *)
Definition next_attempt (d : DocumentRow) : option Z :=
  if d_attempt d <? 2147483647 then Some (d_attempt d + 1) else None.

Definition with_generation (attempt : Z) (summary : SummaryStatus) (d : DocumentRow) : DocumentRow := {|
  d_attempt := attempt; d_deleted := d_deleted d; d_parse_status := PPending; d_pending_subtasks_count := 0;
  d_summary_status := summary; d_enabled := false; d_index_ready := false;
  d_active_generation := d_active_generation d; d_error_message := Some []; d_updated_at := now;
  d_manual := d_manual d; d_source_passages := d_source_passages d |}.

(** [bump_document_attempt], which [retry_document] calls: [None] is an error, nothing is written. *)
Definition bump_document_attempt (db : Db) : option (Db * Z) :=
  d ← document db;
  if d_deleted d || match d_parse_status d with PDeleting | PDeleted => true | _ => false end then None
  else
    n ← next_attempt d;
    Some (record_document_change (Some d) (set_document (with_generation n (d_summary_status d) d) db), n).

(** The first part of [dispatch]: a conversion that timed out starts a new generation. *)
Definition recover_stale (stale_secs : Z) (db : Db) : option Db :=
  match document db with
  | Some d =>
    let converting := match outbox db !! (d_attempt d, u8"convert") with
                      | Some row => is_offered (o_state row)
                      | None => false
                      end in
    if bool_decide (d_parse_status d = PProcessing) && negb (d_deleted d) && (d_updated_at d <? now - stale_secs) && converting
    then
      n ← next_attempt d;
      Some (record_document_change (Some d) (set_document (with_generation n SNone d) db))
    else Some db
  | None => Some db
  end.

(** ** The status of the document outside [workflow.rs] *)

(** The flip to [processing] at the head of [ingest]: the whitelist of source states. *)
Definition start_conversion (attempt : Z) (db : Db) : Db * bool :=
  let before := document db in
  match document db with
  | Some d =>
    if (d_attempt d =? attempt) && negb (d_deleted d)
       && match d_parse_status d with PPending | PFailed => true | _ => false end
    then (record_document_change before (set_document (with_status PProcessing [] d) db), true)
    else (record_document_change before db, false)
  | None => (db, false)
  end.

(** [set_parse_status]: no condition but the identifier. *)
Definition set_parse_status (s : ParseStatus) (error : str) (db : Db) : Db :=
  let before := document db in
  let db := match document db with Some d => set_document (with_status s error d) db | None => db end in
  record_document_change before db.

(** [mark_reparse_queued]: [None] is an error, nothing is written. *)
Definition mark_reparse_queued (db : Db) : option (Db * Z) :=
  d ← document db;
  if d_deleted d || match d_parse_status d with PDeleting | PDeleted => true | _ => false end then None
  else
    n ← (if bool_decide (d_parse_status d = PPending) && negb (d_enabled d) then Some (d_attempt d) else next_attempt d);
    Some (record_document_change (Some d) (set_document (with_generation n (d_summary_status d) d) db), n).

Definition with_cancelled (d : DocumentRow) : DocumentRow := {|
  d_attempt := d_attempt d; d_deleted := d_deleted d; d_parse_status := PCancelled;
  d_pending_subtasks_count := d_pending_subtasks_count d; d_summary_status := d_summary_status d;
  d_enabled := d_enabled d; d_index_ready := d_index_ready d; d_active_generation := d_active_generation d;
  d_error_message := d_error_message d; d_updated_at := now; d_manual := d_manual d;
  d_source_passages := d_source_passages d |}.

(** [cancel_active_docs_for_versions], for a document of one of the versions. *)
Definition cancel_active (db : Db) : Db :=
  match document db with
  | Some d => if is_live (d_parse_status d) && negb (d_deleted d)
              then record_document_change (Some d) (set_document (with_cancelled d) db) else db
  | None => db
  end.

(** The last sign of life: the latest end or start of a span, or the update of the row. *)
Definition last_activity (db : Db) (d : DocumentRow) : Z :=
  default (d_updated_at d)
    (foldl (fun latest '(_, row) =>
       match coalesce (row_finished_at row) (row_started_at row), latest with
       | Some t, Some l => Some (Z.max l t)
       | Some t, None => Some t
       | None, _ => latest
       end) None (map_to_list (spans db))).

Definition with_housekeeping (message : str) (d : DocumentRow) : DocumentRow := {|
  d_attempt := d_attempt d; d_deleted := d_deleted d; d_parse_status := PFailed; d_pending_subtasks_count := 0;
  d_summary_status := d_summary_status d; d_enabled := d_enabled d; d_index_ready := d_index_ready d;
  d_active_generation := d_active_generation d; d_error_message := Some message; d_updated_at := now;
  d_manual := d_manual d; d_source_passages := d_source_passages d |}.

(** A span that the failed document leaves open. *)
Definition fail_open_span (attempt : Z) (k : Z * str) (row : SpanRow Value) : SpanRow Value :=
  if (k.1 =? attempt) && match row_status row with SpRunning | SpPending => true | _ => false end
  then {| row_span_id := row_span_id row; row_parent_span_id := row_parent_span_id row; row_kind := row_kind row;
          row_status := SpFailed; row_input := row_input row; row_output := row_output row;
          row_error_message := row_error_message row; row_started_at := row_started_at row;
          row_finished_at := Some (default now (row_finished_at row));
          row_duration_ms := Some (default 0 (row_duration_ms row)) |}
  else row.

(** [housekeep_documents]: a document without an offered row and without a sign of life fails. *)
Definition housekeep_document (stale_secs : N) (db : Db) : Db :=
  match document db with
  | Some d =>
    let offered := existsb (fun '(k, row) => (k.1 =? d_attempt d) && is_offered (o_state row)) (map_to_list (outbox db)) in
    if match d_parse_status d with PProcessing | PFinalizing => true | _ => false end && negb offered
       && (last_activity db d <? now - Z.of_N stale_secs)
    then
      let message := u8"task stuck in processing > " ++ decimal stale_secs ++ u8"s, recovered by housekeeping" in
      let db := record_document_change (Some d) (set_document (with_housekeeping message d) db) in
      set_spans (map_imap (fun k row => Some (fail_open_span (d_attempt d) k row)) (spans db)) db
    else db
  | None => db
  end.

(** The last transaction of [run_list_delete]; [owned]: the document still owns its object. *)
Definition with_deleted (owned : bool) (d : DocumentRow) : DocumentRow :=
  let deleting := bool_decide (d_parse_status d = PDeleting) in {|
  d_attempt := d_attempt d; d_deleted := true; d_parse_status := if deleting then PDeleted else d_parse_status d;
  d_pending_subtasks_count := d_pending_subtasks_count d; d_summary_status := d_summary_status d;
  d_enabled := d_enabled d; d_index_ready := d_index_ready d; d_active_generation := d_active_generation d;
  d_error_message := d_error_message d;
  d_updated_at := if deleting || negb (d_deleted d && negb owned) then now else d_updated_at d;
  d_manual := d_manual d; d_source_passages := d_source_passages d |}.

Definition finish_delete (owned : bool) (db : Db) : Db :=
  match document db with
  | Some d => record_document_change (Some d) (set_document (with_deleted owned d) db)
  | None => db
  end.

(** ** The end of a conversion: [after_index_fanout] *)

Definition lock_span_document (attempt : Z) (db : Db) : bool :=
  match document db with
  | Some d => (d_attempt d =? attempt) && negb (d_deleted d) && negb (is_aborted (d_parse_status d))
  | None => false
  end.

Definition with_time (d : DocumentRow) : DocumentRow := {|
  d_attempt := d_attempt d; d_deleted := d_deleted d; d_parse_status := d_parse_status d;
  d_pending_subtasks_count := d_pending_subtasks_count d; d_summary_status := d_summary_status d;
  d_enabled := d_enabled d; d_index_ready := d_index_ready d; d_active_generation := d_active_generation d;
  d_error_message := d_error_message d; d_updated_at := now; d_manual := d_manual d;
  d_source_passages := d_source_passages d |}.

(** A write to the spans of a live attempt, which is a sign of life of the document. *)
Definition write_spans (attempt : Z) (f : SpanTable Value -> SpanTable Value) (db : Db) : Db :=
  if lock_span_document attempt db
  then update_document attempt with_time (set_spans (f (spans db)) db)
  else db.

(** The images become work, and the conversion is over. *)
Definition fan_out_images (attempt : Z) (images : list str) (file_name : str) (db : Db) : Db :=
  if negb (lock_current attempt db) then db
  else
    let db := foldl (fun db key => put_tx attempt (WImage key file_name) db) db images in
    (complete_tx attempt (u8"convert") db).1.

(** Without images: texts are postprocessed, and a document without text is published. *)
Definition fan_out_text (attempt : Z) (text_count : nat) (db : Db) : Db :=
  if negb (lock_current attempt db) then db
  else
    let db := if (0 <? text_count)%nat then put_tx attempt (WPostprocess false) db else db in
    let before := document db in
    let db := if (text_count =? 0)%nat then update_document attempt (publish attempt) db else db in
    let db := record_document_change before db in
    (complete_tx attempt (u8"convert") db).1.

Definition after_index_fanout (new_id : N) (images_input : Value) (attempt : Z) (text_count : nat) (images : list str)
    (file_name : str) (db : Db) : Db :=
  if negb (lock_current attempt db) then db
  else
    match images with
    | [] => fan_out_text attempt text_count
              (write_spans attempt (skip_span (fun _ => true) now new_id attempt (u8"multimodal") (u8"no images")) db)
    | _ => fan_out_images attempt images file_name
             (write_spans attempt (start_span (fun _ => true) now new_id attempt (u8"multimodal")
                (Some (u8"document_processing")) (Some images_input)) db)
    end.

(** ** [dispatch]: the delivery of one row *)

(** The answer of [prepare_semantic_index_intent_v2], as far as [dispatch] tells it apart. *)
Inductive Preparation := PrepEnqueue | PrepPendingDerived | PrepSettled | PrepTerminal.

(** [UPDATE ... AND revision = $n]; [offered_only]: [AND state IN ('pending','published')]. *)
Definition update_fetched (k : Z * str) (revision : Z) (offered_only : bool) (f : OutboxRow -> OutboxRow) (db : Db) : Db :=
  set_outbox (update_row k (fun row =>
    if (o_revision row =? revision) && (negb offered_only || is_offered (o_state row)) then f row else row) (outbox db)) db.

Definition delivered (error : option str) (row : OutboxRow) : OutboxRow := {|
  o_payload := o_payload row; o_is_derived := o_is_derived row;
  o_state := match error with None => OPublished | Some _ => OPending end;
  o_deliveries := o_deliveries row + 1; o_revision := o_revision row;
  o_next_delivery_at := now + match error with None => 900 | Some _ => 60 end; o_last_error := error |}.

Definition postponed (row : OutboxRow) : OutboxRow := {|
  o_payload := o_payload row; o_is_derived := o_is_derived row; o_state := o_state row;
  o_deliveries := o_deliveries row; o_revision := o_revision row; o_next_delivery_at := now + 60;
  o_last_error := Some (u8"waiting for derived work") |}.

(** The answer of the queue: a receipt, no queue, or an error. *)
Definition queue_error (queued : result str bool) : option str :=
  match queued with Ok true => None | Ok false => Some (u8"queue unavailable") | Err e => Some e end.

(** One fetched row ([live]: is the product version active). *)
Definition deliver (max_attempts : Z) (live : bool) (prep : Preparation) (queued : result str bool)
    (k : Z * str) (row : OutboxRow) (db : Db) : Db :=
  let offer := update_fetched k (o_revision row) true (delivered (queue_error queued)) in
  if negb (is_reconcile (o_payload row)) then
    if max_attempts <=? o_deliveries row
    then fail_job k.1 k.2 (u8"outbox delivery retries exhausted; retry the document generation") db
    else offer db
  else if negb live then update_fetched k (o_revision row) false (set_state OComplete) db
  else
    match prep with
    | PrepEnqueue =>
      if max_attempts <=? o_deliveries row
      then update_fetched k (o_revision row) false
             (fun r => set_error (Some (u8"semantic delivery retries exhausted")) (set_state OFailed r)) db
      else offer db
    | PrepPendingDerived => update_fetched k (o_revision row) true postponed db
    | PrepSettled => update_fetched k (o_revision row) false (set_state OComplete) db
    | PrepTerminal =>
      update_fetched k (o_revision row) false
        (fun r => set_error (Some (u8"semantic index needs attention")) (set_state OFailed r)) db
    end.

(** Is the row among those a dispatch fetches. *)
Definition is_deliverable (k : Z * str) (row : OutboxRow) (db : Db) : bool :=
  is_offered (o_state row) && (o_next_delivery_at row <=? now)
  && (str_eqb k.2 (u8"reconcile")
      || match document db with
         | Some d => (d_attempt d =? k.1) && negb (d_deleted d)
                     && (is_live (d_parse_status d)
                         || (bool_decide (d_parse_status d = PFailed) && str_eqb k.2 (u8"convert")))
         | None => false
         end).

End workflow.
Arguments Db : clear implicits.
