(* ===== verification/WorkflowFacts.v ===== *)
(** * Facts about the workflow

    The outbox is seen through the keys of the derived work that is still open in an
    attempt; every transaction is described by what it does to this set, to the receipts
    and to the document. *)
From S2P Require Import Prelude RustStr Pipeline Workflow.
Open Scope Z_scope.
#[local] Arguments lit : simpl never.

(** ** The open derived work *)

Definition is_open (row : OutboxRow) : bool := o_is_derived row && negb (bool_decide (o_state row = OComplete)).

Definition open_at (o : gmap (Z * str) OutboxRow) (attempt : Z) (key : str) : Prop :=
  exists row, o !! (attempt, key) = Some row /\ is_open row = true.

Lemma open_derived_length o attempt keys : NoDup keys -> (forall k, open_at o attempt k <-> k ∈ keys) ->
  open_derived attempt o = Z.of_nat (length keys).
Proof.
  intros Hnd Hkeys. unfold open_derived. f_equal.
  set (f := fun '(k, row) => (k.1 =? attempt) && o_is_derived row && negb (bool_decide (o_state row = OComplete))).
  assert (Hp : map (fun kr => kr.1.2) (List.filter f (map_to_list o)) ≡ₚ keys).
  { apply NoDup_Permutation; [|done|].
    - assert (Hfst : NoDup (map fst (List.filter f (map_to_list o)))).
      { pose proof (NoDup_fst_map_to_list o) as H. revert H. generalize (map_to_list o). clear.
        induction l as [|[k row] l IH]; simpl; [done|]. intros [Hk Hl]%NoDup_cons.
        destruct (_ && _); simpl; [|by apply IH]. apply NoDup_cons. split; [|by apply IH].
        contradict Hk. apply list_elem_of_fmap in Hk as ([k' row'] & -> & Hin).
        apply list_elem_of_fmap. exists (k', row'). split; [done|].
        apply list_elem_of_In, filter_In in Hin as [Hin _]. by apply list_elem_of_In. }
      rewrite <- (List.map_map fst snd). revert Hfst.
      assert (Hall : forall kr, kr ∈ map fst (List.filter f (map_to_list o)) -> kr.1 = attempt).
      { intros kr ([k row] & -> & Hin)%list_elem_of_fmap. apply list_elem_of_In, filter_In in Hin as [_ Hf].
        unfold f in Hf. simpl. bool_to_prop. lia. }
      revert Hall. generalize (map fst (List.filter f (map_to_list o))). clear. intros l Hall Hnd.
      induction Hnd as [|[a k] l Hk _ IH]; simpl; [constructor|]. constructor; [|apply IH; set_solver].
      contradict Hk. apply list_elem_of_fmap in Hk as ([a' k'] & Heq & Hin). simpl in Heq. subst k'.
      assert (a = attempt) as -> by (apply (Hall (a, k)); left).
      assert (a' = attempt) as -> by (apply (Hall (a', k)); by right). done.
    - intros k. rewrite <- Hkeys. unfold open_at. split.
      + intros ([[a k'] row] & -> & Hin)%list_elem_of_fmap. apply list_elem_of_In, filter_In in Hin as [Hin Hf].
        apply list_elem_of_In, elem_of_map_to_list in Hin. exists row. unfold f in Hf. simpl in *.
        rewrite <- andb_assoc in Hf. apply andb_prop in Hf as [->%Z.eqb_eq Ho]. done.
      + intros (row & Hrow & Hopen). apply list_elem_of_fmap. exists ((attempt, k), row). split; [done|].
        apply list_elem_of_In, filter_In. split; [by apply list_elem_of_In, elem_of_map_to_list|].
        unfold f. simpl. by rewrite Z.eqb_refl. }
  by rewrite <- Hp, length_map.
Qed.

Section facts.
Context {Value : Type} (uuid_to_string : N -> str) (elapsed_ms : Z -> Z -> Z).
Implicit Types (db : Db Value) (o : gmap (Z * str) OutboxRow).

Notation work_key := (work_key uuid_to_string).

(** A row knows whether it is derived, and its key is the key of its work. *)
Definition rows_ok o : Prop := forall k row, o !! k = Some row ->
  o_is_derived row = derived (o_payload row) /\ k.2 = work_key (o_payload row).

Lemma prefix_neq (n : nat) (s t : str) : take n s <> take n t -> s <> t.
Proof. congruence. Qed.

Lemma reconcile_key w : work_key w = u8"reconcile" -> w = WReconcile.
Proof. destruct w; [..|done]; intros H; exfalso; apply (f_equal (take 3)) in H; vm_compute in H; discriminate. Qed.

(** *** One row *)

Lemma open_insert_row o k row attempt key : open_at (insert_row k row o) attempt key <->
  open_at o attempt key \/ (o !! k = None /\ k = (attempt, key) /\ is_open row = true).
Proof.
  unfold insert_row, open_at. destruct (o !! k) as [old|] eqn:E; [split; [by left|by intros [H|([=] & _)]]|].
  destruct (decide (k = (attempt, key))) as [->|Hk].
  - rewrite lookup_insert_eq, E. split.
    + intros (row' & [= <-] & H). by right.
    + intros [(row' & [=] & _)|(_ & _ & H)]. by exists row.
  - rewrite lookup_insert_ne by done. split; [by left|]. by intros [H|(_ & [=] & _)].
Qed.

Lemma open_update_row o k f attempt key : (forall row, is_open (f row) = false) ->
  open_at (update_row k f o) attempt key <-> open_at o attempt key /\ k <> (attempt, key).
Proof.
  intros Hf. unfold update_row, open_at. destruct (decide (k = (attempt, key))) as [->|Hk].
  - rewrite lookup_alter_eq. destruct (o !! (attempt, key)) as [row|]; simpl; split.
    + intros (row' & [= <-] & H). by rewrite Hf in H.
    + by intros [_ H].
    + by intros (row' & [=] & _).
    + by intros [_ H].
  - rewrite lookup_alter_ne by done. split; [by split|]. by intros [H _].
Qed.

Lemma rows_ok_insert o k row : rows_ok o -> o_is_derived row = derived (o_payload row) ->
  k.2 = work_key (o_payload row) -> rows_ok (insert_row k row o).
Proof.
  intros Ho H1 H2 k' row'. unfold insert_row. destruct (o !! k) eqn:E; [apply Ho|].
  rewrite lookup_insert_Some. intros [(<- & <-)|(_ & H)]; [done|by apply Ho].
Qed.

Lemma rows_ok_update o k f : rows_ok o ->
  (forall row, o_is_derived (f row) = o_is_derived row /\ o_payload (f row) = o_payload row) ->
  rows_ok (update_row k f o).
Proof.
  intros Ho Hf k' row'. unfold update_row. rewrite lookup_alter_Some.
  intros [(-> & row & Hrow & ->)|[_ Hrow]]; [|by apply Ho].
  destruct (Hf row) as [-> ->]. by apply Ho.
Qed.

Lemma not_open_reconcile o attempt : rows_ok o -> ~ open_at o attempt (u8"reconcile").
Proof.
  intros Ho (row & Hrow & Hopen). destruct (Ho _ _ Hrow) as [Hd Hk]. simpl in Hk.
  symmetry in Hk. apply reconcile_key in Hk. unfold is_open in Hopen. rewrite Hd, Hk in Hopen. done.
Qed.

Context (now : Z).

Lemma rows_ok_reconcile o attempt : rows_ok o -> rows_ok (offer_reconcile now attempt o).
Proof.
  intros Ho k row. unfold offer_reconcile. rewrite lookup_insert_Some. intros [[<- <-]|[_ Hrow]]; [|by apply Ho].
  destruct (o !! (attempt, u8"reconcile")) as [row0|] eqn:E; [|done]. cbn. by apply (Ho _ _ E).
Qed.

Lemma open_reconcile o a attempt key : rows_ok o ->
  open_at (offer_reconcile now a o) attempt key <-> open_at o attempt key.
Proof.
  intros Ho. destruct (decide ((a, u8"reconcile") = (attempt, key))) as [Heq|Hne].
  - injection Heq as <- <-. split; intros H; exfalso.
    + by apply (not_open_reconcile (offer_reconcile now a o) a); [apply rows_ok_reconcile|].
    + by apply (not_open_reconcile o a).
  - unfold open_at, offer_reconcile. by rewrite lookup_insert_ne.
Qed.

Lemma rows_ok_close o attempt terminal : rows_ok o -> rows_ok (close_work attempt terminal o).
Proof.
  intros Ho k row. unfold close_work. rewrite map_lookup_imap. intros (row0 & Hrow & [= <-])%bind_Some.
  destruct (_ && _); [apply (Ho _ _ Hrow)|by apply Ho].
Qed.

Lemma open_close o a terminal attempt key : open_at (close_work a terminal o) attempt key -> open_at o attempt key.
Proof.
  intros (row & Hrow & Hopen). unfold close_work in Hrow. rewrite map_lookup_imap in Hrow.
  apply bind_Some in Hrow as (row0 & Hrow & [= <-]). exists row0. split; [done|].
  destruct (_ && _); [|done]. unfold is_open in Hopen. cbn in Hopen.
  by rewrite bool_decide_eq_true_2, andb_false_r in Hopen.
Qed.

(** *** [record_document_change] *)

Lemma record_keeps before db :
  document (record_document_change now before db) = document db
  /\ receipts (record_document_change now before db) = receipts db
  /\ spans (record_document_change now before db) = spans db.
Proof. unfold record_document_change. destruct (document db) eqn:E; [|done]. cbn. by rewrite E. Qed.

Lemma rows_ok_record before db : rows_ok (outbox db) -> rows_ok (outbox (record_document_change now before db)).
Proof.
  intros Ho. unfold record_document_change. destruct (document db); [|done]. cbn.
  repeat match goal with |- context [if ?c then _ else _] => destruct c end;
    repeat first [apply rows_ok_insert; [|done|done] | apply rows_ok_close | apply rows_ok_reconcile]; done.
Qed.

(** It never opens derived work. *)
Lemma record_opens_nothing before db attempt key : rows_ok (outbox db) ->
  open_at (outbox (record_document_change now before db)) attempt key -> open_at (outbox db) attempt key.
Proof.
  intros Ho. unfold record_document_change. destruct (document db) as [d|]; [|done]. cbn.
  repeat match goal with |- context [if ?c then _ else _] => destruct c end; intros H;
    repeat first [ apply open_insert_row in H as [H|(_ & _ & H)]; [|discriminate H]
                 | apply open_close in H | apply open_reconcile in H; [|done] ]; done.
Qed.

(** Within a generation that is not removed it leaves the derived work as it was. *)
Lemma record_steady before db d old attempt key : rows_ok (outbox db) ->
  document db = Some d -> before = Some old -> d_attempt old = d_attempt d -> is_aborted (d_parse_status d) = false ->
  open_at (outbox (record_document_change now before db)) attempt key <-> open_at (outbox db) attempt key.
Proof.
  intros Ho Hd -> Hatt Hab. unfold record_document_change. rewrite Hd, Hatt, Z.eqb_refl, Hab. cbn.
  rewrite andb_false_r. destruct (negb _); [|done]. by apply open_reconcile.
Qed.

(** *** [complete_tx] *)

Lemma finish_images_spec attempt db : rows_ok (outbox db) ->
  let db' := finish_images elapsed_ms now attempt db in
  document db' = document db /\ receipts db' = receipts db /\ rows_ok (outbox db')
  /\ forall a k, open_at (outbox db') a k <-> open_at (outbox db) a k.
Proof.
  intros Ho. unfold finish_images. cbn zeta. destruct (open_images attempt (outbox db)); [done|].
  cbn [document set_spans]. destruct (document db) as [d|] eqn:Hd; [|done].
  destruct (d_attempt d =? attempt); cbn; [|done]. split; [done|]. split; [done|]. split.
  - by apply rows_ok_insert.
  - intros a k. rewrite open_insert_row. split; [|by left]. intros [H|(_ & _ & H)]; [done|discriminate H].
Qed.

(** The document after the receipt of a key, with [n] derived jobs left. *)
Definition settled (attempt : Z) (n : Z) (d : DocumentRow) : DocumentRow :=
  let d := with_count now n d in if publishable d then publish now attempt d else d.

Lemma complete_tx_spec attempt key db : rows_ok (outbox db) -> (attempt, key) ∉ receipts db ->
  exists db', complete_tx elapsed_ms now attempt key db = (db', true)
    /\ rows_ok (outbox db') /\ receipts db' = {[(attempt, key)]} ∪ receipts db
    /\ (forall a k, open_at (outbox db') a k -> open_at (outbox db) a k /\ (attempt, key) <> (a, k))
    /\ match document db with
       | None => document db' = None
       | Some d =>
         if d_attempt d =? attempt then
           exists o, (forall a k, open_at o a k <-> open_at (outbox db) a k /\ (attempt, key) <> (a, k))
             /\ document db' = Some (settled attempt (open_derived attempt o) d)
             /\ (is_aborted (d_parse_status d) = false ->
                 forall a k, open_at (outbox db') a k <-> open_at (outbox db) a k /\ (attempt, key) <> (a, k))
         else document db' = Some d
       end.
Proof.
  intros Ho Hfresh. unfold complete_tx. rewrite bool_decide_eq_false_2 by done.
  set (db1 := set_outbox _ (set_receipts _ db)).
  assert (H1 : document db1 = document db /\ receipts db1 = {[(attempt, key)]} ∪ receipts db
    /\ rows_ok (outbox db1)
    /\ forall a k, open_at (outbox db1) a k <-> open_at (outbox db) a k /\ (attempt, key) <> (a, k)).
  { split; [done|]. split; [done|]. split; cbn.
    - by apply rows_ok_update.
    - intros a k. apply open_update_row. intros row. unfold is_open. cbn. apply andb_false_r. }
  clearbody db1. destruct H1 as (Hd1 & Hr1 & Ho1 & Hopen1).
  set (db2 := if starts_with _ _ then _ else db1).
  assert (H2 : document db2 = document db /\ receipts db2 = {[(attempt, key)]} ∪ receipts db
    /\ rows_ok (outbox db2)
    /\ forall a k, open_at (outbox db2) a k <-> open_at (outbox db) a k /\ (attempt, key) <> (a, k)).
  { unfold db2. destruct (starts_with key (u8"image:")); [|done].
    destruct (finish_images_spec attempt db1 Ho1) as (-> & -> & Hok & Hsame). split_and!; [done..|].
    intros a k. by rewrite Hsame. }
  clearbody db2. clear dependent db1. destruct H2 as (Hd2 & Hr2 & Ho2 & Hopen2).
  set (db3 := settle_document now attempt db2).
  assert (Ho3 : outbox db3 = outbox db2 /\ receipts db3 = receipts db2).
  { unfold db3, settle_document. destruct (document db2); [|done]. by destruct (_ =? _). }
  destruct Ho3 as [Ho3 Hr3].
  destruct (record_keeps (document db) db3) as (Hdoc & Hrec & _).
  eexists. split; [done|]. split; [|split; [|split]].
  - apply rows_ok_record. by rewrite Ho3.
  - by rewrite Hrec, Hr3.
  - intros a k Hk. apply Hopen2. rewrite <- Ho3. by apply (record_opens_nothing (document db) db3); [rewrite Ho3|].
  - rewrite Hdoc. unfold db3, settle_document in *. rewrite Hd2 in *.
    destruct (document db) as [d|] eqn:Hd; [|done].
    destruct (Z.eqb_spec (d_attempt d) attempt) as [Hatt|]; [|done].
    exists (outbox db2). split; [done|]. split; [done|]. intros Hab a k. rewrite <- Hopen2.
    rewrite <- Ho3. eapply record_steady; [by rewrite Ho3|done|done| |].
    + by destruct (publishable _).
    + by destruct (publishable _).
Qed.

Lemma open_derived_zero o attempt : open_derived attempt o = 0 -> forall k, ~ open_at o attempt k.
Proof.
  unfold open_derived. intros Hz k (row & Hrow & Hopen).
  match type of Hz with Z.of_nat (length ?l) = 0 => assert (Hnil : l = []) by (apply nil_length_inv; lia) end.
  apply elem_of_map_to_list, list_elem_of_In in Hrow.
  match type of Hnil with List.filter ?f _ = [] => assert (Hin : In ((attempt, k), row) (List.filter f (map_to_list o))) end.
  { apply filter_In. split; [done|]. simpl. rewrite Z.eqb_refl. exact Hopen. }
  by rewrite Hnil in Hin.
Qed.

(** *** What a published document is *)

Definition published_ok (d : DocumentRow) o : Prop := d_parse_status d = PCompleted ->
  d_active_generation d = d_attempt d /\ d_index_ready d = true /\ forall k, ~ open_at o (d_attempt d) k.

Definition workflow_inv db : Prop :=
  rows_ok (outbox db) /\ forall d, document db = Some d -> published_ok d (outbox db).

Definition unpublished db : Prop := forall d, document db = Some d -> d_parse_status d <> PCompleted.

Lemma unpublished_inv db : rows_ok (outbox db) -> unpublished db -> workflow_inv db.
Proof. intros Ho Hu. split; [done|]. intros d Hd Hc. by destruct (Hu d Hd). Qed.

Lemma record_inv before db : workflow_inv db -> workflow_inv (record_document_change now before db).
Proof.
  intros [Ho Hp]. destruct (record_keeps before db) as (Hd & _). split; [by apply rows_ok_record|].
  intros d. rewrite Hd. intros Hdoc Hc. destruct (Hp d Hdoc Hc) as (H1 & H2 & H3). split; [done|]. split; [done|].
  intros k Hk. eapply H3. by eapply record_opens_nothing.
Qed.

Lemma complete_tx_inv attempt key db : workflow_inv db -> workflow_inv (complete_tx elapsed_ms now attempt key db).1.
Proof.
  intros [Ho Hp]. destruct (decide ((attempt, key) ∈ receipts db)) as [Hin|Hfresh].
  { unfold complete_tx. by rewrite bool_decide_eq_true_2. }
  destruct (complete_tx_spec attempt key db Ho Hfresh) as (db' & -> & Ho' & _ & Hopen & Hdoc). cbn [fst].
  split; [done|]. intros d' Hd' Hc. destruct (document db) as [d|] eqn:Hd; [|congruence].
  assert (forall k, open_at (outbox db') (d_attempt d) k -> open_at (outbox db) (d_attempt d) k) as Hold
    by by intros k [Hk _]%Hopen.
  destruct (Z.eqb_spec (d_attempt d) attempt) as [Hatt|].
  - destruct Hdoc as (o & Ho1 & Hdoc & _). rewrite Hdoc in Hd'. injection Hd' as <-.
    unfold settled in Hc |- *. destruct (publishable _) eqn:Hpub.
    + cbn. split; [done|]. split; [done|]. intros k Hk. rewrite Hatt in Hk. unfold publishable in Hpub. bool_to_prop.
      match goal with H : d_pending_subtasks_count _ = 0 |- _ => cbn in H; apply (open_derived_zero _ _ H k) end.
      apply Ho1. by apply Hopen.
    + destruct (Hp d eq_refl Hc) as (H1 & H2 & H3). split; [exact H1|]. split; [exact H2|]. intros k Hk. by apply (H3 k), Hold.
  - rewrite Hdoc in Hd'. injection Hd' as <-. destruct (Hp d eq_refl Hc) as (H1 & H2 & H3). split_and!; [done..|].
    intros k Hk. by apply (H3 k), Hold.
Qed.

Lemma locked_unpublished attempt db : lock_current attempt db = true -> unpublished db.
Proof. unfold lock_current. intros H d Hd Hc. rewrite Hd, Hc in H. by rewrite andb_false_r in H. Qed.

Lemma complete_inv attempt key db : workflow_inv db -> workflow_inv (complete elapsed_ms now attempt key db).1.
Proof.
  intros Hi. unfold complete. destruct (lock_current attempt db) eqn:E; [|done]. cbn.
  by apply complete_tx_inv.
Qed.

Lemma put_inv attempt w db : workflow_inv db -> workflow_inv (put uuid_to_string now attempt w db).
Proof.
  intros [Ho Hp]. unfold put. destruct (lock_current attempt db) eqn:E; [|done].
  apply unpublished_inv; [by apply rows_ok_insert|]. by eapply locked_unpublished.
Qed.

Lemma put_all_rows_ok attempt work : forall db, rows_ok (outbox db) ->
  let db' := foldl (fun db w => put_tx uuid_to_string now attempt w db) db work in
  rows_ok (outbox db') /\ document db' = document db /\ receipts db' = receipts db.
Proof.
  induction work as [|w work IH]; intros db Ho; cbn; [done|].
  destruct (IH (put_tx uuid_to_string now attempt w db)) as (H1 & H2 & H3); [by apply rows_ok_insert|]. done.
Qed.

Lemma begin_postprocess_inv attempt work db : workflow_inv db ->
  workflow_inv (begin_postprocess uuid_to_string elapsed_ms now attempt work db).1.
Proof.
  intros Hi. unfold begin_postprocess. destruct (lock_current attempt db); [|done]. cbn [negb].
  destruct (document db) as [d|]; [|done]. destruct (bool_decide _); [|done]. cbn [negb fst].
  apply record_inv, complete_tx_inv, unpublished_inv; [|by intros d' [= <-]].
  by apply put_all_rows_ok, Hi.
Qed.

Lemma update_document_unpublished attempt f db : (forall d, d_parse_status (f d) = PCompleted -> d_parse_status d = PCompleted) ->
  unpublished db -> unpublished (update_document attempt f db).
Proof.
  intros Hf Hu. unfold update_document. destruct (document db) as [d|] eqn:E; [|done].
  destruct (_ =? _); [|done]. intros d' [= <-] Hc. by apply (Hu d), Hf.
Qed.

Lemma update_document_outbox attempt f db : outbox (update_document attempt f db) = outbox db
  /\ receipts (update_document attempt f db) = receipts db.
Proof. unfold update_document. destruct (document db); [|done]. by destruct (_ =? _). Qed.

Lemma commit_chunks_inv attempt key summary is_complete db db' r : workflow_inv db ->
  commit_chunks elapsed_ms now attempt key summary is_complete db = Some (db', r) -> workflow_inv db'.
Proof.
  intros Hi. unfold commit_chunks. destruct (lock_current attempt db) eqn:E; cbn [negb]; [|by intros [= <- <-]].
  destruct (bool_decide _); [by intros [= <- <-]|].
  intros (db1 & Hdb1 & [= <- <-])%bind_Some. apply record_inv.
  assert (H1 : rows_ok (outbox db1) /\ unpublished db1).
  { assert (Hu : unpublished db) by by eapply locked_unpublished.
    destruct (str_eqb key (u8"summary")); [|injection Hdb1 as <-; by split; [apply Hi|]].
    destruct summary; try done; injection Hdb1 as <-;
      (split; [rewrite (proj1 (update_document_outbox _ _ _)); apply Hi|by apply update_document_unpublished]). }
  destruct H1 as [Ho1 Hu1].
  set (db2 := if is_complete then (complete_tx elapsed_ms now attempt key db1).1 else db1).
  assert (Hi2 : workflow_inv db2) by (unfold db2; destruct is_complete; [by apply complete_tx_inv, unpublished_inv|by apply unpublished_inv]).
  clearbody db2. destruct (_ && _); [|done]. destruct Hi2 as [Ho2 Hp2].
  split; [by rewrite (proj1 (update_document_outbox _ _ _))|].
  unfold update_document. destruct (document db2) as [d|] eqn:Hd; [|by rewrite Hd].
  destruct (d_attempt d =? attempt); [by intros d' [= <-] Hc|]. rewrite Hd. intros d' [= <-]. by apply Hp2.
Qed.

(** A row updated without opening work. *)
Lemma update_row_inv k f db : workflow_inv db ->
  (forall row, o_is_derived (f row) = o_is_derived row /\ o_payload (f row) = o_payload row) ->
  (forall row, outbox db !! k = Some row -> is_open (f row) = true -> is_open row = true) ->
  workflow_inv (set_outbox (update_row k f (outbox db)) db).
Proof.
  intros [Ho Hp] Hf Hopen. split; [by apply rows_ok_update|]. intros d Hd Hc.
  destruct (Hp d Hd Hc) as (H1 & H2 & H3). split; [done|]. split; [done|]. intros key (row & Hrow & Hr).
  apply (H3 key). cbn in Hrow. unfold update_row in Hrow. apply lookup_alter_Some in Hrow as [(-> & row0 & Hrow & ->)|[_ Hrow]].
  - exists row0. split; [done|]. by apply Hopen.
  - by exists row.
Qed.

Lemma fail_job_inv attempt key error db : workflow_inv db -> workflow_inv (fail_job now attempt key error db).
Proof.
  intros Hi. unfold fail_job. destruct (document db) as [d|] eqn:Hd; [|done].
  destruct (_ && is_failable _) eqn:Hf; cbn [negb]; [|done].
  apply record_inv. destruct (match outbox db !! _ with Some _ => _ | None => _ end); [|done].
  apply unpublished_inv.
  - rewrite (proj1 (update_document_outbox _ _ _)). cbn. apply rows_ok_update; [apply Hi|done].
  - unfold update_document. cbn [document set_outbox]. rewrite Hd. bool_to_prop.
    destruct (d_attempt d =? attempt) eqn:Ea; [by intros d' [= <-]|bool_to_prop; congruence].
Qed.

Lemma deliver_inv max_attempts live prep queued k row db : workflow_inv db -> outbox db !! k = Some row ->
  workflow_inv (deliver now max_attempts live prep queued k row db).
Proof.
  intros Hi Hrow.
  assert (Hoffer : workflow_inv (update_fetched k (o_revision row) true (delivered now (queue_error queued)) db)).
  { apply update_row_inv; [done|intros r; by destruct (_ && _)|]. intros r _. destruct (_ && _) eqn:E; [|done].
    cbn in E. apply andb_prop in E as [_ E]. unfold is_open. destruct (o_state r), (queue_error queued); try done; cbn;
      by rewrite andb_true_r. }
  assert (Hreconcile : is_reconcile (o_payload row) = true -> forall only f,
    (forall r, o_is_derived (f r) = o_is_derived r /\ o_payload (f r) = o_payload r) ->
    workflow_inv (update_fetched k (o_revision row) only f db)).
  { intros Hr only f Hf. apply update_row_inv; [done|intros r; by destruct (_ && _)|].
    rewrite Hrow. intros r [= <-]. destruct Hi as [Ho _]. destruct (Ho _ _ Hrow) as [Hd _].
    assert (o_is_derived row = false) as Hnd by (rewrite Hd; by destruct (o_payload row)).
    destruct (_ && _); [|done]. unfold is_open. rewrite (proj1 (Hf row)), Hnd. done. }
  unfold deliver. destruct (is_reconcile (o_payload row)) eqn:Er; cbn [negb].
  - specialize (Hreconcile eq_refl). destruct live; [|by apply Hreconcile].
    destruct prep; try (by apply Hreconcile). destruct (_ <=? _); [by apply Hreconcile|done].
  - destruct (_ <=? _); [by apply fail_job_inv|done].
Qed.

(** *** The status outside the workflow *)

Lemma set_document_inv d db : workflow_inv db -> d_parse_status d <> PCompleted -> workflow_inv (set_document d db).
Proof. intros [Ho _] Hs. apply unpublished_inv; [done|]. by intros d' [= <-]. Qed.

(** A change of the columns that do not tell whether a document is published. *)
Lemma set_document_same d d' db : workflow_inv db -> document db = Some d ->
  d_parse_status d' = PCompleted -> d_parse_status d = PCompleted -> d_attempt d' = d_attempt d ->
  d_active_generation d' = d_active_generation d -> d_index_ready d' = d_index_ready d -> workflow_inv (set_document d' db).
Proof.
  intros [Ho Hp] Hd Hs' Hs Ha Hg Hr. split; [done|]. intros d2 [= <-] _. rewrite Ha, Hg, Hr. by apply Hp.
Qed.

Lemma set_spans_inv s db : workflow_inv db -> workflow_inv (set_spans s db).
Proof. done. Qed.

Lemma write_spans_inv attempt f db : workflow_inv db -> workflow_inv (write_spans now attempt f db).
Proof.
  intros Hi. unfold write_spans. destruct (lock_span_document attempt db); [|done].
  unfold update_document. cbn [document set_spans]. destruct (document db) as [d|] eqn:Hd; [|by apply set_spans_inv].
  destruct (_ =? _); [|by apply set_spans_inv]. destruct (decide (d_parse_status d = PCompleted)).
  - by apply (set_document_same d).
  - by apply set_document_inv.
Qed.

Lemma start_conversion_inv attempt db : workflow_inv db -> workflow_inv (start_conversion now attempt db).1.
Proof.
  intros Hi. unfold start_conversion. destruct (document db) as [d|]; [|done].
  destruct (_ && _); cbn [fst]; apply record_inv; [by apply set_document_inv|done].
Qed.

Lemma set_parse_status_inv s error db : s <> PCompleted -> workflow_inv db -> workflow_inv (set_parse_status now s error db).
Proof. intros Hs Hi. apply record_inv. destruct (document db) as [d|]; [by apply set_document_inv|done]. Qed.

Lemma mark_reparse_inv db db' n : mark_reparse_queued now db = Some (db', n) -> workflow_inv db -> workflow_inv db'.
Proof.
  intros (d & Hd & H)%bind_Some Hi. destruct (_ || _); [done|]. apply bind_Some in H as (n' & _ & [= <- <-]).
  by apply record_inv, set_document_inv.
Qed.

Lemma cancel_active_inv db : workflow_inv db -> workflow_inv (cancel_active now db).
Proof.
  intros Hi. unfold cancel_active. destruct (document db) as [d|]; [|done]. destruct (_ && _); [|done].
  by apply record_inv, set_document_inv.
Qed.

Lemma housekeep_inv secs db : workflow_inv db -> workflow_inv (housekeep_document now secs db).
Proof.
  intros Hi. unfold housekeep_document. destruct (document db) as [d|]; [|done]. destruct (_ && _); [|done].
  by apply set_spans_inv, record_inv, set_document_inv.
Qed.

Lemma finish_delete_inv owned db : workflow_inv db -> workflow_inv (finish_delete now owned db).
Proof.
  intros Hi. unfold finish_delete. destruct (document db) as [d|] eqn:Hd; [|done]. apply record_inv.
  destruct (decide (d_parse_status (with_deleted now owned d) = PCompleted)) as [Hc|Hc]; [|by apply set_document_inv].
  apply (set_document_same d); try done. cbn in Hc. by case_bool_decide.
Qed.

Lemma fan_out_images_inv attempt images file_name db : workflow_inv db ->
  workflow_inv (fan_out_images uuid_to_string elapsed_ms now attempt images file_name db).
Proof.
  intros Hi. unfold fan_out_images. destruct (lock_current attempt db) eqn:E; [|done]. cbn [negb].
  apply complete_tx_inv. apply locked_unpublished in E. revert db Hi E.
  induction images as [|key images IH]; intros db Hi E; [done|]. cbn [foldl]. apply IH; [|exact E].
  destruct Hi as [Ho _]. apply unpublished_inv; [by apply rows_ok_insert|exact E].
Qed.

(** *** The publication of a document without text *)

(** The document of the attempt is published, whatever work is open. *)
Definition published_as (attempt : Z) db : Prop :=
  rows_ok (outbox db) /\ exists d, document db = Some d /\ d_attempt d = attempt /\ d_parse_status d = PCompleted
    /\ d_active_generation d = attempt /\ d_index_ready d = true.

Lemma record_published attempt before db : published_as attempt db -> published_as attempt (record_document_change now before db).
Proof.
  intros (Ho & d & Hd & H). destruct (record_keeps before db) as (Hd' & _). split; [by apply rows_ok_record|].
  exists d. by rewrite Hd'.
Qed.

Lemma complete_tx_published attempt key db : published_as attempt db ->
  published_as attempt (complete_tx elapsed_ms now attempt key db).1.
Proof.
  intros (Ho & d & Hd & Ha & Hc & Hg & Hr). destruct (decide ((attempt, key) ∈ receipts db)) as [Hin|Hfresh].
  { unfold complete_tx. rewrite bool_decide_eq_true_2 by done. split; [done|]. by exists d. }
  destruct (complete_tx_spec attempt key db Ho Hfresh) as (db' & -> & Ho' & _ & _ & Hdoc). cbn [fst].
  rewrite Hd, Ha, Z.eqb_refl in Hdoc. destruct Hdoc as (o & _ & Hdoc & _). split; [done|]. eexists. split; [exact Hdoc|].
  unfold settled, publishable. cbn [d_parse_status with_count]. rewrite Hc. done.
Qed.

(** It is published whatever is open; without open work it is finished. *)
Lemma publish_split attempt db d : workflow_inv db -> document db = Some d -> d_attempt d = attempt ->
  published_as attempt (set_document (publish now attempt d) db)
  /\ ((forall k, ~ open_at (outbox db) attempt k) -> workflow_inv (set_document (publish now attempt d) db)).
Proof.
  intros [Ho _] Hd <-. split; [split; [done|]; by eexists|]. intros Hnone. split; [done|]. intros d' [= <-] _. done.
Qed.

Lemma open_or_not o attempt : rows_ok o -> (forall k, ~ open_at o attempt k) \/ exists k, open_at o attempt k.
Proof.
  intros _. unfold open_at.
  destruct (decide (Exists (fun '(k, row) => k.1 = attempt /\ is_open row = true) (map_to_list o))) as [H|H].
  - right. apply Exists_exists in H as ([[a k] row] & Hin%elem_of_map_to_list & [<- Hr]). by exists k, row.
  - left. intros k (row & Hrow & Hr). apply H, Exists_exists. exists ((attempt, k), row). split; [|done].
    by apply elem_of_map_to_list.
Qed.

(** A transaction that keeps the invariant, or publishes over open work. *)
Definition sound_or_emptied (attempt : Z) db db' : Prop :=
  workflow_inv db' \/ ((exists k, open_at (outbox db) attempt k) /\ published_as attempt db').

Lemma publish_empty_cases attempt db : workflow_inv db -> sound_or_emptied attempt db (publish_empty now attempt db).
Proof.
  intros Hi. unfold publish_empty. destruct (document db) as [d|] eqn:Hd; [|left; by apply record_inv].
  destruct (_ && _) eqn:E; [|left; by apply record_inv]. bool_to_prop.
  destruct (publish_split attempt db d Hi Hd ltac:(done)) as [Hp Hn]. destruct (open_or_not (outbox db) attempt) as [Hno|Hop]; [apply Hi| |].
  - left. by apply record_inv, Hn.
  - right. split; [done|]. by apply record_published.
Qed.

Lemma fan_out_text_cases attempt n db : workflow_inv db ->
  sound_or_emptied attempt db (fan_out_text uuid_to_string elapsed_ms now attempt n db).
Proof.
  intros Hi. pose proof Hi as [Ho _]. unfold fan_out_text. destruct (lock_current attempt db) eqn:E; [|by left]. cbn [negb].
  destruct n as [|n]; cbn [Nat.eqb Nat.ltb Nat.leb].
  - unfold update_document. destruct (document db) as [d|] eqn:Hd; [|by unfold lock_current in E; rewrite Hd in E].
    destruct (Z.eqb_spec (d_attempt d) attempt) as [Ha|Ha]; [|left; by apply complete_tx_inv, record_inv].
    destruct (publish_split attempt db d Hi Hd Ha) as [Hp Hn]. destruct (open_or_not (outbox db) attempt) as [Hno|Hop]; [apply Hi| |].
    + left. by apply complete_tx_inv, record_inv, Hn.
    + right. split; [done|]. by apply complete_tx_published, record_published.
  - left. apply complete_tx_inv, record_inv, unpublished_inv; [by apply rows_ok_insert|].
    by apply (locked_unpublished attempt) in E.
Qed.
End facts.

(** ** Reachable states *)

Section reachable.
Context {Value : Type} (uuid_to_string : N -> str) (elapsed_ms : Z -> Z -> Z).
Implicit Types db : Db Value.

(** One transaction at some time: those of the workflow, of the conversion, of the catalog and of
    the deletion.  [update_status] and [set_parse_status] are called with these statuses only;
    [publish_empty] is public, and its callers are tests; [write_spans] stands for every write of
    spans; [deliver] works on a row that a dispatch fetched.  The setters of the catalog that only
    tests call ([try_set_processing], [set_finalizing], [set_document_progress], [set_index_ready],
    [set_summary_status]) are not transactions of the program. *)
Inductive transaction : Db Value -> Db Value -> Prop :=
| t_put now attempt w db : transaction db (put uuid_to_string now attempt w db)
| t_complete now attempt key db : transaction db (complete elapsed_ms now attempt key db).1
| t_begin now attempt work db : transaction db (begin_postprocess uuid_to_string elapsed_ms now attempt work db).1
| t_commit now attempt key summary is_complete db db' r :
    commit_chunks elapsed_ms now attempt key summary is_complete db = Some (db', r) -> transaction db db'
| t_graph now attempt key db : transaction db (commit_graph elapsed_ms now attempt key db).1
| t_status now attempt error db : transaction db (update_status now attempt PFailed error db)
| t_empty now attempt db : transaction db (publish_empty now attempt db)
| t_fail now attempt key error db : transaction db (fail_job now attempt key error db)
| t_bump now db db' n : bump_document_attempt now db = Some (db', n) -> transaction db db'
| t_recover now secs db db' : recover_stale now secs db = Some db' -> transaction db db'
| t_deliver now max_attempts live prep queued k row db :
    outbox db !! k = Some row -> is_deliverable now k row db = true ->
    transaction db (deliver now max_attempts live prep queued k row db)
| t_start now attempt db : transaction db (start_conversion now attempt db).1
| t_images now attempt images file_name db :
    transaction db (fan_out_images uuid_to_string elapsed_ms now attempt images file_name db)
| t_text now attempt text_count db : transaction db (fan_out_text uuid_to_string elapsed_ms now attempt text_count db)
| t_spans now attempt f db : transaction db (write_spans now attempt f db)
| t_reparse now db db' n : mark_reparse_queued now db = Some (db', n) -> transaction db db'
| t_remove now db : transaction db (set_parse_status now PDeleting [] db)
| t_cancel now db : transaction db (set_parse_status now PCancelled [] db)
| t_cancel_active now db : transaction db (cancel_active now db)
| t_housekeep now secs db : transaction db (housekeep_document now secs db)
| t_delete now owned db : transaction db (finish_delete now owned db).

(** The two transactions that publish a document in which no text was found. *)
Inductive empty_publication (attempt : Z) : Db Value -> Db Value -> Prop :=
| ep_text now db : empty_publication attempt db (fan_out_text uuid_to_string elapsed_ms now attempt 0 db)
| ep_empty now db : empty_publication attempt db (publish_empty now attempt db).

(** A document that was just added. *)
Definition initial db : Prop :=
  outbox db = ∅ /\ exists d, document db = Some d /\ d_parse_status d = PPending.

Notation inv := (workflow_inv uuid_to_string).

Lemma new_generation_inv now before d n s db : inv db -> document db = Some d ->
  inv (record_document_change now before (set_document (with_generation now n s d) db)).
Proof. intros [Ho _] Hd. apply record_inv, unpublished_inv; [done|]. by intros d' [= <-]. Qed.

(** A transaction keeps the invariant, or is an empty publication over open work. *)
Lemma transaction_inv db db' : transaction db db' -> inv db ->
  inv db' \/ exists attempt, empty_publication attempt db db' /\ (exists k, open_at (outbox db) attempt k)
               /\ published_as uuid_to_string attempt db'.
Proof.
  destruct 1 as [now a w db|now a key db|now a work db|now a key s c db db' r Hc|now a key db|now a e db
    |now a db|now a key e db|now db db' n Hb|now secs db db' Hr|now m live prep q k row db Hrow Hdel|now a db
    |now a images name db|now a n db|now a f db|now db db' n Hb|now db|now db|now db|now secs db|now owned db]; intros Hi.
  - left. by apply put_inv.
  - left. by apply complete_inv.
  - left. by apply begin_postprocess_inv.
  - left. by eapply commit_chunks_inv.
  - left. by apply complete_inv.
  - left. apply record_inv. destruct (document db) as [d|] eqn:Hd; [|done]. destruct (_ && _); [|done]. by apply set_document_inv.
  - destruct (publish_empty_cases uuid_to_string now a db Hi) as [H|[H1 H2]]; [by left|]. right. exists a. split; [constructor|done].
  - left. by apply fail_job_inv.
  - left. unfold bump_document_attempt in Hb. apply bind_Some in Hb as (d & Hd & Hb).
    destruct (_ || _); [done|]. apply bind_Some in Hb as (n' & _ & [= <- <-]). by apply new_generation_inv.
  - left. unfold recover_stale in Hr. destruct (document db) as [d|] eqn:Hd; [|by injection Hr as <-].
    destruct (_ && _); [|by injection Hr as <-]. apply bind_Some in Hr as (n' & _ & [= <-]).
    by apply new_generation_inv.
  - left. by apply deliver_inv.
  - left. by apply start_conversion_inv.
  - left. by apply fan_out_images_inv.
  - destruct (fan_out_text_cases uuid_to_string elapsed_ms now a n db Hi) as [H|[H1 H2]]; [by left|]. destruct n as [|n].
    + right. exists a. split; [constructor|done].
    + left. destruct Hi as [Ho Hp]. unfold fan_out_text in *. cbn [Nat.eqb Nat.ltb Nat.leb] in *. destruct (lock_current a db) eqn:E; [|done]. cbn [negb].
      apply complete_tx_inv, record_inv, unpublished_inv; [by apply rows_ok_insert|]. by apply (locked_unpublished a) in E.
  - left. by apply write_spans_inv.
  - left. by eapply mark_reparse_inv.
  - left. by apply set_parse_status_inv.
  - left. by apply set_parse_status_inv.
  - left. by apply cancel_active_inv.
  - left. by apply housekeep_inv.
  - left. by apply finish_delete_inv.
Qed.

(** A published document stays published until a transaction takes the status away. *)
Lemma published_unlocked a attempt db : published_as uuid_to_string a db -> lock_current attempt db = false.
Proof. intros (_ & d & Hd & _ & Hc & _). unfold lock_current. rewrite Hd, Hc. apply andb_false_r. Qed.

Lemma set_document_published a d d' db : published_as uuid_to_string a db -> document db = Some d ->
  d_attempt d' = d_attempt d -> d_active_generation d' = d_active_generation d -> d_index_ready d' = d_index_ready d ->
  d_parse_status d' = d_parse_status d -> published_as uuid_to_string a (set_document d' db).
Proof.
  intros (Ho & d0 & Hd0 & Ha & Hc & Hg & Hr) Hd E1 E2 E3 E4. rewrite Hd in Hd0. injection Hd0 as <-. split; [done|].
  exists d'. rewrite E1, E2, E3, E4. done.
Qed.

Lemma set_document_fallen d db : rows_ok uuid_to_string (outbox db) -> d_parse_status d <> PCompleted -> inv (set_document d db).
Proof. intros Ho Hs. apply unpublished_inv; [done|]. by intros d' [= <-]. Qed.

Lemma transaction_published a db db' : transaction db db' -> published_as uuid_to_string a db ->
  published_as uuid_to_string a db' \/ inv db'.
Proof.
  intros Ht Hp. assert (forall attempt, lock_current attempt db = false) as Hlock by (intros; by eapply published_unlocked).
  pose proof Hp as (Ho & d & Hd & Ha & Hc & Hg & Hr).
  destruct Ht as [now a' w db|now a' key db|now a' work db|now a' key s c db db' r Hcommit|now a' key db|now a' e db
    |now a' db|now a' key e db|now db db' n Hb|now secs db db' Hrec|now m live prep q k row db Hrow Hdel|now a' db
    |now a' images name db|now a' n db|now a' f db|now db db' n Hb|now db|now db|now db|now secs db|now owned db].
  - left. unfold put. by rewrite Hlock.
  - left. unfold complete. by rewrite Hlock.
  - left. unfold begin_postprocess. by rewrite Hlock.
  - left. unfold commit_chunks in Hcommit. rewrite Hlock in Hcommit. by injection Hcommit as <- _.
  - left. unfold commit_graph. by rewrite Hlock.
  - left. unfold update_status. rewrite Hd, Hc, andb_false_r. by apply record_published.
  - left. unfold publish_empty. rewrite Hd, Hc, bool_decide_eq_false_2, andb_false_r by done. by apply record_published.
  - left. unfold fail_job. by rewrite Hd, Hc, andb_false_r.
  - right. unfold bump_document_attempt in Hb. rewrite Hd in Hb. cbn [mbind option_bind] in Hb. destruct (_ || _); [done|].
    apply bind_Some in Hb as (n' & _ & [= <- <-]). by apply record_inv, set_document_fallen.
  - left. unfold recover_stale in Hrec. rewrite Hd, Hc, bool_decide_eq_false_2 in Hrec by done. by injection Hrec as <-.
  - left. assert (forall only f, (forall r, o_is_derived (f r) = o_is_derived r /\ o_payload (f r) = o_payload r) ->
      published_as uuid_to_string a (update_fetched k (o_revision row) only f db)) as Hf.
    { intros only f Hf. split; [|by exists d]. apply rows_ok_update; [done|]. intros r. by destruct (_ && _). }
    unfold deliver. destruct (is_reconcile _); cbn [negb].
    + destruct live; [|by apply Hf]. destruct prep; try by apply Hf. destruct (_ <=? _); by apply Hf.
    + destruct (_ <=? _); [|by apply Hf]. unfold fail_job. by rewrite Hd, Hc, andb_false_r.
  - left. unfold start_conversion. rewrite Hd, Hc, andb_false_r. by apply record_published.
  - left. unfold fan_out_images. by rewrite Hlock.
  - left. unfold fan_out_text. by rewrite Hlock.
  - left. unfold write_spans. destruct (lock_span_document _ _); [|done]. unfold update_document. cbn [document set_spans].
    rewrite Hd. destruct (_ =? _); [|done]. by apply (set_document_published a d).
  - right. unfold mark_reparse_queued in Hb. rewrite Hd in Hb. cbn [mbind option_bind] in Hb. destruct (_ || _); [done|].
    apply bind_Some in Hb as (n' & _ & [= <- <-]). by apply record_inv, set_document_fallen.
  - right. unfold set_parse_status. rewrite Hd. by apply record_inv, set_document_fallen.
  - right. unfold set_parse_status. rewrite Hd. by apply record_inv, set_document_fallen.
  - left. unfold cancel_active. by rewrite Hd, Hc.
  - left. unfold housekeep_document. by rewrite Hd, Hc.
  - left. unfold finish_delete. rewrite Hd. apply record_published, (set_document_published a d); try done.
    cbn. by rewrite bool_decide_eq_false_2 by by rewrite Hc.
Qed.

(** [after_index_fanout] is two transactions of the relation. *)
Lemma after_index_fanout_steps now new_id input attempt n images file_name db :
  rtc transaction db (after_index_fanout uuid_to_string elapsed_ms now new_id input attempt n images file_name db).
Proof.
  unfold after_index_fanout. destruct (lock_current attempt db); [|apply rtc_refl]. cbn [negb].
  destruct images; (eapply rtc_l; [apply t_spans|apply rtc_once; constructor]).
Qed.

(** The publication of a document without text, over work of its generation that was open. *)
Definition emptied db0 db (attempt : Z) : Prop :=
  exists db1 db2, rtc transaction db0 db1 /\ (exists key, open_at (outbox db1) attempt key)
    /\ empty_publication attempt db1 db2 /\ rtc transaction db2 db.

Lemma reachable_cases db0 db : initial db0 -> rtc transaction db0 db ->
  inv db \/ exists attempt, published_as uuid_to_string attempt db /\ emptied db0 db attempt.
Proof.
  intros (Hempty & d0 & Hd0 & Hs0). revert db. apply rtc_ind_r.
  { left. apply unpublished_inv; [intros k row; by rewrite Hempty|]. intros d' Hd'. congruence. }
  intros db db' Hreach Ht [Hi|(a & Hp & db1 & db2 & H1 & H2 & H3 & H4)].
  - destruct (transaction_inv _ _ Ht Hi) as [H|(a & He & Ho & Hp)]; [by left|]. right. exists a. split; [done|].
    exists db, db'. by repeat split.
  - destruct (transaction_published a _ _ Ht Hp) as [H|H]; [|by left]. right. exists a. split; [done|].
    exists db1, db2. split_and!; try done. by eapply rtc_r.
Qed.


(** Jobs of the attempt are dead: the document is gone, of another attempt, deleted, or its status
    is final or aborted. *)
Definition dead (attempt : Z) db : Prop := forall d, document db = Some d ->
  d_attempt d <> attempt \/ d_deleted d = true
  \/ (d_parse_status d <> PPending /\ d_parse_status d <> PProcessing /\ d_parse_status d <> PFinalizing).

Lemma lock_current_exact attempt db : lock_current attempt db = false <-> dead attempt db.
Proof.
  unfold lock_current, dead. destruct (document db) as [d|]; [|by split]. split.
  - intros H d' [= <-]. destruct (Z.eqb_spec (d_attempt d) attempt); [|by left]. right.
    destruct (d_deleted d); [by left|right]. cbn in H. by destruct (d_parse_status d).
  - intros H. destruct (H d eq_refl) as [Hn|[->|(H1 & H2 & H3)]].
    + by rewrite (proj2 (Z.eqb_neq _ _) Hn).
    + by rewrite andb_false_r.
    + destruct (d_parse_status d); try done; by rewrite andb_false_r.
Qed.

Lemma complete_tx_receipt now attempt key db : let '(db1, fresh) := complete_tx elapsed_ms now attempt key db in
  (attempt, key) ∈ receipts db1 /\ (fresh = true <-> (attempt, key) ∉ receipts db) /\ (fresh = false -> db1 = db).
Proof.
  unfold complete_tx. destruct (bool_decide _) eqn:Hin; [apply bool_decide_eq_true in Hin; by split|].
  apply bool_decide_eq_false in Hin. split; [|by split].
  match goal with |- _ ∈ receipts (record_document_change _ ?b ?x) => destruct (record_keeps now b x) as (_ & -> & _) end.
  match goal with |- _ ∈ receipts (settle_document _ _ ?x) => set (y := x) end.
  assert (receipts (settle_document now attempt y) = receipts y) as ->.
  { unfold settle_document. destruct (document y); [|done]. by destruct (_ =? _). }
  unfold y. destruct (starts_with _ _); [|cbn; set_solver].
  unfold finish_images. destruct (open_images _ _); [cbn; set_solver|].
  cbn. destruct (document db); [|cbn; set_solver]. destruct (_ =? _); cbn; set_solver.
Qed.

End reachable.

(** ** Every derived job leads to the published document *)

Lemma filter_in_iff {A} (P1 P2 : A -> Prop) `{!forall x, Decision (P1 x), !forall x, Decision (P2 x)} (l : list A) :
  (forall x, x ∈ l -> P1 x <-> P2 x) -> filter P1 l = filter P2 l.
Proof.
  induction l as [|x l IH]; intros Hiff; [done|]. rewrite !filter_cons, IH by set_solver.
  destruct (decide (P1 x)) as [H1|H1], (decide (P2 x)) as [H2|H2]; try done; exfalso;
    [apply H2, (Hiff x) | apply H1, (Hiff x)]; done || left.
Qed.

Section finalizing.
Context {Value : Type} (uuid_to_string : N -> str) (elapsed_ms : Z -> Z -> Z).
Implicit Types db : Db Value.
Context (attempt : Z) (keys : list str) (Hkeys : NoDup keys).

Notation SUMMARY := (u8"summary").

(** The jobs of the generation that are not done. *)
Definition left_of (done : list str) : list str := filter (fun k => k ∉ done) keys.

(** The document while the jobs in [left] are missing. *)
Definition doc_progress (left : list str) (d : DocumentRow) : Prop :=
  d_attempt d = attempt /\ d_deleted d = false
  /\ match left with
     | [] => d_parse_status d = PCompleted /\ d_active_generation d = attempt /\ d_index_ready d = true /\ d_enabled d = true
     | _ => d_parse_status d = PFinalizing /\ d_pending_subtasks_count d = Z.of_nat (length left)
            /\ default [] (d_error_message d) = []
            /\ (SUMMARY ∉ left -> summary_settled (d_summary_status d) = true)
     end.

Record progress (done : list str) db : Prop := {
  pg_rows : rows_ok uuid_to_string (outbox db);
  pg_open : forall k, open_at (outbox db) attempt k <-> k ∈ keys /\ k ∉ done;
  pg_receipts : forall k, k ∈ keys -> (attempt, k) ∈ receipts db <-> k ∈ done;
  pg_doc : exists d, document db = Some d /\ doc_progress (left_of done) d;
}.

Lemma left_of_nil done : left_of done = [] <-> forall k, k ∈ keys -> k ∈ done.
Proof.
  unfold left_of. split.
  - intros Hl k Hk. destruct (decide (k ∈ done)) as [|Hn]; [done|].
    assert (k ∈ filter (fun k => k ∉ done) keys) as H by by apply list_elem_of_filter.
    rewrite Hl in H. by apply not_elem_of_nil in H.
  - intros H. destruct (filter (fun k => k ∉ done) keys) as [|k l] eqn:E; [done|]. exfalso.
    assert (k ∈ filter (fun k => k ∉ done) keys) as [Hn Hk]%list_elem_of_filter by (rewrite E; left).
    by apply Hn, H.
Qed.

(** A job that is done already, or is not among the keys, changes nothing. *)
Lemma progress_same key done db : key ∈ done \/ key ∉ keys \/ left_of done = [] ->
  progress done db -> progress (key :: done) db.
Proof.
  intros Hcase [Ho Hopen Hrec Hdoc].
  assert (Hin : forall k, k ∈ keys -> k ∈ done <-> k ∈ key :: done).
  { intros k Hk. rewrite elem_of_cons. split; [by right|]. intros [->|H]; [|done].
    destruct Hcase as [H|[H|H]]; [done|done|]. by rewrite left_of_nil in H; apply H. }
  split; [done| | |].
  - intros k. rewrite Hopen. specialize (Hin k). clear -Hin. tauto.
  - intros k Hk. by rewrite Hrec, Hin.
  - destruct Hdoc as (d & Hd & Hp). exists d. split; [done|].
    unfold left_of. rewrite (filter_in_iff _ (fun k => k ∉ done)); [done|]. intros k Hk. by rewrite Hin.
Qed.

Lemma doc_progress_live left d : doc_progress left d -> is_aborted (d_parse_status d) = false.
Proof. intros (_ & _ & H). destruct left; destruct H as (-> & _); done. Qed.

Lemma progress_record now before done db old : before = Some old -> d_attempt old = attempt ->
  progress done db -> progress done (record_document_change now before db).
Proof.
  intros -> Hold [Ho Hopen Hrec (d & Hd & Hp)].
  destruct (record_keeps now (Some old) db) as (Hd' & Hr' & _). split.
  - by apply rows_ok_record.
  - intros k. rewrite <- Hopen. destruct (Hp) as [Ha _].
    apply (record_steady uuid_to_string now _ _ d old); [done|done|done|congruence|by eapply doc_progress_live].
  - intros k Hk. rewrite Hr'. by apply Hrec.
  - exists d. by rewrite Hd'.
Qed.

(** The receipt of a fresh key. *)
Lemma settle_step now key db d done :
  rows_ok uuid_to_string (outbox db) ->
  (forall k, open_at (outbox db) attempt k <-> k ∈ keys /\ k ∉ done) ->
  (forall k, k ∈ keys -> (attempt, k) ∈ receipts db <-> k ∈ done) ->
  document db = Some d -> d_attempt d = attempt -> d_deleted d = false -> d_parse_status d = PFinalizing ->
  default [] (d_error_message d) = [] ->
  (SUMMARY ∉ left_of (key :: done) -> summary_settled (d_summary_status d) = true) ->
  (attempt, key) ∉ receipts db ->
  progress (key :: done) (complete_tx elapsed_ms now attempt key db).1.
Proof.
  intros Ho Hopen Hrec Hd Ha Hdel Hst Herr Hsum Hfresh.
  destruct (complete_tx_spec uuid_to_string elapsed_ms now attempt key db Ho Hfresh)
    as (db' & -> & Ho' & Hrec' & _ & Hdoc). cbn [fst].
  rewrite Hd, Ha, Z.eqb_refl in Hdoc. destruct Hdoc as (o & Hoo & Hd' & Hsteady).
  assert (Hleft : forall k, k ∈ left_of (key :: done) <-> (k ∈ keys /\ k ∉ done) /\ (attempt, key) <> (attempt, k)).
  { intros k. unfold left_of. rewrite list_elem_of_filter, not_elem_of_cons. naive_solver congruence. }
  assert (Hn : open_derived attempt o = Z.of_nat (length (left_of (key :: done)))).
  { apply open_derived_length; [by apply NoDup_filter|]. intros k. by rewrite Hoo, Hopen, Hleft. }
  split; [done| | |].
  - intros k. rewrite Hsteady by by rewrite Hst. rewrite Hopen, <- Hleft. unfold left_of.
    rewrite list_elem_of_filter. naive_solver.
  - intros k Hk. rewrite Hrec', elem_of_union, elem_of_singleton, Hrec, elem_of_cons by done. naive_solver congruence.
  - eexists. split; [exact Hd'|]. unfold settled. rewrite Hn.
    destruct (left_of (key :: done)) as [|k0 l] eqn:El.
    + assert (publishable (with_count now (Z.of_nat (length ([] : list str))) d) = true) as ->; [|done].
      unfold publishable. cbn. rewrite Hst, Herr, Hsum by (apply not_elem_of_nil). done.
    + assert (publishable (with_count now (Z.of_nat (length (k0 :: l))) d) = false) as ->; [|done].
      unfold publishable. cbn. by rewrite andb_false_r.
Qed.

(** The end of a job: a summary is committed with its chunks, another job completed. *)
Definition finish_job (now : Z) (key : str) (db : Db Value) : Db Value :=
  if str_eqb key SUMMARY then
    match commit_chunks elapsed_ms now attempt key SCompleted true db with Some (db', _) => db' | None => db end
  else (complete elapsed_ms now attempt key db).1.

Lemma finish_job_progress now key done db : progress done db -> progress (key :: done) (finish_job now key db).
Proof.
  intros Hp. pose proof Hp as [Ho Hopen Hrec (d & Hd & Ha & Hdel & Hst)].
  destruct (left_of done) as [|k0 l] eqn:El.
  { assert (Hlock : lock_current attempt db = false).
    { unfold lock_current. rewrite Hd. destruct Hst as (-> & _). cbn. by rewrite andb_false_r. }
    assert (finish_job now key db = db) as ->.
    { unfold finish_job, commit_chunks, complete. rewrite Hlock. cbn. by destruct (str_eqb _ _). }
    apply progress_same; auto. }
  destruct Hst as (Hst & Hcount & Herr & Hsum).
  assert (Hlock : lock_current attempt db = true).
  { unfold lock_current. by rewrite Hd, Ha, Hdel, Hst, Z.eqb_refl. }
  unfold finish_job, commit_chunks, complete. rewrite Hlock. cbn [negb].
  destruct (decide ((attempt, key) ∈ receipts db)) as [Hin|Hfresh].
  { assert (Hcase : key ∈ done \/ key ∉ keys \/ left_of done = []).
    { destruct (decide (key ∈ keys)); [left; by apply Hrec|auto]. }
    unfold complete_tx. rewrite bool_decide_eq_true_2 by done.
    destruct (str_eqb key SUMMARY); by apply progress_same. }
  rewrite (bool_decide_eq_false_2 _ Hfresh).
  destruct (str_eqb key SUMMARY) eqn:Ek; cbn [mbind option_bind andb bool_decide].
  - rewrite (bool_decide_eq_false_2 (SCompleted = SFailed)) by done.
    apply (progress_record _ _ _ _ d); [done|done|].
    unfold update_document. rewrite Hd, Ha, Z.eqb_refl.
    by apply (settle_step _ _ _ (with_summary SCompleted d)).
  - apply (settle_step _ _ _ d); try done. intros Hs. apply Hsum. intros Hin. apply Hs.
    rewrite <- El in Hin. unfold left_of in *. rewrite list_elem_of_filter, not_elem_of_cons in *.
    destruct Hin as [H1 H2]. split; [|done]. split; [|done]. intros <-.
    by rewrite (bool_decide_eq_true_2 _ eq_refl : str_eqb SUMMARY SUMMARY = true) in Ek.
Qed.

Lemma finish_jobs_progress events : forall seen db, progress seen db ->
  progress (rev (map snd events) ++ seen) (foldl (fun db e => finish_job e.1 e.2 db) db events).
Proof.
  induction events as [|[now key] events IH]; intros seen db Hp; [done|].
  simpl. rewrite <- app_assoc. apply (IH (key :: seen)). by apply finish_job_progress.
Qed.
End finalizing.

Section finalized.
Context {Value : Type} (uuid_to_string : N -> str) (elapsed_ms : Z -> Z -> Z).
Implicit Types db : Db Value.
Notation work_key := (work_key uuid_to_string).

(** The first letter of a key tells whether the work is derived. *)
Lemma derived_by_key w : derived w = existsb (Z.eqb (default 0 (head (work_key w)))) [115; 100; 113; 101; 119].
Proof. destruct w; vm_compute; reflexivity. Qed.

Lemma derived_key_neq w w' : derived w <> derived w' -> work_key w <> work_key w'.
Proof. intros Hd Hk. apply Hd. by rewrite (derived_by_key w), (derived_by_key w'), Hk. Qed.

Definition derived_keys (work : list Work) : list str := map work_key (List.filter derived work).

Lemma derived_keys_spec work k : k ∈ derived_keys work <-> exists w, w ∈ work /\ derived w = true /\ k = work_key w.
Proof.
  unfold derived_keys. rewrite list_elem_of_fmap. setoid_rewrite list_elem_of_In. setoid_rewrite filter_In.
  naive_solver.
Qed.

Lemma postprocess_not_derived work : u8"postprocess" ∉ derived_keys work.
Proof.
  rewrite derived_keys_spec. intros (w & _ & Hd & Hk).
  by apply (derived_key_neq (WPostprocess false) w); [rewrite Hd|].
Qed.

(** Putting fresh work opens exactly its derived keys. *)
Lemma put_all_open now attempt work : forall db, NoDup (derived_keys work) ->
  (forall k, k ∈ derived_keys work -> outbox db !! (attempt, k) = None) ->
  forall k, open_at (outbox (foldl (fun db w => put_tx uuid_to_string now attempt w db) db work)) attempt k
            <-> open_at (outbox db) attempt k \/ k ∈ derived_keys work.
Proof.
  induction work as [|w work IH]; intros db Hnd Hnone k; cbn [foldl].
  { split; [by left|]. intros [H|H]; [done|]. by apply not_elem_of_nil in H. }
  assert (Hw : derived_keys (w :: work) = (if derived w then [work_key w] else []) ++ derived_keys work).
  { unfold derived_keys. cbn. by destruct (derived w). }
  rewrite Hw in *. apply NoDup_app in Hnd as (_ & Hnew & Hnd).
  rewrite IH; [|done|].
  - unfold put_tx. cbn [outbox set_outbox]. rewrite open_insert_row, elem_of_app.
    assert (Hrow : is_open (new_row now w (derived w)) = derived w) by (unfold is_open; cbn; by rewrite andb_true_r).
    rewrite Hrow. destruct (derived w).
    + rewrite list_elem_of_singleton. split; [intros [[H|(_ & [= ->] & _)]|H]; auto|].
      intros [H|[->|H]]; auto. left. right. split; [|done]. apply Hnone. set_solver.
    + split; [intros [[H|(_ & _ & H)]|H]; auto; done|]. intros [H|[H|H]]; auto. by apply not_elem_of_nil in H.
  - intros k' Hk'. unfold put_tx. cbn [outbox set_outbox]. unfold insert_row.
    destruct (outbox db !! (attempt, work_key w)) eqn:E; [apply Hnone; set_solver|].
    rewrite lookup_insert_ne; [apply Hnone; set_solver|]. intros [= <-].
    destruct (derived w) eqn:Hd; [by apply (Hnew (work_key w)); [left|]|].
    apply derived_keys_spec in Hk' as (w' & _ & Hd' & Heq).
    by apply (derived_key_neq w w'); [congruence|].
Qed.

(** What a document's processing has to have left when its finalization begins. *)
Record ready (attempt : Z) (work : list Work) db (d : DocumentRow) : Prop := {
  rd_rows : rows_ok uuid_to_string (outbox db);
  rd_document : document db = Some d;
  rd_attempt : d_attempt d = attempt;
  rd_deleted : d_deleted d = false;
  rd_status : d_parse_status d = PProcessing;
  rd_error : default [] (d_error_message d) = [];
  rd_keys : NoDup (derived_keys work);
  rd_closed : forall k, ~ open_at (outbox db) attempt k;
  rd_fresh : forall k, k ∈ derived_keys work -> outbox db !! (attempt, k) = None /\ (attempt, k) ∉ receipts db;
  rd_postprocess : (attempt, u8"postprocess") ∉ receipts db;
}.

Lemma begin_postprocess_progress now attempt work db d : ready attempt work db d ->
  progress uuid_to_string attempt (derived_keys work) [u8"postprocess"]
    (begin_postprocess uuid_to_string elapsed_ms now attempt work db).1.
Proof.
  intros [Ho Hd Ha Hdel Hst Herr Hnd Hclosed Hfresh Hpp].
  unfold begin_postprocess, lock_current. rewrite Hd, Ha, Hdel, Hst, Z.eqb_refl. cbn [negb andb is_live].
  rewrite bool_decide_eq_true_2 by done. cbn [negb fst].
  destruct (put_all_rows_ok uuid_to_string now attempt work db Ho) as (Ho1 & Hd1 & Hr1).
  pose proof (put_all_open now attempt work db Hnd (fun k Hk => proj1 (Hfresh k Hk))) as Hopen1.
  set (db1 := foldl _ db work) in *. clearbody db1.
  apply (progress_record _ _ _ _ _ _ _ d); [done|done|].
  eapply (settle_step uuid_to_string elapsed_ms attempt _ Hnd now _ _ (with_finalizing now _ _ d) []).
  - done.
  - intros k. cbn. rewrite Hopen1. split; [intros [H|H]; [by apply Hclosed in H|split; [done|apply not_elem_of_nil]]|].
    intros [H _]. by right.
  - intros k Hk. cbn. rewrite Hr1. split; [intros H; by apply Hfresh in Hk as [_ Hk]|by intros ?%not_elem_of_nil].
  - done.
  - done.
  - done.
  - done.
  - done.
  - intros Hs. cbn. destruct (existsb is_summary work) eqn:E; [|done]. exfalso. apply Hs.
    apply existsb_exists in E as (w & Hw & E). destruct w; try done.
    unfold left_of. rewrite list_elem_of_filter. split.
    + rewrite list_elem_of_singleton. intros H. apply (f_equal (take 1)) in H. vm_compute in H. discriminate.
    + apply derived_keys_spec. exists WSummary. split; [by apply list_elem_of_In|done].
  - cbn. by rewrite Hr1.
Qed.

(** C14: once the postprocess of a generation has put its derived work, the document is
    published exactly when every derived job has ended, in whatever order the ends come,
    however often and whatever else ends between; until then it is finalizing and its
    counter is the number of jobs that are missing. *)
Theorem finished_jobs_publish now attempt work db d events :
  ready attempt work db d ->
  let db' := foldl (fun db e => finish_job elapsed_ms attempt e.1 e.2 db)
               (begin_postprocess uuid_to_string elapsed_ms now attempt work db).1 events in
  let missing := filter (fun k => k ∉ map snd events) (derived_keys work) in
  exists d', document db' = Some d' /\ d_attempt d' = attempt
    /\ (missing = [] -> d_parse_status d' = PCompleted /\ d_active_generation d' = attempt
                        /\ d_index_ready d' = true /\ d_enabled d' = true)
    /\ (missing <> [] -> d_parse_status d' = PFinalizing
                         /\ d_pending_subtasks_count d' = Z.of_nat (length missing)).
Proof.
  intros Hready db' missing.
  pose proof (begin_postprocess_progress now attempt work db d Hready) as Hp.
  destruct Hready as [_ _ _ _ _ _ Hnd _ _ _].
  apply (finish_jobs_progress uuid_to_string elapsed_ms attempt _ Hnd events) in Hp.
  destruct Hp as [_ _ _ (d' & Hd' & Ha & _ & Hst)]. exists d'. split; [exact Hd'|]. split; [done|].
  assert (left_of (derived_keys work) (rev (map snd events) ++ [u8"postprocess"]) = missing) as Hl.
  { apply filter_in_iff. intros k Hk. rewrite <- Permutation_rev, not_elem_of_app, list_elem_of_singleton.
    split; [by intros [H _]|]. intros H. split; [done|]. intros ->. by apply (postprocess_not_derived work). }
  rewrite Hl in Hst. clearbody missing.
  destruct missing as [|k l]; split; intros Hm; [exact Hst|done|done|]. by destruct Hst as (? & ? & _).
Qed.
End finalized.

(** ** Examples *)

(** A document in its first generation. *)
Definition demo_document (s : ParseStatus) : DocumentRow := {|
  d_attempt := 1; d_deleted := false; d_parse_status := s; d_pending_subtasks_count := 0;
  d_summary_status := SNone; d_enabled := false; d_index_ready := false; d_active_generation := 0;
  d_error_message := None; d_updated_at := 0; d_manual := false; d_source_passages := None |}.

Definition demo_db (s : ParseStatus) : Db unit :=
  {| document := Some (demo_document s); outbox := ∅; receipts := ∅; spans := ∅ |}.

Definition demo_work : list Work := [WSummary; WExtract 7; WQuestions [7%N] [None] [None] 0].

Definition demo_events : list (Z * str) :=
  [(3, u8"questions:0"); (4, u8"extract:7"); (4, u8"extract:7"); (5, u8"image:x"); (6, u8"summary")].

Lemma demo_ready : ready decimal 1 demo_work (demo_db PProcessing) (demo_document PProcessing).
Proof.
  split; try reflexivity.
  - intros k row H. change (outbox (demo_db PProcessing)) with (∅ : gmap (Z * str) OutboxRow) in H. by rewrite lookup_empty in H.
  - apply (bool_decide_unpack _). vm_compute. exact I.
  - intros k (row & H & _). change (outbox (demo_db PProcessing)) with (∅ : gmap (Z * str) OutboxRow) in H. by rewrite lookup_empty in H.
  - intros k _. split; [apply lookup_empty|apply not_elem_of_empty].
  - apply not_elem_of_empty.
Qed.

Lemma finished_jobs_publish_witness :
  ready decimal 1 demo_work (demo_db PProcessing) (demo_document PProcessing)
  /\ filter (fun k => k ∉ map snd demo_events) (derived_keys decimal demo_work) = []
  /\ exists d', document (foldl (fun db e => finish_job Z.sub 1 e.1 e.2 db)
               (begin_postprocess decimal Z.sub 2 1 demo_work (demo_db PProcessing)).1 demo_events) = Some d'
     /\ d_parse_status d' = PCompleted.
Proof.
  split; [apply demo_ready|]. split; [vm_compute; reflexivity|].
  destruct (finished_jobs_publish decimal Z.sub 2 1 demo_work (demo_db PProcessing) (demo_document PProcessing)
    demo_events demo_ready) as (d' & Hd' & _ & Hdone & _).
  exists d'. split; [exact Hd'|]. apply Hdone. vm_compute. reflexivity.
Defined.

(** The document's way from its upload to its publication. *)
Definition demo_finalizing : Db unit :=
  (begin_postprocess decimal Z.sub 2 1 demo_work (start_conversion 1 1 (demo_db PPending)).1).1.

Definition demo_published : Db unit :=
  (commit_graph Z.sub 5 1 (u8"extract:7") (complete Z.sub 4 1 (u8"questions:0")
    (default demo_finalizing (option_map fst (commit_chunks Z.sub 3 1 (u8"summary") SCompleted true demo_finalizing)))).1).1.

Lemma demo_reachable : rtc (transaction decimal Z.sub) (demo_db PPending) demo_published.
Proof.
  eapply rtc_l; [apply (t_start _ _ 1 1)|].
  eapply rtc_l; [apply (t_begin _ _ 2 1 demo_work)|].
  eapply rtc_l.
  { eapply (t_commit _ _ 3 1 (u8"summary") SCompleted true) with (r := true). vm_compute. reflexivity. }
  eapply rtc_l; [apply (t_complete _ _ 4 1 (u8"questions:0"))|].
  eapply rtc_l; [apply (t_graph _ _ 5 1 (u8"extract:7"))|].
  match goal with |- rtc _ ?x ?y => assert (x = y) as -> by (vm_compute; reflexivity) end. apply rtc_refl.
Qed.

(** A second conversion of the generation, after the summary failed, finds no text: the document
    is published while a derived job is open. *)
Definition demo_emptied : Db unit :=
  fan_out_text decimal Z.sub 7 1 0 (start_conversion 6 1
    (default demo_finalizing (option_map fst (commit_chunks Z.sub 3 1 (u8"summary") SFailed true demo_finalizing)))).1.

Lemma demo_emptied_reachable : rtc (transaction decimal Z.sub) (demo_db PPending) demo_emptied.
Proof.
  eapply rtc_l; [apply (t_start _ _ 1 1)|].
  eapply rtc_l; [apply (t_begin _ _ 2 1 demo_work)|].
  eapply rtc_l.
  { eapply (t_commit _ _ 3 1 (u8"summary") SFailed true) with (r := true). vm_compute. reflexivity. }
  eapply rtc_l; [apply (t_start _ _ 6 1)|].
  eapply rtc_l; [apply (t_text _ _ 7 1 0)|].
  match goal with |- rtc _ ?x ?y => assert (x = y) as -> by (vm_compute; reflexivity) end. apply rtc_refl.
Qed.

Lemma emptied_document_unfinished :
  option_map (fun d => (d_parse_status d, d_attempt d, d_pending_subtasks_count d)) (document demo_emptied) = Some (PCompleted, 1, 2)
  /\ option_map o_state (outbox demo_emptied !! (1, u8"extract:7")) = Some OPending.
Proof. split; vm_compute; reflexivity. Qed.

