(* ===== verification/Process.v ===== *)
(** * Process configuration

    [process.rs]: the overrides of an upload merged with the product version
    ([resolve_process_config]), the merge written back ([apply_to]), and the choice of the
    parser engine; and [apply_chunking_overrides] of [ingest.rs], which merges the chunking
    part a second time. *)
From S2P Require Import Prelude RustStr.
Open Scope nat_scope.

Record ParserEngineRule := { file_types : list str; engine : str }.

Record ChunkingOverride := {
  co_chunk_size : option nat; co_chunk_overlap : option nat; co_strategy : option str;
  co_enable_parent_child : bool; co_parent_chunk_size : option nat; co_child_chunk_size : option nat;
  co_separators : list str; co_token_limit : option nat; co_languages : list str;
  co_parser_engine_rules : list ParserEngineRule; co_table_metadata_instructions : str;
}.

Record ExtractOverride := { ex_enabled : bool; ex_text : str }.

Record QuestionOverride := {
  q_enabled : option bool; q_question_count : option nat; q_custom_instructions : option str;
}.

Record AsrOverride := { asr_enabled_override : option bool }.

Record ProcessOverrides := {
  o_parser_engine_rules : list ParserEngineRule; o_chunking_config : option ChunkingOverride;
  o_enable_multimodel : option bool; o_graph_enabled : option bool; o_extract_config : option ExtractOverride;
  o_question_generation_config : option QuestionOverride; o_asr_config : option AsrOverride;
  o_parser_engine_overrides : gmap (list Z) str;
}.

Definition is_nil {A} (l : list A) : bool := match l with [] => true | _ => false end.
Definition is_none {A} (o : option A) : bool := match o with None => true | _ => false end.

(** [ProcessOverrides::is_empty] *)
Definition overrides_is_empty (o : ProcessOverrides) : bool :=
  is_nil (o_parser_engine_rules o) && is_none (o_chunking_config o) && is_none (o_enable_multimodel o)
  && is_none (o_graph_enabled o) && is_none (o_extract_config o) && is_none (o_question_generation_config o)
  && is_none (o_asr_config o) && bool_decide (o_parser_engine_overrides o = ∅).

(** The processing settings: the fields of [EffectiveProcessConfig], which the product
    version carries under the same names. *)
Record EffectiveProcessConfig := {
  chunk_size : nat; chunk_overlap : nat; chunk_strategy : str; enable_parent_child : bool;
  parent_chunk_size : nat; child_chunk_size : nat; chunk_separators : list str; chunk_token_limit : nat;
  chunk_languages : list str; parser_engine_rules : list ParserEngineRule; table_metadata_instructions : str;
  enable_multimodel : bool; graph_enabled : bool; extract_enabled : bool; extract_custom_instructions : str;
  question_enabled : bool; question_count : nat; question_custom_instructions : str; asr_enabled : bool;
}.

(** A product version; [pv_rest] stands for the fields that the merge leaves alone. *)
Record ProductVersion {Rest : Type} := { pv_config : EffectiveProcessConfig; pv_rest : Rest }.
Arguments ProductVersion : clear implicits.

(** [ProductVersion::question_count()]: 0 means the default, 10 is the most. *)
Definition version_question_count {Rest} (v : ProductVersion Rest) : nat :=
  if question_count (pv_config v) =? 0 then 3 else Nat.min (question_count (pv_config v)) 10.

(** [apply_to] writes all nineteen fields. *)
Definition apply_to {Rest} (eff : EffectiveProcessConfig) (v : ProductVersion Rest) : ProductVersion Rest :=
  {| pv_config := eff; pv_rest := pv_rest v |}.

(** [o.filter(|n| *n > 0)] with a default. *)
Definition positive_or (o : option nat) (n : nat) : nat :=
  match o with Some (S m) => S m | _ => n end.

(** [o.filter(|s| !s.is_empty())] with a default. *)
Definition filled_or (o : option str) (s : str) : str :=
  match o with Some (c :: t) => c :: t | _ => s end.

(** [if !l.is_empty() { l } else { d }] *)
Definition nonempty_or {A} (l d : list A) : list A := match l with [] => d | _ => l end.

(** The settings before any override. *)
Definition base_config {Rest} (base : ProductVersion Rest) : EffectiveProcessConfig :=
  let c := pv_config base in {|
  chunk_size := chunk_size c; chunk_overlap := chunk_overlap c; chunk_strategy := chunk_strategy c;
  enable_parent_child := enable_parent_child c; parent_chunk_size := parent_chunk_size c;
  child_chunk_size := child_chunk_size c; chunk_separators := chunk_separators c;
  chunk_token_limit := chunk_token_limit c; chunk_languages := chunk_languages c;
  parser_engine_rules := parser_engine_rules c; table_metadata_instructions := table_metadata_instructions c;
  enable_multimodel := enable_multimodel c; graph_enabled := graph_enabled c; extract_enabled := extract_enabled c;
  extract_custom_instructions := extract_custom_instructions c; question_enabled := question_enabled c;
  question_count := version_question_count base; question_custom_instructions := question_custom_instructions c;
  asr_enabled := asr_enabled c |}.

(** The chunking part of the overrides. *)
Definition merge_chunking (c : ChunkingOverride) (eff : EffectiveProcessConfig) : EffectiveProcessConfig := {|
  chunk_size := positive_or (co_chunk_size c) (chunk_size eff);
  chunk_overlap := positive_or (co_chunk_overlap c) (chunk_overlap eff);
  chunk_strategy := filled_or (co_strategy c) (chunk_strategy eff);
  enable_parent_child := co_enable_parent_child c;
  parent_chunk_size := positive_or (co_parent_chunk_size c) (parent_chunk_size eff);
  child_chunk_size := positive_or (co_child_chunk_size c) (child_chunk_size eff);
  chunk_separators := nonempty_or (co_separators c) (chunk_separators eff);
  chunk_token_limit := positive_or (co_token_limit c) (chunk_token_limit eff);
  chunk_languages := nonempty_or (co_languages c) (chunk_languages eff);
  parser_engine_rules := nonempty_or (co_parser_engine_rules c) (parser_engine_rules eff);
  table_metadata_instructions :=
    if negb (str_is_empty (trim (co_table_metadata_instructions c)))
    then co_table_metadata_instructions c else table_metadata_instructions eff;
  enable_multimodel := enable_multimodel eff; graph_enabled := graph_enabled eff;
  extract_enabled := extract_enabled eff; extract_custom_instructions := extract_custom_instructions eff;
  question_enabled := question_enabled eff; question_count := question_count eff;
  question_custom_instructions := question_custom_instructions eff; asr_enabled := asr_enabled eff |}.

(** The rest of the overrides, on settings whose chunking part is merged. *)
Definition merge_rest (o : ProcessOverrides) (eff : EffectiveProcessConfig) : EffectiveProcessConfig := {|
  chunk_size := chunk_size eff; chunk_overlap := chunk_overlap eff; chunk_strategy := chunk_strategy eff;
  enable_parent_child := enable_parent_child eff; parent_chunk_size := parent_chunk_size eff;
  child_chunk_size := child_chunk_size eff; chunk_separators := chunk_separators eff;
  chunk_token_limit := chunk_token_limit eff; chunk_languages := chunk_languages eff;
  parser_engine_rules := nonempty_or (o_parser_engine_rules o) (parser_engine_rules eff);
  table_metadata_instructions := table_metadata_instructions eff;
  enable_multimodel := default (enable_multimodel eff) (o_enable_multimodel o);
  graph_enabled := default (graph_enabled eff) (o_graph_enabled o);
  extract_enabled := match o_extract_config o with Some ex => ex_enabled ex | None => extract_enabled eff end;
  extract_custom_instructions :=
    match o_extract_config o with
    | Some ex => nonempty_or (ex_text ex) (extract_custom_instructions eff)
    | None => extract_custom_instructions eff
    end;
  question_enabled :=
    match o_question_generation_config o with
    | Some q => default (question_enabled eff) (q_enabled q)
    | None => question_enabled eff
    end;
  question_count :=
    match o_question_generation_config o with
    | Some q => match q_question_count q with Some (S n) => Nat.min (S n) 10 | _ => question_count eff end
    | None => question_count eff
    end;
  question_custom_instructions :=
    match o_question_generation_config o with
    | Some q => filled_or (q_custom_instructions q) (question_custom_instructions eff)
    | None => question_custom_instructions eff
    end;
  asr_enabled := match o_asr_config o with
                 | Some a => default (asr_enabled eff) (asr_enabled_override a)
                 | None => asr_enabled eff
                 end |}.

(** [eff.graph_enabled = eff.graph_enabled && eff.extract_enabled] *)
Definition gate_graph (eff : EffectiveProcessConfig) : EffectiveProcessConfig := {|
  chunk_size := chunk_size eff; chunk_overlap := chunk_overlap eff; chunk_strategy := chunk_strategy eff;
  enable_parent_child := enable_parent_child eff; parent_chunk_size := parent_chunk_size eff;
  child_chunk_size := child_chunk_size eff; chunk_separators := chunk_separators eff;
  chunk_token_limit := chunk_token_limit eff; chunk_languages := chunk_languages eff;
  parser_engine_rules := parser_engine_rules eff; table_metadata_instructions := table_metadata_instructions eff;
  enable_multimodel := enable_multimodel eff; graph_enabled := graph_enabled eff && extract_enabled eff;
  extract_enabled := extract_enabled eff; extract_custom_instructions := extract_custom_instructions eff;
  question_enabled := question_enabled eff; question_count := question_count eff;
  question_custom_instructions := question_custom_instructions eff; asr_enabled := asr_enabled eff |}.

Definition resolve_process_config {Rest} (base : ProductVersion Rest) (overrides : option ProcessOverrides)
    : EffectiveProcessConfig :=
  let eff := base_config base in
  match overrides with
  | None => gate_graph eff
  | Some o =>
    let eff := match o_chunking_config o with Some c => merge_chunking c eff | None => eff end in
    gate_graph (merge_rest o eff)
  end.

(** ** The parser engine *)

Definition ascii_lower (s : str) : str := map to_ascii_lowercase s.
Definition DOT : char := 46%Z.
Definition trim_dots (s : str) : str := trim_start_by (fun c => (c =? DOT)%Z) s.

Fixpoint engine_for_file (rules : list ParserEngineRule) (file_type : str) : str :=
  let ft := ascii_lower (trim_dots file_type) in
  match rules with
  | [] => []
  | rule :: rules' =>
    if existsb (fun t => str_eqb (ascii_lower (trim_dots t)) (ascii_lower ft)) (file_types rule)
    then engine rule
    else engine_for_file rules' file_type
  end.

Definition default_parser_engine_rules : list ParserEngineRule :=
  [ {| file_types := [u8"docx"; u8"doc"; u8"docm"; u8"xlsx"; u8"xls"; u8"xlsm"; u8"pptx"; u8"ppt"; u8"pptm"];
       engine := u8"anydoc" |};
    {| file_types := [u8"pdf"]; engine := u8"builtin" |} ].

Definition resolve_parser_engine (rules : list ParserEngineRule) (bare_engine file_type : str) : str :=
  let use_rules := nonempty_or rules default_parser_engine_rules in
  let e := engine_for_file use_rules file_type in
  if str_is_empty e then bare_engine else e.

(** [stored_rules] and [bare]: what JSON decoding finds under [parser_engine_rules] and
    [parser_engine] of the chunking configuration. *)
Definition parser_engine_for (stored_rules : option (list ParserEngineRule)) (bare : option str)
    (overrides : option ProcessOverrides) (ext : str) : str :=
  let rules := default [] stored_rules in
  let rules := match overrides with
               | None => rules
               | Some o =>
                 match o_parser_engine_rules o with
                 | [] => match o_chunking_config o with
                         | Some c => nonempty_or (co_parser_engine_rules c) rules
                         | None => rules
                         end
                 | r => r
                 end
               end in
  resolve_parser_engine rules (default [] bare) ext.

(** ** [ingest.rs] *)

Record VersionIndexOpts := {
  vo_strategy : str; vo_size : nat; vo_overlap : nat; vo_parent_child : bool; vo_parent_size : nat;
  vo_child_size : nat; vo_separators : list str; vo_token_limit : nat; vo_languages : list str;
  vo_vector : bool; vo_keyword : bool;
}.

Definition apply_chunking_overrides (opts : VersionIndexOpts) (overrides : option ProcessOverrides) : VersionIndexOpts :=
  match o ← overrides; o_chunking_config o with
  | None => opts
  | Some c => {|
      vo_strategy := filled_or (co_strategy c) (vo_strategy opts);
      vo_size := positive_or (co_chunk_size c) (vo_size opts);
      vo_overlap := positive_or (co_chunk_overlap c) (vo_overlap opts);
      vo_parent_child := co_enable_parent_child c;
      vo_parent_size := positive_or (co_parent_chunk_size c) (vo_parent_size opts);
      vo_child_size := positive_or (co_child_chunk_size c) (vo_child_size opts);
      vo_separators := nonempty_or (co_separators c) (vo_separators opts);
      vo_token_limit := positive_or (co_token_limit c) (vo_token_limit opts);
      vo_languages := nonempty_or (co_languages c) (vo_languages opts);
      vo_vector := vo_vector opts; vo_keyword := vo_keyword opts |}
  end.

(** ** Facts *)

Lemma positive_or_idem o n : positive_or o (positive_or o n) = positive_or o n.
Proof. by destruct o as [[|m]|]. Qed.
Lemma filled_or_idem o s : filled_or o (filled_or o s) = filled_or o s.
Proof. by destruct o as [[|c t]|]. Qed.
Lemma nonempty_or_idem {A} (l d : list A) : nonempty_or l (nonempty_or l d) = nonempty_or l d.
Proof. by destruct l. Qed.
Lemma default_idem {A} (o : option A) (d : A) : default (default d o) o = default d o.
Proof. by destruct o. Qed.

#[local] Hint Rewrite @positive_or_idem @filled_or_idem @nonempty_or_idem @default_idem : process.

(** The number of questions of resolved settings is between 1 and 10. *)
Lemma question_count_range {Rest} (base : ProductVersion Rest) o :
  1 <= question_count (resolve_process_config base o) <= 10.
Proof.
  assert (Hbase : 1 <= version_question_count base <= 10).
  { unfold version_question_count. destruct (Nat.eqb_spec (question_count (pv_config base)) 0); lia. }
  destruct o as [o|]; cbn -[version_question_count]; [|done].
  destruct (o_chunking_config o), (o_question_generation_config o) as [q|]; cbn -[version_question_count]; try done;
    destruct (q_question_count q) as [[|n]|]; done || lia.
Qed.

(** The resolved number of questions is what the version will answer once it is applied. *)
Lemma question_count_stable {Rest} (base : ProductVersion Rest) o :
  version_question_count (apply_to (resolve_process_config base o) base) = question_count (resolve_process_config base o).
Proof.
  pose proof (question_count_range base o). unfold version_question_count. cbn [apply_to pv_config].
  destruct (Nat.eqb_spec (question_count (resolve_process_config base o)) 0); lia.
Qed.

(** The chunking options that the merge in [ingest.rs] works on. *)
Definition index_opts (vector keyword : bool) (c : EffectiveProcessConfig) : VersionIndexOpts := {|
  vo_strategy := chunk_strategy c; vo_size := chunk_size c; vo_overlap := chunk_overlap c;
  vo_parent_child := enable_parent_child c; vo_parent_size := parent_chunk_size c;
  vo_child_size := child_chunk_size c; vo_separators := chunk_separators c;
  vo_token_limit := chunk_token_limit c; vo_languages := chunk_languages c;
  vo_vector := vector; vo_keyword := keyword |}.

(** The engine that resolved rules give a file is the one asked for over the same sources. *)
Lemma parser_engine_agrees {Rest} (base : ProductVersion Rest) o bare ext :
  resolve_parser_engine (parser_engine_rules (resolve_process_config base o)) (default [] bare) ext
  = parser_engine_for (Some (parser_engine_rules (pv_config base))) bare o ext.
Proof.
  unfold parser_engine_for. cbn [default]. f_equal. destruct o as [o|]; [|done]. cbn.
  destruct (o_chunking_config o); cbn; by destruct (o_parser_engine_rules o).
Qed.

Lemma gate_idem (g e : bool) (og : option bool) : default (default g og && e) og && e = default g og && e.
Proof. by destruct og as [[]|], g, e. Qed.

Lemma count_idem (n : nat) (q : option nat) :
  match q with Some (S m) => Nat.min (S m) 10 | _ => match q with Some (S m) => Nat.min (S m) 10 | _ => n end end
  = match q with Some (S m) => Nat.min (S m) 10 | _ => n end.
Proof. by destruct q as [[|m]|]. Qed.

Lemma rules_idem {A} (o c d : list A) :
  nonempty_or o (nonempty_or c (nonempty_or o (nonempty_or c d))) = nonempty_or o (nonempty_or c d).
Proof. by destruct o, c. Qed.

Lemma if_idem {A} (b : bool) (x y : A) : (if b then x else if b then x else y) = if b then x else y.
Proof. by destruct b. Qed.

(** The settings that some overrides make of given ones. *)
Definition merge_all (o : ProcessOverrides) (eff : EffectiveProcessConfig) : EffectiveProcessConfig :=
  gate_graph (merge_rest o (match o_chunking_config o with Some c => merge_chunking c eff | None => eff end)).

(** Compute the fields of merged settings. *)
#[local] Ltac merge_fields :=
  cbv beta iota zeta delta [merge_all gate_graph merge_rest merge_chunking
    chunk_size chunk_overlap chunk_strategy enable_parent_child parent_chunk_size child_chunk_size
    chunk_separators chunk_token_limit chunk_languages parser_engine_rules table_metadata_instructions
    enable_multimodel graph_enabled extract_enabled extract_custom_instructions question_enabled question_count
    question_custom_instructions asr_enabled].

(** Merging the overrides twice is merging them once. *)
Lemma merge_idempotent o eff : merge_all o (merge_all o eff) = merge_all o eff.
Proof.
  destruct eff, o as [rules c mm g ex q asr ov]. destruct c as [c|]; merge_fields; f_equal;
    first [apply positive_or_idem | apply filled_or_idem | apply nonempty_or_idem | apply default_idem
          | apply rules_idem | apply if_idem
          | destruct ex; first [apply gate_idem | apply nonempty_or_idem | reflexivity]
          | destruct q; first [apply default_idem | apply count_idem | apply filled_or_idem | reflexivity]
          | destruct asr; first [apply default_idem | reflexivity] | reflexivity].
Qed.

(** Applied settings are read back as they are. *)
Lemma base_config_applied {Rest} (base : ProductVersion Rest) eff :
  version_question_count (apply_to eff base) = question_count eff -> base_config (apply_to eff base) = eff.
Proof. intros Hq. unfold base_config. rewrite Hq. by destruct eff. Qed.

(** the settings of an upload: resolving them is idempotent (a worker that applies them and
    resolves again works with the same ones), graph extraction never runs without
    extraction, between 1 and 10 questions are asked, and the second merge of the chunking
    part and the second choice of the engine agree with the first. *)
Theorem resolve_process_config_stable {Rest} (base : ProductVersion Rest) o :
  let eff := resolve_process_config base o in
  resolve_process_config (apply_to eff base) o = eff
  /\ (graph_enabled eff = true -> extract_enabled eff = true)
  /\ 1 <= question_count eff <= 10
  /\ (forall v k, apply_chunking_overrides (index_opts v k (pv_config base)) o = index_opts v k eff)
  /\ (forall bare ext, resolve_parser_engine (parser_engine_rules eff) (default [] bare) ext
        = parser_engine_for (Some (parser_engine_rules (pv_config base))) bare o ext).
Proof.
  intros eff. split; [|split; [|split; [apply question_count_range|split; [|apply parser_engine_agrees]]]].
  - subst eff. pose proof (question_count_stable base o) as Hq. apply base_config_applied in Hq.
    unfold resolve_process_config at 1. rewrite Hq. destruct o as [o|].
    + apply (merge_idempotent o).
    + unfold resolve_process_config, gate_graph. cbn. f_equal. by destruct (graph_enabled _), (extract_enabled _).
  - subst eff. unfold resolve_process_config. destruct o; cbn; intros H; by apply andb_prop in H as [_ ?].
  - subst eff. intros v k. unfold apply_chunking_overrides. destruct o as [o|]; [|done]. cbn.
    by destruct (o_chunking_config o).
Qed.

(** A version and overrides that touch every part. *)
Definition demo_config : EffectiveProcessConfig := {|
  chunk_size := 512; chunk_overlap := 80; chunk_strategy := u8"auto"; enable_parent_child := true;
  parent_chunk_size := 0; child_chunk_size := 0; chunk_separators := []; chunk_token_limit := 0;
  chunk_languages := []; parser_engine_rules := default_parser_engine_rules; table_metadata_instructions := [];
  enable_multimodel := false; graph_enabled := true; extract_enabled := true; extract_custom_instructions := [];
  question_enabled := true; question_count := 0; question_custom_instructions := []; asr_enabled := false |}.

Definition no_chunking : ChunkingOverride := {|
  co_chunk_size := Some 0; co_chunk_overlap := None; co_strategy := None; co_enable_parent_child := false;
  co_parent_chunk_size := Some 2000; co_child_chunk_size := None; co_separators := []; co_token_limit := None;
  co_languages := [u8"zh"]; co_parser_engine_rules := []; co_table_metadata_instructions := u8" " |}.

Definition demo_overrides : ProcessOverrides := {|
  o_parser_engine_rules := [{| file_types := [u8"docx"]; engine := u8"mineru" |}];
  o_chunking_config := Some no_chunking; o_enable_multimodel := None; o_graph_enabled := Some true;
  o_extract_config := Some {| ex_enabled := false; ex_text := [] |};
  o_question_generation_config := Some {| q_enabled := Some true; q_question_count := Some 99; q_custom_instructions := None |};
  o_asr_config := None; o_parser_engine_overrides := ∅ |}.

(** The tests of the source. *)
Example overrides_merge :
  let eff := resolve_process_config {| pv_config := demo_config; pv_rest := tt |} (Some demo_overrides) in
  (chunk_size eff, enable_parent_child eff, parent_chunk_size eff, question_count eff, graph_enabled eff,
   engine_for_file (parser_engine_rules eff) (u8".DOCX"), engine_for_file (parser_engine_rules eff) (u8"pdf"))
  = (512, false, 2000, 10, false, u8"mineru", []).
Proof. vm_compute. reflexivity. Qed.

Example default_engine_table_office_anydoc_pdf_builtin :
  map (parser_engine_for None (Some (u8"builtin")) None) [u8"docx"; u8"DOCX"; u8"xlsx"; u8"pdf"; u8"txt"]
  = [u8"anydoc"; u8"anydoc"; u8"anydoc"; u8"builtin"; u8"builtin"].
Proof. vm_compute. reflexivity. Qed.
