(* ===== verification/Jobs.v ===== *)
(** * Derived jobs of a document

    The work that the postprocess of [pipeline.rs] plans, [expected_subtasks] of
    [formula.rs], and the working sets of [job.rs].  A [HashMap] whose values are only
    iterated is the list of its values in some order; one that is looked up is a [gmap]. *)
From S2P Require Import Prelude RustStr Batches Pipeline Workflow WorkflowFacts.
Open Scope nat_scope.

(** ** [formula.rs] *)

Definition expected_subtasks (text_count ocr_caption_count : nat)
    (question_enabled needs_embedding wiki_enabled graph_enabled clone_keep : bool) : nat :=
  let text_like := text_count + ocr_caption_count in
  let will_summary := (0 <? text_like) && negb clone_keep in
  let will_question := will_summary && needs_embedding && question_enabled in
  let will_wiki := wiki_enabled && (0 <? text_like) in
  let question_chunks := if will_question then text_count else 0 in
  let question_batches := div_ceil question_chunks 20 in
  let graph_count := if graph_enabled then text_like else 0 in
  let summary := Nat.b2n will_summary in
  let wiki := Nat.b2n will_wiki in
  summary + question_batches + wiki + graph_count.

Example spec_table_cases :
  (expected_subtasks 0 0 true true true true false, expected_subtasks 25 0 true true true true false,
   expected_subtasks 25 3 true true true true false, expected_subtasks 10 0 false true true false false,
   expected_subtasks 10 0 true false false false false, expected_subtasks 10 2 true true true true true)
  = (0, 29, 32, 2, 1, 13).
Proof. reflexivity. Qed.

(** ** The plan of [run_post_process] *)

(** A chunk, as far as the plan reads it. *)
Record JobChunk := { jc_id : N; jc_chunk_type : str; jc_start_at : Z }.

Definition is_text (c : JobChunk) : bool := str_eqb (jc_chunk_type c) (u8"text").

Definition is_source (c : JobChunk) : bool :=
  is_text c || str_eqb (jc_chunk_type c) (u8"image_ocr") || str_eqb (jc_chunk_type c) (u8"image_caption").

(** One batch of questions with the neighbours of its chunks. *)
Definition question_batch (sorted : list JobChunk) (batch : nat) (items : list JobChunk) : Work :=
  let base := batch * 20 in
  WQuestions (map jc_id items)
    (map (fun i => match base + i with 0 => None | S n => option_map jc_id (sorted !! n) end) (seq 0 (length items)))
    (map (fun i => option_map jc_id (sorted !! (base + i + 1))) (seq 0 (length items)))
    (N.of_nat batch mod 4294967296)%N.

Definition question_work (chunks : list JobChunk) : list Work :=
  let sorted := sort_by (fun a b => (jc_start_at a <=? jc_start_at b)%Z) (List.filter is_text chunks) in
  imap (question_batch sorted) (chunks_of 20 sorted).

(** [is_table_file] *)
Definition is_table_file (name : str) : bool :=
  let ext := map to_ascii_lowercase (default [] (last (split_char 46%Z name))) in
  existsb (str_eqb ext) [u8"csv"; u8"xlsx"; u8"xls"].

(** The switches the plan reads: of the call, of the product version and of the queues. *)
Record PlanOptions := {
  clone_keep : bool; question_enabled : bool; needs_embedding : bool; graph_enabled : bool; wiki_enabled : bool;
  question_task_enabled : bool; extract_task_enabled : bool;
}.

Definition plan_post_process (opts : PlanOptions) (file_name : str) (chunks : list JobChunk) : list Work :=
  let text_count := length (List.filter is_text chunks) in
  let source_count := length (List.filter is_source chunks) in
  (if (0 <? source_count) && negb (clone_keep opts) then [WSummary] else [])
  ++ (if is_table_file file_name then [WDatatable] else [])
  ++ (if negb (clone_keep opts) && question_enabled opts && needs_embedding opts && (0 <? text_count)
         && question_task_enabled opts
      then question_work chunks else [])
  ++ (if graph_enabled opts && extract_task_enabled opts
      then map (fun c => WExtract (jc_id c)) (List.filter is_source chunks) else [])
  ++ (if wiki_enabled opts && (0 <? source_count) then [WWiki] else []).

(** ** [job.rs] *)

Record GraphNode := { gn_version_id : N; gn_document_id : N; gn_name : str; gn_chunk_ids : list N }.
Record GraphRelation := { gr_version_id : N; gr_document_id : N; gr_node1 : str; gr_node2 : str; gr_rel_type : str }.

(** The part of [DocJob] that its methods change. *)
Record DocJob := {
  dj_parse_status : ParseStatus; dj_pending_subtasks_count : Z;
  dj_graph : gmap (N * N * str) GraphNode; dj_relations : gmap (N * N * str * str * str) GraphRelation;
}.

Definition upsert_node (version_id document_id : N) (name : str) (chunk_id : N) (job : DocJob) : DocJob :=
  let key := (version_id, document_id, name) in
  let node := default {| gn_version_id := version_id; gn_document_id := document_id; gn_name := name; gn_chunk_ids := [] |}
                (dj_graph job !! key) in
  let ids := if existsb (N.eqb chunk_id) (gn_chunk_ids node) then gn_chunk_ids node else gn_chunk_ids node ++ [chunk_id] in
  {| dj_parse_status := dj_parse_status job; dj_pending_subtasks_count := dj_pending_subtasks_count job;
     dj_graph := <[key := {| gn_version_id := gn_version_id node; gn_document_id := gn_document_id node;
                             gn_name := gn_name node; gn_chunk_ids := ids |}]> (dj_graph job);
     dj_relations := dj_relations job |}.

Definition upsert_rel (version_id document_id : N) (node1 node2 rel_type : str) (job : DocJob) : DocJob :=
  let key := (version_id, document_id, node1, node2, rel_type) in
  {| dj_parse_status := dj_parse_status job; dj_pending_subtasks_count := dj_pending_subtasks_count job;
     dj_graph := dj_graph job;
     dj_relations := match dj_relations job !! key with
                     | Some _ => dj_relations job
                     | None => <[key := {| gr_version_id := version_id; gr_document_id := document_id;
                                           gr_node1 := node1; gr_node2 := node2; gr_rel_type := rel_type |}]>
                                 (dj_relations job)
                     end |}.

(** The count and the status after a subtask, which both working sets compute. *)
Definition count_down (status : ParseStatus) (count : Z) : ParseStatus * Z :=
  let count := if (0 <? count)%Z then (count - 1)%Z else count in
  (if bool_decide (status = PFinalizing) && (count =? 0)%Z then PCompleted else status, count).

Definition finalize_subtask (job : DocJob) : DocJob :=
  let '(status, count) := count_down (dj_parse_status job) (dj_pending_subtasks_count job) in
  {| dj_parse_status := status; dj_pending_subtasks_count := count;
     dj_graph := dj_graph job; dj_relations := dj_relations job |}.

Record DeadLetter := { dl_task_type : str; dl_related_id : N; dl_last_error : str }.

Record Job {Value : Type} := {
  job_id : N; job_task_type : str; job_queue : str; job_payload : Value; job_retries : N; job_max_retry : N;
}.
Arguments Job : clear implicits.

(** The part of [WikiJob] that its methods change: a document is its status and count. *)
Record WikiJob {Value : Type} := {
  wj_documents : gmap N (ParseStatus * Z); wj_queue : list (Job Value); wj_dead_letters : list DeadLetter;
}.
Arguments WikiJob : clear implicits.

Section wiki_job.
Context {Value : Type}.

Definition wiki_finalize_subtask (doc_id : N) (job : WikiJob Value) : WikiJob Value :=
  match wj_documents job !! doc_id with
  | None => job
  | Some (status, count) =>
    {| wj_documents := <[doc_id := count_down status count]> (wj_documents job);
       wj_queue := wj_queue job; wj_dead_letters := wj_dead_letters job |}
  end.

Definition dead_letter (task_type : str) (related_id : N) (last_error : str) (job : WikiJob Value) : WikiJob Value :=
  let msg := take (8 * 1024) last_error in
  {| wj_documents := wj_documents job; wj_queue := wj_queue job;
     wj_dead_letters := wj_dead_letters job
       ++ [{| dl_task_type := task_type; dl_related_id := related_id; dl_last_error := msg |}] |}.

Definition enqueue (new_id : N) (task_type queue : str) (payload : Value) (job : WikiJob Value) : WikiJob Value * N :=
  ({| wj_documents := wj_documents job;
      wj_queue := wj_queue job ++ [{| job_id := new_id; job_task_type := task_type; job_queue := queue;
                                      job_payload := payload; job_retries := 0; job_max_retry := 3 |}];
      wj_dead_letters := wj_dead_letters job |}, new_id).
End wiki_job.

(** ** The working sets *)

(** The counter of [n] subtasks completes a finalizing document at the last one. *)
Lemma finalize_subtasks_complete (n m : nat) job :
  dj_parse_status job = PFinalizing -> dj_pending_subtasks_count job = Z.of_nat n -> 0 < n ->
  dj_parse_status (Nat.iter m finalize_subtask job) = (if n <=? m then PCompleted else PFinalizing)
  /\ dj_pending_subtasks_count (Nat.iter m finalize_subtask job) = Z.of_nat (n - m).
Proof.
  intros Hs Hc Hn. induction m as [|m IH].
  - change (Nat.iter 0 finalize_subtask job) with job. rewrite Hs, Hc, Nat.sub_0_r. by destruct n; [lia|].
  - change (Nat.iter (S m) finalize_subtask job) with (finalize_subtask (Nat.iter m finalize_subtask job)).
    destruct IH as [IHs IHc]. set (job1 := Nat.iter m finalize_subtask job) in *. clearbody job1.
    unfold finalize_subtask, count_down. rewrite IHs, IHc. cbn [dj_parse_status dj_pending_subtasks_count].
    destruct (Nat.leb_spec n m) as [Hle|Hgt].
    + replace (n - m) with 0 by lia. replace (n - S m) with 0 by lia. cbn [Z.of_nat Z.ltb Z.compare].
      by rewrite (proj2 (Nat.leb_le n (S m))) by lia.
    + replace (0 <? Z.of_nat (n - m))%Z with true by (symmetry; apply Z.ltb_lt; lia). cbn iota.
      rewrite bool_decide_eq_true_2 by done.
      destruct (Nat.leb_spec n (S m)).
      * replace (Z.of_nat (n - m) - 1 =? 0)%Z with true by (symmetry; apply Z.eqb_eq; lia). split; [done|cbn; lia].
      * replace (Z.of_nat (n - m) - 1 =? 0)%Z with false by (symmetry; apply Z.eqb_neq; lia). split; [done|cbn; lia].
Qed.

(** A node collects the chunks that name it, each once. *)
Lemma upsert_node_chunks v d name chunk job :
  exists node, dj_graph (upsert_node v d name chunk job) !! (v, d, name) = Some node /\ chunk ∈ gn_chunk_ids node
  /\ forall old, dj_graph job !! (v, d, name) = Some old -> NoDup (gn_chunk_ids old) ->
       NoDup (gn_chunk_ids node) /\ forall c, c ∈ gn_chunk_ids node <-> c ∈ gn_chunk_ids old \/ c = chunk.
Proof.
  unfold upsert_node. cbn. eexists. rewrite lookup_insert_eq. split; [done|]. cbn.
  set (node := default _ _). destruct (existsb (N.eqb chunk) (gn_chunk_ids node)) eqn:E.
  - apply existsb_exists in E as (c & Hc%list_elem_of_In & ->%N.eqb_eq). split; [done|].
    intros old Hold Hnd. unfold node in *. rewrite Hold in *. cbn in *. split; [done|]. naive_solver.
  - split; [set_solver|]. intros old Hold Hnd. unfold node in *. rewrite Hold in *. cbn in *.
    split; [|set_solver]. apply NoDup_app. split; [done|]. split; [|apply NoDup_singleton].
    intros c Hc ->%list_elem_of_singleton. apply not_true_iff_false in E. apply E, existsb_exists.
    exists chunk. split; [by apply list_elem_of_In|apply N.eqb_refl].
Qed.

(** ** The plan *)

Lemma count_source chunks :
  length (List.filter is_text chunks) <= length (List.filter is_source chunks).
Proof.
  induction chunks as [|c l IH]; cbn [List.filter]; [done|].
  destruct (is_text c) eqn:E.
  - replace (is_source c) with true by (unfold is_source; by rewrite E). cbn [length]. lia.
  - destruct (is_source c); cbn [length]; lia.
Qed.

Lemma question_work_length chunks :
  length (question_work chunks) = div_ceil (length (List.filter is_text chunks)) 20.
Proof. unfold question_work. rewrite length_imap, chunks_of_length by lia. by rewrite sort_by_perm. Qed.

(** The first character of the key tells the kind of work. *)
Lemma NoDup_app_heads {A} (k : A -> str) (l1 l2 : list A) :
  NoDup (map k l1) -> NoDup (map k l2) ->
  (forall w1 w2, w1 ∈ l1 -> w2 ∈ l2 -> head (k w1) <> head (k w2)) -> NoDup (map k (l1 ++ l2)).
Proof.
  intros H1 H2 Hd. rewrite map_app. apply NoDup_app. split; [done|]. split; [|done].
  intros x (w1 & -> & Hw1)%list_elem_of_fmap (w2 & He & Hw2)%list_elem_of_fmap. by apply (Hd w1 w2); [..|rewrite He].
Qed.

Section plan.
Context (uuid_to_string : N -> str) `{!Inj (=) (=) uuid_to_string}.
Notation key := (work_key uuid_to_string).

(** The first letters of the keys. *)
Lemma key_head w :
  head (key w) = Some (match w with
    | WConvert _ _ => 99 | WPostprocess _ => 112 | WSummary => 115 | WDatatable => 100 | WQuestions _ _ _ _ => 113
    | WExtract _ => 101 | WImage _ _ => 105 | WWiki => 119 | WReconcile => 114 end)%Z.
Proof. by destruct w. Qed.

Lemma question_keys chunks :
  map key (question_work chunks)
  = map (fun b => u8"questions:" ++ decimal (N.of_nat b mod 4294967296)%N) (seq 0 (length (question_work chunks))).
Proof.
  unfold question_work. apply list_eq. intros i. rewrite !list_lookup_fmap, list_lookup_imap, length_imap.
  destruct (_ !! i) as [c|] eqn:E; cbn [fmap option_fmap option_map].
  - by rewrite lookup_seq_lt by (by apply lookup_lt_Some in E).
  - by rewrite lookup_seq_ge by (by apply lookup_ge_None in E).
Qed.

Lemma question_keys_NoDup chunks :
  (N.of_nat (length chunks) < 4294967296)%N -> NoDup (map key (question_work chunks)).
Proof.
  intros Hlen. rewrite question_keys. apply NoDup_fmap_2_strong; [|apply NoDup_seq].
  assert (Hb : length (question_work chunks) <= length chunks).
  { rewrite question_work_length. unfold div_ceil. pose proof (filter_length_le is_text chunks).
    set (m := length (List.filter is_text chunks)) in *. clearbody m.
    destruct m as [|m]; [cbn; lia|]. apply Nat.Div0.div_le_upper_bound. lia. }
  intros a b Ha%elem_of_seq Hbq%elem_of_seq He. apply (inj (app (u8"questions:"))), (inj decimal) in He.
  rewrite !N.mod_small in He by lia. lia.
Qed.

Lemma extract_keys_NoDup chunks :
  NoDup (map jc_id chunks) -> NoDup (map key (map (fun c => WExtract (jc_id c)) (List.filter is_source chunks))).
Proof.
  intros Hnd. rewrite map_map. change (fun c => key (WExtract (jc_id c))) with (fun c => u8"extract:" ++ uuid_to_string (jc_id c)).
  rewrite <- (map_map jc_id (fun i => u8"extract:" ++ uuid_to_string i)). apply NoDup_fmap_2_strong.
  - intros a b _ _ He. by apply (inj (app (u8"extract:"))), (inj uuid_to_string) in He.
  - induction chunks as [|c l IH]; cbn [List.filter map] in *; [constructor|].
    apply NoDup_cons in Hnd as [Hc Hnd]. specialize (IH Hnd).
    destruct (is_source c); [|done]. constructor; [|done]. contradict Hc.
    apply list_elem_of_fmap in Hc as (c' & Hid & Hin). apply list_elem_of_fmap. exists c'. split; [done|].
    by apply list_elem_of_In in Hin; apply filter_In in Hin as [Hin _]; apply list_elem_of_In.
Qed.
End plan.

(** ** The question batches *)

(** The fields of a question batch; nothing for another work. *)
Definition question_fields (w : Work) : list (N * option N * option N) :=
  match w with WQuestions ids prevs nexts _ => zip (zip ids prevs) nexts | _ => [] end.

(** The [i]-th chunk of [sorted] with its neighbours. *)
Definition with_neighbours (sorted : list JobChunk) (i : nat) (c : JobChunk) : N * option N * option N :=
  (jc_id c, match i with 0 => None | S n => option_map jc_id (sorted !! n) end, option_map jc_id (sorted !! (i + 1))).

Lemma zip_map_seq {B C} (f : JobChunk -> N) (p : nat -> B) (q : nat -> C) items :
  zip (zip (map f items) (map p (seq 0 (length items)))) (map q (seq 0 (length items)))
  = imap (fun i c => (f c, p i, q i)) items.
Proof.
  revert p q. induction items as [|c l IH]; intros p q; [done|].
  cbn [length seq map zip zip_with imap]. f_equal.
  rewrite <- (seq_shift (length l) 0), !map_map. apply (IH (p ∘ S) (q ∘ S)).
Qed.

Lemma imap_concat_from {A B} (f : nat -> A -> B) (n k : nat) (l : list A) fuel :
  0 < n -> length l <= fuel ->
  concat (imap (fun b items => imap (fun i c => f ((k + b) * n + i) c) items) (slice_chunks fuel n l))
  = imap (fun i c => f (k * n + i) c) l.
Proof.
  intros Hn. revert k l. induction fuel as [|fuel IH]; intros k [|x l] Hl; cbn [length slice_chunks] in *; try done; [lia|].
  replace (imap (fun i c => f (k * n + i) c) (x :: l))
    with (imap (fun i c => f (k * n + i) c) (take n (x :: l) ++ drop n (x :: l))) by (by rewrite take_drop).
  rewrite imap_app. cbn [imap concat]. f_equal.
  - apply imap_ext. intros i c _. by rewrite Nat.add_0_r.
  - assert (Hd : length (drop n (x :: l)) <= fuel) by (rewrite length_drop; cbn; lia).
    etrans; [|etrans; [exact (IH (S k) (drop n (x :: l)) Hd)|]].
    + f_equal. apply imap_ext. intros b c _. apply imap_ext. intros i d _. f_equal. cbn. lia.
    + destruct (decide (n <= length (x :: l))) as [Hle|Hgt].
      * apply imap_ext. intros i c _. f_equal. cbn -[take]. rewrite length_take_le by done. lia.
      * by rewrite drop_ge by lia.
Qed.

Lemma question_work_fields chunks :
  let sorted := sort_by (fun a b => (jc_start_at a <=? jc_start_at b)%Z) (List.filter is_text chunks) in
  concat (map question_fields (question_work chunks)) = imap (with_neighbours sorted) sorted.
Proof.
  cbn zeta. unfold question_work. set (sorted := sort_by _ _).
  etrans; [|apply (imap_concat_from (with_neighbours sorted) 20 0 sorted (length sorted)); lia].
  f_equal. apply list_eq. intros b. rewrite list_lookup_fmap, !list_lookup_imap. unfold chunks_of.
  destruct (_ !! b) as [items|]; [|done]. cbn [fmap option_fmap option_map]. f_equal. apply zip_map_seq.
Qed.

Lemma concat_map_nil {A B} (f : A -> list B) l : (forall x, x ∈ l -> f x = []) -> concat (map f l) = [].
Proof.
  induction l as [|x l IH]; intros H; [done|]. cbn [map concat]. rewrite (H x) by set_solver. apply IH. set_solver.
Qed.

Ltac work_cases :=
  repeat match goal with
  | H : _ ∈ _ ++ _ |- _ => apply elem_of_app in H as [H|H]
  | H : _ ∈ (if ?b then _ else _) |- _ => destruct b
  | H : _ ∈ [] |- _ => by apply not_elem_of_nil in H
  | H : _ ∈ [_] |- _ => apply list_elem_of_singleton in H; try subst
  | H : _ ∈ map _ _ |- _ => apply list_elem_of_fmap in H as (? & ? & ?); try subst
  | H : _ ∈ question_work _ |- _ => apply elem_of_lookup_imap in H as (? & ? & ? & ?); try subst
  end.

(** The number of works: the formula for the queues that are enabled, and the table summary. *)
Lemma plan_length opts file_name chunks :
  let text_count := length (List.filter is_text chunks) in
  length (plan_post_process opts file_name chunks)
  = expected_subtasks text_count (length (List.filter is_source chunks) - text_count)
      (question_enabled opts && question_task_enabled opts) (needs_embedding opts) (wiki_enabled opts)
      (graph_enabled opts && extract_task_enabled opts) (clone_keep opts)
    + Nat.b2n (is_table_file file_name).
Proof.
  pose proof (count_source chunks) as Hs. pose proof (question_work_length chunks) as Hw.
  unfold plan_post_process, expected_subtasks. rewrite !length_app. cbn zeta.
  replace (length (List.filter is_text chunks) + (length (List.filter is_source chunks) - length (List.filter is_text chunks)))
    with (length (List.filter is_source chunks)) by lia.
  set (t := length (List.filter is_text chunks)) in *. set (q := question_work chunks) in *. clearbody q.
  set (x := map _ (List.filter is_source chunks)).
  assert (Hxl : length x = length (List.filter is_source chunks)) by apply length_map. clearbody x.
  set (s := length (List.filter is_source chunks)) in *. clearbody s t.
  destruct (graph_enabled opts && extract_task_enabled opts);
  destruct (clone_keep opts), (question_enabled opts), (question_task_enabled opts), (needs_embedding opts), (wiki_enabled opts),
    (is_table_file file_name), (Nat.ltb_spec 0 s), (Nat.ltb_spec 0 t); cbn -[div_ceil]; try lia.
  all: try (replace t with 0 in * by lia); cbn in *; lia.
Qed.

(** All planned work is derived: it counts as pending until it is complete. *)
Lemma plan_derived opts file_name chunks : Forall (fun w => derived w = true) (plan_post_process opts file_name chunks).
Proof. apply Forall_forall. intros w H. unfold plan_post_process in H. by work_cases. Qed.

Lemma plan_questions_bounds opts file_name chunks ids prevs nexts b :
  WQuestions ids prevs nexts b ∈ plan_post_process opts file_name chunks -> 0 < length ids <= 20.
Proof.
  intros H. unfold plan_post_process in H. work_cases; try discriminate. unfold question_batch in *. simplify_eq.
  rewrite length_map. eapply chunks_of_bounds; [lia|]. by eapply list_elem_of_lookup_2.
Qed.

Lemma plan_fields opts file_name chunks :
  let sorted := sort_by (fun a b => (jc_start_at a <=? jc_start_at b)%Z) (List.filter is_text chunks) in
  concat (map question_fields (plan_post_process opts file_name chunks))
  = (if negb (clone_keep opts) && question_enabled opts && needs_embedding opts && question_task_enabled opts
     then imap (with_neighbours sorted) sorted else []).
Proof.
  unfold plan_post_process. rewrite !map_app, !concat_app. cbn zeta.
  rewrite (concat_map_nil _ (if _ && negb (clone_keep opts) then _ else _)) by (intros; by work_cases).
  rewrite (concat_map_nil _ (if is_table_file _ then _ else _)) by (intros; by work_cases).
  rewrite (concat_map_nil _ (if graph_enabled _ && _ then _ else _)) by (intros; by work_cases).
  rewrite (concat_map_nil _ (if wiki_enabled _ && _ then _ else _)) by (intros; by work_cases).
  rewrite !app_nil_r, !app_nil_l.
  destruct (negb (clone_keep opts) && question_enabled opts && needs_embedding opts); [|done]. cbn [andb].
  destruct (question_task_enabled opts); [rewrite andb_true_r|by rewrite andb_false_r].
  destruct (Nat.ltb_spec 0 (length (List.filter is_text chunks))) as [|H]; [apply question_work_fields|].
  by destruct (List.filter is_text chunks); [|cbn in H; lia].
Qed.

Lemma plan_keys_NoDup (uuid_to_string : N -> str) `{!Inj (=) (=) uuid_to_string} opts file_name chunks :
  NoDup (map jc_id chunks) -> (N.of_nat (length chunks) < 4294967296)%N ->
  NoDup (map (work_key uuid_to_string) (plan_post_process opts file_name chunks)).
Proof.
  intros Hids Hlen. unfold plan_post_process.
  repeat apply NoDup_app_heads;
    try (intros w1 w2 H1 H2; rewrite !key_head; work_cases; discriminate);
    repeat case_match; try (by constructor); try (by apply NoDup_singleton).
  - by apply question_keys_NoDup.
  - by apply extract_keys_NoDup.
Qed.

(** C26: How the plan of the postprocess and the formula agree, for every setting of the switches.
    The number of planned works is [expected_subtasks] of the counted chunks for the queues that
    are enabled (a disabled queue of questions or extractions counts as the disabled feature), plus
    the one table summary of a spreadsheet, which the formula leaves out; all of them are derived
    work, so that the document waits for each.  The job keys of the works are distinct, so that no
    work is lost at its insertion (fewer than 2^32 chunks, distinct ids).  The question batches
    hold between 1 and 20 chunks, and read in order they give each text chunk once, by its start,
    with the chunk before and the chunk after it. *)
Theorem plan_matches_formula (uuid_to_string : N -> str) (Hinj : Inj (=) (=) uuid_to_string)
    (opts : PlanOptions) (file_name : str) (chunks : list JobChunk)
    (Hids : NoDup (map jc_id chunks)) (Hlen : (N.of_nat (length chunks) < 4294967296)%N) :
  let plan := plan_post_process opts file_name chunks in
  let text_count := length (List.filter is_text chunks) in
  let other_count := length (List.filter is_source chunks) - text_count in
  let sorted := sort_by (fun a b => (jc_start_at a <=? jc_start_at b)%Z) (List.filter is_text chunks) in
  length plan = expected_subtasks text_count other_count (question_enabled opts && question_task_enabled opts)
                  (needs_embedding opts) (wiki_enabled opts) (graph_enabled opts && extract_task_enabled opts)
                  (clone_keep opts) + Nat.b2n (is_table_file file_name)
  /\ Forall (fun w => derived w = true) plan
  /\ NoDup (map (work_key uuid_to_string) plan)
  /\ (forall ids prevs nexts b, WQuestions ids prevs nexts b ∈ plan -> 0 < length ids <= 20)
  /\ concat (map question_fields plan)
     = (if negb (clone_keep opts) && question_enabled opts && needs_embedding opts && question_task_enabled opts
        then imap (with_neighbours sorted) sorted else [])
  /\ sorted ≡ₚ List.filter is_text chunks
  /\ StronglySorted (fun a b => (jc_start_at a <= jc_start_at b)%Z) sorted.
Proof.
  split; [by apply plan_length|]. split; [apply plan_derived|]. split; [by apply plan_keys_NoDup|]. split; [apply plan_questions_bounds|].
  split; [by apply plan_fields|]. split; [apply sort_by_perm|].
  pose proof (sort_by_sorted (fun a b => (jc_start_at a <=? jc_start_at b)%Z) ltac:(cbn; lia) ltac:(cbn; lia)
    (List.filter is_text chunks)) as Hs.
  induction Hs as [|c l _ IH Hf]; constructor; [done|]. eapply Forall_impl; [done|]. cbn. lia.
Qed.

Lemma plan_matches_formula_witness :
  let opts := {| clone_keep := false; question_enabled := true; needs_embedding := true; graph_enabled := true;
                 wiki_enabled := true; question_task_enabled := true; extract_task_enabled := true |} in
  let chunk i t s := {| jc_id := i; jc_chunk_type := t; jc_start_at := s |} in
  let chunks := [chunk 2%N (u8"text") 7%Z; chunk 1%N (u8"text") 0%Z; chunk 3%N (u8"image_ocr") 0%Z; chunk 4%N (u8"question") 0%Z] in
  length (plan_post_process opts (u8"A.XLSX") chunks) = 7
  /\ concat (map question_fields (plan_post_process opts (u8"A.XLSX") chunks))
     = [(1%N, None, Some 2%N); (2%N, Some 1%N, None)].
Proof.
  intros opts chunk chunks.
  assert (Hinj : Inj (=) (=) (fun i : N => [Z.of_N i])) by (intros a b H; by simplify_eq).
  assert (Hids : NoDup (map jc_id chunks)) by (apply (bool_decide_unpack _); vm_compute; exact I).
  destruct (plan_matches_formula _ Hinj opts (u8"A.XLSX") chunks Hids eq_refl) as (H1 & _ & _ & _ & H2 & _).
  rewrite H1, H2. split; reflexivity.
Defined.
