(* ===== verification/Sse.v ===== *)
(** * Answers of language models

    [models/sse.rs] and the pure parts of [models/http.rs]: an answer is a JSON document or a
    stream of server-sent events ([data:] lines, closed by [data: [DONE]]).  The stream is
    read whole ([collect_chat_turn]), event by event from a blocking reader
    ([consume_sse_read]), or chunk by chunk from an asynchronous response
    ([chat_sse_turn_bytes]).  The parser of [serde_json] is a parameter; a value is a tree
    of the type below, of which a number is only asked for its [u64]. *)
From S2P Require Import Prelude RustStr StrReplace.
Open Scope nat_scope.

(** ** Bytes and lines *)

(** A Unicode scalar value. *)
Definition is_scalar (c : char) : bool :=
  ((0 <=? c) && (c <? 55296) || (57344 <=? c) && (c <? 1114112))%Z.

(** [String::from_utf8]: the string whose encoding the bytes are, when there is one. *)
Definition from_utf8 (b : list Z) : option str :=
  let s := decode_utf8 b in
  if forallb is_scalar s && bool_decide (as_bytes s = b) then Some s else None.

(** [strip_suffix] of one char; [None] when it does not end with it. *)
Definition strip_last (c : Z) (l : list Z) : option (list Z) :=
  match last l with Some d => if (d =? c)%Z then Some (removelast l) else None | None => None end.

(** [s.lines()]: the parts before the line feeds lose a carriage return at their end; what
    follows the last line feed is a line when it is not empty. *)
Fixpoint lines_of (parts : list str) : list str :=
  match parts with
  | [] => []
  | [p] => match p with [] => [] | _ => [p] end
  | p :: parts => default p (strip_last CR p) :: lines_of parts
  end.

Definition lines (s : str) : list str := lines_of (split_char NL s).


(** [<[u8]>::trim_ascii] *)
Definition is_ascii_whitespace (b : Z) : bool :=
  ((b =? 9) || (b =? 10) || (b =? 12) || (b =? 13) || (b =? 32))%Z.
Definition trim_ascii (l : list Z) : list Z := trim_end_by is_ascii_whitespace (trim_start_by is_ascii_whitespace l).

(** ** JSON values *)

Inductive Json :=
| JNull
| JBool (b : bool)
| JNumber (as_u64 : option N)
| JString (s : str)
| JArray (items : list Json)
| JObject (fields : list (str * Json)).

(** [v.get("k")] *)
Definition get (v : Json) (k : str) : option Json :=
  match v with
  | JObject fields => option_map snd (List.find (fun kv => str_eqb kv.1 k) fields)
  | _ => None
  end.

(** [v["k"]] and [v[i]]: [Null] when there is nothing. *)
Definition key (v : Json) (k : str) : Json := default JNull (get v k).
Definition at_index (v : Json) (i : nat) : Json :=
  match v with JArray items => default JNull (items !! i) | _ => JNull end.

Definition as_u64 (v : Json) : option N := match v with JNumber n => n | _ => None end.
Definition as_str (v : Json) : option str := match v with JString s => Some s | _ => None end.
Definition as_array (v : Json) : option (list Json) := match v with JArray l => Some l | _ => None end.
Definition is_object (v : Json) : bool := match v with JObject _ => true | _ => false end.

(** ** [sse.rs]: data *)

Record ChatToolCall := { tc_id : str; tc_name : str; tc_arguments : str }.
Record ChatUsage := {
  prompt_tokens : option N; completion_tokens : option N; total_tokens : option N;
  cached_tokens : option N; reasoning_tokens : option N;
}.
Record ChatTurn := {
  content : str; tool_calls : list ChatToolCall; finish_reason : str; turn_usage : option ChatUsage;
}.
Record CompletionResult := {
  cr_content : str; cr_finish_reason : str; done_seen : bool; transport_status : str;
  cr_usage : option ChatUsage; provider_request_id : option str;
}.

Definition usage (value : Json) : option ChatUsage :=
  if is_object value then Some {|
    prompt_tokens := as_u64 (key value (u8"prompt_tokens"));
    completion_tokens := as_u64 (key value (u8"completion_tokens"));
    total_tokens := as_u64 (key value (u8"total_tokens"));
    cached_tokens := as_u64 (key (key value (u8"prompt_tokens_details")) (u8"cached_tokens"));
    reasoning_tokens := as_u64 (key (key value (u8"completion_tokens_details")) (u8"reasoning_tokens")) |}
  else None.

Definition DATA : str := u8"data:".
Definition DONE : str := u8"[DONE]".

Definition looks_like_sse (body : str) : bool := existsb (fun l => starts_with (trim_start l) DATA) (lines body).

Definition sse_data_payloads (body : str) : list str :=
  omap (fun line =>
    rest ← strip_prefix line DATA;
    let data := trim rest in if str_is_empty data then None else Some data) (lines body).

Definition truncate (s : str) (n : nat) : str := if length s <=? n then s else take n s ++ u8"…".

(** A turn under construction: [turn] and the tool calls by index. *)
Record TurnState := { turn : ChatTurn; calls : gmap N ChatToolCall }.

Definition default_turn : ChatTurn := {| content := []; tool_calls := []; finish_reason := []; turn_usage := None |}.
Definition default_call : ChatToolCall := {| tc_id := []; tc_name := []; tc_arguments := [] |}.
Definition empty_state : TurnState := {| turn := default_turn; calls := ∅ |}.

(** [calls.into_values()]: by rising index. *)
Definition into_values (m : gmap N ChatToolCall) : list ChatToolCall :=
  map snd (sort_by (fun a b => (a.1 <=? b.1)%N) (map_to_list m)).

Definition finish (st : TurnState) : ChatTurn := {|
  content := content (turn st); tool_calls := into_values (calls st); finish_reason := finish_reason (turn st);
  turn_usage := turn_usage (turn st) |}.

(** The delta of one tool call on its slot. *)
Definition delta_call (item : Json) (slot : ChatToolCall) : ChatToolCall := {|
  tc_id := default (tc_id slot) (get item (u8"id") ≫= as_str);
  tc_name := tc_name slot ++ default [] (as_str (key (key item (u8"function")) (u8"name")));
  tc_arguments := tc_arguments slot ++ default [] (as_str (key (key item (u8"function")) (u8"arguments"))) |}.

Definition delta_index (item : Json) : N := default 0%N (get item (u8"index") ≫= as_u64).

Definition apply_delta (calls : gmap N ChatToolCall) (item : Json) : gmap N ChatToolCall :=
  <[delta_index item := delta_call item (default default_call (calls !! delta_index item))]> calls.

(** A whole tool call of a message. *)
Definition message_call (item : Json) : ChatToolCall := {|
  tc_id := default [] (get item (u8"id") ≫= as_str);
  tc_name := default [] (as_str (key (key item (u8"function")) (u8"name")));
  tc_arguments := default [] (as_str (key (key item (u8"function")) (u8"arguments"))) |}.

Definition choice (v : Json) : Json := at_index (key v (u8"choices")) 0.

(** [apply_sse_data] after the parse. *)
Definition apply_value (st : TurnState) (v : Json) : TurnState :=
  let t := turn st in
  let delta := key (choice v) (u8"delta") in
  let message := key (choice v) (u8"message") in
  let calls1 := match as_array (key delta (u8"tool_calls")) with
                | Some items => foldl apply_delta (calls st) items
                | None => calls st
                end in
  let text := content t ++ default [] (as_str (key delta (u8"content"))) in
  let text := if str_is_empty text then default [] (as_str (key message (u8"content"))) else text in
  let calls2 := match as_array (key message (u8"tool_calls")) with
                | Some items => foldl (fun m '(i, item) => <[N.of_nat i := message_call item]> m) calls1
                                  (imap pair items)
                | None => calls1
                end in
  {| turn := {| content := text; tool_calls := tool_calls t;
                finish_reason := default (finish_reason t) (as_str (key (choice v) (u8"finish_reason")));
                turn_usage := match usage (key v (u8"usage")) with Some u => Some u | None => turn_usage t end |};
     calls := calls2 |}.

Definition unary_turn (v : Json) : ChatTurn :=
  let message := key (choice v) (u8"message") in {|
  turn_usage := usage (key v (u8"usage"));
  content := default [] (as_str (key message (u8"content")));
  finish_reason := default [] (as_str (key (choice v) (u8"finish_reason")));
  tool_calls := map message_call (default [] (as_array (key message (u8"tool_calls")))) |}.

Section sse.

(** [serde_json::from_str]; an error is its message. *)
Context (from_str : str -> result str Json).

Definition apply_sse_data (st : TurnState) (data : str) : result str TurnState :=
  match from_str data with
  | Ok v => Ok (apply_value st v)
  | Err e => Err (u8"sse chat json: " ++ e ++ u8": " ++ truncate data 180)
  end.

(** The payloads in order; [true] when [[DONE]] ended the loop. *)
Fixpoint apply_payloads (st : TurnState) (payloads : list str) : result str (TurnState * bool) :=
  match payloads with
  | [] => Ok (st, false)
  | data :: payloads =>
    if str_eqb data DONE then Ok (st, true)
    else match apply_sse_data st data with
         | Ok st => apply_payloads st payloads
         | Err e => Err e
         end
  end.

(** ** A whole body *)

Definition collect_chat_turn (body : str) : result str ChatTurn :=
  if looks_like_sse body then
    match apply_payloads empty_state (sse_data_payloads body) with
    | Ok (st, _) => Ok (finish st)
    | Err e => Err e
    end
  else
    match from_str (trim body) with
    | Ok v => Ok (unary_turn v)
    | Err e => Err (u8"chat json: " ++ e)
    end.

(** [s.split_inclusive("\n\n")] *)
Fixpoint split_blank (fuel : nat) (s cur : str) : list str :=
  match fuel, s with
  | O, _ | _, [] => match cur with [] => [] | _ => [cur] end
  | S fuel, c :: s' =>
    if starts_with s [NL; NL] then (cur ++ [NL; NL]) :: split_blank fuel (drop 2 s) []
    else split_blank fuel s' (cur ++ [c])
  end.

Definition split_inclusive_blank (s : str) : list str := split_blank (length s) s [].

Definition complete_terminal (body : str) : bool :=
  existsb (fun event => ends_with event [NL; NL] && str_eqb (trim event) (u8"data: [DONE]"))
    (split_inclusive_blank (replace body [CR; NL] [NL])).

(** The last identifier before [[DONE]], and whether [[DONE]] was seen. *)
Fixpoint scan_ids (request_id : option str) (payloads : list str) : result str (option str * bool) :=
  match payloads with
  | [] => Ok (request_id, false)
  | data :: payloads =>
    if str_eqb data DONE then Ok (request_id, true)
    else match from_str data with
         | Ok v => scan_ids (match as_str (key v (u8"id")) with Some id => Some id | None => request_id end) payloads
         | Err e => Err e
         end
  end.

Definition collect_completion (body : str) : result str CompletionResult :=
  let streaming := looks_like_sse body in
  match collect_chat_turn body with
  | Err e => Err e
  | Ok t =>
    let ids := if streaming then
                 match scan_ids None (sse_data_payloads body) with
                 | Ok (id, done) => Ok (id, done && complete_terminal body)
                 | Err e => Err e
                 end
               else
                 match from_str body with
                 | Ok v => Ok (as_str (key v (u8"id")), true)
                 | Err e => Err e
                 end in
    match ids with
    | Err e => Err e
    | Ok (request_id, done) => Ok {|
        cr_content := content t; cr_finish_reason := finish_reason t; done_seen := done;
        transport_status := if done then u8"complete" else u8"interrupted"; cr_usage := turn_usage t;
        provider_request_id := request_id |}
    end
  end.

Definition bool_str (b : bool) : str := if b then u8"true" else u8"false".

Definition require_complete_text (r : CompletionResult) : result str str :=
  if negb (str_eqb (transport_status r) (u8"complete")) || negb (done_seen r)
     || negb (str_eqb (cr_finish_reason r) (u8"stop"))
  then Err (u8"incomplete completion: finish_reason=" ++ cr_finish_reason r ++ u8", done_seen="
              ++ bool_str (done_seen r) ++ u8", transport=" ++ transport_status r)
  else Ok (cr_content r).

Definition collect_chat_content (body : str) : result str str :=
  match collect_completion body with Ok r => require_complete_text r | Err e => Err e end.

(** The last payload as a value. *)
Fixpoint last_payload (last : option Json) (payloads : list str) : result str (option Json) :=
  match payloads with
  | [] => Ok last
  | data :: payloads =>
    if str_eqb data DONE then Ok last
    else match from_str data with
         | Ok v => last_payload (Some v) payloads
         | Err e => Err (u8"sse json: " ++ e ++ u8": " ++ truncate data 180)
         end
  end.

Definition last_json_value (body : str) : result str Json :=
  if looks_like_sse body then
    match last_payload None (sse_data_payloads body) with
    | Ok (Some v) => Ok v
    | Ok None => Err (u8"sse stream had no json data")
    | Err e => Err e
    end
  else match from_str (trim body) with Ok v => Ok v | Err e => Err (u8"json: " ++ e) end.

(** ** A blocking reader *)

(** [buf.windows(n).position(|w| w == pat)] *)
Fixpoint position (pat buf : list Z) (i : nat) : option nat :=
  match buf with
  | [] => None
  | _ :: buf' => if starts_with buf pat then Some i else position pat buf' (S i)
  end.

Definition find_event_break (buf : list Z) : option nat :=
  let lf := option_map (fun i => i + 1) (position [10; 10]%Z buf 0) in
  let crlf := option_map (fun i => i + 3) (position [13; 10; 13; 10]%Z buf 0) in
  match lf, crlf with
  | Some a, Some b => Some (Nat.min a b)
  | Some a, None => Some a
  | None, o => o
  end.

(** [String::from_utf8]'s error message for the bytes. *)
Context (utf8_error : list Z -> str).

(** The end of a function, or its state after a loop. *)
Inductive flow (S A : Type) := Next (s : S) | Return (r : result str A).
Arguments Next {S A}.
Arguments Return {S A}.

(** The inner loop: the complete events of the pending bytes. *)
Fixpoint drain_events (fuel : nat) (pending : list Z) (complete_events : nat) (st : TurnState)
    : flow (list Z * nat * TurnState) ChatTurn :=
  match fuel, find_event_break pending with
  | S fuel, Some idx =>
    let raw := take (S idx) pending in
    match from_utf8 raw with
    | None => Return (Err (u8"invalid UTF-8 SSE response: " ++ utf8_error raw))
    | Some text =>
      match apply_payloads st (sse_data_payloads text) with
      | Err e => Return (Err e)
      | Ok (st, true) => Return (Ok (finish st))
      | Ok (st, false) => drain_events fuel (drop (S idx) pending) (S complete_events) st
      end
    end
  | _, _ => Next (pending, complete_events, st)
  end.

Definition dec (n : nat) : str := decimal (N.of_nat n).

(** [reads] is what the calls of [read] answer; after the last one the stream is at its end. *)
Fixpoint consume_loop (reads : list (result str (list Z))) (pending : list Z) (bytes_read complete_events : nat)
    (st : TurnState) : result str ChatTurn :=
  let missing := Err (u8"incomplete SSE stream: missing [DONE]; bytes_read=" ++ dec bytes_read
                        ++ u8"; complete_events=" ++ dec complete_events) in
  match reads with
  | [] => missing
  | Err error :: _ =>
    Err (u8"sse read: " ++ error ++ u8"; bytes_read=" ++ dec bytes_read ++ u8"; complete_events=" ++ dec complete_events)
  | Ok [] :: _ => missing
  | Ok buf :: reads =>
    let pending := pending ++ buf in
    match drain_events (length pending) pending complete_events st with
    | Return r => r
    | Next (pending, complete_events, st) => consume_loop reads pending (bytes_read + length buf) complete_events st
    end
  end.

Definition consume_sse_read (reads : list (result str (list Z))) : result str ChatTurn :=
  consume_loop reads [] 0 0 empty_state.

(** ** [http.rs]: an asynchronous response *)

Inductive ChatTransportError :=
| Timeout (message : str)
| Unavailable (message : str)
| HttpStatus (code : N)
| Response (message : str).

(** The scan for the terminal event: all bytes so far, the start of the current line, the
    data lines of the current event and whether the last of them was [[DONE]]. *)
Record ScanState := { sc_bytes : list Z; line_start : nat; event_data_lines : nat; event_done : bool }.

Definition scan_start : ScanState :=
  {| sc_bytes := []; line_start := 0; event_data_lines := 0; event_done := false |}.

(** One byte of a chunk at position [offset + index]; [None]: the terminal event ends here. *)
Definition scan_byte (all : list Z) (st : ScanState) (pos : nat) (byte : Z) : option ScanState :=
  if negb (byte =? 10)%Z then Some st
  else
    let raw := sub all (line_start st) pos in
    let line := default raw (strip_last CR raw) in
    match line with
    | [] =>
      if (event_data_lines st =? 1) && event_done st then None
      else Some {| sc_bytes := all; line_start := S pos; event_data_lines := 0; event_done := false |}
    | _ =>
      match strip_prefix line (as_bytes DATA) with
      | Some data => Some {| sc_bytes := all; line_start := S pos; event_data_lines := S (event_data_lines st);
                             event_done := bool_decide (trim_ascii data = as_bytes DONE) |}
      | None => Some {| sc_bytes := all; line_start := S pos; event_data_lines := event_data_lines st;
                        event_done := event_done st |}
      end
    end.

(** The bytes of a chunk; on the right the bytes up to the end of the terminal event. *)
Fixpoint scan_chunk (all : list Z) (st : ScanState) (pos : nat) (chunk : list Z) : ScanState + list Z :=
  match chunk with
  | [] => inl {| sc_bytes := all; line_start := line_start st; event_data_lines := event_data_lines st;
                 event_done := event_done st |}
  | byte :: chunk =>
    match scan_byte all st pos byte with
    | None => inr (take (S pos) all)
    | Some st => scan_chunk all st (S pos) chunk
    end
  end.

(** The chunks of the body; an error is the one the transport reports. *)
Fixpoint scan_body (st : ScanState) (chunks : list (result ChatTransportError (list Z)))
    : result ChatTransportError (option (list Z)) :=
  match chunks with
  | [] => Ok None
  | Err e :: _ => Err e
  | Ok chunk :: chunks =>
    match scan_chunk (sc_bytes st ++ chunk) st (length (sc_bytes st)) chunk with
    | inr bytes => Ok (Some bytes)
    | inl st => scan_body st chunks
    end
  end.

(** The text up to the terminal event as a turn. *)
Definition finish_response (bytes : list Z) (allow_empty : bool) : result ChatTransportError ChatTurn :=
  match from_utf8 bytes with
  | None => Err (Response (u8"invalid UTF-8 SSE response: " ++ utf8_error bytes))
  | Some text =>
    match collect_chat_turn text with
    | Err e => Err (Response e)
    | Ok t =>
      if negb allow_empty && str_is_empty (trim (content t)) && bool_decide (tool_calls t = [])
      then Err (Response (u8"chat returned empty")) else Ok t
    end
  end.

(** What [chat_sse_turn_bytes] makes of the response: its status and its chunks. *)
Definition chat_sse_turn_bytes (status : N) (chunks : list (result ChatTransportError (list Z))) (allow_empty : bool)
    : result ChatTransportError ChatTurn :=
  if negb (is_success status) then Err (HttpStatus status)
  else
    match scan_body scan_start chunks with
    | Err e => Err e
    | Ok None => Err (Response (u8"incomplete SSE response: missing terminal event"))
    | Ok (Some bytes) => finish_response bytes allow_empty
    end.

(** [chat_complete_text_once_async]: the literal text of a turn that stopped by itself. *)
Definition require_literal (t : ChatTurn) : result ChatTransportError ChatTurn :=
  if negb (str_eqb (finish_reason t) (u8"stop")) || negb (bool_decide (tool_calls t = []))
  then Err (Response (u8"incomplete literal text: finish_reason=" ++ finish_reason t)) else Ok t.

Definition chat_complete_text_once_async (status : N) (chunks : list (result ChatTransportError (list Z)))
    : result ChatTransportError ChatTurn :=
  match chat_sse_turn_bytes status chunks true with Ok t => require_literal t | Err e => Err e end.

(** ** Retries *)

Definition HTTP_ATTEMPTS : nat := 3.
Definition AGENT_HTTP_ATTEMPTS : nat := 2.

Definition is_retryable (err : str) : bool :=
  let e := map to_ascii_lowercase err in
  existsb (contains e)
    [u8"timeout"; u8"timed out"; u8"connection"; u8"connect"; u8"sendrequest"; u8"sse read:";
     u8"request or response body error"; u8"error decoding response body"; u8"unexpected eof"; u8"os error 110";
     u8"llm http 429"; u8"llm http 502"; u8"llm http 503"; u8"llm http 504"].

(** [outcome i]: what the [i]-th call of [op] answers.  The result with the number of calls and the
    pauses between them in milliseconds. *)
Fixpoint retry_loop {T} (fuel attempt attempts : nat) (outcome : nat -> result str T) (last : str) (pauses : list N)
    : result str T * list N :=
  match fuel with
  | O => (Err last, pauses)
  | S fuel =>
    match outcome attempt with
    | Ok v => (Ok v, pauses)
    | Err e =>
      if (attempt <? attempts) && is_retryable e
      then retry_loop fuel (S attempt) attempts outcome e (pauses ++ [400 * 2 ^ N.of_nat (attempt - 1)]%N)
      else (Err e, pauses)
    end
  end.

Definition with_retry_n {T} (attempts : nat) (outcome : nat -> result str T) : result str T * list N :=
  retry_loop attempts 1 attempts outcome [] [].

End sse.

(** The error on an event without [[DONE]], as in the tests. *)
Example looks_like : (looks_like_sse (u8"  data: {}"), looks_like_sse (u8"{}")) = (true, false).
Proof. reflexivity. Qed.

Example payloads_of : sse_data_payloads (u8"data: a
event: x
data:b

data:
") = [u8"a"; u8"b"].
Proof. reflexivity. Qed.

Example utf8_checked :
  (from_utf8 [228; 184; 173]%Z, from_utf8 [228; 184]%Z, from_utf8 [192; 128]%Z, from_utf8 [237; 160; 128]%Z)
  = (Some (u8"中"), None, None, None).
Proof. reflexivity. Qed.
