(* ===== verification/SseFacts.v ===== *)
(** * Facts about the answers of language models

    The bytes of a blocking reader are seen through the sequence of their complete events,
    which does not depend on how the bytes arrive; the asynchronous scan through the lines
    of what it has read. *)
From S2P Require Import Prelude RustStr NumText StrReplace Sse.
Open Scope nat_scope.
#[local] Arguments lit : simpl never.

Arguments Next {S A}.
Arguments Return {S A}.

(** ** UTF-8 *)

Lemma land_ones a n : (0 <= n)%Z -> Z.land a (Z.ones n) = (a mod 2 ^ n)%Z.
Proof. apply Z.land_ones. Qed.

Lemma lor_add (a n x : Z) : (0 <= n)%Z -> (0 <= x < 2 ^ n)%Z -> (a mod 2 ^ n = 0)%Z -> Z.lor a x = (a + x)%Z.
Proof.
  intros Hn Hx Ha. rewrite Z.add_nocarry_lxor, Z.lxor_lor; [done|..].
  all: apply Z.bits_inj'; intros i Hi; rewrite Z.land_spec, Z.bits_0.
  all: destruct (Z.lt_ge_cases i n) as [Hlt|Hge].
  all: try (replace (Z.testbit a i) with false; [done|]; symmetry;
            rewrite <- (Z.mod_pow2_bits_low a n i), Ha, Z.bits_0 by lia; done).
  all: replace (Z.testbit x i) with false; [apply andb_false_r|]; symmetry;
    rewrite <- (Z.mod_small x (2 ^ n)) by done; apply Z.mod_pow2_bits_high; lia.
Qed.

Lemma land_low a n m : (m = Z.ones n)%Z -> (0 <= n)%Z -> Z.land a m = (a mod 2 ^ n)%Z.
Proof. intros ->. apply Z.land_ones. Qed.

(** The bytes of a char as sums. *)
Lemma utf8_char_sum c : (0 <= c < 1114112)%Z ->
  utf8_char c =
    (if c <? 128 then [c]
     else if c <? 2048 then [192 + c / 64; 128 + c mod 64]
     else if c <? 65536 then [224 + c / 4096; 128 + c / 64 mod 64; 128 + c mod 64]
     else [240 + c / 262144; 128 + c / 4096 mod 64; 128 + c / 64 mod 64; 128 + c mod 64])%Z.
Proof.
  intros Hc. unfold utf8_char.
  rewrite !(land_low _ 6 63), !Z.shiftr_div_pow2 by (done || lia). change (2 ^ 6)%Z with 64%Z.
  change (2 ^ 12)%Z with 4096%Z. change (2 ^ 18)%Z with 262144%Z.
  assert (Hm : forall a, (0 <= a mod 64 < 2 ^ 6)%Z) by (intros a; apply Z.mod_pos_bound; lia).
  destruct (Z.ltb_spec c 128); [done|].
  destruct (Z.ltb_spec c 2048); [|destruct (Z.ltb_spec c 65536)].
  - rewrite (lor_add 192 5), (lor_add 128 6); try done. split; [apply Z.div_pos; lia|].
    change (2 ^ 5)%Z with 32%Z. apply Z.div_lt_upper_bound; lia.
  - rewrite (lor_add 224 4), !(lor_add 128 6); try done. split; [apply Z.div_pos; lia|].
    change (2 ^ 4)%Z with 16%Z. apply Z.div_lt_upper_bound; lia.
  - rewrite (lor_add 240 3), !(lor_add 128 6); try done. split; [apply Z.div_pos; lia|].
    change (2 ^ 3)%Z with 8%Z. apply Z.div_lt_upper_bound; lia.
Qed.

Lemma land_base base n m x :
  (m = Z.ones n)%Z -> (0 <= n)%Z -> (base mod 2 ^ n = 0)%Z -> (0 <= x < 2 ^ n)%Z -> Z.land (base + x) m = x.
Proof.
  intros Hm Hn Hb Hx. rewrite (land_low _ n m), Z.add_mod, Hb, Z.add_0_l, Z.mod_mod, Z.mod_small by (done || lia). done.
Qed.

Lemma decode_char c l : (0 <= c < 1114112)%Z -> decode_utf8 (utf8_char c ++ l) = c :: decode_utf8 l.
Proof.
  intros Hc. rewrite utf8_char_sum by done.
  assert (Hm : forall a, (0 <= a mod 64 < 64)%Z) by (intros a; apply Z.mod_pos_bound; lia).
  assert (Hl : forall a, Z.land (128 + a mod 64) 63 = (a mod 64)%Z) by (intros a; by apply (land_base 128 6)).
  assert (H64 : forall a, (a = 64 * (a / 64) + a mod 64)%Z) by (intros a; apply Z.div_mod; lia).
  pose proof (H64 c) as Hc1. pose proof (H64 (c / 64)%Z) as Hc2. pose proof (H64 (c / 64 / 64)%Z) as Hc3.
  rewrite !Z.div_div in * by lia. change (64 * 64)%Z with 4096%Z in *. change (4096 * 64)%Z with 262144%Z in *.
  pose proof (Hm c) as Hm1. pose proof (Hm (c / 64)%Z) as Hm2. pose proof (Hm (c / 4096)%Z) as Hm3.
  destruct (Z.ltb_spec c 128) as [H1|H1]; cbn [app decode_utf8].
  { by rewrite (proj2 (Z.ltb_lt c 128)). }
  destruct (Z.ltb_spec c 2048) as [H2|H2]; [|destruct (Z.ltb_spec c 65536) as [H3|H3]]; cbn [app decode_utf8]; rewrite !Hl.
  - rewrite (proj2 (Z.ltb_ge (192 + c / 64) 128)), (proj2 (Z.ltb_lt (192 + c / 64) 224)) by lia.
    rewrite (land_base 192 5 31) by (done || lia). f_equal. lia.
  - rewrite (proj2 (Z.ltb_ge (224 + c / 4096) 128)), (proj2 (Z.ltb_ge (224 + c / 4096) 224)),
      (proj2 (Z.ltb_lt (224 + c / 4096) 240)) by lia.
    rewrite (land_base 224 4 15) by (done || lia). f_equal. lia.
  - rewrite (proj2 (Z.ltb_ge (240 + c / 262144) 128)), (proj2 (Z.ltb_ge (240 + c / 262144) 224)),
      (proj2 (Z.ltb_ge (240 + c / 262144) 240)) by lia.
    rewrite (land_base 240 3 7) by (done || lia). f_equal. lia.
Qed.

Lemma scalar_range c : is_scalar c = true -> (0 <= c < 1114112)%Z.
Proof. unfold is_scalar. lia. Qed.

(** Decoding inverts encoding, so [from_utf8] accepts the encodings of strings. *)
Lemma from_utf8_spec b s : from_utf8 b = Some s <-> forallb is_scalar s = true /\ as_bytes s = b.
Proof.
  assert (Hd : forall s, forallb is_scalar s = true -> decode_utf8 (as_bytes s) = s).
  { clear. induction s as [|c s IH]; intros H; [done|]. cbn in H. apply andb_true_iff in H as [Hc Hs].
    unfold as_bytes. cbn [map concat]. rewrite decode_char by (by apply scalar_range). f_equal. by apply IH. }
  unfold from_utf8. split.
  - destruct (forallb is_scalar (decode_utf8 b)) eqn:E; [|done]. cbn [andb].
    case_bool_decide; [|done]. intros [= <-]. done.
  - intros [Hs <-]. rewrite Hd, Hs by done. cbn [andb]. by rewrite bool_decide_eq_true_2.
Qed.

(** An ASCII byte is a char of its own. *)
Lemma utf8_char_ascii c x : is_scalar c = true -> (0 <= x < 128)%Z -> x ∈ utf8_char c -> c = x.
Proof.
  intros Hc%scalar_range Hx. rewrite utf8_char_sum by done.
  assert (Hm : forall a, (0 <= a mod 64)%Z) by (intros a; apply Z.mod_pos_bound; lia).
  pose proof (Hm c) as Hm1. pose proof (Hm (c / 64)%Z) as Hm2. pose proof (Hm (c / 4096)%Z) as Hm3.
  assert (Hp : forall k, (0 < k)%Z -> (0 <= c / k)%Z) by (intros k Hk; apply Z.div_pos; lia).
  pose proof (Hp 64%Z ltac:(lia)) as Hp1. pose proof (Hp 4096%Z ltac:(lia)) as Hp2. pose proof (Hp 262144%Z ltac:(lia)) as Hp3.
  destruct (Z.ltb_spec c 128); [by intros ->%list_elem_of_singleton|]. intros Hin. exfalso.
  repeat case_match; repeat (apply elem_of_cons in Hin as [Hin|Hin]; [lia|]); by apply not_elem_of_nil in Hin.
Qed.

(** Bytes before an ASCII byte are the encoding of a prefix. *)
Lemma cut_ascii s a x b : forallb is_scalar s = true -> (0 <= x < 128)%Z -> as_bytes s = a ++ [x] ++ b ->
  exists s1 s2, s = s1 ++ x :: s2 /\ as_bytes s1 = a /\ as_bytes s2 = b.
Proof.
  intros Hs Hx. revert a Hs. induction s as [|c s IH]; intros a Hs Heq; [by destruct a|].
  cbn in Hs. apply andb_true_iff in Hs as [Hc Hs]. unfold as_bytes in Heq. cbn [map concat] in Heq. fold (as_bytes s) in Heq.
  apply app_eq_inv in Heq as [(l & Hu & Hr)|(l & -> & Hr)].
  - destruct l as [|y l].
    + rewrite app_nil_r in Hu. cbn in Hr. destruct (IH [] Hs (eq_sym Hr)) as (s1 & s2 & -> & H1 & H2).
      destruct s1 as [|c' s1].
      * exists [c], s2. split; [done|]. split; [|done]. unfold as_bytes. cbn. by rewrite app_nil_r.
      * apply (f_equal length) in H1. rewrite length_as_bytes in H1. cbn in H1. pose proof (len_utf8_pos c'). lia.
    + cbn in Hr. injection Hr as <- Hr. pose proof (utf8_char_ascii c x Hc Hx ltac:(rewrite Hu; set_solver)) as ->.
      assert (Hu' : utf8_char x = [x]) by (unfold utf8_char; by rewrite (proj2 (Z.ltb_lt x 128)) by lia).
      rewrite Hu' in Hu. destruct a as [|z a]; [|by destruct a]. cbn in Hu. injection Hu as <-. cbn in Hr.
      exists [], s. by subst.
  - destruct (IH l Hs Hr) as (s1 & s2 & -> & <- & <-). by exists (c :: s1), s2.
Qed.

Lemma scalar_app a b : forallb is_scalar (a ++ b) = true -> forallb is_scalar a = true /\ forallb is_scalar b = true.
Proof. rewrite forallb_app. apply andb_true_iff. Qed.

Lemma as_bytes_nil s : as_bytes s = [] -> s = [].
Proof. intros H. apply blen_nil_inv. by rewrite <- length_as_bytes, H. Qed.

Lemma starts_ascii pat s b : forallb is_scalar s = true -> Forall (fun x => (0 <= x < 128)%Z) pat ->
  as_bytes s = pat ++ b -> exists s2, s = pat ++ s2 /\ as_bytes s2 = b.
Proof.
  intros Hs Hpat. revert s Hs. induction Hpat as [|x pat Hx _ IH]; intros s Hs Heq; [by exists s|].
  destruct (cut_ascii s [] x (pat ++ b) Hs Hx Heq) as (s1 & s2 & -> & ->%as_bytes_nil & H2).
  apply scalar_app in Hs as [_ Hs]. cbn in Hs. apply andb_true_iff in Hs as [_ Hs].
  destruct (IH s2 Hs H2) as (s3 & -> & <-). by exists s3.
Qed.

(** Bytes with ASCII in the middle are the encoding of a text with it in the middle. *)
Lemma cut_ascii_string pat s a b : forallb is_scalar s = true -> Forall (fun x => (0 <= x < 128)%Z) pat -> pat <> [] ->
  as_bytes s = a ++ pat ++ b -> exists s1 s2, s = s1 ++ pat ++ s2 /\ as_bytes s1 = a /\ as_bytes s2 = b.
Proof.
  intros Hs Hpat Hne Heq. destruct Hpat as [|x pat Hx Hpat]; [done|].
  destruct (cut_ascii s a x (pat ++ b) Hs Hx Heq) as (s1 & s2 & -> & <- & H2).
  apply scalar_app in Hs as [_ Hs]. cbn in Hs. apply andb_true_iff in Hs as [_ Hs].
  destruct (starts_ascii pat s2 b Hs Hpat H2) as (s3 & -> & <-). by exists s1, s3.
Qed.

(** ** Event breaks *)

Lemma position_ge pat buf i j : position pat buf i = Some j -> i <= j.
Proof.
  revert i. induction buf as [|b buf IH]; intros i H; cbn [position] in H; [done|].
  destruct (starts_with (b :: buf) pat); [by injection H as <-|]. apply IH in H. lia.
Qed.

Lemma position_spec pat buf i j : pat <> [] ->
  position pat buf i = Some j -> i <= j /\ exists r, drop (j - i) buf = pat ++ r /\ j - i + length pat <= length buf.
Proof.
  intros Hp. revert i. induction buf as [|b buf IH]; intros i H; cbn [position] in H; [done|].
  destruct (starts_with (b :: buf) pat) eqn:E.
  - injection H as <-. split; [done|]. apply starts_with_spec in E as (r & E). exists r. rewrite Nat.sub_diag, E.
    split; [done|]. rewrite length_app. lia.
  - destruct (IH (S i) H) as (Hi & r & Hd & Hl). split; [lia|]. exists r.
    replace (j - i) with (S (j - S i)) by lia. cbn [drop length]. split; [done|lia].
Qed.

Lemma position_app pat a b i j : pat <> [] -> position pat a i = Some j -> position pat (a ++ b) i = Some j.
Proof.
  intros Hp. revert i. induction a as [|x a IH]; intros i H; cbn [position app] in *; [done|].
  destruct (starts_with (x :: a) pat) eqn:E.
  - change (x :: a ++ b) with ((x :: a) ++ b). by rewrite starts_with_extend.
  - destruct (starts_with (x :: a ++ b) pat) eqn:E'; [|by apply IH].
    exfalso. destruct (position_spec pat a (S i) j Hp H) as (_ & r & _ & Hl).
    change (x :: a ++ b) with ((x :: a) ++ b) in E'.
    rewrite (starts_with_cut pat (x :: a) b) in E by (done || (cbn; lia)). done.
Qed.

Lemma position_none pat a b i j : pat <> [] ->
  position pat a i = None -> position pat (a ++ b) i = Some j -> length a < j - i + length pat.
Proof.
  intros Hp. revert i. induction a as [|x a IH]; intros i H H'; cbn [length].
  { destruct pat; [done|]. cbn. lia. }
  cbn [position app] in *. destruct (starts_with (x :: a) pat) eqn:E; [done|].
  destruct (starts_with (x :: a ++ b) pat) eqn:E'.
  - injection H' as <-. destruct (Nat.le_gt_cases (length pat) (length (x :: a))) as [Hle|Hgt]; [|cbn in Hgt; lia].
    change (x :: a ++ b) with ((x :: a) ++ b) in E'. by rewrite (starts_with_cut pat (x :: a) b) in E.
  - pose proof (position_ge _ _ _ _ H') as Hge. apply (IH (S i)) in H'; [lia|done].
Qed.

(** The break found in a buffer is found in every longer one. *)
Lemma find_event_break_app a b i : find_event_break a = Some i -> find_event_break (a ++ b) = Some i.
Proof.
  unfold find_event_break. intros H.
  destruct (position [10; 10]%Z a 0) as [x|] eqn:Ex, (position [13; 10; 13; 10]%Z a 0) as [y|] eqn:Ey;
    cbn [option_map] in H; try done.
  - rewrite (position_app [10; 10]%Z a b 0 x ltac:(done) Ex), (position_app [13; 10; 13; 10]%Z a b 0 y ltac:(done) Ey). exact H.
  - rewrite (position_app [10; 10]%Z a b 0 x ltac:(done) Ex). injection H as <-.
    destruct (position_spec [10; 10]%Z a 0 x ltac:(done) Ex) as (_ & _ & _ & Hx). cbn [length] in Hx.
    destruct (position [13; 10; 13; 10]%Z (a ++ b) 0) as [y|] eqn:Ey'; [|done].
    pose proof (position_none [13; 10; 13; 10]%Z a b 0 y ltac:(done) Ey Ey') as Hy. cbn [length] in Hy. cbn. f_equal. lia.
  - rewrite (position_app [13; 10; 13; 10]%Z a b 0 y ltac:(done) Ey). injection H as <-.
    destruct (position_spec [13; 10; 13; 10]%Z a 0 y ltac:(done) Ey) as (_ & _ & _ & Hy). cbn [length] in Hy.
    destruct (position [10; 10]%Z (a ++ b) 0) as [x|] eqn:Ex'; [|done].
    pose proof (position_none [10; 10]%Z a b 0 x ltac:(done) Ex Ex') as Hx. cbn [length] in Hx. cbn. f_equal. lia.
Qed.

(** A break ends with one of the two separators. *)
Lemma find_event_break_spec a i : find_event_break a = Some i ->
  S i <= length a /\ exists p, take (S i) a = p ++ [10; 10]%Z \/ take (S i) a = p ++ [13; 10; 13; 10]%Z.
Proof.
  assert (Hcut : forall pat j n, pat <> [] -> position pat a 0 = Some j -> n = j + length pat ->
                   n <= length a /\ take n a = take j a ++ pat).
  { intros pat j n Hp Hj ->. destruct (position_spec pat a 0 j Hp Hj) as (_ & r & Hd & Hl).
    rewrite Nat.sub_0_r in *. split; [done|]. rewrite <- (take_drop j a) at 1. rewrite Hd.
    rewrite take_app_ge by (rewrite length_take; lia). rewrite length_take_le by lia.
    replace (j + length pat - j) with (length pat) by lia. by rewrite take_app_length. }
  unfold find_event_break. intros H.
  assert (Hx : forall x, position [10; 10]%Z a 0 = Some x -> i = x + 1 ->
    S i <= length a /\ exists p, take (S i) a = p ++ [10; 10]%Z \/ take (S i) a = p ++ [13; 10; 13; 10]%Z).
  { intros x Ex ->. destruct (Hcut [10; 10]%Z x (S (x + 1)) ltac:(done) Ex ltac:(cbn; lia)). eauto. }
  assert (Hy : forall y, position [13; 10; 13; 10]%Z a 0 = Some y -> i = y + 3 ->
    S i <= length a /\ exists p, take (S i) a = p ++ [10; 10]%Z \/ take (S i) a = p ++ [13; 10; 13; 10]%Z).
  { intros y Ey ->. destruct (Hcut [13; 10; 13; 10]%Z y (S (y + 3)) ltac:(done) Ey ltac:(cbn; lia)). eauto. }
  destruct (position [10; 10]%Z a 0) as [x|], (position [13; 10; 13; 10]%Z a 0) as [y|]; cbn in H; simplify_eq; eauto.
  destruct (Nat.min_dec (x + 1) (y + 3)) as [Hm|Hm]; [eapply Hx|eapply Hy]; done.
Qed.

(** ** The events of a byte stream *)

Fixpoint split_events (fuel : nat) (buf : list Z) : list (list Z) * list Z :=
  match fuel, find_event_break buf with
  | S fuel, Some idx => let '(evs, rest) := split_events fuel (drop (S idx) buf) in (take (S idx) buf :: evs, rest)
  | _, _ => ([], buf)
  end.

Definition events (buf : list Z) : list (list Z) * list Z := split_events (length buf) buf.

Lemma split_events_fuel fuel buf : length buf <= fuel -> split_events fuel buf = events buf.
Proof.
  unfold events. revert buf. assert (Hg : forall n m buf, length buf <= n -> length buf <= m ->
    split_events n buf = split_events m buf); [|intros; apply Hg; lia].
  induction n as [|n IH]; intros [|m] buf Hn Hm; cbn [split_events]; try done.
  - by destruct buf; [|cbn in Hn; lia].
  - by destruct buf; [|cbn in Hm; lia].
  - destruct (find_event_break buf) as [i|] eqn:E; [|done]. apply find_event_break_spec in E as (Hi & _).
    by rewrite (IH m) by (rewrite length_drop; lia).
Qed.

Lemma events_step buf i : find_event_break buf = Some i ->
  events buf = (take (S i) buf :: (events (drop (S i) buf)).1, (events (drop (S i) buf)).2).
Proof.
  intros E. pose proof (find_event_break_spec _ _ E) as (Hi & _). unfold events at 1.
  destruct buf as [|x buf]; [done|]. cbn [length split_events]. rewrite E.
  rewrite split_events_fuel by (rewrite length_drop; cbn in *; lia). by destruct (events _).
Qed.

Lemma events_none buf : find_event_break buf = None -> events buf = ([], buf).
Proof. intros E. unfold events. destruct (length buf); cbn [split_events]; [done|]. by rewrite E. Qed.

(** Bytes that arrive later do not change the events there are. *)
Lemma events_app a b :
  events (a ++ b) = ((events a).1 ++ (events ((events a).2 ++ b)).1, (events ((events a).2 ++ b)).2).
Proof.
  remember (length a) as n eqn:Hn. revert a Hn. induction (lt_wf n) as [n _ IH]. intros a ->.
  destruct (find_event_break a) as [i|] eqn:E.
  - pose proof (find_event_break_spec _ _ E) as (Hi & _).
    rewrite (events_step a i E), (events_step (a ++ b) i) by (by apply find_event_break_app).
    rewrite take_app_le, drop_app_le by lia. cbn [fst snd app].
    rewrite (IH (length (drop (S i) a)) ltac:(rewrite length_drop; lia) (drop (S i) a) eq_refl). done.
  - rewrite (events_none a E). cbn [fst snd app]. by destruct (events (a ++ b)).
Qed.

Lemma events_rest buf : find_event_break (events buf).2 = None.
Proof.
  remember (length buf) as n eqn:Hn. revert buf Hn. induction (lt_wf n) as [n _ IH]. intros buf ->.
  destruct (find_event_break buf) as [i|] eqn:E.
  - pose proof (find_event_break_spec _ _ E) as (Hi & _). rewrite (events_step buf i E). cbn.
    by apply (IH (length (drop (S i) buf))); [rewrite length_drop; lia|].
  - by rewrite (events_none buf E).
Qed.

Lemma events_concat buf : buf = concat (events buf).1 ++ (events buf).2.
Proof.
  remember (length buf) as n eqn:Hn. revert buf Hn. induction (lt_wf n) as [n _ IH]. intros buf ->.
  destruct (find_event_break buf) as [i|] eqn:E.
  - pose proof (find_event_break_spec _ _ E) as (Hi & _). rewrite (events_step buf i E). cbn [fst snd concat].
    rewrite <- app_assoc, <- (IH (length (drop (S i) buf)) ltac:(rewrite length_drop; lia) _ eq_refl).
    by rewrite take_drop.
  - by rewrite (events_none buf E).
Qed.

Section facts.
Context (from_str : str -> result str Json) (utf8_error : list Z -> str).
Notation apply_payloads := (apply_payloads from_str).
Notation drain_events := (drain_events from_str utf8_error).
Notation consume_loop := (consume_loop from_str utf8_error).
Notation consume_sse_read := (consume_sse_read from_str utf8_error).

(** What the reader does with events. *)
Fixpoint process (evs : list (list Z)) (n : nat) (st : TurnState) : flow (nat * TurnState) ChatTurn :=
  match evs with
  | [] => Next (n, st)
  | raw :: evs =>
    match from_utf8 raw with
    | None => Return (Err (u8"invalid UTF-8 SSE response: " ++ utf8_error raw))
    | Some text =>
      match apply_payloads st (sse_data_payloads text) with
      | Err e => Return (Err e)
      | Ok (st, true) => Return (Ok (finish st))
      | Ok (st, false) => process evs (S n) st
      end
    end
  end.

Lemma process_app e1 e2 n st :
  process (e1 ++ e2) n st = match process e1 n st with Next (n', st') => process e2 n' st' | Return r => Return r end.
Proof.
  revert n st. induction e1 as [|raw e1 IH]; intros n st; cbn [app process]; [done|].
  destruct (from_utf8 raw); [|done]. by destruct (apply_payloads _ _) as [[st' []]|].
Qed.

Lemma drain_events_eq fuel buf n st : length buf <= fuel ->
  drain_events fuel buf n st =
    match process (events buf).1 n st with Next (n', st') => Next ((events buf).2, n', st') | Return r => Return r end.
Proof.
  revert buf n st. induction fuel as [|fuel IH]; intros buf n st Hf; cbn [Sse.drain_events].
  { by destruct buf; [|cbn in Hf; lia]. }
  destruct (find_event_break buf) as [i|] eqn:E; [|by rewrite (events_none buf E)].
  pose proof (find_event_break_spec _ _ E) as (Hi & _). rewrite (events_step buf i E). cbn [fst snd process].
  destruct (from_utf8 (take (S i) buf)); [|done]. destruct (apply_payloads _ _) as [[st' []]|]; [done| |done].
  apply IH. rewrite length_drop. lia.
Qed.

Definition missing_done (bytes_read complete_events : nat) : str :=
  u8"incomplete SSE stream: missing [DONE]; bytes_read=" ++ dec bytes_read ++ u8"; complete_events=" ++ dec complete_events.

(** The reader only sees the bytes, not how they arrive. *)
Lemma consume_loop_eq bufs pending br n st :
  Forall (fun b => b <> []) bufs -> find_event_break pending = None ->
  consume_loop (map Ok bufs) pending br n st =
    match process (events (pending ++ concat bufs)).1 n st with
    | Next (n', _) => Err (missing_done (br + length (concat bufs)) n')
    | Return r => r
    end.
Proof.
  intros Hne. revert pending br n st. induction Hne as [|buf bufs Hb _ IH]; intros pending br n st Hp.
  { cbn [map Sse.consume_loop concat]. rewrite app_nil_r, (events_none pending Hp). cbn [process fst length].
    rewrite Nat.add_0_r. unfold missing_done. reflexivity. }
  cbn [map Sse.consume_loop concat]. destruct buf as [|x buf]; [done|]. set (b := x :: buf) in *.
  rewrite drain_events_eq by done. rewrite app_assoc, (events_app (pending ++ b)). cbn [fst].
  rewrite process_app. destruct (process (events (pending ++ b)).1 n st) as [[n' st']|r]; [|done].
  rewrite IH by apply events_rest. rewrite length_app, Nat.add_assoc. reflexivity.
Qed.

Lemma consume_eq bufs : Forall (fun b => b <> []) bufs ->
  consume_sse_read (map Ok bufs) =
    match process (events (concat bufs)).1 0 empty_state with
    | Next (n, _) => Err (missing_done (length (concat bufs)) n)
    | Return r => r
    end.
Proof. intros H. unfold Sse.consume_sse_read. rewrite consume_loop_eq by done. reflexivity. Qed.

(** ** Events as text *)

Definition strip_cr (p : str) : str := default p (strip_last CR p).

Lemma lines_of_app a b : b <> [] -> lines_of (a ++ b) = map strip_cr a ++ lines_of b.
Proof.
  intros Hb. induction a as [|p a IH]; [done|]. cbn [app map]. rewrite <- IH.
  destruct (a ++ b) as [|q l] eqn:E; [by destruct a|]. done.
Qed.

Lemma lines_app p r : lines (p ++ [NL] ++ r) = map strip_cr (split_char NL p) ++ lines r.
Proof. unfold lines. rewrite split_char_app_sep, lines_of_app; [done|apply split_char_nonempty]. Qed.

Definition ends_line (s : str) : Prop := s = [] \/ exists p, s = p ++ [NL].

Lemma payloads_app p r : ends_line p -> sse_data_payloads (p ++ r) = sse_data_payloads p ++ sse_data_payloads r.
Proof.
  intros [->|[q ->]]; [done|]. unfold sse_data_payloads. rewrite <- app_assoc, lines_app.
  replace (lines (q ++ [NL])) with (map strip_cr (split_char NL q)); [by rewrite omap_app|].
  rewrite <- (app_nil_r (q ++ [NL])), <- app_assoc, lines_app. by rewrite app_nil_r.
Qed.

Lemma ends_line_concat strs : Forall ends_line strs -> ends_line (concat strs).
Proof.
  induction strs as [|s strs IH]; intros H; [by left|]. apply Forall_cons in H as [Hs Hrest]. cbn [concat].
  destruct (IH Hrest) as [->|[q ->]]; [by rewrite app_nil_r|]. right. exists (s ++ q). by rewrite app_assoc.
Qed.

(** A text that ends with a blank line. *)
Definition event_end (p : str) : Prop := exists q, p = q ++ [NL; NL] \/ p = q ++ [CR; NL; CR; NL].

Lemma event_end_line p : event_end p -> ends_line p.
Proof.
  intros (q & [->| ->]); right; [exists (q ++ [NL])|exists (q ++ [CR; NL; CR])]; by rewrite <- app_assoc.
Qed.

(** The events of a text are texts. *)
Lemma events_body body : forallb is_scalar body = true ->
  exists strs rest, events (as_bytes body) = (map as_bytes strs, as_bytes rest) /\ body = concat strs ++ rest
    /\ Forall event_end strs.
Proof.
  remember (length (as_bytes body)) as n eqn:Hn. revert body Hn. induction (lt_wf n) as [n _ IH]. intros body -> Hs.
  destruct (find_event_break (as_bytes body)) as [i|] eqn:E; [|exists [], body; by rewrite events_none].
  pose proof (find_event_break_spec _ _ E) as (Hi & p & Hp).
  assert (Hcut : exists s1 s2, body = s1 ++ s2 /\ event_end s1 /\ as_bytes s1 = take (S i) (as_bytes body)
                   /\ as_bytes s2 = drop (S i) (as_bytes body)).
  { pose proof (take_drop (S i) (as_bytes body)) as Htd.
    assert (Hpat : forall pat, pat = [NL; NL] \/ pat = [CR; NL; CR; NL] -> take (S i) (as_bytes body) = p ++ pat ->
              exists s1 s2, body = s1 ++ s2 /\ event_end s1 /\ as_bytes s1 = take (S i) (as_bytes body)
                   /\ as_bytes s2 = drop (S i) (as_bytes body)); [|destruct Hp; eauto].
    intros pat Hpat Ht. rewrite Ht, <- app_assoc in Htd.
    destruct (cut_ascii_string pat body p (drop (S i) (as_bytes body)) Hs) as (s1 & s2 & -> & H1 & H2);
      [destruct Hpat as [->| ->]; repeat constructor; done..|done|].
    exists (s1 ++ pat), s2. split; [by rewrite app_assoc|]. split; [exists s1; destruct Hpat as [->| ->]; auto|].
    split; [|done]. rewrite Ht, as_bytes_app, H1. by destruct Hpat as [->| ->]. }
  destruct Hcut as (s1 & s2 & Hb & He & H1 & H2). rewrite Hb in Hs. apply scalar_app in Hs as [_ Hs2].
  destruct (IH (length (as_bytes s2))) with (body := s2) as (strs & rest & Hev & Hc & Hf); [|done|done|].
  { rewrite H2, length_drop. lia. }
  exists (s1 :: strs), rest. rewrite (events_step _ _ E), <- H1, <- H2, Hev. cbn [map fst snd concat].
  split; [done|]. split; [by rewrite Hb, Hc, app_assoc|by constructor].
Qed.

Lemma apply_payloads_app ps1 ps2 st :
  apply_payloads st (ps1 ++ ps2) =
    match apply_payloads st ps1 with Ok (st1, false) => apply_payloads st1 ps2 | r => r end.
Proof.
  revert st. induction ps1 as [|d ps1 IH]; intros st; [done|]. cbn [app Sse.apply_payloads].
  destruct (str_eqb d DONE); [done|]. by destruct (apply_sse_data from_str st d).
Qed.

Lemma process_texts strs n st :
  Forall event_end strs -> forallb is_scalar (concat strs) = true ->
  process (map as_bytes strs) n st =
    match apply_payloads st (sse_data_payloads (concat strs)) with
    | Err e => Return (Err e)
    | Ok (st', true) => Return (Ok (finish st'))
    | Ok (st', false) => Next (n + length strs, st')
    end.
Proof.
  intros Hf. revert n st. induction Hf as [|s strs Hp Hf IH]; intros n st Hs; cbn [map concat process length].
  { by rewrite Nat.add_0_r. }
  cbn [concat] in Hs. apply scalar_app in Hs as [Hs1 Hs2].
  rewrite (proj2 (from_utf8_spec (as_bytes s) s) (conj Hs1 eq_refl)), payloads_app by (by apply event_end_line).
  rewrite apply_payloads_app. destruct (apply_payloads st (sse_data_payloads s)) as [[st1 []]|e]; [done| |done].
  rewrite IH by done. by replace (S n + length strs) with (n + S (length strs)) by lia.
Qed.

(** ** The reader and the whole body *)

Lemma position_found pat a b i : pat <> [] -> position pat (a ++ pat ++ b) i <> None.
Proof.
  intros Hp. revert i. induction a as [|x a IH]; intros i; cbn [app].
  - destruct pat as [|y pat]; [done|]. change ((y :: pat) ++ b) with (y :: (pat ++ b)). cbn [position].
    change (y :: pat ++ b) with ((y :: pat) ++ b). by rewrite starts_with_app.
  - cbn [position]. destruct (starts_with (x :: a ++ pat ++ b) pat); [done|apply IH].
Qed.

Lemma break_found a b sep : sep = [10; 10]%Z \/ sep = [13; 10; 13; 10]%Z -> find_event_break (a ++ sep ++ b) <> None.
Proof.
  unfold find_event_break. intros [->| ->].
  - pose proof (position_found [10; 10]%Z a b 0 ltac:(done)) as H. destruct (position [10; 10]%Z _ 0); [|done].
    by destruct (position _ _ _).
  - pose proof (position_found [13; 10; 13; 10]%Z a b 0 ltac:(done)) as H.
    destruct (position [13; 10; 13; 10]%Z _ 0); [|done]. by destruct (position [10; 10]%Z _ _).
Qed.

Lemma done_looks_like body data : data ∈ sse_data_payloads body -> looks_like_sse body = true.
Proof.
  unfold sse_data_payloads, looks_like_sse. intros (line & Hl & Hd)%list_elem_of_omap.
  apply existsb_exists. exists line. split; [by apply list_elem_of_In|].
  unfold strip_prefix in Hd. destruct (starts_with line DATA) eqn:E; [|done].
  apply starts_with_spec in E as (r & ->). vm_compute (DATA). unfold trim_start. cbn. reflexivity.
Qed.

(** Once [[DONE]] is among the payloads the loop does not run off their end. *)
Lemma apply_done st ps st' : DONE ∈ ps -> apply_payloads st ps <> Ok (st', false).
Proof.
  revert st. induction ps as [|d ps IH]; intros st Hin; [by apply not_elem_of_nil in Hin|]. cbn [Sse.apply_payloads].
  destruct (str_eqb d DONE) eqn:E; [done|]. destruct (apply_sse_data from_str st d); [|done]. apply IH.
  apply elem_of_cons in Hin as [<-|Hin]; [|done]. by rewrite (proj2 (str_eqb_spec DONE DONE) eq_refl) in E.
Qed.

Lemma apply_not_done st ps st' : ~ DONE ∈ ps -> apply_payloads st ps <> Ok (st', true).
Proof.
  revert st. induction ps as [|d ps IH]; intros st Hin; [done|]. cbn [Sse.apply_payloads].
  apply not_elem_of_cons in Hin as [Hd Hin].
  destruct (str_eqb d DONE) eqn:E; [apply str_eqb_spec in E; by subst|].
  destruct (apply_sse_data from_str st d); [|done]. by apply IH.
Qed.

(** Every terminated prefix of a text lies in its events, but for line ends without payload. *)
Lemma terminated_in_events strs rest p r :
  Forall event_end strs -> find_event_break (as_bytes rest) = None -> concat strs ++ rest = p ++ r -> event_end p ->
  DONE ∈ sse_data_payloads p -> DONE ∈ sse_data_payloads (concat strs).
Proof.
  intros Hf Hrest Heq Hp Hdone.
  assert (HP : ends_line (concat strs)).
  { apply ends_line_concat. eapply Forall_impl; [exact Hf|]. apply event_end_line. }
  apply app_eq_inv in Heq as [(q & Hq & Hr)|(q & -> & Hr)].
  - rewrite Hq, payloads_app by (by apply event_end_line). set_solver.
  - rewrite payloads_app in Hdone by done. apply elem_of_app in Hdone as [?|Hdone]; [done|]. exfalso.
    assert (Hsep : forall sep k, sep = [NL; NL] \/ sep = [CR; NL; CR; NL] -> concat strs ++ q = k ++ sep -> False).
    { intros sep k Hsep Hk. apply app_eq_inv in Hk as [(l & Hl & Hs)|(l & Hl & Hs)].
      - assert (Hcase : sse_data_payloads q = []).
        { destruct Hsep as [->| ->];
            repeat (destruct l as [|? l]; cbn in Hs; [subst; reflexivity|injection Hs as <- Hs]); destruct l; cbn in Hs; try done; subst q; reflexivity. }
        rewrite Hcase in Hdone. by apply not_elem_of_nil in Hdone.
      - subst q. rewrite Hr, <- app_assoc, !as_bytes_app in Hrest.
        apply (break_found (as_bytes l) (as_bytes r) (as_bytes sep)) in Hrest; [done|].
        destruct Hsep as [->| ->]; [by left|by right]. }
    destruct Hp as (k & [Hk|Hk]); [apply (Hsep [NL; NL] k)|apply (Hsep [CR; NL; CR; NL] k)]; auto.
Qed.

(** C29: the blocking reader and the parser of whole bodies agree.  The answer does not depend
    on how the bytes arrive; on a text it is the turn (or the error) of [collect_chat_turn]
    when the text has a complete event with [[DONE]], and an error when it has none: a
    stream that was cut off is never taken for an answer. *)
Theorem sse_stream_matches_body (bufs : list (list Z)) (Hne : Forall (fun b => b <> []) bufs) :
  (forall bufs', Forall (fun b => b <> []) bufs' -> concat bufs' = concat bufs ->
     consume_sse_read (map Ok bufs') = consume_sse_read (map Ok bufs))
  /\ forall body, forallb is_scalar body = true -> as_bytes body = concat bufs ->
     ((exists p r, body = p ++ r /\ event_end p /\ DONE ∈ sse_data_payloads p) ->
        consume_sse_read (map Ok bufs) = collect_chat_turn from_str body)
     /\ (~ (exists p r, body = p ++ r /\ event_end p /\ DONE ∈ sse_data_payloads p) ->
        exists e, consume_sse_read (map Ok bufs) = Err e).
Proof.
  split; [intros bufs' Hne' Hc; by rewrite !consume_eq, Hc by done|].
  intros body Hs Hb. rewrite consume_eq, <- Hb by done.
  destruct (events_body body Hs) as (strs & rest & He & Hbody & Hf).
  assert (Hrest : find_event_break (as_bytes rest) = None) by (pose proof (events_rest (as_bytes body)) as H; by rewrite He in H).
  assert (HsP : forallb is_scalar (concat strs) = true) by (rewrite Hbody in Hs; by apply scalar_app in Hs as [? _]).
  rewrite He. cbn [fst]. rewrite process_texts by done.
  assert (HP : ends_line (concat strs)).
  { apply ends_line_concat. eapply Forall_impl; [exact Hf|]. apply event_end_line. }
  split.
  - intros (p & r & Hpr & Hp & Hdone). rewrite Hpr in Hbody. symmetry in Hbody.
    pose proof (terminated_in_events strs rest p r Hf Hrest Hbody Hp Hdone) as HD.
    rewrite Hpr, <- Hbody in *. unfold collect_chat_turn.
    rewrite (done_looks_like _ DONE), payloads_app, apply_payloads_app by (rewrite ?payloads_app by done; set_solver).
    destruct (apply_payloads empty_state (sse_data_payloads (concat strs))) as [[st []]|e] eqn:E; [done| |done].
    by apply apply_done in E.
  - intros Hnone. destruct (apply_payloads empty_state (sse_data_payloads (concat strs))) as [[st []]|e] eqn:E; [|by eexists..].
    exfalso. apply (apply_not_done _ _ st) in E; [done|]. intros HD. apply Hnone. exists (concat strs), rest.
    split; [done|]. split; [|done]. destruct (decide (strs = [])) as [->|Hn]; [by apply not_elem_of_nil in HD|].
    destruct (exists_last Hn) as (l & s & ->). apply Forall_app in Hf as [_ Hf]. apply Forall_inv in Hf.
    rewrite concat_app. cbn. rewrite app_nil_r. destruct Hf as (q & [->| ->]); exists (concat l ++ q).
    + left. by rewrite app_assoc.
    + right. by rewrite app_assoc.
Qed.

End facts.

(** ** The terminal event *)

(** The lines since the last blank line. *)
Definition open_event (ls : list (list Z)) : list (list Z) :=
  foldl (fun acc l => match l with [] => [] | _ => acc ++ [l] end) [] ls.

Definition data_lines (ls : list (list Z)) : list (list Z) :=
  List.filter (fun l => starts_with l DATA) (open_event ls).

(** The bytes end with a blank line that closes an event whose one data line is [[DONE]]. *)
Definition terminal (p : list Z) : Prop :=
  ends_line p /\ exists ls x, lines p = ls ++ [[]] /\ data_lines ls = [DATA ++ x] /\ trim_ascii x = DONE.

Definition is_done (l : list Z) : bool := bool_decide (trim_ascii (drop (length DATA) l) = DONE).

Lemma lines_cat q r : ends_line q -> lines (q ++ r) = lines q ++ lines r.
Proof.
  intros [->|[p ->]]; [done|]. rewrite <- app_assoc, lines_app. f_equal.
  rewrite <- (app_nil_r (p ++ [NL])), <- app_assoc, lines_app. by rewrite app_nil_r.
Qed.

Lemma split_char_none c s : ~ c ∈ s -> split_char c s = [s].
Proof.
  induction s as [|d s IH]; intros H; [done|]. apply not_elem_of_cons in H as [Hd H]. cbn [split_char].
  destruct (Z.eqb_spec d c) as [->|_]; [done|]. by rewrite (IH H).
Qed.

Lemma lines_line s : ~ NL ∈ s -> lines (s ++ [NL]) = [strip_cr s].
Proof.
  intros H. rewrite <- (app_nil_r (s ++ [NL])), <- app_assoc, lines_app, split_char_none by done. done.
Qed.

Lemma data_lines_blank ls : data_lines (ls ++ [[]]) = [].
Proof. unfold data_lines, open_event. by rewrite foldl_snoc. Qed.

Lemma data_lines_snoc ls l : l <> [] ->
  data_lines (ls ++ [l]) = data_lines ls ++ (if starts_with l DATA then [l] else []).
Proof.
  intros Hl. unfold data_lines, open_event. rewrite foldl_snoc. destruct l as [|x l]; [done|].
  rewrite List.filter_app. cbn [List.filter]. by destruct (starts_with (x :: l) DATA).
Qed.

(** The state of the scan after the bytes [q ++ partial], a run of lines and an open one. *)
Record scanned (all : list Z) (pos : nat) (st : ScanState) (q partial : list Z) : Prop := {
  sd_take : take pos all = q ++ partial;
  sd_line : ends_line q;
  sd_open : ~ NL ∈ partial;
  sd_start : line_start st = length q;
  sd_count : event_data_lines st = length (data_lines (lines q));
  sd_done : event_done st = match last (data_lines (lines q)) with Some l => is_done l | None => false end;
  sd_fresh : forall p r, take pos all = p ++ r -> terminal p -> False;
}.

Lemma ends_line_not p r (x : Z) : ends_line (p ++ r ++ [x]) -> x <> NL -> False.
Proof.
  intros [H|[s H]] Hx; [by destruct p; destruct r|]. rewrite app_assoc in H. apply app_inj_tail in H as [_ ->]. done.
Qed.

Lemma fresh_snoc all pos byte q partial :
  all !! pos = Some byte -> take pos all = q ++ partial ->
  (forall p r, take pos all = p ++ r -> terminal p -> False) -> ~ terminal (q ++ partial ++ [byte]) ->
  forall p r, take (S pos) all = p ++ r -> terminal p -> False.
Proof.
  intros Hb Ht Hf Hn p r. rewrite (take_S_r all pos byte Hb), Ht. intros Heq Hp.
  destruct r as [|z r _] using rev_ind.
  - rewrite app_nil_r in Heq. rewrite <- Heq, <- app_assoc in Hp. done.
  - rewrite app_assoc in Heq. apply app_inj_tail in Heq as [Heq _]. apply (Hf p r); [|done]. by rewrite Ht.
Qed.

Lemma scan_byte_spec all pos st byte q partial :
  all !! pos = Some byte -> scanned all pos st q partial ->
  match scan_byte all st pos byte with
  | None => terminal (take (S pos) all)
  | Some st' => exists q' partial', scanned all (S pos) st' q' partial'
  end.
Proof.
  intros Hb [Ht Hl Ho Hst Hc Hd Hf].
  assert (Ht' : take (S pos) all = q ++ partial ++ [byte]) by (rewrite (take_S_r all pos byte Hb), Ht; by rewrite app_assoc).
  unfold scan_byte. destruct (Z.eqb_spec byte 10) as [->|Hne]; cbn [negb]; cycle 1.
  { exists q, (partial ++ [byte]). split; try done.
    - rewrite elem_of_app, list_elem_of_singleton. unfold NL. intros [?|?]; [done|lia].
    - eapply fresh_snoc; [done..|]. intros [Hend _]. by apply ends_line_not in Hend. }
  assert (Hraw : sub all (line_start st) pos = partial).
  { unfold sub. rewrite Hst. rewrite <- (take_drop pos all), Ht, <- app_assoc at 1. rewrite drop_app_length.
    apply (f_equal length) in Ht as Hlen. rewrite length_app, length_take in Hlen.
    apply lookup_lt_Some in Hb. replace (pos - length q) with (length partial) by lia. by rewrite take_app_length. }
  rewrite Hraw. fold (strip_cr partial).
  change 10%Z with NL in Ht'. rewrite app_assoc in Ht'.
  assert (Hlines : lines (take (S pos) all) = lines q ++ [strip_cr partial]).
  { by rewrite Ht', <- app_assoc, lines_cat, lines_line. }
  assert (Hend : ends_line (take (S pos) all)) by (right; eauto).
  assert (Hnext : forall n d, ~ terminal (take (S pos) all) ->
            n = length (data_lines (lines q ++ [strip_cr partial])) ->
            d = match last (data_lines (lines q ++ [strip_cr partial])) with Some l => is_done l | None => false end ->
            scanned all (S pos) {| sc_bytes := all; line_start := S pos; event_data_lines := n; event_done := d |}
              (take (S pos) all) []).
  { intros n d Hn -> ->. split; cbn; rewrite ?Hlines; try done; [by rewrite app_nil_r|apply not_elem_of_nil| |].
    - rewrite length_take_le; [done|]. by apply lookup_lt_Some in Hb.
    - eapply fresh_snoc; [done..|]. change 10%Z with NL. rewrite app_assoc, <- Ht'. done. }
  destruct (strip_cr partial) as [|y line] eqn:El.
  - destruct (Nat.eqb_spec (event_data_lines st) 1) as [Hone|Hone]; [destruct (event_done st) eqn:Edone|]; cbn [andb].
    + split; [done|]. rewrite Hone in Hc. symmetry in Hc.
      destruct (data_lines (lines q)) as [|l [|? ?]] eqn:Ed; try done. cbn in Hd. symmetry in Hd.
      assert (Hs : starts_with l DATA = true).
      { assert (Hin : l ∈ data_lines (lines q)) by (rewrite Ed; set_solver). unfold data_lines in Hin.
        by apply list_elem_of_In, filter_In in Hin as [_ Hin]. }
      apply starts_with_spec in Hs as (x & ->). exists (lines q), x. split; [done|]. split; [done|].
      unfold is_done in Hd. apply bool_decide_eq_true in Hd. by rewrite drop_app_length in Hd.
    + eexists _, _. apply Hnext; [|by rewrite data_lines_blank..].
      intros (_ & ls & x & Hls & Hx & Hdx). rewrite Hlines in Hls. apply app_inj_tail in Hls as [<- _].
      rewrite Hx in Hd. cbn in Hd. unfold is_done in Hd. rewrite drop_app_length in Hd. symmetry in Hd.
      by apply bool_decide_eq_false in Hd.
    + eexists _, _. apply Hnext; [|by rewrite data_lines_blank..].
      intros (_ & ls & x & Hls & Hx & Hdx). rewrite Hlines in Hls. apply app_inj_tail in Hls as [<- _].
      rewrite Hx in Hc. done.
  - assert (Hnt : ~ terminal (take (S pos) all)).
    { intros (_ & ls & x & Hls & _). rewrite Hlines in Hls. by apply app_inj_tail in Hls as [_ Hls]. }
    change (as_bytes DATA) with DATA. change (as_bytes DONE) with DONE. unfold strip_prefix.
    assert (Hsn := data_lines_snoc (lines q) (y :: line) ltac:(done)).
    destruct (starts_with (y :: line) DATA) eqn:Es; eexists _, _; apply Hnext; try done; rewrite Hsn.
    + rewrite length_app. cbn. lia.
    + by rewrite last_snoc.
    + by rewrite app_nil_r.
    + by rewrite app_nil_r.
Qed.

(** The shortest prefix that ends with the terminal event. *)
Definition shortest_terminal (p all : list Z) : Prop :=
  terminal p /\ (exists r, all = p ++ r) /\ forall p' r', p = p' ++ r' -> terminal p' -> r' = [].

Lemma scan_chunk_spec all chunk : forall pos st q partial,
  drop pos all = chunk -> pos <= length all -> scanned all pos st q partial ->
  match scan_chunk all st pos chunk with
  | inr p => shortest_terminal p all
  | inl st' => sc_bytes st' = all /\ exists q' partial', scanned all (length all) st' q' partial'
  end.
Proof.
  induction chunk as [|byte chunk IH]; intros pos st q partial Hdrop Hpos Hs; cbn [scan_chunk].
  - assert (pos = length all) as -> by (apply (f_equal length) in Hdrop; rewrite length_drop in Hdrop; cbn in Hdrop; lia).
    split; [done|]. exists q, partial. by destruct Hs.
  - assert (Hb : all !! pos = Some byte).
    { rewrite <- (take_drop pos all), Hdrop, lookup_app_r, length_take_le, Nat.sub_diag by (rewrite ?length_take; lia). done. }
    pose proof (scan_byte_spec all pos st byte q partial Hb Hs) as Hstep.
    destruct (scan_byte all st pos byte) as [st'|].
    + destruct Hstep as (q' & partial' & Hs'). eapply IH; [|apply lookup_lt_Some in Hb; lia|done].
      replace (S pos) with (pos + 1) by lia. rewrite <- drop_drop, Hdrop. done.
    + split; [done|]. split; [exists (drop (S pos) all); by rewrite take_drop|].
      intros p' r' Hp Ht. destruct r' as [|z r' _] using rev_ind; [done|]. exfalso.
      rewrite (take_S_r all pos byte Hb), app_assoc in Hp. apply app_inj_tail in Hp as [Hp _].
      by eapply (sd_fresh _ _ _ _ _ Hs).
Qed.

Lemma scanned_more all chunk st q partial :
  scanned all (length all) st q partial -> scanned (all ++ chunk) (length all) st q partial.
Proof.
  intros [Ht Hl Ho Hst Hc Hd Hf]. rewrite firstn_all in *. split; rewrite ?take_app_length; done.
Qed.

Lemma scan_body_spec chunks more : forall st q partial,
  scanned (sc_bytes st) (length (sc_bytes st)) st q partial ->
  let all := sc_bytes st ++ concat chunks in
  (exists p, shortest_terminal p all /\ scan_body st (map Ok chunks ++ more) = Ok (Some p))
  \/ ((forall p r, all = p ++ r -> ~ terminal p) /\ exists st', scan_body st (map Ok chunks ++ more) = scan_body st' more).
Proof.
  induction chunks as [|chunk chunks IH]; intros st q partial Hs; cbn [map concat app scan_body].
  - right. rewrite app_nil_r. split; [|by exists st]. intros p r Hp. pose proof (sd_fresh _ _ _ _ _ Hs) as Hf.
    rewrite firstn_all in Hf. exact (Hf p r Hp).
  - pose proof (scan_chunk_spec (sc_bytes st ++ chunk) chunk (length (sc_bytes st)) st q partial) as Hc.
    rewrite drop_app_length in Hc. specialize (Hc eq_refl ltac:(rewrite length_app; lia) (scanned_more _ chunk _ _ _ Hs)).
    destruct (scan_chunk _ st _ chunk) as [st'|p].
    + destruct Hc as (Hb & q' & partial' & Hs'). rewrite <- Hb in Hs'. specialize (IH st' q' partial' Hs').
      cbn zeta in IH. rewrite Hb, <- app_assoc in IH. exact IH.
    + left. exists p. split; [|done]. destruct Hc as (Ht & (r & Hr) & Hshort). split; [done|]. split; [|done].
      exists (r ++ concat chunks). by rewrite app_assoc, Hr, <- app_assoc.
Qed.

Lemma scanned_start : scanned [] 0 scan_start [] [].
Proof.
  split; try done; [by left|apply not_elem_of_nil|]. intros p r Hp (_ & ls & x & Hl & _).
  destruct p; [|done]. by destruct ls.
Qed.

Lemma shortest_unique p p' all : shortest_terminal p all -> shortest_terminal p' all -> p = p'.
Proof.
  intros (Ht & (r & Hr) & Hs) (Ht' & (r' & Hr') & Hs'). rewrite Hr in Hr'.
  apply app_eq_inv in Hr' as [(l & Hl & _)|(l & Hl & _)].
  - pose proof (Hs _ _ Hl Ht') as ->. by rewrite app_nil_r in Hl.
  - pose proof (Hs' _ _ Hl Ht) as ->. by rewrite app_nil_r in Hl.
Qed.

(** C30: the asynchronous reader ends with the terminal event.  However the bytes are cut into
    chunks, the answer is made of exactly the bytes up to the first event whose one data line
    is [[DONE]], and nothing after it (more text, a broken connection) changes the answer;
    without such an event there is none.  An answer is the turn of the text before it. *)
Theorem async_turn_stops_at_terminal (from_str : str -> result str Json) (utf8_error : list Z -> str) (status : N) (chunks : list (list Z))
    (more : list (result ChatTransportError (list Z))) (allow_empty : bool) (Hs : is_success status = true) :
  (forall p, shortest_terminal p (concat chunks) ->
     chat_sse_turn_bytes from_str utf8_error status (map Ok chunks ++ more) allow_empty
     = finish_response from_str utf8_error p allow_empty)
  /\ ((forall p r, concat chunks = p ++ r -> ~ terminal p) ->
     chat_sse_turn_bytes from_str utf8_error status (map Ok chunks) allow_empty
     = Err (Response (u8"incomplete SSE response: missing terminal event")))
  /\ (forall t, chat_sse_turn_bytes from_str utf8_error status (map Ok chunks) allow_empty = Ok t ->
     exists text, shortest_terminal (as_bytes text) (concat chunks) /\ collect_chat_turn from_str text = Ok t
       /\ (allow_empty = false -> trim (content t) <> [] \/ tool_calls t <> [])).
Proof.
  pose proof (fun more => scan_body_spec chunks more scan_start [] [] scanned_start) as Hscan. cbn [scan_start sc_bytes app] in Hscan.
  unfold chat_sse_turn_bytes. rewrite Hs. cbn [negb]. split; [|split].
  - intros p Hp. destruct (Hscan more) as [(p' & Hp' & ->)|[Hnone _]].
    + by rewrite (shortest_unique p p' _ Hp Hp').
    + destruct Hp as (Ht & (r & Hr) & _). by apply Hnone in Hr.
  - intros Hnone. destruct (Hscan []) as [(p & (Ht & (r & Hr) & _) & _)|[_ (st & Hst)]]; [by apply Hnone in Hr|].
    rewrite app_nil_r in Hst. rewrite Hst. reflexivity.
  - intros t Ht. destruct (Hscan []) as [(p & Hp & Hst)|[_ (st & Hst)]]; rewrite app_nil_r in Hst; rewrite Hst in Ht; [|done].
    unfold finish_response in Ht. destruct (from_utf8 p) as [text|] eqn:Eu; [|done].
    apply from_utf8_spec in Eu as [_ <-]. destruct (collect_chat_turn from_str text) as [t'|] eqn:Ec; [|done].
    destruct (negb allow_empty && _ && _) eqn:Eempty; [done|]. injection Ht as <-. exists text. split; [done|]. split; [done|].
    intros ->. cbn [negb andb] in Eempty. apply andb_false_iff in Eempty as [E|E].
    + left. intros E'. by rewrite E' in E.
    + right. by apply bool_decide_eq_false in E.
Qed.

(** ** What a stream of deltas says *)

Definition delta_of (v : Json) : Json := key (choice v) (u8"delta").
Definition delta_items (v : Json) : list Json := default [] (as_array (key (delta_of v) (u8"tool_calls"))).
Definition delta_text (v : Json) : str := default [] (as_str (key (delta_of v) (u8"content"))).
Definition delta_finish (v : Json) : option str := as_str (key (choice v) (u8"finish_reason")).

(** A value without a whole message. *)
Definition delta_only (v : Json) : Prop := key (choice v) (u8"message") = JNull.

Definition item_name (item : Json) : str := default [] (as_str (key (key item (u8"function")) (u8"name"))).
Definition item_arguments (item : Json) : str := default [] (as_str (key (key item (u8"function")) (u8"arguments"))).
Definition item_id (item : Json) : option str := get item (u8"id") ≫= as_str.

(** The call that the items of an index make. *)
Definition call_at (items : list Json) (i : N) : ChatToolCall :=
  let own := List.filter (fun item => (delta_index item =? i)%N) items in {|
  tc_id := default [] (last (omap item_id own));
  tc_name := concat (map item_name own);
  tc_arguments := concat (map item_arguments own) |}.

Lemma foldl_delta_call items slot :
  foldl (fun s item => delta_call item s) slot items = {|
    tc_id := default (tc_id slot) (last (omap item_id items));
    tc_name := tc_name slot ++ concat (map item_name items);
    tc_arguments := tc_arguments slot ++ concat (map item_arguments items) |}.
Proof.
  revert slot. induction items as [|item items IH]; intros slot; [destruct slot; cbn; by rewrite !app_nil_r|].
  cbn [foldl map concat]. rewrite IH. unfold delta_call at 1 2 3. cbn [tc_id tc_name tc_arguments].
  fold (item_name item) (item_arguments item) (item_id item). rewrite <- !app_assoc. f_equal.
  change (omap item_id (item :: items)) with (match item_id item with Some x => x :: omap item_id items | None => omap item_id items end).
  destruct (item_id item) as [x|]; [|done]. rewrite last_cons. by destruct (last (omap item_id items)).
Qed.

Lemma apply_deltas_lookup items m i :
  foldl apply_delta m items !! i =
    match List.filter (fun item => (delta_index item =? i)%N) items with
    | [] => m !! i
    | own => Some (foldl (fun s item => delta_call item s) (default default_call (m !! i)) own)
    end.
Proof.
  revert m. induction items as [|item items IH]; intros m; [done|]. cbn [foldl List.filter]. rewrite IH.
  unfold apply_delta. destruct (N.eqb_spec (delta_index item) i) as [->|Hne].
  - rewrite lookup_insert_eq. cbn [default foldl]. by destruct (List.filter _ items).
  - by rewrite lookup_insert_ne.
Qed.

Lemma apply_deltas_call items i :
  foldl apply_delta ∅ items !! i =
    if existsb (fun item => (delta_index item =? i)%N) items then Some (call_at items i) else None.
Proof.
  rewrite apply_deltas_lookup, lookup_empty. unfold call_at.
  assert (He : existsb (fun item => (delta_index item =? i)%N) items
               = match List.filter (fun item => (delta_index item =? i)%N) items with [] => false | _ => true end).
  { induction items as [|item items IH]; [done|]. cbn. by destruct (delta_index item =? i)%N. }
  rewrite He. destruct (List.filter _ items) as [|x own]; [done|]. by rewrite foldl_delta_call.
Qed.

(** The values of a map in the order of its keys. *)
Lemma into_values_spec m :
  exists idx, StronglySorted N.lt idx /\ (forall i, i ∈ idx <-> is_Some (m !! i))
    /\ into_values m = map (fun i => default default_call (m !! i)) idx.
Proof.
  unfold into_values. set (le := fun a b : N * ChatToolCall => (a.1 <=? b.1)%N).
  pose proof (sort_by_perm le (map_to_list m)) as Hp.
  pose proof (sort_by_sorted le ltac:(unfold le; intros [] []; cbn; rewrite ?N.leb_le, ?N.leb_gt; lia)
    ltac:(unfold le; intros [] [] []; cbn; rewrite ?N.leb_le; lia) (map_to_list m)) as Hs.
  assert (Hin : forall k v, (k, v) ∈ sort_by le (map_to_list m) <-> m !! k = Some v)
    by (intros; by rewrite Hp, elem_of_map_to_list).
  assert (Hnd : NoDup (map fst (sort_by le (map_to_list m)))).
  { change (map fst) with (fmap (M := list) (fst (A := N) (B := ChatToolCall))). rewrite Hp. apply NoDup_fst_map_to_list. }
  set (l := sort_by le (map_to_list m)) in *. clearbody l. exists (map fst l). split; [|split].
  - clear Hp Hin. induction Hs as [|[k v] l Hs IH Hf]; [constructor|]. cbn in *. apply NoDup_cons in Hnd as [Hk Hnd].
    constructor; [by apply IH|]. apply Forall_forall. intros k' (kv & -> & Hkv)%list_elem_of_fmap.
    rewrite Forall_forall in Hf. specialize (Hf _ Hkv). unfold le in Hf. cbn in Hf. apply N.leb_le in Hf.
    assert (k <> kv.1) by (intros ->; apply Hk; apply list_elem_of_fmap; eauto). lia.
  - intros i. split.
    + intros ([k v] & -> & Hkv)%list_elem_of_fmap. cbn. apply Hin in Hkv. eauto.
    + intros [v Hv]. apply list_elem_of_fmap. exists (i, v). split; [done|]. by apply Hin.
  - rewrite map_map. apply map_ext_in. intros [k v] Hkv%list_elem_of_In. cbn. apply Hin in Hkv. by rewrite Hkv.
Qed.

(** The state after values of deltas. *)
Definition state_of (vs : list Json) : TurnState := {|
  turn := {| content := concat (map delta_text vs); tool_calls := [];
             finish_reason := default [] (last (omap delta_finish vs));
             turn_usage := last (omap (fun v => usage (key v (u8"usage"))) vs) |};
  calls := foldl apply_delta ∅ (concat (map delta_items vs)) |}.

Lemma apply_value_state vs v : delta_only v -> apply_value (state_of vs) v = state_of (vs ++ [v]).
Proof.
  intros Hv. unfold apply_value. rewrite Hv. fold (delta_of v). cbn [turn calls state_of content finish_reason turn_usage tool_calls].
  unfold state_of. rewrite !map_app, !concat_app, !omap_app, foldl_app. cbn [map concat]. rewrite !app_nil_r.
  change (key JNull (u8"content")) with JNull. change (key JNull (u8"tool_calls")) with JNull. cbn [as_str as_array default].
  fold (delta_text v) (delta_finish v). f_equal.
  - f_equal.
    + destruct (str_is_empty (concat (map delta_text vs) ++ delta_text v)) eqn:E; [|done].
      apply str_is_empty_spec in E. by rewrite E.
    + change (omap delta_finish [v]) with (match delta_finish v with Some x => [x] | None => [] end).
      destruct (delta_finish v); [by rewrite last_snoc|by rewrite app_nil_r].
    + change (omap (fun v => usage (key v (u8"usage"))) [v]) with (match usage (key v (u8"usage")) with Some x => [x] | None => [] end).
      destruct (usage _); [by rewrite last_snoc|by rewrite app_nil_r].
  - unfold delta_items. by destruct (as_array _).
Qed.

Lemma apply_payloads_values from_str ps vs rest : ~ DONE ∈ ps -> Forall2 (fun d v => from_str d = Ok v) ps vs ->
  Forall delta_only vs -> rest = [] \/ (exists l, rest = DONE :: l) -> forall before,
  exists b, apply_payloads from_str (state_of before) (ps ++ rest) = Ok (state_of (before ++ vs), b).
Proof.
  intros Hd Hp Hv Hrest. induction Hp as [|d v ps vs Hdv _ IH]; intros before.
  - rewrite app_nil_r. destruct Hrest as [->|[l ->]]; [by exists false|]. exists true. cbn [app apply_payloads].
    by rewrite (proj2 (str_eqb_spec DONE DONE) eq_refl).
  - apply not_elem_of_cons in Hd as [Hd Hds]. apply Forall_cons in Hv as [Hv Hvs]. cbn [app apply_payloads].
    destruct (str_eqb d DONE) eqn:E; [apply str_eqb_spec in E; by subst|].
    unfold apply_sse_data. rewrite Hdv, apply_value_state by done.
    destruct (IH Hds Hvs (before ++ [v])) as [b Hb]. exists b. by rewrite Hb, <- app_assoc.
Qed.

(** a stream of deltas is put together completely: its text is the deltas' texts in order,
    its finish reason and its token counts are the last ones reported (counts are not added
    up), and every index with a tool call gets one call, in the order of the indices, with
    the names and arguments of its items joined in order and the last identifier. *)
Theorem collect_turn_assembles (from_str : str -> result str Json) (body : str) (ps rest : list str) (vs : list Json)
    (Hbody : sse_data_payloads body = ps ++ rest) (Hsse : looks_like_sse body = true)
    (Hdone : ~ DONE ∈ ps) (Hrest : rest = [] \/ exists l, rest = DONE :: l)
    (Hvs : Forall2 (fun d v => from_str d = Ok v) ps vs) (Hdelta : Forall delta_only vs) :
  let items := concat (map delta_items vs) in
  exists t idx, collect_chat_turn from_str body = Ok t
    /\ content t = concat (map delta_text vs)
    /\ finish_reason t = default [] (last (omap delta_finish vs))
    /\ turn_usage t = last (omap (fun v => usage (key v (u8"usage"))) vs)
    /\ StronglySorted N.lt idx
    /\ (forall i, i ∈ idx <-> exists item, item ∈ items /\ delta_index item = i)
    /\ tool_calls t = map (call_at items) idx.
Proof.
  intros items. destruct (apply_payloads_values from_str ps vs rest Hdone Hvs Hdelta Hrest []) as [b Hb].
  destruct (into_values_spec (foldl apply_delta ∅ items)) as (idx & Hsorted & Hidx & Hvalues).
  exists (finish (state_of vs)), idx. unfold collect_chat_turn. rewrite Hsse, Hbody.
  change empty_state with (state_of []). rewrite Hb. split; [done|]. do 3 (split; [done|]). split; [done|].
  assert (Hi : forall i, is_Some (foldl apply_delta ∅ items !! i) <-> exists item, item ∈ items /\ delta_index item = i).
  { intros i. rewrite apply_deltas_call. destruct (existsb _ items) eqn:E.
    - apply existsb_exists in E as (item & Hin%list_elem_of_In & He%N.eqb_eq). split; [eauto|by eexists].
    - split; [intros [? ?]; done|]. intros (item & Hin & He). apply not_true_iff_false in E. exfalso. apply E.
      apply existsb_exists. exists item. split; [by apply list_elem_of_In|by apply N.eqb_eq]. }
  split; [intros i; by rewrite Hidx, Hi|]. change (tool_calls (finish (state_of vs))) with (into_values (foldl apply_delta ∅ items)). rewrite Hvalues. apply map_ext_in.
  intros i Hin%list_elem_of_In. apply Hidx in Hin. rewrite apply_deltas_call in *. destruct (existsb _ items); [done|].
  by destruct Hin.
Qed.

(** ** Retries *)

(** The answer of a retried call is that of its last try: the tries before it failed in a way
    that may pass, and it succeeded, failed for good, or was the last one allowed. *)
Lemma with_retry_n_last {T} attempts (outcome : nat -> result str T) : 0 < attempts ->
  exists k, 1 <= k <= attempts /\ (with_retry_n attempts outcome).1 = outcome k
    /\ (forall i, 1 <= i < k -> exists e, outcome i = Err e /\ is_retryable e = true)
    /\ (forall e, outcome k = Err e -> k = attempts \/ is_retryable e = false)
    /\ length (with_retry_n attempts outcome).2 = k - 1.
Proof.
  intros Hpos.
  assert (Hloop : forall fuel attempt last pauses, fuel + attempt = S attempts -> 1 <= attempt <= attempts ->
    length pauses = attempt - 1 ->
    (forall i, 1 <= i < attempt -> exists e, outcome i = Err e /\ is_retryable e = true) ->
    exists k, attempt <= k <= attempts /\ (retry_loop fuel attempt attempts outcome last pauses).1 = outcome k
      /\ (forall i, 1 <= i < k -> exists e, outcome i = Err e /\ is_retryable e = true)
      /\ (forall e, outcome k = Err e -> k = attempts \/ is_retryable e = false)
      /\ length (retry_loop fuel attempt attempts outcome last pauses).2 = k - 1).
  { induction fuel as [|fuel IH]; intros attempt last pauses Hf Ha Hl Hbefore; [lia|]. cbn [retry_loop].
    destruct (outcome attempt) as [v|e] eqn:Eo; [exists attempt; rewrite Eo; cbn; naive_solver lia|].
    destruct (Nat.ltb_spec attempt attempts) as [Hlt|Hge]; [destruct (is_retryable e) eqn:Er|]; cbn [andb].
    - destruct (IH (S attempt) e (pauses ++ [400 * 2 ^ N.of_nat (attempt - 1)]%N)) as (k & Hk & Hrest);
        [lia|lia|rewrite length_app; cbn; lia| |exists k; split; [lia|done]].
      intros i Hi. destruct (decide (i = attempt)) as [->|]; [eauto|apply Hbefore; lia].
    - exists attempt. rewrite Eo. cbn. naive_solver lia.
    - exists attempt. rewrite Eo. cbn. naive_solver lia. }
  apply Hloop; (lia || done || (intros; lia)).
Qed.

(** ** Witnesses *)

Definition demo_item (index : N) (arguments : str) : Json :=
  JObject [(u8"index", JNumber (Some index)); (u8"function", JObject [(u8"arguments", JString arguments)])].

Definition demo_value (text : str) (items : list Json) : Json :=
  JObject [(u8"choices", JArray [JObject [(u8"delta",
    JObject [(u8"content", JString text); (u8"tool_calls", JArray items)])]])].

(** A parser that knows two documents. *)
Definition demo_from_str (d : str) : result str Json :=
  if str_eqb d (u8"1") then Ok (demo_value (u8"hel") [demo_item 1 (u8"{"); demo_item 0 (u8"x")])
  else if str_eqb d (u8"2") then Ok (demo_value (u8"lo") [demo_item 1 (u8"}")])
  else Err (u8"expected value").

Definition demo_body : str := u8"data: 1

data: 2

data: [DONE]

".

Definition demo_bufs : list (list Z) := [take 11 (as_bytes demo_body); drop 11 (as_bytes demo_body)].

Lemma demo_nonempty : Forall (fun b => b <> []) demo_bufs.
Proof. repeat constructor; by vm_compute. Qed.

Lemma sse_stream_matches_body_witness :
  consume_sse_read demo_from_str (fun _ => []) (map Ok demo_bufs)
  = Ok {| content := u8"hello"; finish_reason := []; turn_usage := None;
          tool_calls := [{| tc_id := []; tc_name := []; tc_arguments := u8"x" |};
                         {| tc_id := []; tc_name := []; tc_arguments := u8"{}" |}] |}.
Proof.
  destruct (sse_stream_matches_body demo_from_str (fun _ => []) demo_bufs demo_nonempty) as (_ & H).
  destruct (H demo_body eq_refl eq_refl) as [H1 _]. rewrite H1; [by vm_compute|].
  exists demo_body, []. split; [by vm_compute|]. split; [exists (take 30 demo_body); left; by vm_compute|].
  apply (bool_decide_unpack _). vm_compute. exact I.
Defined.

Lemma async_turn_stops_at_terminal_witness :
  is_success 200 = true /\ shortest_terminal (as_bytes demo_body) (concat (demo_bufs ++ [[120%Z]]))
  /\ chat_sse_turn_bytes demo_from_str (fun _ => []) 200
       (map Ok (demo_bufs ++ [[120%Z]]) ++ [Err (Unavailable [])]) false
     = finish_response demo_from_str (fun _ => []) (as_bytes demo_body) false.
Proof.
  assert (Ht : shortest_terminal (as_bytes demo_body) (concat (demo_bufs ++ [[120%Z]]))).
  { destruct (scan_body_spec (demo_bufs ++ [[120%Z]]) [] scan_start [] [] scanned_start) as [(p & Hp & Hscan)|[_ (st & Hscan)]].
    - assert (p = as_bytes demo_body) as -> by (vm_compute in Hscan; injection Hscan as <-; by vm_compute). exact Hp.
    - by vm_compute in Hscan. }
  split; [done|]. split; [done|].
  destruct (async_turn_stops_at_terminal demo_from_str (fun _ => []) 200 (demo_bufs ++ [[120%Z]]) [Err (Unavailable [])]
              false eq_refl) as (H & _). by apply H.
Defined.

Lemma collect_turn_assembles_witness :
  exists t, collect_chat_turn demo_from_str demo_body = Ok t /\ content t = u8"hello".
Proof.
  destruct (collect_turn_assembles demo_from_str demo_body [u8"1"; u8"2"] [DONE]
    [demo_value (u8"hel") [demo_item 1 (u8"{"); demo_item 0 (u8"x")]; demo_value (u8"lo") [demo_item 1 (u8"}")]])
    as (t & idx & Ht & Hc & _).
  - by vm_compute.
  - by vm_compute.
  - intros H. apply (bool_decide_pack _) in H. by vm_compute in H.
  - right. by exists [].
  - repeat constructor.
  - repeat constructor.
  - exists t. split; [done|]. rewrite Hc. by vm_compute.
Defined.
