(* ===== verification/SemanticRecall.v ===== *)
(** * [crates/knowledge/src/knowledge_retrieval_pg/semantic_v2.rs]: the recall of a snapshot

    The checks that precede a recall (the scope, the bindings, one complete generation per
    version, a fresh sidecar for every signal), the two channels with their ranks, the
    references of graph nodes and wiki pages, and the fold of [Recall].  All queries read one
    snapshot, the tables of [SemanticIndex]; a query that fails ends the recall with its error
    and is left out.  The full-text score, the cosine distance, the rows of graph nodes and wiki
    pages and [Uuid::parse_str] are parameters. *)
From S2P Require Import Prelude RustStr RustFloat Keywords Policy Order Rank Recall Evidence Providers Pipeline.
From S2P Require Import SemanticIndex Sse.

Local Open Scope N_scope.

Definition E_RECALL_SCOPE : str := u8"selected versions differ from the frozen eligible workspace scope".
Definition E_BINDING : str := u8"eligible version embedding binding is missing or mismatched".
Definition E_GENERATION : str := u8"missing complete V2 vector generation".
Definition E_SIDECAR : str := u8"missing or stale V2 semantic sidecar".
Definition E_REQUIREMENT : str := u8"semantic requirement must not be empty or whitespace".
Definition E_KEYWORD_RANK : str := u8"keyword rank overflow".
Definition E_VECTOR_RANK : str := u8"vector rank overflow".
Definition E_DISTANCE : str := u8"non-finite V2 cosine distance".
Definition E_GRAPH_NULL : str := u8"graph chunk_ids contains NULL".
Definition E_WIKI_ARRAY : str := u8"wiki chunk_refs is not an array".
Definition E_WIKI_STRING : str := u8"wiki chunk_refs contains a non-string".
Definition E_WIKI_UUID : str := u8"wiki chunk_refs contains an invalid UUID".

(** ** The scope *)

Definition product_of (src : Sources) (version : N) : option (N * ProductRow) :=
  id ← version_products src !! version; row ← products src !! id; Some (id, row).

Definition kind_matches (kind : str) (p : ProductRow) : bool :=
  str_eqb (pr_workspace_kind p) kind
  && ((str_eqb kind (u8"product_line") && str_eqb (pr_kind p) (u8"product"))
      || (str_eqb kind (u8"company") && str_eqb (pr_kind p) (u8"library"))).

Definition eligible_versions (src : Sources) (kind : str) (selected : list N) : gset N :=
  list_to_set (List.filter (fun v => match product_of src v with Some (_, p) => kind_matches kind p | None => false end) selected).

Definition check_scope (src : Sources) (kind : str) (selected : list N) : result KnowledgeRetrievalError unit :=
  reject_if (negb (bool_decide ((list_to_set selected : gset N) = eligible_versions src kind selected)))
    (DigestMismatch E_RECALL_SCOPE).

(** The versions in the order of the [BTreeSet]. *)
Definition in_order (versions : gset N) : list N := sort_by (fun a b => a <=? b) (elements versions).

(** ** Generations and sidecars *)

Definition bound_revisions (src : Sources) (versions : list N) : list str := omap (fun v => bindings src !! v) versions.

Definition check_bindings (src : Sources) (versions : list N) (revision : str) : result KnowledgeRetrievalError unit :=
  let rows := bound_revisions src versions in
  reject_if (negb (length rows =? length versions)%nat || existsb (fun sha => negb (str_eqb sha revision)) rows)
    (InvalidRequest E_BINDING).

(** The intents the join finds for a generation. *)
Definition marks (version : N) (g : Generation) (i : SemanticIndexIntentV2) : bool :=
  (in_product_version_id i =? version)
  && str_eqb (in_embedding_revision_sha256 i) (gn_embedding_revision_sha256 g)
  && str_eqb (in_source_snapshot_sha256 i) (gn_source_snapshot_sha256 g)
  && bool_decide (in_generation_marker_sha256 i = Some (gn_source_snapshot_sha256 g))
  && bool_decide (in_status i = ICompleted).

(** The rows of the join for one version: one for each such intent. *)
Definition version_markers (s : SemanticStore) (version : N) : list (N * Generation) :=
  match vector_generations s !! version with
  | Some g =>
    if bool_decide (keyword_generations s !! version = Some g) && negb (pending_derived (sources s) version)
    then map (fun _ => (version, g)) (List.filter (marks version g) (intents s)) else []
  | None => []
  end.

Definition marker_rows (s : SemanticStore) (versions : list N) : list (N * Generation) :=
  concat (map (version_markers s) versions).

(** [collect::<HashMap<_, _>>()] *)
Definition markers_of (rows : list (N * Generation)) : gmap N Generation := snd <$> Recall.by_id fst rows.

(** The rows of the sidecar query: the live signals of the versions. *)
Definition signal_chunks (src : Sources) (versions : list N) : list (N * SourceChunk) :=
  List.filter (fun '(id, c) => bool_decide (sc_product_version_id c ∈ versions) && is_source src id c)
    (by_id (chunks src)).

Section recall.
Context (sha256_hex : list Z -> str) (uuid_to_string : N -> str) (to_lowercase : char -> str).

Definition keyword_at (s : SemanticStore) (policy : RetrievalPolicyV2) (id : N) : option KeywordRow :=
  if str_eqb (kw_tokenizer (keyword policy)) RETRIEVAL_KEYWORD_TOKENIZER_V2
     && str_eqb (kw_tokenizer_version (keyword policy)) RETRIEVAL_KEYWORD_TOKENIZER_VERSION_V2
  then keyword_rows s !! id else None.

Definition vector_at (s : SemanticStore) (policy : RetrievalPolicyV2) (id version : N) : option VectorRow :=
  row ← vector_rows s !! (id, ep_model_revision_sha256 (embedding policy));
  if vr_product_version_id row =? version then Some row else None.

Definition keyword_fresh (s : SemanticStore) (policy : RetrievalPolicyV2) (id : N) (c : SourceChunk) : bool :=
  match keyword_at s policy id with
  | Some row => str_eqb (kr_indexed_content row) (sc_content c)
                && str_eqb (kr_indexed_content_sha256 row) (sha256_hex (as_bytes (sc_content c)))
  | None => false
  end.

Definition vector_fresh (s : SemanticStore) (policy : RetrievalPolicyV2) (marker : Generation) (id : N) (c : SourceChunk)
    : bool :=
  match vector_at s policy id (sc_product_version_id c) with
  | Some row => str_eqb (vr_indexed_content_sha256 row) (vi_indexed_content_sha256 (embedding_input sha256_hex (id, c)))
                && str_eqb (vr_source_snapshot_sha256 row) (gn_source_snapshot_sha256 marker)
  | None => false
  end.

(** The body of the loop over the rows. *)
Definition sidecar_step (s : SemanticStore) (policy : RetrievalPolicyV2) (markers : gmap N Generation)
    (inputs : gmap N (list VectorEmbeddingInputV2)) (row : N * SourceChunk)
    : result KnowledgeRetrievalError (gmap N (list VectorEmbeddingInputV2)) :=
  let '(id, c) := row in
  let version := sc_product_version_id c in
  marker ← ok_or (markers !! version) (integrity E_GENERATION);
  _ ← reject_if (negb (keyword_fresh s policy id c) || negb (vector_fresh s policy marker id c)) (integrity E_SIDECAR);
  Ok (<[version := default [] (inputs !! version) ++ [embedding_input sha256_hex (id, c)]]> inputs).

Definition stale_generation (marker : Generation) (count : N) (computed : str) : str :=
  u8"missing or stale V2 vector generation (marker_count=" ++ decimal (gn_chunk_count marker)
  ++ u8", input_count=" ++ decimal count ++ u8", marker_snapshot=" ++ gn_source_snapshot_sha256 marker
  ++ u8", computed_snapshot=" ++ computed ++ u8")".

(** The body of the loop over the versions. *)
Definition generation_step (policy : RetrievalPolicyV2) (markers : gmap N Generation)
    (snapshot_inputs : gmap N (list VectorEmbeddingInputV2)) (_ : unit) (version : N)
    : result KnowledgeRetrievalError unit :=
  marker ← ok_or (markers !! version) (integrity E_GENERATION);
  let inputs := default [] (snapshot_inputs !! version) in
  let computed := source_snapshot_sha256_v2 sha256_hex uuid_to_string (gn_embedding_revision_sha256 marker) inputs in
  reject_if (negb (str_eqb (gn_embedding_revision_sha256 marker) (ep_model_revision_sha256 (embedding policy)))
             || negb (gn_chunk_count marker =? Providers.len inputs)
             || negb (str_eqb (gn_source_snapshot_sha256 marker) computed))
    (integrity (stale_generation marker (Providers.len inputs) computed)).

Definition check_generations (s : SemanticStore) (policy : RetrievalPolicyV2) (versions : list N)
    : result KnowledgeRetrievalError unit :=
  _ ← check_bindings (sources s) versions (ep_model_revision_sha256 (embedding policy));
  let rows := marker_rows s versions in
  _ ← reject_if (negb (length rows =? length versions)%nat) (integrity E_GENERATION);
  let markers := markers_of rows in
  snapshot_inputs ← foldR (sidecar_step s policy markers) ∅ (signal_chunks (sources s) versions);
  foldR (generation_step policy markers snapshot_inputs) tt versions.

(** ** Signals, sources and channels *)

(** A row of the queries over the signals: with the product of the version and its document. *)
Record SignalRow := { sr_id : N; sr_chunk : SourceChunk; sr_product_id : N; sr_file_name : str }.

Definition signal_row (src : Sources) (kind : str) (row : N * SourceChunk) : option SignalRow :=
  '(product, p) ← product_of src (sc_product_version_id row.2);
  d ← documents src !! sc_document_id row.2;
  if str_eqb (pr_workspace_kind p) kind
  then Some {| sr_id := row.1; sr_chunk := row.2; sr_product_id := product; sr_file_name := sd_file_name d |}
  else None.

Definition signal_rows_of (src : Sources) (kind : str) (versions : list N) : list SignalRow :=
  omap (signal_row src kind) (signal_chunks src versions).

Definition signal_of (r : SignalRow) : Signal := {|
  sg_id := sr_id r; sg_product_id := sr_product_id r; sg_version_id := sc_product_version_id (sr_chunk r);
  sg_document_id := sc_document_id (sr_chunk r); sg_chunk_type := sc_chunk_type (sr_chunk r);
  sg_context_header := sc_context_header (sr_chunk r); sg_parent_chunk_id := sc_parent_chunk_id (sr_chunk r);
|}.

Definition source_of (r : SignalRow) : Source := {|
  src_product_id := sr_product_id r; src_version_id := sc_product_version_id (sr_chunk r);
  src_document_id := sc_document_id (sr_chunk r); src_id := sr_id r; src_chunk_type := sc_chunk_type (sr_chunk r);
  src_content := sc_content (sr_chunk r); src_file_name := sr_file_name r;
  src_context_header := sc_context_header (sr_chunk r); src_parent_chunk_id := sc_parent_chunk_id (sr_chunk r);
|}.

Definition load_signals (src : Sources) (kind : str) (versions : list N) : list Signal :=
  map signal_of (signal_rows_of src kind versions).

Definition is_trusted (r : SignalRow) : bool :=
  existsb (str_eqb (sc_chunk_type (sr_chunk r))) [TEXT; PARENT_TEXT; IMAGE_OCR].

Definition load_sources (src : Sources) (kind : str) (versions : list N) : list Source :=
  map source_of (List.filter is_trusted (signal_rows_of src kind versions)).

(** [ORDER BY score DESC,product_id,product_version_id,document_id,id] *)
Definition compare_scored (l r : SignalRow * N) : comparison :=
  cmp_then (r.2 ?= l.2)
 (cmp_then (sr_product_id l.1 ?= sr_product_id r.1)
 (cmp_then (sc_product_version_id (sr_chunk l.1) ?= sc_product_version_id (sr_chunk r.1))
 (cmp_then (sc_document_id (sr_chunk l.1) ?= sc_document_id (sr_chunk r.1)) (sr_id l.1 ?= sr_id r.1)))).

(** [row_number()] over the scores at or above the threshold, up to [top_k]. *)
Definition chosen (threshold top_k : N) (scored : list (SignalRow * N)) : list (N * N) :=
  imap (fun i r => (sr_id r.1, N.of_nat i + 1))
    (take (N.to_nat top_k) (sort_with compare_scored (List.filter (fun r => threshold <=? r.2) scored))).

(** [u32::try_from(rank)] for each row, collected in a map. *)
Definition rank_step (overflow : str) (ranks : gmap N N) (row : N * N) : result KnowledgeRetrievalError (gmap N N) :=
  rank ← ok_or (if row.2 <? 4294967296 then Some row.2 else None) (integrity overflow);
  Ok (<[row.1 := rank]> ranks).

(** The full-text score of the tokens of a row for a query stream in millionths ([None]: no
    match), and the similarity of two vectors in millionths ([None]: the distance is not finite). *)
Context (keyword_score : str -> str -> option N) (vector_score : list f32 -> list f32 -> option N).

Definition score_keyword (s : SemanticStore) (policy : RetrievalPolicyV2) (stream : str) (r : SignalRow)
    : option (SignalRow * N) :=
  row ← keyword_at s policy (sr_id r); score ← keyword_score stream (kr_tokens row); Some (r, score).

Definition keyword_ranks (s : SemanticStore) (policy : RetrievalPolicyV2) (rows : list SignalRow) (query : str)
    : result KnowledgeRetrievalError (gmap N N) :=
  let stream := keyword_token_stream_v2 query in
  let scored := if str_is_empty stream then [] else omap (score_keyword s policy stream) rows in
  foldR (rank_step E_KEYWORD_RANK) ∅ (chosen (kw_threshold_millionths (keyword policy)) (kw_top_k (keyword policy)) scored).

(** The vector of a signal and its similarity to the query. *)
Definition score_vector (s : SemanticStore) (policy : RetrievalPolicyV2) (query : list f32) (r : SignalRow)
    : option (SignalRow * option N) :=
  row ← vector_at s policy (sr_id r) (sc_product_version_id (sr_chunk r)); Some (r, vector_score query (vr_embedding row)).

Definition vector_ranks (s : SemanticStore) (policy : RetrievalPolicyV2) (rows : list SignalRow) (query : list f32)
    : result KnowledgeRetrievalError (gmap N N) :=
  let distances := omap (score_vector s policy query) rows in
  _ ← reject_if (existsb (fun r => negb (bool_decide (is_Some r.2))) distances) (integrity E_DISTANCE);
  let scored := omap (fun r => score ← r.2; Some (r.1, score)) distances in
  foldR (rank_step E_VECTOR_RANK) ∅ (chosen (ep_threshold_millionths (embedding policy)) (ep_top_k (embedding policy)) scored).

(** ** References *)

(** The rows the two queries return, and [Uuid::parse_str]. *)
Context (graph_rows : list N -> list (N * list (option N))) (wiki_rows : list N -> list (N * Json)).
Context (parse_uuid : str -> option N).

Definition ids_of_type (signals : gmap N Signal) (ty : str) (active : list N) : list N :=
  List.filter (fun id => match signals !! id with Some sg => str_eqb (sg_chunk_type sg) ty | None => false end) active.

(** [for row in rows { refs.insert(row.id, parse(row.refs)?) }] *)
Definition ref_step {A} (parse : A -> result KnowledgeRetrievalError (list N)) (refs : gmap N (list N)) (row : N * A)
    : result KnowledgeRetrievalError (gmap N (list N)) :=
  parsed ← parse row.2; Ok (<[row.1 := parsed]> refs).

Definition push_ref {A} (read : A -> result KnowledgeRetrievalError N) (parsed : list N) (value : A)
    : result KnowledgeRetrievalError (list N) :=
  id ← read value; Ok (parsed ++ [id]).

Definition parse_graph (values : list (option N)) : result KnowledgeRetrievalError (list N) :=
  foldR (push_ref (fun value => ok_or value (integrity E_GRAPH_NULL))) [] values.

Definition parse_wiki (value : Json) : result KnowledgeRetrievalError (list N) :=
  items ← ok_or (as_array value) (integrity E_WIKI_ARRAY);
  foldR (push_ref (fun item =>
    text ← ok_or (as_str item) (integrity E_WIKI_STRING); ok_or (parse_uuid text) (integrity E_WIKI_UUID))) [] items.

Definition load_refs {A} (parse : A -> result KnowledgeRetrievalError (list N)) (rows : list N -> list (N * A))
    (ids : list N) : result KnowledgeRetrievalError (gmap N (list N)) :=
  match ids with
  | [] => Ok ∅
  | _ => foldR (ref_step parse) ∅ (rows ids)
  end.

Definition load_graph_refs (signals : gmap N Signal) (active : list N) : result KnowledgeRetrievalError (gmap N (list N)) :=
  load_refs parse_graph graph_rows (ids_of_type signals GRAPH_NODE active).

Definition load_wiki_refs (signals : gmap N Signal) (active : list N) : result KnowledgeRetrievalError (gmap N (list N)) :=
  load_refs parse_wiki wiki_rows (ids_of_type signals Recall.WIKI_PAGE active).

(** ** The recall *)

Definition recall_digest (text : str) : str := sha256_hex (as_bytes text).

(** The iteration orders of the hash set of ranked signals and of the hash map of folded sources. *)
Context (order : gset N -> list N) (iter : gmap N FoldedRanks -> list (N * FoldedRanks)).

(** Everything the queries deliver to the fold. *)
Definition read_snapshot (s : SemanticStore) (kind : str) (versions : list N) (requirement_text : str)
    (policy : RetrievalPolicyV2) (query_embedding : QueryEmbeddingV2)
    : result KnowledgeRetrievalError (gmap N N * gmap N N * gmap N (list N) * gmap N (list N)) :=
  let rows := signal_rows_of (sources s) kind versions in
  let signals := Recall.by_id sg_id (load_signals (sources s) kind versions) in
  keywords ← keyword_ranks s policy rows requirement_text;
  vectors ← vector_ranks s policy rows (qe_values query_embedding);
  let active := order (dom keywords ∪ dom vectors) in
  graph ← load_graph_refs signals active;
  wiki ← load_wiki_refs signals active;
  Ok (keywords, vectors, graph, wiki).

Definition recall_in_snapshot (s : SemanticStore) (kind : str) (selected : list N) (requirement_text : str)
    (policy : RetrievalPolicyV2) (query_embedding : QueryEmbeddingV2)
    : option (result KnowledgeRetrievalError (list SemanticCandidateV2)) :=
  let normalized := normalize_exact_v2 to_lowercase requirement_text in
  let versions := in_order (eligible_versions (sources s) kind selected) in
  andThen (Some (_ ← reject_if (str_is_empty normalized) (InvalidRequest E_REQUIREMENT);
                 _ ← check_scope (sources s) kind selected;
                 check_generations s policy versions)) (fun _ =>
  andThen (Some (read_snapshot s kind versions requirement_text policy query_embedding)) (fun '(keywords, vectors, graph, wiki) =>
  recall_candidates to_lowercase recall_digest (load_signals (sources s) kind versions)
    (load_sources (sources s) kind versions) graph wiki vectors keywords normalized policy
    (order (dom keywords ∪ dom vectors)) iter)).

End recall.
