(* ===== verification/SemanticRecallFacts.v ===== *)
(** * The recall of a snapshot: theorems

    The check before a recall is equivalent to one current, complete generation per version;
    a recall that returns has read fresh sidecars only; a version whose content returned to an
    earlier state is published again and yet refused. *)
From S2P Require Import Prelude RustStr RustFloat Keywords Batches Policy Order Rank Recall Evidence BatchFacts PolicyFacts.
From S2P Require Import Providers ProvidersFacts Pipeline SemanticIndex SemanticIndexFacts Sse SemanticRecall.

Local Open Scope N_scope.

(** ** Lists *)

Lemma filter_and {A} (p q : A -> bool) l : List.filter p (List.filter q l) = List.filter (fun x => p x && q x) l.
Proof.
  induction l as [|x l IH]; [done|]. cbn [List.filter]. destruct (q x); cbn [List.filter]; rewrite ?andb_true_r, ?andb_false_r; [|done].
  by rewrite IH.
Qed.

Lemma omap_complete {A B} (f : A -> option B) l : length (omap f l) = length l <-> Forall (fun x => is_Some (f x)) l.
Proof.
  assert (forall l, (length (omap f l) <= length l)%nat) as Hle.
  { intros k. induction k as [|x k IH]; [done|]. cbn. destruct (f x); cbn; lia. }
  induction l as [|x l IH]; [split; [constructor|done]|]. rewrite Forall_cons, <- IH. cbn.
  destruct (f x) as [y|]; cbn.
  - split; [intros [= H]; by split|]. by intros [_ ->].
  - pose proof (Hle l). split; [lia|]. by intros [[? ?] _].
Qed.

(** When nothing is empty, a total of one each means one each. *)
Lemma concat_ones {A B} (f : A -> list B) l :
  Forall (fun x => (1 <= length (f x))%nat) l ->
  length (concat (map f l)) = length l <-> Forall (fun x => length (f x) = 1%nat) l.
Proof.
  assert (forall l, Forall (fun x => (1 <= length (f x))%nat) l -> (length l <= length (concat (map f l)))%nat) as Hle.
  { intros k Hk. induction Hk as [|x k H _ IH]; [done|]. cbn. rewrite length_app. lia. }
  induction 1 as [|x l Hx H IH]; [split; [constructor|done]|]. cbn. rewrite length_app, Forall_cons, <- IH.
  pose proof (Hle l H). lia.
Qed.

Lemma by_id_is_Some {A} (id : A -> N) rows row : row ∈ rows -> is_Some (Recall.by_id id rows !! id row).
Proof.
  unfold Recall.by_id. generalize (∅ : gmap N A). induction rows as [|r rows IH] using rev_ind; intros m; [by intros ?%elem_of_nil|].
  rewrite foldl_app. cbn [foldl]. destruct (decide (id row = id r)) as [E|Hne].
  - rewrite E, lookup_insert_eq. by eexists.
  - rewrite lookup_insert_ne by congruence. intros [H|H%list_elem_of_singleton]%elem_of_app; [by apply IH|congruence].
Qed.

(** ** The rows of the join *)

Section join.
Context (s : SemanticStore).

Lemma version_markers_in v w g : (w, g) ∈ version_markers s v ->
  w = v /\ vector_generations s !! v = Some g /\ keyword_generations s !! v = Some g
  /\ pending_derived (sources s) v = false /\ version_markers s v = map (fun _ => (v, g)) (List.filter (marks v g) (intents s)).
Proof.
  unfold version_markers. destruct (vector_generations s !! v) as [g'|]; [|by intros ?%elem_of_nil].
  destruct (bool_decide _) eqn:E1; [|by intros ?%elem_of_nil]. destruct (pending_derived _ _); [by intros ?%elem_of_nil|].
  cbn [negb andb]. intros (i & [= -> ->] & _)%list_elem_of_fmap. apply bool_decide_eq_true in E1. done.
Qed.

Lemma marker_rows_in versions v g : (v, g) ∈ marker_rows s versions <-> v ∈ versions /\ (v, g) ∈ version_markers s v.
Proof.
  unfold marker_rows. rewrite list_elem_of_In, in_concat. setoid_rewrite in_map_iff. setoid_rewrite <- list_elem_of_In. split.
  - intros (? & (w & <- & Hw) & H). by pose proof H as (-> & _)%version_markers_in.
  - intros [Hv H]. eexists. split; [by exists v|done].
Qed.

Lemma markers_in versions v g : markers_of (marker_rows s versions) !! v = Some g <->
  v ∈ versions /\ (v, g) ∈ version_markers s v.
Proof.
  unfold markers_of. rewrite lookup_fmap, fmap_Some, <- marker_rows_in. split.
  - intros ([w g'] & [E H]%by_id_lookup & ->). cbn in E. by subst w.
  - intros H. destruct (by_id_is_Some fst _ _ H) as [[w g'] Hg]. cbn in Hg.
    pose proof (by_id_lookup _ _ _ _ Hg) as [E Hin]. cbn in E. subst w. exists (v, g'). split; [done|].
    apply marker_rows_in in H as [_ H], Hin as [_ Hin]. apply version_markers_in in H as (_ & H & _), Hin as (_ & Hin & _).
    cbn. congruence.
Qed.

End join.

Section gate.
Context (sha256_hex : list Z -> str) (uuid_to_string : N -> str).
Context (s : SemanticStore) (policy : RetrievalPolicyV2).

Notation revision := (ep_model_revision_sha256 (embedding policy)).

(** The generation the sources of a version have now. *)
Definition current_generation (version : N) : Generation :=
  let '(snapshot, count) := source_snapshot_v2 sha256_hex uuid_to_string (sources s) version revision in
  {| gn_embedding_revision_sha256 := revision; gn_source_snapshot_sha256 := snapshot; gn_chunk_count := count |}.

(** A version that a recall may read. *)
Record recallable (version : N) : Prop := {
  rc_binding : bindings (sources s) !! version = Some revision;
  rc_settled : pending_derived (sources s) version = false;
  rc_vectors : vector_generations s !! version = Some (current_generation version);
  rc_keywords : keyword_generations s !! version = Some (current_generation version);
  rc_marker : length (List.filter (marks version (current_generation version)) (intents s)) = 1%nat;
  rc_sidecars : forall id c, (id, c) ∈ source_chunks (sources s) version ->
    keyword_fresh sha256_hex s policy id c = true /\ vector_fresh sha256_hex s policy (current_generation version) id c = true;
}.

Lemma check_bindings_exact versions u :
  check_bindings (sources s) versions revision = Ok u <->
  Forall (fun v => bindings (sources s) !! v = Some revision) versions.
Proof.
  unfold check_bindings, bound_revisions. rewrite reject_if_Ok, orb_false_iff, negb_false_iff, Nat.eqb_eq, omap_complete.
  rewrite existsb_negb_forallb, negb_false_iff, forallb_Forall. split.
  - intros [H1 H2]. induction H1 as [|v l [sha Hv] _ IH]; [constructor|]. cbn in H2. rewrite Hv in H2.
    apply Forall_cons in H2 as [->%str_eqb_spec H2]. constructor; [done|by apply IH].
  - induction 1 as [|v l Hv _ [IH1 IH2]]; [by split|]. cbn. rewrite Hv. split; constructor; try done. by apply str_eqb_spec.
Qed.

(** *** The loops *)

Definition row_fresh (markers : gmap N Generation) (row : N * SourceChunk) : Prop :=
  exists marker, markers !! sc_product_version_id row.2 = Some marker
  /\ keyword_fresh sha256_hex s policy row.1 row.2 = true /\ vector_fresh sha256_hex s policy marker row.1 row.2 = true.

Definition inputs_of (rows : list (N * SourceChunk)) (version : N) : list VectorEmbeddingInputV2 :=
  map (embedding_input sha256_hex) (List.filter (fun row => sc_product_version_id row.2 =? version) rows).

Lemma sidecar_step_exact markers inputs row inputs' :
  sidecar_step sha256_hex s policy markers inputs row = Ok inputs' <->
  row_fresh markers row
  /\ inputs' = <[sc_product_version_id row.2
       := default [] (inputs !! sc_product_version_id row.2) ++ [embedding_input sha256_hex row]]> inputs.
Proof.
  destruct row as [id c]. unfold sidecar_step, row_fresh. cbn [fst snd]. rewrite bind_Ok. setoid_rewrite bind_Ok.
  setoid_rewrite ok_or_Ok. setoid_rewrite reject_if_Ok. setoid_rewrite orb_false_iff. setoid_rewrite negb_false_iff. split.
  - intros (m & Hm & [] & [H1 H2] & [= <-]). split; [|done]. by exists m.
  - intros [(m & Hm & H1 & H2) ->]. exists m. split; [done|]. by exists tt.
Qed.

Lemma sidecar_loop markers rows inputs inputs' :
  foldR (sidecar_step sha256_hex s policy markers) inputs rows = Ok inputs' ->
  Forall (row_fresh markers) rows
  /\ forall v, default [] (inputs' !! v) = default [] (inputs !! v) ++ inputs_of rows v.
Proof.
  revert inputs. induction rows as [|row rows IH]; intros inputs; cbn [foldR].
  - intros [= ->]. split; [constructor|]. intros v. by rewrite app_nil_r.
  - intros (m & [Hr ->]%sidecar_step_exact & [H1 H2]%IH)%bind_Ok. split; [by constructor|]. intros v. rewrite H2.
    unfold inputs_of. cbn [List.filter]. destruct (N.eqb_spec (sc_product_version_id row.2) v) as [<-|Hne].
    + rewrite lookup_insert_eq. cbn [from_option id map]. by rewrite <- app_assoc.
    + by rewrite lookup_insert_ne.
Qed.

Lemma sidecar_loop_total markers rows : Forall (row_fresh markers) rows -> forall inputs,
  exists inputs', foldR (sidecar_step sha256_hex s policy markers) inputs rows = Ok inputs'.
Proof.
  induction 1 as [|row rows Hr _ IH]; intros inputs; [by eexists|]. cbn [foldR].
  edestruct IH as [inputs' H]. exists inputs'. apply bind_Ok. eexists. split; [by apply sidecar_step_exact|exact H].
Qed.

Lemma inputs_of_version versions v : v ∈ versions ->
  inputs_of (signal_chunks (sources s) versions) v
  = map (embedding_input sha256_hex) (source_chunks (sources s) v).
Proof.
  intros Hv. unfold inputs_of, signal_chunks, source_chunks. f_equal. rewrite filter_and. apply filter_ext.
  intros [id c]. cbn. destruct (N.eqb_spec (sc_product_version_id c) v) as [->|]; [|done]. by rewrite bool_decide_true.
Qed.

Lemma generation_step_exact markers inputs v :
  generation_step sha256_hex uuid_to_string policy markers inputs tt v = Ok tt <->
  exists marker, markers !! v = Some marker /\ gn_embedding_revision_sha256 marker = revision
  /\ gn_chunk_count marker = Providers.len (default [] (inputs !! v))
  /\ gn_source_snapshot_sha256 marker
     = source_snapshot_sha256_v2 sha256_hex uuid_to_string revision (default [] (inputs !! v)).
Proof.
  unfold generation_step. rewrite bind_Ok. setoid_rewrite ok_or_Ok. setoid_rewrite reject_if_Ok.
  setoid_rewrite orb_false_iff. setoid_rewrite orb_false_iff. setoid_rewrite negb_false_iff.
  setoid_rewrite str_eqb_spec. setoid_rewrite N.eqb_eq. split.
  - intros (m & Hm & [H1 H2] & H3). exists m. rewrite H1 in H3. done.
  - intros (m & Hm & H1 & H2 & H3). exists m. by rewrite H1.
Qed.

(** The generation of a version whose inputs are those of its sources is the current one. *)
Lemma current_generation_eq v marker :
  gn_embedding_revision_sha256 marker = revision ->
  gn_chunk_count marker = Providers.len (map (embedding_input sha256_hex) (source_chunks (sources s) v)) ->
  gn_source_snapshot_sha256 marker = source_snapshot_sha256_v2 sha256_hex uuid_to_string revision
    (map (embedding_input sha256_hex) (source_chunks (sources s) v)) ->
  marker = current_generation v.
Proof. intros H1 H2 H3. unfold current_generation, source_snapshot_v2. destruct marker. cbn in *. congruence. Qed.

Lemma check_generations_eq versions :
  check_generations sha256_hex uuid_to_string s policy versions = Ok tt <->
  Forall (fun v => bindings (sources s) !! v = Some revision) versions
  /\ length (marker_rows s versions) = length versions
  /\ exists inputs,
       foldR (sidecar_step sha256_hex s policy (markers_of (marker_rows s versions))) ∅
         (signal_chunks (sources s) versions) = Ok inputs
       /\ Forall (fun v => generation_step sha256_hex uuid_to_string policy (markers_of (marker_rows s versions)) inputs tt v
                          = Ok tt) versions.
Proof.
  unfold check_generations. split.
  - intros ([] & Hb%check_bindings_exact & H)%bind_Ok.
    apply bind_Ok in H as ([] & Hl%reject_if_Ok%negb_false_iff%Nat.eqb_eq & (inputs & Hi & Hg%foldR_unit)%bind_Ok).
    split; [done|]. split; [done|]. by exists inputs.
  - intros (Hb & Hl & inputs & Hi & Hg). apply bind_Ok. exists tt. split; [by apply check_bindings_exact|].
    apply bind_Ok. exists tt. split; [by apply reject_if_Ok, negb_false_iff, Nat.eqb_eq|].
    apply bind_Ok. exists inputs. split; [done|by apply foldR_unit].
Qed.

Lemma check_generations_sound versions :
  check_generations sha256_hex uuid_to_string s policy versions = Ok tt -> Forall recallable versions.
Proof.
  rewrite check_generations_eq. intros (Hb & Hlen & inputs & [Hrows Hin]%sidecar_loop & Hg).
  rewrite Forall_forall in Hb. rewrite Forall_forall in Hg. rewrite Forall_forall in Hrows.
  assert (forall v, v ∈ versions -> exists g, (v, g) ∈ version_markers s v /\ g = current_generation v
    /\ markers_of (marker_rows s versions) !! v = Some g) as Hcur.
  { intros v Hv. destruct (proj1 (generation_step_exact _ _ _) (Hg v Hv)) as (g & Hm & H1 & H2 & H3). pose proof Hm as [_ Hin']%markers_in.
    rewrite Hin, lookup_empty, inputs_of_version in H2, H3 by done. exists g. split; [done|]. split; [|done].
    by apply current_generation_eq. }
  apply concat_ones in Hlen.
  2:{ apply Forall_forall. intros v (g & Hgv & _)%Hcur. apply list_elem_of_lookup in Hgv as [k Hk].
      apply lookup_lt_Some in Hk. lia. }
  rewrite Forall_forall in Hlen. apply Forall_forall. intros v Hv.
  destruct (Hcur v Hv) as (g & Hm & -> & Hmk). pose proof (Hlen v Hv) as H1. cbn in H1.
  apply version_markers_in in Hm as (_ & Hvg & Hkg & Hp & E). rewrite E, length_map in H1.
  split; [by apply Hb|done..|].
  intros id c Hc. unfold source_chunks in Hc. apply list_elem_of_In, filter_In in Hc as [Hc [Hve%N.eqb_eq Hs]%andb_prop].
  destruct (Hrows (id, c)) as (marker & Hmarker & Hk & Hvec).
  { unfold signal_chunks. apply list_elem_of_In, filter_In. split; [done|]. apply andb_true_iff. split; [|done].
    apply bool_decide_eq_true. by rewrite Hve. }
  cbn in Hmarker, Hk, Hvec. rewrite Hve, Hmk in Hmarker. by injection Hmarker as <-.
Qed.

Lemma check_generations_complete versions :
  Forall recallable versions -> check_generations sha256_hex uuid_to_string s policy versions = Ok tt.
Proof.
  intros Hr. apply check_generations_eq. rewrite Forall_forall in Hr. split; [apply Forall_forall; intros v Hv; by apply Hr|].
  assert (forall v, v ∈ versions -> version_markers s v
    = map (fun _ => (v, current_generation v)) (List.filter (marks v (current_generation v)) (intents s))) as Hvm.
  { intros v [_ Hp Hv Hk _ _]%Hr. unfold version_markers. by rewrite Hv, Hk, bool_decide_true, Hp by done. }
  assert (Forall (fun v => length (version_markers s v) = 1%nat) versions) as Hones.
  { apply Forall_forall. intros v Hv. rewrite Hvm, length_map by done. by apply Hr. }
  assert (forall v, v ∈ versions -> markers_of (marker_rows s versions) !! v = Some (current_generation v)) as Hmk.
  { intros v Hv. apply markers_in. split; [done|]. rewrite Forall_forall in Hones. pose proof (Hones v Hv) as H1.
    rewrite (Hvm v Hv) in H1 |- *. rewrite length_map in H1. destruct (List.filter _ _) as [|i l]; [done|]. left. }
  split.
  { apply concat_ones; [|done]. eapply Forall_impl; [exact Hones|]. cbn. lia. }
  destruct (sidecar_loop_total (markers_of (marker_rows s versions)) (signal_chunks (sources s) versions)) with (∅ : gmap N (list VectorEmbeddingInputV2))
    as [inputs Hin].
  { apply Forall_forall. intros [id c] Hc. unfold signal_chunks in Hc.
    apply list_elem_of_In, filter_In in Hc as [Hc [Hv%bool_decide_eq_true Hs]%andb_prop].
    exists (current_generation (sc_product_version_id c)). split; [by apply Hmk|]. apply Hr; [done|].
    apply list_elem_of_In, filter_In. split; [done|]. cbn [fst snd]. by rewrite N.eqb_refl, Hs. }
  exists inputs. split; [done|]. apply sidecar_loop in Hin as [_ Hin]. apply Forall_forall. intros v Hv.
  apply generation_step_exact. exists (current_generation v). split; [by apply Hmk|].
  rewrite Hin, lookup_empty, inputs_of_version by done. by unfold current_generation, source_snapshot_v2.
Qed.

Lemma check_generations_exact versions :
  check_generations sha256_hex uuid_to_string s policy versions = Ok tt <-> Forall recallable versions.
Proof. split; [apply check_generations_sound|apply check_generations_complete]. Qed.
End gate.

(** ** The rows of the channels *)

Lemma signal_chunk_in src versions id c : (id, c) ∈ signal_chunks src versions <->
  chunks src !! id = Some c /\ sc_product_version_id c ∈ versions /\ is_source src id c = true.
Proof.
  unfold signal_chunks. rewrite list_elem_of_In, filter_In, <- list_elem_of_In, elem_of_by_id.
  by rewrite andb_true_iff, bool_decide_eq_true.
Qed.

(** What a row of the signal queries says of the tables. *)
Record row_of (src : Sources) (kind : str) (versions : list N) (r : SignalRow) : Prop := {
  ro_chunk : chunks src !! sr_id r = Some (sr_chunk r);
  ro_version : sc_product_version_id (sr_chunk r) ∈ versions;
  ro_source : is_source src (sr_id r) (sr_chunk r) = true;
  ro_product : version_products src !! sc_product_version_id (sr_chunk r) = Some (sr_product_id r);
  ro_document : exists d, documents src !! sc_document_id (sr_chunk r) = Some d /\ sr_file_name r = sd_file_name d;
}.

Lemma signal_row_of src kind versions r : r ∈ signal_rows_of src kind versions -> row_of src kind versions r.
Proof.
  unfold signal_rows_of. rewrite list_elem_of_omap. intros ([id c] & (Hc & Hv & Hs)%signal_chunk_in & H).
  unfold signal_row in H. cbn [fst snd] in H.
  apply bind_Some in H as ([product p] & Hp & (d & Hd & H)%bind_Some). destruct (str_eqb _ _); [|done].
  injection H as <-. apply bind_Some in Hp as (product' & Hp & (p' & _ & [= <- <-])%bind_Some).
  split; cbn; try done. by exists d.
Qed.

Lemma chosen_in threshold top_k scored id rank : (id, rank) ∈ chosen threshold top_k scored ->
  (exists r score, (r, score) ∈ scored /\ sr_id r = id /\ threshold <= score) /\ 0 < rank <= top_k.
Proof.
  unfold chosen. intros (i & [r score] & [= -> ->] & Hi)%elem_of_lookup_imap_1. apply lookup_take_Some in Hi as [Hi Hlt].
  split; [|cbn; lia]. apply list_elem_of_lookup_2 in Hi. rewrite sort_with_perm in Hi.
  apply list_elem_of_In, filter_In in Hi as [Hi Ht%N.leb_le]. exists r, score. by rewrite list_elem_of_In.
Qed.

Lemma rank_loop overflow rows ranks ranks' : foldR (rank_step overflow) ranks rows = Ok ranks' ->
  forall id rank, ranks' !! id = Some rank -> ranks !! id = Some rank \/ ((id, rank) ∈ rows /\ u32_number rank).
Proof.
  revert ranks. induction rows as [|[id' rank'] rows IH]; intros ranks; cbn [foldR]; [intros [= <-]; by left|].
  intros (m & Hm & H)%bind_Ok id rank [Hr|[Hr Hu]]%(IH _ H); [|right; split; [by right|done]].
  unfold rank_step in Hm. cbn [fst snd] in Hm. apply bind_Ok in Hm as (r & Hlt & [= <-]).
  destruct (N.ltb_spec rank' 4294967296); [|done]. injection Hlt as <-.
  apply lookup_insert_Some in Hr as [[<- <-]|[_ Hr]]; [right; split; [left|done]|by left].
Qed.

(** A channel ranks rows of the snapshot from one to its limit. *)
Definition ranks_rows (rows : list SignalRow) (top_k : N) (ranks : gmap N N) : Prop :=
  forall id rank, ranks !! id = Some rank ->
    (exists r, r ∈ rows /\ sr_id r = id) /\ 0 < rank <= top_k /\ u32_number rank.

Lemma chosen_ranks rows overflow threshold top_k scored ranks :
  (forall r score, (r, score) ∈ scored -> r ∈ rows) ->
  foldR (rank_step overflow) ∅ (chosen threshold top_k scored) = Ok ranks -> ranks_rows rows top_k ranks.
Proof.
  intros Hs H id rank [Hr|[Hr Hu]]%(rank_loop _ _ _ _ H); [by rewrite lookup_empty in Hr|].
  apply chosen_in in Hr as [(r & score & Hin & <- & _) Hrank]. split; [|done]. exists r. split; [by eapply Hs|done].
Qed.

(** The order of a channel: by score, then by the identifiers. *)
#[export] Instance comparator_scored : Comparator compare_scored.
Proof.
  unfold compare_scored. apply (comparator_then (fun l r : SignalRow * N => r.2 ?= l.2)).
  { apply (comparator_flip (fun l r : SignalRow * N => l.2 ?= r.2)), (comparator_proj N.compare snd), _. }
  apply (comparator_then (fun l r : SignalRow * N => sr_product_id l.1 ?= sr_product_id r.1)).
  { apply (comparator_proj N.compare (fun l : SignalRow * N => sr_product_id l.1)), _. }
  apply (comparator_then (fun l r : SignalRow * N => sc_product_version_id (sr_chunk l.1) ?= sc_product_version_id (sr_chunk r.1))).
  { apply (comparator_proj N.compare (fun l : SignalRow * N => sc_product_version_id (sr_chunk l.1))), _. }
  apply (comparator_then (fun l r : SignalRow * N => sc_document_id (sr_chunk l.1) ?= sc_document_id (sr_chunk r.1))).
  { apply (comparator_proj N.compare (fun l : SignalRow * N => sc_document_id (sr_chunk l.1))), _. }
  apply (comparator_proj N.compare (fun l : SignalRow * N => sr_id l.1)), _.
Qed.

(** A channel keeps the best rows: a row at or above the threshold is ranked before every row
    with a lower score, and one is left out only when all [top_k] ranks are given. *)
Record best_ranked (scored : list (SignalRow * N)) (threshold top_k : N) (ranks : gmap N N) : Prop := {
  br_scored : forall id, is_Some (ranks !! id) ->
    exists r score, (r, score) ∈ scored /\ sr_id r = id /\ threshold <= score;
  br_kept : forall r score, (r, score) ∈ scored -> threshold <= score ->
    is_Some (ranks !! sr_id r) \/ forall rank, 0 < rank <= top_k -> exists id, ranks !! id = Some rank;
  br_order : forall r score r' score' rank, (r, score) ∈ scored -> (r', score') ∈ scored ->
    threshold <= score' -> score < score' -> ranks !! sr_id r = Some rank ->
    exists rank', ranks !! sr_id r' = Some rank' /\ rank' < rank;
}.

Lemma rank_loop_complete overflow rows : forall ranks ranks', foldR (rank_step overflow) ranks rows = Ok ranks' ->
  NoDup (map fst rows) ->
  (forall id rank, (id, rank) ∈ rows -> ranks' !! id = Some rank)
  /\ forall id, id ∉ map fst rows -> ranks' !! id = ranks !! id.
Proof.
  induction rows as [|[id0 rank0] rows IH]; intros ranks ranks'; cbn [foldR map].
  { intros [= <-] _. split; [by intros ? ? ?%elem_of_nil|done]. }
  intros (m & Hm & H)%bind_Ok [Hn Hnd]%NoDup_cons. destruct (IH _ _ H Hnd) as [H1 H2]. unfold rank_step in Hm.
  apply bind_Ok in Hm as (r & Hlt & [= <-]). cbn [fst snd] in *. destruct (N.ltb_spec rank0 4294967296); [|done].
  injection Hlt as <-. split.
  - intros id rank [[= -> ->]|Hr]%elem_of_cons; [|by apply H1]. by rewrite H2, lookup_insert_eq.
  - intros id [Hne Hr]%not_elem_of_cons. rewrite H2, lookup_insert_ne by done. done.
Qed.

Lemma sorted_lookup {A} (R : A -> A -> Prop) l : StronglySorted R l -> forall i j x y, (i < j)%nat ->
  l !! i = Some x -> l !! j = Some y -> R x y.
Proof.
  induction 1 as [|z l H IH Hz]; intros i j x y Hij Hi Hj; [done|]. destruct j as [|j]; [lia|]. cbn in Hj.
  destruct i as [|i]; cbn in Hi.
  - injection Hi as <-. rewrite Forall_forall in Hz. apply Hz. by eapply list_elem_of_lookup_2.
  - by apply (IH i j); [lia|..].
Qed.

Section best.
Context (overflow : str) (threshold top_k : N) (scored : list (SignalRow * N)) (ranks : gmap N N).
Context (Hnd : NoDup (map (fun r => sr_id r.1) scored)).
Context (Hranks : foldR (rank_step overflow) ∅ (chosen threshold top_k scored) = Ok ranks).
Let sorted := sort_with compare_scored (List.filter (fun r => threshold <=? r.2) scored).

Lemma sorted_row i row : sorted !! i = Some row -> row ∈ scored /\ threshold <= row.2.
Proof using.
  clear. intros H%list_elem_of_lookup_2. unfold sorted in H. rewrite sort_with_perm in H.
  by apply list_elem_of_In, filter_In in H as [H%list_elem_of_In Ht%N.leb_le].
Qed.

Lemma row_sorted row : row ∈ scored -> threshold <= row.2 -> exists i, sorted !! i = Some row.
Proof using.
  clear. intros Hin Ht. apply list_elem_of_lookup. unfold sorted. rewrite sort_with_perm.
  apply list_elem_of_In, filter_In. split; [by apply list_elem_of_In|by apply N.leb_le].
Qed.

Lemma ranked_nodup : NoDup (map (fun r => sr_id r.1) sorted).
Proof using Hnd.
  unfold sorted. rewrite sort_with_perm. eapply sublist_NoDup; [exact Hnd|].
  clear. induction scored as [|x l IH]; [constructor|]. cbn. by destruct (_ <=? _); constructor.
Qed.

Lemma ranks_position id rank : ranks !! id = Some rank <->
  exists i row, sorted !! i = Some row /\ sr_id row.1 = id /\ rank = N.of_nat i + 1 /\ rank <= top_k.
Proof using Hnd Hranks.
  assert (NoDup (map fst (chosen threshold top_k scored))) as Hc.
  { replace (map fst (chosen threshold top_k scored)) with (take (N.to_nat top_k) (map (fun r => sr_id r.1) sorted)).
    - apply sublist_NoDup with (map (fun r => sr_id r.1) sorted); [exact ranked_nodup|apply sublist_take].
    - unfold chosen. fold sorted. rewrite <- fmap_take. apply list_eq. intros i.
      rewrite !list_lookup_fmap, list_lookup_imap. by destruct (take _ sorted !! i). }
  destruct (rank_loop_complete _ _ _ _ Hranks Hc) as [H1 _]. split.
  - intros [Hr|[Hr _]]%(rank_loop _ _ _ _ Hranks); [by rewrite lookup_empty in Hr|].
    apply elem_of_lookup_imap_1 in Hr as (i & row & [= -> ->] & [Hi Hlt]%lookup_take_Some).
    exists i, row. split; [exact Hi|]. split; [done|]. split; [done|lia].
  - intros (i & row & Hi & <- & -> & Hk). apply H1. unfold chosen.
    apply (elem_of_lookup_imap_2 (fun i r => (sr_id r.1, N.of_nat i + 1)) _ row i). apply lookup_take_Some.
    split; [exact Hi|lia].
Qed.

Lemma chosen_best : best_ranked scored threshold top_k ranks.
Proof using Hnd Hranks.
  split.
  - intros id [rank (i & [r score] & Hi & <- & _)%ranks_position]. apply sorted_row in Hi as [Hin Ht]. by exists r, score.
  - intros r score Hin Ht. destruct (row_sorted _ Hin Ht) as [i Hi].
    destruct (decide (N.of_nat i + 1 <= top_k)) as [Hk|Hk].
    + left. eexists. apply ranks_position. by exists i, (r, score).
    + right. intros rank Hr. destruct (lookup_lt_is_Some_2 sorted (N.to_nat (rank - 1))) as [row Hrow].
      { apply lookup_lt_Some in Hi. lia. }
      exists (sr_id row.1). apply ranks_position. exists (N.to_nat (rank - 1)), row. repeat split; [done|lia..].
  - intros r score r' score' rank Hr Hr' Ht Hlt (i & row & Hi & Hid & -> & Hk)%ranks_position.
    destruct (row_sorted (r', score') Hr' Ht) as [j Hj]. pose proof (sorted_row _ _ Hi) as [Hin _].
    assert (row = (r, score)) as ->.
    { apply list_elem_of_lookup in Hr as [a Ha], Hin as [b Hb].
      assert (a = b) as ->; [|congruence]. eapply NoDup_lookup; [exact Hnd|..]; rewrite list_lookup_fmap.
      - by rewrite Ha.
      - rewrite Hb. cbn. by f_equal. }
    exists (N.of_nat j + 1). assert (j < i)%nat as Hji.
    { destruct (lt_eq_lt_dec i j) as [[Hij| ->]|Hij]; [|rewrite Hi in Hj; injection Hj; lia|done].
      pose proof (sorted_lookup _ _ (sort_with_sorted compare_scored _) i j _ _ Hij Hi Hj) as Hle.
      unfold compare_scored in Hle. cbn in Hle. by rewrite (proj2 (N.compare_gt_iff _ _) Hlt) in Hle. }
    split; [|lia]. apply ranks_position. exists j, (r', score'). repeat split; [done|lia].
Qed.
End best.

Section channels.
Context (keyword_score : str -> str -> option N) (vector_score : list f32 -> list f32 -> option N).

Lemma keyword_ranks_rows s policy rows query ranks :
  keyword_ranks keyword_score s policy rows query = Ok ranks -> ranks_rows rows (kw_top_k (keyword policy)) ranks.
Proof.
  unfold keyword_ranks. apply chosen_ranks. intros r score. destruct (str_is_empty _); [by intros ?%elem_of_nil|].
  intros (r' & Hr & H)%list_elem_of_omap. unfold score_keyword in H.
  by apply bind_Some in H as (row & _ & (x & _ & [= <- _])%bind_Some).
Qed.

Lemma vector_ranks_rows s policy rows query ranks :
  vector_ranks vector_score s policy rows query = Ok ranks -> ranks_rows rows (ep_top_k (embedding policy)) ranks.
Proof.
  unfold vector_ranks. intros ([] & _ & H)%bind_Ok. revert H. apply chosen_ranks. intros r score.
  intros ([r' d] & Hr & H)%list_elem_of_omap. apply bind_Some in H as (x & _ & [= -> _]).
  apply list_elem_of_omap in Hr as (r' & Hr & H). unfold score_vector in H.
  by apply bind_Some in H as (row & _ & [= <- _]).
Qed.
(** The rows a channel scores: those with a row in its sidecar that matches, with the score. *)
Definition keyword_scored (s : SemanticStore) (policy : RetrievalPolicyV2) (rows : list SignalRow) (query : str)
    : list (SignalRow * N) :=
  if str_is_empty (keyword_token_stream_v2 query) then []
  else omap (score_keyword keyword_score s policy (keyword_token_stream_v2 query)) rows.

Definition vector_scored (s : SemanticStore) (policy : RetrievalPolicyV2) (rows : list SignalRow) (query : list f32)
    : list (SignalRow * N) :=
  omap (fun r => row ← vector_at s policy (sr_id r) (sc_product_version_id (sr_chunk r));
                 score ← vector_score query (vr_embedding row); Some (r, score)) rows.

Lemma omap_ids (f : SignalRow -> option (SignalRow * N)) rows : (forall r x, f r = Some x -> x.1 = r) ->
  NoDup (map sr_id rows) -> NoDup (map (fun r => sr_id r.1) (omap f rows)).
Proof using.
  clear. intros Hf Hnd. eapply sublist_NoDup; [exact Hnd|]. clear Hnd. induction rows as [|r rows IH]; [constructor|]. cbn.
  destruct (f r) as [x|] eqn:E; cbn; [rewrite (Hf _ _ E)|]; by constructor.
Qed.

Lemma signal_rows_nodup src kind versions : NoDup (map sr_id (signal_rows_of src kind versions)).
Proof using.
  clear. unfold signal_rows_of, signal_chunks, by_id. set (l := sort_by _ _). assert (NoDup (map fst l)) as Hl.
  { unfold l. rewrite sort_by_perm. apply NoDup_fst_map_to_list. }
  clearbody l. eapply sublist_NoDup; [exact Hl|]. clear Hl. induction l as [|[id c] l IH]; [constructor|]. cbn.
  destruct (_ && _); cbn; [|by constructor]. unfold signal_row at 1. cbn [fst snd].
  destruct (product_of src (sc_product_version_id c)) as [[product p]|]; cbn; [|by constructor].
  destruct (documents src !! sc_document_id c) as [d|]; cbn; [|by constructor].
  destruct (str_eqb _ _); cbn; by constructor.
Qed.

Lemma keyword_ranks_best s policy rows query ranks : NoDup (map sr_id rows) ->
  keyword_ranks keyword_score s policy rows query = Ok ranks ->
  best_ranked (keyword_scored s policy rows query) (kw_threshold_millionths (keyword policy)) (kw_top_k (keyword policy)) ranks.
Proof.
  intros Hnd H. apply (chosen_best E_KEYWORD_RANK); [|exact H]. unfold keyword_scored.
  destruct (str_is_empty _); [constructor|]. apply omap_ids; [|done]. intros r x Hx. unfold score_keyword in Hx.
  by apply bind_Some in Hx as (row & _ & (score & _ & [= <-])%bind_Some).
Qed.

Lemma vector_ranks_best s policy rows query ranks : NoDup (map sr_id rows) ->
  vector_ranks vector_score s policy rows query = Ok ranks ->
  best_ranked (vector_scored s policy rows query) (ep_threshold_millionths (embedding policy)) (ep_top_k (embedding policy))
    ranks.
Proof.
  intros Hnd H. apply (chosen_best E_VECTOR_RANK).
  - apply omap_ids; [|done]. intros r x Hx.
    by apply bind_Some in Hx as (row & _ & (score & _ & [= <-])%bind_Some).
  - unfold vector_ranks in H. apply bind_Ok in H as ([] & _ & H).
    replace (vector_scored s policy rows query) with (omap (fun r : SignalRow * option N => score ← r.2; Some (r.1, score))
      (omap (score_vector vector_score s policy query) rows)); [exact H|]. unfold vector_scored.
    clear. induction rows as [|r rows IH]; [done|]. cbn. unfold score_vector at 1.
    destruct (vector_at _ _ _ _) as [row|]; cbn; [|exact IH]. destruct (vector_score _ _); cbn; by rewrite IH.
Qed.
End channels.

(** ** The recall *)

Section recall.
Context (sha256_hex : list Z -> str) (uuid_to_string : N -> str) (to_lowercase : char -> str).
Context (keyword_score : str -> str -> option N) (vector_score : list f32 -> list f32 -> option N).
Context (graph_rows : list N -> list (N * list (option N))) (wiki_rows : list N -> list (N * Json)).
Context (parse_uuid : str -> option N).
Context (order : gset N -> list N) (iter : gmap N FoldedRanks -> list (N * FoldedRanks)).
Context (embedding_json : EmbeddingRevisionV2 -> result str (list Z)).
Context (answers : EmbeddingRevisionV2 -> list VectorEmbeddingInputV2 -> list (list f32) -> Prop).
Context (s : SemanticStore) (policy : RetrievalPolicyV2) (kind : str) (selected : list N) (requirement : str).
Context (query : QueryEmbeddingV2).

Notation revision := (ep_model_revision_sha256 (embedding policy)).
Notation versions := (in_order (eligible_versions (sources s) kind selected)).
Notation recallable := (recallable sha256_hex uuid_to_string s policy).

(** Every signal of the version has a keyword row of its present content and a vector that was
    answered under the revision of the policy for a text with the digest of its present input. *)
Definition fresh_sidecars (version : N) : Prop :=
  forall id c, (id, c) ∈ source_chunks (sources s) version ->
    keyword_rows s !! id = Some (keyword_row sha256_hex c)
    /\ exists row, vector_rows s !! (id, revision) = Some row
       /\ from_provider sha256_hex embedding_json answers id revision row
       /\ vr_indexed_content_sha256 row
          = sha256_hex (as_bytes (canonical_embedding_input_v2 (sc_context_header c) (sc_content c))).

Lemma recallable_fresh version : index_ok sha256_hex embedding_json answers s -> recallable version -> fresh_sidecars version.
Proof.
  intros [_ [Hk Hv]] [_ _ _ _ _ Hs] id c [H1 H2]%Hs. split.
  - unfold keyword_fresh, keyword_at in H1. destruct (_ && _); [|done].
    destruct (keyword_rows s !! id) as [row|] eqn:E; [|done]. apply Hk in E as [_ Ht].
    apply andb_prop in H1 as [Ec%str_eqb_spec Ed%str_eqb_spec]. f_equal. destruct row as [content digest tokens].
    cbn in *. by subst.
  - unfold vector_fresh, vector_at in H2. destruct (vector_rows s !! (id, revision)) as [row|] eqn:E; [|done].
    cbn [mbind option_bind] in H2. destruct (_ =? _); [|done]. exists row. split; [done|].
    apply Hv in E as (_ & Hp & _). split; [done|]. by apply andb_prop in H2 as [Hd%str_eqb_spec _].
Qed.

Lemma in_order_elem v : v ∈ versions <-> v ∈ eligible_versions (sources s) kind selected.
Proof. unfold in_order. by rewrite sort_by_perm, elem_of_elements. Qed.

Notation digest := (recall_digest sha256_hex).
Notation signals := (load_signals (sources s) kind versions).
Notation rows := (signal_rows_of (sources s) kind versions).
Notation normalized := (normalize_exact_v2 to_lowercase requirement).
Notation read := (read_snapshot keyword_score vector_score graph_rows wiki_rows parse_uuid order s kind versions requirement
  policy query).

(** What a candidate says of the tables. *)
Record recalled (c : SemanticCandidateV2) (chunk : SourceChunk) : Prop := {
  re_chunk : chunks (sources s) !! source_chunk_id c = Some chunk;
  re_live : is_source (sources s) (source_chunk_id c) chunk = true;
  re_version : product_version_id c = sc_product_version_id chunk /\ product_version_id c ∈ selected;
  re_product : version_products (sources s) !! product_version_id c = Some (product_id c);
  re_document : document_id c = sc_document_id chunk
    /\ exists d, documents (sources s) !! document_id c = Some d /\ frozen_document_display_name c = sd_file_name d;
  re_text : chunk_utf8 c = sc_content chunk /\ chunk_sha256 c = digest (sc_content chunk)
    /\ chunk_byte_length c = N.of_nat (blen (sc_content chunk));
  re_type : source_type_of (sc_chunk_type chunk) = Some (source_type c);
  re_new : contains (normalize_exact_v2 to_lowercase (sc_content chunk)) normalized = false;
}.

Section read.
Context (keywords vectors : gmap N N) (graph wiki : gmap N (list N)).
Notation sources_rows := (load_sources (sources s) kind versions).
Notation faithful := (faithful to_lowercase digest signals sources_rows graph wiki vectors keywords normalized policy
  (order (dom keywords ∪ dom vectors))).

Lemma read_ranks : read = Ok (keywords, vectors, graph, wiki) ->
  ranks_rows rows (kw_top_k (keyword policy)) keywords /\ ranks_rows rows (ep_top_k (embedding policy)) vectors.
Proof.
  unfold read_snapshot. intros (k & Hk%keyword_ranks_rows & (v & Hv%vector_ranks_rows & H)%bind_Ok)%bind_Ok.
  by apply bind_Ok in H as (g & _ & (w & _ & [= -> -> -> ->])%bind_Ok).
Qed.

Lemma read_best : read = Ok (keywords, vectors, graph, wiki) ->
  best_ranked (keyword_scored keyword_score s policy rows requirement) (kw_threshold_millionths (keyword policy))
    (kw_top_k (keyword policy)) keywords
  /\ best_ranked (vector_scored vector_score s policy rows (qe_values query)) (ep_threshold_millionths (embedding policy))
    (ep_top_k (embedding policy)) vectors.
Proof.
  unfold read_snapshot. intros (k & Hk & (v & Hv & H)%bind_Ok)%bind_Ok.
  apply keyword_ranks_best in Hk; [|apply signal_rows_nodup]. apply vector_ranks_best in Hv; [|apply signal_rows_nodup].
  by apply bind_Ok in H as (g & _ & (w & _ & [= -> -> -> ->])%bind_Ok).
Qed.

(** The rows the queries deliver are what the fold asks for. *)
Lemma read_snapshot_ok : validate_policy policy = Ok tt -> read = Ok (keywords, vectors, graph, wiki) ->
  Recall.snapshot_ok signals sources_rows vectors keywords policy.
Proof.
  intros (H1 & H2 & H3 & H4 & _)%accepted_policy_numbers [Hk Hv]%read_ranks. split; [done..| | |].
  - intros id r [H|H]; [apply Hv in H|apply Hk in H]; split; (apply H || lia).
  - intros id. unfold active_signal_ids. intros [[r H]%elem_of_dom|[r H]%elem_of_dom]%elem_of_union;
      [apply Hk in H|apply Hv in H]; destruct H as [(row & Hin & <-) _];
      apply (by_id_is_Some sg_id _ (signal_of row)); unfold load_signals; by apply list_elem_of_fmap_2.
  - intros source (r & -> & [_ H]%list_elem_of_In%filter_In)%list_elem_of_fmap. unfold is_trusted in H.
    unfold source_type_of. cbn [source_of src_chunk_type]. apply existsb_exists in H as (ty & Hty & ->%str_eqb_spec).
    repeat (destruct Hty as [<-|Hty]; [by vm_compute; eexists|]). done.
Qed.

Lemma faithful_recalled c : (list_to_set selected : gset N) = eligible_versions (sources s) kind selected ->
  faithful c -> exists chunk, recalled c chunk.
Proof.
  intros Hscope (Hnew & _ & _ & Hd & _).
  destruct Hd as (source & Hs & _ & Hdoc & Hp & Hv & Ht & Hn & Hsha & Hl & Hty & _). cbn [fst] in Hs.
  pose proof (by_id_lookup src_id _ _ _ Hs) as [Hid (r & -> & [Hr _]%list_elem_of_In%filter_In)%list_elem_of_fmap].
  apply list_elem_of_In, signal_row_of in Hr as [Hc Hve Hl' Hpr (d & Hd & Hf)].
  cbn [source_of src_id src_version_id src_document_id src_product_id src_content src_file_name src_chunk_type] in *.
  exists (sr_chunk r). rewrite Hid in *. split; rewrite ?Hv, ?Hdoc, ?Hp, ?Hn, ?Hf; try done.
  - split; [done|]. apply in_order_elem in Hve. rewrite <- Hscope in Hve. by apply elem_of_list_to_set in Hve.
  - split; [done|]. by exists d.
  - apply not_true_iff_false. intros Hcon. apply Hnew. unfold exact_source_chunk_ids.
    apply elem_of_list_to_set, list_elem_of_fmap. exists (source_of r). split; [done|].
    apply list_elem_of_In, filter_In. split; [|done]. apply list_elem_of_In, list_elem_of_fmap.
    eexists (_, _). split; [reflexivity|]. apply elem_of_map_to_list. exact Hs.
Qed.
End read.

(** A signal stands for itself when it is of a trusted type; a question or a summary stands for
    its parent of the same document, version and product. *)
Definition stands_for (r x : SignalRow) : Prop :=
  is_trusted x = true
  /\ (r = x
      \/ (sc_chunk_type (sr_chunk r) = QUESTION \/ sc_chunk_type (sr_chunk r) = SUMMARY)
         /\ sc_parent_chunk_id (sr_chunk r) = Some (sr_id x)
         /\ sc_product_version_id (sr_chunk r) = sc_product_version_id (sr_chunk x)
         /\ sc_document_id (sr_chunk r) = sc_document_id (sr_chunk x) /\ sr_product_id r = sr_product_id x).

Lemma by_id_row {A} (f : SignalRow -> A) (id : A -> N) (p : SignalRow -> bool) r : (forall r, id (f r) = sr_id r) ->
  r ∈ rows -> p r = true -> Recall.by_id id (map f (List.filter p rows)) !! sr_id r = Some (f r).
Proof.
  intros Hid Hr Hp. destruct (by_id_is_Some id (map f (List.filter p rows)) (f r)) as [a Ha].
  { apply list_elem_of_fmap_2, list_elem_of_In, filter_In. by rewrite <- list_elem_of_In. }
  rewrite Hid in Ha. rewrite Ha. f_equal.
  apply by_id_lookup in Ha as [E (r' & -> & [Hr' _]%list_elem_of_In%filter_In)%list_elem_of_fmap].
  rewrite Hid in E. apply list_elem_of_In in Hr'. f_equal.
  apply list_elem_of_lookup in Hr as [i Hi], Hr' as [j Hj]. assert (i = j) as ->; [|congruence].
  eapply NoDup_lookup; [apply (signal_rows_nodup (sources s) kind versions)|..]; rewrite list_lookup_fmap.
  - by rewrite Hi.
  - rewrite Hj. cbn. by f_equal.
Qed.

Lemma signal_row_lookup r : r ∈ rows -> Recall.by_id sg_id signals !! sr_id r = Some (signal_of r).
Proof.
  intros Hr. unfold load_signals. rewrite <- (by_id_row signal_of sg_id (fun _ => true) r) by done.
  do 3 f_equal. symmetry. apply List.filter_true.
Qed.

(** A signal that stands for a source without the requirement counts for it. *)
Lemma stands_for_classified graph wiki r x : r ∈ rows -> x ∈ rows -> stands_for r x ->
  contains (normalize_exact_v2 to_lowercase (sc_content (sr_chunk x))) normalized = false ->
  classify to_lowercase signals (load_sources (sources s) kind versions) graph wiki normalized (sr_id r)
  = Ok (Some (sr_id x)).
Proof.
  intros Hr Hx [Htx Hst] Hnew. unfold classify, Recall.signals. rewrite (signal_row_lookup r Hr). cbn [ok_or mbind result_bind].
  assert (Recall.by_id src_id (load_sources (sources s) kind versions) !! sr_id x = Some (source_of x)) as Hsx
    by by apply (by_id_row source_of src_id is_trusted).
  assert (fold_targets (load_sources (sources s) kind versions) graph wiki (signal_of r) = [sr_id x]) as Ht.
  { unfold fold_targets. cbn [signal_of sg_chunk_type sg_id sg_parent_chunk_id]. destruct Hst as [->|([->| ->] & -> & _)].
    - unfold is_trusted in Htx. cbn [existsb] in Htx. rewrite orb_false_r, orb_assoc in Htx. by rewrite Htx.
    - done.
    - done. }
  assert (fold_signal signals (load_sources (sources s) kind versions) graph wiki (signal_of r) = Ok (Some (sr_id x))) as Hfold.
  { unfold fold_signal. rewrite Ht. unfold Recall.sources. rewrite Hsx.
    cbn [source_of signal_of src_version_id src_document_id src_product_id sg_version_id sg_document_id sg_product_id sg_id].
    unfold Recall.signals. rewrite (signal_row_lookup r Hr), bool_decide_true, andb_false_r by done.
    destruct Hst as [->|(_ & _ & -> & -> & ->)]; by rewrite !N.eqb_refl. }
  rewrite Hfold. cbn [mbind result_bind]. rewrite bool_decide_false; [done|]. unfold exact_source_chunk_ids, Recall.sources.
  intros (source & Hid & [Hin Hc]%list_elem_of_In%filter_In)%elem_of_list_to_set%list_elem_of_fmap.
  apply list_elem_of_In, list_elem_of_fmap in Hin as ([k source'] & -> & Hk%elem_of_map_to_list). cbn [snd] in *.
  pose proof (by_id_lookup _ _ _ _ Hk) as [Hk' _]. rewrite <- Hid in Hk'. rewrite <- Hk', Hsx in Hk. injection Hk as <-.
  cbn [source_of src_content] in Hc. congruence.
Qed.

(** What precedes the queries of the channels. *)
Definition recall_gate : result KnowledgeRetrievalError unit :=
  _ ← reject_if (str_is_empty normalized) (InvalidRequest E_REQUIREMENT);
  _ ← check_scope (sources s) kind selected;
  check_generations sha256_hex uuid_to_string s policy versions.

Lemma recall_gate_passed : recall_gate = Ok tt ->
  (list_to_set selected : gset N) = eligible_versions (sources s) kind selected
  /\ forall v, v ∈ selected -> recallable v.
Proof.
  intros ([] & _ & ([] & Hscope & Hgen%check_generations_exact)%bind_Ok)%bind_Ok.
  apply reject_if_Ok, negb_false_iff, bool_decide_eq_true in Hscope. split; [done|].
  intros v Hv. rewrite Forall_forall in Hgen. apply Hgen, in_order_elem. rewrite <- Hscope. by apply elem_of_list_to_set.
Qed.

Notation sources_rows := (load_sources (sources s) kind versions).

Notation recall := (recall_in_snapshot sha256_hex uuid_to_string to_lowercase keyword_score vector_score graph_rows
  wiki_rows parse_uuid order iter s kind selected requirement policy query).

(** The candidates of the fold that a recall returns. *)
Record folded_candidates (keywords vectors : gmap N N) (graph wiki : gmap N (list N)) (all : list SemanticCandidateV2)
    : Prop := {
  fc_sources : NoDup (map source_chunk_id all);
  fc_sorted : StronglySorted (fun l r => is_le (candidate_order l r) = true) all;
  fc_recalled : Forall (fun c => exists chunk, recalled c chunk) all;
  fc_complete : forall x, x ∈ map source_chunk_id all <->
    exists sid, (is_Some (keywords !! sid) \/ is_Some (vectors !! sid))
      /\ classify to_lowercase signals sources_rows graph wiki normalized sid = Ok (Some x);
  fc_covered : forall r x, r ∈ rows -> is_Some (keywords !! sr_id r) \/ is_Some (vectors !! sr_id r) -> x ∈ rows ->
    stands_for r x -> contains (normalize_exact_v2 to_lowercase (sc_content (sr_chunk x))) normalized = false ->
    sr_id x ∈ map source_chunk_id all;
  fc_keywords : best_ranked (keyword_scored keyword_score s policy rows requirement) (kw_threshold_millionths (keyword policy))
    (kw_top_k (keyword policy)) keywords;
  fc_vectors : best_ranked (vector_scored vector_score s policy rows (qe_values query))
    (ep_threshold_millionths (embedding policy)) (ep_top_k (embedding policy)) vectors;
  fc_faithful : Forall (faithful to_lowercase digest signals (load_sources (sources s) kind versions) graph wiki vectors
                  keywords normalized policy (order (dom keywords ∪ dom vectors))) all;
}.

(** A recall ends at the gate, at a query, or with the first candidates of the fold. *)
Lemma recall_cases : validate_policy policy = Ok tt ->
  (forall m, order m ≡ₚ elements m) -> (forall m, iter m ≡ₚ map_to_list m) ->
  (exists e, recall_gate = Err e /\ recall = Some (Err e))
  \/ (exists e, recall_gate = Ok tt /\ read = Err e /\ recall = Some (Err e))
  \/ exists keywords vectors graph wiki all, recall_gate = Ok tt /\ read = Ok (keywords, vectors, graph, wiki)
     /\ recall = Some (Ok (imap (fun i c => set_pre_rank c (N.of_nat i + 1)) (take (N.to_nat (rp_top_k (rerank policy))) all)))
     /\ folded_candidates keywords vectors graph wiki all.
Proof.
  intros Hpol Ho Hi. unfold recall_in_snapshot. fold recall_gate.
  destruct recall_gate as [[]|e] eqn:Egate; cbn [andThen]; [|left; by exists e].
  destruct read as [[[[keywords vectors] graph] wiki]|e] eqn:Eread; cbn [andThen]; [|right; left; by exists e].
  right. right. exists keywords, vectors, graph, wiki.
  destruct (recall_candidates_correct to_lowercase digest signals (load_sources (sources s) kind versions) graph wiki
    vectors keywords normalized policy (order (dom keywords ∪ dom vectors)) iter) as (all & -> & Hnd & Hall & Hsort & Hf);
    [by apply (read_snapshot_ok _ _ graph wiki)|by apply Ho|done|].
  assert (forall x, x ∈ map source_chunk_id all <->
    exists sid, (is_Some (keywords !! sid) \/ is_Some (vectors !! sid))
      /\ classify to_lowercase signals sources_rows graph wiki normalized sid = Ok (Some x)) as Hcomplete.
  { intros x. rewrite Hall. by setoid_rewrite Ho; setoid_rewrite elem_of_elements; setoid_rewrite elem_of_union;
      setoid_rewrite elem_of_dom. }
  pose proof (read_best _ _ _ _ Eread) as [Hbk Hbv].
  exists all. do 3 (split; [done|]). split; try done.
  - apply recall_gate_passed in Egate as [Hscope _]. eapply Forall_impl; [exact Hf|]. intros c. by apply faithful_recalled.
  - intros r x Hr Hranked Hx Hst Hnew. apply Hcomplete. exists (sr_id r). split; [done|]. by apply stands_for_classified.
Qed.

(** C6: On consistent tables and under an accepted policy the recall always answers (nothing
    panics).  When it answers with candidates, every selected version is in the scope and holds one
    complete generation of its present sources; every signal of such a version has a keyword row of
    its present content and a vector that the provider gave for a text with the digest of its
    present input.  Each channel ranks the best rows it scores: by score, none below the threshold,
    none left out before [top_k] are ranked.  The candidates are the first [top_k], by fused score
    and numbered from one, of a list with one candidate for each source that a ranked signal counts
    for; in particular for every ranked chunk of a trusted type and for the parent of every ranked
    question or summary, unless its text contains the requirement.  Each is a live chunk of a
    trusted type in a selected version, with its text, digest, document and product, the best ranks
    its signals reached and the exact fused score. *)
Theorem recall_in_snapshot_sound :
  index_ok sha256_hex embedding_json answers s -> validate_policy policy = Ok tt ->
  (forall m, order m ≡ₚ elements m) -> (forall m, iter m ≡ₚ map_to_list m) ->
  exists answer, recall = Some answer
    /\ forall cs, answer = Ok cs ->
         (forall v, v ∈ selected -> recallable v /\ fresh_sidecars v)
         /\ exists keywords vectors graph wiki all, read = Ok (keywords, vectors, graph, wiki)
            /\ cs = imap (fun i c => set_pre_rank c (N.of_nat i + 1)) (take (N.to_nat (rp_top_k (rerank policy))) all)
            /\ folded_candidates keywords vectors graph wiki all.
Proof.
  intros Hok Hpol Ho Hi.
  destruct (recall_cases Hpol Ho Hi) as [(e & _ & ->)|[(e & _ & _ & ->)|(k & v & g & w & all & Hg & Hr & -> & Hf)]];
    [by eexists|by eexists|].
  eexists. split; [done|]. intros cs [= <-]. apply recall_gate_passed in Hg as [_ Hg]. split.
  - intros x Hx. split; [by apply Hg|by apply recallable_fresh, Hg].
  - by exists k, v, g, w, all.
Qed.
End recall.

(** ** A published version can be recalled *)

(** In a list with distinct identifiers one element is found. *)
Lemma filter_one (p : SemanticIndexIntentV2 -> bool) (f : SemanticIndexIntentV2 -> SemanticIndexIntentV2) l x :
  NoDup (map in_id l) -> x ∈ l ->
  (forall i, i ∈ l -> p (f i) = bool_decide (in_id i = in_id x)) -> length (List.filter p (map f l)) = 1%nat.
Proof.
  induction l as [|i l IH]; [by intros _ ?%elem_of_nil|]. intros [Hi Hnd]%NoDup_cons Hx Hp. cbn [map List.filter].
  rewrite (Hp i) by left. apply elem_of_cons in Hx as [->|Hx].
  - rewrite bool_decide_true by done. cbn [length]. f_equal. clear IH Hnd.
    induction l as [|j l IH]; [done|]. cbn [map List.filter]. rewrite (Hp j) by (right; left).
    rewrite bool_decide_false. { apply IH; [|intros k [->|Hk]%elem_of_cons; apply Hp; [left|right; by right]]. set_solver. }
    intros E. apply Hi. rewrite <- E. left.
  - rewrite bool_decide_false. { apply IH; [done|done|]. intros j Hj. apply Hp. by right. }
    intros E. apply Hi. rewrite E. by apply list_elem_of_fmap_2.
Qed.

Lemma accepted_policy_tokenizer p : validate_policy p = Ok tt ->
  kw_tokenizer (keyword p) = RETRIEVAL_KEYWORD_TOKENIZER_V2
  /\ kw_tokenizer_version (keyword p) = RETRIEVAL_KEYWORD_TOKENIZER_VERSION_V2.
Proof. intros [_ ->]%validate_policy_exact. done. Qed.

Section publish.
Context (sha256_hex : list Z -> str) (uuid_to_string : N -> str).
Context (embedding_json : EmbeddingRevisionV2 -> result str (list Z)).
Context (parse_revision : list Z -> result str EmbeddingRevisionV2).
Context (constraint_violation : str).
Context (answers : EmbeddingRevisionV2 -> list VectorEmbeddingInputV2 -> list (list f32) -> Prop).
Context (s : SemanticStore) (policy : RetrievalPolicyV2).
Context (intent : SemanticIndexIntentV2) (snapshot : FrozenVectorIndexSnapshotV2) (embeddings : list (list f32)).

Notation version := (in_product_version_id intent).
Notation inputs := (fv_inputs snapshot).
Notation done_store := (published sha256_hex s intent snapshot embeddings).

Context (Hok : index_ok sha256_hex embedding_json answers s).
Context (Hdue : due sha256_hex uuid_to_string embedding_json parse_revision s intent snapshot).
Context (Hpol : validate_policy policy = Ok tt).
Context (Hrev : ep_model_revision_sha256 (embedding policy) = in_embedding_revision_sha256 intent).

Lemma published_generation v : v = version ->
  current_generation sha256_hex uuid_to_string done_store policy v = due_generation sha256_hex s intent.
Proof using Hdue Hrev.
  intros ->. unfold current_generation. rewrite Hrev. change (sources done_store) with (sources s).
  by rewrite (due_snapshot _ _ _ _ _ _ _ Hdue).
Qed.

(** The intents that mark the generation: the one that was just completed. *)
Lemma published_marker :
  (forall i, i ∈ intents s -> in_status i = ICompleted ->
     same_target version (in_embedding_revision_sha256 intent) (in_source_snapshot_sha256 intent) i = false) ->
  length (List.filter (marks version (due_generation sha256_hex s intent)) (intents done_store)) = 1%nat.
Proof using Hok Hdue.
  intros Hnew. destruct Hok as [Hi _]. pose proof (du_found _ _ _ _ _ _ _ Hdue) as (Hin & _)%find_intent_In.
  unfold published, update_where. cbn [intents with_intents with_new_vectors with_new_keywords with_vectors with_keywords].
  apply (filter_one _ _ _ intent); [apply Hi|done|]. intros i Hii. destruct (decide (in_id i = in_id intent)) as [E|Hne].
  - rewrite (bool_decide_true _ E). assert (i = intent) as -> by (eapply same_id; [apply Hi|done..]).
    rewrite N.eqb_refl, (proj2 (is_pending_spec _) (du_pending _ _ _ _ _ _ _ Hdue)). unfold marks. cbn.
    by rewrite N.eqb_refl, !(proj2 (str_eqb_spec _ _) eq_refl), !bool_decide_true by done.
  - rewrite (bool_decide_false _ Hne), (proj2 (N.eqb_neq _ _) Hne). cbn [andb]. unfold marks.
    destruct (bool_decide (in_status i = ICompleted)) eqn:Es; [|by rewrite andb_false_r].
    apply bool_decide_eq_true, Hnew in Es; [|done]. unfold same_target in Es. cbn [due_generation
      gn_embedding_revision_sha256 gn_source_snapshot_sha256]. by rewrite Es.
Qed.

(** A published version as far as its tables tell: bound and settled, both sidecars of its current
    generation, and a fresh row in each for every signal. *)
Record served (s : SemanticStore) (v : N) : Prop := {
  se_binding : bindings (sources s) !! v = Some (ep_model_revision_sha256 (embedding policy));
  se_settled : pending_derived (sources s) v = false;
  se_vectors : vector_generations s !! v = Some (current_generation sha256_hex uuid_to_string s policy v);
  se_keywords : keyword_generations s !! v = Some (current_generation sha256_hex uuid_to_string s policy v);
  se_sidecars : forall id c, (id, c) ∈ source_chunks (sources s) v ->
    keyword_fresh sha256_hex s policy id c = true
    /\ vector_fresh sha256_hex s policy (current_generation sha256_hex uuid_to_string s policy v) id c = true;
}.

Lemma published_served : length embeddings = length inputs -> served done_store version.
Proof using Hok Hdue Hpol Hrev.
  intros Hl. pose proof (published_up_to_date sha256_hex uuid_to_string embedding_json parse_revision answers s intent
    snapshot embeddings Hok Hdue) as [_ _ Hk Hv].
  pose proof (du_frozen _ _ _ _ _ _ _ Hdue) as (sha & row & revision & bytes & _ & Hb & _ & _ & _ & _ & _ & _ & _ & E)%freeze_exact.
  destruct (accepted_policy_tokenizer _ Hpol) as [T1 T2].
  split; rewrite ?published_generation by done.
  - rewrite Hrev, <- (du_revision _ _ _ _ _ _ _ Hdue), E. exact Hb.
  - exact (du_settled _ _ _ _ _ _ _ Hdue).
  - cbn. by rewrite lookup_insert_eq.
  - cbn. by rewrite lookup_insert_eq.
  - intros id c Hc. pose proof Hc as (H1 & H2 & _)%source_chunk_version. split.
    + unfold keyword_fresh, keyword_at. rewrite T1, T2, !(proj2 (str_eqb_spec _ _) eq_refl). cbn [andb].
      rewrite (Hk id c) by done. cbn [keyword_row kr_indexed_content kr_indexed_content_sha256].
      by rewrite !(proj2 (str_eqb_spec _ _) eq_refl).
    + assert (embedding_input sha256_hex (id, c) ∈ inputs) as Hin.
      { rewrite (due_inputs _ _ _ _ _ _ _ Hdue). by apply list_elem_of_fmap_2. }
      apply list_elem_of_lookup in Hin as [k Hin].
      destruct (lookup_lt_is_Some_2 embeddings k) as [v He]. { apply lookup_lt_Some in Hin. lia. }
      pose proof (Hv k _ _ Hin He) as Hr. cbn [vi_chunk_id embedding_input fst] in Hr.
      unfold vector_fresh, vector_at. rewrite Hrev, Hr, H2. cbn [mbind option_bind vector_row vr_product_version_id].
      rewrite N.eqb_refl. cbn [vr_indexed_content_sha256 vr_source_snapshot_sha256 vector_row due_generation
        gn_source_snapshot_sha256]. by rewrite !(proj2 (str_eqb_spec _ _) eq_refl).
Qed.

Lemma published_recallable :
  length embeddings = length inputs ->
  (forall i, i ∈ intents s -> in_status i = ICompleted ->
     same_target version (in_embedding_revision_sha256 intent) (in_source_snapshot_sha256 intent) i = false) ->
  recallable sha256_hex uuid_to_string done_store policy version.
Proof using Hok Hdue Hpol Hrev.
  intros [H1 H2 H3 H4 H5]%published_served Hnew. split; try done. rewrite published_generation by done. by apply published_marker.
Qed.

(** The intents after the publication: the completed one and the others unchanged. *)
Lemma published_intent i : i ∈ intents done_store <->
  i = complete_intent intent \/ (i ∈ intents s /\ in_id i <> in_id intent).
Proof using Hok Hdue.
  destruct Hok as [Hi _]. pose proof (du_found _ _ _ _ _ _ _ Hdue) as (Hin & _)%find_intent_In.
  unfold published, update_where. cbn [intents with_intents with_new_vectors with_new_keywords with_vectors with_keywords].
  rewrite list_elem_of_fmap. split.
  - intros (j & -> & Hj). destruct (N.eqb_spec (in_id j) (in_id intent)) as [E|Hne]; [|right; by split].
    assert (j = intent) as -> by (eapply same_id; [apply Hi|done..]).
    rewrite (proj2 (is_pending_spec _) (du_pending _ _ _ _ _ _ _ Hdue)). by left.
  - intros [->|[Hi' Hne]].
    + exists intent. by rewrite N.eqb_refl, (proj2 (is_pending_spec _) (du_pending _ _ _ _ _ _ _ Hdue)).
    + exists i. by rewrite (proj2 (N.eqb_neq _ _) Hne).
Qed.

(** The index answers that the version is ready. *)
Lemma published_ready new_id : length embeddings = length inputs ->
  exists i, (prepare sha256_hex uuid_to_string version new_id done_store).2 = Ok (Ready i).
Proof using Hok Hdue.
  intros Hl. pose proof (published_up_to_date sha256_hex uuid_to_string embedding_json parse_revision answers s intent
    snapshot embeddings Hok Hdue) as [_ Hg _ _].
  unfold prepare. change (sources done_store) with (sources s).
  rewrite (bool_decide_true (version ∈ live_versions (sources s))) by (eapply due_live; exact Hdue). cbn [negb].
  pose proof (due_supported _ _ _ _ _ _ _ Hdue) as Hsup. unfold supported_binding in Hsup.
  destruct (binding (sources s) version) as [[sha supported]|]; [|done]. apply andb_prop in Hsup as [->%str_eqb_spec ->].
  rewrite (du_settled _ _ _ _ _ _ _ Hdue), (due_snapshot _ _ _ _ _ _ _ Hdue).
  set (s1 := update_where _ _ done_store).
  assert (intents s1 = intents done_store) as Es.
  { unfold s1, update_where. cbn [intents with_intents]. rewrite <- (map_id (intents done_store)) at 2.
    apply map_ext_in. intros i Hi%list_elem_of_In. unfold replaced.
    destruct (N.eqb_spec (in_product_version_id i) version) as [Ev|]; [|done].
    destruct (is_pending i) eqn:Ep; [|done]. exfalso. apply is_pending_spec in Ep.
    apply published_intent in Hi as [->|[Hi Hne]]; [done|]. apply Hne. destruct Hok as [[_ _ Hp _] _].
    pose proof (du_found _ _ _ _ _ _ _ Hdue) as (Hin & _)%find_intent_In.
    by rewrite (Hp i intent Hi Hin Ep (du_pending _ _ _ _ _ _ _ Hdue) Ev). }
  rewrite Es. set (found := sort_by _ _).
  assert (forall i, i ∈ found <-> i ∈ intents done_store /\ same_target version (in_embedding_revision_sha256 intent)
    (in_source_snapshot_sha256 intent) i = true) as Hfound.
  { intros i. unfold found. rewrite sort_by_perm, !list_elem_of_In, filter_In. done. }
  destruct (List.find is_pending found) as [i|] eqn:Ef.
  { apply List.find_some in Ef as [[Hi Ht]%list_elem_of_In%Hfound Ep%is_pending_spec]. exfalso.
    apply published_intent in Hi as [->|[Hi Hne]]; [done|]. apply Hne. destruct Hok as [[_ _ Hp _] _].
    pose proof (du_found _ _ _ _ _ _ _ Hdue) as (Hin & _)%find_intent_In. unfold same_target in Ht.
    apply andb_prop in Ht as [[Ev%N.eqb_eq _]%andb_prop _].
    by rewrite (Hp i intent Hi Hin Ep (du_pending _ _ _ _ _ _ _ Hdue) Ev). }
  unfold generations_match in Hg |- *. change (keyword_generations s1) with (keyword_generations done_store).
  change (vector_generations s1) with (vector_generations done_store). cbn [andb].
  rewrite (due_inputs _ _ _ _ _ _ _ Hdue) in Hg. rewrite Hg.
  destruct (List.find (has_status ICompleted) found) as [i|] eqn:Ec; [by exists i|]. exfalso.
  enough (has_status ICompleted (complete_intent intent) = false) as H by done.
  apply (List.find_none _ _ Ec), list_elem_of_In, Hfound. split; [apply published_intent; by left|]. unfold same_target. cbn.
  by rewrite N.eqb_refl, !(proj2 (str_eqb_spec _ _) eq_refl).
Qed.

(** Two completed intents of one target both carry the marker. *)
Lemma returned_markers i : i ∈ intents s -> in_status i = ICompleted ->
  same_target version (in_embedding_revision_sha256 intent) (in_source_snapshot_sha256 intent) i = true ->
  (2 <= length (List.filter (marks version (due_generation sha256_hex s intent)) (intents done_store)))%nat.
Proof using Hok Hdue.
  intros Hi Hs Ht. set (l := List.filter _ _).
  assert (i <> complete_intent intent) as Hne.
  { intros ->. destruct Hok as [Hids _]. pose proof (du_found _ _ _ _ _ _ _ Hdue) as (Hin & _)%find_intent_In.
    pose proof (du_pending _ _ _ _ _ _ _ Hdue) as Hp.
    assert (complete_intent intent = intent) as E by (eapply same_id; [apply Hids|done..]). by rewrite E, Hp in Hs. }
  assert (i ∈ l /\ complete_intent intent ∈ l) as [H1 H2].
  { unfold l. rewrite !list_elem_of_In, !filter_In, <- !list_elem_of_In, !published_intent. split; (split; [tauto || idtac|]).
    - right. split; [done|]. intros E. destruct Hok as [Hids _].
      pose proof (du_found _ _ _ _ _ _ _ Hdue) as (Hin & _)%find_intent_In.
      assert (i = intent) as -> by (eapply same_id; [apply Hids|done..]). by rewrite (du_pending _ _ _ _ _ _ _ Hdue) in Hs.
    - unfold marks. unfold same_target in Ht. cbn [due_generation gn_embedding_revision_sha256 gn_source_snapshot_sha256].
      rewrite Ht, Hs. cbn [andb]. rewrite andb_true_r. apply bool_decide_eq_true. destruct Hok as [[_ _ _ Hr] _].
      rewrite Forall_forall in Hr. destruct (Hr i Hi) as [-> _]. rewrite Hs. cbn.
      by apply andb_prop in Ht as [_ ->%str_eqb_spec].
    - unfold marks. cbn. by rewrite N.eqb_refl, !(proj2 (str_eqb_spec _ _) eq_refl), !bool_decide_true by done. }
  clearbody l. destruct l as [|x [|y l]]; [by apply elem_of_nil in H1| |cbn; lia].
  apply list_elem_of_singleton in H1 as ->. by apply list_elem_of_singleton in H2.
Qed.

Lemma returned_refused i versions : length embeddings = length inputs -> i ∈ intents s -> in_status i = ICompleted ->
  same_target version (in_embedding_revision_sha256 intent) (in_source_snapshot_sha256 intent) i = true ->
  version ∈ versions -> check_generations sha256_hex uuid_to_string done_store policy versions <> Ok tt.
Proof using Hok Hdue Hrev.
  intros Hl Hi Hs Ht Hv Hc%check_generations_exact. rewrite Forall_forall in Hc. destruct (Hc _ Hv) as [_ _ _ _ Hm _].
  rewrite published_generation in Hm by done. pose proof (returned_markers i Hi Hs Ht). lia.
Qed.

Lemma returned_refused_alone i : length embeddings = length inputs -> i ∈ intents s -> in_status i = ICompleted ->
  same_target version (in_embedding_revision_sha256 intent) (in_source_snapshot_sha256 intent) i = true ->
  check_generations sha256_hex uuid_to_string done_store policy [version] = Err (integrity E_GENERATION).
Proof using Hok Hdue Hpol Hrev.
  intros Hl Hi Hs Ht. pose proof (published_served Hl) as [Hb Hp Hvg Hkg _]. unfold check_generations.
  rewrite (proj2 (check_bindings_exact done_store policy [version] tt)) by by apply Forall_singleton.
  cbn [mbind result_bind]. unfold marker_rows. cbn [map concat]. unfold version_markers.
  rewrite Hvg, bool_decide_true, Hp, published_generation by (done || congruence). cbn [negb andb]. rewrite app_nil_r, length_map.
  pose proof (returned_markers i Hi Hs Ht) as H2. destruct (Nat.eqb_spec (length (List.filter
    (marks version (due_generation sha256_hex s intent)) (intents done_store))) (length [version])) as [E|_];
    [rewrite E in H2; cbn in H2; lia|done].
Qed.

End publish.

(** C12: After a run of the index job for a due intent that nobody disturbs and whose provider answers
    every input with a valid vector, the version passes the check of a recall under a policy of the
    same embedding revision, provided the same generation was not completed before. *)
Theorem published_version_recallable sha256_hex uuid_to_string embedding_json parse_revision constraint_violation answers
    show_sql show_vector_error new_id (p : VectorEmbeddingProviderV2) pce s policy intent snapshot embeddings :
  index_ok sha256_hex embedding_json answers s ->
  due sha256_hex uuid_to_string embedding_json parse_revision s intent snapshot ->
  vector_generation_matches s intent = false -> fv_inputs snapshot <> [] ->
  embed_inputs (VectorEmbeddingProviderV2 := p) (fv_revision snapshot) (fv_credential_ref snapshot) (fv_inputs snapshot)
    = Ok embeddings ->
  length embeddings = length (fv_inputs snapshot) -> Forall valid_vector embeddings ->
  validate_policy policy = Ok tt ->
  ep_model_revision_sha256 (embedding policy) = in_embedding_revision_sha256 intent ->
  (forall i, i ∈ intents s -> in_status i = ICompleted ->
     same_target (in_product_version_id intent) (in_embedding_revision_sha256 intent) (in_source_snapshot_sha256 intent) i
     = false) ->
  exists s',
    run_semantic_index_job sha256_hex uuid_to_string embedding_json parse_revision constraint_violation show_sql
      show_vector_error (fun _ s => s) (fun s => s) (fun _ => None) new_id (Some p) pce
      (in_id intent) (in_target_revision intent) s = Some (s', Ok None)
    /\ check_generations sha256_hex uuid_to_string s' policy [in_product_version_id intent] = Ok tt.
Proof.
  intros Hok Hdue Hm Hne Hp Hl Hv Hpol Hrev Hnew. exists (published sha256_hex s intent snapshot embeddings). split.
  - apply quiet_run; try done. by destruct (fv_inputs snapshot).
  - apply check_generations_exact, Forall_singleton.
    by apply (published_recallable sha256_hex uuid_to_string embedding_json parse_revision answers).
Qed.

(** ** A concrete version *)

Lemma published_version_recallable_witness :
  check_generations demo_digest demo_uuid demo_store demo_retrieval_policy [20] = Err (integrity E_GENERATION)
  /\ exists s', run_semantic_index_job demo_digest demo_uuid demo_payload demo_parse (u8"23514") (fun _ => u8"sql")
       (fun _ => u8"vector") (fun _ s => s) (fun s => s) (fun _ => None) next_id (Some demo_provider) None 7 1 demo_store
     = Some (s', Ok None)
  /\ check_generations demo_digest demo_uuid s' demo_retrieval_policy [20] = Ok tt.
Proof.
  split; [by vm_compute|].
  apply (published_version_recallable demo_digest demo_uuid demo_payload demo_parse (u8"23514") any_answer (fun _ => u8"sql")
    (fun _ => u8"vector") next_id demo_provider None demo_store demo_retrieval_policy demo_intent demo_frozen
    [demo_vector 0; demo_vector 0]).
  - exact (reachable_index_ok _ _ _ _ _ _ _ demo_store_reachable).
  - exact demo_due.
  - by vm_compute.
  - by vm_compute.
  - by vm_compute.
  - by vm_compute.
  - repeat constructor; apply validate_vector_exact; by vm_compute.
  - by vm_compute.
  - by vm_compute.
  - intros i Hi. change (intents demo_store) with [demo_intent] in Hi. by apply list_elem_of_singleton in Hi as ->.
Defined.

Definition demo_published : SemanticStore := demo_run 7 1 demo_store.

Notation demo_reaches := (reachable demo_digest demo_uuid demo_payload demo_parse (u8"23514") any_answer).

Lemma demo_run_reaches id target s : demo_reaches s -> demo_reaches (demo_run id target s).
Proof.
  intros [src Hs]. destruct (run_steps demo_digest demo_uuid demo_payload demo_parse (u8"23514") any_answer (fun _ => u8"sql")
    (fun _ => u8"vector") (fun _ s => s) (fun s => s) (fun _ => None) next_id (Some demo_provider) None demo_environment
    id target s) as (s' & r & E & H).
  unfold demo_run. rewrite E. exists src. by etrans.
Qed.

Lemma demo_step_reaches s s' :
  step demo_digest demo_uuid demo_payload demo_parse (u8"23514") any_answer s s' -> demo_reaches s -> demo_reaches s'.
Proof. intros H [src Hs]. exists src. etrans; [exact Hs|by apply rtc_once]. Qed.

Lemma demo_published_ok : index_ok demo_digest demo_payload any_answer demo_published.
Proof. apply (reachable_index_ok demo_digest demo_uuid demo_payload demo_parse (u8"23514")), demo_run_reaches, demo_store_reachable. Qed.

(** Every row matches a query; all vectors are alike. *)
Definition demo_keyword_score (stream tokens : str) : option N := if str_is_empty tokens then None else Some 500000.
Definition demo_vector_score (_ _ : list f32) : option N := Some 900000.

Definition demo_recalled : option (result KnowledgeRetrievalError (list SemanticCandidateV2)) :=
  recall_in_snapshot demo_digest demo_uuid (fun c => [c]) demo_keyword_score demo_vector_score (fun _ => []) (fun _ => [])
    (fun _ => None) elements map_to_list demo_published (u8"product_line") [20] (u8"gamma") demo_retrieval_policy
    {| qe_revision_sha256 := demo_sha; qe_values := demo_vector 0 |}.

Lemma recall_in_snapshot_sound_witness :
  exists cs, demo_recalled = Some (Ok cs) /\ map chunk_utf8 cs = [u8"alpha"]
  /\ recallable demo_digest demo_uuid demo_published demo_retrieval_policy 20.
Proof.
  destruct (recall_in_snapshot_sound demo_digest demo_uuid (fun c => [c]) demo_keyword_score demo_vector_score (fun _ => [])
    (fun _ => []) (fun _ => None) elements map_to_list demo_payload any_answer demo_published demo_retrieval_policy
    (u8"product_line") [20] (u8"gamma") {| qe_revision_sha256 := demo_sha; qe_values := demo_vector 0 |}
    demo_published_ok ltac:(by vm_compute) ltac:(done) ltac:(done)) as (answer & E & H).
  assert (map chunk_utf8 <$> (match demo_recalled with Some (Ok cs) => Some cs | _ => None end) = Some [u8"alpha"]) as Hc
    by by vm_compute.
  unfold demo_recalled in *. rewrite E in Hc |- *. destruct answer as [cs|e]; [|done]. exists cs. split; [done|].
  split; [by injection Hc|]. apply (H cs eq_refl). left.
Defined.

(** The content changes and is published. *)
Definition demo_changed : SemanticStore :=
  demo_run 8 2 (demo_prepare 8 (change_sources (demo_content (u8"beta")) demo_published)).

Lemma demo_prepare_reaches id s : id ∉ map in_id (intents s) -> demo_reaches s -> demo_reaches (demo_prepare id s).
Proof. intros H. apply demo_step_reaches. by constructor. Qed.

Lemma demo_changed_reaches : demo_reaches demo_changed.
Proof.
  apply demo_run_reaches, demo_prepare_reaches; [by apply (bool_decide_unpack _); vm_compute|].
  eapply demo_step_reaches; [apply step_sources|]. apply demo_run_reaches, demo_store_reachable.
Qed.

(** C33: When a version's content returns to an earlier state (an intent of the same version,
    embedding revision and source snapshot was completed before, and a new one is due), an
    undisturbed run publishes it again: the version is bound and settled, both sidecars hold its
    current generation and a fresh row for every signal, and the index answers that it is ready.
    The check of the recall refuses it all the same, alone and in every set of versions: two
    completed intents carry the marker of the generation, and it asks for as many rows as versions. *)
Theorem returned_content_refused sha256_hex uuid_to_string embedding_json parse_revision constraint_violation answers
    show_sql show_vector_error new_id (p : VectorEmbeddingProviderV2) pce s policy intent snapshot embeddings earlier :
  index_ok sha256_hex embedding_json answers s ->
  due sha256_hex uuid_to_string embedding_json parse_revision s intent snapshot ->
  vector_generation_matches s intent = false -> fv_inputs snapshot <> [] ->
  embed_inputs (VectorEmbeddingProviderV2 := p) (fv_revision snapshot) (fv_credential_ref snapshot) (fv_inputs snapshot)
    = Ok embeddings ->
  length embeddings = length (fv_inputs snapshot) -> Forall valid_vector embeddings ->
  validate_policy policy = Ok tt ->
  ep_model_revision_sha256 (embedding policy) = in_embedding_revision_sha256 intent ->
  earlier ∈ intents s -> in_status earlier = ICompleted ->
  same_target (in_product_version_id intent) (in_embedding_revision_sha256 intent) (in_source_snapshot_sha256 intent) earlier
    = true ->
  exists s',
    run_semantic_index_job sha256_hex uuid_to_string embedding_json parse_revision constraint_violation show_sql
      show_vector_error (fun _ s => s) (fun s => s) (fun _ => None) new_id (Some p) pce
      (in_id intent) (in_target_revision intent) s = Some (s', Ok None)
    /\ served sha256_hex uuid_to_string policy s' (in_product_version_id intent)
    /\ (forall id, exists i, (prepare sha256_hex uuid_to_string (in_product_version_id intent) id s').2 = Ok (Ready i))
    /\ check_generations sha256_hex uuid_to_string s' policy [in_product_version_id intent] = Err (integrity E_GENERATION)
    /\ forall versions, in_product_version_id intent ∈ versions ->
         check_generations sha256_hex uuid_to_string s' policy versions <> Ok tt.
Proof.
  intros Hok Hdue Hm Hne Hp Hl Hv Hpol Hrev He Hs Ht. exists (published sha256_hex s intent snapshot embeddings).
  split; [apply quiet_run; try done; by destruct (fv_inputs snapshot)|]. split; [by eapply published_served|].
  split; [intros id; by eapply published_ready|]. split; [by eapply returned_refused_alone|].
  intros versions Hin. by eapply returned_refused.
Qed.

(** The third run: the content of the first one is due again. *)
Definition demo_due_again : SemanticStore := demo_prepare 9 (change_sources (demo_content (u8"alpha")) demo_changed).
Definition demo_intent_again : SemanticIndexIntentV2 := default demo_intent (find_intent demo_due_again 9 3).
Definition demo_frozen_again : FrozenVectorIndexSnapshotV2 :=
  match freeze_vector_index_snapshot_v2 demo_digest demo_uuid demo_payload demo_parse demo_due_again 20 with
  | Ok snapshot => snapshot
  | Err _ => demo_frozen
  end.

Lemma demo_again_reaches : demo_reaches demo_due_again.
Proof.
  apply demo_prepare_reaches; [by apply (bool_decide_unpack _); vm_compute|].
  eapply demo_step_reaches; [apply step_sources|]. exact demo_changed_reaches.
Qed.

Lemma demo_again_due : due demo_digest demo_uuid demo_payload demo_parse demo_due_again demo_intent_again demo_frozen_again.
Proof. by split; vm_compute. Qed.

Lemma returned_content_refused_witness :
  check_generations demo_digest demo_uuid demo_changed demo_retrieval_policy [20] = Ok tt
  /\ exists s', run_semantic_index_job demo_digest demo_uuid demo_payload demo_parse (u8"23514") (fun _ => u8"sql")
       (fun _ => u8"vector") (fun _ s => s) (fun s => s) (fun _ => None) next_id (Some demo_provider) None 9 3 demo_due_again
     = Some (s', Ok None)
  /\ served demo_digest demo_uuid demo_retrieval_policy s' 20
  /\ (forall id, exists i, (prepare demo_digest demo_uuid 20 id s').2 = Ok (Ready i))
  /\ check_generations demo_digest demo_uuid s' demo_retrieval_policy [20] = Err (integrity E_GENERATION)
  /\ forall versions, 20 ∈ versions -> check_generations demo_digest demo_uuid s' demo_retrieval_policy versions <> Ok tt.
Proof.
  split; [by vm_compute|].
  apply (returned_content_refused demo_digest demo_uuid demo_payload demo_parse (u8"23514") any_answer (fun _ => u8"sql")
    (fun _ => u8"vector") next_id demo_provider None demo_due_again demo_retrieval_policy demo_intent_again demo_frozen_again
    [demo_vector 0; demo_vector 0] (complete_intent demo_intent)).
  - exact (reachable_index_ok _ _ _ _ _ _ _ demo_again_reaches).
  - exact demo_again_due.
  - by vm_compute.
  - by vm_compute.
  - by vm_compute.
  - by vm_compute.
  - repeat constructor; apply validate_vector_exact; by vm_compute.
  - by vm_compute.
  - by vm_compute.
  - apply (list_elem_of_lookup_2 _ 0). by vm_compute.
  - by vm_compute.
  - by vm_compute.
Defined.
