(* ===== verification/Retrieval.v ===== *)
(** * [crates/knowledge/src/knowledge_retrieval_pg/mod.rs]: a retrieval of the second contract

    The registry of policies and revisions with its two checks (before the transaction and in
    its snapshot), the rows of the exact query, the semantic runtime, and the retrieval with and
    without a frozen identity: the composition of [Policy], [SemanticRecall], [Providers] and
    [Evidence].  A query that fails ends the retrieval with its error and is left out. *)
From S2P Require Import Prelude RustStr RustFloat Keywords Policy Order Rank Recall Selection Evidence Lexical Providers.
From S2P Require Import Pipeline SemanticIndex Sse SemanticRecall.

Local Open Scope N_scope.

(** ** The registry *)

(** [knowledge_retrieval_policies], [knowledge_embedding_revisions], [knowledge_rerank_revisions] *)
Record PolicyRow := {
  py_canonical_policy_payload : list Z; py_embedding_revision_sha256 : str; py_rerank_revision_sha256 : str;
  py_contract_version : str; py_max_hits : Z; py_max_chunk_bytes : Z; py_max_total_bytes : Z; py_supported : bool;
}.
Record EmbeddingRow := {
  ew_canonical_revision_payload : list Z; ew_schema_version : Z; ew_provider_protocol_version : str;
  ew_provider_model_identifier : str; ew_provider_model_revision_sha256 : str; ew_endpoint_config_sha256 : str;
  ew_endpoint_identity : str; ew_dimension : Z; ew_request_config_sha256 : str;
  ew_output_normalization_version : str; ew_credential_ref : str; ew_supported : bool;
}.
Record RerankRow := { rw_canonical_revision_payload : list Z; rw_credential_ref : str; rw_supported : bool }.

Record Registry := {
  rg_policies : gmap str PolicyRow; rg_embeddings : gmap str EmbeddingRow; rg_rerankers : gmap str RerankRow;
}.

(** The row of the joins over one policy. *)
Definition registered (reg : Registry) (policy_sha256 : str) : option (PolicyRow * EmbeddingRow * RerankRow) :=
  policy ← rg_policies reg !! policy_sha256;
  revision ← rg_embeddings reg !! py_embedding_revision_sha256 policy;
  reranker ← rg_rerankers reg !! py_rerank_revision_sha256 policy;
  Some (policy, revision, reranker).

Definition all_supported (row : PolicyRow * EmbeddingRow * RerankRow) : bool :=
  let '(policy, revision, reranker) := row in py_supported policy && ew_supported revision && rw_supported reranker.

(** [i64::from], [i16::try_from(_).ok()], [i32::try_from(_).ok()] and [u64::try_from(_).ok()] *)
Definition i64_from (n : N) : Z := Z.of_N n.
Definition try_i16 (n : N) : option Z := if n <? 32768 then Some (Z.of_N n) else None.
Definition try_i32 (n : N) : option Z := if n <? 2147483648 then Some (Z.of_N n) else None.
Definition try_unsigned (modulus : N) (z : Z) : option N :=
  if ((0 <=? z) && (z <? Z.of_N modulus))%Z then Some (Z.to_N z) else None.

Definition E_POLICY_UNKNOWN : str := u8"frozen knowledge-evidence-v2 policy is unavailable or revoked".
Definition E_POLICY_REVOKED : str := u8"frozen knowledge-evidence-v2 policy or model revision is revoked".
Definition E_POLICY_SIDECARS : str := u8"frozen knowledge-evidence-v2 policy sidecars differ".
Definition E_EMBEDDING_ARTIFACT : str := u8"invalid frozen embedding revision artifact: ".
Definition E_EMBEDDING_SIDECARS : str := u8"frozen embedding revision bytes or sidecars differ".
Definition E_POLICY_ARTIFACT : str := u8"invalid frozen retrieval policy artifact: ".
Definition E_RERANK_ARTIFACT : str := u8"invalid frozen rerank revision artifact: ".
Definition E_RERANK_SIDECARS : str := u8"frozen policy/rerank bytes or sidecars differ".
Definition E_POLICY_IDENTITY : str := u8"frozen policy identity differs from registry artifact".
Definition E_SNAPSHOT_POLICY : str := u8"unknown or revoked knowledge-evidence-v2 policy".
Definition E_SNAPSHOT_CHANGED : str := u8"policy or embedding revision changed during semantic recall".
Definition E_RERANK_UNKNOWN : str := u8"unknown or revoked rerank revision v2".
Definition E_RERANK_LOCKED : str := u8"invalid rerank revision v2 artifact: ".
Definition E_RERANK_MISMATCH : str := u8"non-canonical or mismatched rerank revision v2 artifact".
Definition E_FROZEN_EMBEDDING : str := u8"frozen policy/embedding registry bytes or credential sidecar differ".
Definition E_FROZEN_RERANK : str := u8"frozen rerank registry bytes or credential sidecar differ".
Definition E_FROZEN_CANONICAL : str := u8"frozen retrieval identity is not canonical".
Definition E_FROZEN_SCOPE : str := u8"retrieval request differs from frozen scope or policy".

#[export] Instance policy_identity_eq_dec : EqDecision RetrievalPolicyIdentityV1.
Proof. solve_decision. Defined.
#[export] Instance frozen_eq_dec : EqDecision FrozenRetrievalPolicyIdentityV1.
Proof. solve_decision. Defined.

Section retrieval.

(** [hex::encode(Sha256::digest(_))], the writers of the artifacts, their readers from bytes. *)
Context (sha256_hex : list Z -> str) (uuid_to_string : N -> str) (to_lowercase : char -> str).
Context (embedding_json : EmbeddingRevisionV2 -> result str (list Z)).
Context (rerank_json : RerankRevisionV2 -> result str (list Z)) (policy_json : RetrievalPolicyV2 -> result str (list Z)).
Context (read_embedding : list Z -> result str EmbeddingRevisionV2) (read_policy : list Z -> result str RetrievalPolicyV2).
Context (read_rerank : list Z -> result str RerankRevisionV2).

Notation embedding_bytes := (embedding_canonical_bytes embedding_json).
Notation policy_bytes := (policy_canonical_bytes policy_json).
Notation rerank_bytes := (rerank_canonical_bytes rerank_json).

(** [r.ok().as_deref() == Some(x)] *)
Definition ok_is {E A} `{EqDecision A} (r : result E A) (x : A) : bool :=
  match r with Ok y => bool_decide (y = x) | Err _ => false end.

Definition embedding_row_differs (revision : EmbeddingRevisionV2) (row : EmbeddingRow) : bool :=
  negb (bool_decide (try_i16 (em_schema_version revision) = Some (ew_schema_version row)))
  || negb (str_eqb (em_provider_protocol_version revision) (ew_provider_protocol_version row))
  || negb (str_eqb (em_provider_model_identifier revision) (ew_provider_model_identifier row))
  || negb (str_eqb (em_provider_model_revision_sha256 revision) (ew_provider_model_revision_sha256 row))
  || negb (str_eqb (em_endpoint_config_sha256 revision) (ew_endpoint_config_sha256 row))
  || negb (str_eqb (em_endpoint_identity revision) (ew_endpoint_identity row))
  || negb (bool_decide (try_i32 (em_dimension revision) = Some (ew_dimension row)))
  || negb (str_eqb (em_request_config_sha256 revision) (ew_request_config_sha256 row))
  || negb (str_eqb (em_output_normalization_version revision) (ew_output_normalization_version row)).

Definition mismatch (prefix : str) (message : str) : KnowledgeRetrievalError := DigestMismatch (prefix ++ message).

(** The four checks of [validate_supported_policy_v2], in their order. *)
Definition check_identity_row (identity : RetrievalPolicyIdentityV1) (row : PolicyRow) : result KnowledgeRetrievalError unit :=
  reject_if (negb (str_eqb (py_contract_version row) (contract_version identity))
             || negb (py_max_hits row =? i64_from (max_hits identity))%Z
             || negb (py_max_chunk_bytes row =? i64_from (max_chunk_bytes identity))%Z
             || negb (bool_decide (try_unsigned u64_modulus (py_max_total_bytes row) = Some (max_total_bytes identity))))
    (DigestMismatch E_POLICY_SIDECARS).

Definition check_embedding_row (policy : PolicyRow) (row : EmbeddingRow)
    : result KnowledgeRetrievalError EmbeddingRevisionV2 :=
  let payload := ew_canonical_revision_payload row in
  revision ← map_err (mismatch E_EMBEDDING_ARTIFACT) (read_embedding payload);
  let failed error := mismatch E_EMBEDDING_ARTIFACT (show_embedding_error error) in
  _ ← map_err failed (validate_embedding_revision revision);
  bytes ← map_err failed (embedding_bytes revision);
  digest ← map_err (fun error => mismatch (u8"invalid frozen embedding revision identity: ") (show_embedding_error error))
             (embedding_sha256 sha256_hex embedding_json revision);
  _ ← reject_if (negb (bool_decide (bytes = payload))
                 || negb (str_eqb digest (py_embedding_revision_sha256 policy))
                 || embedding_row_differs revision row)
        (DigestMismatch E_EMBEDDING_SIDECARS);
  Ok revision.

(** The rerank revision of a row is the canonical one the policy names. *)
Definition rerank_row_differs (artifact : RetrievalPolicyV2) (revision : RerankRevisionV2) (sha : str) (payload : list Z)
    : bool :=
  negb (ok_is (rerank_sha256 sha256_hex rerank_json revision) sha)
  || negb (ok_is (rerank_bytes revision) payload)
  || negb (str_eqb (rr_provider_model_revision_sha256 revision) (rp_model_revision_sha256 (rerank artifact)))
  || negb (str_eqb (rr_config_revision_sha256 revision) (rp_config_revision_sha256 (rerank artifact))).

Definition check_policy_row (policy : PolicyRow) (reranker : RerankRow) : result KnowledgeRetrievalError RetrievalPolicyV2 :=
  let payload := py_canonical_policy_payload policy in
  artifact ← map_err (mismatch E_POLICY_ARTIFACT) (read_policy payload);
  let failed error := mismatch E_POLICY_ARTIFACT (show_policy_error error) in
  _ ← map_err failed (validate_policy artifact);
  bytes ← map_err failed (policy_bytes artifact);
  let rerank_payload := rw_canonical_revision_payload reranker in
  rerank_revision ← map_err (mismatch E_RERANK_ARTIFACT) (read_rerank rerank_payload);
  _ ← map_err (fun error => mismatch E_RERANK_ARTIFACT (show_rerank_error error)) (validate_rerank_revision rerank_revision);
  _ ← reject_if (negb (bool_decide (bytes = payload))
                 || negb (str_eqb (py_embedding_revision_sha256 policy) (ep_model_revision_sha256 (embedding artifact)))
                 || negb (str_eqb (py_rerank_revision_sha256 policy) (rp_revision_sha256 (rerank artifact)))
                 || rerank_row_differs artifact rerank_revision (py_rerank_revision_sha256 policy) rerank_payload)
        (DigestMismatch E_RERANK_SIDECARS);
  Ok artifact.

Definition validate_supported_policy_v2 (reg : Registry) (identity : RetrievalPolicyIdentityV1)
    : result KnowledgeRetrievalError ValidatedSemanticPolicyV2 :=
  '(policy, embedding_row, reranker) ← ok_or (registered reg (policy_sha256 identity)) (PolicyRevoked E_POLICY_UNKNOWN);
  _ ← reject_if (negb (all_supported (policy, embedding_row, reranker))) (PolicyRevoked E_POLICY_REVOKED);
  _ ← check_identity_row identity policy;
  revision ← check_embedding_row policy embedding_row;
  artifact ← check_policy_row policy reranker;
  artifact_identity ← map_err (fun error => mismatch (u8"invalid frozen policy identity: ") (show_policy_error error))
                        (request_identity sha256_hex policy_json artifact);
  _ ← reject_if (negb (bool_decide (artifact_identity = identity))) (DigestMismatch E_POLICY_IDENTITY);
  Ok {| v_policy := artifact; v_revision := revision; v_credential_ref := ew_credential_ref embedding_row |}.

(** [lock_supported_policy_in_snapshot]: the same artifacts are still registered. *)
Definition lock_supported_policy_in_snapshot (reg : Registry) (identity : RetrievalPolicyIdentityV1)
    (validated : ValidatedSemanticPolicyV2) : result KnowledgeRetrievalError unit :=
  '(policy, embedding_row, reranker) ← ok_or
    (row ← registered reg (policy_sha256 identity); if all_supported row then Some row else None)
    (PolicyRevoked E_SNAPSHOT_POLICY);
  canonical_policy ← map_err (fun error => InvalidRequest (u8"invalid policy artifact: " ++ show_policy_error error))
                       (policy_bytes (v_policy validated));
  canonical_revision ← map_err (fun error => InvalidRequest (u8"invalid embedding revision: " ++ show_embedding_error error))
                         (embedding_bytes (v_revision validated));
  let revision_payload := ew_canonical_revision_payload embedding_row in
  let revision_sha := py_embedding_revision_sha256 policy in
  reject_if (negb (bool_decide (py_canonical_policy_payload policy = canonical_policy))
             || negb (bool_decide (revision_payload = canonical_revision))
             || negb (str_eqb revision_sha (ep_model_revision_sha256 (embedding (v_policy validated))))
             || negb (str_eqb (sha256_hex revision_payload) revision_sha)
             || negb (str_eqb (ew_credential_ref embedding_row) (v_credential_ref validated)))
    (DigestMismatch E_SNAPSHOT_CHANGED).

Definition lock_rerank_revision_v2 (reg : Registry) (policy : RetrievalPolicyV2)
    : result KnowledgeRetrievalError (RerankRevisionV2 * str) :=
  row ← ok_or (row ← rg_rerankers reg !! rp_revision_sha256 (rerank policy); if rw_supported row then Some row else None)
          (InvalidRequest E_RERANK_UNKNOWN);
  let payload := rw_canonical_revision_payload row in
  revision ← map_err (fun error => InvalidRequest (E_RERANK_LOCKED ++ error)) (read_rerank payload);
  let failed error := InvalidRequest (E_RERANK_LOCKED ++ show_rerank_error error) in
  _ ← map_err failed (validate_rerank_revision revision);
  bytes ← map_err failed (rerank_bytes revision);
  _ ← reject_if (negb (bool_decide (bytes = payload))
                 || negb (ok_is (rerank_sha256 sha256_hex rerank_json revision) (rp_revision_sha256 (rerank policy)))
                 || negb (str_eqb (rr_provider_model_revision_sha256 revision) (rp_model_revision_sha256 (rerank policy)))
                 || negb (str_eqb (rr_config_revision_sha256 revision) (rp_config_revision_sha256 (rerank policy))))
        (InvalidRequest E_RERANK_MISMATCH);
  Ok (revision, rw_credential_ref row).

(** The comparisons with a frozen identity. *)
Definition check_frozen_policy (frozen : option FrozenRetrievalPolicyIdentityV1) (validated : ValidatedSemanticPolicyV2)
    : result KnowledgeRetrievalError unit :=
  match frozen with
  | None => Ok tt
  | Some f =>
    reject_if (negb (ok_is (policy_bytes (v_policy validated)) (as_bytes (canonical_policy_utf8 f)))
               || negb (ok_is (embedding_bytes (v_revision validated)) (as_bytes (canonical_embedding_revision_utf8 f)))
               || negb (str_eqb (v_credential_ref validated) (embedding_credential_ref f)))
      (DigestMismatch E_FROZEN_EMBEDDING)
  end.

Definition check_frozen_rerank (frozen : option FrozenRetrievalPolicyIdentityV1) (revision : RerankRevisionV2)
    (credential_ref : str) : result KnowledgeRetrievalError unit :=
  match frozen with
  | None => Ok tt
  | Some f =>
    reject_if (negb (ok_is (rerank_bytes revision) (as_bytes (canonical_rerank_revision_utf8 f)))
               || negb (str_eqb credential_ref (rerank_credential_ref f)))
      (DigestMismatch E_FROZEN_RERANK)
  end.

(** ** The rows of the exact query *)

(** A document the query joins, and a chunk it joins to it. *)
Definition evidence_document (version : N) (d : SourceDocument) : bool :=
  (sd_product_version_id d =? version) && document_live d && sd_enabled d && sd_index_ready d.

Definition evidence_chunk (src : Sources) (version : N) (document : N * SourceDocument) (row : N * SourceChunk) : bool :=
  let '(id, c) := row in
  (sc_document_id c =? document.1) && (sc_product_version_id c =? version)
  && (sc_generation c =? sd_active_generation document.2)%Z
  && existsb (str_eqb (sc_chunk_type c)) [TEXT; PARENT_TEXT; IMAGE_OCR]
  && (negb (str_eqb (sc_chunk_type c) IMAGE_OCR) || bool_decide (id ∈ image_links src)).

Definition evidence_row (product version : N) (document : option (N * SourceDocument)) (chunk : option (N * SourceChunk))
    : EvidenceRow := {|
  row_product_id := product; row_product_version_id := version;
  row_content := sc_content ∘ snd <$> chunk; row_document_id := fst <$> document;
  row_source_chunk_id := fst <$> chunk; row_file_name := sd_file_name ∘ snd <$> document;
  row_chunk_type := sc_chunk_type ∘ snd <$> chunk;
|}.

(** [LEFT JOIN]: one row without a partner when there is none. *)
Definition left_join {A B} (f : option A -> list B) (partners : list A) : list B :=
  match partners with [] => f None | _ => concat (map (fun a => f (Some a)) partners) end.

Definition document_rows (src : Sources) (product version : N) (document : option (N * SourceDocument)) : list EvidenceRow :=
  match document with
  | None => [evidence_row product version None None]
  | Some d =>
    left_join (fun chunk => [evidence_row product version (Some d) chunk])
      (List.filter (evidence_chunk src version d) (SemanticIndex.by_id (chunks src)))
  end.

Definition version_rows (src : Sources) (key : N * N) : list EvidenceRow :=
  left_join (document_rows src key.1 key.2)
    (List.filter (fun '(_, d) => evidence_document key.2 d) (SemanticIndex.by_id (documents src))).

(** The versions of the scope by product and version. *)
Definition scope_keys (src : Sources) (kind : str) (selected : list N) : list (N * N) :=
  sort_with compare_version
    (omap (fun v => '(product, p) ← product_of src v; if kind_matches kind p then Some (product, v) else None)
       (elements (list_to_set selected : gset N))).

Definition evidence_rows (src : Sources) (kind : str) (selected : list N) : list EvidenceRow :=
  concat (map (version_rows src) (scope_keys src kind selected)).

(** ** The semantic runtime *)

Inductive ProviderCall := ToEmbedding (call : EmbeddingCall) | ToRerank (call : RerankCall).

(** What the transaction sees. *)
Record PoolSnapshot := {
  ps_registry : Registry; ps_store : SemanticStore; ps_media : gmap N KnowledgeEvidenceMediaV1;
}.

(** The parameters of [SemanticRecall] and of the clients of [Providers]. *)
Context (keyword_score : str -> str -> option N) (vector_score : list f32 -> list f32 -> option N).
Context (graph_rows : list N -> list (N * list (option N))) (wiki_rows : list N -> list (N * Json)).
Context (parse_uuid : str -> option N).
Context (order : gset N -> list N) (iter : gmap N FoldedRanks -> list (N * FoldedRanks)).
Context (parse_batch : list Z -> result str EmbeddingBatchResponseV2) (status_text : N -> str).
Context {Value Decimal : Type}.
Context (as_number : Value -> option str) (decimal_from_str : str -> option Decimal).
Context (decimal_value : Decimal -> QArith_base.Q) (decimal_millionths : Decimal -> option N).
Context (parse_rerank_response : list Z -> result str (RerankResponseV2 Value)).
Context (embedding_server : EmbeddingCall -> result str HttpResponse) (rerank_server : RerankCall -> result str HttpResponse).
Context `{Resolver : CredentialResolver KnowledgeRetrievalError}.

Notation rerank_with := (rerank_candidates sha256_hex status_text as_number decimal_from_str decimal_value
  decimal_millionths parse_rerank_response rerank_json rerank_server).
Notation embed_with := (embed sha256_hex embedding_json parse_batch status_text embedding_server).
Notation recall := (recall_in_snapshot sha256_hex uuid_to_string to_lowercase keyword_score vector_score graph_rows
  wiki_rows parse_uuid order iter).

(** Embed, recall, rerank; the calls that were made, and the answer ([None]: a panic). *)
Definition semantic_answer (snap : PoolSnapshot) (kind : str) (selected : list N) (requirement_text : str)
    (validated : ValidatedSemanticPolicyV2) (rerank_revision : RerankRevisionV2) (rerank_credential_ref : str)
    : list ProviderCall * option (result KnowledgeRetrievalError (list RerankedSemanticCandidateV2)) :=
  let '(calls, embedded) := embed_with requirement_text validated in
  let log := map ToEmbedding calls in
  match (query ← embedded; _ ← validate_query_embedding query (v_policy validated); Ok query) with
  | Err e => (log, Some (Err e))
  | Ok query =>
    match recall (ps_store snap) kind selected requirement_text (v_policy validated) query with
    | None => (log, None)
    | Some (Err e) => (log, Some (Err e))
    | Some (Ok []) => (log, Some (Ok []))
    | Some (Ok candidates) =>
      let '(calls, reranked) :=
        rerank_with requirement_text candidates (v_policy validated) rerank_revision rerank_credential_ref in
      (log ++ map ToRerank calls, Some reranked)
    end
  end.

(** [retrieve_semantic_candidates_v2]: the recall alone, with the embedding client of the caller. *)
Definition candidates_gate (registry : Registry) (kind : str) (selected : list N) (requirement_text : str)
    (identity : RetrievalPolicyIdentityV1) : result KnowledgeRetrievalError ValidatedSemanticPolicyV2 :=
  _ ← reject_if (negb (existsb (str_eqb kind) [PRODUCT_LINE; COMPANY])) (invalid_request (u8"unsupported semantic workspace kind"));
  _ ← reject_if (str_is_empty (normalize_exact_v2 to_lowercase requirement_text)) (invalid_request E_REQUIREMENT);
  _ ← reject_if (negb (selected_unique selected)) (invalid_request (u8"selected versions must be unique, non-nil UUIDs"));
  validate_supported_policy_v2 registry identity.

Definition retrieve_semantic_candidates_v2 (registry : Registry) (snap : PoolSnapshot) (kind : str) (selected : list N)
    (requirement_text : str) (identity : RetrievalPolicyIdentityV1)
    : list EmbeddingCall * option (result KnowledgeRetrievalError (list SemanticCandidateV2)) :=
  match candidates_gate registry kind selected requirement_text identity with
  | Err e => ([], Some (Err e))
  | Ok validated =>
    let '(calls, embedded) := embed_with requirement_text validated in
    (calls,
     match (query ← embedded; _ ← validate_query_embedding query (v_policy validated);
            _ ← lock_supported_policy_in_snapshot (ps_registry snap) identity validated; Ok query) with
     | Err e => Some (Err e)
     | Ok query => recall (ps_store snap) kind selected requirement_text (v_policy validated) query
     end)
  end.

(** Does the retrieval get as far as asking the runtime, and is there room behind the exact hits? *)
Definition asks_runtime (kind : str) (policy : RetrievalPolicyIdentityV1) (requirement_text : str) (selected : list N)
    (rows : list EvidenceRow) : bool :=
  match foldR (row_step to_lowercase uuid_to_string kind (normalize_exact_v2 to_lowercase requirement_text)) ([], []) rows with
  | Err _ => false
  | Ok (eligible, candidates) =>
    (bool_decide ((list_to_set selected : gset N) = ∅)
     || bool_decide ((list_to_set (map el_product_version_id eligible) : gset N) = list_to_set selected))
    && match select_exact_prefix_v2 uuid_to_string candidates policy with
       | Some (Ok selection) =>
         negb (4294967296 <=? N.of_nat (length (sel_hits selection)))
         && negb (match eligible with [] => true | _ => false end)
         && (N.of_nat (length (sel_hits selection)) <? max_hits policy)
       | _ => false
       end
  end.

(** ** The retrieval *)

(** What precedes the queries of the transaction. *)
Definition retrieval_gate (registry : Registry) (snap : PoolSnapshot) (request_schema_version : N)
    (requirement_identity_sha256 requirement_text : str) (selected : list N) (policy : RetrievalPolicyIdentityV1)
    (frozen : option FrozenRetrievalPolicyIdentityV1)
    : result KnowledgeRetrievalError (ValidatedSemanticPolicyV2 * RerankRevisionV2 * str) :=
  _ ← validate_request_v2 to_lowercase request_schema_version requirement_identity_sha256 requirement_text selected policy;
  validated ← validate_supported_policy_v2 registry policy;
  _ ← check_frozen_policy frozen validated;
  _ ← lock_supported_policy_in_snapshot (ps_registry snap) policy validated;
  '(revision, credential_ref) ← lock_rerank_revision_v2 (ps_registry snap) (v_policy validated);
  _ ← check_frozen_rerank frozen revision credential_ref;
  Ok (validated, revision, credential_ref).

Section runtime.

(** Is a semantic runtime configured, and is the adapter that of the exact contract tests? *)
Context (semantic_runtime allow_exact_only : bool).

Definition retrieve_v2_in (registry : Registry) (snap : PoolSnapshot) (kind : str) (request_schema_version : N)
    (requirement_identity_sha256 requirement_text : str) (selected : list N) (policy : RetrievalPolicyIdentityV1)
    (frozen : option FrozenRetrievalPolicyIdentityV1)
    : list ProviderCall * option (result KnowledgeRetrievalError KnowledgeEvidenceBatchV3) :=
  match retrieval_gate registry snap request_schema_version requirement_identity_sha256 requirement_text selected policy
          frozen with
  | Err e => ([], Some (Err e))
  | Ok (validated, rerank_revision, rerank_credential_ref) =>
    let rows := evidence_rows (sources (ps_store snap)) kind selected in
    let finish semantic :=
      retrieve_v2 to_lowercase (recall_digest sha256_hex) uuid_to_string (ps_media snap) kind policy requirement_text
        selected allow_exact_only semantic rows in
    if negb semantic_runtime then ([], finish None)
    else if asks_runtime kind policy requirement_text selected rows then
      let '(log, answer) := semantic_answer snap kind selected requirement_text validated rerank_revision
                              rerank_credential_ref in
      (log, answer ← answer; finish (Some answer))
    else ([], finish (Some (Ok [])))
  end.

Inductive KnowledgeEvidenceScopeV2 :=
| ProductLine (request : ProductEvidenceRequestV1) | Company (request : CompanyEvidenceRequestV1).

Definition retrieve_evidence_v3 (registry : Registry) (snap : PoolSnapshot) (scope : KnowledgeEvidenceScopeV2)
    : list ProviderCall * option (result KnowledgeRetrievalError KnowledgeEvidenceBatchV3) :=
  match scope with
  | ProductLine r =>
    retrieve_v2_in registry snap PRODUCT_LINE (pe_schema_version r) (pe_requirement_identity_sha256 r)
      (pe_requirement_text r) (pe_product_version_ids r) (pe_retrieval_policy r) None
  | Company r =>
    retrieve_v2_in registry snap COMPANY (ce_schema_version r) (ce_requirement_identity_sha256 r)
      (ce_requirement_text r) (ce_library_version_ids r) (ce_retrieval_policy r) None
  end.

(** The readers of a frozen identity, as in [Policy]. *)
Context (parse_policy : str -> result str RetrievalPolicyV2) (parse_embedding : str -> result str EmbeddingRevisionV2).
Context (parse_rerank : str -> result str RerankRevisionV2) (scope_jcs : list N -> list N -> result str (list Z)).
Context (parse_frozen : list Z -> result str FrozenRetrievalPolicyIdentityV1).
Context (frozen_jcs : FrozenRetrievalPolicyIdentityV1 -> result str (list Z)).

Definition frozen_error (message : str) : KnowledgeRetrievalError :=
  if starts_with message (u8"CONTENT_RETRIEVAL_DIGEST_MISMATCH:") then DigestMismatch message else InvalidRequest message.

(** The identity is canonical and valid. *)
Definition frozen_gate (frozen : FrozenRetrievalPolicyIdentityV1)
    : result KnowledgeRetrievalError RetrievalPolicyIdentityV1 :=
  '(canonical, _) ← map_err DigestMismatch (frozen_canonical_bytes_and_sha256 sha256_hex frozen_jcs frozen);
  parsed ← map_err DigestMismatch (parse_frozen canonical);
  _ ← reject_if (negb (bool_decide (parsed = frozen))) (DigestMismatch E_FROZEN_CANONICAL);
  map_err frozen_error (frozen_validate sha256_hex embedding_json rerank_json policy_json parse_policy parse_embedding
    parse_rerank scope_jcs frozen).

Definition retrieve_frozen_evidence_v3 (registry : Registry) (snap : PoolSnapshot)
    (frozen : FrozenRetrievalPolicyIdentityV1) (scope : KnowledgeEvidenceScopeV2)
    : list ProviderCall * option (result KnowledgeRetrievalError KnowledgeEvidenceBatchV3) :=
  match frozen_gate frozen with
  | Err e => ([], Some (Err e))
  | Ok policy =>
    let differs := ([], Some (Err (DigestMismatch E_FROZEN_SCOPE))) in
    match scope with
    | ProductLine r =>
      if bool_decide (pe_product_version_ids r = fz_product_version_ids frozen)
         && bool_decide (pe_retrieval_policy r = policy)
      then retrieve_v2_in registry snap PRODUCT_LINE (pe_schema_version r) (pe_requirement_identity_sha256 r)
             (pe_requirement_text r) (pe_product_version_ids r) policy (Some frozen)
      else differs
    | Company r =>
      if bool_decide (ce_library_version_ids r = fz_library_version_ids frozen)
         && bool_decide (ce_retrieval_policy r = policy)
      then retrieve_v2_in registry snap COMPANY (ce_schema_version r) (ce_requirement_identity_sha256 r)
             (ce_requirement_text r) (ce_library_version_ids r) policy (Some frozen)
      else differs
    end
  end.

End runtime.
End retrieval.

(** [latest_supported_retrieval_policy_v2]: the rows in the order of the query. *)
Definition latest_supported_retrieval_policy_v2 (rows : list (str * PolicyRow))
    : result KnowledgeRetrievalError (option RetrievalPolicyIdentityV1) :=
  match rows with
  | [] => Ok None
  | (sha, row) :: _ =>
    hits ← ok_or (try_unsigned 4294967296 (py_max_hits row)) (InvalidRequest (u8"policy max_hits out of range"));
    chunk_bytes ← ok_or (try_unsigned 4294967296 (py_max_chunk_bytes row))
                    (InvalidRequest (u8"policy max_chunk_bytes out of range"));
    total_bytes ← ok_or (try_unsigned u64_modulus (py_max_total_bytes row))
                    (InvalidRequest (u8"policy max_total_bytes out of range"));
    Ok (Some {| contract_version := py_contract_version row; policy_sha256 := sha; max_hits := hits;
                max_chunk_bytes := chunk_bytes; max_total_bytes := total_bytes |})
  end.
