(* ===== verification/RetrievalFacts.v ===== *)
(** * A retrieval of the second contract: theorems

    The rows of the exact query as facts of the tables, the answer of the semantic runtime as
    evidence that fits them, and from both: a retrieval ends in a batch its validator accepts,
    every hit quotes a live chunk of a selected version, and what is sent to the providers is
    fixed by the frozen identity and comes from its versions. *)
From S2P Require Import Prelude RustStr RustFloat Batches Keywords Policy Order Rank Recall Selection Evidence BatchFacts Lexical Providers.
From S2P Require Import RerankFacts RetrieveFacts PolicyFacts ProvidersFacts Pipeline SemanticIndex SemanticIndexFacts Sse SemanticRecall.
From S2P Require Import SemanticRecallFacts Retrieval.

Local Open Scope N_scope.

(** ** Lists *)

Lemma nodup_concat_map {A B} (f : A -> list B) (l : list A) :
  NoDup l -> (forall x, x ∈ l -> NoDup (f x)) ->
  (forall x y b, x ∈ l -> y ∈ l -> b ∈ f x -> b ∈ f y -> x = y) -> NoDup (concat (map f l)).
Proof.
  induction l as [|x l IH]; cbn; [constructor|]. intros [Hx Hnd]%NoDup_cons Hf Hd. apply NoDup_app. split; [|split].
  - apply Hf. left.
  - intros b Hb Hin. apply list_elem_of_In, in_concat in Hin as (bs & (y & <- & Hy%list_elem_of_In)%in_map_iff & Hb').
    apply list_elem_of_In in Hb'. assert (x = y) as ->; [|done]. apply (Hd x y b); [left|by right|done..].
  - apply IH; [done| |]; intros; [apply Hf; by right|]. eapply Hd; [by right|by right|done..].
Qed.

Lemma omap_concat {A B} (f : A -> option B) (ls : list (list A)) : omap f (concat ls) = concat (map (omap f) ls).
Proof. induction ls as [|l ls IH]; cbn; [done|]. by rewrite omap_app, IH. Qed.

Lemma elem_of_concat_map {A B} (f : A -> list B) l b : b ∈ concat (map f l) <-> exists a, a ∈ l /\ b ∈ f a.
Proof.
  rewrite list_elem_of_In, in_concat. split.
  - intros (bs & (a & <- & Ha)%in_map_iff & Hb). exists a. by rewrite !list_elem_of_In.
  - intros (a & Ha & Hb). exists (f a). split; [apply in_map|]; by rewrite <- list_elem_of_In.
Qed.

Lemma by_id_nodup {A} (m : gmap N A) : NoDup (map fst (SemanticIndex.by_id m)).
Proof. unfold SemanticIndex.by_id. rewrite sort_by_perm. apply NoDup_fst_map_to_list. Qed.

Lemma filter_nodup {A} (p : A -> bool) l : NoDup l -> NoDup (List.filter p l).
Proof. rewrite !NoDup_ListNoDup. apply List.NoDup_filter. Qed.

Lemma elem_of_filter_b {A} (p : A -> bool) l x : x ∈ List.filter p l <-> x ∈ l /\ p x = true.
Proof. rewrite !list_elem_of_In. apply filter_In. Qed.

Lemma left_join_in {A B} (f : option A -> list B) partners b : b ∈ left_join f partners <->
  (partners = [] /\ b ∈ f None) \/ exists a, a ∈ partners /\ b ∈ f (Some a).
Proof.
  unfold left_join. destruct partners as [|p l].
  - split; [by left|]. intros [[_ H]|(a & H%elem_of_nil & _)]; done.
  - rewrite elem_of_concat_map. split; [by right|]. by intros [[[=] _]|H].
Qed.

(** ** The rows of the exact query *)

(** No identifier of the tables is nil, no document without a name. *)
Record tables_ok (src : Sources) : Prop := {
  to_versions : forall v p, version_products src !! v = Some p -> v <> 0 /\ p <> 0;
  to_documents : forall id d, documents src !! id = Some d -> id <> 0 /\ sd_file_name d <> [];
  to_chunks : forall id c, chunks src !! id = Some c -> id <> 0;
}.

Section rows.
Context (src : Sources) (kind : str) (selected : list N).

(** A selected version of a product of the kind. *)
Definition in_scope (product version : N) : Prop :=
  version ∈ selected /\ exists p, product_of src version = Some (product, p) /\ kind_matches kind p = true.

Lemma scope_keys_in product version : (product, version) ∈ scope_keys src kind selected <-> in_scope product version.
Proof.
  unfold scope_keys, in_scope. rewrite sort_with_perm, list_elem_of_omap. setoid_rewrite elem_of_elements.
  setoid_rewrite elem_of_list_to_set. split.
  - intros (v & Hv & ([product' p] & Hp & H)%bind_Some). destruct (kind_matches kind p) eqn:E; [|done].
    injection H as <- <-. split; [done|]. by exists p.
  - intros [Hv (p & Hp & E)]. exists version. split; [done|]. rewrite Hp. cbn. by rewrite E.
Qed.

Lemma scope_keys_nodup : NoDup (scope_keys src kind selected).
Proof.
  unfold scope_keys. rewrite sort_with_perm. apply (NoDup_fmap_1 snd).
  assert (forall l, (omap (fun v => '(product, p) ← product_of src v; if kind_matches kind p then Some (product, v) else None) l).*2
            `sublist_of` l) as Hsub.
  { induction l as [|v l IH]; [constructor|]. cbn. destruct (product_of src v) as [[product p]|]; cbn; [|by constructor].
    destruct (kind_matches kind p); cbn; by constructor. }
  eapply sublist_NoDup; [apply (NoDup_elements (list_to_set selected : gset N))|apply Hsub].
Qed.

(** A row of the query: of a version in the scope, with a live document of it, with a trusted chunk. *)
Record evidence_row_of (row : EvidenceRow) : Prop := {
  er_scope : in_scope (row_product_id row) (row_product_version_id row);
  er_document : forall id, row_document_id row = Some id -> exists d, documents src !! id = Some d
    /\ evidence_document (row_product_version_id row) d = true /\ row_file_name row = Some (sd_file_name d);
  er_chunk : forall id, row_source_chunk_id row = Some id -> exists doc d c, row_document_id row = Some doc
    /\ documents src !! doc = Some d /\ chunks src !! id = Some c
    /\ evidence_chunk src (row_product_version_id row) (doc, d) (id, c) = true
    /\ row_content row = Some (sc_content c) /\ row_chunk_type row = Some (sc_chunk_type c);
  er_content : forall text, row_content row = Some text -> is_Some (row_source_chunk_id row);
  er_name : forall n, row_file_name row = Some n -> is_Some (row_document_id row);
}.

Lemma evidence_row_in row : row ∈ evidence_rows src kind selected -> evidence_row_of row.
Proof.
  unfold evidence_rows. rewrite elem_of_concat_map. intros ([product version] & Hkey%scope_keys_in & Hrow).
  unfold version_rows in Hrow. cbn [fst snd] in Hrow.
  apply left_join_in in Hrow as [[_ ->%list_elem_of_singleton]|([doc d] & [Hd%elem_of_by_id He]%elem_of_filter_b & Hrow)].
  { by split. }
  cbn [document_rows] in Hrow.
  apply left_join_in in Hrow as [[_ ->%list_elem_of_singleton]|([id c] & [Hc%elem_of_by_id Hec]%elem_of_filter_b & ->%list_elem_of_singleton)].
  - split; cbn; [done| |done|done|]; [|by eexists]. intros x [= <-]. by exists d.
  - split; cbn; [done| | |by eexists|by eexists].
    + intros x [= <-]. by exists d.
    + intros x [= <-]. by exists doc, d, c.
Qed.

(** Every version of the scope has a row. *)
Lemma evidence_row_exists product version :
  in_scope product version -> (product, version) ∈ map row_version (evidence_rows src kind selected).
Proof.
  intros Hkey%scope_keys_in. apply list_elem_of_fmap.
  assert (exists row, row ∈ version_rows src (product, version) /\ row_version row = (product, version)) as (row & Hr & E).
  { unfold version_rows. cbn [fst snd]. destruct (List.filter _ _) as [|[doc d] ds].
    { eexists. split; [left|done]. }
    unfold left_join. cbn [map concat]. unfold document_rows, left_join.
    destruct (List.filter (evidence_chunk _ _ _) _) as [|x cs]; eexists; (split; [left|done]). }
  exists row. split; [done|]. unfold evidence_rows. apply elem_of_concat_map. by exists (product, version).
Qed.

Lemma evidence_rows_ok : tables_ok src -> Forall row_ok (evidence_rows src kind selected).
Proof.
  intros [Hv Hd Hc]. apply Forall_forall. intros row [Hs Hdoc Hch _ Hn]%evidence_row_in.
  destruct Hs as [_ (p & Hp & _)]. unfold product_of in Hp.
  apply bind_Some in Hp as (product & Hp & (p' & _ & [= -> _])%bind_Some). apply Hv in Hp as [Hv1 Hv2].
  split; [done|done| | |].
  - intros d (x & Hx & _)%Hdoc. by apply Hd in Hx as [].
  - intros c (doc & d & x & _ & _ & Hx & _)%Hch. by apply Hc in Hx.
  - intros n E. destruct (Hn n E) as [doc Edoc]. destruct (Hdoc doc Edoc) as (x & Hx & _ & En).
    apply Hd in Hx as []. congruence.
Qed.

(** The chunks of a document, of a version, of the scope are distinct. *)
Lemma document_chunks product version doc d :
  omap row_source_chunk_id (document_rows src product version (Some (doc, d)))
  = map fst (List.filter (evidence_chunk src version (doc, d)) (SemanticIndex.by_id (chunks src))).
Proof.
  cbn [document_rows]. unfold left_join. destruct (List.filter _ _) as [|r rows]; [done|].
  rewrite omap_concat, map_map. generalize (r :: rows). intros l. induction l as [|x l IH]; [done|]. cbn in *. by rewrite IH.
Qed.

Lemma version_chunks product version :
  omap row_source_chunk_id (version_rows src (product, version))
  = concat (map (fun document => map fst (List.filter (evidence_chunk src version document) (SemanticIndex.by_id (chunks src))))
      (List.filter (fun '(_, d) => evidence_document version d) (SemanticIndex.by_id (documents src)))).
Proof.
  unfold version_rows, left_join. cbn [fst snd]. destruct (List.filter _ (SemanticIndex.by_id (documents src))) as [|x l]; [done|].
  rewrite omap_concat, map_map. f_equal. apply map_ext. intros [doc d]. apply document_chunks.
Qed.

Lemma document_chunk_in version doc d id :
  id ∈ map fst (List.filter (evidence_chunk src version (doc, d)) (SemanticIndex.by_id (chunks src))) ->
  exists c, chunks src !! id = Some c /\ sc_document_id c = doc /\ sc_product_version_id c = version.
Proof.
  intros ([id' c] & -> & [Hc%elem_of_by_id He]%elem_of_filter_b)%list_elem_of_fmap. exists c. split; [done|].
  unfold evidence_chunk in He. bool_to_prop. cbn in *. split; by apply N.eqb_eq.
Qed.

Lemma map_fst_nodup {A B} (l : list (A * B)) : NoDup (map fst l) -> NoDup l.
Proof. apply (NoDup_fmap_1 fst). Qed.

Lemma filter_fst_nodup {A B} (p : A * B -> bool) l : NoDup (map fst l) -> NoDup (map fst (List.filter p l)).
Proof.
  induction l as [|x l IH]; [done|]. cbn. intros [Hx Hnd]%NoDup_cons. destruct (p x); [|by apply IH]. constructor; [|by apply IH].
  intros (y & E & [Hy _]%elem_of_filter_b)%list_elem_of_fmap. apply Hx. rewrite E. by apply list_elem_of_fmap_2.
Qed.

Lemma evidence_chunks_nodup : NoDup (omap row_source_chunk_id (evidence_rows src kind selected)).
Proof.
  unfold evidence_rows. rewrite omap_concat, map_map. apply nodup_concat_map; [apply scope_keys_nodup| |].
  - intros [product version] _. rewrite version_chunks. apply nodup_concat_map.
    + apply filter_nodup, map_fst_nodup, by_id_nodup.
    + intros [doc d] _. apply filter_fst_nodup, by_id_nodup.
    + intros [doc d] [doc' d'] id [H1%elem_of_by_id _]%elem_of_filter_b [H2%elem_of_by_id _]%elem_of_filter_b
        (c & Hc & E & _)%document_chunk_in (c' & Hc' & E' & _)%document_chunk_in.
      rewrite Hc in Hc'. injection Hc' as ->. rewrite E in E'. subst. congruence.
  - intros [product version] [product' version'] id [_ (p & Hp & _)]%scope_keys_in [_ (p' & Hp' & _)]%scope_keys_in.
    rewrite !version_chunks, !elem_of_concat_map.
    intros ([doc d] & _ & (c & Hc & _ & Ev)%document_chunk_in) ([doc' d'] & _ & (c' & Hc' & _ & Ev')%document_chunk_in).
    rewrite Hc in Hc'. injection Hc' as <-. rewrite Ev in Ev'. subst. congruence.
Qed.
End rows.

(** ** Errors that are not the validator's *)

Definition harmlessly {A} (r : result KnowledgeRetrievalError A) : Prop := forall e, r = Err e -> harmless e.

Lemma harmlessly_bind {A B} (r : result KnowledgeRetrievalError A) (f : A -> result KnowledgeRetrievalError B) :
  harmlessly r -> (forall a, harmlessly (f a)) -> harmlessly (r ≫= f).
Proof. intros Hr Hf. destruct r as [a|e]; [apply Hf|]. intros e' [= <-]. by apply Hr. Qed.

Lemma harmlessly_ok {A} (a : A) : harmlessly (Ok a).
Proof. done. Qed.

Lemma harmlessly_reject c e : harmless e -> harmlessly (reject_if c e).
Proof. intros H e'. destruct c; [by intros [= <-]|done]. Qed.

Lemma harmlessly_ok_or {A} (o : option A) e : harmless e -> harmlessly (ok_or o e).
Proof. intros H e'. destruct o; [done|by intros [= <-]]. Qed.

Lemma harmlessly_map_err {E A} (f : E -> KnowledgeRetrievalError) (r : result E A) :
  (forall e, harmless (f e)) -> harmlessly (map_err f r).
Proof. intros H e'. destruct r; [done|]. by intros [= <-]. Qed.

Lemma harmlessly_foldR {A S} (f : S -> A -> result KnowledgeRetrievalError S) l :
  (forall s a, harmlessly (f s a)) -> forall s, harmlessly (foldR f s l).
Proof. intros Hf. induction l as [|a l IH]; intros s; cbn [foldR]; [done|]. by apply harmlessly_bind. Qed.

(** Each step of a sequence fails with an error that is not the validator's. *)
Ltac harmlessly :=
  repeat (cbv zeta; match goal with
  | |- harmlessly (_ ≫= _) => apply harmlessly_bind
  | |- harmlessly (Ok _) => apply harmlessly_ok
  | |- harmlessly (Err _) => by intros ? [= <-]
  | |- harmlessly (reject_if _ _) => apply harmlessly_reject; exact I
  | |- harmlessly (ok_or _ _) => apply harmlessly_ok_or; exact I
  | |- harmlessly (foldR _ _ _) => apply harmlessly_foldR
  | |- harmlessly (map_err _ _) => apply harmlessly_map_err; (exact (fun _ => I) || (intros []; exact I))
  | |- harmlessly (match ?x with _ => _ end) => destruct x
  | |- harmless _ => exact I
  | |- forall _, _ => intro
  end).

Section gates.
Context (sha256_hex : list Z -> str) (uuid_to_string : N -> str) (to_lowercase : char -> str).
Context (embedding_json : EmbeddingRevisionV2 -> result str (list Z)).
Context (rerank_json : RerankRevisionV2 -> result str (list Z)) (policy_json : RetrievalPolicyV2 -> result str (list Z)).
Context (read_embedding : list Z -> result str EmbeddingRevisionV2) (read_policy : list Z -> result str RetrievalPolicyV2).
Context (read_rerank : list Z -> result str RerankRevisionV2).

Lemma validate_supported_harmless reg identity : harmlessly (validate_supported_policy_v2 sha256_hex embedding_json
  rerank_json policy_json read_embedding read_policy read_rerank reg identity).
Proof. unfold validate_supported_policy_v2, check_identity_row, check_embedding_row, check_policy_row. harmlessly. Qed.

Lemma retrieval_gate_harmless registry snap schema identity text selected policy frozen :
  harmlessly (retrieval_gate sha256_hex to_lowercase embedding_json rerank_json policy_json read_embedding read_policy
    read_rerank registry snap schema identity text selected policy frozen).
Proof.
  unfold retrieval_gate, validate_request_v2, check_frozen_policy, lock_supported_policy_in_snapshot,
    lock_rerank_revision_v2, check_frozen_rerank.
  harmlessly. apply validate_supported_harmless.
Qed.

Context (keyword_score : str -> str -> option N) (vector_score : list f32 -> list f32 -> option N).
Context (graph_rows : list N -> list (N * list (option N))) (wiki_rows : list N -> list (N * Json)).
Context (parse_uuid : str -> option N) (order : gset N -> list N).

Lemma recall_gate_harmless s policy kind selected requirement :
  harmlessly (recall_gate sha256_hex uuid_to_string to_lowercase s policy kind selected requirement).
Proof.
  unfold recall_gate, check_scope, check_generations, check_bindings, sidecar_step, generation_step. harmlessly.
Qed.

Lemma read_snapshot_harmless s kind versions text policy query :
  harmlessly (read_snapshot keyword_score vector_score graph_rows wiki_rows parse_uuid order s kind versions text policy query).
Proof.
  unfold read_snapshot, keyword_ranks, vector_ranks, load_graph_refs, load_wiki_refs, load_refs, ref_step, rank_step,
    parse_graph, parse_wiki, push_ref.
  harmlessly.
Qed.

Context (parse_embedding : list Z -> result str EmbeddingBatchResponseV2) (status_text : N -> str).
Context {Value Decimal : Type}.
Context (as_number : Value -> option str) (decimal_from_str : str -> option Decimal).
Context (decimal_value : Decimal -> QArith_base.Q) (decimal_millionths : Decimal -> option N).
Context (parse_rerank_response : list Z -> result str (RerankResponseV2 Value)).
Context `{Resolver : CredentialResolver KnowledgeRetrievalError}.
Context (Hresolve : forall reference, harmlessly (resolve reference)).

Lemma status_error_harmless name status : harmless (status_error status_text name status).
Proof. unfold status_error. by destruct (_ || _). Qed.

Lemma success_body_harmless failed name reply :
  (forall m, harmless (failed m)) -> harmlessly (success_body failed (status_error status_text name) name reply).
Proof.
  intros Hf. unfold success_body. harmlessly; try (apply harmlessly_reject, status_error_harmless);
    apply harmlessly_map_err; intros; apply Hf.
Qed.

Lemma embed_harmless server text validated :
  harmlessly (embed sha256_hex embedding_json parse_embedding status_text server text validated).2.
Proof.
  unfold embed. destruct (query_credential validated) as [c|e] eqn:E; cbn [snd].
  - unfold parse_embedding_response. harmlessly. by apply success_body_harmless.
  - assert (harmlessly (query_credential validated)) as H.
    { unfold query_credential. harmlessly. }
    intros e' [= <-]. by apply H.
Qed.

Lemma apply_response_harmless bytes candidates policy revision : harmlessly (apply_response as_number decimal_from_str
  decimal_value decimal_millionths parse_rerank_response sha256_hex rerank_json bytes candidates policy revision).
Proof.
  unfold apply_response, file_scores, fill_slots, slot_step, score_of. harmlessly.
Qed.

Lemma rerank_harmless server text candidates policy revision reference :
  harmlessly (rerank_candidates sha256_hex status_text as_number decimal_from_str decimal_value decimal_millionths
    parse_rerank_response rerank_json server text candidates policy revision reference).2.
Proof.
  unfold rerank_candidates. destruct candidates as [|c cs]; [done|].
  destruct (rerank_credential _ _ _ _ _) as [credential|e] eqn:E; cbn [snd].
  - harmlessly; [by apply success_body_harmless|apply apply_response_harmless].
  - assert (harmlessly (rerank_credential sha256_hex rerank_json policy revision reference)) as H.
    { unfold rerank_credential. harmlessly. apply Hresolve. }
    intros e' [= <-]. by apply H.
Qed.
End gates.

(** The resolver of the environment. *)
Lemma environment_harmless env reference : harmlessly (EnvironmentEmbeddingCredentials env reference).
Proof. unfold EnvironmentEmbeddingCredentials. harmlessly. Qed.

(** ** Where the hits come from *)

(** Document, chunk, product, version, file name and text. *)
Definition origin : Type := N * N * N * N * str * str.

Definition row_origin (row : EvidenceRow) : option origin :=
  document ← row_document_id row; chunk ← row_source_chunk_id row; name ← row_file_name row; text ← row_content row;
  Some (document, chunk, row_product_id row, row_product_version_id row, name, text).
Definition exact_origin (c : ExactCandidateV2) : origin :=
  (e_document_id c, e_source_chunk_id c, e_product_id c, e_product_version_id c, e_display_name c, e_chunk_utf8 c).
Definition semantic_origin (c : SemanticCandidateV2) : origin :=
  (document_id c, source_chunk_id c, product_id c, product_version_id c, frozen_document_display_name c, chunk_utf8 c).
Definition hit_origin (hit : KnowledgeEvidenceHitV3) : origin :=
  (hit_document_id hit, hit_source_chunk_id hit, hit_product_id hit, hit_product_version_id hit, hit_display_name hit,
   hit_chunk_utf8 hit).

Section provenance.
Context (lower : char -> str) (sha : str -> str) (uuid : N -> str).
Context (media_rows : gmap N KnowledgeEvidenceMediaV1) (kind : str) (policy : RetrievalPolicyIdentityV1).
Context (requirement_text : str) (rows : list EvidenceRow).

Lemma candidates_from_rows needle l : forall st st',
  foldR (row_step lower uuid kind needle) st l = Ok st' ->
  forall c, c ∈ st'.2 -> c ∈ st.2 \/ exists row, row ∈ l /\ row_origin row = Some (exact_origin c).
Proof.
  induction l as [|row l IH]; intros st st'; cbn [foldR]; [intros [= <-]; by left|].
  intros (st1 & H1 & H2)%bind_Ok c [Hc|(r & Hr & E)]%(IH _ _ H2); [|right; exists r; split; [by right|done]].
  unfold row_step in H1. destruct st as [eligible candidates]. cbv zeta in H1.
  destruct (row_content row) as [text|] eqn:Et; [|injection H1 as <-; by left].
  destruct (row_document_id row) as [d|] eqn:Ed, (row_source_chunk_id row) as [k|] eqn:Ek,
    (row_file_name row) as [n|] eqn:En, (row_chunk_type row) as [t|]; try done.
  destruct (negb _); [injection H1 as <-; by left|]. apply bind_Ok in H1 as (ty & _ & [= <-]). cbn [snd] in *.
  apply elem_of_app in Hc as [Hc|Hc%list_elem_of_singleton]; [by left|right]. exists row. split; [left|].
  unfold row_origin. rewrite Ed, Ek, En, Et. by rewrite Hc.
Qed.

Lemma tail_origins l : forall st hit, hit ∈ tail_hits (foldl (tail_step kind policy) st l) ->
  hit ∈ tail_hits st \/ exists r, r ∈ l /\ hit_origin hit = semantic_origin (candidate r).
Proof.
  induction l as [|r l IH]; intros st hit; cbn [foldl]; [by left|].
  intros [H|(x & Hx & E)]%IH; [|right; exists x; split; [by right|done]].
  unfold tail_step in H. destruct (negb _); cbn [tail_hits] in H; [by left|].
  apply elem_of_app in H as [H| ->%list_elem_of_singleton]; [by left|]. right. exists r. split; [left|done].
Qed.

Lemma hydrate_all_origins l : forall l', hydrate_all media_rows l = Ok l' -> map hit_origin l' = map hit_origin l.
Proof.
  induction l as [|hit l IH]; intros l'; cbn [hydrate_all]; [by intros [= <-]|].
  intros (hit' & Hh & (rest & Hr & [= <-])%bind_Ok)%bind_Ok. cbn [map]. rewrite (IH _ Hr). f_equal.
  unfold hydrate_hit in Hh. destruct (is_image_ocr _); [|by injection Hh as <-].
  by apply bind_Ok in Hh as (m & _ & [= <-]).
Qed.

Lemma hydrate_origins l l' : hydrate_evidence_media_v3 media_rows l = Ok l' -> map hit_origin l' = map hit_origin l.
Proof. unfold hydrate_evidence_media_v3. destruct (existsb _ l); [apply hydrate_all_origins|by intros [= <-]]. Qed.

(** Every hit is of a row of the query or of a candidate of the semantic answer. *)
Lemma retrieve_v2_origins selected allow_exact_only semantic batch :
  retrieval_ok uuid media_rows kind policy rows ->
  retrieve_v2 lower sha uuid media_rows kind policy requirement_text selected allow_exact_only semantic rows = Some (Ok batch) ->
  forall hit, hit ∈ hits batch ->
    (exists row, row ∈ rows /\ row_origin row = Some (hit_origin hit))
    \/ exists reranked r, semantic = Some (Ok reranked) /\ r ∈ reranked /\ hit_origin hit = semantic_origin (candidate r).
Proof.
  intros Hok H hit Hhit. unfold retrieve_v2 in H. apply andThen_ok in H as ([eligible candidates] & Hrows & H).
  apply andThen_ok in H as (_ & _ & H). apply andThen_Ok in H as (sel & Hsel & H). cbv zeta in H.
  apply andThen_ok in H as (_ & _ & H). apply andThen_ok in H as (_ & _ & H).
  apply andThen_ok in H as ([all truncated] & Hall & H). apply andThen_ok in H as (hydrated & Hh & H).
  apply andThen_Ok in H as (_ & _ & [= <-]). cbn [hits] in Hhit. apply hydrate_origins in Hh.
  apply (list_elem_of_fmap_2 hit_origin) in Hhit. change (hit_origin <$> hydrated) with (map hit_origin hydrated) in Hhit.
  rewrite Hh in Hhit. apply list_elem_of_fmap in Hhit as (raw & -> & Hraw). clear Hh hydrated.
  assert (forall raw, raw ∈ imap (exact_candidate_hit_v2 sha kind) (sel_hits sel) ->
            exists row, row ∈ rows /\ row_origin row = Some (hit_origin raw)) as Hexact.
  { intros x (i & c & -> & Hc%list_elem_of_lookup_2)%elem_of_lookup_imap_1.
    pose proof (rows_collected_all lower uuid kind _ (rk_uuid _ _ _ _ _ Hok) rows _ (rk_rows _ _ _ _ _ Hok) Hrows) as Hco.
    assert (NoDup (map e_source_chunk_id candidates)) as Hnd by (eapply candidates_nodup; [exact Hok|exact Hco]).
    pose proof (select_outcome uuid media_rows kind policy rows Hok candidates Hnd) as Hs. rewrite Hsel in Hs.
    destruct Hs as (versions & ps & _ & Hxs).
    destruct (candidates_from_rows _ _ _ _ Hrows c) as [Hn|H']; [|by apply elem_of_nil in Hn|exact H'].
    eapply elem_of_submseteq; [exact Hc|apply Hxs]. }
  destruct semantic as [answer|]; [|injection Hall as <- _; left; by apply Hexact].
  destruct (negb _ && _); [|injection Hall as <- _; left; by apply Hexact].
  apply bind_Ok in Hall as (reranked & -> & [= <- _]). unfold append_semantic_tail_v2 in Hraw.
  apply tail_origins in Hraw as [Hraw|(r & Hr & E)]; [left; by apply Hexact|right]. by exists reranked, r.
Qed.
End provenance.

(** A text of the tables: a live chunk of an indexed document in a selected version. *)
Definition live_text (src : Sources) (kind : str) (selected : list N) (o : origin) : Prop :=
  let '(document, chunk, product, version, name, text) := o in
  in_scope src kind selected product version
  /\ exists c d, chunks src !! chunk = Some c /\ sc_content c = text /\ sc_document_id c = document
     /\ sc_product_version_id c = version /\ documents src !! document = Some d /\ sd_file_name d = name
     /\ document_live d = true /\ sd_enabled d = true /\ sd_index_ready d = true /\ sc_generation c = sd_active_generation d.

Lemma row_live_text src kind selected row o :
  row ∈ evidence_rows src kind selected -> row_origin row = Some o -> live_text src kind selected o.
Proof.
  intros [Hs Hd Hc _ _]%evidence_row_in H. unfold row_origin in H.
  apply bind_Some in H as (doc & Ed & (id & Ec & (n & En & (t & Et & [= <-])%bind_Some)%bind_Some)%bind_Some).
  destruct (Hd doc Ed) as (d & Hdoc & He & En'). destruct (Hc id Ec) as (doc' & d' & c & Ed' & Hdoc' & Hch & Hec & Et' & _).
  assert (doc' = doc) as -> by congruence. assert (d' = d) as -> by congruence.
  unfold evidence_document in He. unfold evidence_chunk in Hec. bool_to_prop. cbn [fst snd] in *.
  split; [done|]. exists c, d. rewrite En in En'. rewrite Et in Et'. repeat split; try congruence; by apply N.eqb_eq.
Qed.

(** ** The semantic answer *)

Section semantic.
Context (sha256_hex : list Z -> str) (uuid_to_string : N -> str) (to_lowercase : char -> str).
Context (embedding_json : EmbeddingRevisionV2 -> result str (list Z)).
Context (rerank_json : RerankRevisionV2 -> result str (list Z)).
Context (keyword_score : str -> str -> option N) (vector_score : list f32 -> list f32 -> option N).
Context (graph_rows : list N -> list (N * list (option N))) (wiki_rows : list N -> list (N * Json)).
Context (parse_uuid : str -> option N).
Context (order : gset N -> list N) (iter : gmap N FoldedRanks -> list (N * FoldedRanks)).
Context (parse_batch : list Z -> result str EmbeddingBatchResponseV2) (status_text : N -> str).
Context {Value Decimal : Type}.
Context (as_number : Value -> option str) (decimal_from_str : str -> option Decimal).
Context (decimal_value : Decimal -> QArith_base.Q) (decimal_millionths : Decimal -> option N).
Context (parse_rerank_response : list Z -> result str (RerankResponseV2 Value)).
Context (embedding_server : EmbeddingCall -> result str HttpResponse) (rerank_server : RerankCall -> result str HttpResponse).
Context `{Resolver : CredentialResolver KnowledgeRetrievalError}.

Context (snap : PoolSnapshot) (kind : str) (selected : list N) (requirement : str).
Notation src := (sources (ps_store snap)).
Notation digest := (recall_digest sha256_hex).
Notation needle := (normalize_exact_v2 to_lowercase requirement).
Notation rows := (evidence_rows src kind selected).
Notation recalled := (recalled sha256_hex to_lowercase (ps_store snap) selected requirement).

Lemma recalled_live c chunk :
  (list_to_set selected : gset N) = eligible_versions src kind selected -> recalled c chunk ->
  live_text src kind selected (semantic_origin c).
Proof.
  intros Hscope [Hc Hl [Hv Hsel] Hp [Hd (d & Hdoc & Hn)] [Ht _] _ _]. split.
  - split; [done|]. apply (elem_of_list_to_set (C:=gset N)) in Hsel. rewrite Hscope in Hsel.
    apply elem_of_list_to_set, elem_of_filter_b in Hsel as [_ Hm].
    destruct (product_of src _) as [[product p]|] eqn:E; [|done]. exists p. split; [|done]. unfold product_of in E.
    rewrite Hp in E. cbn in E. apply bind_Some in E as (p' & _ & [= <- <-]). done.
  - exists chunk, d. unfold is_source in Hl. rewrite Hd in Hdoc. rewrite Hdoc in Hl. bool_to_prop.
    repeat split; try done; try (by symmetry). by rewrite Hd.
Qed.

(** A recalled candidate with its number and its score fits the rows. *)
Lemma recalled_semantic_ok c chunk rank score :
  tables_ok src -> live_text src kind selected (semantic_origin c) -> recalled c chunk -> rank <> 0 -> score <= 1000000 ->
  semantic_ok digest (map row_version rows) {| candidate := set_pre_rank c rank; score_millionths := score |}.
Proof.
  intros [Tv Td Tc] [Hs _] [Hc Hl [Hv Hsel] Hp [Hd (d & Hdoc & Hn)] (Ht & Hsha & Hlen) _ _] Hr Hscore.
  apply Tv in Hp as [Hp1 Hp2]. apply Tc in Hc. apply Td in Hdoc as [Hd1 Hd2].
  split; cbn [candidate set_pre_rank score_millionths document_id source_chunk_id product_id product_version_id
    frozen_document_display_name chunk_byte_length chunk_utf8 chunk_sha256 pre_rerank_rrf_rank]; try done.
  - by rewrite Hn.
  - by rewrite Ht.
  - by rewrite Ht.
  - by apply evidence_row_exists.
Qed.

(** No row whose text contains the requirement is of the chunk of a recalled candidate. *)
Lemma recalled_not_exact c chunk row text :
  recalled c chunk -> row ∈ rows -> row_content row = Some text ->
  contains (normalize_exact_v2 to_lowercase text) needle = true -> row_source_chunk_id row <> Some (source_chunk_id c).
Proof.
  intros [Hc _ _ _ _ _ _ Hnew] Hrow%evidence_row_in Ht Hcon E.
  destruct (er_chunk _ _ _ _ Hrow _ E) as (doc & d & c' & _ & _ & Hc' & _ & Ht' & _).
  rewrite Hc in Hc'. injection Hc' as <-. congruence.
Qed.

(** The numbered candidates. *)
Notation numbered all := (imap (fun i c => set_pre_rank c (N.of_nat i + 1)) all).

Lemma numbered_in all c : c ∈ numbered all -> exists i x, c = set_pre_rank x (N.of_nat i + 1) /\ x ∈ all.
Proof. intros (i & x & -> & Hx%list_elem_of_lookup_2)%elem_of_lookup_imap_1. by exists i, x. Qed.

Lemma numbered_ids all : map source_chunk_id (numbered all) = map source_chunk_id all.
Proof. apply list_eq. intros i. rewrite !list_lookup_fmap, list_lookup_imap. by destruct (_ !! i). Qed.

Lemma numbered_ranks all : NoDup (map pre_rerank_rrf_rank (numbered all)).
Proof.
  apply NoDup_alt. intros i j n. rewrite !list_lookup_fmap, !list_lookup_imap.
  destruct (all !! i); [|done]. destruct (all !! j); [|done]. cbn. intros [= <-] [= H]. lia.
Qed.

(** The reranked candidates of a recall fit the rows of the query. *)
Lemma reranked_fits all ss : tables_ok src ->
  (list_to_set selected : gset N) = eligible_versions src kind selected ->
  NoDup (map source_chunk_id all) -> Forall (fun c => exists chunk, recalled c chunk) all ->
  length ss = length (numbered all) -> Forall (fun s => s <= 1000000) ss ->
  let out := sort_with compare_reranked
    (zip_with (fun c s => {| candidate := c; score_millionths := s |}) (numbered all) ss) in
  reranked_ok to_lowercase digest requirement rows out
  /\ Forall (fun r => live_text src kind selected (semantic_origin (candidate r))) out.
Proof.
  intros Ht Hscope Hnd Hall Hl Hss out. destruct (filed_out _ _ Hl) as [Hperm Hsorted]. fold out in Hperm, Hsorted.
  assert (forall r, r ∈ out -> exists x i s chunk, x ∈ all /\ recalled x chunk /\ s <= 1000000
            /\ r = {| candidate := set_pre_rank x (N.of_nat i + 1); score_millionths := s |}) as Hin.
  { intros r. unfold out. rewrite sort_with_perm. intros (i & Hr)%list_elem_of_lookup. rewrite lookup_zip_with in Hr.
    destruct (numbered all !! i) as [c|] eqn:Ec; [|done]. destruct (ss !! i) as [s|] eqn:Es; [|done]. injection Hr as <-.
    apply list_elem_of_lookup_2, numbered_in in Ec as (j & x & -> & Hx). rewrite Forall_forall in Hall.
    destruct (Hall x Hx) as [chunk Hc]. exists x, j, s, chunk. rewrite Forall_forall in Hss.
    do 2 (split; [done|]). split; [by eapply Hss, list_elem_of_lookup_2|done]. }
  split; [split|].
  - apply Forall_forall. intros r (x & i & s & chunk & _ & Hx & Hs & ->)%Hin.
    eapply recalled_semantic_ok; [done|by apply (recalled_live x chunk)|exact Hx|lia|done].
  - exact Hsorted.
  - rewrite <- (map_map candidate source_chunk_id), Hperm, numbered_ids. exact Hnd.
  - rewrite <- (map_map candidate pre_rerank_rrf_rank), Hperm. apply numbered_ranks.
  - intros r row text (x & i & s & chunk & _ & Hx & _ & ->)%Hin. by apply (recalled_not_exact x chunk row text).
  - apply Forall_forall. intros r (x & i & s & chunk & _ & Hx & _ & ->)%Hin. by apply (recalled_live x chunk).
Qed.

Notation answer_of validated revision reference := (semantic_answer sha256_hex uuid_to_string to_lowercase embedding_json
  rerank_json keyword_score vector_score graph_rows wiki_rows parse_uuid order iter parse_batch status_text as_number
  decimal_from_str decimal_value decimal_millionths parse_rerank_response embedding_server rerank_server snap kind selected
  requirement validated revision reference).

(** A call the runtime may make: under the credential of its reference, over https to the endpoint of
    its revision; to the reranker go only live texts of the selected versions. *)
Definition permitted (validated : ValidatedSemanticPolicyV2) (revision : RerankRevisionV2) (reference : str)
    (call : ProviderCall) : Prop :=
  match call with
  | ToEmbedding c => exists credential, resolve (v_credential_ref validated) = Ok credential /\ credential <> []
      /\ starts_with (em_endpoint_identity (v_revision validated)) HTTPS = true
      /\ c = query_call requirement (v_revision validated) credential
  | ToRerank c => exists credential cs, resolve reference = Ok credential /\ credential <> []
      /\ starts_with (rr_endpoint_identity revision) HTTPS = true
      /\ c = rerank_call requirement cs (v_policy validated) revision credential
      /\ Forall (fun c => live_text src kind selected (semantic_origin c)) cs
  end.

Lemma rerank_fits cs all policy revision reference calls answer :
  decimal_law decimal_value decimal_millionths -> tables_ok src ->
  (list_to_set selected : gset N) = eligible_versions src kind selected ->
  NoDup (map source_chunk_id all) -> Forall (fun c => exists chunk, recalled c chunk) all -> cs = numbered all ->
  rerank_candidates sha256_hex status_text as_number decimal_from_str decimal_value decimal_millionths
    parse_rerank_response rerank_json rerank_server requirement cs policy revision reference = (calls, answer) ->
  forall out, answer = Ok out -> reranked_ok to_lowercase digest requirement rows out
    /\ Forall (fun r => live_text src kind selected (semantic_origin (candidate r))) out.
Proof.
  intros Hlaw Ht Hscope Hnd Hall -> H out ->.
  apply (rerank_exact sha256_hex parse_batch) in H as [(E & _ & [= ->])|[(_ & e & [=])|(credential & _ & _ & _ & _ & _ & H)]].
  - split; [split; cbn; try constructor; set_solver|constructor].
  - destruct (proj1 (H out) eq_refl) as (response & bytes & _ & _ & _ & Ha).
    apply apply_response_filed in Ha as (_ & ss & _ & _ & Hl & _ & Hs & ->). apply reranked_fits; try done.
    apply Forall_lookup. intros i s (v & Hv)%Hs. by eapply score_of_bound.
Qed.

(** The texts of the numbered candidates are live. *)
Lemma numbered_live all : (list_to_set selected : gset N) = eligible_versions src kind selected ->
  Forall (fun c => exists chunk, recalled c chunk) all ->
  Forall (fun c => live_text src kind selected (semantic_origin c)) (numbered all).
Proof.
  intros Hscope Hall. apply Forall_forall. intros c (i & x & -> & Hx)%numbered_in. rewrite Forall_forall in Hall.
  destruct (Hall x Hx) as [chunk Hc]. by apply (recalled_live x chunk).
Qed.

Lemma folded_numbered k v g w all n policy query :
  folded_candidates sha256_hex to_lowercase keyword_score vector_score order (ps_store snap) policy kind selected requirement
    query k v g w all ->
  NoDup (map source_chunk_id (take n all)) /\ Forall (fun c => exists chunk, recalled c chunk) (take n all).
Proof.
  intros [Hnd _ Hr _ _ _ _ _]. split; [|by apply Forall_take]. change map with (@fmap list list_fmap). rewrite fmap_take.
  eapply sublist_NoDup; [exact Hnd|apply sublist_take].
Qed.

Section answer.
Context (validated : ValidatedSemanticPolicyV2) (revision : RerankRevisionV2) (reference : str).
Context (Hpol : validate_policy (v_policy validated) = Ok tt).
Context (Ho : forall m, order m ≡ₚ elements m) (Hi : forall m, iter m ≡ₚ map_to_list m).

Lemma answer_permitted : Forall (permitted validated revision reference) (answer_of validated revision reference).1.
Proof.
  unfold semantic_answer. destruct (embed _ _ _ _ _ _ _) as [calls embedded] eqn:Ee.
  assert (Forall (permitted validated revision reference) (map ToEmbedding calls)) as Hlog.
  { apply embed_exact in Ee as [(-> & _)|(c & Hc & Hne & Hs & -> & _)]; [constructor|].
    apply Forall_singleton. by exists c. }
  destruct (query ← embedded; _) as [query|e]; [|done].
  destruct (recall_cases sha256_hex uuid_to_string to_lowercase keyword_score vector_score graph_rows wiki_rows parse_uuid
    order iter (ps_store snap) (v_policy validated) kind selected requirement query Hpol Ho Hi)
    as [(e & _ & ->)|[(e & _ & _ & ->)|(k & v & g & w & all & Hg & _ & -> & Hf)]]; [done..|].
  apply recall_gate_passed in Hg as [Hscope _].
  eapply folded_numbered in Hf as [_ Hr]. set (cs := numbered _). destruct cs as [|c cs'] eqn:Ecs; [done|]. rewrite <- Ecs.
  destruct (rerank_candidates _ _ _ _ _ _ _ _ _ _ _ _ _ _) as [rcalls answer] eqn:Er. cbn [fst].
  apply Forall_app. split; [done|].
  apply (rerank_exact sha256_hex parse_batch) in Er as [(_ & -> & _)|[(-> & _)|(credential & Hc & Hne & Hs & _ & -> & _)]]; [constructor..|].
  apply Forall_singleton. exists credential, cs. do 4 (split; [done|]). by apply numbered_live.
Qed.

Lemma answer_fits : decimal_law decimal_value decimal_millionths -> tables_ok src ->
  (forall r, harmlessly (resolve r)) ->
  exists answer, (answer_of validated revision reference).2 = Some answer /\ harmlessly answer
    /\ forall reranked, answer = Ok reranked -> reranked_ok to_lowercase digest requirement rows reranked
         /\ Forall (fun r => live_text src kind selected (semantic_origin (candidate r))) reranked.
Proof.
  intros Hlaw Ht Hres. unfold semantic_answer.
  pose proof (embed_harmless sha256_hex embedding_json parse_batch status_text embedding_server requirement validated) as He.
  destruct (embed _ _ _ _ _ _ _) as [calls embedded]. cbn [snd] in He.
  destruct (query ← embedded; _) as [query|e] eqn:Eq.
  2: { exists (Err e). split; [done|]. split; [|done]. intros e' [= <-]. revert e Eq.
       change (harmlessly (query ← embedded; _ ← validate_query_embedding query (v_policy validated); Ok query)).
       unfold validate_query_embedding, validate_query_embedding_values. by harmlessly. }
  clear Eq He.
  destruct (recall_cases sha256_hex uuid_to_string to_lowercase keyword_score vector_score graph_rows wiki_rows parse_uuid
    order iter (ps_store snap) (v_policy validated) kind selected requirement query Hpol Ho Hi)
    as [(e & Hg & ->)|[(e & _ & Hr & ->)|(k & v & g & w & all & Hg & _ & -> & Hf)]].
  - exists (Err e). split; [done|]. split; [|done]. intros e' [= <-]. by eapply recall_gate_harmless.
  - exists (Err e). split; [done|]. split; [|done]. intros e' [= <-]. by eapply read_snapshot_harmless.
  - apply recall_gate_passed in Hg as [Hscope _]. eapply folded_numbered in Hf as [Hnd Hr].
    set (cs := numbered _). destruct cs as [|c cs'] eqn:Ecs.
    { exists (Ok []). do 2 (split; [done|]). intros reranked [= <-]. split; [split; cbn; try constructor; set_solver|constructor]. }
    rewrite <- Ecs. pose proof (rerank_harmless sha256_hex rerank_json status_text as_number decimal_from_str decimal_value
      decimal_millionths parse_rerank_response Hres rerank_server requirement cs (v_policy validated) revision reference) as Hh.
    destruct (rerank_candidates _ _ _ _ _ _ _ _ _ _ _ _ _ _) as [rcalls answer] eqn:Er. cbn [snd] in *.
    exists answer. do 2 (split; [done|]). by eapply (rerank_fits cs).
Qed.
End answer.
End semantic.

(** ** The gate *)

Section gate.
Context (sha256_hex : list Z -> str) (to_lowercase : char -> str).
Context (embedding_json : EmbeddingRevisionV2 -> result str (list Z)).
Context (rerank_json : RerankRevisionV2 -> result str (list Z)) (policy_json : RetrievalPolicyV2 -> result str (list Z)).
Context (read_embedding : list Z -> result str EmbeddingRevisionV2) (read_policy : list Z -> result str RetrievalPolicyV2).
Context (read_rerank : list Z -> result str RerankRevisionV2).

Notation embedding_bytes := (embedding_canonical_bytes embedding_json).
Notation policy_bytes := (policy_canonical_bytes policy_json).
Notation rerank_bytes := (rerank_canonical_bytes rerank_json).

(** The artifacts of a retrieval are the frozen ones. *)
Record is_frozen (f : FrozenRetrievalPolicyIdentityV1) (validated : ValidatedSemanticPolicyV2) (revision : RerankRevisionV2)
    (reference : str) : Prop := {
  if_policy : policy_bytes (v_policy validated) = Ok (as_bytes (canonical_policy_utf8 f));
  if_embedding : embedding_bytes (v_revision validated) = Ok (as_bytes (canonical_embedding_revision_utf8 f));
  if_embedding_ref : v_credential_ref validated = embedding_credential_ref f;
  if_rerank : rerank_bytes revision = Ok (as_bytes (canonical_rerank_revision_utf8 f));
  if_rerank_ref : reference = rerank_credential_ref f;
}.

(** A request within the bounds of the contract. *)
Definition within_contract (policy : RetrievalPolicyIdentityV1) : Prop :=
  contract_version policy = KNOWLEDGE_EVIDENCE_CONTRACT_V2
  /\ (0 < max_hits policy /\ u32_number (max_hits policy))
  /\ 0 < max_chunk_bytes policy /\ (0 < max_total_bytes policy /\ max_total_bytes policy < u64_modulus).

Lemma validate_request_within schema identity text selected policy u :
  validate_request_v2 to_lowercase schema identity text selected policy = Ok u -> within_contract policy.
Proof.
  unfold validate_request_v2, V2_MAX_HITS, V2_MAX_CHUNK_BYTES, V2_MAX_TOTAL_BYTES. intros H%reject_if_Ok.
  rewrite !orb_false_iff, !negb_false_iff, !N.ltb_ge, !N.eqb_neq in H.
  destruct H as (((((((((((_ & Hc) & _) & _) & _) & H1) & H2) & H3) & H4) & H5) & H6) & _).
  apply str_eqb_spec in Hc. unfold within_contract, u32_number, u64_modulus. split; [done|]. lia.
Qed.

Lemma ok_is_spec {E A} `{EqDecision A} (r : result E A) x : ok_is r x = true <-> r = Ok x.
Proof. unfold ok_is. destruct r; [rewrite bool_decide_eq_true; naive_solver|naive_solver]. Qed.

Lemma validated_policy reg identity validated : validate_supported_policy_v2 sha256_hex embedding_json rerank_json policy_json
    read_embedding read_policy read_rerank reg identity = Ok validated -> validate_policy (v_policy validated) = Ok tt.
Proof.
  unfold validate_supported_policy_v2. intros ([[p e] r] & _ & (? & _ & (? & _ & (? & _ & H)%bind_Ok)%bind_Ok)%bind_Ok)%bind_Ok.
  apply bind_Ok in H as (artifact & H & (? & _ & (? & _ & [= <-])%bind_Ok)%bind_Ok). cbn [v_policy]. unfold check_policy_row in H.
  apply bind_Ok in H as (a & _ & ([] & Hv%map_err_Ok & (? & _ & (? & _ & (? & _ & (? & _ & [= <-])%bind_Ok)%bind_Ok)%bind_Ok)%bind_Ok)%bind_Ok).
  exact Hv.
Qed.

Lemma check_frozen_spec f validated revision reference u u' :
  check_frozen_policy embedding_json policy_json (Some f) validated = Ok u ->
  check_frozen_rerank rerank_json (Some f) revision reference = Ok u' -> is_frozen f validated revision reference.
Proof.
  unfold check_frozen_policy, check_frozen_rerank. intros H%reject_if_Ok H'%reject_if_Ok.
  rewrite !orb_false_iff, !negb_false_iff, !ok_is_spec, !str_eqb_spec in *. destruct H as [[H1 H2] H3], H' as [H4 H5]. by split.
Qed.

Lemma gate_passed registry snap schema identity text selected policy frozen validated revision reference :
  retrieval_gate sha256_hex to_lowercase embedding_json rerank_json policy_json read_embedding read_policy read_rerank
    registry snap schema identity text selected policy frozen = Ok (validated, revision, reference) ->
  within_contract policy /\ validate_policy (v_policy validated) = Ok tt
  /\ forall f, frozen = Some f -> is_frozen f validated revision reference.
Proof.
  unfold retrieval_gate. intros (u & Hreq%validate_request_within & (v & Hv%validated_policy & (u1 & Hf & H)%bind_Ok)%bind_Ok)%bind_Ok.
  apply bind_Ok in H as (u2 & _ & ([r c] & _ & (u3 & Hr & [= <- <- <-])%bind_Ok)%bind_Ok).
  split; [done|]. split; [done|]. intros f ->. by eapply check_frozen_spec.
Qed.
End gate.

(** ** The retrieval *)

Definition scope_kind (scope : KnowledgeEvidenceScopeV2) : str :=
  match scope with ProductLine _ => PRODUCT_LINE | Company _ => COMPANY end.
Definition scope_versions (scope : KnowledgeEvidenceScopeV2) : list N :=
  match scope with ProductLine r => pe_product_version_ids r | Company r => ce_library_version_ids r end.
Definition scope_policy (scope : KnowledgeEvidenceScopeV2) : RetrievalPolicyIdentityV1 :=
  match scope with ProductLine r => pe_retrieval_policy r | Company r => ce_retrieval_policy r end.
Definition scope_text (scope : KnowledgeEvidenceScopeV2) : str :=
  match scope with ProductLine r => pe_requirement_text r | Company r => ce_requirement_text r end.

Lemma scope_kind_known scope : scope_kind scope ∈ WORKSPACE_KINDS.
Proof. destruct scope; [left|right; left]. Qed.

(** The versions a frozen identity admits for a scope. *)
Definition frozen_versions (frozen : FrozenRetrievalPolicyIdentityV1) (scope : KnowledgeEvidenceScopeV2) : list N :=
  match scope with ProductLine _ => fz_product_version_ids frozen | Company _ => fz_library_version_ids frozen end.

Section retrieval.
Context (sha256_hex : list Z -> str) (uuid_to_string : N -> str) (to_lowercase : char -> str).
Context (embedding_json : EmbeddingRevisionV2 -> result str (list Z)).
Context (rerank_json : RerankRevisionV2 -> result str (list Z)) (policy_json : RetrievalPolicyV2 -> result str (list Z)).
Context (read_embedding : list Z -> result str EmbeddingRevisionV2) (read_policy : list Z -> result str RetrievalPolicyV2).
Context (read_rerank : list Z -> result str RerankRevisionV2).
Context (keyword_score : str -> str -> option N) (vector_score : list f32 -> list f32 -> option N).
Context (graph_rows : list N -> list (N * list (option N))) (wiki_rows : list N -> list (N * Json)).
Context (parse_uuid : str -> option N).
Context (order : gset N -> list N) (iter : gmap N FoldedRanks -> list (N * FoldedRanks)).
Context (parse_batch : list Z -> result str EmbeddingBatchResponseV2) (status_text : N -> str).
Context {Value Decimal : Type}.
Context (as_number : Value -> option str) (decimal_from_str : str -> option Decimal).
Context (decimal_value : Decimal -> QArith_base.Q) (decimal_millionths : Decimal -> option N).
Context (parse_rerank_response : list Z -> result str (RerankResponseV2 Value)).
Context (embedding_server : EmbeddingCall -> result str HttpResponse) (rerank_server : RerankCall -> result str HttpResponse).
Context `{Resolver : CredentialResolver KnowledgeRetrievalError}.
Context (semantic_runtime allow_exact_only : bool).
Context (registry : Registry) (snap : PoolSnapshot).
Context (Ho : forall m, order m ≡ₚ elements m) (Hi : forall m, iter m ≡ₚ map_to_list m).

Notation src := (sources (ps_store snap)).
Notation digest := (recall_digest sha256_hex).
Notation retrieve := (retrieve_v2_in sha256_hex uuid_to_string to_lowercase embedding_json rerank_json policy_json
  read_embedding read_policy read_rerank keyword_score vector_score graph_rows wiki_rows parse_uuid order iter parse_batch
  status_text as_number decimal_from_str decimal_value decimal_millionths parse_rerank_response embedding_server rerank_server
  semantic_runtime allow_exact_only registry snap).

(** What a retrieval takes from its surroundings. *)
Record surroundings_ok : Prop := {
  su_tables : tables_ok src;
  su_media : forall id m, ps_media snap !! id = Some m -> media_row_ok m;
  su_uuid : forall id, uuid_to_string id <> [];
  su_decimal : decimal_law decimal_value decimal_millionths;
  su_resolver : forall r, harmlessly (resolve r);
}.

(** A batch its validator accepts, of live texts; or an error that is not the validator's. *)
Definition good_answer (kind : str) (selected : list N) (policy : RetrievalPolicyIdentityV1)
    (answer : option (result KnowledgeRetrievalError KnowledgeEvidenceBatchV3)) : Prop :=
  match answer with
  | Some (Ok batch) => evidence_ok digest kind policy batch
      /\ forall hit, hit ∈ hits batch -> live_text src kind selected (hit_origin hit)
  | Some (Err e) => forall m, e <> InvalidHit m
  | None => False
  end.

Lemma harmless_not_hit e : harmless e -> forall m, e <> InvalidHit m.
Proof. by intros H m ->. Qed.

Section one.
Context (Hsu : surroundings_ok) (kind : str) (Hkind : kind ∈ WORKSPACE_KINDS) (policy : RetrievalPolicyIdentityV1).
Context (Hcontract : within_contract policy) (selected : list N) (text : str).
Notation rows := (evidence_rows src kind selected).

Lemma surroundings_retrieval_ok : retrieval_ok uuid_to_string (ps_media snap) kind policy rows.
Proof.
  destruct Hcontract as (H1 & H2 & H3). split; try done; try apply Hsu.
  - by apply evidence_rows_ok, Hsu.
  - apply evidence_chunks_nodup.
Qed.

Lemma finished_good semantic :
  (forall answer, semantic = Some answer -> harmlessly answer
     /\ forall reranked, answer = Ok reranked -> reranked_ok to_lowercase digest text rows reranked
          /\ Forall (fun r => live_text src kind selected (semantic_origin (candidate r))) reranked) ->
  good_answer kind selected policy (retrieve_v2 to_lowercase digest uuid_to_string (ps_media snap) kind policy text selected
    allow_exact_only semantic rows).
Proof.
  intros Hsem. pose proof surroundings_retrieval_ok as Hok.
  pose proof (retrieve_outcome to_lowercase digest uuid_to_string (ps_media snap) kind policy text rows Hok selected
    allow_exact_only semantic) as H.
  pose proof (retrieve_v2_origins to_lowercase digest uuid_to_string (ps_media snap) kind policy text rows selected
    allow_exact_only semantic) as Horigin.
  destruct (retrieve_v2 _ _ _ _ _ _ _ _ _ _ _) as [[batch|e]|]; cbn [outcome good_answer] in *.
  - split. { apply H; [intros r E; by eapply Hsem|intros e E; by eapply Hsem]. }
    intros hit Hhit. destruct (Horigin batch Hok eq_refl hit Hhit) as [(row & Hrow & E)|(reranked & r & E & Hr & ->)].
    + by eapply row_live_text.
    + destruct (proj2 (Hsem _ E) _ eq_refl) as [_ Hl]. rewrite Forall_forall in Hl. by apply Hl.
  - apply harmless_not_hit, H; [intros r E; by eapply Hsem|intros e' E; by eapply Hsem].
  - apply H; [intros r E; by eapply Hsem|intros e' E; by eapply Hsem].
Qed.
End one.

Lemma retrieve_good schema identity kind selected text policy frozen :
  surroundings_ok -> kind ∈ WORKSPACE_KINDS ->
  good_answer kind selected policy (retrieve kind schema identity text selected policy frozen).2.
Proof.
  intros Hsu Hkind. unfold retrieve_v2_in.
  destruct (retrieval_gate _ _ _ _ _ _ _ _ _ _ _ _ _ _ _ _) as [[[validated revision] reference]|e] eqn:Eg.
  2: { cbn [snd good_answer]. apply harmless_not_hit. by apply retrieval_gate_harmless in Eg. }
  apply gate_passed in Eg as (Hc & Hpol & _). cbv zeta.
  destruct semantic_runtime; cbn [negb]; [|by apply finished_good].
  destruct (asks_runtime _ _ _ _ _ _ _).
  - destruct (answer_fits sha256_hex uuid_to_string to_lowercase embedding_json rerank_json keyword_score vector_score
      graph_rows wiki_rows parse_uuid order iter parse_batch status_text as_number decimal_from_str decimal_value
      decimal_millionths parse_rerank_response embedding_server rerank_server snap kind selected text validated revision
      reference Hpol Ho Hi) as (answer & Ha & Hh & Hf); [apply Hsu..|].
    destruct (semantic_answer _ _ _ _ _ _ _ _ _ _ _ _ _ _ _ _ _ _ _ _ _ _ _ _ _ _ _ _) as [log answer']. cbn [snd] in Ha.
    subst answer'. cbn [mbind option_bind snd]. apply finished_good; try done. by intros answer' [= <-].
  - apply finished_good; try done. intros answer [= <-]. split; [done|]. intros reranked [= <-].
    split; [split; cbn; try constructor; set_solver|constructor].
Qed.

(** Every call of a retrieval is permitted. *)
Lemma retrieve_permitted schema identity kind selected text policy frozen :
  (retrieve kind schema identity text selected policy frozen).1 = []
  \/ exists validated revision reference,
       (forall f, frozen = Some f -> is_frozen embedding_json rerank_json policy_json f validated revision reference)
       /\ Forall (permitted snap kind selected text validated revision reference)
            (retrieve kind schema identity text selected policy frozen).1.
Proof.
  unfold retrieve_v2_in. destruct (retrieval_gate _ _ _ _ _ _ _ _ _ _ _ _ _ _ _ _) as [[[validated revision] reference]|e] eqn:Eg;
    [|by left].
  apply gate_passed in Eg as (_ & Hpol & Hf). cbv zeta. destruct semantic_runtime; cbn [negb]; [|by left].
  destruct (asks_runtime _ _ _ _ _ _ _); [|by left]. right. exists validated, revision, reference. split; [exact Hf|].
  pose proof (answer_permitted sha256_hex uuid_to_string to_lowercase embedding_json rerank_json keyword_score vector_score
    graph_rows wiki_rows parse_uuid order iter parse_batch status_text as_number decimal_from_str decimal_value
    decimal_millionths parse_rerank_response embedding_server rerank_server snap kind selected text validated revision
    reference Hpol Ho Hi) as H.
  by destruct (semantic_answer _ _ _ _ _ _ _ _ _ _ _ _ _ _ _ _ _ _ _ _ _ _ _ _ _ _ _ _) as [log answer].
Qed.

Context (parse_policy : str -> result str RetrievalPolicyV2) (parse_embedding : str -> result str EmbeddingRevisionV2).
Context (parse_rerank : str -> result str RerankRevisionV2) (scope_jcs : list N -> list N -> result str (list Z)).
Context (parse_frozen : list Z -> result str FrozenRetrievalPolicyIdentityV1).
Context (frozen_jcs : FrozenRetrievalPolicyIdentityV1 -> result str (list Z)).

Notation retrieve_scope := (retrieve_evidence_v3 sha256_hex uuid_to_string to_lowercase embedding_json rerank_json policy_json
  read_embedding read_policy read_rerank keyword_score vector_score graph_rows wiki_rows parse_uuid order iter parse_batch
  status_text as_number decimal_from_str decimal_value decimal_millionths parse_rerank_response embedding_server rerank_server
  semantic_runtime allow_exact_only registry snap).
Notation retrieve_frozen := (retrieve_frozen_evidence_v3 sha256_hex uuid_to_string to_lowercase embedding_json rerank_json
  policy_json read_embedding read_policy read_rerank keyword_score vector_score graph_rows wiki_rows parse_uuid order iter
  parse_batch status_text as_number decimal_from_str decimal_value decimal_millionths parse_rerank_response embedding_server
  rerank_server semantic_runtime allow_exact_only parse_policy parse_embedding parse_rerank scope_jcs parse_frozen frozen_jcs
  registry snap).

(** A frozen retrieval runs within the identity, or makes no call and fails. *)
Lemma retrieve_frozen_cases frozen scope :
  (exists e, retrieve_frozen frozen scope = ([], Some (Err e)) /\ harmless e)
  \/ (scope_versions scope = frozen_versions frozen scope
      /\ exists schema identity, retrieve_frozen frozen scope
           = retrieve (scope_kind scope) schema identity (scope_text scope) (scope_versions scope) (scope_policy scope) (Some frozen)).
Proof.
  unfold retrieve_frozen_evidence_v3. destruct (frozen_gate _ _ _ _ _ _ _ _ _ _ _) as [policy|e] eqn:Eg.
  - destruct scope as [r|r]; cbn [scope_versions frozen_versions scope_kind scope_text scope_policy];
      (destruct (bool_decide (_ r = _ frozen)) eqn:E1; [apply bool_decide_eq_true in E1|left; by eexists]);
      (destruct (bool_decide (_ r = policy)) eqn:E2; [apply bool_decide_eq_true in E2|left; by eexists]);
      right; (split; [exact E1|]); rewrite E2; by eexists _, _.
  - left. exists e. split; [done|]. revert e Eg. change (harmlessly (frozen_gate sha256_hex embedding_json rerank_json
      policy_json parse_policy parse_embedding parse_rerank scope_jcs parse_frozen frozen_jcs frozen)).
    unfold frozen_gate. harmlessly. apply harmlessly_map_err. intros m. unfold frozen_error. by destruct (starts_with _ _).
Qed.

(** C4: A retrieval of evidence, with or without a frozen identity, from the registry, the tables
    and the providers to its answer.  Whatever the providers reply, on tables without nil
    identifiers it never panics and never reports an invalid hit: it returns an error of the
    request, the policy, the quotas or the data, or a batch that meets the specification of its
    validator.  Every hit of such a batch, exact or semantic, quotes a live chunk: of an
    enabled, indexed document, in its active generation, in a selected version of a product of
    the scope, with its text, document, product and file name. *)
Theorem retrieval_answers_live : surroundings_ok ->
  (forall scope, good_answer (scope_kind scope) (scope_versions scope) (scope_policy scope) (retrieve_scope scope).2)
  /\ (forall frozen scope,
        good_answer (scope_kind scope) (scope_versions scope) (scope_policy scope) (retrieve_frozen frozen scope).2).
Proof.
  intros Hsu. split.
  - intros scope. unfold retrieve_evidence_v3. destruct scope as [r|r]; apply retrieve_good; try done;
      [apply (scope_kind_known (ProductLine r))|apply (scope_kind_known (Company r))].
  - intros frozen scope. destruct (retrieve_frozen_cases frozen scope) as [(e & -> & He)|(_ & schema & identity & ->)].
    + cbn [snd good_answer]. by apply harmless_not_hit.
    + apply retrieve_good; [done|apply scope_kind_known].
Qed.

(** C5: What leaves the program in a retrieval with a frozen identity.  A call goes over https to
    the endpoint of an embedding or rerank revision whose canonical bytes are the frozen ones,
    with the credential its frozen reference resolves to; the only text an embedding call carries
    is the requirement; and the texts a rerank call carries besides it are live chunks of
    versions the identity names. *)
Theorem frozen_calls_bounded frozen scope :
  Forall (fun call => match call with
    | ToEmbedding c => exists revision credential,
        embedding_canonical_bytes embedding_json revision = Ok (as_bytes (canonical_embedding_revision_utf8 frozen))
        /\ resolve (embedding_credential_ref frozen) = Ok credential /\ credential <> []
        /\ starts_with (em_endpoint_identity revision) HTTPS = true
        /\ c = query_call (scope_text scope) revision credential
    | ToRerank c => exists policy revision credential cs,
        policy_canonical_bytes policy_json policy = Ok (as_bytes (canonical_policy_utf8 frozen))
        /\ rerank_canonical_bytes rerank_json revision = Ok (as_bytes (canonical_rerank_revision_utf8 frozen))
        /\ resolve (rerank_credential_ref frozen) = Ok credential /\ credential <> []
        /\ starts_with (rr_endpoint_identity revision) HTTPS = true
        /\ c = rerank_call (scope_text scope) cs policy revision credential
        /\ Forall (fun c => live_text src (scope_kind scope) (frozen_versions frozen scope) (semantic_origin c)) cs
    end) (retrieve_frozen frozen scope).1.
Proof.
  destruct (retrieve_frozen_cases frozen scope) as [(e & -> & _)|(<- & schema & identity & ->)]; [constructor|].
  destruct (retrieve_permitted schema identity (scope_kind scope) (scope_versions scope) (scope_text scope) (scope_policy scope)
    (Some frozen)) as [->|(validated & revision & reference & Hf & H)]; [constructor|].
  destruct (Hf frozen eq_refl) as [Hp Hem Her Hr Hrr]. eapply Forall_impl; [exact H|]. intros [c|c]; cbn [permitted].
  - rewrite Her. intros (credential & H1 & H2 & H3 & ->). by exists (v_revision validated), credential.
  - rewrite Hrr. intros (credential & cs & H1 & H2 & H3 & -> & H4). by exists (v_policy validated), revision, credential, cs.
Qed.
End retrieval.

(** ** A concrete retrieval *)

Definition demo_policy_sha : str := replicate 64 48%Z.
Definition demo_request : RetrievalPolicyIdentityV1 := {|
  contract_version := KNOWLEDGE_EVIDENCE_CONTRACT_V2; policy_sha256 := demo_policy_sha; max_hits := 20;
  max_chunk_bytes := 65536; max_total_bytes := 1048576;
|}.
Definition demo_registry : Registry := {|
  rg_policies := {[demo_policy_sha := {| py_canonical_policy_payload := demo_policy_sha;
    py_embedding_revision_sha256 := demo_sha; py_rerank_revision_sha256 := replicate 64 98%Z;
    py_contract_version := KNOWLEDGE_EVIDENCE_CONTRACT_V2; py_max_hits := 20; py_max_chunk_bytes := 65536;
    py_max_total_bytes := 1048576; py_supported := true |}]};
  rg_embeddings := {[demo_sha := {| ew_canonical_revision_payload := demo_sha; ew_schema_version := 2;
    ew_provider_protocol_version := em_provider_protocol_version demo_embedding_revision;
    ew_provider_model_identifier := em_provider_model_identifier demo_embedding_revision;
    ew_provider_model_revision_sha256 := em_provider_model_revision_sha256 demo_embedding_revision;
    ew_endpoint_config_sha256 := em_endpoint_config_sha256 demo_embedding_revision;
    ew_endpoint_identity := em_endpoint_identity demo_embedding_revision; ew_dimension := 1024;
    ew_request_config_sha256 := em_request_config_sha256 demo_embedding_revision;
    ew_output_normalization_version := em_output_normalization_version demo_embedding_revision;
    ew_credential_ref := u8"env:EMBED_KEY"; ew_supported := true |}]};
  rg_rerankers := {[replicate 64 98%Z := {| rw_canonical_revision_payload := replicate 64 98%Z;
    rw_credential_ref := u8"env:RERANK_KEY"; rw_supported := true |}]};
|}.
Definition demo_snapshot : PoolSnapshot := {| ps_registry := demo_registry; ps_store := demo_published; ps_media := ∅ |}.

(** The identity of [PolicyFacts] for the version 20 and the artifacts of the registry. *)
Definition demo_identity_frozen : FrozenRetrievalPolicyIdentityV1 := {|
  fz_schema_version := 1; fz_policy_sha256 := demo_policy_sha; canonical_policy_utf8 := demo_policy_sha;
  fz_contract_version := KNOWLEDGE_EVIDENCE_CONTRACT_V2; fz_mode := u8"exact"; fz_max_hits := 20;
  fz_max_chunk_bytes := 65536; fz_max_total_bytes := 1048576;
  embedding_revision_sha256 := demo_sha; canonical_embedding_revision_utf8 := demo_sha;
  embedding_credential_ref := u8"env:EMBED_KEY"; rerank_revision_sha256 := replicate 64 98%Z;
  canonical_rerank_revision_utf8 := replicate 64 98%Z; rerank_credential_ref := u8"env:RERANK_KEY";
  fz_product_version_ids := [20]; fz_library_version_ids := []; eligible_scope_sha256 := replicate 64 49%Z;
|}.
Definition demo_ask (text : str) : KnowledgeEvidenceScopeV2 := ProductLine {|
  pe_schema_version := 1; pe_requirement_identity_sha256 := demo_sha; pe_requirement_text := text;
  pe_product_version_ids := [20]; pe_retrieval_policy := demo_request;
|}.

Definition demo_reply {Call} (_ : Call) : result str HttpResponse :=
  Ok {| Providers.status := 200; Providers.content_length := None; Providers.body_chunks := [Ok [1; 2]%Z] |}.
Definition demo_query_answer (_ : list Z) : result str EmbeddingBatchResponseV2 :=
  Ok {| er_data := [(0%nat, demo_vector 0)]; er_model := u8"bge/m3@2024-02-29";
        er_model_revision_sha256 := replicate 64 101%Z; er_request_config_sha256 := EMBEDDING_REQUEST_CONFIG_SHA256_V2 |}.
Definition demo_rerank_answer (_ : list Z) : result str (RerankResponseV2 N) :=
  Ok {| rs_model_revision_sha256 := replicate 64 99%Z; rs_config_revision_sha256 := replicate 64 100%Z;
        rs_results := [(0%nat, 900000)] |}.
Definition demo_keys (variable : str) : option str := Some (u8"key of " ++ variable).

Notation demo_frozen_run := (retrieve_frozen_evidence_v3 demo_digest demo_uuid (fun c => [c]) demo_payload
  (fun _ => Ok (replicate 64 98%Z)) (fun _ => Ok demo_policy_sha) (fun _ => Ok demo_embedding_revision)
  (fun _ => Ok demo_retrieval_policy) (fun _ => Ok demo_rerank_revision) demo_keyword_score demo_vector_score (fun _ => [])
  (fun _ => []) (fun _ => None) elements map_to_list demo_query_answer (fun _ => []) (fun v : N => Some [Z.of_N v])
  demo_from_str demo_decimal Some demo_rerank_answer demo_reply demo_reply
  (Resolver := EnvironmentEmbeddingCredentials demo_keys) true false
  (fun _ => Ok demo_retrieval_policy) (fun _ => Ok demo_embedding_revision) (fun _ => Ok demo_rerank_revision)
  (fun _ _ => Ok (replicate 64 49%Z)) (fun _ => Ok demo_identity_frozen) (fun _ => Ok []) demo_registry demo_snapshot).

Lemma demo_published_sources : sources (ps_store demo_snapshot) = demo_content (u8"alpha").
Proof. vm_compute. reflexivity. Qed.

Lemma demo_surroundings : surroundings_ok (Resolver := EnvironmentEmbeddingCredentials demo_keys) demo_uuid demo_decimal Some demo_snapshot.
Proof.
  split.
  - rewrite demo_published_sources. split; cbn [version_products documents chunks demo_content].
    + intros v p H. apply lookup_singleton_Some in H as [<- <-]. done.
    + intros id d H. apply lookup_singleton_Some in H as [<- <-]. done.
    + intros id c H. apply lookup_insert_Some in H as [[<- _]|[_ H]]; [done|]. by apply lookup_singleton_Some in H as [<- _].
  - intros id m H. change (ps_media demo_snapshot) with (∅ : gmap N KnowledgeEvidenceMediaV1) in H. by rewrite lookup_empty in H.
  - done.
  - exact demo_law.
  - intros r. apply environment_harmless.
Qed.

Lemma retrieval_answers_live_witness :
  (exists batch, (demo_frozen_run demo_identity_frozen (demo_ask (u8"gamma"))).2 = Some (Ok batch)
     /\ map (fun hit => (hit_source_chunk_id hit, hit_chunk_utf8 hit)) (hits batch) = [(1, u8"alpha")])
  /\ (exists batch, (demo_frozen_run demo_identity_frozen (demo_ask (u8"lph"))).2 = Some (Ok batch)
     /\ exact_prefix_hit_count batch = 1%nat)
  /\ forall text, good_answer demo_digest demo_snapshot PRODUCT_LINE [20] demo_request
       (demo_frozen_run demo_identity_frozen (demo_ask text)).2.
Proof.
  split; [eexists; split; vm_compute; reflexivity|]. split; [eexists; split; vm_compute; reflexivity|]. intros text.
  exact (proj2 (retrieval_answers_live demo_digest demo_uuid (fun c => [c]) demo_payload
    (fun _ => Ok (replicate 64 98%Z)) (fun _ => Ok demo_policy_sha) (fun _ => Ok demo_embedding_revision)
    (fun _ => Ok demo_retrieval_policy) (fun _ => Ok demo_rerank_revision) demo_keyword_score demo_vector_score (fun _ => [])
    (fun _ => []) (fun _ => None) elements map_to_list demo_query_answer (fun _ => []) (fun v : N => Some [Z.of_N v])
    demo_from_str demo_decimal Some demo_rerank_answer demo_reply demo_reply
    (Resolver := EnvironmentEmbeddingCredentials demo_keys) true false demo_registry demo_snapshot
    ltac:(done) ltac:(done) (fun _ => Ok demo_retrieval_policy) (fun _ => Ok demo_embedding_revision)
    (fun _ => Ok demo_rerank_revision) (fun _ _ => Ok (replicate 64 49%Z)) (fun _ => Ok demo_identity_frozen)
    (fun _ => Ok []) demo_surroundings) demo_identity_frozen (demo_ask text)).
Defined.

Lemma frozen_calls_bounded_witness :
  map (fun call => match call with ToEmbedding c => (ec_bearer c, ec_input c) | ToRerank c => (rc_bearer c, rc_documents c) end)
    (demo_frozen_run demo_identity_frozen (demo_ask (u8"gamma"))).1
  = [(u8"key of EMBED_KEY", [u8"gamma"]); (u8"key of RERANK_KEY", [u8"alpha"])]
  /\ Forall (fun call => match call with ToEmbedding c => ec_bearer c | ToRerank c => rc_bearer c end <> [])
       (demo_frozen_run demo_identity_frozen (demo_ask (u8"gamma"))).1.
Proof.
  split; [vm_compute; reflexivity|].
  eapply Forall_impl; [apply (frozen_calls_bounded demo_digest demo_uuid (fun c => [c]) demo_payload
    (fun _ => Ok (replicate 64 98%Z)) (fun _ => Ok demo_policy_sha) (fun _ => Ok demo_embedding_revision)
    (fun _ => Ok demo_retrieval_policy) (fun _ => Ok demo_rerank_revision) demo_keyword_score demo_vector_score (fun _ => [])
    (fun _ => []) (fun _ => None) elements map_to_list demo_query_answer (fun _ => []) (fun v : N => Some [Z.of_N v])
    demo_from_str demo_decimal Some demo_rerank_answer demo_reply demo_reply
    (Resolver := EnvironmentEmbeddingCredentials demo_keys) true false demo_registry demo_snapshot); done|].
  intros [c|c]; cbv beta iota.
  - by intros (revision & credential & _ & _ & H & _ & ->).
  - by intros (policy & revision & credential & cs & _ & _ & _ & H & _ & -> & _).
Defined.
