(* ===== verification/Env.v ===== *)
(** * Configuration and addresses

    [crates/platform/src/env.rs]: the settings of the models with their aliases and the
    choice of the vision model's endpoint and key, the file types, and the guard against
    requests to internal addresses.  The environment is a function from names to values.
    [reqwest::Url] and the resolution of host names are parameters; the parser of IP
    addresses is the one of the standard library. *)
From S2P Require Import Prelude RustStr StrReplace.
Open Scope nat_scope.

(** ** Settings *)

Definition is_blank (s : str) : bool := str_is_empty (trim s).

(** The loop over the aliases of a setting: the last value found; all must agree. *)
Fixpoint setting_loop (get : str -> option str) (all keys : list str) (secret : bool) (selected : option str)
    : result str (option str) :=
  match keys with
  | [] => Ok selected
  | key :: keys =>
    match get key with
    | Some raw =>
      if is_blank raw then setting_loop get all keys secret selected
      else
        let value := if secret then raw else trim raw in
        match selected with
        | Some prior =>
          if str_eqb prior value then setting_loop get all keys secret (Some value)
          else Err (u8"conflicting configuration: " ++ join (u8" / ") all)
        | None => setting_loop get all keys secret (Some value)
        end
    | None => setting_loop get all keys secret selected
    end
  end.

Definition setting (get : str -> option str) (keys : list str) (secret : bool) : result str str :=
  match setting_loop get keys keys secret None with Ok v => Ok (default [] v) | Err e => Err e end.

Definition CHAT_URL_KEYS : list str := [u8"KNOWLEDGEBRAIN_CHAT_BASE_URL"; u8"LLM_BASE_URL"].
Definition CHAT_KEY_KEYS : list str := [u8"KNOWLEDGEBRAIN_CHAT_API_KEY"; u8"LLM_API_KEY"].
Definition CHAT_MODEL_KEYS : list str := [u8"KNOWLEDGEBRAIN_CHAT_MODEL"; u8"LLM_MODEL"].
Definition VLM_URL : str := u8"KNOWLEDGEBRAIN_VLM_BASE_URL".
Definition VLM_KEY : str := u8"KNOWLEDGEBRAIN_VLM_API_KEY".
Definition VLM_MODEL : str := u8"KNOWLEDGEBRAIN_VLM_MODEL".
Definition SUPPORTS_IMAGES : str := u8"KNOWLEDGEBRAIN_CHAT_SUPPORTS_IMAGES".
Definition MAX_CONTEXT_TOKENS : str := u8"KNOWLEDGEBRAIN_CHAT_MAX_CONTEXT_TOKENS".

Definition optional_bool (value : option str) (name : str) : result str (option bool) :=
  match value with
  | None => Ok None
  | Some v =>
    let v := trim v in
    if str_is_empty v then Ok None
    else if str_eqb v (u8"true") then Ok (Some true)
    else if str_eqb v (u8"false") then Ok (Some false)
    else Err (name ++ u8" must be true or false")
  end.

Definition VISION_MODELS : list str :=
  [u8"gpt-6-luna"; u8"gpt-4o"; u8"gpt-4o-2024-05-13"; u8"gpt-4o-2024-08-06"; u8"gpt-4o-2024-11-20"; u8"gpt-4o-mini";
   u8"gpt-4o-mini-2024-07-18"; u8"gpt-4.1"; u8"gpt-4.1-2025-04-14"; u8"gpt-4.1-mini"; u8"gpt-4.1-mini-2025-04-14";
   u8"gpt-4.1-nano"; u8"gpt-4.1-nano-2025-04-14"].

Definition supports_images (get : str -> option str) (model : str) : result str bool :=
  match optional_bool (get SUPPORTS_IMAGES) SUPPORTS_IMAGES with
  | Ok (Some v) => Ok v
  | Ok None => Ok (existsb (str_eqb model) VISION_MODELS)
  | Err e => Err e
  end.

(** [first_env]: the first setting that is not blank. *)
Fixpoint first_env (get : str -> option str) (keys : list str) : str :=
  match keys with
  | [] => []
  | k :: keys =>
    match get k with
    | Some v => let t := trim v in if str_is_empty t then first_env get keys else t
    | None => first_env get keys
    end
  end.

Record VisionModelConfig := {
  base_url : str; api_key : str; model : str; chat_context_tokens : option N;
}.

Definition SLASH : char := 47%Z.
Definition trim_end_slash (s : str) : str := trim_end_by (fun c => (c =? SLASH)%Z) s.

(** What [reqwest::Url::parse] finds. *)
Record Url := {
  scheme : str; host_str : option str; username : str; password : option str; query : option str;
  fragment : option str; url_string : str;
}.

Section urls.
Context (parse_url : str -> option Url).

Definition valid_model_url (value : str) : bool :=
  match parse_url value with
  | Some url =>
    (str_eqb (scheme url) (u8"http") || str_eqb (scheme url) (u8"https"))
    && bool_decide (is_Some (host_str url)) && str_is_empty (username url) && bool_decide (password url = None)
    && bool_decide (query url = None) && bool_decide (fragment url = None)
  | None => false
  end.

Definition openai_chat_ready (base_url api_key model : str) : bool :=
  valid_model_url (trim base_url) && negb (is_blank api_key) && negb (is_blank model)
  && negb (str_eqb (trim model) (u8"stub-chat")).

Definition vlm_endpoint_ready (base_url model : str) : bool :=
  valid_model_url (trim base_url) && negb (is_blank model) && negb (str_eqb (trim model) (u8"stub-vlm")).

Definition model_chat_completions_url (base : str) : str :=
  let base := trim_end_slash base in
  let endpoint := if ends_with base (u8"/v1") then base ++ u8"/chat/completions"
                  else if ends_with base (u8"/chat/completions") then base
                  else base ++ u8"/v1/chat/completions" in
  match parse_url endpoint with Some url => url_string url | None => endpoint end.

Definition E_INDEPENDENT : str :=
  u8"Independent KNOWLEDGEBRAIN_VLM_BASE_URL requires KNOWLEDGEBRAIN_VLM_API_KEY and KNOWLEDGEBRAIN_VLM_MODEL; Chat credentials are never forwarded".
Definition E_IMAGES : str :=
  u8"OCR inheritance requires confirmed Chat image support; configure KNOWLEDGEBRAIN_CHAT_SUPPORTS_IMAGES or an independent VLM model".
Definition E_CONTEXT : str :=
  u8"KNOWLEDGEBRAIN_CHAT_MAX_CONTEXT_TOKENS must be an integer between 1 and 4194304 for Chat OCR".
Definition E_VLM : str := u8"Valid VLM base URL, model and API key are required for OCR".

Definition is_independent (url chat_url : str) : bool :=
  negb (str_is_empty url) && negb (str_eqb (trim_end_slash url) (trim_end_slash chat_url)).

Definition or_else (s d : str) : str := if str_is_empty s then d else s.

(** The part of [resolve_vlm] after the settings are read. *)
Definition resolve_vlm_from (get : str -> option str) (chat_url chat_key chat_model url key model : str)
    : result str VisionModelConfig :=
  if is_independent url chat_url && (str_is_empty key || str_is_empty model) then Err E_INDEPENDENT
  else
    let effective_vlm_url := or_else url chat_url in
    let same_endpoint := str_eqb (model_chat_completions_url effective_vlm_url) (model_chat_completions_url chat_url) in
    let uses_chat_model := same_endpoint && (str_is_empty model || str_eqb model chat_model) in
    tokens ← (if uses_chat_model then
      match supports_images get chat_model with
      | Err e => Err e
      | Ok false => Err E_IMAGES
      | Ok true =>
        match setting get [MAX_CONTEXT_TOKENS] false with
        | Err e => Err e
        | Ok raw =>
          match parse_usize raw with
          | Some n => if ((1 <=? n) && (n <=? 4194304))%N then Ok (Some n) else Err E_CONTEXT
          | None => Err E_CONTEXT
          end
        end
      end
    else Ok None);
    let config := {| base_url := or_else url chat_url; api_key := or_else key chat_key;
                     model := or_else model chat_model; chat_context_tokens := tokens |} in
    if negb (vlm_endpoint_ready (base_url config) (Env.model config)) || is_blank (api_key config)
    then Err E_VLM else Ok config.

Definition resolve_vlm (get : str -> option str) : result str VisionModelConfig :=
  chat_url ← setting get CHAT_URL_KEYS false;
  chat_key ← setting get CHAT_KEY_KEYS true;
  chat_model ← setting get CHAT_MODEL_KEYS false;
  url ← setting get [VLM_URL] false;
  key ← setting get [VLM_KEY] true;
  model ← setting get [VLM_MODEL] false;
  resolve_vlm_from get chat_url chat_key chat_model url key model.
End urls.

(** ** File types *)

Definition MAX_FILE_SIZE : N := 52428800.

(** [max_file_bytes]: the product wraps at 64 bits. *)
Definition max_file_bytes (env : option str) : N :=
  match env ≫= parse_usize with
  | Some n => if (0 <? n)%N then ((n * 1024 mod usize_modulus) * 1024 mod usize_modulus)%N else MAX_FILE_SIZE
  | None => MAX_FILE_SIZE
  end.

Definition ext_of (name : str) : str := map to_ascii_lowercase (default [] (last (split_char 46%Z name))).
Definition one_of (l : list str) (s : str) : bool := existsb (str_eqb s) l.

Definition is_valid_file_type (name : str) : bool :=
  one_of [u8"pdf"; u8"txt"; u8"docx"; u8"doc"; u8"epub"; u8"mhtml"; u8"md"; u8"markdown"; u8"png"; u8"jpg"; u8"jpeg";
          u8"gif"; u8"csv"; u8"xlsx"; u8"xls"; u8"pptx"; u8"ppt"; u8"json"; u8"mp3"; u8"wav"; u8"m4a"; u8"flac"; u8"ogg"]
    (ext_of name).
Definition is_video (name : str) : bool := one_of [u8"mp4"; u8"mov"; u8"avi"; u8"mkv"; u8"webm"] (ext_of name).
Definition is_image_type (name : str) : bool :=
  one_of [u8"png"; u8"jpg"; u8"jpeg"; u8"gif"; u8"bmp"; u8"tiff"; u8"webp"] (ext_of name).
Definition is_audio_type (name : str) : bool := one_of [u8"mp3"; u8"wav"; u8"m4a"; u8"flac"; u8"ogg"] (ext_of name).
Definition is_simple_format (file_type : str) : bool :=
  one_of [u8"md"; u8"markdown"; u8"txt"; u8"text"; u8"csv"; u8"json"; u8"jpg"; u8"jpeg"; u8"png"; u8"gif"; u8"bmp";
          u8"tiff"; u8"webp"; u8"mp3"; u8"wav"; u8"m4a"; u8"flac"; u8"ogg"]
    (map to_ascii_lowercase (trim_start_by (fun c => (c =? 46)%Z) file_type)).

(** ** IP addresses ([std::net]) *)

Inductive IpAddr := V4 (a b c d : N) | V6 (groups : list N).

Definition digit_of (radix : N) (c : char) : option N :=
  let d := if is_ascii_digit c then Some (Z.to_N (c - 48))
           else if ((97 <=? c) && (c <=? 122))%Z then Some (Z.to_N (c - 87))
           else if ((65 <=? c) && (c <=? 90))%Z then Some (Z.to_N (c - 55)) else None in
  n ← d; if (n <? radix)%N then Some n else None.

(** The digits at the front: their number, their value and the rest. *)
Fixpoint read_digits (radix : N) (s : str) (count : nat) (acc : N) : nat * N * str :=
  match s with
  | c :: s' =>
    match digit_of radix c with
    | Some d => read_digits radix s' (S count) (acc * radix + d)%N
    | None => (count, acc, s)
    end
  | [] => (count, acc, s)
  end.

(** [read_number]: at most [max_digits] digits, a value of at most [bound]. *)
Definition read_number (radix : N) (max_digits : nat) (allow_zero_prefix : bool) (bound : N) (s : str) : option (N * str) :=
  let '(count, value, rest) := read_digits radix s 0 0%N in
  if (max_digits <? count) || (bound <? value)%N || (count =? 0)
     || (negb allow_zero_prefix && starts_with s (u8"0") && (1 <? count)) then None
  else Some (value, rest).

Definition read_char (c : char) (s : str) : option str :=
  match s with d :: s' => if (d =? c)%Z then Some s' else None | [] => None end.

Definition read_octet (s : str) : option (N * str) := read_number 10 3 false 255 s.

Definition read_ipv4 (s : str) : option (N * N * N * N * str) :=
  '(a, s) ← read_octet s; s ← read_char 46%Z s;
  '(b, s) ← read_octet s; s ← read_char 46%Z s;
  '(c, s) ← read_octet s; s ← read_char 46%Z s;
  '(d, s) ← read_octet s;
  Some (a, b, c, d, s).

(** [read_groups] with [left] groups to read, the [i]-th next: the groups, whether an embedded
    IPv4 address ended them, and the rest. *)
Fixpoint read_groups (left i : nat) (s : str) : list N * bool * str :=
  match left with
  | O => ([], false, s)
  | S left' =>
    let after := if i =? 0 then Some s else read_char 58%Z s in
    match (if 0 <? left' then after ≫= read_ipv4 else None) with
    | Some (a, b, c, d, rest) => ([a * 256 + b; c * 256 + d]%N, true, rest)
    | None =>
      match after ≫= read_number 16 4 true 65535 with
      | Some (g, rest) => let '(gs, v4, rest) := read_groups left' (S i) rest in (g :: gs, v4, rest)
      | None => ([], false, s)
      end
    end
  end.

Definition read_ipv6 (s : str) : option (list N * str) :=
  let '(head, head_ipv4, rest) := read_groups 8 0 s in
  if length head =? 8 then Some (head, rest)
  else if head_ipv4 then None
  else
    rest ← read_char 58%Z rest; rest ← read_char 58%Z rest;
    let '(tail, _, rest) := read_groups (8 - (length head + 1)) 0 rest in
    Some (head ++ repeat 0%N (8 - length head - length tail) ++ tail, rest).

(** [host.parse::<IpAddr>()] *)
Definition parse_ip (s : str) : option IpAddr :=
  match read_ipv4 s with
  | Some (a, b, c, d, rest) => match rest with [] => Some (V4 a b c d) | _ => None end
  | None => '(gs, rest) ← read_ipv6 s; match rest with [] => Some (V6 gs) | _ => None end
  end.

Definition v4_blocked (a b c d : N) : bool :=
  ((a =? 127) || ((a =? 10) || ((a =? 172) && (16 <=? b) && (b <=? 31)) || ((a =? 192) && (b =? 168)))
   || ((a =? 169) && (b =? 254)) || ((a =? 0) && (b =? 0) && (c =? 0) && (d =? 0)))%N.

(** [to_ipv4_mapped] *)
Definition ipv4_mapped (gs : list N) : option (N * N * N * N) :=
  match gs with
  | [g0; g1; g2; g3; g4; g5; ab; cd] =>
    if ((g0 =? 0) && (g1 =? 0) && (g2 =? 0) && (g3 =? 0) && (g4 =? 0) && (g5 =? 65535))%N
    then Some (ab / 256, ab mod 256, cd / 256, cd mod 256)%N else None
  | _ => None
  end.

Definition ip_blocked (ip : IpAddr) : bool :=
  match ip with
  | V4 a b c d => v4_blocked a b c d
  | V6 gs =>
    bool_decide (gs = [0; 0; 0; 0; 0; 0; 0; 1]%N) || bool_decide (gs = [0; 0; 0; 0; 0; 0; 0; 0]%N)
    || (N.land (default 0%N (head gs)) 65024 =? 64512)%N || (N.land (default 0%N (head gs)) 65472 =? 65152)%N
    || match ipv4_mapped gs with Some (a, b, c, d) => v4_blocked a b c d | None => false end
  end.

(** ** The guard of requests *)

Definition host_blocked (host : str) : bool :=
  if str_is_empty host || str_eqb host (u8"localhost") || str_eqb host (u8"0.0.0.0") || str_eqb host (u8"::1")
     || ends_with host (u8".local") || ends_with host (u8".localhost") then true
  else match parse_ip host with Some ip => ip_blocked ip | None => false end.

Definition looks_like_ip (host : str) : bool := bool_decide (is_Some (parse_ip host)).

(** [s.split(set).next()] *)
Fixpoint before_any (set : list char) (s : str) : str :=
  match s with
  | [] => []
  | c :: s' => if existsb (Z.eqb c) set then [] else c :: before_any set s'
  end.

(** What follows the first [pat]. *)
Fixpoint after_first (pat s : str) : option str :=
  if starts_with s pat then Some (drop (length pat) s)
  else match s with [] => None | _ :: s' => after_first pat s' end.

(** What follows the last [c], or all. *)
Fixpoint after_last (c : char) (s : str) : str :=
  match s with
  | [] => []
  | d :: s' => if existsb (Z.eqb c) s' then after_last c s' else if (d =? c)%Z then s' else s
  end.

Definition AT : char := 64%Z.

Definition extract_host (url : str) : option str :=
  let lower := map to_ascii_lowercase url in
  if negb (starts_with lower (u8"http://") || starts_with lower (u8"https://")) then None
  else
    rest ← after_first (u8"://") url;
    let rest := after_last AT rest in
    match rest with
    | 91%Z :: inner => Some (map to_ascii_lowercase (before_any [93%Z] inner))
    | _ => Some (map to_ascii_lowercase (before_any [47; 58; 63; 35]%Z rest))
    end.

Section guard.
(** [to_socket_addrs]: the addresses of a host name; [None] when there are none. *)
Context (resolve : str -> option (list IpAddr)).

Definition url_blocked (url : str) : bool :=
  match extract_host url with
  | None => true
  | Some host =>
    if host_blocked host then true
    else if looks_like_ip host then false
    else match resolve host with None => false | Some addrs => existsb ip_blocked addrs end
  end.
End guard.

Example ips_parsed :
  (parse_ip (u8"127.0.0.1"), parse_ip (u8"01.2.3.4"), parse_ip (u8"::1"), parse_ip (u8"fe80::1:2"),
   parse_ip (u8"::ffff:10.0.0.1"), parse_ip (u8"1:2:3:4:5:6:7:8"), parse_ip (u8"1::2::3"), parse_ip (u8"1.2.3"))
  = (Some (V4 127 0 0 1), None, Some (V6 [0; 0; 0; 0; 0; 0; 0; 1]%N), Some (V6 [65152; 0; 0; 0; 0; 0; 1; 2]%N),
     Some (V6 [0; 0; 0; 0; 0; 65535; 2560; 1]%N), Some (V6 [1; 2; 3; 4; 5; 6; 7; 8]%N), None, None).
Proof. vm_compute. reflexivity. Qed.

Example hosts :
  (extract_host (u8"HTTP://User:pw@Example.com:80/a?b"), extract_host (u8"https://[::1]/x"), extract_host (u8"ftp://x"))
  = (Some (u8"example.com"), Some (u8"::1"), None).
Proof. vm_compute. reflexivity. Qed.
