(* ===== verification/EnvFacts.v ===== *)
(** * Facts about configuration and addresses

    The isolation of the chat key, the meaning of the blocked address ranges as numbers, and
    what the guard of requests shows about the host a URL names. *)
From S2P Require Import Prelude RustStr StrReplace Env.
Open Scope nat_scope.
#[local] Arguments lit : simpl never.

(** ** The vision model's key *)

Lemma setting_ext get get' keys secret :
  (forall k, k ∈ keys -> get' k = get k) -> setting get' keys secret = setting get keys secret.
Proof.
  intros H. unfold setting. assert (Hloop : forall all sel ks, (forall k, k ∈ ks -> get' k = get k) ->
    setting_loop get' all ks secret sel = setting_loop get all ks secret sel); [|by rewrite Hloop].
  intros all sel ks. revert sel. induction ks as [|k ks IH]; intros sel Hk; [done|]. cbn [setting_loop].
  rewrite (Hk k) by set_solver. specialize (IH) with (1 := fun k Hin => Hk k (list_elem_of_further _ _ _ Hin)).
  destruct (get k) as [raw|]; [|apply IH]. destruct (is_blank raw); [apply IH|].
  destruct sel as [prior|]; [|apply IH]. destruct (str_eqb prior _); [apply IH|done].
Qed.

Lemma or_else_spec s d : or_else s d = s /\ s <> [] \/ or_else s d = d /\ s = [].
Proof. destruct s; [by right|by left]. Qed.

Section vlm.
Context (parse_url : str -> option Url).

(** What an accepted configuration is made of. *)
Lemma resolve_vlm_from_Ok get chat_url chat_key chat_model url key model config :
  resolve_vlm_from parse_url get chat_url chat_key chat_model url key model = Ok config ->
  base_url config = or_else url chat_url /\ api_key config = or_else key chat_key
  /\ Env.model config = or_else model chat_model
  /\ (is_independent url chat_url = true -> key <> [] /\ model <> [])
  /\ valid_model_url parse_url (trim (base_url config)) = true /\ is_blank (api_key config) = false
  /\ (forall n, chat_context_tokens config = Some n -> (1 <= n <= 4194304)%N /\ supports_images get chat_model = Ok true
        /\ model_chat_completions_url parse_url (base_url config) = model_chat_completions_url parse_url chat_url
        /\ Env.model config = chat_model).
Proof.
  unfold resolve_vlm_from. destruct (is_independent url chat_url && _) eqn:Ei; [done|].
  set (same := str_eqb (model_chat_completions_url _ _) _ && _). intros (tokens & Ht & Hc)%bind_Ok.
  assert (Htok : forall n, tokens = Some n -> (1 <= n <= 4194304)%N /\ supports_images get chat_model = Ok true /\ same = true).
  { intros n ->. destruct same; [|done]. destruct (supports_images get chat_model) as [[]|]; try done.
    destruct (setting get [MAX_CONTEXT_TOKENS] false) as [raw|]; [|done]. destruct (parse_usize raw) as [m|]; [|done].
    destruct ((1 <=? m) && (m <=? 4194304))%N eqn:Em; [|done]. injection Ht as <-.
    apply andb_true_iff in Em as [?%N.leb_le ?%N.leb_le]. done. }
  destruct (negb (vlm_endpoint_ready _ _ _) || is_blank _) eqn:Er; [done|]. injection Hc as <-.
  cbn [base_url api_key Env.model chat_context_tokens] in *.
  apply orb_false_iff in Er as [Hready Hkey]. apply negb_false_iff in Hready. unfold vlm_endpoint_ready in Hready.
  rewrite !andb_true_iff in Hready. destruct Hready as [[Hurl _] _].
  do 3 (split; [done|]). split; [|split; [done|split; [done|]]].
  - intros Hi. rewrite Hi in Ei. apply orb_false_iff in Ei as [E1 E2]. split; intros ->; [discriminate E1|discriminate E2].
  - intros n Hn. destruct (Htok n Hn) as (Hrange & Himg & Hsame). split; [done|]. split; [done|].
    unfold same in Hsame. apply andb_true_iff in Hsame as [H1%str_eqb_spec H2]. split; [done|].
    unfold or_else. destruct (str_is_empty model); [done|]. by apply str_eqb_spec in H2.
Qed.

(** The settings that a resolution reads. *)
Lemma resolve_vlm_Ok get config : resolve_vlm parse_url get = Ok config ->
  exists chat_url chat_key chat_model url key model,
    setting get CHAT_URL_KEYS false = Ok chat_url /\ setting get CHAT_KEY_KEYS true = Ok chat_key
    /\ setting get CHAT_MODEL_KEYS false = Ok chat_model /\ setting get [VLM_URL] false = Ok url
    /\ setting get [VLM_KEY] true = Ok key /\ setting get [VLM_MODEL] false = Ok model
    /\ resolve_vlm_from parse_url get chat_url chat_key chat_model url key model = Ok config.
Proof.
  unfold resolve_vlm. intros (chat_url & H1 & H)%bind_Ok. apply bind_Ok in H as (chat_key & H2 & H).
  apply bind_Ok in H as (chat_model & H3 & H). apply bind_Ok in H as (url & H4 & H).
  apply bind_Ok in H as (key & H5 & H). apply bind_Ok in H as (model & H6 & H).
  exists chat_url, chat_key, chat_model, url, key, model. do 6 (split; [assumption|]). assumption.
Qed.

(** With a key of its own the configuration does not read the chat key. *)
Lemma resolve_vlm_from_own get get' chat_url chat_key chat_key' chat_model url key model :
  key <> [] -> (forall k, k = SUPPORTS_IMAGES \/ k = MAX_CONTEXT_TOKENS -> get' k = get k) ->
  resolve_vlm_from parse_url get' chat_url chat_key' chat_model url key model
  = resolve_vlm_from parse_url get chat_url chat_key chat_model url key model.
Proof.
  intros Hkey Hget. unfold resolve_vlm_from, supports_images.
  rewrite (Hget SUPPORTS_IMAGES (or_introl eq_refl)).
  rewrite (setting_ext get get' [MAX_CONTEXT_TOKENS]) by (intros k ->%list_elem_of_singleton; apply Hget; right; reflexivity).
  destruct key; [contradiction|]. reflexivity.
Qed.
End vlm.

Definition other_keys : list str :=
  CHAT_URL_KEYS ++ CHAT_MODEL_KEYS ++ [VLM_URL; VLM_KEY; VLM_MODEL; SUPPORTS_IMAGES; MAX_CONTEXT_TOKENS].

Lemma other_keys_apart : Forall (fun k => k ∉ CHAT_KEY_KEYS) other_keys.
Proof. apply (bool_decide_unpack _). vm_compute. exact I. Qed.

Lemma resolve_vlm_own_key parse_url get get' config key chat_key' :
  resolve_vlm parse_url get = Ok config -> setting get [VLM_KEY] true = Ok key -> key <> [] ->
  (forall k, k ∉ CHAT_KEY_KEYS -> get' k = get k) -> setting get' CHAT_KEY_KEYS true = Ok chat_key' ->
  resolve_vlm parse_url get' = Ok config.
Proof.
  intros Hok Hkey Hne Hget Hchat. apply resolve_vlm_Ok in Hok as (cu & ck & cm & u & k & m & H1 & H2 & H3 & H4 & H5 & H6 & H).
  rewrite H5 in Hkey. injection Hkey as ->. pose proof other_keys_apart as Hapart. rewrite Forall_forall in Hapart.
  assert (Hset : forall keys secret, bool_decide (Forall (fun x => x ∈ other_keys) keys) = true ->
            setting get' keys secret = setting get keys secret).
  { intros keys secret Hsub%bool_decide_eq_true. rewrite Forall_forall in Hsub. apply setting_ext.
    intros x Hx. by apply Hget, Hapart, Hsub. }
  pose proof (eq_trans (Hset CHAT_URL_KEYS false ltac:(vm_compute; reflexivity)) H1) as E1.
  pose proof (eq_trans (Hset CHAT_MODEL_KEYS false ltac:(vm_compute; reflexivity)) H3) as E3.
  pose proof (eq_trans (Hset [VLM_URL] false ltac:(vm_compute; reflexivity)) H4) as E4.
  pose proof (eq_trans (Hset [VLM_KEY] true ltac:(vm_compute; reflexivity)) H5) as E5.
  pose proof (eq_trans (Hset [VLM_MODEL] false ltac:(vm_compute; reflexivity)) H6) as E6.
  unfold resolve_vlm. rewrite E1. cbn [mbind result_bind]. rewrite Hchat. cbn [mbind result_bind].
  rewrite E3. cbn [mbind result_bind]. rewrite E4. cbn [mbind result_bind]. rewrite E5. cbn [mbind result_bind].
  rewrite E6.
  cbn [mbind result_bind]. rewrite <- H. apply resolve_vlm_from_own; [assumption|].
  intros x Hx. apply Hget, Hapart. destruct Hx as [->| ->]; apply (bool_decide_unpack _); vm_compute; exact I.
Qed.

(** the chat key reaches no other endpoint.  An accepted vision configuration whose base URL
    is not the chat's (up to slashes at the end) uses the vision key that was set; with a
    vision key the chat key has no influence at all; the URL is a plain HTTP URL, the key is
    not blank, and a token budget is inherited, within its range, only from a chat model
    with images at the same endpoint. *)
Theorem resolve_vlm_isolates_chat_key (parse_url : str -> option Url) (get : str -> option str)
    (config : VisionModelConfig) (Hok : resolve_vlm parse_url get = Ok config) :
  exists chat_url chat_model key,
    setting get CHAT_URL_KEYS false = Ok chat_url /\ setting get CHAT_MODEL_KEYS false = Ok chat_model
    /\ setting get [VLM_KEY] true = Ok key
    /\ (trim_end_slash (base_url config) <> trim_end_slash chat_url -> key <> [])
    /\ (key <> [] -> api_key config = key /\ forall get' chat_key',
          (forall k, k ∉ CHAT_KEY_KEYS -> get' k = get k) -> setting get' CHAT_KEY_KEYS true = Ok chat_key' ->
          resolve_vlm parse_url get' = Ok config)
    /\ valid_model_url parse_url (trim (base_url config)) = true /\ is_blank (api_key config) = false
    /\ (forall n, chat_context_tokens config = Some n ->
          (1 <= n <= 4194304)%N /\ supports_images get chat_model = Ok true /\ Env.model config = chat_model
          /\ model_chat_completions_url parse_url (base_url config) = model_chat_completions_url parse_url chat_url).
Proof.
  pose proof Hok as Hall. apply resolve_vlm_Ok in Hok as (cu & ck & cm & u & k & m & H1 & H2 & H3 & H4 & H5 & H6 & H).
  apply resolve_vlm_from_Ok in H as (Hb & Ha & _ & Hind & Hurl & Hkey & Htok).
  exists cu, cm, k. do 3 (split; [assumption|]). split; [|split; [|split; [assumption|split; [assumption|]]]].
  - intros Hne. apply Hind. unfold is_independent. rewrite Hb in Hne. unfold or_else in Hne.
    destruct (str_is_empty u); [contradiction|]. cbn [negb andb]. apply negb_true_iff, bool_decide_eq_false, Hne.
  - intros Hne. split; [rewrite Ha; by destruct k|]. intros get' ck' Hget Hck.
    exact (resolve_vlm_own_key parse_url get get' config k ck' Hall H5 Hne Hget Hck).
  - intros n Hn. destruct (Htok n Hn) as (Hr & Hs & He & Hm). do 3 (split; [assumption|]). assumption.
Qed.

(** ** Blocked addresses as numbers *)

Definition v4_number (a b c d : N) : N := (((a * 256 + b) * 256 + c) * 256 + d)%N.
Definition v6_number (gs : list N) : N := foldl (fun n g => n * 65536 + g)%N 0%N gs.

Definition ip_wf (ip : IpAddr) : Prop :=
  match ip with
  | V4 a b c d => (a < 256 /\ b < 256 /\ c < 256 /\ d < 256)%N
  | V6 gs => length gs = 8 /\ Forall (fun g => g < 65536)%N gs
  end.

(** 127.0.0.0/8, 10.0.0.0/8, 172.16.0.0/12, 192.168.0.0/16, 169.254.0.0/16 and 0.0.0.0. *)
Definition internal_v4 (n : N) : Prop :=
  (2130706432 <= n < 2147483648 \/ 167772160 <= n < 184549376 \/ 2886729728 <= n < 2887778304
   \/ 3232235520 <= n < 3232301056 \/ 2851995648 <= n < 2852061184 \/ n = 0)%N.

(** ::, ::1, fc00::/7, fe80::/10 and the internal addresses of IPv4 below ::ffff:0:0/96. *)
Definition internal (ip : IpAddr) : Prop :=
  match ip with
  | V4 a b c d => internal_v4 (v4_number a b c d)
  | V6 gs =>
    let n := v6_number gs in
    (n = 0 \/ n = 1 \/ 64512 * 2 ^ 112 <= n < 65024 * 2 ^ 112 \/ 65152 * 2 ^ 112 <= n < 65216 * 2 ^ 112
     \/ 65535 * 2 ^ 32 <= n < 65536 * 2 ^ 32 /\ internal_v4 (n - 65535 * 2 ^ 32))%N
  end.

Lemma v4_blocked_spec a b c d : ip_wf (V4 a b c d) -> v4_blocked a b c d = true <-> internal_v4 (v4_number a b c d).
Proof.
  intros (Ha & Hb & Hc & Hd). unfold v4_blocked, internal_v4, v4_number.
  rewrite !orb_true_iff, !andb_true_iff, !N.eqb_eq, !N.leb_le. lia.
Qed.

Lemma land_shifted g m k : N.land g (N.shiftl m k) = N.shiftl (N.land (N.shiftr g k) m) k.
Proof.
  apply N.bits_inj. intros i. rewrite N.land_spec. destruct (N.lt_ge_cases i k) as [Hlt|Hge].
  - by rewrite !N.shiftl_spec_low, andb_false_r by done.
  - by rewrite !N.shiftl_spec_high', N.land_spec, N.shiftr_spec', N.sub_add by done.
Qed.

(** A mask of the upper bits compares the quotient. *)
Lemma masked g k j v : (g < 2 ^ (k + j))%N -> N.land g (N.shiftl (N.ones j) k) = N.shiftl v k <-> (g / 2 ^ k = v)%N.
Proof.
  intros Hg. rewrite land_shifted, N.land_ones, N.shiftr_div_pow2, N.mod_small.
  - rewrite !N.shiftl_mul_pow2. split; [|by intros ->]. intros H. apply N.mul_cancel_r in H; [done|]. apply N.pow_nonzero. lia.
  - apply N.Div0.div_lt_upper_bound. by rewrite <- N.pow_add_r.
Qed.

Lemma quotient_range g k v : (g / 2 ^ k = v <-> v * 2 ^ k <= g < (v + 1) * 2 ^ k)%N.
Proof.
  assert (Hp : (2 ^ k <> 0)%N) by (apply N.pow_nonzero; lia).
  pose proof (N.div_mod g (2 ^ k) Hp) as Hd. pose proof (N.mod_lt g (2 ^ k) Hp) as Hm.
  set (p := (2 ^ k)%N) in *. clearbody p. split.
  - intros <-. set (q := (g / p)%N) in *. set (r := (g mod p)%N) in *. clearbody q r. nia.
  - intros Hr. symmetry. apply (N.div_unique g p v (g - v * p)); lia.
Qed.

Lemma mapped_blocked ab cd : (ab < 65536)%N -> (cd < 65536)%N ->
  v4_blocked (ab / 256) (ab mod 256) (cd / 256) (cd mod 256) = true <-> internal_v4 (ab * 65536 + cd)%N.
Proof.
  intros Hab Hcd. pose proof (N.div_mod ab 256 ltac:(lia)) as H1. pose proof (N.div_mod cd 256 ltac:(lia)) as H2.
  pose proof (N.mod_lt ab 256 ltac:(lia)). pose proof (N.mod_lt cd 256 ltac:(lia)).
  rewrite v4_blocked_spec by (repeat split; try apply N.Div0.div_lt_upper_bound; lia).
  unfold v4_number. replace (ab * 65536 + cd)%N with (((ab / 256 * 256 + ab mod 256) * 256 + cd / 256) * 256 + cd mod 256)%N; [done|].
  set (q := (ab / 256)%N) in *. set (r := (ab mod 256)%N) in *. set (q' := (cd / 256)%N) in *. set (r' := (cd mod 256)%N) in *.
  clearbody q r q' r'. lia.
Qed.

Lemma ip_blocked_spec ip : ip_wf ip -> ip_blocked ip = true <-> internal ip.
Proof.
  destruct ip as [a b c d|gs]; [apply v4_blocked_spec|]. intros [Hl Hf].
  do 9 (destruct gs as [|? gs]; [try done|]); [|done]. clear Hl.
  repeat (apply Forall_cons in Hf as [? Hf]). clear Hf.
  unfold ip_blocked, internal, v6_number. cbn [head default foldl ipv4_mapped].
  rewrite !orb_true_iff, !bool_decide_eq_true, !N.eqb_eq.
  rewrite (masked n 9 7 126), (masked n 6 10 1018), !quotient_range by done.
  change (2 ^ 9)%N with 512%N. change (2 ^ 6)%N with 64%N.
  change (2 ^ 112)%N with 5192296858534827628530496329220096%N. change (2 ^ 32)%N with 4294967296%N.
  assert (Hm : match (if ((n =? 0) && (n0 =? 0) && (n1 =? 0) && (n2 =? 0) && (n3 =? 0) && (n4 =? 65535))%N
                      then Some (n5 / 256, n5 mod 256, n6 / 256, n6 mod 256)%N else None) with
               | Some (a, b, c, d) => v4_blocked a b c d | None => false end = true
               <-> (n = 0 /\ n0 = 0 /\ n1 = 0 /\ n2 = 0 /\ n3 = 0 /\ n4 = 65535 /\ internal_v4 (n5 * 65536 + n6))%N).
  { destruct ((n =? 0) && (n0 =? 0) && (n1 =? 0) && (n2 =? 0) && (n3 =? 0) && (n4 =? 65535))%N eqn:E.
    - rewrite !andb_true_iff, !N.eqb_eq in E. rewrite mapped_blocked by done. naive_solver.
    - split; [done|]. intros (-> & -> & -> & -> & -> & -> & _). done. }
  rewrite Hm. clear Hm. unfold internal_v4. split.
  - intros [[[[Hg|Hg]|Hg]|Hg]|Hg]; [simplify_eq; lia..|lia|lia|lia].
  - intros [Hn|[Hn|[Hn|[Hn|[Hn Hi]]]]].
    + left; left; left; right. repeat f_equal; lia.
    + left; left; left; left. repeat f_equal; lia.
    + left; left; right. lia.
    + left; right. lia.
    + right. assert (n = 0 /\ n0 = 0 /\ n1 = 0 /\ n2 = 0 /\ n3 = 0 /\ n4 = 65535)%N as (-> & -> & -> & -> & -> & ->) by lia.
      do 6 (split; [done|]). lia.
Qed.

(** ** Parsed addresses *)

Lemma read_number_bound radix digits zero bound s v rest :
  read_number radix digits zero bound s = Some (v, rest) -> (v <= bound)%N.
Proof.
  unfold read_number. destruct (read_digits radix s 0 0%N) as [[count value] rest'].
  destruct ((digits <? count) || (bound <? value)%N || _ || _) eqn:E; [done|]. intros [= -> ->].
  rewrite !orb_false_iff in E. destruct E as [[[_ E] _] _]. by apply N.ltb_ge in E.
Qed.

Lemma read_octet_bound s v rest : read_octet s = Some (v, rest) -> (v < 256)%N.
Proof. intros H%read_number_bound. lia. Qed.

Lemma read_ipv4_wf s a b c d rest : read_ipv4 s = Some (a, b, c, d, rest) -> ip_wf (V4 a b c d).
Proof.
  unfold read_ipv4. intros ([a' s1] & Ha & H)%bind_Some. apply bind_Some in H as (s2 & _ & H).
  apply bind_Some in H as ([b' s3] & Hb & H). apply bind_Some in H as (s4 & _ & H).
  apply bind_Some in H as ([c' s5] & Hc & H). apply bind_Some in H as (s6 & _ & H).
  apply bind_Some in H as ([d' s7] & Hd & H). injection H as -> -> -> -> ->.
  repeat split; by eapply read_octet_bound.
Qed.

Lemma read_groups_wf left : forall i s gs v4 rest, read_groups left i s = (gs, v4, rest) ->
  length gs <= left /\ Forall (fun g => g < 65536)%N gs.
Proof.
  induction left as [|left IH]; intros i s gs v4 rest H; cbn [read_groups] in H; [by injection H as <- <- <-|].
  set (after := if i =? 0 then Some s else read_char 58%Z s) in *. clearbody after.
  destruct (if 0 <? left then after ≫= read_ipv4 else None) as [[[[[a b] c] d] r]|] eqn:E4.
  - injection H as <- <- <-. destruct (Nat.ltb_spec 0 left) as [Hl|]; [|done].
    apply bind_Some in E4 as (s' & _ & E4). apply read_ipv4_wf in E4 as (? & ? & ? & ?). cbn. split; [lia|].
    repeat constructor; lia.
  - destruct (after ≫= read_number 16 4 true 65535) as [[g r]|] eqn:Eg; [|by injection H as <- <- <-; split; [cbn; lia|]].
    destruct (read_groups left (S i) r) as [[gs' v4'] r'] eqn:Er. injection H as <- <- <-.
    apply IH in Er as [Hl Hf]. apply bind_Some in Eg as (s' & _ & Eg). apply read_number_bound in Eg. cbn.
    split; [lia|]. constructor; [lia|done].
Qed.

Lemma parse_ip_wf s ip : parse_ip s = Some ip -> ip_wf ip.
Proof.
  unfold parse_ip. destruct (read_ipv4 s) as [[[[[a b] c] d] rest]|] eqn:E.
  - destruct rest; [|done]. intros [= <-]. by eapply read_ipv4_wf.
  - clear E. intros ([gs rest] & H & Hr)%bind_Some. destruct rest; [|done]. injection Hr as <-. unfold read_ipv6 in H.
    destruct (read_groups 8 0 s) as [[head v4] r] eqn:Eh. apply read_groups_wf in Eh as [Hl Hf].
    destruct (Nat.eqb_spec (length head) 8) as [H8|H8]; [injection H as -> _; cbn [ip_wf]; done|]. destruct v4; [done|].
    apply bind_Some in H as (r1 & _ & H). apply bind_Some in H as (r2 & _ & H).
    destruct (read_groups (8 - (length head + 1)) 0 r2) as [[tail v4'] r3] eqn:Et. injection H as <- _.
    apply read_groups_wf in Et as [Hlt Hft]. cbn [ip_wf]. rewrite !length_app, repeat_length. split; [lia|].
    rewrite !Forall_app. split; [done|]. split; [|done].
    apply Forall_forall. intros x Hx. apply list_elem_of_In, repeat_spec in Hx. subst. lia.
Qed.

(** ** The host of a URL *)

Definition authority_ends : list char := [47; 63; 35]%Z.

(** The authority of a URL and what follows it (RFC 3986). *)
Definition authority (url : str) : option (str * str) :=
  rest ← after_first (u8"://") url;
  let a := before_any authority_ends rest in Some (a, drop (length a) rest).

(** The host part of the authority: after the user information, before the port. *)
Definition authority_host (a : str) : str :=
  map to_ascii_lowercase
    (match after_last AT a with 91%Z :: inner => before_any [93%Z] inner | h => before_any [58%Z] h end).

(** A host in brackets is closed. *)
Definition brackets_closed (a : str) : Prop :=
  match after_last AT a with 91%Z :: inner => 93%Z ∈ inner | _ => True end.

Lemma before_any_split set s :
  exists r, s = before_any set s ++ r /\ Forall (fun c => c ∉ set) (before_any set s)
    /\ (r = [] \/ exists c r', r = c :: r' /\ c ∈ set).
Proof.
  induction s as [|c s IH]; [exists []; cbn; auto|]. cbn [before_any]. destruct (existsb (Z.eqb c) set) eqn:E.
  - exists (c :: s). split; [done|]. split; [constructor|]. right. exists c, s. split; [done|].
    apply existsb_exists in E as (d & Hd & ->%Z.eqb_eq). by apply list_elem_of_In.
  - destruct IH as (r & Hs & Hf & Hr). exists r. split; [cbn [app]; f_equal; exact Hs|]. split; [|done]. constructor; [|done].
    intros Hc. apply not_true_iff_false in E. apply E, existsb_exists. exists c. split; [by apply list_elem_of_In|by apply Z.eqb_refl].
Qed.

(** Cutting at a larger set, when the rest starts in it. *)
Lemma before_any_app set set' h t : (forall c, c ∈ set' <-> c ∈ set \/ c ∈ authority_ends) ->
  Forall (fun c => c ∉ authority_ends) h -> (t = [] \/ exists c t', t = c :: t' /\ c ∈ authority_ends) ->
  before_any set' (h ++ t) = before_any set h.
Proof.
  intros Hset Hh Ht. assert (Hex : forall c l, existsb (Z.eqb c) l = true <-> c ∈ l).
  { intros c l. rewrite existsb_exists. setoid_rewrite Z.eqb_eq. setoid_rewrite <- list_elem_of_In. naive_solver. }
  induction Hh as [|c h Hc _ IH]; cbn [app before_any].
  - destruct Ht as [->|(c & t' & -> & Hc)]; [done|]. cbn [before_any].
    by rewrite (proj2 (Hex c set')) by (apply Hset; auto).
  - rewrite IH. assert (Heq : existsb (Z.eqb c) set' = existsb (Z.eqb c) set); [|by rewrite Heq].
    apply Bool.eq_iff_eq_true. rewrite !Hex, Hset. naive_solver.
Qed.

Lemma before_any_found x s t : x ∈ s -> before_any [x] (s ++ t) = before_any [x] s.
Proof.
  induction s as [|c s IH]; intros H; [by apply not_elem_of_nil in H|]. cbn [app before_any existsb].
  destruct (Z.eqb_spec c x) as [->|Hne]; [done|]. cbn [orb]. rewrite IH; [done|]. set_solver.
Qed.

Lemma existsb_char c l : existsb (Z.eqb c) l = true <-> c ∈ l.
Proof. rewrite existsb_exists. setoid_rewrite Z.eqb_eq. setoid_rewrite <- list_elem_of_In. naive_solver. Qed.

Lemma after_last_app c a t : c ∉ t -> after_last c (a ++ t) = after_last c a ++ t.
Proof.
  intros Ht. induction a as [|d a IH]; cbn [app after_last].
  - destruct t as [|d t]; [done|]. apply not_elem_of_cons in Ht as [Hd Ht]. cbn [after_last].
    destruct (existsb (Z.eqb c) t) eqn:E; [by apply existsb_char in E|]. by destruct (Z.eqb_spec d c) as [->|].
  - assert (He : existsb (Z.eqb c) (a ++ t) = existsb (Z.eqb c) a).
    { rewrite existsb_app. destruct (existsb (Z.eqb c) t) eqn:E; [by apply existsb_char in E|apply orb_false_r]. }
    rewrite He, IH. destruct (existsb (Z.eqb c) a); [done|]. by destruct (d =? c)%Z.
Qed.

(** What follows the last separator is a part of the string. *)
Lemma after_last_elem c a x : x ∈ after_last c a -> x ∈ a.
Proof.
  induction a as [|d a IH]; [done|]. cbn [after_last]. repeat case_match; set_solver.
Qed.

(** The guard looks at the host of the URL when no [@] follows the authority. *)
Lemma extract_host_authority url a path :
  starts_with (map to_ascii_lowercase url) (u8"http://") || starts_with (map to_ascii_lowercase url) (u8"https://") = true ->
  authority url = Some (a, path) -> AT ∉ path -> brackets_closed a -> extract_host url = Some (authority_host a).
Proof.
  intros Hscheme Ha Hat Hclosed. unfold extract_host. rewrite Hscheme. cbn [negb].
  unfold authority in Ha. apply bind_Some in Ha as (rest & Hrest & Ha). injection Ha as Ha Hp.
  rewrite Hrest, some_bind. destruct (before_any_split authority_ends rest) as (r & Hs & Hf & Hr). rewrite Ha in *.
  assert (Hpath : path = r) by (rewrite <- Hp, Hs at 1; apply drop_app_length). subst r.
  rewrite Hs, after_last_app by done. unfold authority_host, brackets_closed in *.
  assert (Hh : Forall (fun c => c ∉ authority_ends) (after_last AT a)).
  { rewrite Forall_forall in *. intros x Hx. by apply Hf, (after_last_elem AT). }
  assert (Hplain : before_any [47; 58; 63; 35]%Z (after_last AT a ++ path) = before_any [58]%Z (after_last AT a)).
  { apply before_any_app; [|done|done]. intros c. unfold authority_ends. set_solver. }
  destruct (after_last AT a) as [|c h] eqn:E.
  - cbn [app] in *. destruct Hr as [->|(c & t' & -> & Hc)]; [done|].
    assert (c <> 91%Z) by (unfold authority_ends in Hc; set_solver).
    rewrite Hplain. clear -H. by repeat case_match.
  - cbn [app] in *. destruct (decide (c = 91%Z)) as [->|Hne]; [by rewrite before_any_found|].
    rewrite Hplain. clear -Hne. by repeat case_match.
Qed.

(** An [@] after the authority: the guard looks at what follows the last one. *)
Lemma after_last_in c a t : c ∈ t -> after_last c (a ++ t) = after_last c t.
Proof.
  intros Ht. induction a as [|d a IH]; [done|]. cbn [app after_last]. rewrite existsb_app.
  rewrite (proj2 (existsb_char c t) Ht), orb_true_r. exact IH.
Qed.

Lemma after_last_none c s : c ∉ s -> after_last c s = s.
Proof. intros H. by rewrite <- (app_nil_l s), after_last_app by done. Qed.

Lemma after_last_fresh c s : c ∈ s -> c ∉ after_last c s.
Proof.
  induction s as [|d s IH]; [by intros ?%not_elem_of_nil|]. intros Hin. cbn [after_last].
  destruct (existsb (Z.eqb c) s) eqn:E; [by apply IH, existsb_char|].
  assert (c ∉ s) as Hs by (intros H%existsb_char; congruence). destruct (Z.eqb_spec d c) as [->|Hne]; [exact Hs|].
  apply elem_of_cons in Hin as [->|Hin]; contradiction.
Qed.

Lemma extract_host_after_at url a path :
  starts_with (map to_ascii_lowercase url) (u8"http://") || starts_with (map to_ascii_lowercase url) (u8"https://") = true ->
  authority url = Some (a, path) -> AT ∈ path -> extract_host url = extract_host (u8"http://" ++ after_last AT path).
Proof.
  intros Hscheme Ha Hat. unfold extract_host at 1. rewrite Hscheme. cbn [negb].
  unfold authority in Ha. apply bind_Some in Ha as (rest & Hrest & Ha). injection Ha as Ha Hp. rewrite Hrest, some_bind.
  assert (rest = a ++ path) as ->.
  { destruct (before_any_split authority_ends rest) as (r & Hs & _). rewrite Ha in Hs, Hp.
    rewrite Hs at 1. f_equal. rewrite <- Hp, Hs. symmetry. apply drop_app_length. }
  rewrite after_last_in by done. set (s := after_last AT path).
  unfold extract_host. change (negb _) with false. cbv iota.
  change (after_first (u8"://") (u8"http://" ++ s)) with (Some s). rewrite some_bind.
  by rewrite (after_last_none AT s) by by apply after_last_fresh.
Qed.

(** An address the guard lets through. *)
Definition public_host (resolve : str -> option (list IpAddr)) (host : str) : Prop :=
  host <> [] /\ host <> u8"localhost" /\ ends_with host (u8".local") = false /\ ends_with host (u8".localhost") = false
  /\ (forall ip, parse_ip host = Some ip -> ~ internal ip)
  /\ (parse_ip host = None -> forall addrs ip, resolve host = Some addrs -> ip ∈ addrs -> ~ internal ip).

Lemma blocked_false ip : ip_wf ip -> ip_blocked ip = false <-> ~ internal ip.
Proof. intros H. by rewrite <- (ip_blocked_spec ip H), not_true_iff_false. Qed.

Lemma host_blocked_false host : host_blocked host = false <->
  host <> [] /\ host <> u8"localhost" /\ ends_with host (u8".local") = false /\ ends_with host (u8".localhost") = false
  /\ (forall ip, parse_ip host = Some ip -> ~ internal ip).
Proof.
  unfold host_blocked. destruct (str_is_empty host) eqn:E0; cbn [orb]; [destruct host; [|discriminate E0]; split; [discriminate|intros [H _]; contradiction]|].
  assert (Hne : host <> []) by (intros ->; discriminate E0). clear E0.
  destruct (str_eqb host (u8"localhost")) eqn:E1; cbn [orb].
  { apply str_eqb_spec in E1. split; [discriminate|]. intros (_ & H & _). contradiction. }
  assert (H1 : host <> u8"localhost") by (intros ->; vm_compute in E1; discriminate E1). clear E1.
  destruct (str_eqb host (u8"0.0.0.0")) eqn:E2; cbn [orb].
  { apply str_eqb_spec in E2. subst host. split; [discriminate|]. intros (_ & _ & _ & _ & H). exfalso.
    apply (H (V4 0 0 0 0)); [vm_compute; reflexivity|]. do 5 right. reflexivity. }
  destruct (str_eqb host (u8"::1")) eqn:E3; cbn [orb].
  { apply str_eqb_spec in E3. subst host. split; [discriminate|]. intros (_ & _ & _ & _ & H). exfalso.
    apply (H (V6 [0; 0; 0; 0; 0; 0; 0; 1]%N)); [vm_compute; reflexivity|]. right. left. reflexivity. }
  clear E2 E3. destruct (ends_with host (u8".local")) eqn:E4; cbn [orb]; [split; [discriminate|intros (_ & _ & H & _); discriminate H]|].
  destruct (ends_with host (u8".localhost")) eqn:E5; [split; [discriminate|intros (_ & _ & _ & H & _); discriminate H]|].
  destruct (parse_ip host) as [ip|] eqn:Ep.
  - apply parse_ip_wf in Ep. rewrite (blocked_false ip Ep). split.
    + intros H. repeat (split; [assumption || reflexivity|]). intros ip' [= <-]. exact H.
    + intros (_ & _ & _ & _ & H). exact (H ip eq_refl).
  - split; [|reflexivity]. intros _. repeat (split; [assumption || reflexivity|]). intros ip'. discriminate.
Qed.

(** C16: what the guard of requests decides, for a resolver of well-formed addresses.  When no
    [@] follows the authority of the URL and its brackets are closed, [url_blocked] lets the URL
    through exactly when its scheme is [http] or [https] and the host between user information and
    port is a public one: not empty, not a local name, and neither as an address nor by any address
    it resolves to inside 127/8, 10/8, 172.16/12, 192.168/16, 169.254/16, 0.0.0.0, ::, ::1,
    fc00::/7, fe80::/10 or a mapped one of these.  When an [@] follows the authority, the host of
    the URL plays no part: the guard answers as for the text after the last [@]. *)
Theorem url_blocked_guards (resolve : str -> option (list IpAddr)) (url a path : str)
    (Hwf : forall h addrs, resolve h = Some addrs -> Forall ip_wf addrs) (Ha : authority url = Some (a, path)) :
  (AT ∉ path -> brackets_closed a ->
   url_blocked resolve url = false <->
   starts_with (map to_ascii_lowercase url) (u8"http://") || starts_with (map to_ascii_lowercase url) (u8"https://") = true
   /\ public_host resolve (authority_host a))
  /\ (AT ∈ path ->
      starts_with (map to_ascii_lowercase url) (u8"http://") || starts_with (map to_ascii_lowercase url) (u8"https://") = true ->
      url_blocked resolve url = url_blocked resolve (u8"http://" ++ after_last AT path)).
Proof.
  split; [intros Hat Hclosed|intros Hat Hs; unfold url_blocked; by rewrite (extract_host_after_at url a path Hs Ha Hat)].
  destruct (starts_with _ (u8"http://") || starts_with _ (u8"https://")) eqn:Es.
  2: { unfold url_blocked, extract_host. rewrite Es. cbn [negb]. split; [discriminate|]. intros [H _]. discriminate H. }
  unfold url_blocked. rewrite (extract_host_authority url a path Es Ha Hat Hclosed). set (host := authority_host a).
  pose proof (host_blocked_false host) as Hb. unfold public_host, looks_like_ip.
  destruct (host_blocked host) eqn:E; [split; [discriminate|]; intros (_ & H1 & H2 & H3 & H4 & H5 & _);
    apply Hb; repeat (split; [assumption|]); assumption|].
  apply proj1 in Hb. destruct (Hb eq_refl) as (H1 & H2 & H3 & H4 & H5). clear Hb.
  destruct (parse_ip host) as [ip|] eqn:Ep.
  - rewrite bool_decide_eq_true_2 by (exists ip; reflexivity). split; [|reflexivity]. intros _.
    split; [reflexivity|]. repeat (split; [assumption|]). discriminate.
  - rewrite bool_decide_eq_false_2 by (intros [? ?]; discriminate). destruct (resolve host) as [addrs|] eqn:Er.
    + pose proof (Hwf _ _ Er) as Hw. rewrite Forall_forall in Hw. split.
      * intros Hx. split; [reflexivity|]. repeat (split; [assumption|]). intros _ ? ip [= <-] Hin.
        apply (blocked_false ip (Hw ip Hin)). apply not_true_iff_false. intros Ht. apply not_true_iff_false in Hx. apply Hx.
        apply existsb_exists. exists ip. split; [by apply list_elem_of_In|exact Ht].
      * intros (_ & _ & _ & _ & _ & _ & H). apply not_true_iff_false. intros (ip & Hin & Ht)%existsb_exists.
        apply list_elem_of_In in Hin. pose proof (H eq_refl addrs ip eq_refl Hin) as Hn. apply (blocked_false ip (Hw ip Hin)) in Hn. congruence.
    + split; [|reflexivity]. intros _. split; [reflexivity|]. repeat (split; [assumption|]). discriminate.
Qed.

(** A resolver of one public name. *)
Definition demo_resolve (host : str) : option (list IpAddr) :=
  if str_eqb host (u8"example.com") then Some [V4 93 184 216 34] else None.

Lemma demo_resolve_wf h addrs : demo_resolve h = Some addrs -> Forall ip_wf addrs.
Proof. unfold demo_resolve. destruct (str_eqb h _); [|discriminate]. intros [= <-]. repeat constructor. Qed.

Lemma url_blocked_guards_witness :
  url_blocked demo_resolve (u8"https://user@example.com:8443/a?b") = false
  /\ public_host demo_resolve (u8"example.com").
Proof.
  split; [vm_compute; reflexivity|].
  refine (proj2 (proj1 (proj1 (url_blocked_guards demo_resolve (u8"https://user@example.com:8443/a?b")
            (u8"user@example.com:8443") (u8"/a?b") demo_resolve_wf _) _ _) _)).
  - vm_compute. reflexivity.
  - apply (bool_decide_unpack _). vm_compute. exact I.
  - vm_compute. exact I.
  - vm_compute. reflexivity.
Defined.

(** An [@] in the path hides the host: the guard judges [1.1.1.1], the request goes to the
    loopback address, whatever names resolve to. *)
Theorem url_blocked_misses_path_at (resolve : str -> option (list IpAddr)) :
  authority (u8"http://127.0.0.1/@1.1.1.1") = Some (u8"127.0.0.1", u8"/@1.1.1.1")
  /\ authority_host (u8"127.0.0.1") = u8"127.0.0.1" /\ parse_ip (u8"127.0.0.1") = Some (V4 127 0 0 1)
  /\ internal (V4 127 0 0 1) /\ url_blocked resolve (u8"http://127.0.0.1/@1.1.1.1") = false.
Proof.
  do 3 (split; [vm_compute; reflexivity|]). split; [left; vm_compute; split; [discriminate|reflexivity]|]. vm_compute. reflexivity.
Qed.

(** A URL parser for the forms of the witness: a scheme, a host and a path. *)
Definition demo_parse_url (s : str) : option Url :=
  if starts_with s (u8"https://")
  then Some {| scheme := u8"https"; host_str := Some (before_any authority_ends (drop 8 s)); username := [];
               password := None; query := None; fragment := None; url_string := s |}
  else None.

Definition demo_env (k : str) : option str :=
  if str_eqb k (u8"LLM_BASE_URL") then Some (u8"https://chat.example/v1")
  else if str_eqb k (u8"LLM_API_KEY") then Some (u8"chat-secret")
  else if str_eqb k (u8"LLM_MODEL") then Some (u8"gpt-4o")
  else if str_eqb k VLM_URL then Some (u8"https://vlm.example/")
  else if str_eqb k VLM_KEY then Some (u8"vlm-secret")
  else if str_eqb k VLM_MODEL then Some (u8"ocr") else None.

Definition demo_config : VisionModelConfig :=
  {| base_url := u8"https://vlm.example/"; api_key := u8"vlm-secret"; Env.model := u8"ocr"; chat_context_tokens := None |}.

Lemma resolve_vlm_isolates_chat_key_witness :
  resolve_vlm demo_parse_url demo_env = Ok demo_config
  /\ exists key, setting demo_env [VLM_KEY] true = Ok key /\ (key <> [] -> api_key demo_config = key).
Proof.
  assert (H : resolve_vlm demo_parse_url demo_env = Ok demo_config) by (vm_compute; reflexivity).
  split; [exact H|]. destruct (resolve_vlm_isolates_chat_key _ _ _ H) as (_ & _ & key & _ & _ & Hk & _ & Hown & _).
  exists key. split; [exact Hk|]. intros Hne. exact (proj1 (Hown Hne)).
Defined.
