(* ===== verification/DocReader.v ===== *)
(** * The DocReader client

    [crates/docparser/src/grpc.rs]: decoding and checking of the structured units that the
    parsing service sends, the stream of a read with its fallback to the unary call, and the
    classification of failures.  The messages have the fields of
    [src/services/docreader/proto/docreader.proto]; the transport (channel, TLS, time) is an
    argument that says what arrives. *)
From S2P Require Import Prelude RustStr StrReplace RustFloat SourceTypes TableGrid SourceContract.

Local Open Scope Z_scope.

(** ** Messages *)

Inductive CompoundParent :=
| ParagraphParent (section_ordinal paragraph_ordinal : option Z)
| TableCellParent (section_ordinal table_ordinal row_ordinal cell_ordinal : option Z)
| FormParent (section_ordinal form_ordinal : option Z).

(** The fields of [PageTableLocator] that must be at their defaults. *)
Record PageTableLeftover := {
  pt_row_count : Z; pt_column_count : Z; pt_cells : list PdfTableCell; pt_merged_ranges : list (Z * Z * Z * Z);
  pt_column_edges : list f64; pt_widths_mm : list f64;
}.

Inductive ProtoLocator :=
| PDocument (section_ordinal : Z) (table_ordinal row_ordinal form_ordinal : option Z) (heading_path : str)
| PPage (page_ordinal : Z) (left top right bottom : option f64)
| PSpreadsheet (sheet_ordinal : Z) (sheet_name : str) (region : option SpreadsheetRange)
    (cells : list SpreadsheetCell) (merged_ranges : list SpreadsheetRange)
    (defined_tables : list SpreadsheetTableIdentity)
| PImage (original_ref : str) (width height : Z) (media_type : str) (page_ordinal : option Z)
    (compound_parent : option CompoundParent) (left top right bottom : option f64)
| PAttachment (part_name relationship_type : str)
| PPageTable (page_ordinal table_ordinal : Z) (left top right bottom : f64) (leftover : PageTableLeftover).

Record ProtoUnit := {
  p_key : str; p_ordinal : Z; p_kind : Z; p_text : str; p_locator : option ProtoLocator; p_grid : option ProtoGrid;
}.

(** ** A1 notation *)

Definition DOLLAR : char := 36.
Definition to_ascii_uppercase (c : char) : char := if is_ascii_lowercase c then c - 32 else c.

Definition u32_checked_mul (a b : Z) : option Z := if a * b <? u32_modulus then Some (a * b) else None.

(** [digits.parse::<u32>()] on digits. *)
Fixpoint u32_digits (s : str) (acc : Z) : option Z :=
  match s with
  | [] => Some acc
  | c :: s' => n ← u32_checked_mul acc 10; n ← u32_checked_add n (c - 48); u32_digits s' n
  end.

Fixpoint a1_column (letters : str) (column : Z) : option Z :=
  match letters with
  | [] => Some column
  | c :: letters' => n ← u32_checked_mul column 26; n ← u32_checked_add n (c - 65 + 1); a1_column letters' n
  end.

(** [value.split_at(value.find(is_ascii_digit)?)] *)
Fixpoint split_at_digit (s : str) : option (str * str) :=
  match s with
  | [] => None
  | c :: s' => if is_ascii_digit c then Some ([], s) else '(l, d) ← split_at_digit s'; Some (c :: l, d)
  end.

Definition parse_a1_cell (value : str) : option (Z * Z) :=
  let value := map to_ascii_uppercase (replace (trim value) [DOLLAR] []) in
  '(letters, digits) ← split_at_digit value;
  if str_is_empty letters || negb (forallb is_ascii_uppercase letters) || negb (forallb is_ascii_digit digits) then None
  else
    column ← a1_column letters 0;
    row ← u32_digits digits 0;
    if (0 <? row) && (0 <? column) then Some (row, column) else None.

Definition COLON : char := 58.

Definition parse_a1_range (value : str) : option SpreadsheetRange :=
  let of_ends (first second : str) :=
    '(r1, c1) ← parse_a1_cell first;
    '(r2, c2) ← parse_a1_cell second;
    if (r2 <? r1) || (c2 <? c1) then None
    else Some {| a1_range := value; start_row := r1; start_column := c1; end_row := r2; end_column := c2 |} in
  match split_char COLON value with
  | [first] => of_ends first value
  | [first; second] => of_ends first second
  | _ => None
  end.

Definition range_contains (outer inner : SpreadsheetRange) : bool :=
  (start_row outer <=? start_row inner) && (end_row inner <=? end_row outer)
  && (start_column outer <=? start_column inner) && (end_column inner <=? end_column outer).

(** ** Locators *)

Definition RET : str := u8"DocReader returned ".
Definition E_RANGE : str := RET ++ u8"invalid spreadsheet range".
Definition E_PT_LEFTOVER : str := RET ++ u8"leftover page_table grid fields".
Definition E_PT_BOUNDS : str := RET ++ u8"invalid page_table bounds".
Definition E_NO_SHEET : str := RET ++ u8"spreadsheet locator without sheet name".
Definition E_NO_REGION : str := RET ++ u8"spreadsheet locator without region".
Definition E_CELL : str := RET ++ u8"invalid spreadsheet cell".
Definition E_MERGED : str := RET ++ u8"merged range outside sheet region".
Definition E_MERGED_ORDER : str := RET ++ u8"non-deterministic merged range order".
Definition E_TABLE_ID : str := RET ++ u8"incomplete spreadsheet table identity".
Definition E_TABLE_ORDER : str := RET ++ u8"non-deterministic spreadsheet table order".
Definition E_PARENT_FIELD : str := RET ++ u8"compound image parent without required ordinals".
Definition E_IMAGE : str := RET ++ u8"incomplete image locator".
Definition E_IMAGE_PAGE : str := RET ++ u8"bounded image without page identity".
Definition E_IMAGE_BOUNDS : str := RET ++ u8"compound image with page bounds".
Definition E_ATTACHMENT : str := RET ++ u8"incomplete attachment locator".
Definition E_KIND : str := RET ++ u8"unspecified structured source unit kind".
Definition E_NO_KEY : str := RET ++ u8"structured source unit without key".
Definition E_NO_LOCATOR : str := RET ++ u8"structured source unit without typed locator".
Definition E_INCOMPATIBLE : str := RET ++ u8"incompatible structured source kind and locator".
Definition E_EMPTY_ROW : str := RET ++ u8"empty table_row".
Definition E_GRID_UNIT : str := RET ++ u8"table grid on a non-table unit".
Definition E_PARENT : str := RET ++ u8"image with unknown compound parent".
Definition E_TOO_MANY : str := RET ++ u8"too many structured source units".
Definition E_ORDINALS : str := RET ++ u8"non-contiguous structured source unit ordinals".
Definition E_DUP_KEY : str := RET ++ u8"duplicate structured source unit key".

Definition from_proto_range (value : SpreadsheetRange) : result str SpreadsheetRange :=
  let wrong := match parse_a1_range (a1_range value) with
               | None => true
               | Some parsed =>
                 negb (start_row parsed =? start_row value) || negb (start_column parsed =? start_column value)
                 || negb (end_row parsed =? end_row value) || negb (end_column parsed =? end_column value)
               end in
  _ ← reject_if (str_is_empty (a1_range value) || (start_row value =? 0) || (start_column value =? 0)
                 || (end_row value <? start_row value) || (end_column value <? start_column value) || wrong) E_RANGE;
  Ok value.

Definition validate_bounds (left top right bottom : option f64) (name : str) : result str unit :=
  match left, top, right, bottom with
  | None, None, None, None => Ok tt
  | Some l, Some t, Some r, Some b =>
    reject_if (negb (f64_is_finite l && f64_is_finite t && f64_is_finite r && f64_is_finite b && f64_lt l r && f64_lt t b))
      (RET ++ u8"invalid " ++ name ++ u8" bounds")
  | _, _, _, _ => Err (RET ++ u8"invalid " ++ name ++ u8" bounds")
  end.

Definition is_nil_list {A} (l : list A) : bool := match l with [] => true | _ => false end.

Definition from_proto_page_table (page_ordinal table_ordinal : Z) (left top right bottom : f64) (x : PageTableLeftover)
    : result str StructuredSourceLocator :=
  _ ← reject_if (negb (pt_row_count x =? 0) || negb (pt_column_count x =? 0) || negb (is_nil_list (pt_cells x))
                 || negb (is_nil_list (pt_merged_ranges x)) || negb (is_nil_list (pt_column_edges x))
                 || negb (is_nil_list (pt_widths_mm x))) E_PT_LEFTOVER;
  _ ← reject_if (negb (f64_is_finite left) || negb (f64_is_finite top) || negb (f64_is_finite right)
                 || negb (f64_is_finite bottom) || f64_le right left || f64_le top bottom) E_PT_BOUNDS;
  Ok (LPageTable page_ordinal table_ordinal left top right bottom).

(** [(row, column, address)], compared as a tuple. *)
Definition cell_order_ltb (a b : SpreadsheetCell) : bool :=
  (sc_row a <? sc_row b)
  || ((sc_row a =? sc_row b)
      && ((sc_column a <? sc_column b) || ((sc_column a =? sc_column b) && str_ltb (sc_address a) (sc_address b)))).

Definition cell_outside (region : SpreadsheetRange) (cell : SpreadsheetCell) : bool :=
  (sc_row cell <? start_row region) || (end_row region <? sc_row cell)
  || (sc_column cell <? start_column region) || (end_column region <? sc_column cell).

(** The loop over the cells: the addresses seen and the previous cell. *)
Definition cell_step (region : SpreadsheetRange) (st : gset str * option SpreadsheetCell) (cell : SpreadsheetCell)
    : result str (gset str * option SpreadsheetCell) :=
  let '(addresses, previous) := st in
  _ ← reject_if (str_is_empty (sc_address cell) || (sc_row cell =? 0) || (sc_column cell =? 0)
                 || negb (bool_decide (parse_a1_cell (sc_address cell) = Some (sc_row cell, sc_column cell)))
                 || cell_outside region cell
                 || match previous with Some p => negb (cell_order_ltb p cell) | None => false end
                 || bool_decide (sc_address cell ∈ addresses)) E_CELL;
  Ok ({[ sc_address cell ]} ∪ addresses, Some cell).

(** [range_order(a) <= range_order(b)] *)
Definition range_order_le (a b : SpreadsheetRange) : bool :=
  let tuple r := [start_row r; start_column r; end_row r; end_column r] in
  str_ltb (tuple a) (tuple b) || (bool_decide (tuple a = tuple b) && negb (str_ltb (a1_range b) (a1_range a))).

Definition merged_step (region : SpreadsheetRange) (merged : list SpreadsheetRange) (range : SpreadsheetRange)
    : result str (list SpreadsheetRange) :=
  range ← from_proto_range range;
  _ ← reject_if ((start_row range <? start_row region) || (end_row region <? end_row range)
                 || (start_column range <? start_column region) || (end_column region <? end_column range)) E_MERGED;
  Ok (merged ++ [range]).

Fixpoint windows_ordered (l : list SpreadsheetRange) : bool :=
  match l with
  | a :: ((b :: _) as l') => range_order_le a b && windows_ordered l'
  | _ => true
  end.

Definition table_step (region : SpreadsheetRange) (previous : option str) (table : SpreadsheetTableIdentity)
    : result str (option str) :=
  let range := parse_a1_range (st_a1_range table) in
  _ ← reject_if (str_is_empty (st_name table) || str_is_empty (st_display_name table) || str_is_empty (st_a1_range table)
                 || match range with None => true | Some r => negb (range_contains region r) end) E_TABLE_ID;
  _ ← reject_if (match previous with Some name => negb (str_ltb name (st_name table)) | None => false end) E_TABLE_ORDER;
  Ok (Some (st_name table)).

Definition from_proto_spreadsheet (sheet_ordinal : Z) (sheet_name : str) (region : option SpreadsheetRange)
    (cells : list SpreadsheetCell) (merged_ranges : list SpreadsheetRange)
    (defined_tables : list SpreadsheetTableIdentity) : result str StructuredSourceLocator :=
  _ ← reject_if (str_is_empty sheet_name) E_NO_SHEET;
  region ← ok_or region E_NO_REGION;
  region ← from_proto_range region;
  _ ← foldR (cell_step region) (∅, None) cells;
  merged ← foldR (merged_step region) [] merged_ranges;
  _ ← reject_if (negb (windows_ordered merged)) E_MERGED_ORDER;
  _ ← foldR (table_step region) None defined_tables;
  Ok (LSpreadsheet sheet_ordinal sheet_name region cells merged defined_tables).

Definition from_proto_parent (parent : CompoundParent) : result str CompoundImageParent :=
  match parent with
  | ParagraphParent s p =>
    s ← ok_or s E_PARENT_FIELD; p ← ok_or p E_PARENT_FIELD; Ok (Paragraph s p)
  | TableCellParent s t r c =>
    s ← ok_or s E_PARENT_FIELD; t ← ok_or t E_PARENT_FIELD; r ← ok_or r E_PARENT_FIELD; c ← ok_or c E_PARENT_FIELD;
    Ok (TableCell s t r c)
  | FormParent s f => s ← ok_or s E_PARENT_FIELD; f ← ok_or f E_PARENT_FIELD; Ok (Form s f)
  end.

Definition has {A} (o : option A) : bool := match o with Some _ => true | None => false end.

Definition from_proto_image_locator (original_ref : str) (width height : Z) (media_type : str)
    (page_ordinal : option Z) (parent : option CompoundParent) (left top right bottom : option f64)
    : result str StructuredSourceLocator :=
  compound_parent ← match parent with
                    | Some p => q ← from_proto_parent p; Ok (Some q)
                    | None => Ok None
                    end;
  _ ← reject_if ((width =? 0) || (height =? 0) || str_is_empty original_ref || str_is_empty media_type
                 || (has page_ordinal && has compound_parent)) E_IMAGE;
  _ ← validate_bounds left top right bottom (u8"image");
  _ ← reject_if (has left && negb (has page_ordinal)) E_IMAGE_PAGE;
  _ ← reject_if (has compound_parent && has left) E_IMAGE_BOUNDS;
  Ok (LImage original_ref width height media_type page_ordinal compound_parent left top right bottom).

Definition from_proto_locator (l : ProtoLocator) : result str StructuredSourceLocator :=
  match l with
  | PDocument s t r f h => Ok (LDocument s t r f h)
  | PPage p l t r b => _ ← validate_bounds l t r b (u8"page"); Ok (LPage p l t r b)
  | PPageTable p n l t r b x => from_proto_page_table p n l t r b x
  | PSpreadsheet o n g c m d => from_proto_spreadsheet o n g c m d
  | PImage o w h m p q l t r b => from_proto_image_locator o w h m p q l t r b
  | PAttachment p r =>
    _ ← reject_if (str_is_empty p || str_is_empty r) E_ATTACHMENT; Ok (LAttachment p r)
  end.

(** ** Units *)

(** [ProtoKind::try_from]: the numbers of the enum. *)
Definition kind_of (n : Z) : option StructuredSourceUnitKind :=
  if n =? 1 then Some Section_ else if n =? 2 then Some TableRow else if n =? 3 then Some TableRegion
  else if n =? 4 then Some FormRegion else if n =? 5 then Some AttachmentRegion
  else if n =? 6 then Some ImageRegion else None.

Definition compatible (kind : StructuredSourceUnitKind) (locator : StructuredSourceLocator) : bool :=
  match kind, locator with
  | Section_, LDocument _ None None None _ => true
  | Section_, (LPage _ _ _ _ _ | LSpreadsheet _ _ _ _ _ _) => true
  | TableRegion, LDocument _ (Some _) None None _ => true
  | TableRegion, (LPage _ _ _ _ _ | LPageTable _ _ _ _ _ _ | LSpreadsheet _ _ _ _ _ _) => true
  | TableRow, LDocument _ (Some _) (Some _) None _ => true
  | TableRow, (LPage _ _ _ _ _ | LPageTable _ _ _ _ _ _ | LSpreadsheet _ _ _ _ _ _) => true
  | FormRegion, LDocument _ None None (Some _) _ => true
  | FormRegion, (LPage _ _ _ _ _ | LPageTable _ _ _ _ _ _ | LSpreadsheet _ _ _ _ _ _) => true
  | AttachmentRegion, LAttachment _ _ => true
  | ImageRegion, LImage _ _ _ _ _ _ _ _ _ _ => true
  | _, _ => false
  end.

Definition unit_grid (kind : StructuredSourceUnitKind) (grid : option ProtoGrid) : result str (option TableGrid) :=
  match grid with
  | Some g =>
    _ ← reject_if (negb (bool_decide (kind = TableRegion))) E_GRID_UNIT;
    g ← from_proto_grid g; Ok (Some g)
  | None => Ok None
  end.

Definition from_proto_unit (u : ProtoUnit) : result str StructuredSourceUnit :=
  kind ← ok_or (kind_of (p_kind u)) E_KIND;
  _ ← reject_if (str_is_empty (p_key u)) E_NO_KEY;
  locator ← ok_or (p_locator u) E_NO_LOCATOR;
  locator ← from_proto_locator locator;
  _ ← reject_if (negb (compatible kind locator)) E_INCOMPATIBLE;
  _ ← reject_if (bool_decide (kind = TableRow) && is_document locator && str_is_empty (trim (p_text u))) E_EMPTY_ROW;
  grid ← unit_grid kind (p_grid u);
  Ok {| key := p_key u; u_ordinal := p_ordinal u; u_kind := kind; text := p_text u; locator := locator; grid := grid |}.

(** The places that image parents may name: sections, table grids and forms. *)
Definition sections_of (us : list StructuredSourceUnit) : list Z :=
  omap (fun u => match u_kind u, locator u with Section_, LDocument s _ _ _ _ => Some s | _, _ => None end) us.

Definition table_grids_of (us : list StructuredSourceUnit) : list (Z * Z * TableGrid) :=
  omap (fun u => match u_kind u, locator u with
                 | TableRegion, LDocument s (Some t) None _ _ => g ← grid u; Some (s, t, g)
                 | _, _ => None end) us.

Definition forms_of (us : list StructuredSourceUnit) : list (Z * Z) :=
  omap (fun u => match u_kind u, locator u with FormRegion, LDocument s _ _ (Some f) _ => Some (s, f) | _, _ => None end) us.

Definition parent_valid (us : list StructuredSourceUnit) (parent : CompoundImageParent) : bool :=
  match parent with
  | Paragraph s _ => bool_decide (s ∈ sections_of us)
  | TableCell s t r c =>
    existsb (fun '(section, table, g) => (section =? s) && (table =? t) && grid_cell_is_anchor g r c) (table_grids_of us)
  | Form s f => bool_decide ((s, f) ∈ forms_of us)
  end.

Definition compound_parent_of (u : StructuredSourceUnit) : option CompoundImageParent :=
  match locator u with LImage _ _ _ _ _ p _ _ _ _ => p | _ => None end.

Definition validate_compound_image_parents (us : list StructuredSourceUnit) : result str unit :=
  reject_if (existsb (fun u => match compound_parent_of u with Some p => negb (parent_valid us p) | None => false end) us) E_PARENT.

Definition MAX_STRUCTURED_UNITS : nat := 200 * 1000.

(** The loop over the units: the keys seen and the units mapped. *)
Definition unit_step (st : gset str * list StructuredSourceUnit) (u : ProtoUnit)
    : result str (gset str * list StructuredSourceUnit) :=
  let '(keys, mapped) := st in
  _ ← reject_if (negb (p_ordinal u =? Z.of_nat (length mapped))) E_ORDINALS;
  _ ← reject_if (bool_decide (p_key u ∈ keys)) E_DUP_KEY;
  v ← from_proto_unit u;
  Ok ({[ p_key u ]} ∪ keys, mapped ++ [v]).

Definition from_proto_units (us : list ProtoUnit) : result str (list StructuredSourceUnit) :=
  _ ← reject_if (MAX_STRUCTURED_UNITS <? length us)%nat E_TOO_MANY;
  '(_, mapped) ← foldR unit_step (∅, []) us;
  _ ← validate_compound_image_parents mapped;
  Ok mapped.

(** ** The stream of a read *)

Inductive Code :=
| CCancelled | CUnknown | CDeadlineExceeded | CResourceExhausted | CAborted | CUnimplemented | CInternal | CUnavailable
| COther (n : Z).

#[export] Instance code_eq_dec : EqDecision Code.
Proof. solve_decision. Defined.

(** A status of the transport: its code and how it prints. *)
Record Status := { st_code : Code; st_text : str }.

Record StreamErr := { code : option Code; msg : str }.

Inductive DocReaderReadError :=
| RCancelled | Transient (message : str) | Configuration (message : str) | InvalidResponse (message : str).

Definition classified (e : StreamErr) : DocReaderReadError :=
  match code e with
  | Some CCancelled => RCancelled
  | Some (CUnavailable | CDeadlineExceeded | CAborted | CResourceExhausted | CInternal | CUnknown) => Transient (msg e)
  | _ => InvalidResponse (msg e)
  end.

(** [Display] *)
Definition error_text (e : DocReaderReadError) : str :=
  match e with RCancelled => u8"cancelled" | Transient m | Configuration m | InvalidResponse m => m end.

Definition map_status (s : Status) : StreamErr :=
  {| code := Some (st_code s); msg := u8"gRPC ReadStream failed: " ++ st_text s |}.

Record ReadStreamMeta := {
  m_markdown : str; m_metadata : gmap str str; m_error : str; m_image_count : Z; m_units : list ProtoUnit;
}.

Inductive Payload := Meta (meta : ReadStreamMeta) | Image (img : ImageRef).

(** A frame: its payload may be of a kind this client does not know. *)
Definition Frame : Type := option Payload.

(** What [stream.message()] brings, in order: a frame, a status, no frame within the time
    limit, or the cancellation of the read before the next frame.  After the last event the
    stream is at its end. *)
Inductive StreamEvent := EFrame (f : Frame) | EStatus (s : Status) | ETimeout | ECancel.

Record ReadResponse := {
  r_markdown : str; r_images : list ImageRef; r_metadata : gmap str str; r_error : str; r_units : list ProtoUnit;
}.

Record StreamState := { result_ : ReadResult; got_meta : bool; expected_images : option nat }.

Definition stream_start : StreamState := {| result_ := default_result; got_meta := false; expected_images := None |}.

Definition push_image (r : ReadResult) (img : ImageRef) : ReadResult :=
  {| markdown := markdown r; error := error r; images := images r ++ [img];
     structured_source_units := structured_source_units r; is_audio := is_audio r; audio_data := audio_data r;
     metadata := metadata r |}.

Definition apply_frame (st : StreamState) (f : Frame) : result StreamErr StreamState :=
  match f with
  | Some (Meta meta) =>
    match from_proto_units (m_units meta) with
    | Err e => Err {| code := None; msg := e |}
    | Ok us =>
      let r := result_ st in
      Ok {| got_meta := true;
            expected_images := if 0 <? m_image_count meta then Some (Z.to_nat (m_image_count meta)) else None;
            result_ := {| markdown := m_markdown meta; error := m_error meta; images := images r;
                          structured_source_units := us; is_audio := is_audio r; audio_data := audio_data r;
                          metadata := m_metadata meta ∪ metadata r |} |}
    end
  | Some (Image img) =>
    Ok {| got_meta := got_meta st; expected_images := expected_images st; result_ := push_image (result_ st) img |}
  | None => Ok st
  end.

Definition cancelled_err : StreamErr := {| code := Some CCancelled; msg := u8"cancelled" |}.
Definition timeout_err : StreamErr := {| code := Some CDeadlineExceeded; msg := u8"DocReader stream frame timeout" |}.

(** The images announced have all arrived. *)
Definition all_images (st : StreamState) : bool :=
  got_meta st && match expected_images st with Some n => (n <=? length (images (result_ st)))%nat | None => false end.

Fixpoint stream_loop (st : StreamState) (events : list StreamEvent) : result StreamErr StreamState :=
  match events with
  | ECancel :: _ => Err cancelled_err
  | _ =>
    if all_images st then Ok st
    else
      match events with
      | [] => Ok st
      | EFrame f :: events => st ← apply_frame st f; stream_loop st events
      | EStatus s :: _ => Err (map_status s)
      | ETimeout :: _ => Err timeout_err
      | ECancel :: _ => Err cancelled_err
      end
  end.

Definition no_meta_err : StreamErr :=
  {| code := Some CUnavailable; msg := u8"gRPC ReadStream returned no metadata frame" |}.
Definition incomplete_err (got n : nat) : StreamErr :=
  {| code := Some CUnavailable;
     msg := u8"gRPC ReadStream incomplete: got " ++ decimal (N.of_nat got) ++ u8" of " ++ decimal (N.of_nat n) ++ u8" images" |}.

Section client.
(** The check of the source contract of a result. *)
Context (source_contract : ReadResult -> result str (option SourceContract)).

Definition stream_end (st : StreamState) : result StreamErr ReadResult :=
  if negb (got_meta st) then Err no_meta_err
  else
    let r := result_ st in
    match expected_images st with
    | Some n => if (length (images r) <? n)%nat then Err (incomplete_err (length (images r)) n)
                else match source_contract r with Err e => Err {| code := None; msg := e |} | Ok _ => Ok r end
    | None => match source_contract r with Err e => Err {| code := None; msg := e |} | Ok _ => Ok r end
    end.

(** [client.read_stream(req)] gives the events or a status. *)
Definition read_stream (call : result Status (list StreamEvent)) : result StreamErr ReadResult :=
  match call with
  | Err s => Err (map_status s)
  | Ok events => st ← stream_loop stream_start events; stream_end st
  end.

(** [ReadResult::try_from(ReadResponse)] *)
Definition from_response (resp : ReadResponse) : result DocReaderReadError ReadResult :=
  match from_proto_units (r_units resp) with
  | Err e => Err (InvalidResponse e)
  | Ok us =>
    let r := {| markdown := r_markdown resp; error := r_error resp; images := r_images resp;
                structured_source_units := us; is_audio := false; audio_data := []; metadata := r_metadata resp |} in
    match source_contract r with Err e => Err (InvalidResponse e) | Ok _ => Ok r end
  end.

Definition read_unary (call : result Status ReadResponse) : result DocReaderReadError ReadResult :=
  match call with
  | Err s => Err (classified (map_status s))
  | Ok resp => from_response resp
  end.

(** A server as one read sees it: the connection, the streaming call and the unary call. *)
Record Server := {
  connect : result DocReaderReadError unit;
  stream_call : result Status (list StreamEvent);
  unary_call : result Status ReadResponse;
}.

Definition read_inner (server : Server) : result DocReaderReadError ReadResult :=
  _ ← connect server;
  match read_stream (stream_call server) with
  | Ok r => Ok r
  | Err e => if bool_decide (code e = Some CUnimplemented) then read_unary (unary_call server) else Err (classified e)
  end.

Definition NOT_CONFIGURED : str :=
  u8"Document parsing service is not configured. Please use text/paragraph import or set DOCREADER_ADDR.".
Definition E_CALL_TIMEOUT : str := u8"docreader call timeout after 1800s".

(** How the race of the call with its cancellation and its time limit ends. *)
Inductive Race := CallEnds | CancelFirst | TimeFirst.

Definition read_classified (addr : option str) (cancelled : bool) (race : Race) (server : str -> Server)
    : result DocReaderReadError ReadResult :=
  if cancelled then Err RCancelled
  else
    addr ← ok_or addr (Configuration NOT_CONFIGURED);
    match race with
    | CancelFirst => Err RCancelled
    | TimeFirst => Err (Transient E_CALL_TIMEOUT)
    | CallEnds => read_inner (server addr)
    end.

Definition with_error (r : ReadResult) (e : str) : ReadResult :=
  {| markdown := markdown r; error := e; images := images r; structured_source_units := structured_source_units r;
     is_audio := is_audio r; audio_data := audio_data r; metadata := metadata r |}.

(** [read]: [cancelled] at its first check, [cancelled'] at the one of [read_classified]. *)
Definition read (addr : option str) (cancelled cancelled' : bool) (race : Race) (server : str -> Server)
    : result str ReadResult :=
  if negb (has addr) && negb cancelled then Ok (with_error default_result NOT_CONFIGURED)
  else match read_classified addr cancelled' race server with Ok r => Ok r | Err e => Err (error_text e) end.
End client.

(** ** Settings of the client *)

Definition reader_addr (env : option str) : option str :=
  let t := trim (default [] env) in if str_is_empty t then None else Some t.

(** The product wraps at 64 bits. *)
Definition max_message_size (env : option str) : N :=
  let n := match env ≫= parse_usize with Some n => if (0 <? n)%N then n else 50%N | None => 50%N end in
  ((n * 1024 mod usize_modulus) * 1024 mod usize_modulus)%N.

Definition tls_enabled (env : option str) : bool :=
  let v := map to_ascii_lowercase (default [] env) in
  existsb (str_eqb v) [u8"1"; u8"true"; u8"yes"; u8"on"].

Definition endpoint_url (tls : option str) (addr : str) : str :=
  if starts_with addr (u8"http://") || starts_with addr (u8"https://") then addr
  else if tls_enabled tls then u8"https://" ++ addr else u8"http://" ++ addr.

(** The size check of [tender_command], in saturating arithmetic. *)
Definition command_too_large (json blob max : N) : bool :=
  let sat (a b : N) := N.min (a + b) (usize_modulus - 1) in (max <? sat (sat json blob) 64)%N.

(** ** Examples *)

Example a1_cells :
  (parse_a1_cell (u8"A1"), parse_a1_cell (u8" $ab$12 "), parse_a1_cell (u8"1A"), parse_a1_cell (u8"A0"),
   parse_a1_cell (u8"A1B"), parse_a1_cell (u8"ZZZZZZZZ1"))
  = (Some (1, 1), Some (12, 28), None, None, None, None).
Proof. vm_compute. reflexivity. Qed.

Example a1_ranges :
  (parse_a1_range (u8"A1:B2"), has (parse_a1_range (u8"B2")), has (parse_a1_range (u8"B2:A1")), has (parse_a1_range (u8"A1:B2:C3")))
  = (Some {| a1_range := u8"A1:B2"; start_row := 1; start_column := 1; end_row := 2; end_column := 2 |}, true, false, false).
Proof. vm_compute. reflexivity. Qed.
