(* ===== verification/DocReaderFacts.v ===== *)
(** * Facts about the DocReader client

    A1 notation denotes cells exactly, accepted messages are exactly the encodings of
    well-formed units, and a read delivers what a complete stream carries. *)
From S2P Require Import Prelude RustStr NumText StrReplace RustFloat SourceTypes TableGrid SourceContract DocReader.

Local Open Scope Z_scope.
#[local] Arguments lit : simpl never.

(** ** A1 notation *)

Lemma a1_column_app l1 l2 k : a1_column (l1 ++ l2) k = (a1_column l1 k ≫= a1_column l2).
Proof.
  revert k. induction l1 as [|c l1 IH]; intros k; [done|]. cbn [app a1_column].
  destruct (u32_checked_mul k 26) as [m|]; [|done]. rewrite !some_bind.
  destruct (u32_checked_add m (c - 65 + 1)) as [n|]; [|done]. by rewrite !some_bind, IH.
Qed.

(** The letters of a column: 1 is A, 27 is AA. *)
Fixpoint a1_letters_loop (fuel : nat) (n : Z) (acc : str) : str :=
  match fuel with
  | O => acc
  | S fuel => if n =? 0 then acc else a1_letters_loop fuel ((n - 1) / 26) ((65 + (n - 1) mod 26) :: acc)
  end.

(** Seven letters are enough for 32 bits. *)
Definition a1_letters (n : Z) : str := a1_letters_loop 7 n [].
Definition a1_name (row column : Z) : str := a1_letters column ++ decimal (Z.to_N row).

Lemma a1_letters_loop_acc fuel n acc : a1_letters_loop fuel n acc = a1_letters_loop fuel n [] ++ acc.
Proof.
  revert n acc. induction fuel as [|fuel IH]; intros n acc; [done|]. cbn [a1_letters_loop].
  destruct (n =? 0); [done|]. rewrite IH, (IH _ [_]). by rewrite <- app_assoc.
Qed.

(** The largest number of [fuel] letters. *)
Fixpoint letters_bound (fuel : nat) : Z := match fuel with O => 0 | S f => 26 * letters_bound f + 26 end.

Lemma letters_bound_7 : u32_modulus <= letters_bound 7.
Proof. vm_compute. discriminate. Qed.

Lemma a1_letters_loop_value fuel n : 0 <= n <= letters_bound fuel -> n < u32_modulus ->
  a1_column (a1_letters_loop fuel n []) 0 = Some n.
Proof.
  revert n. induction fuel as [|fuel IH]; intros n Hn Hu; cbn [a1_letters_loop letters_bound] in *.
  { cbn. f_equal. lia. }
  destruct (Z.eqb_spec n 0) as [->|Hne]; [done|]. rewrite a1_letters_loop_acc, a1_column_app.
  pose proof (Z.div_mod (n - 1) 26 ltac:(lia)) as Hd. pose proof (Z.mod_pos_bound (n - 1) 26 ltac:(lia)) as Hm.
  set (q := (n - 1) / 26) in *. set (r := (n - 1) mod 26) in *. clearbody q r.
  rewrite IH by lia. cbn [a1_column mbind option_bind]. unfold u32_checked_mul, u32_checked_add.
  destruct (Z.ltb_spec (q * 26) u32_modulus); [|lia]. cbn [mbind option_bind].
  destruct (Z.ltb_spec (q * 26 + (65 + r - 65 + 1)) u32_modulus); [|lia]. cbn. f_equal. lia.
Qed.

Lemma a1_letters_value c : 0 < c < u32_modulus -> a1_column (a1_letters c) 0 = Some c.
Proof. intros Hc. pose proof letters_bound_7. apply a1_letters_loop_value; lia. Qed.

Lemma a1_letters_loop_upper fuel n acc : Forall (fun c => is_ascii_uppercase c = true) acc ->
  Forall (fun c => is_ascii_uppercase c = true) (a1_letters_loop fuel n acc).
Proof.
  revert n acc. induction fuel as [|fuel IH]; intros n acc H; [done|]. cbn [a1_letters_loop].
  destruct (n =? 0); [done|]. apply IH. constructor; [|done]. unfold is_ascii_uppercase.
  pose proof (Z.mod_pos_bound (n - 1) 26). rewrite andb_true_iff, !Z.leb_le. lia.
Qed.

(** Reading letters from a column on only makes it larger. *)
Lemma a1_column_mono l k n : Forall (fun c => is_ascii_uppercase c = true) l -> 0 <= k ->
  a1_column l k = Some n -> k <= n < Z.max u32_modulus (k + 1).
Proof.
  intros Hl. revert k. induction Hl as [|c l Hc _ IH]; intros k Hk; cbn [a1_column]; [intros [= ->]; lia|].
  unfold is_ascii_uppercase in Hc. rewrite andb_true_iff, !Z.leb_le in Hc.
  unfold u32_checked_mul at 1, u32_checked_add at 1. destruct (Z.ltb_spec (k * 26) u32_modulus); [|done]. rewrite some_bind.
  destruct (Z.ltb_spec (k * 26 + (c - 65 + 1)) u32_modulus); [|done]. rewrite some_bind. intros H1%IH; [|lia]. lia.
Qed.

(** The letters of a column are unique. *)
Lemma a1_letters_unique l n fuel : Forall (fun c => is_ascii_uppercase c = true) l ->
  a1_column l 0 = Some n -> n <= letters_bound fuel -> a1_letters_loop fuel n [] = l.
Proof.
  revert n fuel. induction l as [|c l IH] using rev_ind; intros n fuel Hl Hn Hb.
  { cbn in Hn. injection Hn as <-. by destruct fuel. }
  apply Forall_app in Hl as [Hl Hc]. apply Forall_cons in Hc as [Hc _]. unfold is_ascii_uppercase in Hc.
  rewrite andb_true_iff, !Z.leb_le in Hc. rewrite a1_column_app in Hn. apply bind_Some in Hn as (k & Hk & Hn).
  pose proof (a1_column_mono l 0 k Hl ltac:(lia) Hk) as Hk0. cbn [a1_column] in Hn.
  apply bind_Some in Hn as (m & Hm & Hn). unfold u32_checked_mul in Hm. destruct (k * 26 <? u32_modulus); [|done].
  injection Hm as <-. apply bind_Some in Hn as (m & Hm & Hn). unfold u32_checked_add in Hm.
  destruct (k * 26 + (c - 65 + 1) <? u32_modulus); [|done]. injection Hm as <-. injection Hn as <-.
  destruct fuel as [|fuel]; [cbn in Hb; lia|]. cbn [a1_letters_loop letters_bound] in *.
  destruct (Z.eqb_spec (k * 26 + (c - 65 + 1)) 0); [lia|]. rewrite a1_letters_loop_acc.
  replace (k * 26 + (c - 65 + 1) - 1) with (k * 26 + (c - 65)) by lia.
  rewrite Z.div_add_l, Z.div_small, Z.add_0_r by lia. rewrite (Z.add_comm (k * 26)), Z.mod_add, Z.mod_small by lia.
  rewrite (IH k) by (assumption || lia). by replace (65 + (c - 65)) with c by lia.
Qed.

Lemma u32_digits_value s acc n : Forall (fun c => is_ascii_digit c = true) s -> 0 <= acc < u32_modulus ->
  u32_digits s acc = Some n <-> n = foldl (fun n c => n * 10 + (c - 48)) acc s /\ n < u32_modulus.
Proof.
  intros Hs. revert acc. induction Hs as [|c s Hc Hs IH]; intros acc Ha; cbn [u32_digits foldl].
  { split; [intros [= <-]; lia|intros [-> _]; done]. }
  unfold is_ascii_digit in Hc. rewrite andb_true_iff, !Z.leb_le in Hc.
  assert (Hgrow : forall acc, 0 <= acc -> acc <= foldl (fun n c => n * 10 + (c - 48)) acc s).
  { clear IH Ha acc. induction Hs as [|d s Hd _ IH]; intros acc Ha; [done|]. cbn [foldl].
    unfold is_ascii_digit in Hd. rewrite andb_true_iff, !Z.leb_le in Hd. specialize (IH (acc * 10 + (d - 48))). lia. }
  specialize (Hgrow (acc * 10 + (c - 48)) ltac:(lia)). unfold u32_checked_mul, u32_checked_add.
  destruct (Z.ltb_spec (acc * 10) u32_modulus); [|split; [done|lia]]. rewrite some_bind.
  destruct (Z.ltb_spec (acc * 10 + (c - 48)) u32_modulus); [|split; [done|lia]]. rewrite some_bind. apply IH. lia.
Qed.

Lemma digits_value_Z s acc : Forall (fun c => is_ascii_digit c = true) s ->
  foldl (fun n c => n * 10 + (c - 48)) (Z.of_N acc) s = Z.of_N (foldl (fun n c => n * 10 + Z.to_N (c - 48))%N acc s).
Proof.
  intros Hs. revert acc. induction Hs as [|c s Hc _ IH]; intros acc; [done|]. cbn [foldl]. rewrite <- IH. f_equal.
  unfold is_ascii_digit in Hc. rewrite andb_true_iff, !Z.leb_le in Hc. lia.
Qed.

Lemma u32_digits_spec s n : Forall (fun c => is_ascii_digit c = true) s ->
  u32_digits s 0 = Some n <-> n = Z.of_N (digits_value s) /\ n < u32_modulus.
Proof.
  intros Hs. rewrite u32_digits_value by (done || (unfold u32_modulus; lia)). unfold digits_value.
  by rewrite <- (digits_value_Z s 0 Hs).
Qed.

Lemma split_at_digit_spec s l d : split_at_digit s = Some (l, d) <->
  s = l ++ d /\ Forall (fun c => is_ascii_digit c = false) l /\ exists x d', d = x :: d' /\ is_ascii_digit x = true.
Proof.
  revert l. induction s as [|c s IH]; intros l; cbn [split_at_digit].
  { split; [done|]. intros (H & _ & x & d' & -> & _). by destruct l. }
  destruct (is_ascii_digit c) eqn:E.
  - split; [intros [= <- <-]; split; [done|]; split; [constructor|by exists c, s]|].
    intros (H & Hl & x & d' & -> & Hx). destruct l as [|y l]; [by rewrite H|]. injection H as <- _.
    apply Forall_cons in Hl as [Hl _]. congruence.
  - split.
    + intros ([l' d''] & Hs & [= <- <-])%bind_Some. apply IH in Hs as (-> & Hl & Hd). by repeat split; [constructor|].
    + intros (H & Hl & Hd). destruct l as [|y l].
      { destruct Hd as (x & d' & -> & Hx). injection H as <- _. congruence. }
      injection H as <- Hs. apply Forall_cons in Hl as [_ Hl]. by rewrite (proj2 (IH l) (conj Hs (conj Hl Hd))).
Qed.

Lemma upper_not_digit c : is_ascii_uppercase c = true -> is_ascii_digit c = false.
Proof. unfold is_ascii_uppercase, is_ascii_digit. rewrite andb_true_iff, andb_false_iff, !Z.leb_le, !Z.leb_gt. lia. Qed.

Lemma a1_letters_upper c : Forall (fun c => is_ascii_uppercase c = true) (a1_letters c).
Proof. by apply a1_letters_loop_upper. Qed.

Lemma a1_letters_nonempty c : 0 < c -> a1_letters c <> [].
Proof.
  intros Hc. unfold a1_letters. assert (H : forall f, a1_letters_loop (S f) c [] <> []); [|apply H].
  intros f. cbn [a1_letters_loop]. destruct (Z.eqb_spec c 0); [lia|].
  rewrite a1_letters_loop_acc. by destruct (a1_letters_loop _ _ []).
Qed.

(** The part of a cell name that counts: no blanks around, no [$], upper case. *)
Definition a1_normal (value : str) : str := map to_ascii_uppercase (replace (trim value) [DOLLAR] []).

Lemma parse_a1_cell_spec value r c : parse_a1_cell value = Some (r, c) <->
  0 < r < u32_modulus /\ 0 < c < u32_modulus /\ exists ds, a1_normal value = a1_letters c ++ ds
    /\ ds <> [] /\ Forall (fun c => is_ascii_digit c = true) ds /\ digits_value ds = Z.to_N r.
Proof.
  unfold parse_a1_cell. fold (a1_normal value). generalize (a1_normal value) as s. clear value. intros s. split.
  - intros ([l d] & Hs & H)%bind_Some. apply split_at_digit_spec in Hs as (-> & _ & x & d' & Hd & _).
    destruct (str_is_empty l || _ || _) eqn:E; [done|]. rewrite !orb_false_iff, !negb_false_iff, !forallb_Forall in E.
    destruct E as [[_ Hl] Hds]. apply bind_Some in H as (n & Hn & H). apply bind_Some in H as (m & Hm & H).
    destruct (Z.ltb_spec 0 m); [|done]. destruct (Z.ltb_spec 0 n); [|done]. injection H as <- <-.
    apply u32_digits_spec in Hm as [Hm Hmu]; [|done].
    pose proof (a1_column_mono l 0 n Hl ltac:(lia) Hn) as Hnu. assert (n < u32_modulus) by (unfold u32_modulus in *; lia).
    split; [lia|]. split; [lia|]. exists d. split; [|split; [by subst d|split; [done|lia]]].
    f_equal. symmetry. apply (a1_letters_unique l n 7 Hl Hn). pose proof letters_bound_7. lia.
  - intros (Hr & Hc & ds & -> & Hne & Hds & Hv). destruct ds as [|x ds]; [done|].
    rewrite (proj2 (split_at_digit_spec _ (a1_letters c) (x :: ds))).
    + rewrite some_bind. pose proof (a1_letters_nonempty c ltac:(lia)) as Hl. destruct (str_is_empty (a1_letters c)) eqn:E.
      { apply str_is_empty_spec in E. done. }
      rewrite (proj2 (forallb_Forall _ _) (a1_letters_upper c)), (proj2 (forallb_Forall _ _) Hds). cbn [negb orb].
      rewrite a1_letters_value by lia.
      rewrite some_bind. rewrite (proj2 (u32_digits_spec _ r Hds)) by (rewrite Hv; lia). rewrite some_bind.
      destruct (Z.ltb_spec 0 r); [|lia]. destruct (Z.ltb_spec 0 c); [done|lia].
    + split; [done|]. split; [|exists x, ds; by apply Forall_cons in Hds as [? _]].
      eapply Forall_impl; [apply a1_letters_upper|]. intros y. apply upper_not_digit.
Qed.

Lemma trim_start_by_id f s : Forall (fun c => f c = false) s -> trim_start_by f s = s.
Proof. destruct 1 as [|c s Hc _]; [done|]. cbn. by rewrite Hc. Qed.

Lemma trim_id s : Forall (fun c => is_whitespace c = false) s -> trim s = s.
Proof.
  intros H. unfold trim, trim_start, trim_end, trim_end_by. rewrite (trim_start_by_id _ s) by done.
  rewrite trim_start_by_id; [apply reverse_involutive|]. by apply Forall_reverse.
Qed.

Lemma replace_absent c s to : c ∉ s -> replace s [c] to = s.
Proof.
  unfold replace. induction s as [|d s IH]; intros H; [done|]. apply not_elem_of_cons in H as [Hne H].
  cbn [replace_from]. change (starts_with (d :: s) [c]) with ((c =? d) && starts_with s []).
  destruct (Z.eqb_spec c d); [done|]. cbn [andb]. by rewrite IH.
Qed.

(** The chars of plain cell names. *)
Definition a1_char (c : char) : bool := is_ascii_uppercase c || is_ascii_digit c.

Lemma a1_normal_id s : Forall (fun c => a1_char c = true) s -> a1_normal s = s.
Proof.
  intros H. assert (Hb : forall c, a1_char c = true -> is_whitespace c = false /\ c <> DOLLAR /\ to_ascii_uppercase c = c).
  { intros c Hc. unfold a1_char, is_ascii_uppercase, is_ascii_digit in Hc. rewrite orb_true_iff, !andb_true_iff, !Z.leb_le in Hc.
    unfold is_whitespace, DOLLAR, to_ascii_uppercase, is_ascii_lowercase.
    rewrite !orb_false_iff, !andb_false_iff, !Z.leb_gt, !Z.eqb_neq. split; [lia|]. split; [lia|].
    destruct (Z.leb_spec 97 c); [lia|done]. }
  unfold a1_normal. rewrite trim_id, replace_absent.
  - induction H as [|c s Hc _ IH]; [done|]. cbn [map]. rewrite IH. by destruct (Hb c Hc) as (_ & _ & ->).
  - intros Hd. rewrite Forall_forall in H. destruct (Hb _ (H _ Hd)) as (_ & Hne & _). contradiction.
  - eapply Forall_impl; [exact H|]. intros c Hc. by apply Hb.
Qed.

Lemma a1_name_chars r c : Forall (fun c => a1_char c = true) (a1_name r c).
Proof.
  apply Forall_app. split.
  - eapply Forall_impl; [apply a1_letters_upper|]. intros x Hx. unfold a1_char. by rewrite Hx.
  - eapply Forall_impl; [apply decimal_digits|]. intros x Hx. unfold a1_char. by rewrite Hx, orb_true_r.
Qed.

Lemma a1_name_parse r c : 0 < r < u32_modulus -> 0 < c < u32_modulus -> parse_a1_cell (a1_name r c) = Some (r, c).
Proof.
  intros Hr Hc. apply parse_a1_cell_spec. split; [done|]. split; [done|]. exists (decimal (Z.to_N r)).
  rewrite a1_normal_id by apply a1_name_chars. repeat split; [apply decimal_nonempty|apply decimal_digits|apply decimal_value].
Qed.

(** The name of a range, and what it denotes. *)
Definition a1_range_name (r1 c1 r2 c2 : Z) : str := a1_name r1 c1 ++ COLON :: a1_name r2 c2.

Lemma split_colon_none c s : c ∉ s -> split_char c s = [s].
Proof.
  induction s as [|d s IH]; intros H; [done|]. apply not_elem_of_cons in H as [Hne H]. cbn [split_char].
  rewrite IH by done. by destruct (Z.eqb_spec d c) as [->|].
Qed.

Lemma a1_name_no_colon r c : COLON ∉ a1_name r c.
Proof. intros H. pose proof (a1_name_chars r c) as Hf. rewrite Forall_forall in Hf. by apply Hf in H. Qed.

Lemma a1_range_name_parse r1 c1 r2 c2 : 0 < r1 <= r2 -> 0 < c1 <= c2 -> r2 < u32_modulus -> c2 < u32_modulus ->
  parse_a1_range (a1_range_name r1 c1 r2 c2)
  = Some {| a1_range := a1_range_name r1 c1 r2 c2; start_row := r1; start_column := c1; end_row := r2; end_column := c2 |}.
Proof.
  intros Hr Hc Hr2 Hc2. unfold parse_a1_range.
  assert (Hs : split_char COLON (a1_range_name r1 c1 r2 c2) = [a1_name r1 c1; a1_name r2 c2]).
  { unfold a1_range_name. change (COLON :: a1_name r2 c2) with ([COLON] ++ a1_name r2 c2). rewrite split_char_app_sep. by rewrite !split_colon_none by apply a1_name_no_colon. }
  rewrite Hs, !a1_name_parse by lia. cbn [mbind option_bind].
  destruct (Z.ltb_spec r2 r1); [lia|]. destruct (Z.ltb_spec c2 c1); [lia|done].
Qed.

(** A1 notation denotes cells exactly.  The plain name of a 32-bit cell and of a range is
    read back as that cell and range, and the names read as a cell are exactly its letters in
    any case followed by digits of its row, up to blanks around and [$] inside. *)
Theorem a1_cell_roundtrip (r c r2 c2 : Z) (Hr : 0 < r <= r2) (Hc : 0 < c <= c2)
    (Hr2 : r2 < u32_modulus) (Hc2 : c2 < u32_modulus) :
  parse_a1_cell (a1_name r c) = Some (r, c)
  /\ parse_a1_range (a1_range_name r c r2 c2)
     = Some {| a1_range := a1_range_name r c r2 c2; start_row := r; start_column := c; end_row := r2; end_column := c2 |}
  /\ forall value, parse_a1_cell value = Some (r, c) <->
       exists ds, a1_normal value = a1_letters c ++ ds /\ ds <> [] /\ Forall (fun c => is_ascii_digit c = true) ds
         /\ digits_value ds = Z.to_N r.
Proof.
  split; [apply a1_name_parse; lia|]. split; [apply a1_range_name_parse; lia|]. intros value.
  rewrite parse_a1_cell_spec. split; [by intros (_ & _ & H)|]. intros H. split; [lia|]. split; [lia|done].
Qed.

Lemma a1_cell_roundtrip_witness : parse_a1_cell (a1_name 12 28) = Some (12, 28) /\ a1_name 12 28 = u8"AB12".
Proof.
  split; [|vm_compute; reflexivity].
  refine (proj1 (a1_cell_roundtrip 12 28 12 28 _ _ _ _)); unfold u32_modulus; lia.
Defined.

(** ** Well-formed units *)

Definition range_ok (r : SpreadsheetRange) : Prop := parse_a1_range (a1_range r) = Some r.

(** Bounds are absent or four finite numbers in order. *)
Definition bounds_ok (left top right bottom : option f64) : Prop :=
  left = None /\ top = None /\ right = None /\ bottom = None
  \/ exists l t r b, left = Some l /\ top = Some t /\ right = Some r /\ bottom = Some b
     /\ Forall (fun x => f64_is_finite x = true) [l; t; r; b] /\ f64_lt l r = true /\ f64_lt t b = true.

Definition range_in (region r : SpreadsheetRange) : Prop :=
  start_row region <= start_row r /\ end_row r <= end_row region
  /\ start_column region <= start_column r /\ end_column r <= end_column region.

(** The address of a cell denotes its row and column, inside the region. *)
Definition cell_ok (region : SpreadsheetRange) (c : SpreadsheetCell) : Prop :=
  parse_a1_cell (sc_address c) = Some (sc_row c, sc_column c)
  /\ start_row region <= sc_row c <= end_row region /\ start_column region <= sc_column c <= end_column region.

(** The order of cells: by row, column and address. *)
Definition cell_before (a b : SpreadsheetCell) : Prop :=
  sc_row a < sc_row b
  \/ sc_row a = sc_row b /\ (sc_column a < sc_column b
                             \/ sc_column a = sc_column b /\ str_ltb (sc_address a) (sc_address b) = true).

Definition table_ok (region : SpreadsheetRange) (t : SpreadsheetTableIdentity) : Prop :=
  st_name t <> [] /\ st_display_name t <> [] /\ exists r, parse_a1_range (st_a1_range t) = Some r /\ range_in region r.

Definition locator_ok (l : StructuredSourceLocator) : Prop :=
  match l with
  | LDocument _ _ _ _ _ => True
  | LPage _ l t r b => bounds_ok l t r b
  | LPageTable _ _ l t r b =>
    Forall (fun x => f64_is_finite x = true) [l; t; r; b] /\ f64_le r l = false /\ f64_le t b = false
  | LSpreadsheet _ name region cells merged tables =>
    name <> [] /\ range_ok region
    /\ Forall (cell_ok region) cells /\ StronglySorted cell_before cells
    /\ Forall (fun r => range_ok r /\ range_in region r) merged /\ Sorted (fun a b => range_order_le a b = true) merged
    /\ Forall (table_ok region) tables /\ StronglySorted (fun a b => str_ltb (st_name a) (st_name b) = true) tables
  | LImage original_ref width height media_type page parent l t r b =>
    width <> 0 /\ height <> 0 /\ original_ref <> [] /\ media_type <> [] /\ bounds_ok l t r b
    /\ (page = None \/ parent = None) /\ (l <> None -> page <> None)
  | LAttachment part relationship => part <> [] /\ relationship <> []
  end.

Definition grid_ok (g : TableGrid) : Prop :=
  validate_table_grid g = Ok tt /\ StronglySorted (fun a b => anchor_before a b = true) (cells g).

Definition unit_ok (u : StructuredSourceUnit) : Prop :=
  key u <> [] /\ locator_ok (locator u) /\ compatible (u_kind u) (locator u) = true
  /\ (u_kind u = TableRow -> is_document (locator u) = true -> trim (text u) <> [])
  /\ match grid u with Some g => u_kind u = TableRegion /\ grid_ok g | None => True end.

(** An image inside a document names a paragraph's section, an anchor of a table's grid or a form
    that is among the units. *)
Definition parent_resolves (us : list StructuredSourceUnit) (p : CompoundImageParent) : Prop :=
  match p with
  | Paragraph s _ => exists v h, v ∈ us /\ u_kind v = Section_ /\ locator v = LDocument s None None None h
  | TableCell s t r c =>
    exists v g h, v ∈ us /\ u_kind v = TableRegion /\ locator v = LDocument s (Some t) None None h
      /\ grid v = Some g /\ grid_cell_is_anchor g r c = true
  | Form s f => exists v h, v ∈ us /\ u_kind v = FormRegion /\ locator v = LDocument s None None (Some f) h
  end.

Definition units_ok (us : list StructuredSourceUnit) : Prop :=
  (length us <= MAX_STRUCTURED_UNITS)%nat
  /\ (forall i u, us !! i = Some u -> u_ordinal u = Z.of_nat i) /\ NoDup (map key us) /\ Forall unit_ok us
  /\ (forall u p, u ∈ us -> compound_parent_of u = Some p -> parent_resolves us p).

(** ** The encoding of units *)

Definition no_leftover : PageTableLeftover :=
  {| pt_row_count := 0; pt_column_count := 0; pt_cells := []; pt_merged_ranges := []; pt_column_edges := []; pt_widths_mm := [] |}.

Definition encode_parent (p : CompoundImageParent) : CompoundParent :=
  match p with
  | Paragraph s p => ParagraphParent (Some s) (Some p)
  | TableCell s t r c => TableCellParent (Some s) (Some t) (Some r) (Some c)
  | Form s f => FormParent (Some s) (Some f)
  end.

Definition encode_locator (l : StructuredSourceLocator) : ProtoLocator :=
  match l with
  | LDocument s t r f h => PDocument s t r f h
  | LPage p l t r b => PPage p l t r b
  | LPageTable p n l t r b => PPageTable p n l t r b no_leftover
  | LSpreadsheet o n g c m d => PSpreadsheet o n (Some g) c m d
  | LImage o w h m p q l t r b => PImage o w h m p (option_map encode_parent q) l t r b
  | LAttachment p r => PAttachment p r
  end.

Definition kind_number (k : StructuredSourceUnitKind) : Z :=
  match k with Section_ => 1 | TableRow => 2 | TableRegion => 3 | FormRegion => 4 | AttachmentRegion => 5 | ImageRegion => 6 end.

Definition encode_grid (g : TableGrid) : ProtoGrid :=
  {| pg_row_count := row_count g; pg_column_count := column_count g; pg_cells := cells g;
     pg_widths_mm := default [] (widths_mm g) |}.

Definition encode_unit (u : StructuredSourceUnit) : ProtoUnit :=
  {| p_key := key u; p_ordinal := u_ordinal u; p_kind := kind_number (u_kind u); p_text := text u;
     p_locator := Some (encode_locator (locator u)); p_grid := option_map encode_grid (grid u) |}.

(** Messages that differ at most in the order of the cells of a grid. *)
Definition same_grid (a b : ProtoGrid) : Prop :=
  pg_row_count a = pg_row_count b /\ pg_column_count a = pg_column_count b /\ pg_cells a ≡ₚ pg_cells b
  /\ pg_widths_mm a = pg_widths_mm b.

Definition same_message (a b : ProtoUnit) : Prop :=
  p_key a = p_key b /\ p_ordinal a = p_ordinal b /\ p_kind a = p_kind b /\ p_text a = p_text b
  /\ p_locator a = p_locator b /\ option_Forall2 same_grid (p_grid a) (p_grid b).

(** ** Accepted locators are the encodings of well-formed ones *)

Lemma reject_then {E A} c (e : E) (k : result E A) b : (_ ← reject_if c e; k) = Ok b <-> c = false /\ k = Ok b.
Proof. destruct c; cbn; naive_solver. Qed.

Lemma Ok_inj {E A} (a b : A) : @Ok E A a = Ok b <-> b = a.
Proof. naive_solver. Qed.

Lemma parse_a1_cell_pos v r c : parse_a1_cell v = Some (r, c) -> 0 < r /\ 0 < c.
Proof. intros (Hr & Hc & _)%parse_a1_cell_spec. lia. Qed.

Lemma parse_a1_range_pos v r : parse_a1_range v = Some r ->
  a1_range r = v /\ 0 < start_row r <= end_row r /\ 0 < start_column r <= end_column r.
Proof.
  unfold parse_a1_range. destruct (split_char COLON v) as [|a [|b [|]]]; try done.
  all: intros ([r1 c1] & H1%parse_a1_cell_pos & H)%bind_Some; apply bind_Some in H as ([r2 c2] & H2%parse_a1_cell_pos & H).
  all: destruct (Z.ltb_spec r2 r1); [done|]; destruct (Z.ltb_spec c2 c1); [done|]; injection H as <-; cbn; split; [reflexivity|lia].
Qed.

Lemma from_proto_range_Ok v r : from_proto_range v = Ok r <-> r = v /\ range_ok v.
Proof.
  unfold from_proto_range, range_ok. rewrite reject_then, Ok_inj. destruct (parse_a1_range (a1_range v)) as [p|] eqn:E.
  - pose proof (parse_a1_range_pos _ _ E) as (Ha & Hr & Hc).
    rewrite !orb_false_iff, !negb_false_iff, !Z.eqb_eq, !Z.eqb_neq, !Z.ltb_ge. split.
    + intros ((_ & ((H1 & H2) & H3) & H4) & ->). split; [done|]. destruct p, v; cbn in *. by subst.
    + intros [-> [= ->]]. repeat split; try lia. destruct (a1_range v) eqn:Ev; [|done]. vm_compute in E. done.
  - rewrite !orb_true_r. naive_solver.
Qed.

Lemma validate_bounds_Ok l t r b name u : validate_bounds l t r b name = Ok u <-> bounds_ok l t r b.
Proof.
  unfold validate_bounds, bounds_ok. destruct u, l, t, r, b;
    try (split; [discriminate|intros [(? & ? & ? & ?)|(? & ? & ? & ? & ? & ? & ? & ? & _)]; discriminate]).
  - rewrite reject_if_Ok, negb_false_iff, !andb_true_iff. split.
    + intros H. right. do 4 eexists. do 4 (split; [reflexivity|]). rewrite !Forall_cons, Forall_nil. tauto.
    + intros [(? & _)|(? & ? & ? & ? & [= <-] & [= <-] & [= <-] & [= <-] & H & ? & ?)]; [done|].
      rewrite !Forall_cons, Forall_nil in H. tauto.
  - split; [by left|done].
Qed.

Lemma page_table_Ok p n l t r b x loc :
  from_proto_page_table p n l t r b x = Ok loc <->
  x = no_leftover /\ loc = LPageTable p n l t r b /\ locator_ok (LPageTable p n l t r b).
Proof.
  unfold from_proto_page_table. rewrite !reject_then, Ok_inj, !orb_false_iff, !negb_false_iff, !Z.eqb_eq. cbn [locator_ok].
  rewrite !Forall_cons, Forall_nil. destruct x as [rc cc [|] [|] [|] [|]]; cbn; unfold no_leftover; naive_solver.
Qed.

Lemma from_proto_parent_Ok p q : from_proto_parent p = Ok q <-> p = encode_parent q.
Proof.
  destruct p as [[s|] [p|]|[s|] [t|] [r|] [c|]|[s|] [f|]], q; cbn; naive_solver.
Qed.

Lemma image_locator_Ok o w h m p q l t r b loc :
  from_proto_image_locator o w h m p q l t r b = Ok loc <->
  exists q', q = option_map encode_parent q' /\ loc = LImage o w h m p q' l t r b /\ locator_ok (LImage o w h m p q' l t r b).
Proof.
  unfold from_proto_image_locator. rewrite bind_Ok.
  assert (Hq : forall q', match q with Some p => q0 ← from_proto_parent p; Ok (Some q0) | None => Ok None end = Ok q'
            <-> q = option_map encode_parent q').
  { intros q'. destruct q as [c|]; [rewrite bind_Ok; setoid_rewrite from_proto_parent_Ok|]; destruct q'; cbn; naive_solver. }
  setoid_rewrite Hq. apply exist_proper. intros q'. apply and_iff_compat_l.
  rewrite reject_then, bind_Ok. setoid_rewrite validate_bounds_Ok. setoid_rewrite reject_then. setoid_rewrite reject_then.
  rewrite !orb_false_iff, !andb_false_iff, !Z.eqb_neq. setoid_rewrite Ok_inj. cbn [locator_ok].
  assert (He : forall s, str_is_empty s = false <-> s <> []) by (intros []; done). rewrite !He.
  assert (Hh : forall A (x : option A), has x = false <-> x = None) by (intros ? []; done). rewrite !Hh.
  destruct l; cbn [has andb]; setoid_rewrite negb_false_iff || idtac; destruct p, q'; cbn [has]; naive_solver.
Qed.

(** The loops over a spreadsheet's cells, merged ranges and tables. *)
Lemma cell_order_before a b : cell_order_ltb a b = true <-> cell_before a b.
Proof. unfold cell_order_ltb, cell_before. rewrite !orb_true_iff, !andb_true_iff, orb_true_iff, andb_true_iff, !Z.ltb_lt, !Z.eqb_eq. done. Qed.

Lemma cell_before_irrefl a : ~ cell_before a a.
Proof. unfold cell_before. rewrite str_ltb_irrefl. intros [?|(_ & [?|(_ & ?)])]; [lia|lia|done]. Qed.

Lemma cell_before_trans a b c : cell_before a b -> cell_before b c -> cell_before a c.
Proof.
  unfold cell_before. intros [H1|(H1 & [H1'|(H1' & H1'')])] [H2|(H2 & [H2'|(H2' & H2'')])]; try (left; lia);
    right; (split; [lia|]); try (left; lia). right. split; [lia|]. by eapply str_ltb_trans.
Qed.

(** The addresses seen belong to cells that are not after the previous one. *)
Definition seen_before (region : SpreadsheetRange) (addresses : gset str) (previous : option SpreadsheetCell) : Prop :=
  forall a, a ∈ addresses -> exists p c, previous = Some p /\ cell_ok region c /\ sc_address c = a /\ (c = p \/ cell_before c p).

Lemma cell_step_Ok region A p c st :
  seen_before region A p -> (forall q, p = Some q -> cell_ok region q) ->
  cell_step region (A, p) c = Ok st <->
  st = ({[ sc_address c ]} ∪ A, Some c) /\ cell_ok region c /\ (forall q, p = Some q -> cell_before q c).
Proof.
  intros HA Hp. unfold cell_step. rewrite reject_then, Ok_inj, !orb_false_iff, negb_false_iff, bool_decide_eq_true, !Z.eqb_neq.
  unfold cell_outside. rewrite !orb_false_iff, !Z.ltb_ge, bool_decide_eq_false. unfold cell_ok.
  assert (Hprev : match p with Some q => negb (cell_order_ltb q c) | None => false end = false
                  <-> forall q, p = Some q -> cell_before q c).
  { destruct p as [q|]; [|naive_solver]. rewrite negb_false_iff, cell_order_before. naive_solver. }
  rewrite Hprev. split; [naive_solver lia|]. intros (-> & [Ha Hin] & Hb). split; [|done].
  destruct (parse_a1_cell_pos _ _ _ Ha) as [? ?]. repeat (split; [|]); try lia; try done.
  - destruct (sc_address c) eqn:E; [by vm_compute in Ha|done].
  - intros Hseen. apply HA in Hseen as (q & d & -> & [Hd _] & Hda & Hbd). rewrite Hda, Ha in Hd. injection Hd as Hr Hcol.
    specialize (Hb q eq_refl). assert (Hdc : cell_before d c) by (destruct Hbd as [->|?]; [done|by eapply cell_before_trans]).
    unfold cell_before in Hdc. rewrite Hda, str_ltb_irrefl in Hdc. destruct Hdc as [?|(_ & [?|(_ & ?)])]; [lia|lia|done].
Qed.

Lemma cells_Ok region cs A p :
  seen_before region A p -> (forall q, p = Some q -> cell_ok region q) ->
  is_Ok (foldR (cell_step region) (A, p) cs) <->
  Forall (cell_ok region) cs /\ StronglySorted cell_before cs /\ forall q c, p = Some q -> c ∈ cs -> cell_before q c.
Proof.
  unfold is_Ok. revert A p. induction cs as [|c cs IH]; intros A p HA Hp; cbn [foldR].
  { split; [|by eexists]. intros _. split; [constructor|]. split; [constructor|]. intros q c _ Hc. by apply not_elem_of_nil in Hc. }
  setoid_rewrite bind_Ok. setoid_rewrite (cell_step_Ok region A p c _ HA Hp).
  assert (HA' : cell_ok region c -> (forall q, p = Some q -> cell_before q c) -> seen_before region ({[sc_address c]} ∪ A) (Some c)).
  { intros Hc Hb a [->%elem_of_singleton|Ha]%elem_of_union; exists c; [exists c; auto|].
    destruct (HA a Ha) as (q & d & Hq & Hd & <- & Hdq). exists d. split; [done|]. split; [done|]. split; [done|]. right.
    destruct Hdq as [->|?]; [by apply Hb|]. eapply cell_before_trans; [done|by apply Hb]. }
  split.
  - intros (st & st' & (-> & Hc & Hb) & Hf). specialize (HA' Hc Hb).
    destruct (proj1 (IH _ _ HA' ltac:(intros q [= <-]; done)) (ex_intro _ _ Hf)) as (H1 & H2 & H3).
    split; [by constructor|]. split; [constructor; [done|]; apply Forall_forall; intros d; by apply H3|].
    intros q d Hq [->|Hd]%elem_of_cons; [by apply Hb|]. eapply cell_before_trans; [by apply Hb|by apply H3].
  - intros ([Hc Hcs]%Forall_cons & Hs & Hb). apply StronglySorted_inv in Hs as [Hs Hf]. rewrite Forall_forall in Hf.
    assert (Hbc : forall q, p = Some q -> cell_before q c) by (intros q Hq; apply (Hb q c Hq); left).
    specialize (HA' Hc Hbc). destruct (proj2 (IH _ _ HA' ltac:(intros q [= <-]; done))) as [st Hst].
    { split; [done|]. split; [done|]. intros q d [= <-]. apply Hf. }
    exists st, ({[sc_address c]} ∪ A, Some c). done.
Qed.

Lemma merged_Ok region rs acc out :
  foldR (merged_step region) acc rs = Ok out <-> out = acc ++ rs /\ Forall (fun r => range_ok r /\ range_in region r) rs.
Proof.
  revert acc. induction rs as [|r rs IH]; intros acc; cbn [foldR].
  { rewrite Ok_inj, app_nil_r. split; [intros ->; split; [done|constructor]|by intros [-> _]]. }
  rewrite bind_Ok, Forall_cons. unfold merged_step at 1. setoid_rewrite bind_Ok. setoid_rewrite from_proto_range_Ok.
  setoid_rewrite reject_then. setoid_rewrite Ok_inj. unfold range_in. split.
  - intros (st & (r' & [-> Hr] & Hin & ->) & Hf). rewrite !orb_false_iff, !Z.ltb_ge in Hin. apply IH in Hf as [-> Hf].
    rewrite <- app_assoc. split; [done|]. split; [tauto|exact Hf].
  - intros [-> [[Hr Hin] Hrs]]. exists (acc ++ [r]). split.
    + exists r. rewrite !orb_false_iff, !Z.ltb_ge. tauto.
    + apply IH. by rewrite <- app_assoc.
Qed.

Lemma windows_Sorted l : windows_ordered l = true <-> Sorted (fun a b => range_order_le a b = true) l.
Proof.
  induction l as [|a [|b l] IH]; [split; [constructor|done]|split; [repeat constructor|done]|]. cbn [windows_ordered] in *.
  rewrite andb_true_iff, IH. split.
  - intros [Hab Hl]. apply Sorted_cons; [exact Hl|]. apply HdRel_cons. exact Hab.
  - intros H. apply Sorted_inv in H as [Hl Hab]. apply HdRel_inv in Hab. by split.
Qed.

Lemma table_step_Ok region p t st : table_step region p t = Ok st <->
  st = Some (st_name t) /\ table_ok region t /\ (forall n, p = Some n -> str_ltb n (st_name t) = true).
Proof.
  unfold table_step, table_ok. rewrite !reject_then, Ok_inj, !orb_false_iff.
  assert (He : forall s, str_is_empty s = false <-> s <> []) by (intros []; done). rewrite !He.
  assert (Hr : forall r, range_contains region r = true <-> range_in region r).
  { intros r. unfold range_contains, range_in. rewrite !andb_true_iff, !Z.leb_le. tauto. }
  assert (Hp : match p with Some n => negb (str_ltb n (st_name t)) | None => false end = false
               <-> forall n, p = Some n -> str_ltb n (st_name t) = true).
  { destruct p; [rewrite negb_false_iff|]; naive_solver. }
  rewrite Hp. destruct (parse_a1_range (st_a1_range t)) as [r|] eqn:E; [rewrite negb_false_iff, Hr|]; [|naive_solver].
  split; [naive_solver|]. intros (-> & (H1 & H2 & r' & [= <-] & H3) & H4).
  assert (st_a1_range t <> []) by (intros Ht; rewrite Ht in E; by vm_compute in E). tauto.
Qed.

Lemma tables_Ok region ts p :
  is_Ok (foldR (table_step region) p ts) <->
  Forall (table_ok region) ts /\ StronglySorted (fun a b => str_ltb (st_name a) (st_name b) = true) ts
  /\ forall n t, p = Some n -> t ∈ ts -> str_ltb n (st_name t) = true.
Proof.
  unfold is_Ok. revert p. induction ts as [|t ts IH]; intros p; cbn [foldR].
  { split; [|by eexists]. intros _. split; [constructor|]. split; [constructor|]. intros n t _ Ht. by apply not_elem_of_nil in Ht. }
  setoid_rewrite bind_Ok. setoid_rewrite table_step_Ok. split.
  - intros (st & st' & (-> & Ht & Hb) & Hf). destruct (proj1 (IH (Some (st_name t))) (ex_intro _ _ Hf)) as (H1 & H2 & H3).
    split; [by constructor|]. split; [constructor; [done|]; apply Forall_forall; intros d; by apply H3|].
    intros n d Hn [->|Hd]%elem_of_cons; [by apply Hb|]. eapply str_ltb_trans; [by apply Hb|by apply H3].
  - intros ([Ht Hts]%Forall_cons & Hs & Hb). apply StronglySorted_inv in Hs as [Hs Hf]. rewrite Forall_forall in Hf.
    destruct (proj2 (IH (Some (st_name t)))) as [st Hst].
    { split; [done|]. split; [done|]. intros n d [= <-]. apply Hf. }
    exists st, (Some (st_name t)). split; [|done]. split; [done|]. split; [done|]. intros n Hn. apply (Hb n t Hn). left.
Qed.

Lemma then_Ok {E A B} (r : result E A) (k : result E B) b : (_ ← r; k) = Ok b <-> is_Ok r /\ k = Ok b.
Proof. rewrite bind_Ok. unfold is_Ok. naive_solver. Qed.

Lemma spreadsheet_Ok o n g c m d loc :
  from_proto_spreadsheet o n g c m d = Ok loc <->
  exists region, g = Some region /\ loc = LSpreadsheet o n region c m d /\ locator_ok (LSpreadsheet o n region c m d).
Proof.
  unfold from_proto_spreadsheet. rewrite reject_then, bind_Ok. setoid_rewrite ok_or_Ok.
  assert (He : forall s, str_is_empty s = false <-> s <> []) by (intros []; done). rewrite He.
  assert (H : forall region, (region ← from_proto_range region;
      _ ← foldR (cell_step region) (∅, None) c; merged ← foldR (merged_step region) [] m;
      _ ← reject_if (negb (windows_ordered merged)) E_MERGED_ORDER;
      _ ← foldR (table_step region) None d; Ok (LSpreadsheet o n region c merged d)) = Ok loc
    <-> loc = LSpreadsheet o n region c m d /\ range_ok region /\ Forall (cell_ok region) c /\ StronglySorted cell_before c
        /\ Forall (fun r => range_ok r /\ range_in region r) m /\ Sorted (fun a b => range_order_le a b = true) m
        /\ Forall (table_ok region) d /\ StronglySorted (fun a b => str_ltb (st_name a) (st_name b) = true) d).
  { intros region. rewrite bind_Ok. setoid_rewrite from_proto_range_Ok. setoid_rewrite then_Ok. setoid_rewrite bind_Ok.
    setoid_rewrite merged_Ok. setoid_rewrite reject_then. setoid_rewrite then_Ok. setoid_rewrite Ok_inj.
    setoid_rewrite tables_Ok. setoid_rewrite negb_false_iff. setoid_rewrite windows_Sorted.
    pose proof (cells_Ok region c ∅ None ltac:(intros a Ha; by apply not_elem_of_empty in Ha) ltac:(done)) as Hc. split.
    - intros (? & [-> Hr] & Hcells & ? & (-> & Hm) & Hw & (Ht & Hts & _) & ->). apply Hc in Hcells as (? & ? & _). done.
    - intros (-> & Hr & Hc1 & Hc2 & Hm & Hw & Ht & Hts). exists region. split; [done|]. split; [by apply Hc|].
      exists m. split; [done|]. split; [done|]. done. }
  setoid_rewrite H. cbn [locator_ok]. naive_solver.
Qed.

Lemma locator_Ok p l : from_proto_locator p = Ok l <-> p = encode_locator l /\ locator_ok l.
Proof.
  destruct p; cbn [from_proto_locator].
  - rewrite Ok_inj. destruct l; cbn; naive_solver.
  - rewrite then_Ok, Ok_inj. unfold is_Ok. setoid_rewrite validate_bounds_Ok.
    destruct l; cbn; naive_solver.
  - rewrite spreadsheet_Ok. destruct l; cbn [encode_locator]; try naive_solver.
  - rewrite image_locator_Ok. destruct l; cbn [encode_locator]; try naive_solver. split.
    + intros (q & -> & [= -> -> -> -> -> -> -> -> -> ->] & H). done.
    + intros [[= -> -> -> -> -> -> -> -> -> ->] H]. by eexists.
  - rewrite reject_then, Ok_inj, orb_false_iff. assert (He : forall s, str_is_empty s = false <-> s <> []) by (intros []; done).
    rewrite !He. destruct l; cbn; naive_solver.
  - rewrite page_table_Ok. destruct l; cbn [encode_locator]; try naive_solver. split.
    + intros (-> & [= -> -> -> -> -> ->] & H). done.
    + intros [[= -> -> -> -> -> -> ->] H]. done.
Qed.

(** ** Accepted units *)

Lemma kind_of_Some n k : kind_of n = Some k <-> n = kind_number k.
Proof.
  unfold kind_of. split.
  - repeat case_match; bool_to_prop; intros [= <-]; done.
  - intros ->. by destruct k.
Qed.

Lemma sort_by_id {A} (le : A -> A -> bool) l : StronglySorted (fun a b => le a b = true) l -> sort_by le l = l.
Proof.
  induction 1 as [|a l _ IH Hf]; [done|]. unfold sort_by in *. cbn [foldr]. rewrite IH.
  destruct Hf as [|b l Hb _]; [done|]. cbn. by rewrite Hb.
Qed.

Lemma grid_decoded v g : from_proto_grid v = Ok g -> grid_ok g /\ same_grid v (encode_grid g).
Proof.
  unfold from_proto_grid. rewrite then_Ok. intros [[[] Hv] [= <-]]. unfold grid_ok, same_grid. cbn.
  split; [split; [done|]|].
  - apply sort_by_sorted; eauto using anchor_before_total, anchor_before_trans.
  - split; [done|]. split; [done|]. split; [symmetry; apply sort_by_perm|]. by destruct (pg_widths_mm v).
Qed.

Lemma grid_encoded g : grid_ok g -> from_proto_grid (encode_grid g) = Ok g.
Proof.
  intros [Hv Hs]. unfold from_proto_grid, encode_grid. cbn [pg_row_count pg_column_count pg_cells pg_widths_mm].
  rewrite sort_by_id by done.
  assert (Hw : match default [] (widths_mm g) with [] => None | ws => Some ws end = widths_mm g).
  { destruct (widths_mm g) as [[|w ws]|] eqn:Ew; try done. exfalso. unfold validate_table_grid in Hv.
    rewrite reject_then, orb_false_iff, !Z.eqb_neq in Hv. destruct Hv as [[_ Hc] Hv].
    apply bind_Ok in Hv as ([? occ] & _ & Hv). apply bind_Ok in Hv as (? & _ & Hv).
    rewrite !reject_then in Hv. destruct Hv as (_ & Hv & _). unfold widths_fault in Hv. rewrite Ew in Hv. cbn in Hv.
    rewrite orb_false_r, negb_false_iff, Z.eqb_eq in Hv. lia. }
  rewrite Hw. destruct g as [rc cc cs ws]. cbn [row_count column_count cells widths_mm]. by rewrite Hv.
Qed.

Lemma unit_decoded p u : from_proto_unit p = Ok u -> unit_ok u /\ same_message p (encode_unit u).
Proof.
  unfold from_proto_unit. rewrite bind_Ok. setoid_rewrite ok_or_Ok. intros (k & Hk%kind_of_Some & H).
  rewrite reject_then, bind_Ok in H. destruct H as (Hkey & l & Hl%ok_or_Ok & H).
  apply bind_Ok in H as (loc & Hloc & H). apply locator_Ok in Hloc as [-> Hloc]. rewrite !reject_then in H.
  destruct H as (Hc & Hrow & H). apply bind_Ok in H as (g & Hg & [= <-]).
  assert (Hgrid : match g with Some g => k = TableRegion /\ grid_ok g | None => True end
                  /\ option_Forall2 same_grid (p_grid p) (option_map encode_grid g)).
  { unfold unit_grid in Hg. destruct (p_grid p) as [v|]; [|by injection Hg as <-; split; [|constructor]].
    rewrite reject_then in Hg. destruct Hg as [Hkind Hg]. apply bind_Ok in Hg as (g' & Hg & [= <-]).
    apply grid_decoded in Hg as [Hg Hs]. rewrite negb_false_iff, bool_decide_eq_true in Hkind. split; [done|by constructor]. }
  destruct Hgrid as [Hg1 Hg2]. unfold unit_ok, same_message. cbn.
  split; [|repeat (split; [done|]); exact Hg2].
  split; [by intros E; rewrite E in Hkey|]. split; [done|]. split; [by apply negb_false_iff|]. split; [|done].
  intros -> Hd Ht. rewrite Hd, Ht in Hrow. done.
Qed.

Lemma unit_encoded u : unit_ok u -> from_proto_unit (encode_unit u) = Ok u.
Proof.
  intros (Hkey & Hloc & Hc & Hrow & Hg). unfold from_proto_unit. cbn [encode_unit p_kind p_key p_locator p_text p_grid p_ordinal].
  rewrite (proj2 (kind_of_Some _ (u_kind u)) eq_refl). cbn [ok_or mbind result_bind].
  destruct (str_is_empty (key u)) eqn:E; [by apply str_is_empty_spec in E|]. cbn [reject_if mbind result_bind].
  rewrite (proj2 (locator_Ok _ (locator u)) (conj eq_refl Hloc)). cbn [mbind result_bind].
  rewrite Hc. cbn [negb reject_if mbind result_bind].
  assert (Hr : bool_decide (u_kind u = TableRow) && is_document (locator u) && str_is_empty (trim (text u)) = false).
  { apply not_true_iff_false. rewrite !andb_true_iff, bool_decide_eq_true, str_is_empty_spec. intros [[H1 H2] H3].
    by apply Hrow. }
  rewrite Hr. cbn [reject_if mbind result_bind]. unfold unit_grid. destruct u as [k o kd t l [g|]]; cbn in *; [|done].
  destruct Hg as [-> Hg]. rewrite bool_decide_eq_true_2 by done. cbn [negb reject_if mbind result_bind].
  by rewrite (grid_encoded g Hg).
Qed.

(** ** Accepted messages *)

Lemma elem_of_omap_units {A} (f : StructuredSourceUnit -> option A) (us : list StructuredSourceUnit) x :
  x ∈ omap f us <-> exists u, u ∈ us /\ f u = Some x.
Proof. by rewrite list_elem_of_omap. Qed.

Lemma parent_valid_resolves us p : Forall unit_ok us -> parent_valid us p = true <-> parent_resolves us p.
Proof.
  intros Hok. rewrite Forall_forall in Hok. destruct p as [s q|s t r c|s f]; cbn [parent_valid parent_resolves].
  - rewrite bool_decide_eq_true. unfold sections_of. rewrite elem_of_omap_units. split.
    + intros (u & Hu & H). destruct (Hok u Hu) as (_ & _ & Hc & _). exists u.
      destruct (u_kind u), (locator u) as [? [] [] [] ?| | | | |]; try done. injection H as <-. by eexists.
    + intros (u & h & Hu & Hk & Hl). exists u. by rewrite Hk, Hl.
  - rewrite existsb_exists. unfold table_grids_of. setoid_rewrite <- list_elem_of_In. setoid_rewrite elem_of_omap_units. split.
    + intros ([[s' t'] g] & (u & Hu & H) & Hg). rewrite !andb_true_iff, !Z.eqb_eq in Hg. destruct Hg as [[-> ->] Hg].
      destruct (Hok u Hu) as (_ & _ & Hc & _). exists u, g.
      destruct (u_kind u), (locator u) as [? [] [] [] ?| | | | |]; try done. apply bind_Some in H as (g' & Hug & [= <- <- <-]).
      by eexists.
    + intros (u & g & h & Hu & Hk & Hl & Hg & Ha). exists (s, t, g). split.
      * exists u. split; [done|]. by rewrite Hk, Hl, Hg.
      * by rewrite !Z.eqb_refl.
  - rewrite bool_decide_eq_true. unfold forms_of. rewrite elem_of_omap_units. split.
    + intros (u & Hu & H). destruct (Hok u Hu) as (_ & _ & Hc & _). exists u.
      destruct (u_kind u), (locator u) as [? [] [] [] ?| | | | |]; try done. injection H as <- <-. by eexists.
    + intros (u & h & Hu & Hk & Hl). exists u. by rewrite Hk, Hl.
Qed.

Lemma parents_Ok us : Forall unit_ok us ->
  is_Ok (validate_compound_image_parents us) <->
  forall u p, u ∈ us -> compound_parent_of u = Some p -> parent_resolves us p.
Proof.
  intros Hok. unfold is_Ok, validate_compound_image_parents. setoid_rewrite reject_if_Ok. split.
  - intros [_ H] u p Hu Hp. apply (parent_valid_resolves us p Hok). apply not_true_iff_false in H.
    apply not_false_iff_true. intros Hf. apply H, existsb_exists. exists u. split; [by apply list_elem_of_In|]. by rewrite Hp, Hf.
  - intros H. exists tt. apply not_true_iff_false. intros (u & Hu & Hb)%existsb_exists. apply list_elem_of_In in Hu.
    destruct (compound_parent_of u) as [p|] eqn:Hp; [|done]. by rewrite (proj2 (parent_valid_resolves us p Hok) (H u p Hu Hp)) in Hb.
Qed.

(** What the loop over the messages has established. *)
Lemma unit_steps_Ok ps : forall keys mapped keys' out,
  foldR unit_step (keys, mapped) ps = Ok (keys', out) ->
  exists us, out = mapped ++ us /\ Forall unit_ok us /\ Forall2 same_message ps (map encode_unit us)
    /\ (forall i u, us !! i = Some u -> u_ordinal u = Z.of_nat (length mapped + i))
    /\ NoDup (map key us) /\ Forall (fun u => key u ∉ keys) us.
Proof.
  induction ps as [|p ps IH]; intros keys mapped keys' out; cbn [foldR].
  { intros [= _ <-]. exists []. rewrite app_nil_r. repeat split; constructor || done. }
  intros ([keys1 mapped1] & Hstep & Hf)%bind_Ok. unfold unit_step in Hstep. rewrite !reject_then in Hstep.
  destruct Hstep as (Ho & Hk & Hstep). apply bind_Ok in Hstep as (u & Hu & [= <- <-]).
  pose proof (unit_decoded _ _ Hu) as [Hok Hsame]. rewrite negb_false_iff, Z.eqb_eq in Ho. rewrite bool_decide_eq_false in Hk.
  apply IH in Hf as (us & -> & Hus & Hs & Hord & Hnd & Hfresh). exists (u :: us).
  assert (Hkey : p_key p = key u /\ p_ordinal p = u_ordinal u) by (destruct Hsame as (? & ? & _); done).
  destruct Hkey as [Hkey Hpo]. rewrite Forall_forall in Hfresh.
  split; [by rewrite <- app_assoc|]. split; [by constructor|]. split; [by constructor|]. split; [|split].
  - intros [|i] v Hv; cbn in Hv.
    + injection Hv as <-. rewrite <- Hpo, Ho. f_equal. lia.
    + rewrite (Hord i v Hv), length_app. cbn. f_equal. lia.
  - cbn [map]. constructor; [|done]. intros (v & Hv & Hin)%list_elem_of_In%in_map_iff.
    apply (Hfresh v); [by apply list_elem_of_In|]. rewrite <- Hkey in Hv. set_solver.
  - constructor; [by rewrite <- Hkey|]. apply Forall_forall. intros v Hv. specialize (Hfresh v Hv). set_solver.
Qed.

Lemma unit_step_accepts keys mapped p u :
  p_ordinal p = Z.of_nat (length mapped) -> p_key p ∉ keys -> from_proto_unit p = Ok u ->
  unit_step (keys, mapped) p = Ok ({[ p_key p ]} ∪ keys, mapped ++ [u]).
Proof.
  intros Ho Hk Hu. unfold unit_step. rewrite !reject_then, Ho, Z.eqb_refl, bool_decide_eq_false_2 by done.
  split; [done|]. split; [done|]. by rewrite Hu.
Qed.

Lemma unit_steps_encoded us : forall keys mapped,
  Forall unit_ok us -> (forall i u, us !! i = Some u -> u_ordinal u = Z.of_nat (length mapped + i)) -> NoDup (map key us) ->
  Forall (fun u => key u ∉ keys) us ->
  exists keys', foldR unit_step (keys, mapped) (map encode_unit us) = Ok (keys', mapped ++ us).
Proof.
  induction us as [|u us IH]; intros keys mapped Hok Hord Hnd Hfresh; cbn [map foldR]; [exists keys; by rewrite app_nil_r|].
  apply Forall_cons in Hok as [Hu Hok]. apply Forall_cons in Hfresh as [Hk Hfresh]. apply NoDup_cons in Hnd as [Hku Hnd].
  assert (Hstep : unit_step (keys, mapped) (encode_unit u) = Ok ({[ key u ]} ∪ keys, mapped ++ [u])).
  { apply (unit_step_accepts keys mapped (encode_unit u) u); [|exact Hk|by apply unit_encoded].
    rewrite <- (Nat.add_0_r (length mapped)). exact (Hord 0%nat u eq_refl). }
  rewrite Hstep. cbn [mbind result_bind]. destruct (IH ({[ key u ]} ∪ keys) (mapped ++ [u])) as [keys' Hf]; [done| |done| |].
  - intros i v Hv. rewrite (Hord (S i) v Hv), length_app. cbn. f_equal. lia.
  - rewrite Forall_forall in *. intros v Hv [He|Hin]%elem_of_union; [|by apply (Hfresh v)].
    apply elem_of_singleton in He. apply Hku. rewrite <- He. by apply list_elem_of_fmap_2.
  - exists keys'. by rewrite Hf, <- app_assoc.
Qed.

Lemma units_decoded ps us : from_proto_units ps = Ok us -> units_ok us /\ Forall2 same_message ps (map encode_unit us).
Proof.
  unfold from_proto_units. rewrite reject_then. intros [Hlen H]. apply bind_Ok in H as ([keys mapped] & Hf & H).
  rewrite then_Ok in H. destruct H as [Hp [= <-]]. apply unit_steps_Ok in Hf as (us & -> & Hok & Hs & Hord & Hnd & _).
  cbn [app] in *. split; [|done]. split; [|split; [|split; [done|split; [done|]]]].
  - apply Forall2_length in Hs. rewrite length_map in Hs. apply Nat.ltb_ge in Hlen. lia.
  - intros i u Hi. by rewrite (Hord i u Hi).
  - by apply parents_Ok.
Qed.

(** C19: every accepted message is well-formed.  The units returned are numbered from zero under
    distinct keys; each has a locator of its kind with valid bounds, cell addresses, ranges and
    tables, a grid only on a table region and then a tiling; every image inside the document names
    a section, anchor cell or form among the units; and nothing of the message is changed but
    the order of grid cells. *)
Theorem decoded_units_ok (ps : list ProtoUnit) (us : list StructuredSourceUnit) (Hok : from_proto_units ps = Ok us) :
  units_ok us /\ Forall2 same_message ps (map encode_unit us).
Proof. by apply units_decoded. Qed.

(** C22: every well-formed list of units can be sent: the decoder returns it from its encoding. *)
Theorem encoded_units_decode (us : list StructuredSourceUnit) (Hok : units_ok us) :
  from_proto_units (map encode_unit us) = Ok us.
Proof.
  destruct Hok as (Hlen & Hord & Hnd & Hok & Hp). unfold from_proto_units.
  rewrite reject_then. split; [rewrite length_map; by apply Nat.ltb_ge|].
  destruct (unit_steps_encoded us ∅ [] Hok) as [keys Hf]; [intros i u Hi; by rewrite (Hord i u Hi)|done| |].
  - apply Forall_forall. set_solver.
  - rewrite Hf. cbn [mbind result_bind app]. rewrite then_Ok. split; [by apply parents_Ok|done].
Qed.

Definition sample_unit (k : str) (n : Z) (kind : StructuredSourceUnitKind) (l : StructuredSourceLocator) (g : option TableGrid)
    : StructuredSourceUnit :=
  {| key := k; u_ordinal := n; u_kind := kind; text := u8"x"; locator := l; grid := g |}.

Definition sample_units : list StructuredSourceUnit :=
  let b2 := {| a1_range := u8"A1:B2"; start_row := 1; start_column := 1; end_row := 2; end_column := 2 |} in
  let cell a r c := {| sc_address := a; sc_row := r; sc_column := c; sc_text := a; sc_raw_value := []; sc_value_type := [];
                       sc_number_format := []; sc_display_text := None; sc_display_complete := true;
                       sc_display_incomplete_reason := None; sc_formula := None; sc_formula_references := [];
                       sc_cached_value := None; sc_cached_value_type := None |} in
  let grid := {| row_count := 1; column_count := 2; widths_mm := None;
                 cells := [{| row := 0; column := 0; row_span := 1; col_span := 2; cell_text := u8"y" |}] |} in
  [ sample_unit (u8"s") 0 Section_ (LDocument 0 None None None (u8"h")) None;
    sample_unit (u8"t") 1 TableRegion (LDocument 0 (Some 0) None None []) (Some grid);
    sample_unit (u8"r") 2 TableRow (LDocument 0 (Some 0) (Some 0) None []) None;
    sample_unit (u8"i") 3 ImageRegion (LImage (u8"a.png") 8 8 (u8"image/png") None (Some (TableCell 0 0 0 0)) None None None None) None;
    sample_unit (u8"x") 4 TableRegion
      (LSpreadsheet 0 (u8"Sheet") b2 [cell (u8"A1") 1 1; cell (u8"B2") 2 2] [b2]
         [{| st_name := u8"T"; st_display_name := u8"T"; st_a1_range := u8"A1:B2" |}]) None ].

Lemma sample_units_decode : from_proto_units (map encode_unit sample_units) = Ok sample_units.
Proof. vm_compute. reflexivity. Qed.

Lemma decoded_units_ok_witness : from_proto_units (map encode_unit sample_units) = Ok sample_units /\ units_ok sample_units.
Proof. split; [exact sample_units_decode|]. exact (proj1 (decoded_units_ok _ _ sample_units_decode)). Defined.

Lemma encoded_units_decode_witness : units_ok sample_units /\ from_proto_units (map encode_unit sample_units) = Ok sample_units.
Proof.
  assert (H : units_ok sample_units) by exact (proj1 (units_decoded _ _ sample_units_decode)).
  split; [exact H|]. exact (encoded_units_decode sample_units H).
Defined.

(** ** Streams *)

(** What a list of frames says: its images, its metadata frames, the number of images that the
    last of them announces. *)
Definition images_of (fs : list Frame) : list ImageRef :=
  omap (fun f => match f with Some (Image i) => Some i | _ => None end) fs.
Definition metas_of (fs : list Frame) : list ReadStreamMeta :=
  omap (fun f => match f with Some (Meta m) => Some m | _ => None end) fs.
Definition announced (fs : list Frame) : option nat :=
  m ← last (metas_of fs); if 0 <? m_image_count m then Some (Z.to_nat (m_image_count m)) else None.

(** All announced images have come. *)
Definition full (fs : list Frame) : Prop := exists n, announced fs = Some n /\ (n <= length (images_of fs))%nat.

(** No frame comes after the announced images. *)
Definition unfilled (fs : list Frame) : Prop := forall fs1 fs2, fs = fs1 ++ fs2 -> fs2 <> [] -> ~ full fs1.

Definition decoded (fs : list Frame) : Prop :=
  Forall (fun m => exists us, from_proto_units (m_units m) = Ok us) (metas_of fs).

(** The frames as one result: the last metadata frame with its units, the metadata of all of
    them, later ones first, and every image in order. *)
Definition collected (fs : list Frame) (r : ReadResult) : Prop := exists m us,
  last (metas_of fs) = Some m /\ from_proto_units (m_units m) = Ok us
  /\ r = {| markdown := m_markdown m; error := m_error m; images := images_of fs; structured_source_units := us;
            is_audio := false; audio_data := []; metadata := foldl (fun acc m => m_metadata m ∪ acc) ∅ (metas_of fs) |}.

Section protocol.
Context (source_contract : ReadResult -> result str (option SourceContract)).

(** How a stream ends: delivered, or with the first of its faults. *)
Inductive stream_ends (events : list StreamEvent) : result StreamErr ReadResult -> Prop :=
| se_delivered fs rest r c : events = map EFrame fs ++ rest -> unfilled fs -> decoded fs ->
    full fs /\ head rest <> Some ECancel \/ announced fs = None /\ rest = [] ->
    collected fs r -> source_contract r = Ok c -> stream_ends events (Ok r)
| se_contract fs rest r e : events = map EFrame fs ++ rest -> unfilled fs -> decoded fs ->
    full fs /\ head rest <> Some ECancel \/ announced fs = None /\ rest = [] ->
    collected fs r -> source_contract r = Err e -> stream_ends events (Err {| code := None; msg := e |})
| se_cancelled fs rest : events = map EFrame fs ++ ECancel :: rest -> unfilled fs -> decoded fs ->
    stream_ends events (Err cancelled_err)
| se_status fs s rest : events = map EFrame fs ++ EStatus s :: rest -> unfilled fs -> decoded fs -> ~ full fs ->
    stream_ends events (Err {| code := Some (st_code s); msg := u8"gRPC ReadStream failed: " ++ st_text s |})
| se_timeout fs rest : events = map EFrame fs ++ ETimeout :: rest -> unfilled fs -> decoded fs -> ~ full fs ->
    stream_ends events (Err timeout_err)
| se_units fs m e rest : events = map EFrame fs ++ EFrame (Some (Meta m)) :: rest -> unfilled fs -> decoded fs -> ~ full fs ->
    from_proto_units (m_units m) = Err e -> stream_ends events (Err {| code := None; msg := e |})
| se_no_meta fs : events = map EFrame fs -> decoded fs -> metas_of fs = [] -> stream_ends events (Err no_meta_err)
| se_incomplete fs n : events = map EFrame fs -> unfilled fs -> decoded fs -> announced fs = Some n ->
    (length (images_of fs) < n)%nat -> stream_ends events (Err (incomplete_err (length (images_of fs)) n)).

(** The state of the loop after some frames. *)
Definition units_of (fs : list Frame) : list StructuredSourceUnit :=
  match last (metas_of fs) with
  | Some m => match from_proto_units (m_units m) with Ok us => us | Err _ => [] end
  | None => []
  end.

Definition state_of (fs : list Frame) : StreamState := {|
  result_ := {| markdown := from_option m_markdown [] (last (metas_of fs)); error := from_option m_error [] (last (metas_of fs));
                images := images_of fs; structured_source_units := units_of fs; is_audio := false; audio_data := [];
                metadata := foldl (fun acc m => m_metadata m ∪ acc) ∅ (metas_of fs) |};
  got_meta := bool_decide (metas_of fs <> []); expected_images := announced fs |}.

Lemma metas_app fs fs' : metas_of (fs ++ fs') = metas_of fs ++ metas_of fs'.
Proof. apply omap_app. Qed.

Lemma images_app fs fs' : images_of (fs ++ fs') = images_of fs ++ images_of fs'.
Proof. apply omap_app. Qed.

Lemma decoded_app fs fs' : decoded (fs ++ fs') <-> decoded fs /\ decoded fs'.
Proof. unfold decoded. by rewrite metas_app, Forall_app. Qed.

Lemma apply_frame_state fs f : decoded [f] -> apply_frame (state_of fs) f = Ok (state_of (fs ++ [f])).
Proof.
  intros Hd. unfold state_of, announced, units_of. rewrite metas_app, images_app.
  destruct f as [[m|i]|]; cbn [metas_of images_of omap list_omap]; rewrite ?app_nil_r; [|done..].
  apply Forall_cons in Hd as [[us Hus] _]. unfold apply_frame. rewrite Hus, last_snoc, foldl_app. cbn [from_option]. rewrite Hus.
  f_equal. f_equal. symmetry. apply bool_decide_eq_true. by destruct (metas_of fs).
Qed.

Lemma all_images_full fs : all_images (state_of fs) = true <-> full fs.
Proof.
  unfold all_images, full. cbn [state_of got_meta expected_images result_ images]. split.
  - intros [_ H]%andb_prop. destruct (announced fs) as [n|]; [|done]. exists n. by split; [|apply Nat.leb_le].
  - intros (n & Hn & Hl%Nat.leb_le). rewrite Hn, Hl, andb_true_r. apply bool_decide_eq_true. unfold announced in Hn.
    by destruct (metas_of fs).
Qed.

Lemma loop_step fs f events : ~ full fs -> decoded [f] ->
  stream_loop (state_of fs) (EFrame f :: events) = stream_loop (state_of (fs ++ [f])) events.
Proof.
  intros Hfull Hd. cbn [stream_loop]. rewrite (not_true_is_false (all_images (state_of fs))) by by rewrite all_images_full.
  by rewrite apply_frame_state.
Qed.

Lemma loop_frames fs events : forall fs0, unfilled (fs0 ++ fs) -> decoded fs ->
  stream_loop (state_of fs0) (map EFrame fs ++ events) = stream_loop (state_of (fs0 ++ fs)) events.
Proof.
  induction fs as [|f fs IH]; intros fs0 Hu Hd; [by rewrite app_nil_r|]. cbn [map app].
  apply (decoded_app [f] fs) in Hd as [Hf Hd]. rewrite loop_step; [|by apply (Hu fs0 (f :: fs))|done].
  rewrite IH, <- app_assoc; [done|by rewrite <- app_assoc|done].
Qed.

Lemma stream_from_start fs events : unfilled fs -> decoded fs ->
  stream_loop stream_start (map EFrame fs ++ events) = stream_loop (state_of fs) events.
Proof. exact (loop_frames fs events []). Qed.

Lemma loop_full fs events : full fs -> head events <> Some ECancel -> stream_loop (state_of fs) events = Ok (state_of fs).
Proof.
  intros H%all_images_full Hhd. destruct events as [|[] events]; cbn [stream_loop]; rewrite ?H; done.
Qed.

Lemma end_collected fs r : collected fs r -> full fs \/ announced fs = None ->
  stream_end source_contract (state_of fs)
  = match source_contract r with Err e => Err {| code := None; msg := e |} | Ok _ => Ok r end.
Proof.
  intros (m & us & Hm & Hus & ->) Hc. unfold stream_end. cbn [state_of got_meta expected_images result_].
  rewrite bool_decide_eq_true_2 by (intros E; by rewrite E in Hm). cbn [negb]. unfold units_of. rewrite Hm, Hus. cbn [from_option images].
  destruct Hc as [(n & -> & Hl)| ->]; [|done]. by destruct (Nat.ltb_spec (length (images_of fs)) n); [lia|].
Qed.

Lemma stream_ends_sound events outcome : stream_ends events outcome -> read_stream source_contract (Ok events) = outcome.
Proof.
  unfold read_stream.
  destruct 1 as [fs rest r c -> Hu Hd Hc Hr Hs|fs rest r e -> Hu Hd Hc Hr Hs|fs rest -> Hu Hd|fs s rest -> Hu Hd Hf
    |fs rest -> Hu Hd Hf|fs m e rest -> Hu Hd Hf He|fs -> Hd Hm|fs n -> Hu Hd Hn Hl].
  1, 2: rewrite stream_from_start by done;
    assert (stream_loop (state_of fs) rest = Ok (state_of fs)) as ->
      by (destruct Hc as [[Hf Hhd]|[Hno ->]]; [by apply loop_full|cbn [stream_loop]; by destruct (all_images _)]);
    cbn [mbind result_bind]; rewrite (end_collected fs r) by (try done; destruct Hc as [[? _]|[? _]]; auto); by rewrite Hs.
  - rewrite stream_from_start by done. done.
  - rewrite stream_from_start by done. cbn [stream_loop].
    by rewrite (not_true_is_false (all_images (state_of fs))) by by rewrite all_images_full.
  - rewrite stream_from_start by done. cbn [stream_loop].
    by rewrite (not_true_is_false (all_images (state_of fs))) by by rewrite all_images_full.
  - rewrite stream_from_start by done. cbn [stream_loop].
    rewrite (not_true_is_false (all_images (state_of fs))) by by rewrite all_images_full. unfold apply_frame. by rewrite He.
  - assert (forall fs1 fs2, fs = fs1 ++ fs2 -> ~ full fs1) as Hno.
    { intros fs1 fs2 -> (n & Hn & _). rewrite metas_app in Hm. apply app_eq_nil in Hm as [Hm _].
      unfold announced in Hn. by rewrite Hm in Hn. }
    rewrite <- (app_nil_r (map EFrame fs)), stream_from_start; [|intros fs1 fs2 E _; by eapply Hno|done].
    cbn [stream_loop]. rewrite (not_true_is_false (all_images (state_of fs))) by (rewrite all_images_full; apply (Hno fs []); by rewrite app_nil_r).
    cbn [mbind result_bind]. unfold stream_end. cbn [state_of got_meta]. by rewrite Hm.
  - rewrite <- (app_nil_r (map EFrame fs)), stream_from_start by done.
    assert (~ full fs) as Hf by (intros (n' & Hn' & Hl'); rewrite Hn in Hn'; injection Hn' as <-; lia).
    cbn [stream_loop]. rewrite (not_true_is_false (all_images (state_of fs))) by by rewrite all_images_full.
    cbn [mbind result_bind]. unfold stream_end. cbn [state_of got_meta expected_images result_ images].
    rewrite bool_decide_eq_true_2 by (intros E; unfold announced in Hn; by rewrite E in Hn). cbn [negb]. rewrite Hn.
    by destruct (Nat.ltb_spec (length (images_of fs)) n); [|lia].
Qed.

Lemma decoded_last fs m : decoded fs -> last (metas_of fs) = Some m -> exists us, from_proto_units (m_units m) = Ok us.
Proof.
  intros Hd (l & E)%last_Some. unfold decoded in Hd. rewrite E in Hd. by apply Forall_app in Hd as [_ [H _]%Forall_cons].
Qed.

Lemma ends_collected fs rest : unfilled fs -> decoded fs -> is_Some (last (metas_of fs)) ->
  full fs /\ head rest <> Some ECancel \/ announced fs = None /\ rest = [] ->
  exists o, stream_ends (map EFrame fs ++ rest) o.
Proof.
  intros Hu Hd [m Hm] Hc. destruct (decoded_last fs m Hd Hm) as [us Hus]. assert (exists r, collected fs r) as [r Hr] by (eexists; by exists m, us).
  destruct (source_contract r) as [c|e] eqn:Hs; eexists; [by eapply se_delivered|by eapply se_contract].
Qed.

Lemma full_meta fs : full fs -> is_Some (last (metas_of fs)).
Proof. intros (n & Hn & _). unfold announced in Hn. by destruct (last (metas_of fs)). Qed.

Lemma full_dec fs : full fs \/ ~ full fs.
Proof. destruct (all_images (state_of fs)) eqn:E; [left; by apply all_images_full|right; rewrite <- all_images_full, E; done]. Qed.

Lemma unfilled_snoc fs f : unfilled fs -> ~ full fs -> unfilled (fs ++ [f]).
Proof.
  intros Hu Hf fs1 fs2 E Hne. destruct fs2 as [|x fs2] using rev_ind; [done|]. rewrite app_assoc in E.
  apply app_inj_tail in E as [E _]. destruct fs2 as [|y fs2]; [rewrite app_nil_r in E; by subst|].
  by apply (Hu fs1 (y :: fs2)).
Qed.

Lemma stream_ends_total events : forall fs, unfilled fs -> decoded fs -> exists o, stream_ends (map EFrame fs ++ events) o.
Proof.
  induction events as [|event events IH]; intros fs Hu Hd.
  - destruct (full_dec fs) as [Hf|Hf]; [by apply ends_collected; [..|apply full_meta|left]|].
    destruct (last (metas_of fs)) as [m|] eqn:Hm.
    + destruct (announced fs) as [n|] eqn:Hn; [|apply ends_collected; auto].
      rewrite app_nil_r. eexists. apply (se_incomplete _ fs n); try done.
      destruct (Nat.lt_ge_cases (length (images_of fs)) n) as [|Hl]; [done|]. exfalso. apply Hf. by exists n.
    + rewrite app_nil_r. eexists. apply (se_no_meta _ fs); try done. by apply last_None.
  - destruct (full_dec fs) as [Hf|Hf].
    + destruct event; try (apply ends_collected; [done|done|by apply full_meta|by left]). eexists. by apply (se_cancelled _ fs events).
    + destruct event as [f|s| |]; try (eexists; by econstructor).
      assert (decoded [f] \/ exists m e, f = Some (Meta m) /\ from_proto_units (m_units m) = Err e) as [Hf1|(m & e & -> & He)].
      { destruct f as [[m|i]|]; [|left; constructor..]. destruct (from_proto_units (m_units m)) as [us|e] eqn:E.
        - left. constructor; [by exists us|constructor].
        - right. by exists m, e. }
      * destruct (IH (fs ++ [f])) as [o Ho]; [by apply unfilled_snoc|by apply decoded_app|].
        exists o. by rewrite map_app, <- app_assoc in Ho.
      * eexists. by eapply se_units.
Qed.

(** C27: the streamed read, for every stream.  What a read gives is decided by the frames before
    the first of: the announced images being complete, the end, a status, a time-out, a cancellation
    and a metadata frame with malformed units.  It is a result exactly when the last metadata frame
    is there, all images it announces have come before anything else (with none announced: the
    stream has ended), no cancellation was seen, and the source contract is valid; the result has
    the text and the units of the last metadata frame, the metadata of all and the images in order.
    Otherwise it is the error of the first fault: the status, the time-out, the cancellation, the
    malformed units, the missing metadata, the missing images, the invalid contract.  A refused call
    is its status.  Six codes make an error transient, one a cancellation, every other one and none
    an invalid response. *)
Theorem read_stream_protocol :
  (forall events outcome, read_stream source_contract (Ok events) = outcome <-> stream_ends events outcome)
  /\ (forall s, read_stream source_contract (Err s)
       = Err {| code := Some (st_code s); msg := u8"gRPC ReadStream failed: " ++ st_text s |})
  /\ forall e, classified e =
       if bool_decide (code e ∈ map Some [CUnavailable; CDeadlineExceeded; CAborted; CResourceExhausted; CInternal; CUnknown])
       then Transient (msg e)
       else if bool_decide (code e = Some CCancelled) then RCancelled else InvalidResponse (msg e).
Proof.
  split; [|split].
  - intros events outcome. split; [|apply stream_ends_sound]. intros <-.
    destruct (stream_ends_total events []) as [o Ho]; [intros [|] [|]; done|constructor|].
    cbn [map app] in Ho. by rewrite (stream_ends_sound _ _ Ho).
  - done.
  - intros [[c|] m]; [|done]. by destruct c.
Qed.
End protocol.

Definition sample_meta : ReadStreamMeta :=
  {| m_markdown := u8"# t"; m_metadata := ∅; m_error := []; m_image_count := 1; m_units := map encode_unit sample_units |}.
Definition sample_image : ImageRef :=
  {| filename := u8"a.png"; im_original_ref := u8"a.png"; mime_type := u8"image/png"; storage_key := []; data := [1] |}.

(** An image before the metadata counts; what comes after the announced images is not read. *)
Example streams :
  (read_stream (fun _ => Ok None) (Ok [EFrame (Some (Image sample_image)); EFrame (Some (Meta sample_meta)); ETimeout]) ,
   read_stream (fun _ => Ok None) (Ok [EFrame (Some (Meta sample_meta))]),
   read_stream (fun _ => Ok None) (Ok [EFrame (Some (Image sample_image))]))
  = (Ok {| markdown := u8"# t"; error := []; images := [sample_image]; structured_source_units := sample_units;
           is_audio := false; audio_data := []; metadata := ∅ |},
     Err (incomplete_err 0 1), Err no_meta_err).
Proof. vm_compute. reflexivity. Qed.
