(* ===== verification/Taxonomy.v ===== *)
(** * Wiki candidates and page texts

    [crates/knowledge/src/wiki/taxonomy.rs]: reading of the model's answers, slugs, citations of
    chunks, merging of candidates, texts of pages and the folders they go to.  The language
    model, the embeddings, JSON decoding and the Unicode lower case are arguments; a prompt is
    represented by the parts it is put together from. *)
From S2P Require Import Prelude RustStr RustFloat Order.
Open Scope nat_scope.

Definition PAGE_SUMMARY : str := u8"summary".
Definition PAGE_ENTITY : str := u8"entity".
Definition PAGE_CONCEPT : str := u8"concept".
Definition PAGE_INDEX : str := u8"index".
Definition PAGE_LOG : str := u8"log".
Definition PAGE_SYNTHESIS : str := u8"synthesis".
Definition PAGE_COMPARISON : str := u8"comparison".

Definition ALL_PAGE_TYPES : list str :=
  [PAGE_SUMMARY; PAGE_ENTITY; PAGE_CONCEPT; PAGE_INDEX; PAGE_LOG; PAGE_SYNTHESIS; PAGE_COMPARISON].

Definition CHINESE : str := u8"Chinese".
Definition ENGLISH : str := u8"English".
Definition TEXT_CHUNK : str := u8"text".

(** The fields of a chunk that the wiki reads and writes. *)
Record Chunk := {
  c_id : N; c_document_id : N; c_version_id : N; c_chunk_type : str; c_content : str; c_context_header : str;
  c_start_at : Z; c_end_at : Z;
}.

Record ExtractedItem := {
  it_name : str; it_slug : str; it_aliases : list str; it_description : str; it_details : str; it_page_type : str;
}.

Record Candidate := {
  ca_title : str; ca_slug : str; ca_page_type : str; ca_aliases : list str; ca_about : str; ca_details : str;
  ca_source_refs : list N;
}.

(** ** Slugs and names *)

Definition HYPHEN : char := 45%Z.
Definition slug_char (c : char) : char := if is_ascii_alphanumeric c then to_ascii_lowercase c else HYPHEN.
Definition is_hyphen (c : char) : bool := (c =? HYPHEN)%Z.

Definition typed_slug (page_type title : str) : str :=
  let base := trim_end_by is_hyphen (trim_start_by is_hyphen (map slug_char title)) in
  page_type ++ u8"/" ++ (if str_is_empty base then u8"page" else base).

(** Titles without an ASCII letter or digit share one slug. *)
Example chinese_titles_collide :
  map (typed_slug PAGE_ENTITY) [u8"交换机"; u8"路由器"; u8"Alpha 2"]
  = [u8"entity/page"; u8"entity/page"; u8"entity/alpha-2"].
Proof. vm_compute. reflexivity. Qed.

(** Figure numbers, hashes, lone numbers and protocol names. *)
Definition junk_item_name (name : str) : bool :=
  let t := trim name in
  let lower := map to_ascii_lowercase t in
  str_is_empty t || forallb is_ascii_digit t || ((16 <=? blen t) && forallb is_ascii_hexdigit t)
  || (starts_with lower (u8"图") && existsb is_ascii_digit t && (length t <=? 8))
  || existsb (str_eqb lower) [u8"tcp"; u8"udp"; u8"http"; u8"https"; u8"ipv4"; u8"ipv6"].

(** From the first [{] to the last [}]. *)
Fixpoint from_char (c : char) (s : str) : option str :=
  match s with [] => None | d :: s' => if (d =? c)%Z then Some s else from_char c s' end.

Definition extract_json_object (raw : str) : option str :=
  s ← from_char 123%Z raw; r ← from_char 125%Z (reverse s); Some (reverse r).

Definition json_part (raw : str) : str := default (trim raw) (extract_json_object (trim raw)).

Definition with_slug (e : ExtractedItem) (page_type slug : str) : ExtractedItem :=
  {| it_name := it_name e; it_slug := slug; it_aliases := it_aliases e; it_description := it_description e;
     it_details := it_details e; it_page_type := page_type |}.

Definition or_default (s d : str) : str := if str_is_empty s then d else s.

(** One loop of [parse_extraction]. *)
Definition named_items (page_type : str) (items : list ExtractedItem) : list ExtractedItem :=
  omap (fun e =>
    if str_is_empty (it_name e) then None
    else
      let ty := or_default (it_page_type e) page_type in
      let e' := with_slug e ty (or_default (it_slug e) (typed_slug ty (it_name e))) in
      if junk_item_name (it_name e) then None else Some e') items.

Record NewSlugItem := {
  ns_page_type : str; ns_name : str; ns_slug : str; ns_aliases : list str; ns_description : str; ns_details : str;
  ns_source_chunks : list str;
}.

(** ** Citations *)

Definition cover_like_text (s : str) : bool :=
  let head := take 480 s in
  (contains head (u8"版权声明") || contains head (u8"Copyright"))
  && (contains head (u8"完全公开") || contains head (u8"邮编") || contains head (u8"地址")).

Definition is_blank_text (s : str) : bool := str_is_empty (trim s).
Definition CITE_SNIPPETS_MAX : nat := 3.

(** Hits and cover flag of the chunks that mention a needle. *)
Definition cite_scores (chunks : list Chunk) (needles : list str) : list (nat * bool * N) :=
  omap (fun ch =>
    if negb (str_eqb (c_chunk_type ch) TEXT_CHUNK) then None
    else
      let lower := map to_ascii_lowercase (c_content ch) in
      let hits := sum_list_with (fun n => matches_count lower (map to_ascii_lowercase n)) needles in
      if hits =? 0 then None else Some (hits, cover_like_text (c_content ch), c_id ch)) chunks.

Definition cite_before (a b : nat * bool * N) : bool :=
  (b.1.1 <? a.1.1) || ((a.1.1 =? b.1.1) && (negb a.1.2 || b.1.2)).

Definition cite_chunks (chunks : list Chunk) (name : str) (aliases : list str) : list N :=
  let needles := List.filter (fun n => negb (is_blank_text n)) (name :: aliases) in
  if match needles with [] => true | _ => false end then []
  else
    let scored := sort_by cite_before (cite_scores chunks needles) in
    let preferred := map snd (take CITE_SNIPPETS_MAX (List.filter (fun x => negb x.1.2) scored)) in
    match preferred with [] => map snd (take CITE_SNIPPETS_MAX scored) | _ => preferred end.

Definition MAX_RUNES_PER_CITATION_BATCH : nat := 12000.

Definition batch_step (st : list (list Chunk) * list Chunk * nat) (c : Chunk) : list (list Chunk) * list Chunk * nat :=
  let '(batches, current, runes) := st in
  if negb (str_eqb (c_chunk_type c) TEXT_CHUNK) || is_blank_text (c_content c) then st
  else
    let n := length (c_content c) in
    if negb (match current with [] => true | _ => false end) && (MAX_RUNES_PER_CITATION_BATCH <? runes + n)
    then (batches ++ [current], [c], n)
    else (batches, current ++ [c], runes + n).

Definition split_citation_batches (chunks : list Chunk) : list (list Chunk) :=
  let '(batches, current, _) := foldl batch_step ([], [], 0) chunks in
  match current with [] => batches | _ => batches ++ [current] end.

(** [format!("c{i:03}")] *)
Definition alias_of (i : nat) : str :=
  let d := decimal (N.of_nat i) in u8"c" ++ repeat 48%Z (3 - length d) ++ d.

(** The parts of [render_chunks_xml]: alias, text and id of every chunk. *)
Definition chunk_aliases (batch : list Chunk) : list (str * str * N) :=
  imap (fun i c => (alias_of i, c_content c, c_id c)) batch.

Definition resolve_aliases (aliases : list str) (alias_to_id : list (str * N)) : list N :=
  omap (fun a => snd <$> find (fun p => str_eqb p.1 a) alias_to_id) aliases.

Definition drop_cover_refs (chunks : list Chunk) (refs : list N) : list N :=
  let kept := List.filter (fun id => match find (fun c => (c_id c =? id)%N) chunks with
                                     | Some c => negb (cover_like_text (c_content c)) | None => true end) refs in
  match kept with [] => refs | _ => kept end.

Definition valid_page_type (t : str) : str := if existsb (str_eqb t) ALL_PAGE_TYPES then t else PAGE_ENTITY.

Definition CONCEPT_PREFIX : str := u8"concept/".

(** The items of [parse_citation_json] that add a slug. *)
Definition new_slug_items (news : list NewSlugItem) : list (ExtractedItem * list str) :=
  omap (fun n =>
    if is_blank_text (ns_name n) then None
    else
      let ty := or_default (ns_page_type n) (if starts_with (ns_slug n) CONCEPT_PREFIX then PAGE_CONCEPT else PAGE_ENTITY) in
      let slug := if contains (ns_slug n) (u8"/") then ns_slug n
                  else if str_is_empty (ns_slug n) then typed_slug ty (ns_name n)
                  else ty ++ u8"/" ++ ns_slug n in
      Some ({| it_name := ns_name n; it_slug := slug; it_aliases := ns_aliases n; it_description := ns_description n;
               it_details := ns_details n; it_page_type := ty |}, ns_source_chunks n)) news.

Definition with_refs (c : Candidate) (refs : list N) : Candidate :=
  {| ca_title := ca_title c; ca_slug := ca_slug c; ca_page_type := ca_page_type c; ca_aliases := ca_aliases c;
     ca_about := ca_about c; ca_details := ca_details c; ca_source_refs := refs |}.

(** Append what is not there yet. *)
Definition push_new {A} `{EqDecision A} (l : list A) (x : A) : list A := if bool_decide (x ∈ l) then l else l ++ [x].
Definition extend_new {A} `{EqDecision A} (l xs : list A) : list A := foldl push_new l xs.

(** Update the first element that satisfies a test; [None] when there is none. *)
Fixpoint update_first {A} (f : A -> bool) (g : A -> A) (l : list A) : option (list A) :=
  match l with
  | [] => None
  | x :: l' => if f x then Some (g x :: l') else (r ← update_first f g l'; Some (x :: r))
  end.

Definition attach_item (citations : gmap str (list N)) (chunks : list Chunk) (it : Candidate) : Candidate :=
  let refs := default (ca_source_refs it) (citations !! ca_slug it) in
  let refs := match refs with [] => cite_chunks chunks (ca_title it) (ca_aliases it) | _ => refs end in
  with_refs it (drop_cover_refs chunks refs).

Definition attach_new (existing : list str) (chunks : list Chunk) (items : list Candidate) (n : Candidate) : list Candidate :=
  if bool_decide (ca_slug n ∈ existing) then
    default items (update_first (fun c => str_eqb (ca_slug c) (ca_slug n))
                     (fun it => with_refs it (extend_new (ca_source_refs it) (ca_source_refs n))) items)
  else
    let refs := match ca_source_refs n with [] => cite_chunks chunks (ca_title n) (ca_aliases n) | r => r end in
    items ++ [with_refs n (drop_cover_refs chunks refs)].

Definition attach_citations (items : list Candidate) (citations : gmap str (list N)) (news : list Candidate)
    (chunks : list Chunk) : list Candidate :=
  let items := map (attach_item citations chunks) items in
  foldl (attach_new (map ca_slug items) chunks) items news.

Definition cited_verbatim (cited : list Chunk) : str :=
  join (u8"

") (List.filter (fun s => negb (str_is_empty s))
           (map (fun c => trim (c_content c)) (List.filter (fun c => negb (cover_like_text (c_content c))) cited))).

(** ** Texts *)

Definition document_language (s : str) : str :=
  let total := length (List.filter (fun c => negb (is_whitespace c)) s) in
  if total =? 0 then CHINESE
  else
    let cjk := length (List.filter (fun c => (19968 <=? c) && (c <=? 40959))%Z s) in
    if total <=? cjk * 5 then CHINESE else ENGLISH.

(** [s[i..].find(')')]: the number of chars up to it. *)
Fixpoint find_paren (s : str) (n : nat) : option nat :=
  match s with [] => None | c :: s' => if (c =? 41)%Z then Some n else find_paren s' (S n) end.

(** [regex_lite_images]: the text without image references; [skip] chars belong to one. *)
Fixpoint drop_images (s : str) (skip : nat) : str :=
  match s with
  | [] => []
  | c :: s' =>
    match skip with
    | S k => drop_images s' k
    | 0 =>
      match (if starts_with s (u8"![") then find_paren s 0 else None) with
      | Some e => drop_images s' e
      | None => c :: drop_images s' 0
      end
    end
  end.

Definition regex_lite_images (s : str) : str := drop_images s 0.

Definition has_sufficient_text (body : str) : bool :=
  10 <=? length (List.filter (fun c => negb (is_whitespace c)) (regex_lite_images body)).

(** [s.split_once('\n')] *)
Fixpoint cut_line (s : str) : option (str * str) :=
  match s with
  | [] => None
  | c :: s' => if (c =? NL)%Z then Some ([], s') else '(a, b) ← cut_line s'; Some (c :: a, b)
  end.

Definition strip (prefix s : str) : option str := if starts_with s prefix then Some (drop (length prefix) s) else None.

Definition SUMMARY_PREFIXES : list str := [u8"SUMMARY:"; u8"Summary:"; u8"summary:"].

Fixpoint split_summary (prefixes : list str) (t : str) : str * str :=
  match prefixes with
  | [] => ([], t)
  | p :: prefixes =>
    match strip p t with
    | Some rest =>
      let rest := trim_start rest in
      match cut_line rest with Some (line, body) => (trim line, trim body) | None => (trim rest, []) end
    | None => split_summary prefixes t
    end
  end.

Definition split_summary_line (raw : str) : str * str := split_summary SUMMARY_PREFIXES (trim raw).

Definition ELLIPSIS : char := 8230%Z.
Definition clip_runes (s : str) (max : nat) : str :=
  if length s <=? max then s else take (max - 1) s ++ [ELLIPSIS].

(** [body.split("\n\n")] *)
Fixpoint split_paragraphs (s acc : str) : list str :=
  match s with
  | [] => [reverse acc]
  | c :: s' =>
    match s' with
    | d :: s'' => if ((c =? NL) && (d =? NL))%Z then reverse acc :: split_paragraphs s'' [] else split_paragraphs s' (c :: acc)
    | [] => split_paragraphs s' (c :: acc)
    end
  end.

Definition first_lede (s : str) : str :=
  let t := trim s in
  if str_is_empty t then []
  else
    let body := if starts_with t (u8"#") then match cut_line t with Some (_, rest) => trim rest | None => [] end else t in
    let para := default body (find (fun p => negb (is_blank_text p)) (split_paragraphs body [])) in
    clip_runes (trim para) 240.

Definition ITEM_PAGE_RUNE_CAP : nat := 4000.
Definition SUMMARY_FALLBACK_RUNES : nat := 800.
Definition ASSEMBLE_RUNE_CAP : nat := 32768.

Definition heading (title : str) : str := u8"# " ++ title ++ [NL].

Definition page_content_for (page_type title about summary_llm full_body : str) : str :=
  if str_eqb page_type PAGE_SUMMARY then
    let s := trim summary_llm in
    if negb (str_is_empty s) then clip_runes s ASSEMBLE_RUNE_CAP
    else
      let lead := if negb (is_blank_text about) then about else full_body in
      heading title ++ [NL] ++ clip_runes (trim lead) SUMMARY_FALLBACK_RUNES
  else
    let desc := trim about in
    if str_is_empty desc then heading title else heading title ++ [NL] ++ clip_runes desc ITEM_PAGE_RUNE_CAP.

Definition assemble_body (chunks : list Chunk) : str := take ASSEMBLE_RUNE_CAP (join [NL] (map c_content chunks)).

(** ** Categories *)

Definition CATEGORY_MAX_DEPTH : nat := 3.
Definition eq_ignore_ascii_case (a b : str) : bool := str_eqb (map to_ascii_lowercase a) (map to_ascii_lowercase b).

(** [part.split(['/', '|'])] *)
Definition split_label (part : str) : list str := split_char 47%Z (map (fun c => if (c =? PIPE)%Z then 47%Z else c) part).

Fixpoint clean_labels (labels out : list str) : list str :=
  match labels with
  | [] => out
  | label :: labels =>
    let label := trim label in
    if str_is_empty label || existsb (fun x => eq_ignore_ascii_case x label) out then clean_labels labels out
    else
      let out := out ++ [label] in
      if CATEGORY_MAX_DEPTH <=? length out then out else clean_labels labels out
  end.

Definition clean_category_path (parts : list str) : list str := clean_labels (concat (map split_label parts)) [].

Definition TAXONOMY_FEED_ALL : nat := 60.
Definition TAXONOMY_PROMPT_MAX : nat := 150.
Definition TAXONOMY_TOP_K : nat := 3.

Definition cap_folders (paths : list (list str)) (max : nat) : list (list str) :=
  if (0 <? max) && (max <? length paths) then take max paths else paths.

Definition category_for (page_type title : str) : list str :=
  if str_eqb page_type PAGE_ENTITY then [u8"Entities"; take 1 title]
  else if str_eqb page_type PAGE_CONCEPT then [u8"Concepts"]
  else if str_eqb page_type PAGE_SUMMARY then [u8"Summaries"]
  else if str_eqb page_type PAGE_SYNTHESIS then [u8"Synthesis"]
  else if str_eqb page_type PAGE_COMPARISON then [u8"Comparisons"]
  else [].

(** The top folder [fallback_path] looks for. *)
Definition wanted_folder (page_type : str) : str := default [] (head (category_for page_type [])).

(** ** With the language model *)

(** A prompt by the parts it is put together from. *)
Inductive ChatRequest :=
| AskCandidates (body previous title language : str)
| AskCitations (candidates : list Candidate) (chunks : list (str * str)) (language : str)
| AskSummary (body listing language : str)
| AskPage (slug title page_type existing : str) (shared : option (str * str)) (new_information : option (str * str * str * str))
    (retracted : option (str * str)) (links language : str)
| AskFolders (folders : list (list str)) (items : list (str * str * str * str)).

(** What the wiki takes from outside: the model, the embeddings, JSON decoding and Unicode. *)
Record Services := {
  chat : ChatRequest -> str -> result str str;
  chat_http_configured : bool;
  to_lowercase : str -> str;
  extraction_of_json : str -> option (list ExtractedItem * list ExtractedItem);
  citations_of_json : str -> option (list (str * list str) * list NewSlugItem);
  assignments_of_json : str -> option (list (str * list str));
  embed : str -> list f64;
}.

Section services.
Context (sv : Services).

Definition parse_extraction (raw : str) : list ExtractedItem :=
  let '(entities, concepts) := default ([], []) (extraction_of_json sv (json_part raw)) in
  named_items PAGE_ENTITY entities ++ named_items PAGE_CONCEPT concepts.

Definition is_item_type (t : str) : bool := str_eqb t PAGE_ENTITY || str_eqb t PAGE_CONCEPT.

Definition answer_or_empty (r : result str str) : str := match r with Ok raw => raw | Err _ => [] end.

(** The result of a batch: the citations by slug and the candidates it adds. *)
Definition classify_one_batch (model : str) (candidates : list Candidate) (batch : list Chunk) (language : str)
    : gmap str (list N) * list Candidate :=
  let aliases := chunk_aliases batch in
  let alias_map := map (fun x => (x.1.1, x.2)) aliases in
  let raw := answer_or_empty (chat sv (AskCitations candidates (map fst aliases) language) model) in
  let '(citations, news) := default ([], []) (citations_of_json sv (json_part raw)) in
  (foldl (fun m p => <[p.1 := resolve_aliases p.2 alias_map]> m) ∅ citations,
   omap (fun p =>
     let '(item, ids) := p in
     if junk_item_name (it_name item) then None
     else Some {| ca_title := it_name item; ca_slug := it_slug item; ca_page_type := valid_page_type (it_page_type item);
                  ca_aliases := it_aliases item; ca_about := it_description item; ca_details := it_details item;
                  ca_source_refs := resolve_aliases ids alias_map |}) (new_slug_items news)).

(** [sort(); dedup()] on ids *)
Fixpoint dedup_ids (l : list N) : list N :=
  match l with
  | x :: ((y :: _) as l') => if (x =? y)%N then dedup_ids l' else x :: dedup_ids l'
  | _ => l
  end.
Definition sort_ids (l : list N) : list N := dedup_ids (sort_by N.leb l).

Definition add_citations (m part : gmap str (list N)) : gmap str (list N) := union_with (fun a b => Some (a ++ b)) m part.

(** The batches are classified by parallel workers: [order] is the order in which they finish. *)
Definition cite_with_llm (order : list (gmap str (list N) * list Candidate) -> list (gmap str (list N) * list Candidate))
    (model : str) (candidates : list Candidate) (chunks : list Chunk) (language : str) : gmap str (list N) * list Candidate :=
  let slugs := List.filter (fun c => is_item_type (ca_page_type c)) candidates in
  let batches := split_citation_batches chunks in
  if negb (chat_http_configured sv) || match slugs with [] => true | _ => false end || match batches with [] => true | _ => false end
  then (∅, [])
  else
    let collected := order (map (fun b => classify_one_batch model slugs b language) batches) in
    let citations := foldl add_citations ∅ (map fst collected) in
    (fmap (M := gmap str) sort_ids citations, concat (map snd collected)).

Definition norm_item_name (s : str) : str :=
  to_lowercase sv (List.filter (fun c => negb (is_whitespace c) && negb (existsb (Z.eqb c) [65288; 65289; 40; 41])%Z) s).

(** The longer of two texts, by bytes; the first when they are equal. *)
Definition longer (a b : str) : str := if blen a <? blen b then b else a.

Definition merge_candidate (it ex : Candidate) : Candidate :=
  {| ca_title := ca_title ex; ca_slug := ca_slug ex; ca_page_type := ca_page_type ex;
     ca_aliases := extend_new (ca_aliases ex) (ca_aliases it); ca_about := longer (ca_about ex) (ca_about it);
     ca_details := longer (ca_details ex) (ca_details it); ca_source_refs := extend_new (ca_source_refs ex) (ca_source_refs it) |}.

Definition dedup_step (out : list Candidate) (it : Candidate) : list Candidate :=
  match update_first (fun e => str_eqb (norm_item_name (ca_title e)) (norm_item_name (ca_title it))) (merge_candidate it) out with
  | Some out' => out'
  | None => out ++ [it]
  end.

Definition dedup_candidates (items : list Candidate) : list Candidate := foldl dedup_step [] items.

Record ReduceInput := {
  ri_model : str; ri_slug : str; ri_title : str; ri_page_type : str; ri_existing : str; ri_about : str; ri_details : str;
  ri_cited : list Chunk; ri_doc_title : str; ri_doc_summary : str; ri_valid_links : str; ri_language : str;
  ri_deleted_content : str; ri_remaining_sources : str;
}.

Definition if_blank (s d : str) : str := if is_blank_text s then d else s.

(** The prompt of a page. *)
Definition page_request (r : ReduceInput) (facts : str) : ChatRequest :=
  let evidence := cited_verbatim (ri_cited r) in
  let new_body := if str_is_empty evidence then facts else evidence in
  AskPage (ri_slug r) (ri_title r) (ri_page_type r) (if_blank (ri_existing r) (u8"(New page)"))
    (if is_blank_text (ri_doc_summary r) then None else Some (ri_doc_title r, ri_doc_summary r))
    (if negb (is_blank_text new_body) || negb (is_blank_text (ri_about r))
     then Some (ri_doc_title r, ri_title r, ri_about r, new_body) else None)
    (if is_blank_text (ri_deleted_content r) then None
     else Some (ri_deleted_content r, if_blank (ri_remaining_sources r) (u8"(no remaining sources)")))
    (if_blank (ri_valid_links r) (u8"(none)")) (ri_language r).

(** The text of a page and its lede. *)
Definition reduce_page (r : ReduceInput) : str * str :=
  let facts := if_blank (ri_details r) (ri_about r) in
  let draft := page_content_for (ri_page_type r) (ri_title r) facts [] [] in
  if str_eqb (ri_page_type r) PAGE_SUMMARY || negb (chat_http_configured sv) then
    (draft, first_lede (if is_blank_text (ri_about r) then draft else ri_about r))
  else
    match chat sv (page_request r facts) (ri_model r) with
    | Ok raw =>
      if is_blank_text raw then (draft, first_lede draft)
      else
        let '(lede, body) := split_summary_line raw in
        let content := or_default body raw in
        (content, if str_is_empty lede then first_lede content else lede)
    | Err _ => (draft, first_lede draft)
    end.

(** ** Folders *)

Definition parse_taxonomy_assignments (raw : str) : gmap str (list str) :=
  foldl (fun m a => let slug := trim a.1 in if str_is_empty slug then m else <[slug := clean_category_path a.2]> m)
    ∅ (default [] (assignments_of_json sv (json_part raw))).

Definition f64_zero : f64 := S754_zero false.
Definition f64_eq_zero (x : f64) : bool := SFeqb x f64_zero.

Definition cosine (a b : list f64) : f64 :=
  if negb (length a =? length b) || (length a =? 0) then f64_zero
  else
    let '(dot, na, nb) := foldl (fun st p =>
      let '(dot, na, nb) := st in
      (f64_add dot (f64_mul p.1 p.2), f64_add na (f64_mul p.1 p.1), f64_add nb (f64_mul p.2 p.2)))
      (f64_zero, f64_zero, f64_zero) (combine a b) in
    let d := f64_mul (f64_sqrt na) (f64_sqrt nb) in
    if f64_eq_zero d then f64_zero else f64_div dot d.

(** [a.partial_cmp(b).unwrap_or(Equal)] *)
Definition f64_cmp (a b : f64) : comparison := match SFcompare a b with Some c => c | None => Eq end.

Definition FOLDER_SEP : str := u8" / ".
Definition folder_text (p : list str) : str := join FOLDER_SEP p.
Definition item_text (title about : str) : str := title ++ [SP] ++ take 120 about.

(** The indices of the folders nearest to one item. *)
Definition nearest_indices (folder_vecs : list (list f64)) (iv : list f64) (top_k : nat) : list nat :=
  let ranking := imap (fun i fv => (i, cosine iv fv)) folder_vecs in
  map fst (take top_k (sort_with (fun a b => f64_cmp b.2 a.2) ranking)).

Definition select_folders_by_vectors (deeper : list (list str)) (folder_vecs item_vecs : list (list f64)) (top_k : nat)
    : list (list str) :=
  if negb (length deeper =? length folder_vecs) || match item_vecs with [] => true | _ => false end || (top_k =? 0) then []
  else
    let chosen := concat (map (fun iv => nearest_indices folder_vecs iv top_k) item_vecs) in
    map snd (List.filter (fun x => existsb (Nat.eqb x.1) chosen) (imap pair deeper)).

(** The first components, each once, and the deeper paths. *)
Definition folder_step (st : list str * list (list str)) (p : list str) : list str * list (list str) :=
  match p with
  | [] => st
  | top :: rest => (push_new st.1 top, match rest with [] => st.2 | _ => st.2 ++ [p] end)
  end.

Definition select_relevant_folders (pool : list (list str)) (items : list (str * str)) : list (list str) :=
  if length pool <=? TAXONOMY_FEED_ALL then cap_folders pool TAXONOMY_PROMPT_MAX
  else
    let '(l1, deeper) := foldl folder_step ([], []) pool in
    if match deeper with [] => true | _ => false end || match items with [] => true | _ => false end
    then cap_folders pool TAXONOMY_PROMPT_MAX
    else
      let folder_vecs := map (fun p => embed sv (folder_text p)) deeper in
      let item_vecs := map (fun x => embed sv (item_text x.1 x.2)) items in
      cap_folders (map (fun t => [t]) l1 ++ select_folders_by_vectors deeper folder_vecs item_vecs TAXONOMY_TOP_K)
        TAXONOMY_PROMPT_MAX.

(** [Iterator::max_by]: the last of the greatest. *)
Definition max_last {A} (cmp : A -> A -> comparison) (l : list A) : option A :=
  match l with
  | [] => None
  | x :: l => Some (foldl (fun m y => match cmp m y with Gt => m | _ => y end) x l)
  end.

Definition nearest_folder (title about : str) (candidates : list (list str)) : option (list str) :=
  let deeper := List.filter (fun p => 2 <=? length p) candidates in
  let iv := embed sv (item_text title about) in
  max_last (fun a b => f64_cmp (cosine iv (embed sv (folder_text a))) (cosine iv (embed sv (folder_text b)))) deeper.

Definition fallback_path (page_type title : str) (existing : list (list str)) : list str :=
  match nearest_folder title title existing with
  | Some near => near
  | None =>
    let want := wanted_folder page_type in
    match (if str_is_empty want then None
           else find (fun p => match p with s :: _ => eq_ignore_ascii_case s want | [] => false end) existing) with
    | Some hit => hit
    | None => category_for page_type title
    end
  end.
End services.
