(* ===== verification/Wiki.v ===== *)
(** * The wiki working set and its queue

    [crates/knowledge/src/wiki/mod.rs], first part: the store of a wiki job, its two lanes of
    pending operations, claims, slug locks, the in-flight mark, tombstones and triggers.  The
    documents, the job queue and the dead letters are those of [Jobs].  A [HashMap] is a
    [gmap]; the order in which its values are iterated is the argument [shuffle], one order
    per place of the code.  A handler reads the clock once, in milliseconds. *)
From S2P Require Import Prelude RustStr RustFloat Pipeline Jobs Taxonomy.
Open Scope nat_scope.

Inductive Lane := Ingest | Finalize.
Inductive OpKind := OpIngest | OpRetract | OpSlug | OpChange | OpFolderPrune.
Inductive WikiStatus := Draft | Published | Archived.

#[export] Instance lane_eq_dec : EqDecision Lane. Proof. solve_decision. Defined.
#[export] Instance op_kind_eq_dec : EqDecision OpKind. Proof. solve_decision. Defined.
#[export] Instance wiki_status_eq_dec : EqDecision WikiStatus. Proof. solve_decision. Defined.

Definition lane_name (l : Lane) : str := match l with Ingest => u8"wiki:ingest" | Finalize => u8"wiki:finalize" end.
Definition QUEUE_WIKI : str := u8"wiki".

Definition INGEST_DEBOUNCE_SECS : N := 30.
Definition RETRACT_DEBOUNCE_SECS : N := 5.
Definition FINALIZE_DEBOUNCE_SECS : N := 20.
Definition LOCK_RETRY_SECS : N := 15.
Definition BATCH_DOCS : nat := 5.
Definition MAX_FAIL_RETRIES : Z := 5.
Definition STALE_CLAIM_MS : Z := 90 * 60 * 1000.
Definition SLUG_LOCK_TTL_MS : Z := 5 * 60 * 1000.
Definition TOMBSTONE_TTL_MS : Z := 60 * 60 * 1000.
Definition INFLIGHT_TTL_MS : Z := 90 * 1000.

Record WikiVersion := {
  wv_wiki_enabled : bool; wv_vector_enabled : bool; wv_keyword_enabled : bool; wv_synthesis_model : str; wv_summary_model : str;
}.

Definition wiki_chat_model (v : WikiVersion) : str := or_default (wv_synthesis_model v) (wv_summary_model v).

Record WikiPage := {
  wp_id : N; wp_version_id : N; wp_slug : str; wp_title : str; wp_content : str; wp_page_type : str; wp_status : WikiStatus;
  wp_summary : str; wp_aliases : list str; wp_source_refs : list N; wp_chunk_refs : list N; wp_category_path : list str;
  wp_folder_id : option N;
}.

Record WikiFolder := {
  wf_id : N; wf_version_id : N; wf_parent_id : option N; wf_name : str; wf_path : str; wf_depth : Z; wf_sort_order : Z;
}.

Record WikiPendingOp := {
  op_id : Z; op_lane : Lane; op_version_id : N; op_kind : OpKind; op_document_id : option N; op_slug : str; op_title : str;
  op_claimed_at : option Z; op_fail_count : Z;
}.

Record ChunkEmbedding := { ce_content : str; ce_vector : list f64; ce_tsv : str }.

(** The working set of a wiki job. *)
Record WikiStore {Value : Type} := {
  wk_job : WikiJob Value; wk_titles : gmap N str; wk_versions : gmap N WikiVersion; wk_chunks : gmap N Chunk;
  wk_embeddings : gmap N ChunkEmbedding; wk_graph : gmap (N * N * str) GraphNode; wk_pages : gmap (N * str) WikiPage;
  wk_folders : gmap N WikiFolder; wk_ops : list WikiPendingOp; wk_tombstones : gmap (N * N) Z; wk_locks : gmap str Z;
  wk_inflight : gmap N Z; wk_op_seq : Z; wk_fresh : nat;
}.
Arguments WikiStore : clear implicits.

Section store.
Context {Value : Type}.
Notation W := (WikiStore Value).

Definition with_job (f : WikiJob Value -> WikiJob Value) (w : W) : W :=
  {| wk_job := f (wk_job w); wk_titles := wk_titles w; wk_versions := wk_versions w; wk_chunks := wk_chunks w;
     wk_embeddings := wk_embeddings w; wk_graph := wk_graph w; wk_pages := wk_pages w; wk_folders := wk_folders w;
     wk_ops := wk_ops w; wk_tombstones := wk_tombstones w; wk_locks := wk_locks w; wk_inflight := wk_inflight w;
     wk_op_seq := wk_op_seq w; wk_fresh := wk_fresh w |}.

Definition with_ops (f : list WikiPendingOp -> list WikiPendingOp) (w : W) : W :=
  {| wk_job := wk_job w; wk_titles := wk_titles w; wk_versions := wk_versions w; wk_chunks := wk_chunks w;
     wk_embeddings := wk_embeddings w; wk_graph := wk_graph w; wk_pages := wk_pages w; wk_folders := wk_folders w;
     wk_ops := f (wk_ops w); wk_tombstones := wk_tombstones w; wk_locks := wk_locks w; wk_inflight := wk_inflight w;
     wk_op_seq := wk_op_seq w; wk_fresh := wk_fresh w |}.

Definition with_locks (f : gmap str Z -> gmap str Z) (w : W) : W :=
  {| wk_job := wk_job w; wk_titles := wk_titles w; wk_versions := wk_versions w; wk_chunks := wk_chunks w;
     wk_embeddings := wk_embeddings w; wk_graph := wk_graph w; wk_pages := wk_pages w; wk_folders := wk_folders w;
     wk_ops := wk_ops w; wk_tombstones := wk_tombstones w; wk_locks := f (wk_locks w); wk_inflight := wk_inflight w;
     wk_op_seq := wk_op_seq w; wk_fresh := wk_fresh w |}.

Definition with_inflight (f : gmap N Z -> gmap N Z) (w : W) : W :=
  {| wk_job := wk_job w; wk_titles := wk_titles w; wk_versions := wk_versions w; wk_chunks := wk_chunks w;
     wk_embeddings := wk_embeddings w; wk_graph := wk_graph w; wk_pages := wk_pages w; wk_folders := wk_folders w;
     wk_ops := wk_ops w; wk_tombstones := wk_tombstones w; wk_locks := wk_locks w; wk_inflight := f (wk_inflight w);
     wk_op_seq := wk_op_seq w; wk_fresh := wk_fresh w |}.

Definition with_tombstones (f : gmap (N * N) Z -> gmap (N * N) Z) (w : W) : W :=
  {| wk_job := wk_job w; wk_titles := wk_titles w; wk_versions := wk_versions w; wk_chunks := wk_chunks w;
     wk_embeddings := wk_embeddings w; wk_graph := wk_graph w; wk_pages := wk_pages w; wk_folders := wk_folders w;
     wk_ops := wk_ops w; wk_tombstones := f (wk_tombstones w); wk_locks := wk_locks w; wk_inflight := wk_inflight w;
     wk_op_seq := wk_op_seq w; wk_fresh := wk_fresh w |}.

Definition with_pages (f : gmap (N * str) WikiPage -> gmap (N * str) WikiPage) (w : W) : W :=
  {| wk_job := wk_job w; wk_titles := wk_titles w; wk_versions := wk_versions w; wk_chunks := wk_chunks w;
     wk_embeddings := wk_embeddings w; wk_graph := wk_graph w; wk_pages := f (wk_pages w); wk_folders := wk_folders w;
     wk_ops := wk_ops w; wk_tombstones := wk_tombstones w; wk_locks := wk_locks w; wk_inflight := wk_inflight w;
     wk_op_seq := wk_op_seq w; wk_fresh := wk_fresh w |}.

Definition with_chunks (f : gmap N Chunk -> gmap N Chunk) (w : W) : W :=
  {| wk_job := wk_job w; wk_titles := wk_titles w; wk_versions := wk_versions w; wk_chunks := f (wk_chunks w);
     wk_embeddings := wk_embeddings w; wk_graph := wk_graph w; wk_pages := wk_pages w; wk_folders := wk_folders w;
     wk_ops := wk_ops w; wk_tombstones := wk_tombstones w; wk_locks := wk_locks w; wk_inflight := wk_inflight w;
     wk_op_seq := wk_op_seq w; wk_fresh := wk_fresh w |}.

Definition with_embeddings (f : gmap N ChunkEmbedding -> gmap N ChunkEmbedding) (w : W) : W :=
  {| wk_job := wk_job w; wk_titles := wk_titles w; wk_versions := wk_versions w; wk_chunks := wk_chunks w;
     wk_embeddings := f (wk_embeddings w); wk_graph := wk_graph w; wk_pages := wk_pages w; wk_folders := wk_folders w;
     wk_ops := wk_ops w; wk_tombstones := wk_tombstones w; wk_locks := wk_locks w; wk_inflight := wk_inflight w;
     wk_op_seq := wk_op_seq w; wk_fresh := wk_fresh w |}.

Definition with_folders (f : gmap N WikiFolder -> gmap N WikiFolder) (w : W) : W :=
  {| wk_job := wk_job w; wk_titles := wk_titles w; wk_versions := wk_versions w; wk_chunks := wk_chunks w;
     wk_embeddings := wk_embeddings w; wk_graph := wk_graph w; wk_pages := wk_pages w; wk_folders := f (wk_folders w);
     wk_ops := wk_ops w; wk_tombstones := wk_tombstones w; wk_locks := wk_locks w; wk_inflight := wk_inflight w;
     wk_op_seq := wk_op_seq w; wk_fresh := wk_fresh w |}.

(** A new operation number, and a new identifier. *)
Definition next_op (w : W) : W :=
  {| wk_job := wk_job w; wk_titles := wk_titles w; wk_versions := wk_versions w; wk_chunks := wk_chunks w;
     wk_embeddings := wk_embeddings w; wk_graph := wk_graph w; wk_pages := wk_pages w; wk_folders := wk_folders w;
     wk_ops := wk_ops w; wk_tombstones := wk_tombstones w; wk_locks := wk_locks w; wk_inflight := wk_inflight w;
     wk_op_seq := (wk_op_seq w + 1)%Z; wk_fresh := wk_fresh w |}.

Definition next_uuid (w : W) : W :=
  {| wk_job := wk_job w; wk_titles := wk_titles w; wk_versions := wk_versions w; wk_chunks := wk_chunks w;
     wk_embeddings := wk_embeddings w; wk_graph := wk_graph w; wk_pages := wk_pages w; wk_folders := wk_folders w;
     wk_ops := wk_ops w; wk_tombstones := wk_tombstones w; wk_locks := wk_locks w; wk_inflight := wk_inflight w;
     wk_op_seq := wk_op_seq w; wk_fresh := S (wk_fresh w) |}.

(** ** The lanes *)

Definition in_lane (lane : Lane) (version : N) (o : WikiPendingOp) : bool :=
  bool_decide (op_lane o = lane) && (op_version_id o =? version)%N.

(** An ingest-lane row of the same document and kind that is not claimed. *)
Definition replaced_by (version did : N) (kind : OpKind) (o : WikiPendingOp) : bool :=
  in_lane Ingest version o && bool_decide (op_document_id o = Some did) && bool_decide (op_kind o = kind)
  && bool_decide (op_claimed_at o = None).

Definition push_op (lane : Lane) (version : N) (kind : OpKind) (document_id : option N) (slug title : str) (w : W) : W :=
  let w := match lane, document_id with
           | Ingest, Some did => with_ops (List.filter (fun o => negb (replaced_by version did kind o))) w
           | _, _ => w
           end in
  let w := next_op w in
  with_ops (fun ops => ops ++ [{| op_id := wk_op_seq w; op_lane := lane; op_version_id := version; op_kind := kind;
                                  op_document_id := document_id; op_slug := slug; op_title := title;
                                  op_claimed_at := None; op_fail_count := 0 |}]) w.

Definition set_claim (at_ : option Z) (o : WikiPendingOp) : WikiPendingOp :=
  {| op_id := op_id o; op_lane := op_lane o; op_version_id := op_version_id o; op_kind := op_kind o;
     op_document_id := op_document_id o; op_slug := op_slug o; op_title := op_title o; op_claimed_at := at_;
     op_fail_count := op_fail_count o |}.

Definition reclaimable (stale_before : Z) (o : WikiPendingOp) : bool :=
  match op_claimed_at o with None => true | Some at_ => (at_ <=? stale_before)%Z end.

(** The loop of [claim_lane]: the rows after it and the claimed ones, at most [limit]. *)
Fixpoint claim_rows (now : Z) (lane : Lane) (version : N) (limit : nat) (ops : list WikiPendingOp)
    : list WikiPendingOp * list WikiPendingOp :=
  match ops with
  | [] => ([], [])
  | o :: ops =>
    if in_lane lane version o && reclaimable (now - STALE_CLAIM_MS) o then
      let o := set_claim (Some now) o in
      if limit <=? 1 then (o :: ops, [o])
      else let '(rest, out) := claim_rows now lane version (limit - 1) ops in (o :: rest, o :: out)
    else let '(rest, out) := claim_rows now lane version limit ops in (o :: rest, out)
  end.

Definition claim_lane (now : Z) (lane : Lane) (version : N) (limit : nat) (w : W) : W * list WikiPendingOp :=
  let '(ops, out) := claim_rows now lane version limit (wk_ops w) in (with_ops (fun _ => ops) w, out).

(** A row that waits for another try stays although it is in the list. *)
Definition waits_for_retry (o : WikiPendingOp) : bool :=
  (0 <? op_fail_count o)%Z && (op_fail_count o <=? MAX_FAIL_RETRIES)%Z && bool_decide (op_claimed_at o = None).

Definition trim_ops (ids : list Z) (w : W) : W :=
  with_ops (List.filter (fun o => negb (existsb (Z.eqb (op_id o)) ids) || waits_for_retry o)) w.

Definition clear_lane (lane : Lane) (version : N) (w : W) : W :=
  with_ops (List.filter (fun o => negb (in_lane lane version o))) w.

(** [row.fail_count += 1; row.claimed_at = None] on the first row with the number. *)
Definition fail_row (id : Z) (w : W) : W * option Z :=
  match find (fun o => (op_id o =? id)%Z) (wk_ops w) with
  | None => (w, None)
  | Some row =>
    let count := (op_fail_count row + 1)%Z in
    (with_ops (fun ops => default ops (update_first (fun o => (op_id o =? id)%Z)
       (fun o => {| op_id := op_id o; op_lane := op_lane o; op_version_id := op_version_id o; op_kind := op_kind o;
                    op_document_id := op_document_id o; op_slug := op_slug o; op_title := op_title o;
                    op_claimed_at := None; op_fail_count := (op_fail_count o + 1)%Z |}) ops)) w, Some count)
  end.

(** ** Locks, marks and tombstones *)

Definition try_reserve {K} `{Countable K} (now ttl : Z) (k : K) (m : gmap K Z) : bool :=
  match m !! k with Some at_ => negb (now - at_ <? ttl)%Z | None => true end.

Definition write_tombstone (now : Z) (version did : N) (w : W) : W := with_tombstones (insert (version, did) now) w.

Definition is_tombstoned (now : Z) (version did : N) (w : W) : bool :=
  match wk_tombstones w !! (version, did) with Some at_ => (now - at_ <? TOMBSTONE_TTL_MS)%Z | None => false end.

Definition reserve_inflight (now : Z) (version : N) (w : W) : option W :=
  if try_reserve now INFLIGHT_TTL_MS version (wk_inflight w) then Some (with_inflight (insert version now) w) else None.

Definition release_inflight (version : N) (w : W) : W := with_inflight (delete version) w.

Definition settle (did : N) (w : W) : W := with_job (wiki_finalize_subtask did) w.

Section ids.
Context (uuid_to_string : N -> str) (new_v4 : nat -> N) (payload : N -> N -> str -> Value) (task_id_of : Value -> option str).

Definition slug_lock_key (version : N) (slug : str) : str := u8"wiki:slug:" ++ uuid_to_string version ++ u8":" ++ slug.
Definition task_id (lane : Lane) (version : N) : str :=
  match lane with Ingest => u8"wiki-ingest-" | Finalize => u8"wiki-finalize-" end ++ uuid_to_string version.
Definition summary_slug (did : N) : str := PAGE_SUMMARY ++ u8"/" ++ uuid_to_string did.

Definition try_slug_lock (now : Z) (version : N) (slug : str) (w : W) : option W :=
  let k := slug_lock_key version slug in
  if try_reserve now SLUG_LOCK_TTL_MS k (wk_locks w) then Some (with_locks (insert k now) w) else None.

Definition release_slug_lock (version : N) (slug : str) (w : W) : W := with_locks (delete (slug_lock_key version slug)) w.

(** [schedule_trigger]: nothing when a job of the type with the task id is queued. *)
Definition schedule_trigger (lane : Lane) (version delay : N) (w : W) : W :=
  let id := task_id lane version in
  if existsb (fun j => str_eqb (job_task_type j) (lane_name lane) && bool_decide (task_id_of (job_payload j) = Some id))
       (wj_queue (wk_job w)) then w
  else
    next_uuid (with_job (fun j => fst (enqueue (new_v4 (wk_fresh w)) (lane_name lane) QUEUE_WIKI (payload version delay id) j)) w).

Definition enqueue_ingest (now : Z) (version did : N) (w : W) : W :=
  if is_tombstoned now version did w then settle did w
  else schedule_trigger Ingest version INGEST_DEBOUNCE_SECS (push_op Ingest version OpIngest (Some did) [] [] w).

Definition enqueue_finalize_op (version : N) (kind : OpKind) (slug title : str) (w : W) : W :=
  push_op Finalize version kind None slug title w.

(** [slug_for]; the identifier prints at least eight ASCII chars. *)
Definition slug_for (title : str) (id : N) : str := map slug_char title ++ u8"-" ++ take 8 (uuid_to_string id).

Definition enqueue_retract (now : Z) (version did : N) (title : str) (w : W) : W :=
  let w := write_tombstone now version did w in
  let w := push_op Ingest version OpRetract (Some did) (slug_for title did) title w in
  schedule_trigger Ingest version RETRACT_DEBOUNCE_SECS w.

(** [set_ingest_fail_count_on_job]: the last matching row. *)
Definition is_ingest_of (version did : N) (o : WikiPendingOp) : bool :=
  in_lane Ingest version o && bool_decide (op_document_id o = Some did) && bool_decide (op_kind o = OpIngest).

Definition set_ingest_fail_count (version did : N) (count : Z) (w : W) : W :=
  with_ops (fun ops => reverse (default (reverse ops) (update_first (is_ingest_of version did)
    (fun o => {| op_id := op_id o; op_lane := op_lane o; op_version_id := op_version_id o; op_kind := op_kind o;
                 op_document_id := op_document_id o; op_slug := op_slug o; op_title := op_title o;
                 op_claimed_at := op_claimed_at o; op_fail_count := count |}) (reverse ops)))) w.

Definition retryable_ingest_fail_count (version did : N) (w : W) : option Z :=
  op_fail_count <$> find (fun o => is_ingest_of version did o && (op_fail_count o <=? MAX_FAIL_RETRIES)%Z) (wk_ops w).

(** [fail_open_pending_on_job]: settle every waiting ingest and empty the lane. *)
Definition fail_open_pending (version : N) (w : W) : W :=
  let ids := omap (fun o => if in_lane Ingest version o && bool_decide (op_kind o = OpIngest) then op_document_id o else None) (wk_ops w) in
  clear_lane Ingest version (foldl (fun w did => settle did w) w ids).
End ids.
End store.
