(* ===== verification/WikiPages.v ===== *)
(** * Wiki pages: map, reduce, folders and the two handlers

    [crates/knowledge/src/wiki/mod.rs], second part: the updates a document asks for
    ([map_document], [retract_document_updates]), the reduction of the updates of every slug
    ([reduce_grouped]), system pages, folders, and [process_ingest] and [process_finalize].
    [order n] is the order in which the values of a map, or the results of the parallel
    workers, are seen at place [n] of the code.  [embed_index] embeds a text or fails;
    [is_alphanumeric] is the Unicode test. *)
From S2P Require Import Prelude RustStr RustFloat StrReplace Linkify Pipeline Jobs Taxonomy.
From S2P Require Import Wiki.
Open Scope nat_scope.

Definition WIKI_PAGE : str := u8"wiki_page".
Definition RETRACT : str := u8"retract".
Definition RETRACT_STALE : str := u8"retractStale".
Definition SUMMARY_DIR : str := u8"summary/".
Definition STUB_CHAT : str := u8"stub-chat".
Definition NIL_UUID : N := 0.

Record SlugUpdate := {
  su_slug : str; su_type : str; su_document_id : N; su_doc_title : str; su_language : str; su_title : str; su_about : str;
  su_details : str; su_aliases : list str; su_chunk_ids : list N; su_summary_line : str; su_summary_body : str;
  su_retract_content : str; su_doc_summary : str;
}.

Record ReduceJob := {
  rj_slug : str; rj_updates : list SlugUpdate; rj_existing : option WikiPage; rj_chunks : list Chunk; rj_remaining : str;
  rj_valid_links : str;
}.

Record ReducePatch := {
  rp_slug : str; rp_title : str; rp_page_type : str; rp_content : str; rp_summary : str; rp_aliases : list str;
  rp_source_refs : list N; rp_chunk_refs : list N; rp_owner_doc : N;
}.

Definition is_published (p : WikiPage) : bool := bool_decide (wp_status p = Published).

Definition set_content (content : str) (p : WikiPage) : WikiPage :=
  {| wp_id := wp_id p; wp_version_id := wp_version_id p; wp_slug := wp_slug p; wp_title := wp_title p; wp_content := content;
     wp_page_type := wp_page_type p; wp_status := wp_status p; wp_summary := wp_summary p; wp_aliases := wp_aliases p;
     wp_source_refs := wp_source_refs p; wp_chunk_refs := wp_chunk_refs p; wp_category_path := wp_category_path p;
     wp_folder_id := wp_folder_id p |}.

Definition set_page_type (t : str) (p : WikiPage) : WikiPage :=
  {| wp_id := wp_id p; wp_version_id := wp_version_id p; wp_slug := wp_slug p; wp_title := wp_title p; wp_content := wp_content p;
     wp_page_type := t; wp_status := wp_status p; wp_summary := wp_summary p; wp_aliases := wp_aliases p;
     wp_source_refs := wp_source_refs p; wp_chunk_refs := wp_chunk_refs p; wp_category_path := wp_category_path p;
     wp_folder_id := wp_folder_id p |}.

Definition set_summary (s : str) (p : WikiPage) : WikiPage :=
  {| wp_id := wp_id p; wp_version_id := wp_version_id p; wp_slug := wp_slug p; wp_title := wp_title p; wp_content := wp_content p;
     wp_page_type := wp_page_type p; wp_status := wp_status p; wp_summary := s; wp_aliases := wp_aliases p;
     wp_source_refs := wp_source_refs p; wp_chunk_refs := wp_chunk_refs p; wp_category_path := wp_category_path p;
     wp_folder_id := wp_folder_id p |}.

Definition set_category (path : list str) (folder : option N) (p : WikiPage) : WikiPage :=
  {| wp_id := wp_id p; wp_version_id := wp_version_id p; wp_slug := wp_slug p; wp_title := wp_title p; wp_content := wp_content p;
     wp_page_type := wp_page_type p; wp_status := wp_status p; wp_summary := wp_summary p; wp_aliases := wp_aliases p;
     wp_source_refs := wp_source_refs p; wp_chunk_refs := wp_chunk_refs p; wp_category_path := path; wp_folder_id := folder |}.

(** ** The text of a chunk in the index *)

Definition embedding_content (c : Chunk) : str :=
  let body := trim (c_content c) in
  if str_is_empty (c_context_header c) then body else c_context_header c ++ [NL; NL] ++ body.

Definition index_content (title : str) (c : Chunk) : str :=
  (if is_blank_text title then [] else trim title ++ [NL]) ++ embedding_content c.

(** ** One group of updates: [run_reduce_job] *)

Definition is_summary_update (u : SlugUpdate) : bool := str_eqb (su_type u) PAGE_SUMMARY.
Definition is_retract (u : SlugUpdate) : bool := str_eqb (su_type u) RETRACT || str_eqb (su_type u) RETRACT_STALE.
Definition is_addition (u : SlugUpdate) : bool := negb (is_summary_update u) && negb (is_retract u).

Definition document_block (title content : str) : str :=
  u8"<document>" ++ [NL] ++ u8"<title>" ++ title ++ u8"</title>" ++ [NL] ++ u8"<content>" ++ [NL] ++ content ++ [NL]
  ++ u8"</content>" ++ [NL] ++ u8"</document>" ++ [NL].

(** What the loop over the additions collects. *)
Record Merged := {
  mg_title : str; mg_page_type : str; mg_about : str; mg_details : str; mg_aliases : list str; mg_source_refs : list N;
  mg_chunk_refs : list N; mg_cited : list Chunk;
}.

Definition add_update (chunks : list Chunk) (m : Merged) (u : SlugUpdate) : Merged :=
  {| mg_title := or_default (mg_title m) (su_title u); mg_page_type := or_default (mg_page_type m) (su_type u);
     mg_about := longer (mg_about m) (su_about u); mg_details := longer (mg_details m) (su_details u);
     mg_aliases := extend_new (mg_aliases m) (su_aliases u); mg_source_refs := push_new (mg_source_refs m) (su_document_id u);
     mg_chunk_refs := extend_new (mg_chunk_refs m) (su_chunk_ids u);
     mg_cited := mg_cited m ++ omap (fun id => find (fun c => (c_id c =? id)%N) chunks) (su_chunk_ids u) |}.

(** The page's parts before the additions. *)
Definition merge_start (job : ReduceJob) : Merged :=
  let page {A} (f : WikiPage -> A) (d : A) := from_option f d (rj_existing job) in
  let retracts := List.filter is_retract (rj_updates job) in
  {| mg_title := page wp_title []; mg_page_type := page wp_page_type []; mg_about := []; mg_details := [];
     mg_aliases := page wp_aliases [];
     mg_source_refs := List.filter (fun id => negb (existsb (fun u => (su_document_id u =? id)%N) retracts)) (page wp_source_refs []);
     mg_chunk_refs := match retracts with [] => page wp_chunk_refs [] | _ => [] end; mg_cited := [] |}.

Definition summary_patch (job : ReduceJob) (sum : SlugUpdate) : ReducePatch :=
  let content := or_default (su_summary_body sum) (heading (su_title sum)) in
  {| rp_slug := rj_slug job; rp_title := su_title sum; rp_page_type := PAGE_SUMMARY; rp_content := content;
     rp_summary := or_default (su_summary_line sum) (first_lede content); rp_aliases := [];
     rp_source_refs := push_new (from_option wp_source_refs [] (rj_existing job)) (su_document_id sum);
     rp_chunk_refs := []; rp_owner_doc := su_document_id sum |}.

(** The folders a path names, from the top. *)
Definition SLASH_STR : str := u8"/".
Definition path_text (path : list str) : str := join SLASH_STR path.

Definition folder_with (id version : N) (parent : option N) (name path : str) (i : nat) : WikiFolder :=
  {| wf_id := id; wf_version_id := version; wf_parent_id := parent; wf_name := name; wf_path := path;
     wf_depth := Z.of_nat i + 1; wf_sort_order := Z.of_nat i |}.

Definition page_ref_line (p : WikiPage) : str :=
  u8"[[" ++ wp_slug p ++ [PIPE] ++ wp_title p ++ u8"]] (" ++ wp_page_type p ++ u8")".

Definition page_links (p : WikiPage) : list LinkRef :=
  {| slug := wp_slug p; match_text := wp_title p |} :: map (fun a => {| slug := wp_slug p; match_text := a |}) (wp_aliases p).

(** [a.cmp(b).then(..)] *)
Definition str_leb (a b : str) : bool := negb (str_ltb b a).
Definition index_order (a b : WikiPage) : bool :=
  str_ltb (wp_page_type a) (wp_page_type b)
  || (str_eqb (wp_page_type a) (wp_page_type b) && str_leb (wp_title a) (wp_title b)).

Inductive WikiOperation := RunIngest | RunRetract.
#[export] Instance wiki_operation_eq_dec : EqDecision WikiOperation. Proof. solve_decision. Defined.

Section pages.
Context {Value : Type} (sv : Services) (order : nat -> forall A : Type, list A -> list A)
  (embed_index : str -> result str (list f64)) (is_alphanumeric : char -> bool)
  (uuid_to_string : N -> str) (new_v4 : nat -> N) (payload : N -> N -> str -> Value) (task_id_of : Value -> option str).
Notation W := (WikiStore Value).

(** The values of a map, as place [site] iterates them. *)
Definition values {K A} `{Countable K} (site : nat) (m : gmap K A) : list A := order site A (map snd (map_to_list m)).

(** The words between chars that are not alphanumeric. *)
Fixpoint words (s acc : str) : list str :=
  let word := if str_is_empty acc then [] else [reverse acc] in
  match s with
  | [] => word
  | c :: s => if is_alphanumeric c then words s (c :: acc) else word ++ words s []
  end.

Definition tokenize (text : str) : list str := words (to_lowercase sv text) [].

(** [index_one_in]; the second component is whether it succeeded. *)
Definition index_one_in (ch : Chunk) (title : str) (vector_on keyword_on : bool) (w : W) : W * bool :=
  if str_eqb (c_chunk_type ch) (u8"parent_text") then (w, true)
  else
    let content := index_content title ch in
    match (if vector_on then embed_index content else Ok []) with
    | Err _ => (w, false)
    | Ok vector =>
      (with_embeddings (insert (c_id ch) {| ce_content := content; ce_vector := vector;
         ce_tsv := if keyword_on then join [SP] (tokenize content) else [] |}) w, true)
    end.

Definition vector_on (version : N) (w : W) : bool := from_option wv_vector_enabled true (wk_versions w !! version).
Definition keyword_on (version : N) (w : W) : bool := from_option wv_keyword_enabled true (wk_versions w !! version).

Definition wiki_chunk (id document version : N) (slug content : str) : Chunk :=
  {| c_id := id; c_document_id := document; c_version_id := version; c_chunk_type := WIKI_PAGE; c_content := content;
     c_context_header := slug; c_start_at := 0; c_end_at := Z.of_nat (length content) |}.

Definition index_wiki_page (version document : N) (slug title content : str) (w : W) : W :=
  let ch := wiki_chunk (new_v4 (wk_fresh w)) document version slug content in
  let w := fst (index_one_in ch title (vector_on version w) (keyword_on version w) (next_uuid w)) in
  with_chunks (insert (c_id ch) ch) w.

(** ** Map *)

Definition collect_text_chunks (document : N) (w : W) : list Chunk :=
  sort_by (fun a b => (c_start_at a <=? c_start_at b)%Z)
    (List.filter (fun c => (c_document_id c =? document)%N && str_eqb (c_chunk_type c) TEXT_CHUNK) (values 0 (wk_chunks w))).

Definition split_nonempty (path : str) : list str := List.filter (fun s => negb (str_is_empty s)) (split_char 47%Z path).

Definition existing_folder_paths (version : N) (w : W) : list (list str) :=
  map (fun f => split_nonempty (wf_path f))
    (List.filter (fun f => (wf_version_id f =? version)%N && negb (str_is_empty (wf_path f))) (values 1 (wk_folders w))).

Definition version_pages (site : nat) (version : N) (w : W) : list WikiPage :=
  List.filter (fun p => (wp_version_id p =? version)%N) (values site (wk_pages w)).

Definition refers_to (document : N) (p : WikiPage) : bool := existsb (N.eqb document) (wp_source_refs p).

Definition slugs_for_document (version document : N) (w : W) : list str :=
  map wp_slug (List.filter (refers_to document) (version_pages 2 version w)).

Definition candidates_from_graph (nodes : list GraphNode) : list Candidate :=
  omap (fun n =>
    if is_blank_text (gn_name n) then None
    else Some {| ca_title := gn_name n; ca_slug := typed_slug PAGE_ENTITY (gn_name n); ca_page_type := PAGE_ENTITY;
                 ca_aliases := []; ca_about := gn_name n; ca_details := []; ca_source_refs := [] |}) nodes.

Definition item_candidate (it : ExtractedItem) : Candidate :=
  let page_type := valid_page_type (it_page_type it) in
  {| ca_title := it_name it;
     ca_slug := if str_is_empty (it_slug it) then typed_slug page_type (it_name it)
                else if contains (it_slug it) SLASH_STR then it_slug it
                else page_type ++ SLASH_STR ++ it_slug it;
     ca_page_type := page_type; ca_aliases := it_aliases it; ca_about := it_description it; ca_details := it_details it;
     ca_source_refs := [] |}.

Definition extract_candidates (version document : N) (title body : str) (chunks : list Chunk) (language : str) (w : W)
    : list Candidate :=
  let model := from_option wiki_chat_model STUB_CHAT (wk_versions w !! version) in
  let previous := join [NL] (map (fun p => u8"- " ++ wp_slug p ++ u8" = " ++ wp_title p)
    (List.filter (fun p => is_item_type (wp_page_type p)) (version_pages 3 version w))) in
  let raw := if chat_http_configured sv then answer_or_empty (chat sv (AskCandidates body previous title language) model) else [] in
  let candidates :=
    match parse_extraction sv raw with
    | [] => candidates_from_graph
              (List.filter (fun n => (gn_version_id n =? version)%N && (gn_document_id n =? document)%N) (values 4 (wk_graph w)))
    | items => map item_candidate items
    end in
  let '(citations, news) := cite_with_llm sv (order 5 _) model candidates chunks language in
  attach_citations candidates citations news chunks.

(** An update with the fields every kind of update sets. *)
Definition update_of (slug type : str) (document : N) (doc_title language title retract_content doc_summary : str) : SlugUpdate :=
  {| su_slug := slug; su_type := type; su_document_id := document; su_doc_title := doc_title; su_language := language;
     su_title := title; su_about := []; su_details := []; su_aliases := []; su_chunk_ids := []; su_summary_line := [];
     su_summary_body := []; su_retract_content := retract_content; su_doc_summary := doc_summary |}.

Definition candidate_update (document : N) (doc_title language doc_summary : str) (c : Candidate) : SlugUpdate :=
  {| su_slug := ca_slug c; su_type := ca_page_type c; su_document_id := document; su_doc_title := doc_title;
     su_language := language; su_title := ca_title c; su_about := ca_about c; su_details := ca_details c;
     su_aliases := ca_aliases c; su_chunk_ids := ca_source_refs c; su_summary_line := []; su_summary_body := [];
     su_retract_content := []; su_doc_summary := doc_summary |}.

(** The update that takes a document off a page it was on. *)
Definition old_update (document : N) (doc_title language doc_summary prior body : str) (new_slugs : list str) (old : str)
    : option SlugUpdate :=
  if existsb (str_eqb old) new_slugs then
    if starts_with old SUMMARY_DIR then None
    else Some (update_of old RETRACT document doc_title language [] prior doc_summary)
  else Some (update_of old RETRACT_STALE document doc_title language [] body doc_summary).

Definition map_document (version document : N) (w : W) : result str (list SlugUpdate) :=
  match wk_titles w !! document, wk_versions w !! version with
  | Some title, Some ver =>
    let chunks := collect_text_chunks document w in
    let body := assemble_body chunks in
    if negb (wv_wiki_enabled ver) || str_is_empty body || negb (has_sufficient_text body) then Ok []
    else
      let language := document_language body in
      let candidates := dedup_candidates sv (extract_candidates version document title body chunks language w) in
      let listing := join [NL] (map (fun c => u8"- [[" ++ ca_slug c ++ u8"]] = " ++ ca_title c)
        (List.filter (fun c => negb (str_eqb (ca_page_type c) PAGE_SUMMARY)) candidates)) in
      match (if chat_http_configured sv then chat sv (AskSummary body listing language) (wiki_chat_model ver) else Ok []) with
      | Err e => Err e
      | Ok synthesized =>
        let '(summary_lede, summary_body) := split_summary_line synthesized in
        let summary_body := or_default summary_body synthesized in
        let doc_summary := or_default summary_body summary_lede in
        let sum_slug := summary_slug uuid_to_string document in
        let items := List.filter (fun c => negb (str_eqb (ca_page_type c) PAGE_SUMMARY)) candidates in
        let prior := from_option wp_content doc_summary (wk_pages w !! (version, sum_slug)) in
        Ok ({| su_slug := sum_slug; su_type := PAGE_SUMMARY; su_document_id := document; su_doc_title := title;
               su_language := language; su_title := title; su_about := summary_lede; su_details := []; su_aliases := [];
               su_chunk_ids := []; su_summary_line := summary_lede; su_summary_body := summary_body;
               su_retract_content := []; su_doc_summary := doc_summary |}
            :: map (candidate_update document title language doc_summary) items
            ++ omap (old_update document title language doc_summary prior body (sum_slug :: map ca_slug items))
                 (slugs_for_document version document w))
      end
  | _, _ => Ok []
  end.

(** [retract_document_updates]: the survivors come in the order of a hash set. *)
Fixpoint map_survivors (version : N) (w : W) (affected : list str) (survivors : list N)
    : result str (list SlugUpdate) :=
  match survivors with
  | [] => Ok []
  | s :: survivors =>
    match map_document version s w with
    | Err e => Err e
    | Ok updates =>
      match map_survivors version w affected survivors with
      | Err e => Err e
      | Ok rest => Ok (List.filter (fun u => existsb (str_eqb (su_slug u)) affected) updates ++ rest)
      end
    end
  end.

Definition retract_document_updates (version : N) (op : WikiPendingOp) (w : W) : result str (list SlugUpdate) :=
  match op_document_id op with
  | None => Ok []
  | Some document =>
    let pages := List.filter (refers_to document) (version_pages 6 version w) in
    let affected := map wp_slug pages in
    let survivors := order 7 N (remove_dups (List.filter (fun s => negb (s =? document)%N) (concat (map wp_source_refs pages)))) in
    let title := default (op_title op) (wk_titles w !! document) in
    let content := from_option wp_content [] (find (fun p => str_eqb (wp_page_type p) PAGE_SUMMARY) pages) in
    match map_survivors version w affected survivors with
    | Err e => Err e
    | Ok rest => Ok (map (fun p => update_of (wp_slug p) RETRACT_STALE document title [] (wp_title p) content []) pages ++ rest)
    end
  end.

(** ** Reduce *)

Definition run_reduce_job (model : str) (job : ReduceJob) : option ReducePatch :=
  let updates := rj_updates job in
  let additions := List.filter is_addition updates in
  let retracts := List.filter is_retract updates in
  match last (List.filter is_summary_update updates) with
  | Some sum => Some (summary_patch job sum)
  | None =>
    first ← head (additions ++ retracts);
    let deleted := concat (map (fun u => if str_is_empty (su_retract_content u) then []
                                         else document_block (su_doc_title u) (su_retract_content u)) retracts) in
    let m := foldl (add_update (rj_chunks job)) (merge_start job) additions in
    let title := or_default (mg_title m) (rj_slug job) in
    let page_type := or_default (mg_page_type m) PAGE_ENTITY in
    let '(content, lede) := reduce_page sv
      {| ri_model := model; ri_slug := rj_slug job; ri_title := title; ri_page_type := page_type;
         ri_existing := from_option wp_content [] (rj_existing job); ri_about := mg_about m; ri_details := mg_details m;
         ri_cited := mg_cited m; ri_doc_title := su_doc_title first; ri_doc_summary := su_doc_summary first;
         ri_valid_links := rj_valid_links job; ri_language := su_language first; ri_deleted_content := deleted;
         ri_remaining_sources := rj_remaining job |} in
    Some {| rp_slug := rj_slug job; rp_title := title; rp_page_type := page_type; rp_content := content; rp_summary := lede;
            rp_aliases := mg_aliases m; rp_source_refs := mg_source_refs m; rp_chunk_refs := mg_chunk_refs m;
            rp_owner_doc := su_document_id first |}
  end.

(** The job of a group whose lock was taken. *)
Definition reduce_job (version : N) (valid_links slug : str) (updates : list SlugUpdate) (w : W) : ReduceJob :=
  let existing := p ← wk_pages w !! (version, slug); if is_published p then Some p else None in
  let chunk_ids := sort_ids (concat (map su_chunk_ids updates)) in
  let retract_ids := map su_document_id (List.filter is_retract updates) in
  let keep := List.filter (fun id => negb (existsb (N.eqb id) retract_ids)) (from_option wp_source_refs [] existing) in
  let summary_of did := find (fun p => is_published p && str_eqb (wp_page_type p) PAGE_SUMMARY && refers_to did p)
                          (version_pages 8 version w) in
  {| rj_slug := slug; rj_updates := updates; rj_existing := existing; rj_chunks := omap (fun id => wk_chunks w !! id) chunk_ids;
     rj_remaining := match retract_ids with
                     | [] => []
                     | _ => concat (map (fun p => document_block (wp_title p) (wp_content p)) (omap summary_of keep))
                     end;
     rj_valid_links := valid_links |}.

(** The first loop of [reduce_grouped]: locks, jobs and the documents of the groups it skips. *)
Definition lock_step (now : Z) (version : N) (valid_links : str) (st : W * list ReduceJob * list N)
    (group : str * list SlugUpdate) : W * list ReduceJob * list N :=
  let '(w, jobs, failed) := st in
  match try_slug_lock uuid_to_string now version group.1 w with
  | None => (w, jobs, failed ++ map su_document_id group.2)
  | Some w => (w, jobs ++ [reduce_job version valid_links group.1 group.2 w], failed)
  end.

Definition apply_patch (version : N) (patch : ReducePatch) (w : W) : W :=
  let fresh := category_for (rp_page_type patch) (rp_title patch) in
  let '(w, id, category, folder) :=
    match wk_pages w !! (version, rp_slug patch) with
    | Some old => (w, wp_id old, match wp_category_path old with [] => fresh | path => path end, wp_folder_id old)
    | None => (next_uuid w, new_v4 (wk_fresh w), fresh, None)
    end in
  let page := {| wp_id := id; wp_version_id := version; wp_slug := rp_slug patch; wp_title := rp_title patch;
                 wp_content := rp_content patch; wp_page_type := rp_page_type patch; wp_status := Published;
                 wp_summary := rp_summary patch; wp_aliases := rp_aliases patch; wp_source_refs := rp_source_refs patch;
                 wp_chunk_refs := rp_chunk_refs patch; wp_category_path := category; wp_folder_id := folder |} in
  index_wiki_page version (rp_owner_doc patch) (rp_slug patch) (rp_title patch) (rp_content patch)
    (with_pages (insert (version, rp_slug patch) page) w).

Definition is_page_chunk (version : N) (slug : str) (c : Chunk) : bool :=
  (c_version_id c =? version)%N && str_eqb (c_chunk_type c) WIKI_PAGE && str_eqb (c_context_header c) slug.

Definition retain {K A} `{Countable K} (keep : A -> bool) (m : gmap K A) : gmap K A :=
  filter (fun kv : K * A => keep kv.2 = true) m.

Definition write_patch (version : N) (w : W) (patch : ReducePatch) : W :=
  let w := match rp_source_refs patch with
           | [] => with_chunks (retain (fun c => negb (is_page_chunk version (rp_slug patch) c)))
                     (with_pages (delete (version, rp_slug patch)) w)
           | _ => apply_patch version patch w
           end in
  release_slug_lock uuid_to_string version (rp_slug patch) w.

Definition finish_job (version : N) (written : list (str * str)) (st : W * list N) (job : ReduceJob) : W * list N :=
  if forallb (fun x => negb (str_eqb x.1 (rj_slug job))) written then
    (release_slug_lock uuid_to_string version (rj_slug job) st.1, st.2 ++ map su_document_id (rj_updates job))
  else st.

Definition reduce_grouped (now : Z) (version : N) (model : str) (grouped : gmap str (list SlugUpdate)) (w : W)
    : W * list (str * str) * list N :=
  let valid_links := join [NL] (map (fun g => u8"- [[" ++ g.1 ++ u8"]]") (order 9 _ (map_to_list grouped))) in
  let '(w, jobs, failed) := foldl (lock_step now version valid_links) (w, [], []) (order 9 _ (map_to_list grouped)) in
  let patches := omap id (order 10 _ (map (run_reduce_job model) jobs)) in
  let w := foldl (write_patch version) w patches in
  let written := map (fun p => (rp_slug p, rp_title p)) patches in
  let '(w, failed) := foldl (finish_job version written) (w, failed) jobs in
  (w, written, failed).

(** ** Links, system pages *)

(** The page of every slug is read after the pages before it were rewritten; [None] is a panic. *)
Definition linkify_step (version : N) (refs : list LinkRef) (w : W) (slug : str) : option W :=
  match wk_pages w !! (version, slug) with
  | None => Some w
  | Some page =>
    '(next, changed) ← linkify_content (wp_content page) refs (wp_slug page);
    Some (if (changed : bool) then with_pages (insert (version, slug) (set_content next page)) w else w)
  end.

Definition linkify_version (version : N) (w : W) : option W :=
  let refs := concat (map page_links (List.filter is_published (version_pages 11 version w))) in
  match refs with
  | [] => Some w
  | _ => foldM (linkify_step version refs) w (map wp_slug (version_pages 12 version w))
  end.

Definition upsert_system_page (version : N) (slug title content : str) (w : W) : W :=
  let '(w, id) := match wk_pages w !! (version, slug) with
                  | Some p => (w, wp_id p)
                  | None => (next_uuid w, new_v4 (wk_fresh w))
                  end in
  let sources := List.filter (fun p => is_published p && negb (str_eqb (wp_slug p) slug)) (version_pages 13 version w) in
  let page := {| wp_id := id; wp_version_id := version; wp_slug := slug; wp_title := title; wp_content := content;
                 wp_page_type := slug; wp_status := Published; wp_summary := take 240 content; wp_aliases := [];
                 wp_source_refs := sort_ids (concat (map wp_source_refs sources));
                 wp_chunk_refs := sort_ids (concat (map wp_chunk_refs sources)); wp_category_path := []; wp_folder_id := None |} in
  let w := with_pages (insert (version, slug) page) w in
  let w := with_chunks (retain (fun c => negb ((c_version_id c =? version)%N && str_eqb (c_context_header c) slug))) w in
  index_wiki_page version NIL_UUID slug title content w.

(** The published pages a system page lists. *)
Definition listed_pages (site : nat) (version : N) (own_type : str) (w : W) : list WikiPage :=
  List.filter (fun p => is_published p && negb (str_eqb (wp_page_type p) own_type)) (version_pages site version w).

Definition index_lines (version : N) (w : W) : list str :=
  map (fun p => u8"- " ++ page_ref_line p) (sort_by index_order (listed_pages 14 version PAGE_INDEX w)).

Definition write_index_page (version : N) (w : W) : W :=
  with_pages (alter (set_summary (u8"Wiki index")) (version, PAGE_INDEX))
    (upsert_system_page version PAGE_INDEX (u8"Index") (join [NL] ([u8"# Wiki index"; []] ++ index_lines version w)) w).

Definition log_lines (version : N) (w : W) : list str :=
  map (fun p => u8"- published " ++ page_ref_line p)
    (sort_by (fun a b => str_leb (wp_title a) (wp_title b)) (listed_pages 15 version PAGE_LOG w)).

Definition write_log_page (version : N) (w : W) : W :=
  upsert_system_page version PAGE_LOG (u8"Log") (join [NL] ([u8"# Wiki log"; []] ++ log_lines version w)) w.

Definition synthesis_text (entities : list WikiPage) : str :=
  u8"# Synthesis" ++ [NL; NL] ++ u8"Covers " ++ join (u8", ") (map wp_title entities) ++ u8"." ++ [NL; NL]
  ++ join [NL; NL] (map (fun e => u8"## " ++ wp_title e ++ [NL; NL] ++ wp_summary e) entities).

Definition comparison_text (entities : list WikiPage) : str :=
  u8"# Comparison" ++ [NL; NL] ++ u8"| Item | Summary |" ++ [NL] ++ u8"|---|---|" ++ [NL]
  ++ join [NL] (map (fun e => u8"| [[" ++ wp_slug e ++ [PIPE] ++ wp_title e ++ u8"]] | "
                     ++ replace (wp_summary e) [PIPE] SLASH_STR ++ u8" |") entities).

Definition write_synthesis_pages (version : N) (w : W) : W :=
  let entities := List.filter (fun p => is_published p && str_eqb (wp_page_type p) PAGE_ENTITY) (version_pages 16 version w) in
  if length entities <? 2 then w
  else
    upsert_system_page version PAGE_COMPARISON (u8"Comparison") (comparison_text entities)
      (upsert_system_page version PAGE_SYNTHESIS (u8"Synthesis") (synthesis_text entities) w).

(** ** Folders *)

Fixpoint ensure_folders (version : N) (i : nat) (before path : list str) (parent : option N) (w : W) : W * option N :=
  match path with
  | [] => (w, parent)
  | name :: path =>
    let joined := path_text (before ++ [name]) in
    match find (fun f => (wf_version_id f =? version)%N && str_eqb (wf_path f) joined) (values 17 (wk_folders w)) with
    | Some existing => ensure_folders version (S i) (before ++ [name]) path (Some (wf_id existing)) w
    | None =>
      let id := new_v4 (wk_fresh w) in
      let w := with_folders (insert id (folder_with id version parent name joined i)) (next_uuid w) in
      ensure_folders version (S i) (before ++ [name]) path (Some id) w
    end
  end.

Definition ensure_folder_path (version : N) (path : list str) (w : W) : W * option N := ensure_folders version 0 [] path None w.

Definition used_paths (version : N) (w : W) : list str :=
  concat (map (fun p => map (fun n => path_text (take n (wp_category_path p))) (seq 1 (length (wp_category_path p))))
            (version_pages 18 version w)).

Definition prune_empty_folders (version : N) (w : W) : W :=
  let used := used_paths version w in
  with_folders (retain (fun f => negb (wf_version_id f =? version)%N || existsb (fun p => str_eqb p (wf_path f)) used)) w.

Definition taxonomy_items (version : N) (slugs : list (str * str)) (w : W) : list (str * str * str * str) :=
  omap (fun s => p ← wk_pages w !! (version, s.1);
                 if is_item_type (wp_page_type p) then Some (s.1, s.2, wp_page_type p, wp_summary p) else None) slugs.

Definition unfiled (p : WikiPage) : bool :=
  match wp_category_path p, wp_folder_id p with [], _ | _, None => true | _, _ => false end.

Definition file_step (version : N) (selected : list (list str)) (st : W * gmap str (list str)) (item : str * str * str * str)
    : W * gmap str (list str) :=
  let '(w, planned) := st in
  let '(slug, title, ty, _) := item in
  let path := match planned !! slug with Some (_ :: _ as p) => p | _ => fallback_path sv ty title selected end in
  let '(w, fid) := ensure_folder_path version path w in
  (with_pages (alter (fun p => if unfiled p then set_category path fid p else p) (version, slug)) w, delete slug planned).

Definition plan_and_apply_taxonomy (version : N) (slugs : list (str * str)) (w : W) : W :=
  let pool := existing_folder_paths version w in
  match taxonomy_items version slugs w with
  | [] => w
  | items =>
    let model := from_option wiki_chat_model STUB_CHAT (wk_versions w !! version) in
    let selected := select_relevant_folders sv pool (map (fun x => (x.1.1.2, x.2)) items) in
    let raw := answer_or_empty (chat sv (AskFolders selected items) model) in
    fst (foldl (file_step version selected) (w, parse_taxonomy_assignments sv raw) items)
  end.

(** [reduce_slug]; its result is dropped by the caller. *)
Definition reduce_slug (version : N) (op : WikiPendingOp) (w : W) : W :=
  match wk_pages w !! (version, op_slug op) with
  | None => w
  | Some page =>
    if negb (is_published page) then w
    else
      let w := with_pages (alter (fun p => if str_is_empty (wp_page_type p) then set_page_type PAGE_SUMMARY p else p)
                             (version, op_slug op)) w in
      let index ch w := let '(w, ok) := index_one_in ch (wp_title page) (vector_on version w) (keyword_on version w) w in
                        if (ok : bool) then with_chunks (insert (c_id ch) ch) w else w in
      match find (fun c => (c_version_id c =? version)%N && str_eqb (c_chunk_type c) WIKI_PAGE
                           && (str_eqb (c_content c) (wp_content page) || str_eqb (c_context_header c) (wp_slug page)))
              (values 19 (wk_chunks w)) with
      | Some c =>
        index {| c_id := c_id c; c_document_id := c_document_id c; c_version_id := c_version_id c; c_chunk_type := c_chunk_type c;
                 c_content := wp_content page; c_context_header := c_context_header c; c_start_at := c_start_at c;
                 c_end_at := Z.of_nat (length (wp_content page)) |} w
      | None => index (wiki_chunk (new_v4 (wk_fresh w)) NIL_UUID version (wp_slug page) (wp_content page)) (next_uuid w)
      end
  end.

(** ** [process_ingest] *)

Definition add_group (grouped : gmap str (list SlugUpdate)) (u : SlugUpdate) : gmap str (list SlugUpdate) :=
  partial_alter (fun l => Some (default [] l ++ [u])) (su_slug u) grouped.

Definition add_groups (grouped : gmap str (list SlugUpdate)) (updates : list SlugUpdate) : gmap str (list SlugUpdate) :=
  foldl add_group grouped updates.

(** One more failure of an operation: after the last try the document is given up. *)
Definition fail_op (message : str) (id : Z) (document : N) (st : W * list Z) : W * list Z :=
  let '(w, done_ids) := st in
  match fail_row id w with
  | (w, Some count) =>
    if (MAX_FAIL_RETRIES <? count)%Z
    then (settle document (with_job (dead_letter (lane_name Ingest) document message) w), done_ids ++ [id])
    else (w, done_ids)
  | (w, None) => (w, done_ids)
  end.

Definition MAP_FAILED : str := u8"wiki map failed".
Definition REDUCE_FAILED : str := u8"wiki reduce failed".

(** The locals of the loop over the claimed operations. *)
Record Round := {
  rd_store : W; rd_grouped : gmap str (list SlugUpdate); rd_done : list Z; rd_mapped : list (Z * N);
}.

Definition done_op (id : Z) (w : W) (r : Round) : Round :=
  {| rd_store := w; rd_grouped := rd_grouped r; rd_done := rd_done r ++ [id]; rd_mapped := rd_mapped r |}.

(** An operation that is not a retract: its document is mapped. *)
Definition map_op (now : Z) (version : N) (id : Z) (did : N) (r : Round) : Round :=
  let w := rd_store r in
  if is_tombstoned now version did w then done_op id (settle did w) r
  else
    match map_document version did w with
    | Ok [] => done_op id (settle did w) r
    | Ok updates => {| rd_store := w; rd_grouped := add_groups (rd_grouped r) updates; rd_done := rd_done r;
                       rd_mapped := rd_mapped r ++ [(id, did)] |}
    | Err _ => let '(w, done_ids) := fail_op MAP_FAILED id did (w, rd_done r) in
               {| rd_store := w; rd_grouped := rd_grouped r; rd_done := done_ids; rd_mapped := rd_mapped r |}
    end.

Definition ingest_op (now : Z) (version : N) (op : WikiPendingOp) (r : Round) : result (W * str) Round :=
  match op_kind op with
  | OpRetract =>
    match retract_document_updates version op (rd_store r) with
    | Err e => Err (rd_store r, e)
    | Ok updates => Ok {| rd_store := rd_store r; rd_grouped := add_groups (rd_grouped r) updates;
                          rd_done := rd_done r ++ [op_id op]; rd_mapped := rd_mapped r |}
    end
  | _ => Ok match op_document_id op with
            | None => done_op (op_id op) (rd_store r) r
            | Some did => map_op now version (op_id op) did r
            end
  end.

Fixpoint ingest_ops (now : Z) (version : N) (ops : list WikiPendingOp) (r : Round) : result (W * str) Round :=
  match ops with
  | [] => Ok r
  | op :: ops => match ingest_op now version op r with Ok r => ingest_ops now version ops r | Err e => Err e end
  end.

(** A mapped document after the reduction. *)
Definition settle_mapped (failed : list N) (st : W * list Z) (m : Z * N) : W * list Z :=
  if existsb (N.eqb m.2) failed then fail_op REDUCE_FAILED m.1 m.2 st
  else (settle m.2 st.1, st.2 ++ [m.1]).

Definition push_written (version : N) (w : W) (x : str * str) : W :=
  push_op Finalize version OpChange None [] x.2 (push_op Finalize version OpSlug None x.1 x.2 w).

Definition lane_live (lane : Lane) (version : N) (w : W) : bool := existsb (in_lane lane version) (wk_ops w).

Notation schedule := (schedule_trigger uuid_to_string new_v4 payload task_id_of).

Definition schedule_live (lane : Lane) (version delay : N) (w : W) : W :=
  if lane_live lane version w then schedule lane version delay w else w.

(** Everything after the map of the claimed operations. *)
Definition finish_round (now : Z) (version : N) (model : str) (r : Round) : W :=
  let '(w, slugs, failed) := reduce_grouped now version model (rd_grouped r) (rd_store r) in
  let '(w, done_ids) := foldl (settle_mapped failed) (w, rd_done r) (rd_mapped r) in
  let w := trim_ops done_ids w in
  let w := match slugs with
           | [] => w
           | _ => push_op Finalize version OpFolderPrune None [] []
                    (foldl (push_written version) (plan_and_apply_taxonomy version slugs w) slugs)
           end in
  release_inflight version
    (schedule_live Ingest version INGEST_DEBOUNCE_SECS (schedule_live Finalize version FINALIZE_DEBOUNCE_SECS w)).

(** An error of a retract leaves the handler with the claims and the in-flight mark in place. *)
Definition process_ingest (now : Z) (version : N) (w : W) : W * option str :=
  match wk_versions w !! version with
  | None => (clear_lane Ingest version w, None)
  | Some v =>
    if negb (wv_wiki_enabled v) then (clear_lane Ingest version w, None)
    else
      match reserve_inflight now version w with
      | None => (schedule Ingest version LOCK_RETRY_SECS w, None)
      | Some w =>
        let '(w, claimed) := claim_lane now Ingest version BATCH_DOCS w in
        match claimed with
        | [] => (release_inflight version w, None)
        | _ =>
          match ingest_ops now version claimed {| rd_store := w; rd_grouped := ∅; rd_done := []; rd_mapped := [] |} with
          | Err (w, e) => (w, Some e)
          | Ok r => (finish_round now version (wiki_chat_model v) r, None)
          end
        end
      end
  end.

(** ** [process_finalize] *)

Definition is_prune (op : WikiPendingOp) : bool := bool_decide (op_kind op = OpFolderPrune).

(** One operation that is not a prune: the store and whether the index is to be rebuilt. *)
Definition finalize_op (now : Z) (version : N) (st : W * bool) (op : WikiPendingOp) : W * bool :=
  let '(w, rebuild) := st in
  let '(w, rebuild) :=
    if bool_decide (op_kind op = OpSlug) && negb (str_is_empty (op_slug op)) then
      match try_slug_lock uuid_to_string now version (op_slug op) w with
      | Some w => (release_slug_lock uuid_to_string version (op_slug op) (reduce_slug version op w), true)
      | None => (w, rebuild)
      end
    else (w, rebuild) in
  (w, rebuild || bool_decide (op_kind op = OpChange)).

Definition rebuild_pages (version : N) (w : W) : option W :=
  linkify_version version (write_synthesis_pages version (write_log_page version (write_index_page version w))).

(** Claimed rows with these numbers are free again. *)
Definition unclaim (ids : list Z) (w : W) : W :=
  with_ops (map (fun o => if existsb (Z.eqb (op_id o)) ids then set_claim None o else o)) w.

Definition FINALIZE_LIMIT : nat := Z.to_nat 5000.

Definition process_finalize (now : Z) (version : N) (w : W) : option W :=
  let '(w, rows) := claim_lane now Finalize version FINALIZE_LIMIT w in
  match rows with
  | [] => Some w
  | _ =>
    let prune_ids := map op_id (List.filter is_prune rows) in
    let others := List.filter (fun o => negb (is_prune o)) rows in
    let '(w, rebuild) := foldl (finalize_op now version) (w, false) others in
    w ← (if (rebuild : bool) then rebuild_pages version w else Some w);
    let w := trim_ops (map op_id others) w in
    match prune_ids with
    | [] => Some w
    | _ =>
      if lane_live Ingest version w then Some (schedule Finalize version LOCK_RETRY_SECS (unclaim prune_ids w))
      else Some (trim_ops prune_ids (prune_empty_folders version w))
    end
  end.

(** ** The run of a job *)



Definition forget_tombstone (version did : N) (w : W) : W := with_tombstones (delete (version, did)) w.

(** The two handlers; the outer option is a panic, the inner one the error of the handler. *)
Definition ingest_and_finalize (now : Z) (version : N) (w : W) : option (W * option str) :=
  match process_ingest now version w with
  | (w, Some e) => Some (w, Some e)
  | (w, None) => w ← process_finalize now version w; Some (w, None)
  end.

Definition UNFINISHED : str := u8"Wiki reducer has unfinished work; retry required".

(** [run_wiki_ingest_locked] from the loaded store to the one it persists. *)
Definition run_wiki_job (now : Z) (version did : N) (operation : WikiOperation) (attempt : Z) (w : W) : option (W * option str) :=
  let retract := enqueue_retract uuid_to_string new_v4 payload task_id_of now version did [] in
  '(w, err) ← (if bool_decide (operation = RunIngest) && (1 <? attempt)%Z
               then '(w, err) ← ingest_and_finalize now version (retract w);
                    Some (match err with None => forget_tombstone version did w | Some _ => w end, err)
               else Some (w, None));
  match err with
  | Some e => Some (w, Some e)
  | None =>
    let w := match operation with
             | RunRetract => retract w
             | RunIngest => enqueue_ingest uuid_to_string new_v4 payload task_id_of now version did w
             end in
    '(w, err) ← ingest_and_finalize now version w;
    match err, wk_ops w with
    | Some e, _ => Some (w, Some e)
    | None, _ :: _ => Some (w, Some UNFINISHED)
    | None, [] => Some (w, None)
    end
  end.
End pages.
