(* ===== verification/WikiFacts.v ===== *)
(** * What the wiki handlers keep and what they settle

    The page operations leave the queue alone and the queue operations leave the pages alone.
    [reduce_grouped] writes every group whose lock is free and gives the locks back; a round of
    [process_ingest] ends every claimed operation: its row is gone and its document is settled
    once, or the row waits, unclaimed, with one more failure.  A retract run that succeeds
    leaves no page that refers to the document. *)
From S2P Require Import Prelude RustStr RustFloat StrReplace Linkify Pipeline Jobs Taxonomy.
From S2P Require Import Wiki WikiPages.
Open Scope nat_scope.

(** What the order of iteration of a map may be. *)
Definition order_law (order : nat -> forall A : Type, list A -> list A) : Prop := forall n A l, order n A l ≡ₚ l.

(** ** Maps of pages *)

Lemma map_Forall_alter {K A} `{Countable K} (P : K -> A -> Prop) (f : A -> A) (k : K) (m : gmap K A) :
  (forall p, P k p -> P k (f p)) -> map_Forall P m -> map_Forall P (alter f k m).
Proof.
  intros Hf HP i x. destruct (decide (i = k)) as [->|Hne].
  - rewrite lookup_alter_eq. intros (p & Hp & ->)%fmap_Some. by apply Hf, HP.
  - rewrite lookup_alter_ne by done. apply HP.
Qed.

Lemma map_Forall_put {K A} `{Countable K} (P : K -> A -> Prop) (k : K) (x : A) (m : gmap K A) :
  P k x -> map_Forall P m -> map_Forall P (<[k := x]> m).
Proof. intros Hx HP i y. destruct (decide (i = k)) as [->|Hne]; rewrite ?lookup_insert_eq, ?lookup_insert_ne by done; naive_solver. Qed.

Lemma foldM_keeps {A S} (P : S -> Prop) (f : S -> A -> option S) (l : list A) (s s' : S) :
  (forall s x s', P s -> f s x = Some s' -> P s') -> foldM f s l = Some s' -> P s -> P s'.
Proof.
  intros Hf. revert s. induction l as [|x l IH]; intros s; cbn [foldM]; [by intros [= ->]|].
  destruct (f s x) as [s1|] eqn:E; [|done]. intros H HP. apply (IH s1); [done|]. by apply (Hf s x).
Qed.

Section facts.
Context {Value : Type} (sv : Services) (order : nat -> forall A : Type, list A -> list A)
  (embed_index : str -> result str (list f64)) (is_alphanumeric : char -> bool)
  (uuid_to_string : N -> str) (new_v4 : nat -> N).
Context (Horder : order_law order).
Notation W := (WikiStore Value).

Lemma values_lookup {K A} `{Countable K} site (m : gmap K A) x :
  x ∈ values order site m <-> exists k, m !! k = Some x.
Proof.
  unfold values. rewrite (Horder site _ _), list_elem_of_fmap. split.
  - intros ([k y] & -> & Hin%elem_of_map_to_list). by exists k.
  - intros (k & Hk). exists (k, x). by rewrite elem_of_map_to_list.
Qed.

(** A page stands under its version and slug. *)
Definition page_at (k : N * str) (p : WikiPage) : Prop := wp_version_id p = k.1 /\ wp_slug p = k.2.
Definition pages_ok (w : W) : Prop := map_Forall page_at (wk_pages w).

Lemma pages_ok_lookup w v s p : pages_ok w -> wk_pages w !! (v, s) = Some p -> wp_version_id p = v /\ wp_slug p = s.
Proof. intros H Hp. exact (H _ _ Hp). Qed.

Lemma version_pages_lookup site version w p :
  pages_ok w -> p ∈ version_pages order site version w <-> wk_pages w !! (version, wp_slug p) = Some p.
Proof.
  intros Hok. unfold version_pages. rewrite list_elem_of_In, filter_In, <- list_elem_of_In, values_lookup. split.
  - intros [([v s] & Hk) ->%N.eqb_eq%eq_sym]. by destruct (pages_ok_lookup _ _ _ _ Hok Hk) as [<- <-].
  - intros Hk. destruct (pages_ok_lookup _ _ _ _ Hok Hk) as [Hv _]. split; [by eexists|]. by apply N.eqb_eq.
Qed.

(** ** What the page operations leave alone *)

Definition queue_part (w : W) :=
  (wk_job w, wk_titles w, wk_versions w, wk_ops w, wk_tombstones w, wk_locks w, wk_inflight w, wk_op_seq w).

Definition keeps_queue (f : W -> W) : Prop := forall w, queue_part (f w) = queue_part w.

Lemma keeps_queue_comp f g : keeps_queue f -> keeps_queue g -> keeps_queue (fun w => f (g w)).
Proof. intros Hf Hg w. by rewrite Hf. Qed.

Notation index_one_in := (index_one_in sv embed_index is_alphanumeric).
Notation index_wiki_page := (index_wiki_page sv embed_index is_alphanumeric new_v4).
Notation upsert_system_page := (upsert_system_page sv order embed_index is_alphanumeric new_v4).
Notation write_index_page := (write_index_page sv order embed_index is_alphanumeric new_v4).
Notation write_log_page := (write_log_page sv order embed_index is_alphanumeric new_v4).
Notation write_synthesis_pages := (write_synthesis_pages sv order embed_index is_alphanumeric new_v4).
Notation apply_patch := (apply_patch sv embed_index is_alphanumeric new_v4).
Notation reduce_slug := (reduce_slug sv order embed_index is_alphanumeric new_v4).
Notation rebuild_pages := (rebuild_pages sv order embed_index is_alphanumeric new_v4).

Lemma index_one_in_frame ch title v k w :
  queue_part (index_one_in ch title v k w).1 = queue_part w /\ wk_pages (index_one_in ch title v k w).1 = wk_pages w.
Proof. unfold WikiPages.index_one_in. by repeat case_match. Qed.

Lemma index_wiki_page_frame version document slug title content w :
  queue_part (index_wiki_page version document slug title content w) = queue_part w
  /\ wk_pages (index_wiki_page version document slug title content w) = wk_pages w.
Proof. unfold WikiPages.index_wiki_page. apply (index_one_in_frame _ _ _ _ (next_uuid w)). Qed.

Lemma upsert_system_page_frame version slug title content w :
  queue_part (upsert_system_page version slug title content w) = queue_part w.
Proof.
  unfold WikiPages.upsert_system_page. destruct (wk_pages w !! (version, slug));
    by etrans; [apply index_wiki_page_frame|].
Qed.

Lemma write_synthesis_pages_frame version w : queue_part (write_synthesis_pages version w) = queue_part w.
Proof. unfold WikiPages.write_synthesis_pages. case_match; [done|]. by rewrite !upsert_system_page_frame. Qed.

Lemma linkify_step_cases version refs (w : W) s (w' : W) :
  linkify_step version refs w s = Some w' ->
  w' = w \/ exists page next, wk_pages w !! (version, s) = Some page
                             /\ w' = with_pages (insert (version, s) (set_content next page)) w.
Proof.
  unfold linkify_step. destruct (wk_pages w !! (version, s)) as [page|]; [|by intros [= <-]; left].
  destruct (linkify_content _ _ _) as [[next changed]|]; [|done]. cbn. destruct changed; intros [= <-]; [|by left].
  right. by exists page, next.
Qed.

(** Linking keeps what rewriting one page keeps. *)
Lemma linkify_version_keeps (P : W -> Prop) version w w' :
  (forall w s page next, P w -> wk_pages w !! (version, s) = Some page ->
     P (with_pages (insert (version, s) (set_content next page)) w)) ->
  linkify_version order version w = Some w' -> P w -> P w'.
Proof.
  intros Hstep. unfold linkify_version. destruct (concat _) as [|r refs]; [by intros [= <-]|].
  apply foldM_keeps. intros w1 s w2 HP [->|(page & next & Hp & ->)]%linkify_step_cases; [done|]. by apply Hstep.
Qed.

Lemma linkify_version_frame version w w' : linkify_version order version w = Some w' -> queue_part w' = queue_part w.
Proof. intros H. by apply (linkify_version_keeps (fun x => queue_part x = queue_part w) version w w'). Qed.

Lemma rebuild_pages_frame version w w' : rebuild_pages version w = Some w' -> queue_part w' = queue_part w.
Proof.
  intros H%linkify_version_frame. rewrite H, write_synthesis_pages_frame. unfold WikiPages.write_log_page, WikiPages.write_index_page.
  rewrite upsert_system_page_frame. apply upsert_system_page_frame.
Qed.

Lemma ensure_folders_frame version i before path parent w :
  queue_part (ensure_folders order new_v4 version i before path parent w).1 = queue_part w
  /\ wk_pages (ensure_folders order new_v4 version i before path parent w).1 = wk_pages w.
Proof.
  revert i before parent w. induction path as [|name path IH]; intros i before parent w; cbn [ensure_folders]; [done|].
  case_match; [apply IH|]. destruct (IH (S i) (before ++ [name]) (Some (new_v4 (wk_fresh w)))
    (with_folders (insert (new_v4 (wk_fresh w)) (folder_with (new_v4 (wk_fresh w)) version parent name
       (path_text (before ++ [name])) i)) (next_uuid w))) as [-> ->]. done.
Qed.

(** Filing the pages keeps what changing the category of a page keeps. *)
Lemma plan_and_apply_taxonomy_keeps (P : W -> Prop) version slugs w :
  (forall w i before path parent, P w -> P (ensure_folders order new_v4 version i before path parent w).1) ->
  (forall w s path fid, P w ->
     P (with_pages (alter (fun p => if unfiled p then set_category path fid p else p) (version, s)) w)) ->
  P w -> P (plan_and_apply_taxonomy sv order new_v4 version slugs w).
Proof.
  intros Hf Hp HP. unfold plan_and_apply_taxonomy. destruct (taxonomy_items version slugs w) as [|x items]; [done|].
  set (selected := select_relevant_folders _ _ _). set (planned := parse_taxonomy_assignments _ _).
  generalize planned as m. generalize (x :: items) as l. clearbody selected planned. intros l. revert w HP.
  induction l as [|[[[s t] ty] sm] l IH]; intros w HP m; cbn [foldl]; [done|].
  destruct (file_step sv order new_v4 version selected (w, m) (s, t, ty, sm)) as [w1 m1] eqn:E. apply IH.
  cbn in E. destruct (ensure_folder_path _ _ _ _ _) as [w2 fid] eqn:E2. injection E as <- _. apply Hp.
  replace w2 with (ensure_folder_path order new_v4 version
    (match m !! s with Some (_ :: _ as p) => p | _ => fallback_path sv ty t selected end) w).1 by by rewrite E2.
  by apply Hf.
Qed.

Lemma plan_and_apply_taxonomy_frame version slugs w :
  queue_part (plan_and_apply_taxonomy sv order new_v4 version slugs w) = queue_part w.
Proof.
  apply (plan_and_apply_taxonomy_keeps (fun x => queue_part x = queue_part w)); [|done..].
  intros w1 i before path parent H. by rewrite (proj1 (ensure_folders_frame version i before path parent w1)).
Qed.

Lemma apply_patch_frame version patch w : queue_part (apply_patch version patch w) = queue_part w.
Proof.
  unfold WikiPages.apply_patch. destruct (wk_pages w !! (version, rp_slug patch)); by etrans; [apply index_wiki_page_frame|].
Qed.

Lemma index_kept ch title v k w :
  let w' := let '(w, ok) := index_one_in ch title v k w in if (ok : bool) then with_chunks (insert (c_id ch) ch) w else w in
  queue_part w' = queue_part w /\ wk_pages w' = wk_pages w.
Proof.
  pose proof (index_one_in_frame ch title v k w) as H. cbv zeta. by destruct (index_one_in ch title v k w) as [w1 []].
Qed.

(** The pages after [reduce_slug] differ at most by the type of one page. *)
Lemma reduce_slug_frame version op w :
  queue_part (reduce_slug version op w) = queue_part w
  /\ (wk_pages (reduce_slug version op w) = wk_pages w
      \/ wk_pages (reduce_slug version op w)
         = alter (fun p => if str_is_empty (wp_page_type p) then set_page_type PAGE_SUMMARY p else p) (version, op_slug op) (wk_pages w)).
Proof.
  unfold WikiPages.reduce_slug. destruct (wk_pages w !! _) as [page|]; [|by split; [|left]].
  destruct (negb (is_published page)); [by split; [|left]|]. cbv zeta.
  destruct (find _ _) as [c|]; (split; [by etrans; [apply index_kept|]|right; by etrans; [apply index_kept|]]).
Qed.

(** A trigger only adds to the queue of jobs. *)
Lemma schedule_trigger_frame payload task_id_of lane version delay (w : W) :
  let w' := schedule_trigger uuid_to_string new_v4 payload task_id_of lane version delay w in
  (wk_pages w', wk_versions w', wk_ops w', wk_locks w', wk_inflight w', wk_titles w', wk_op_seq w', wj_documents (wk_job w'))
  = (wk_pages w, wk_versions w, wk_ops w, wk_locks w, wk_inflight w, wk_titles w, wk_op_seq w, wj_documents (wk_job w)).
Proof. unfold schedule_trigger. by case_match. Qed.

(** ** [reduce_grouped] *)

Notation run_reduce_job := (run_reduce_job sv).
Notation reduce_job := (reduce_job order).
Notation lock_step := (lock_step order uuid_to_string).
Notation write_patch := (write_patch sv embed_index is_alphanumeric uuid_to_string new_v4).
Notation reduce_grouped := (reduce_grouped sv order embed_index is_alphanumeric uuid_to_string new_v4).
Notation lock_key := (slug_lock_key uuid_to_string).

#[local] Instance lock_key_inj version : Inj (=) (=) (lock_key version).
Proof. intros a b H. unfold slug_lock_key in H. by repeat apply app_inv_head in H. Qed.

(** The lock of a slug can be taken. *)
Definition lock_free (now : Z) (version : N) (w : W) (slug : str) : bool :=
  try_reserve now SLUG_LOCK_TTL_MS (lock_key version slug) (wk_locks w).

Definition lock_all (now : Z) (version : N) (slugs : list str) (w : W) : W :=
  with_locks (fun m => foldl (fun m s => <[lock_key version s := now]> m) m slugs) w.

Lemma lock_free_other now version w s t :
  s <> t -> lock_free now version (with_locks (insert (lock_key version s) now) w) t = lock_free now version w t.
Proof.
  intros Hne. unfold lock_free, try_reserve. cbn [wk_locks with_locks]. rewrite lookup_insert_ne; [done|].
  by intros H%(inj (lock_key version)).
Qed.

Lemma filter_ext_in {A} (f g : A -> bool) l : (forall x, x ∈ l -> f x = g x) -> List.filter f l = List.filter g l.
Proof.
  induction l as [|x l IH]; intros H; cbn [List.filter]; [done|]. rewrite (H x) by set_solver.
  rewrite IH by set_solver. done.
Qed.

Lemma lock_loop now version vl gs w jobs failed :
  NoDup (map fst gs) ->
  let free := List.filter (fun g => lock_free now version w g.1) gs in
  let held := List.filter (fun g => negb (lock_free now version w g.1)) gs in
  foldl (lock_step now version vl) (w, jobs, failed) gs
  = (lock_all now version (map fst free) w, jobs ++ map (fun g => reduce_job version vl g.1 g.2 w) free,
     failed ++ concat (map (fun g => map su_document_id g.2) held)).
Proof.
  revert w jobs failed. induction gs as [|[s us] gs IH]; intros w jobs failed Hnd; cbn zeta.
  - cbn. rewrite !app_nil_r. by destruct w.
  - cbn [map fst] in Hnd. apply NoDup_cons in Hnd as [Hs Hnd]. cbn [foldl List.filter fst].
    unfold WikiPages.lock_step at 2, try_slug_lock. cbn [fst snd]. fold (lock_free now version w s).
    destruct (lock_free now version w s); cbn [negb].
    + set (w1 := with_locks _ w). rewrite IH by done.
      assert (Hf : forall g, g ∈ gs -> lock_free now version w1 g.1 = lock_free now version w g.1).
      { intros g Hg. apply lock_free_other. intros ->. apply Hs. by apply list_elem_of_fmap_2. }
      rewrite (filter_ext_in _ _ gs Hf).
      rewrite (filter_ext_in (fun g => negb (lock_free now version w1 g.1)) (fun g => negb (lock_free now version w g.1)) gs) by (intros g Hg; cbv beta; by rewrite (Hf g Hg)).
      cbn [map fst snd]. rewrite <- app_assoc. done.
    + rewrite IH by done. cbn [map concat]. by rewrite <- app_assoc.
Qed.

(** The page that a patch makes; the identifier and the folder are those of the page before it. *)
Definition page_of_patch (version : N) (patch : ReducePatch) (p : WikiPage) : Prop :=
  wp_version_id p = version /\ wp_slug p = rp_slug patch /\ wp_title p = rp_title patch /\ wp_content p = rp_content patch
  /\ wp_page_type p = rp_page_type patch /\ wp_status p = Published /\ wp_summary p = rp_summary patch
  /\ wp_aliases p = rp_aliases patch /\ wp_source_refs p = rp_source_refs patch /\ wp_chunk_refs p = rp_chunk_refs patch.

(** What stands at the slug of a patch afterwards: nothing when no document supports the page. *)
Definition written_as (version : N) (patch : ReducePatch) (page : option WikiPage) : Prop :=
  match rp_source_refs patch with [] => page = None | _ => exists p, page = Some p /\ page_of_patch version patch p end.

Lemma apply_patch_pages version patch (w : W) :
  exists p, page_of_patch version patch p /\ wk_pages (apply_patch version patch w) = <[(version, rp_slug patch) := p]> (wk_pages w).
Proof.
  unfold WikiPages.apply_patch. destruct (wk_pages w !! (version, rp_slug patch)); eexists;
    (split; [|by etrans; [apply index_wiki_page_frame|]]); by repeat split.
Qed.

Lemma write_patch_pages version (w : W) patch :
  written_as version patch (wk_pages (write_patch version w patch) !! (version, rp_slug patch))
  /\ forall k, k <> (version, rp_slug patch) -> wk_pages (write_patch version w patch) !! k = wk_pages w !! k.
Proof.
  unfold written_as, WikiPages.write_patch. destruct (rp_source_refs patch) as [|r refs] eqn:E; cbn [wk_pages release_slug_lock with_locks].
  - cbn. split; [by rewrite lookup_delete_eq|]. intros k Hk. by rewrite lookup_delete_ne.
  - destruct (apply_patch_pages version patch w) as (p & Hp & Heq). change (wk_pages (with_locks ?f ?x)) with (wk_pages x).
    unfold release_slug_lock. cbn [with_locks wk_pages]. rewrite Heq. split.
    + rewrite lookup_insert_eq. by exists p.
    + intros k Hk. by rewrite lookup_insert_ne.
Qed.

Lemma write_patch_locks version (w : W) patch :
  wk_locks (write_patch version w patch) = delete (lock_key version (rp_slug patch)) (wk_locks w).
Proof.
  unfold WikiPages.write_patch. destruct (rp_source_refs patch); [done|]. unfold release_slug_lock. cbn [with_locks wk_locks].
  f_equal. pose proof (apply_patch_frame version patch w) as H. by injection H.
Qed.

Lemma write_patches version patches (w : W) :
  NoDup (map rp_slug patches) ->
  let w' := foldl (write_patch version) w patches in
  (forall patch, patch ∈ patches -> written_as version patch (wk_pages w' !! (version, rp_slug patch)))
  /\ (forall k, (forall patch, patch ∈ patches -> k <> (version, rp_slug patch)) -> wk_pages w' !! k = wk_pages w !! k)
  /\ (forall patch, patch ∈ patches -> wk_locks w' !! lock_key version (rp_slug patch) = None)
  /\ (forall k, (forall patch, patch ∈ patches -> k <> lock_key version (rp_slug patch)) -> wk_locks w' !! k = wk_locks w !! k).
Proof.
  revert w. induction patches as [|p patches IH]; intros w; cbn zeta; [intros _; cbn; set_solver|].
  intros [Hp Hnd]%NoDup_cons. cbn [foldl].
  assert (Hne : forall q, q ∈ patches -> rp_slug p <> rp_slug q).
  { intros q Hq He. apply Hp. rewrite He. by apply list_elem_of_fmap_2. }
  destruct (IH (write_patch version w p) Hnd) as (H1 & H2 & H3 & H4). destruct (write_patch_pages version w p) as [Hw Ho].
  split; [|split; [|split]].
  - intros q [->|Hq]%elem_of_cons; [|by apply H1]. rewrite H2; [done|]. intros q Hq [= He]. by apply (Hne q).
  - intros k Hk. rewrite H2 by set_solver. apply Ho, Hk. set_solver.
  - intros q [->|Hq]%elem_of_cons; [|by apply H3]. rewrite H4.
    + rewrite write_patch_locks. by rewrite lookup_delete_eq.
    + intros q Hq He%(inj (lock_key version)). by apply (Hne q).
  - intros k Hk. rewrite H4 by set_solver. rewrite write_patch_locks, lookup_delete_ne; [done|]. intros <-. by apply (Hk p); [set_solver|].
Qed.

Lemma write_patches_frame version patches (w : W) :
  let q (w : W) := (wk_job w, wk_titles w, wk_versions w, wk_ops w, wk_tombstones w, wk_inflight w, wk_op_seq w) in
  q (foldl (write_patch version) w patches) = q w.
Proof.
  cbn zeta. revert w. induction patches as [|p patches IH]; intros w; [done|]. cbn [foldl]. rewrite IH.
  unfold WikiPages.write_patch. destruct (rp_source_refs p); [done|]. unfold release_slug_lock.
  cbn [with_locks wk_job wk_titles wk_versions wk_ops wk_tombstones wk_inflight wk_op_seq].
  pose proof (apply_patch_frame version p w) as H. unfold queue_part in H.
  injection H as H1 H2 H3 H4 H5 H6 H7 H8. by rewrite H1, H2, H3, H4, H5, H7, H8.
Qed.

Lemma run_reduce_job_some model job : rj_updates job <> [] -> exists patch, run_reduce_job model job = Some patch.
Proof.
  intros Hne. unfold WikiPages.run_reduce_job. destruct (last (List.filter is_summary_update (rj_updates job))) as [s|] eqn:Es; [by eexists|].
  destruct (rj_updates job) as [|u us] eqn:Eu; [done|].
  assert (Hin : u ∈ List.filter is_addition (u :: us) ++ List.filter is_retract (u :: us)).
  { rewrite elem_of_app, !list_elem_of_In, !filter_In. unfold is_addition.
    destruct (is_summary_update u) eqn:E; [exfalso|destruct (is_retract u); cbn; set_solver].
    apply last_None in Es. cbn [List.filter] in Es. by rewrite E in Es. }
  destruct (List.filter is_addition (u :: us) ++ List.filter is_retract (u :: us)) as [|f l]; [by apply elem_of_nil in Hin|].
  cbn [head]. cbv zeta. cbn. destruct (reduce_page sv _). by eexists.
Qed.

Lemma run_reduce_job_slug model job patch : run_reduce_job model job = Some patch -> rp_slug patch = rj_slug job.
Proof.
  unfold WikiPages.run_reduce_job. destruct (last _); [by intros [= <-]|]. destruct (head _); [|done].
  cbn. destruct (reduce_page sv _). by intros [= <-].
Qed.

Lemma omap_id_some {A} (l : list A) : omap id (map Some l) = l.
Proof. induction l as [|x l IH]; [done|]. cbn. by f_equal. Qed.

(** Every job with an update yields the patch of its slug. *)
Lemma run_jobs model jobs :
  Forall (fun j => rj_updates j <> []) jobs ->
  exists patches, map (run_reduce_job model) jobs = map Some patches /\ map rp_slug patches = map rj_slug jobs
                  /\ forall j, j ∈ jobs -> exists p, p ∈ patches /\ run_reduce_job model j = Some p.
Proof.
  induction 1 as [|j jobs Hj _ (ps & Hps & Hs & Hin)]; [exists []; repeat split; set_solver|].
  destruct (run_reduce_job_some model j Hj) as [p Hp]. exists (p :: ps). cbn [map]. rewrite Hp, Hps, Hs.
  split; [done|]. split; [by rewrite (run_reduce_job_slug _ _ _ Hp)|].
  intros i [->|Hi]%elem_of_cons; [exists p; split; [set_solver|done]|]. destruct (Hin i Hi) as (q & ? & ?). exists q. split; [set_solver|done].
Qed.

Lemma finish_jobs version written (w : W) failed jobs :
  (forall j, j ∈ jobs -> rj_slug j ∈ map fst written) ->
  foldl (finish_job uuid_to_string version written) (w, failed) jobs = (w, failed).
Proof.
  induction jobs as [|j jobs IH]; intros H; cbn [foldl]; [done|]. unfold finish_job at 2.
  replace (forallb _ written) with false; [apply IH; set_solver|]. symmetry. apply not_true_iff_false. intros Hf.
  rewrite forallb_forall in Hf. assert (Hj : rj_slug j ∈ map fst written) by (apply H; set_solver).
  apply list_elem_of_fmap in Hj as (x & Hx & Hin%list_elem_of_In). apply Hf in Hin. rewrite Hx in Hin.
  by rewrite (proj2 (str_eqb_spec _ _)) in Hin.
Qed.

(** The store, the pages and the locks after [reduce_grouped]. *)
Record Reduced (now : Z) (version : N) (model : str) (grouped : gmap str (list SlugUpdate)) (w w' : W)
    (written : list (str * str)) (failed : list N) : Prop := {
  (** the groups whose lock is free are written, each once *)
  rd_once : NoDup (map fst written);
  rd_written : forall s, s ∈ map fst written <-> is_Some (grouped !! s) /\ lock_free now version w s = true;
  (** the documents of the others have failed *)
  rd_failed : forall d, d ∈ failed <-> exists s us u, grouped !! s = Some us /\ lock_free now version w s = false
                                               /\ u ∈ us /\ su_document_id u = d;
  (** what stands at a written slug is the result of its job on the pages as they were *)
  rd_pages : exists vl, forall s us, grouped !! s = Some us -> lock_free now version w s = true ->
    exists patch, run_reduce_job model (reduce_job version vl s us w) = Some patch
                  /\ written_as version patch (wk_pages w' !! (version, s));
  rd_other_pages : forall k, (k.1 = version -> k.2 ∉ map fst written) -> wk_pages w' !! k = wk_pages w !! k;
  (** the locks it took are given back *)
  rd_locks : forall s, s ∈ map fst written -> wk_locks w' !! lock_key version s = None;
  rd_other_locks : forall k, (forall s, s ∈ map fst written -> k <> lock_key version s) -> wk_locks w' !! k = wk_locks w !! k;
}.

Lemma lock_all_locks now version slugs (w : W) k :
  (forall s, s ∈ slugs -> k <> lock_key version s) -> wk_locks (lock_all now version slugs w) !! k = wk_locks w !! k.
Proof.
  unfold lock_all. cbn [wk_locks with_locks]. generalize (wk_locks w) as m. induction slugs as [|s slugs IH]; intros m H; cbn [foldl]; [done|].
  rewrite IH by set_solver. rewrite lookup_insert_ne; [done|]. intros <-. by apply (H s); [set_solver|].
Qed.

Lemma reduce_grouped_reduced now version model grouped (w : W) :
  map_Forall (fun _ us => us <> []) grouped ->
  let '(w', written, failed) := reduce_grouped now version model grouped w in
  Reduced now version model grouped w w' written failed
  /\ (wk_job w', wk_titles w', wk_versions w', wk_ops w', wk_tombstones w', wk_inflight w', wk_op_seq w')
     = (wk_job w, wk_titles w, wk_versions w, wk_ops w, wk_tombstones w, wk_inflight w, wk_op_seq w).
Proof.
  intros Hne. unfold WikiPages.reduce_grouped. cbv zeta. set (vl := join _ _). set (gs := order 9 _ (map_to_list grouped)).
  assert (Hgs : gs ≡ₚ map_to_list grouped) by apply Horder.
  assert (Hnd : NoDup (map fst gs)) by (rewrite Hgs; apply NoDup_fst_map_to_list).
  assert (Hin : forall s us, (s, us) ∈ gs <-> grouped !! s = Some us) by (intros s us; by rewrite Hgs, elem_of_map_to_list).
  clearbody vl gs. rewrite lock_loop by done. cbv beta iota.
  set (free := List.filter (fun g => lock_free now version w g.1) gs).
  set (held := List.filter (fun g => negb (lock_free now version w g.1)) gs).
  set (jobs := [] ++ map _ free). set (w1 := lock_all now version (map fst free) w).
  assert (Hfree : forall s us, (s, us) ∈ free <-> grouped !! s = Some us /\ lock_free now version w s = true).
  { intros s us. unfold free. by rewrite list_elem_of_In, filter_In, <- list_elem_of_In, Hin. }
  assert (Hheld : forall s us, (s, us) ∈ held <-> grouped !! s = Some us /\ lock_free now version w s = false).
  { intros s us. unfold held. by rewrite list_elem_of_In, filter_In, <- list_elem_of_In, Hin, negb_true_iff. }
  destruct (run_jobs model jobs) as (ps & Hps & Hslugs & Hrun).
  { apply Forall_forall. intros j ([s us] & -> & Hg)%list_elem_of_fmap. apply Hfree in Hg as [Hg _]. by apply (Hne s). }
  set (patches := omap id _). assert (Hpp : patches ≡ₚ ps).
  { unfold patches. rewrite (Horder 10 _ _), Hps. by rewrite omap_id_some. }
  assert (Hsl : map rp_slug ps = map fst free). { rewrite Hslugs. unfold jobs. cbn [app]. by rewrite map_map. }
  clearbody patches. set (written := map (fun p => (rp_slug p, rp_title p)) patches).
  assert (Hwr : map fst written ≡ₚ map fst free). { unfold written. rewrite map_map, <- Hsl. apply (Permutation_map rp_slug Hpp). }
  assert (Hfnd : NoDup (map fst free)).
  { unfold free. clear -Hnd. induction gs as [|g gs IH]; cbn in *; [constructor|]. apply NoDup_cons in Hnd as [Hg Hnd].
    specialize (IH Hnd). destruct (lock_free now version w g.1); [|done]. cbn. constructor; [|done]. contradict Hg.
    apply list_elem_of_fmap in Hg as (h & -> & Hh). apply list_elem_of_fmap_2.
    by apply list_elem_of_In, filter_In in Hh as [Hh%list_elem_of_In _]. }
  rewrite finish_jobs by (intros j Hj; rewrite Hwr; unfold jobs in Hj; cbn [app] in Hj;
    apply list_elem_of_fmap in Hj as (g & -> & Hg); by apply (list_elem_of_fmap_2 fst)).
  destruct (write_patches version patches w1) as (H1 & H2 & H3 & H4); [by rewrite (Permutation_map rp_slug Hpp), Hsl|].
  assert (Hkey : forall s, s ∈ map fst written <-> exists p, p ∈ patches /\ rp_slug p = s).
  { intros s. unfold written. rewrite map_map, list_elem_of_fmap. cbn. naive_solver. }
  split; [split|].
  - by rewrite Hwr.
  - intros s. rewrite Hwr, list_elem_of_fmap. split.
    + intros ([s' us] & -> & Hg). apply Hfree in Hg as [Hg Hl]. cbn [fst]. by rewrite Hg.
    + intros [[us Hg] Hl]. exists (s, us). by rewrite Hfree.
  - intros d. cbn [app]. rewrite list_elem_of_In, in_concat. split.
    + intros (l & (g & <- & Hg)%in_map_iff & Hd). destruct g as [s us]. apply list_elem_of_In, Hheld in Hg as [Hg Hl].
      apply in_map_iff in Hd as (u & Hu & Hin'). exists s, us, u. by rewrite list_elem_of_In.
    + intros (s & us & u & Hg & Hl & Hu & Hd). exists (map su_document_id us). split.
      * apply in_map_iff. exists (s, us). split; [done|]. by apply list_elem_of_In, Hheld.
      * apply in_map_iff. exists u. by rewrite <- list_elem_of_In.
  - exists vl. intros s us Hg Hl. destruct (Hrun (reduce_job version vl s us w)) as (p & Hp & Hr).
    { unfold jobs. cbn [app]. apply list_elem_of_fmap. exists (s, us). split; [done|]. by apply Hfree. }
    exists p. split; [done|]. apply run_reduce_job_slug in Hr. change s with (rj_slug (reduce_job version vl s us w)). rewrite <- Hr.
    apply H1. by rewrite Hpp.
  - intros k Hk. rewrite H2; [done|]. intros p Hp ->. cbn in Hk. apply Hk; [done|]. apply Hkey. by exists p.
  - intros s (p & Hp & <-)%Hkey. by apply H3.
  - intros k Hk. rewrite H4.
    + apply lock_all_locks. intros s Hs. apply Hk. by rewrite Hwr.
    + intros p Hp. apply Hk, Hkey. by exists p.
  - etrans; [apply (write_patches_frame version patches w1)|]. done.
Qed.
End facts.
