(* ===== verification/WikiQueueFacts.v ===== *)
(** * The accounting of a round of [process_ingest]

    Every row that a round claims is either settled or waits for another try; nothing else of
    the queue changes but the finalize rows that are appended. *)
From S2P Require Import Prelude RustStr RustFloat StrReplace Linkify Pipeline Jobs Taxonomy.
From S2P Require Import Wiki WikiPages WikiFacts.
Open Scope nat_scope.

(** ** Rows *)

(** A row after one more failure. *)
Definition retry (o : WikiPendingOp) : WikiPendingOp :=
  {| op_id := op_id o; op_lane := op_lane o; op_version_id := op_version_id o; op_kind := op_kind o;
     op_document_id := op_document_id o; op_slug := op_slug o; op_title := op_title o;
     op_claimed_at := None; op_fail_count := (op_fail_count o + 1)%Z |}.

Definition has_id (rows : list WikiPendingOp) (o : WikiPendingOp) : bool := existsb (Z.eqb (op_id o)) (map op_id rows).

(** What a round makes of a row. *)
Definition fate (waiting settled : list WikiPendingOp) (o : WikiPendingOp) : option WikiPendingOp :=
  if has_id waiting o then Some (retry o) else if has_id settled o then None else Some o.

(** The document that a settled row accounts for. *)
Definition settled_document (o : WikiPendingOp) : option N :=
  match op_kind o with OpRetract => None | _ => op_document_id o end.

(** The documents after one subtask of each was settled. *)
Definition settle_all (ids : list N) (docs : gmap N (ParseStatus * Z)) : gmap N (ParseStatus * Z) :=
  foldl (fun m d => alter (fun x => count_down x.1 x.2) d m) docs ids.

(** The rows have different numbers, all of them drawn. *)
Definition queue_ok {Value} (w : WikiStore Value) : Prop :=
  NoDup (map op_id (wk_ops w)) /\ Forall (fun o => (op_id o <= wk_op_seq w)%Z) (wk_ops w).

Lemma has_id_spec rows o : has_id rows o = true <-> op_id o ∈ map op_id rows.
Proof.
  unfold has_id. rewrite existsb_exists. split.
  - intros (i & Hi%list_elem_of_In & ->%Z.eqb_eq). done.
  - intros H. exists (op_id o). split; [by apply list_elem_of_In|apply Z.eqb_refl].
Qed.

Lemma has_id_app a b o : has_id (a ++ b) o = has_id a o || has_id b o.
Proof. unfold has_id. by rewrite map_app, existsb_app. Qed.

Lemma has_id_perm a b o : a ≡ₚ b -> has_id a o = has_id b o.
Proof. intros H. apply Bool.eq_iff_eq_true. by rewrite !has_id_spec, H. Qed.

Lemma map_id_ext {A B} (f g : A -> B) l : (forall x, x ∈ l -> f x = g x) -> map f l = map g l.
Proof. intros H. apply map_ext_in. intros x Hx%list_elem_of_In. by apply H. Qed.

Lemma NoDup_ids_eq (l : list WikiPendingOp) a b : NoDup (map op_id l) -> a ∈ l -> b ∈ l -> op_id a = op_id b -> a = b.
Proof.
  intros Hnd (i & Hi)%list_elem_of_lookup (j & Hj)%list_elem_of_lookup He.
  assert (i = j) as ->; [|congruence]. eapply (NoDup_lookup _ _ _ (op_id a)); [exact Hnd|..]; rewrite list_lookup_fmap;
    [by rewrite Hi|rewrite Hj; cbn; by rewrite He].
Qed.

Lemma filter_sublist {A} (f : A -> bool) l : List.filter f l `sublist_of` l.
Proof. induction l as [|x l IH]; [constructor|]. cbn. destruct (f x); by constructor. Qed.

Lemma ids_sublist (l k : list WikiPendingOp) : l `sublist_of` k -> map op_id l `sublist_of` map op_id k.
Proof. induction 1; by constructor. Qed.

Lemma ids_omap_sublist (f : WikiPendingOp -> option WikiPendingOp) l :
  (forall o x, f o = Some x -> op_id x = op_id o) -> map op_id (omap f l) `sublist_of` map op_id l.
Proof.
  intros Hf. induction l as [|o l IH]; [constructor|]. unfold omap in *. cbn. destruct (f o) as [x|] eqn:E; [|by constructor].
  cbn. rewrite (Hf o x E). by constructor.
Qed.

Lemma fate_id waiting settled o x : fate waiting settled o = Some x -> op_id x = op_id o.
Proof. unfold fate. repeat case_match; intros [= <-]; done. Qed.

Lemma update_first_unique (o : WikiPendingOp) (g : WikiPendingOp -> WikiPendingOp) l :
  NoDup (map op_id l) -> o ∈ l ->
  update_first (fun x => (op_id x =? op_id o)%Z) g l = Some (map (fun x => if (op_id x =? op_id o)%Z then g x else x) l).
Proof.
  induction l as [|x l IH]; intros Hnd Ho; [by apply elem_of_nil in Ho|]. cbn [update_first map] in *.
  apply NoDup_cons in Hnd as [Hx Hnd]. destruct (Z.eqb_spec (op_id x) (op_id o)) as [He|He].
  - do 2 f_equal. etrans; [symmetry; apply map_id|]. apply map_id_ext. intros y Hy.
    destruct (Z.eqb_spec (op_id y) (op_id o)) as [Hy'|]; [|done]. exfalso. apply Hx. rewrite He, <- Hy'. by apply list_elem_of_fmap_2.
  - apply elem_of_cons in Ho as [->|Ho]; [done|]. by rewrite (IH Hnd Ho).
Qed.

Lemma find_row (o : WikiPendingOp) l :
  NoDup (map op_id l) -> o ∈ l -> find (fun x => (op_id x =? op_id o)%Z) l = Some o.
Proof.
  intros Hnd Ho. destruct (find _ l) as [x|] eqn:E.
  - apply find_some in E as [Hx%list_elem_of_In ->%Z.eqb_eq%(NoDup_ids_eq l)]; [done|done|done|done].
  - assert (Hf := find_none _ _ E o (proj1 (list_elem_of_In _ _) Ho)). cbn in Hf. by rewrite Z.eqb_refl in Hf.
Qed.

Section queue.
Context {Value : Type}.
Notation W := (WikiStore Value).

Lemma fail_row_spec (w : W) o :
  NoDup (map op_id (wk_ops w)) -> o ∈ wk_ops w ->
  fail_row (op_id o) w
  = (with_ops (map (fun x => if (op_id x =? op_id o)%Z then retry x else x)) w, Some (op_fail_count o + 1)%Z).
Proof.
  intros Hnd Ho. unfold fail_row. rewrite (find_row o) by done. f_equal. unfold with_ops. f_equal.
  by rewrite (update_first_unique o) by done.
Qed.

(** The rows of [claim_rows]: the first [limit] that can be claimed. *)
Definition claimable (now : Z) (lane : Lane) (version : N) (o : WikiPendingOp) : bool :=
  in_lane lane version o && reclaimable (now - STALE_CLAIM_MS) o.

Lemma claim_rows_spec now lane version limit ops :
  0 < limit -> NoDup (map op_id ops) ->
  let taken := take limit (List.filter (claimable now lane version) ops) in
  claim_rows now lane version limit ops
  = (map (fun o => if has_id taken o then set_claim (Some now) o else o) ops, map (set_claim (Some now)) taken).
Proof.
  revert limit. induction ops as [|o ops IH]; intros limit Hl Hnd; cbn zeta.
  - by destruct limit.
  - cbn [map] in Hnd. apply NoDup_cons in Hnd as [Ho Hnd]. cbn [claim_rows]. fold (claimable now lane version o).
    assert (Hout : forall l, (forall x, x ∈ l -> x ∈ ops) -> has_id l o = false).
    { intros l Hsub. apply not_true_iff_false. rewrite has_id_spec. intros (x & He & Hx)%list_elem_of_fmap.
      apply Ho. rewrite He. by apply list_elem_of_fmap_2, Hsub. }
    assert (Hsub : forall n x, x ∈ take n (List.filter (claimable now lane version) ops) -> x ∈ ops).
    { intros n x Hx%elem_of_take. destruct Hx as (i & Hi%list_elem_of_lookup_2%list_elem_of_In & _).
      by apply filter_In in Hi as [Hi%list_elem_of_In _]. }
    cbn [List.filter map]. destruct (claimable now lane version o).
    + destruct limit as [|[|limit]]; [lia|..]; cbn [Nat.leb take map].
      * rewrite take_0. f_equal. f_equal.
        -- replace (has_id [o] o) with true; [done|]. symmetry. rewrite has_id_spec. set_solver.
        -- etrans; [symmetry; apply map_id|]. apply map_id_ext. intros x Hx. replace (has_id [o] x) with false; [done|].
           symmetry. apply not_true_iff_false. rewrite has_id_spec. cbn [map]. rewrite list_elem_of_singleton. intros He.
           apply Ho. rewrite <- He. by apply list_elem_of_fmap_2.
      * rewrite (IH (S (S limit) - 1)) by (lia || done). cbn [Nat.sub]. f_equal. f_equal.
        -- replace (has_id _ o) with true; [done|]. symmetry. rewrite has_id_spec. cbn [map]. set_solver.
        -- apply map_id_ext. intros x Hx. change (o :: take (S limit) ?l) with ([o] ++ take (S limit) l). rewrite has_id_app.
           replace (has_id [o] x) with false; [done|]. symmetry. apply not_true_iff_false. rewrite has_id_spec. cbn [map].
           rewrite list_elem_of_singleton. intros He. apply Ho. rewrite <- He. by apply list_elem_of_fmap_2.
    + rewrite IH by done. by rewrite (Hout _ (Hsub limit)).
Qed.
End queue.

(** ** The tally of a round *)

Section tally.
Context {Value : Type} (ops0 claimed : list WikiPendingOp) (docs0 : gmap N (ParseStatus * Z)) (seq0 : Z).
Context (Hids : NoDup (map op_id ops0)) (Hsub : forall o, o ∈ claimed -> o ∈ ops0) (Hcnd : NoDup (map op_id claimed)).
Notation W := (WikiStore Value).

(** The claimed rows that wait, those that are settled and those still [open]; [given] are the
    settled ones that failed once too often. *)
Record Tally (waiting settled given open : list WikiPendingOp) (w : W) (done_ids : list Z) : Prop := {
  tl_split : claimed ≡ₚ waiting ++ settled ++ open;
  tl_ops : wk_ops w = map (fun o => if has_id (waiting ++ given) o then retry o else o) ops0;
  tl_given : forall o, o ∈ given -> o ∈ settled /\ (MAX_FAIL_RETRIES < op_fail_count o + 1)%Z;
  tl_waiting : forall o, o ∈ waiting -> (op_fail_count o + 1 <= MAX_FAIL_RETRIES)%Z /\ op_kind o <> OpRetract;
  tl_done : forall i, i ∈ done_ids <-> i ∈ map op_id settled;
  tl_docs : wj_documents (wk_job w) = settle_all (omap settled_document settled) docs0;
  tl_seq : wk_op_seq w = seq0;
}.

Lemma tally_ids waiting settled given open w done_ids :
  Tally waiting settled given open w done_ids -> map op_id (wk_ops w) = map op_id ops0.
Proof. intros [_ -> _ _ _ _ _]. rewrite map_map. apply map_id_ext. intros o _. by case_match. Qed.

(** An open row was not touched yet. *)
Lemma tally_open waiting settled given open w done_ids o :
  Tally waiting settled given (o :: open) w done_ids -> has_id (waiting ++ given) o = false /\ o ∈ wk_ops w.
Proof.
  intros [Hs Hops Hg _ _ _ _]. rewrite Hs, !map_app in Hcnd. cbn [map] in Hcnd.
  assert (Hno : has_id (waiting ++ given) o = false).
  { apply not_true_iff_false. rewrite has_id_spec, map_app, elem_of_app. intros H.
    apply NoDup_app in Hcnd as (_ & Hd1 & (_ & Hd2 & _)%NoDup_app). destruct H as [H|H].
    - apply (Hd1 _ H). rewrite elem_of_app. right. set_solver.
    - apply list_elem_of_fmap in H as (g & He & Hg'). apply (Hd2 (op_id o)); [|set_solver].
      rewrite He. apply list_elem_of_fmap_2. by apply Hg. }
  split; [done|]. rewrite Hops. apply list_elem_of_fmap. exists o. rewrite Hno. split; [done|].
  apply Hsub. rewrite Hs. set_solver.
Qed.

Lemma settle_all_snoc ids d docs : settle_all (ids ++ [d]) docs = alter (fun x => count_down x.1 x.2) d (settle_all ids docs).
Proof. unfold settle_all. by rewrite foldl_app. Qed.

Lemma settle_documents (w : W) d :
  wj_documents (wk_job (settle d w)) = alter (fun x => count_down x.1 x.2) d (wj_documents (wk_job w)).
Proof.
  unfold settle. cbn [wk_job with_job]. unfold wiki_finalize_subtask. apply map_eq. intros i.
  destruct (wj_documents (wk_job w) !! d) as [[st c]|] eqn:E; cbn [wj_documents].
  - destruct (decide (i = d)) as [->|Hne].
    + by rewrite lookup_insert_eq, lookup_alter_eq, E.
    + by rewrite lookup_insert_ne, lookup_alter_ne.
  - destruct (decide (i = d)) as [->|Hne]; [by rewrite lookup_alter_eq, E|by rewrite lookup_alter_ne].
Qed.

(** A row is done; [w'] is the store in which its document, when it accounts for one, is settled. *)
Lemma tally_done waiting settled given open w w' done_ids o :
  Tally waiting settled given (o :: open) w done_ids ->
  wk_ops w' = wk_ops w -> wk_op_seq w' = wk_op_seq w ->
  wj_documents (wk_job w') = settle_all (omap settled_document [o]) (wj_documents (wk_job w)) ->
  Tally waiting (settled ++ [o]) given open w' (done_ids ++ [op_id o]).
Proof.
  clear Hids Hsub Hcnd.  intros [Hs Hops Hg Hw Hd Hdocs Hseq] Ho Hq Hdoc. split.
  - by rewrite Hs, <- !app_assoc.
  - by rewrite Ho.
  - intros g Hin. destruct (Hg g Hin). split; [set_solver|done].
  - done.
  - intros i. rewrite elem_of_app, Hd, map_app, elem_of_app. cbn [map]. done.
  - rewrite Hdoc, Hdocs, omap_app. unfold settle_all. by rewrite foldl_app.
  - by rewrite Hq.
Qed.

(** A row fails: it waits, or its document is given up. *)
Lemma tally_fail message waiting settled given open w done_ids o did :
  Tally waiting settled given (o :: open) w done_ids -> op_kind o <> OpRetract -> op_document_id o = Some did ->
  exists waiting' settled' given',
    Tally waiting' settled' given' open (fail_op message (op_id o) did (w, done_ids)).1
      (fail_op message (op_id o) did (w, done_ids)).2.
Proof.
  intros Ht Hk Hdid. destruct (tally_open _ _ _ _ _ _ _ Ht) as [Hno Hin].
  assert (Hnd : NoDup (map op_id (wk_ops w))) by (by rewrite (tally_ids _ _ _ _ _ _ Ht)).
  unfold fail_op. rewrite (fail_row_spec w o Hnd Hin). set (w1 := with_ops _ w).
  destruct Ht as [Hs Hops Hg Hw Hd Hdocs Hseq].
  assert (Hops1 : forall l, (forall x, has_id l x = has_id [o] x || has_id (waiting ++ given) x) ->
    wk_ops w1 = map (fun x => if has_id l x then retry x else x) ops0).
  { intros l Hl. unfold w1. cbn [wk_ops with_ops]. rewrite Hops, map_map. apply map_id_ext. intros x Hx.
    rewrite Hl. assert (Heq : has_id [o] x = (op_id x =? op_id o)%Z) by (unfold has_id; cbn; by rewrite orb_false_r). rewrite Heq.
    destruct (has_id (waiting ++ given) x) eqn:E; cbn [orb].
    - rewrite orb_true_r. change (op_id (retry x)) with (op_id x). destruct (Z.eqb_spec (op_id x) (op_id o)) as [He|]; [|done].
      exfalso. unfold has_id in Hno, E. rewrite He in E. by rewrite E in Hno.
    - by rewrite orb_false_r. }
  destruct (Z.ltb_spec MAX_FAIL_RETRIES (op_fail_count o + 1)) as [Hlt|Hle]; cbn [fst snd].
  - exists waiting, (settled ++ [o]), (given ++ [o]).
    assert (Hdocs1 : forall dl : WikiJob Value -> WikiJob Value, (forall j, wj_documents (dl j) = wj_documents j) ->
      wj_documents (wk_job (settle did (with_job dl w1))) = settle_all (omap settled_document (settled ++ [o])) docs0).
    { intros dl Hdl. rewrite settle_documents. cbn [wk_job with_job]. rewrite Hdl. unfold w1. cbn [wk_job with_ops].
      rewrite Hdocs, omap_app. replace (omap settled_document [o]) with [did]; [by rewrite settle_all_snoc|].
      unfold settled_document. cbn. rewrite Hdid. by destruct (op_kind o). }
    split.
    + by rewrite Hs, <- !app_assoc.
    + unfold settle. cbn [wk_ops with_job]. apply Hops1. intros x. rewrite app_assoc, has_id_app. apply orb_comm.
    + intros g Hin'. apply elem_of_app in Hin' as [Hgin|Heq]; [|apply list_elem_of_singleton in Heq as ->; split; [set_solver|lia]]. destruct (Hg g Hgin). split; [set_solver|done].
    + done.
    + intros i. rewrite elem_of_app, Hd, map_app, elem_of_app. cbn [map]. done.
    + by apply Hdocs1.
    + done.
  - exists (waiting ++ [o]), settled, given. split; try done.
    + rewrite Hs, <- !app_assoc. cbn [app]. apply Permutation_app_head. by rewrite Permutation_middle.
    + apply Hops1. intros x. rewrite <- app_assoc, !has_id_app. destruct (has_id waiting x), (has_id [o] x); done.
    + intros x Hx. apply elem_of_app in Hx as [Hx|Heq]; [by apply Hw|]. apply list_elem_of_singleton in Heq as ->. split; [lia|done].
Qed.

(** The rows after the trim. *)
Lemma trim_tally now waiting settled given (w : W) done_ids :
  (forall o, o ∈ claimed -> op_claimed_at o = Some now) -> Tally waiting settled given [] w done_ids ->
  wk_ops (trim_ops done_ids w) = omap (fate waiting settled) ops0.
Proof.
  intros Hnow [Hs Hops Hg Hw Hd _ _]. rewrite app_nil_r in Hs. cbn [trim_ops wk_ops with_ops]. rewrite Hops. clear Hops.
  assert (Hdone : forall o, existsb (Z.eqb (op_id o)) done_ids = has_id settled o).
  { intros o. apply Bool.eq_iff_eq_true. rewrite has_id_spec, <- Hd, existsb_exists. split.
    - intros (i & Hi%list_elem_of_In & ->%Z.eqb_eq). done.
    - intros H. exists (op_id o). split; [by apply list_elem_of_In|apply Z.eqb_refl]. }
  assert (Hdisj : forall o, has_id waiting o = true -> has_id settled o = false).
  { intros o Ho. apply not_true_iff_false. rewrite !has_id_spec in *. intros Hse. rewrite Hs, map_app in Hcnd.
    apply NoDup_app in Hcnd as (_ & Hd1 & _). by apply (Hd1 _ Ho). }
  assert (Hat : forall o, o ∈ ops0 -> has_id settled o = true -> op_claimed_at o = Some now).
  { intros o Ho (c & Hc & Hin)%has_id_spec%list_elem_of_fmap. apply Hnow.
    assert (Hc' : c ∈ claimed) by (rewrite Hs; set_solver). by rewrite (NoDup_ids_eq ops0 o c Hids Ho (Hsub c Hc') Hc). }
  assert (Hgv : forall o, o ∈ ops0 -> has_id given o = true -> has_id settled o = true /\ (MAX_FAIL_RETRIES < op_fail_count o + 1)%Z).
  { intros o Ho (c & Hc & Hin)%has_id_spec%list_elem_of_fmap. destruct (Hg c Hin) as [Hset Hlt].
    assert (Hc' : c ∈ claimed) by (rewrite Hs; set_solver). rewrite (NoDup_ids_eq ops0 o c Hids Ho (Hsub c Hc') Hc).
    split; [|done]. apply has_id_spec. by apply list_elem_of_fmap_2. }
  clear Hs Hd Hw Hg Hids Hsub Hcnd Hnow. induction ops0 as [|o ops IH]; [done|]. cbn [map List.filter].
  assert (IH' : List.filter (fun o => negb (existsb (Z.eqb (op_id o)) done_ids) || waits_for_retry o)
      (map (fun o => if has_id (waiting ++ given) o then retry o else o) ops) = omap (fate waiting settled) ops).
  { apply IH; intros x Hx; [apply Hat|apply Hgv]; set_solver. }
  rewrite IH'. clear IH IH'.
  assert (Ho : o ∈ o :: ops) by set_solver. specialize (Hat o Ho). specialize (Hgv o Ho). specialize (Hdisj o).
  change (omap (fate waiting settled) (o :: ops)) with (match fate waiting settled o with
    | Some x => x :: omap (fate waiting settled) ops | None => omap (fate waiting settled) ops end).
  rewrite has_id_app. unfold fate. destruct (has_id waiting o) eqn:Ew; cbn [orb].
  - change (op_id (retry o)) with (op_id o). rewrite Hdone, Hdisj by done. done.
  - destruct (has_id given o).
    + change (op_id (retry o)) with (op_id o). destruct Hgv as [Hset Hlt]; [done|]. rewrite Hdone, Hset.
      replace (waits_for_retry (retry o)) with false; [done|]. unfold waits_for_retry. cbn [retry op_fail_count op_claimed_at].
      destruct (Z.leb_spec (op_fail_count o + 1) MAX_FAIL_RETRIES); [lia|]. by rewrite andb_false_r.
    + rewrite Hdone. destruct (has_id settled o); [|done]. unfold waits_for_retry. rewrite Hat by done. by rewrite andb_false_r.
Qed.
End tally.

(** ** The round *)

Section round.
Context {Value : Type} (sv : Services) (order : nat -> forall A : Type, list A -> list A)
  (embed_index : str -> result str (list f64)) (is_alphanumeric : char -> bool)
  (uuid_to_string : N -> str) (new_v4 : nat -> N) (payload : N -> N -> str -> Value) (task_id_of : Value -> option str).
Context (Horder : order_law order).
Notation W := (WikiStore Value).
Notation ingest_op := (ingest_op sv order uuid_to_string).
Notation ingest_ops := (ingest_ops sv order uuid_to_string).
Notation reduce_grouped := (reduce_grouped sv order embed_index is_alphanumeric uuid_to_string new_v4).
Notation finish_round := (finish_round sv order embed_index is_alphanumeric uuid_to_string new_v4 payload task_id_of).
Notation process_ingest := (process_ingest sv order embed_index is_alphanumeric uuid_to_string new_v4 payload task_id_of).

Lemma add_groups_nonempty grouped updates :
  map_Forall (fun _ us => us <> []) grouped -> map_Forall (fun _ us => us <> []) (add_groups grouped updates).
Proof.
  revert grouped. unfold add_groups. induction updates as [|u us IH]; intros grouped H; [done|]. cbn [foldl]. apply IH.
  intros s l. unfold add_group. destruct (decide (s = su_slug u)) as [->|Hne].
  - rewrite lookup_partial_alter_eq. intros [= <-]. by destruct (default [] _).
  - rewrite lookup_partial_alter_ne by done. apply H.
Qed.

(** A mapped document and the row it comes from. *)
Definition mapped_row (m : Z * N) (o : WikiPendingOp) : Prop :=
  m.1 = op_id o /\ op_document_id o = Some m.2 /\ op_kind o <> OpRetract.

Lemma fail_row_inflight id (w : W) : wk_inflight (fail_row id w).1 = wk_inflight w.
Proof. unfold fail_row. by case_match. Qed.

Lemma fail_op_inflight message id did (st : W * list Z) : wk_inflight (fail_op message id did st).1 = wk_inflight st.1.
Proof.
  destruct st as [w l]. unfold fail_op. cbn [fst]. rewrite <- (fail_row_inflight id w). destruct (fail_row id w) as [w1 [c|]]; [|done].
  by case_match.
Qed.

Section ops.
Context (ops0 claimed : list WikiPendingOp) (docs0 : gmap N (ParseStatus * Z)) (seq0 : Z) (now : Z) (version : N).
Context (Hids : NoDup (map op_id ops0)) (Hsub : forall o, o ∈ claimed -> o ∈ ops0) (Hcnd : NoDup (map op_id claimed)).
Notation Tally := (Tally ops0 claimed docs0 seq0).

Lemma tally_perm waiting settled given open open' (w : W) done_ids :
  open ≡ₚ open' -> Tally waiting settled given open w done_ids -> Tally waiting settled given open' w done_ids.
Proof. intros Hp [Hs ? ? ? ? ? ?]. split; [|done..]. by rewrite Hs, Hp. Qed.

(** What holds before the remaining [ops] of the loop. *)
Definition round_inv (inflight : gmap N Z) (ops : list WikiPendingOp) (r : Round (Value := Value)) : Prop :=
  exists waiting settled given mapped,
    Tally waiting settled given (ops ++ mapped) (rd_store r) (rd_done r) /\ Forall2 mapped_row (rd_mapped r) mapped
    /\ map_Forall (fun _ us => us <> []) (rd_grouped r) /\ wk_inflight (rd_store r) = inflight.

Lemma round_done inflight op ops r w' grouped :
  round_inv inflight (op :: ops) r ->
  wk_ops w' = wk_ops (rd_store r) -> wk_op_seq w' = wk_op_seq (rd_store r) -> wk_inflight w' = inflight ->
  wj_documents (wk_job w') = settle_all (omap settled_document [op]) (wj_documents (wk_job (rd_store r))) ->
  map_Forall (fun _ us => us <> []) grouped ->
  round_inv inflight ops {| rd_store := w'; rd_grouped := grouped; rd_done := rd_done r ++ [op_id op]; rd_mapped := rd_mapped r |}.
Proof.
  intros (waiting & settled & given & mapped & Ht & Hm & Hg & Hi) H1 H2 H3 H4 H5.
  exists waiting, (settled ++ [op]), given, mapped. split; [|done]. eapply tally_done; [exact Ht|done..].
Qed.

Lemma settle_one op did (w : W) :
  op_kind op <> OpRetract -> op_document_id op = Some did ->
  wj_documents (wk_job (settle did w)) = settle_all (omap settled_document [op]) (wj_documents (wk_job w)).
Proof. intros Hk Hd. rewrite settle_documents. unfold settled_document. cbn. rewrite Hd. by destruct (op_kind op). Qed.

Lemma map_op_inv inflight op ops did r :
  round_inv inflight (op :: ops) r -> op_kind op <> OpRetract -> op_document_id op = Some did ->
  round_inv inflight ops (map_op sv order uuid_to_string now version (op_id op) did r).
Proof.
  intros Hr Hk Hd. pose proof (settle_one op did (rd_store r) Hk Hd) as Hs.
  pose proof Hr as (waiting & settled & given & mapped & Ht & Hm & Hg & Hi). unfold map_op, done_op.
  destruct (is_tombstoned _ _ _ _); [by apply round_done|].
  destruct (map_document _ _ _ _ _ _) as [[|u updates]|e]; [by apply round_done|..].
  - exists waiting, settled, given, (mapped ++ [op]). cbn [rd_store rd_done rd_mapped rd_grouped]. split.
    + eapply tally_perm; [|exact Ht]. rewrite app_assoc. cbn [app]. by rewrite <- Permutation_cons_append.
    + split; [by apply Forall2_app; [|constructor; [|constructor]]|]. split; [by apply add_groups_nonempty|done].
  - pose proof (tally_fail _ _ _ _ Hids Hsub Hcnd MAP_FAILED _ _ _ _ _ _ _ _ Ht Hk Hd) as (w1 & s1 & g1 & Ht1).
    pose proof (fail_op_inflight MAP_FAILED (op_id op) did (rd_store r, rd_done r)) as Hf.
    destruct (fail_op _ _ _ _) as [w2 d2]. exists w1, s1, g1, mapped. cbn in *. by rewrite Hf.
Qed.

Lemma ingest_op_inv inflight op ops r r' :
  round_inv inflight (op :: ops) r -> ingest_op now version op r = Ok r' -> round_inv inflight ops r'.
Proof.
  intros Hr. pose proof Hr as (waiting & settled & given & mapped & Ht & Hm & Hg & Hi). unfold WikiPages.ingest_op.
  destruct (op_kind op) eqn:Ek.
  2: { destruct (retract_document_updates _ _ _ _ _ _) as [updates|]; [|done]. intros [= <-].
       apply round_done; try done; [|by apply add_groups_nonempty]. unfold settled_document. cbn. by rewrite Ek. }
  all: intros [= <-]; destruct (op_document_id op) as [did|] eqn:Ed; [apply map_op_inv; by rewrite ?Ek|].
  all: apply round_done; try done; unfold settled_document; cbn; by rewrite Ek, Ed.
Qed.

Lemma ingest_ops_inv inflight ops r r' :
  round_inv inflight ops r -> ingest_ops now version ops r = Ok r' -> round_inv inflight [] r'.
Proof.
  revert r. induction ops as [|op ops IH]; intros r H; cbn [WikiPages.ingest_ops]; [by intros [= <-]|].
  destruct (ingest_op now version op r) as [r1|] eqn:E; [|done]. apply IH. by eapply ingest_op_inv.
Qed.

(** The loop over the mapped documents closes every open row. *)
Lemma settle_mapped_tally failed ms mapped waiting settled given (w : W) done_ids :
  Forall2 mapped_row ms mapped -> Tally waiting settled given mapped w done_ids ->
  let st := foldl (settle_mapped failed) (w, done_ids) ms in
  wk_inflight st.1 = wk_inflight w
  /\ exists waiting' settled' given', Tally waiting' settled' given' [] st.1 st.2.
Proof.
  intros Hm. revert waiting settled given w done_ids. induction Hm as [|[i d] o ms mapped (Hi & Hd & Hk) _ IH];
    intros waiting settled given w done_ids Ht; cbn zeta.
  - split; [done|]. by exists waiting, settled, given.
  - cbn [fst snd] in *. subst i. cbn [foldl].
    assert (Hstep : exists w1 s1 g1, Tally w1 s1 g1 mapped (settle_mapped failed (w, done_ids) (op_id o, d)).1
                      (settle_mapped failed (w, done_ids) (op_id o, d)).2
                    /\ wk_inflight (settle_mapped failed (w, done_ids) (op_id o, d)).1 = wk_inflight w).
    { unfold settle_mapped. cbn [fst snd]. destruct (existsb (N.eqb d) failed).
      - destruct (tally_fail _ _ _ _ Hids Hsub Hcnd REDUCE_FAILED _ _ _ _ _ _ _ _ Ht Hk Hd) as (w1 & s1 & g1 & Ht1).
        exists w1, s1, g1. split; [done|]. apply fail_op_inflight.
      - exists waiting, (settled ++ [o]), given. split; [|done]. eapply tally_done; [exact Ht|done|done|]. by apply settle_one. }
    destruct Hstep as (w1 & s1 & g1 & Ht1 & Hf). destruct (settle_mapped _ _ _) as [w2 d2]. cbn [fst snd] in *. rewrite <- Hf.
    by eapply IH.
Qed.

End ops.

(** ** What follows the trim only appends finalize rows *)

Definition appends (version : N) (w w' : W) : Prop :=
  (exists pushed, wk_ops w' = wk_ops w ++ pushed /\ Forall (fun o => in_lane Finalize version o = true) pushed)
  /\ wj_documents (wk_job w') = wj_documents (wk_job w) /\ (queue_ok w -> queue_ok w').

#[local] Instance appends_preorder version : PreOrder (appends version).
Proof.
  split.
  - intros w. split; [exists []; by rewrite app_nil_r|done].
  - intros w1 w2 w3 ((p & Hp & Fp) & Hd & Hq) ((p' & Hp' & Fp') & Hd' & Hq'). split.
    + exists (p ++ p'). rewrite Hp', Hp, app_assoc. split; [done|]. by apply Forall_app.
    + split; [by rewrite Hd'|]. intros H. by apply Hq', Hq.
Qed.

Lemma push_finalize_appends version kind slug title (w : W) : appends version w (push_op Finalize version kind None slug title w).
Proof.
  split; [|split; [done|]].
  - eexists. split; [done|]. constructor; [|constructor]. unfold in_lane. cbn. by rewrite N.eqb_refl.
  - intros [Hnd Hle]. split; cbn [push_op wk_ops with_ops next_op wk_op_seq].
    + rewrite map_app. apply NoDup_app. split; [done|]. split; [|by apply NoDup_singleton].
      intros i (o & -> & Ho)%list_elem_of_fmap. cbn. rewrite list_elem_of_singleton. rewrite Forall_forall in Hle. specialize (Hle o Ho). lia.
    + apply Forall_app. split; [eapply Forall_impl; [exact Hle|]; cbn; lia|]. constructor; [cbn; lia|constructor].
Qed.

Lemma push_written_appends version slugs (w : W) : appends version w (foldl (push_written version) w slugs).
Proof.
  revert w. induction slugs as [|x slugs IH]; intros w; [done|]. cbn [foldl]. etrans; [|apply IH]. unfold push_written.
  by etrans; apply push_finalize_appends.
Qed.

Lemma frame_appends version (w w' : W) : queue_part w' = queue_part w -> appends version w w'.
Proof.
  intros H. unfold queue_part in H. injection H as Hj _ _ Ho _ _ _ Hs. split; [exists []; by rewrite app_nil_r|].
  split; [by rewrite Hj|]. unfold queue_ok. by rewrite Ho, Hs.
Qed.

Notation schedule_live := (schedule_live uuid_to_string new_v4 payload task_id_of).

Lemma schedule_live_appends lane version v delay (w : W) : appends version w (schedule_live lane v delay w).
Proof.
  unfold WikiPages.schedule_live, schedule_trigger. repeat case_match; try done. split; [exists []; by rewrite app_nil_r|done].
Qed.

Lemma written_appends version slugs (w : W) :
  appends version w match slugs with
    | [] => w
    | _ => push_op Finalize version OpFolderPrune None [] []
             (foldl (push_written version) (plan_and_apply_taxonomy sv order new_v4 version slugs w) slugs)
    end.
Proof.
  destruct slugs as [|x slugs]; [done|]. etrans; [|apply push_finalize_appends]. etrans; [|apply push_written_appends].
  apply frame_appends, plan_and_apply_taxonomy_frame.
Qed.

Lemma finish_round_trim now version model r (w' : W) :
  map_Forall (fun _ us => us <> []) (rd_grouped r) -> finish_round now version model r = w' ->
  exists w1 failed, (wk_ops w1, wk_op_seq w1, wk_job w1) = (wk_ops (rd_store r), wk_op_seq (rd_store r), wk_job (rd_store r))
  /\ let st := foldl (settle_mapped failed) (w1, rd_done r) (rd_mapped r) in
     appends version (trim_ops st.2 st.1) w' /\ wk_inflight w' !! version = None.
Proof.
  intros Hg. unfold WikiPages.finish_round. pose proof (reduce_grouped_reduced sv order embed_index is_alphanumeric uuid_to_string new_v4
    Horder now version model (rd_grouped r) (rd_store r) Hg) as Hr.
  destruct (reduce_grouped now version model (rd_grouped r) (rd_store r)) as [[w1 slugs] failed]. destruct Hr as [_ Hf].
  exists w1, failed. split; [by injection Hf as -> _ _ -> _ _ ->|]. cbn zeta.
  destruct (foldl (settle_mapped failed) (w1, rd_done r) (rd_mapped r)) as [w2 done_ids]. cbn [fst snd]. subst w'. split.
  - transitivity match slugs with [] => trim_ops done_ids w2 | _ => push_op Finalize version OpFolderPrune None [] []
      (foldl (push_written version) (plan_and_apply_taxonomy sv order new_v4 version slugs (trim_ops done_ids w2)) slugs) end;
      [apply written_appends|].
    etrans; [apply schedule_live_appends|]. etrans; [apply schedule_live_appends|]. split; [exists []; by rewrite app_nil_r|done].
  - unfold release_inflight. cbn [wk_inflight with_inflight]. by rewrite lookup_delete_eq.
Qed.

(** ** The theorem *)

Lemma filter_omap_fate (p : WikiPendingOp -> bool) waiting settled l :
  (forall o, p (retry o) = p o) ->
  List.filter p (omap (fate waiting settled) l) = omap (fate waiting settled) (List.filter p l).
Proof.
  intros Hp. induction l as [|o l IH]; [done|]. cbn [omap list_omap List.filter].
  unfold fate at 1. destruct (has_id waiting o) eqn:Ew; [|destruct (has_id settled o) eqn:Es]; cbn [List.filter];
    rewrite ?Hp, IH; destruct (p o) eqn:Ep; try done;
    unfold omap; cbn [list_omap]; unfold fate at 2; rewrite Ew, ?Es; done.
Qed.

Lemma filter_omap_keep (p : WikiPendingOp -> bool) waiting settled l :
  (forall o, p (retry o) = p o) -> (forall o, o ∈ l -> p o = true -> has_id (waiting ++ settled) o = false) ->
  List.filter p (omap (fate waiting settled) l) = List.filter p l.
Proof.
  intros Hp H. rewrite filter_omap_fate by done. induction l as [|o l IH]; [done|]. cbn [List.filter].
  destruct (p o) eqn:Ep; [|apply IH; set_solver]. assert (Ho : has_id (waiting ++ settled) o = false) by (apply H; [set_solver|done]).
  rewrite has_id_app in Ho. apply orb_false_iff in Ho as [H1 H2]. change (omap (fate waiting settled) (o :: List.filter p l))
    with (match fate waiting settled o with Some x => x :: omap (fate waiting settled) (List.filter p l)
          | None => omap (fate waiting settled) (List.filter p l) end).
  unfold fate at 1. rewrite H1, H2, IH; [done|set_solver].
Qed.

(** The claims do not change what becomes of the rows. *)
Lemma fate_claimed now (taken waiting settled ops : list WikiPendingOp) :
  map (set_claim (Some now)) taken ≡ₚ waiting ++ settled ->
  omap (fate waiting settled) (map (fun o => if has_id taken o then set_claim (Some now) o else o) ops)
  = omap (fate waiting settled) ops.
Proof.
  intros Hs. assert (Hid : forall o, has_id (waiting ++ settled) o = has_id taken o).
  { intros o. rewrite <- (has_id_perm _ _ o Hs). unfold has_id. by rewrite map_map. }
  induction ops as [|o ops IH]; [done|]. cbn [map]. unfold omap. cbn [list_omap]. fold (omap (M := list) (A := WikiPendingOp) (B := WikiPendingOp)).
  change (list_omap WikiPendingOp WikiPendingOp (fate waiting settled) ?l) with (omap (fate waiting settled) l). rewrite IH.
  specialize (Hid o). rewrite has_id_app in Hid. destruct (has_id taken o); [|done].
  unfold fate. change (has_id ?l (set_claim (Some now) o)) with (has_id l o).
  destruct (has_id waiting o); [done|]. destruct (has_id settled o); done.
Qed.

(** What a round leaves of the store: [waiting] and [settled] are the claimed rows. *)
Record Settles (version : N) (w w' : W) (waiting settled pushed : list WikiPendingOp) : Prop := {
  (** only an operation with a document waits, and for at most [MAX_FAIL_RETRIES] tries *)
  st_waiting : forall o, o ∈ waiting -> (op_fail_count o + 1 <= MAX_FAIL_RETRIES)%Z /\ op_kind o <> OpRetract;
  (** a waiting row is free again with one more failure, a settled one is gone, the others stay *)
  st_lane : List.filter (in_lane Ingest version) (wk_ops w')
            = omap (fate waiting settled) (List.filter (in_lane Ingest version) (wk_ops w));
  st_others : List.filter (fun o => negb (in_lane Ingest version o)) (wk_ops w')
              = List.filter (fun o => negb (in_lane Ingest version o)) (wk_ops w) ++ pushed;
  st_pushed : Forall (fun o => in_lane Finalize version o = true) pushed;
  (** each settled row settles its document once *)
  st_documents : wj_documents (wk_job w') = settle_all (omap settled_document settled) (wj_documents (wk_job w));
  st_queue : queue_ok w';
  st_inflight : wk_inflight w' !! version = None;
}.

Lemma claim_ops now version (w : W) :
  queue_ok w ->
  let taken := take BATCH_DOCS (List.filter (claimable now Ingest version) (wk_ops w)) in
  claim_lane now Ingest version BATCH_DOCS w
  = (with_ops (map (fun o => if has_id taken o then set_claim (Some now) o else o)) w, map (set_claim (Some now)) taken)
  /\ NoDup (map op_id taken) /\ forall o, o ∈ taken -> o ∈ wk_ops w /\ in_lane Ingest version o = true.
Proof.
  intros [Hnd _]. cbn zeta. split; [|split].
  - unfold claim_lane. rewrite claim_rows_spec by (done || unfold BATCH_DOCS; lia). done.
  - eapply sublist_NoDup; [exact Hnd|]. apply ids_sublist. etrans; [apply sublist_take|apply filter_sublist].
  - intros o (i & Hi%list_elem_of_lookup_2%list_elem_of_In & _)%elem_of_take. apply filter_In in Hi as [Hi%list_elem_of_In Hc].
    split; [done|]. unfold claimable in Hc. by apply andb_true_iff in Hc as [? _].
Qed.

(** The rows a round claims, as they stand before and after the claim. *)
Section claimed.
Context (now : Z) (version : N) (w : W) (taken : list WikiPendingOp) (Hq : queue_ok w) (Hnd : NoDup (map op_id taken)).
Context (Htaken : forall o, o ∈ taken -> o ∈ wk_ops w /\ in_lane Ingest version o = true).
Notation claimed := (map (set_claim (Some now)) taken).
Notation ops0 := (map (fun o => if has_id taken o then set_claim (Some now) o else o) (wk_ops w)).

Lemma claimed_ids : map op_id claimed = map op_id taken.
Proof. by rewrite map_map. Qed.

Lemma ops0_ids : map op_id ops0 = map op_id (wk_ops w).
Proof. rewrite map_map. apply map_id_ext. intros o _. by case_match. Qed.

Lemma claimed_sub o : o ∈ claimed -> o ∈ ops0.
Proof.
  intros (t & -> & Ht)%list_elem_of_fmap. apply list_elem_of_fmap. exists t. split; [|by apply Htaken].
  replace (has_id taken t) with true; [done|]. symmetry. apply has_id_spec. by apply list_elem_of_fmap_2.
Qed.

Lemma filter_pushed pushed :
  Forall (fun o => in_lane Finalize version o = true) pushed ->
  List.filter (in_lane Ingest version) pushed = [] /\ List.filter (fun o => negb (in_lane Ingest version o)) pushed = pushed.
Proof.
  induction 1 as [|o l Ho _ [IH1 IH2]]; [done|]. cbn [List.filter]. unfold in_lane in *.
  apply andb_true_iff in Ho as [Ho%bool_decide_eq_true _]. rewrite Ho. cbn. by rewrite IH1, IH2.
Qed.

(** A tally without open rows gives the result of the round. *)
Lemma closed_settles wt sd gv (w2 w' : W) done_ids :
  Tally ops0 claimed (wj_documents (wk_job w)) (wk_op_seq w) wt sd gv [] w2 done_ids ->
  appends version (trim_ops done_ids w2) w' -> wk_inflight w' !! version = None ->
  claimed ≡ₚ wt ++ sd /\ exists pushed, Settles version w w' wt sd pushed.
Proof.
  intros Ht ((pushed & Hpush & Fpush) & Hdoc & Hqok) Hfl. destruct Hq as [Hqnd Hqle].
  assert (Hids : NoDup (map op_id ops0)) by by rewrite ops0_ids.
  assert (Hcnd : NoDup (map op_id claimed)) by by rewrite claimed_ids.
  assert (Hsplit : claimed ≡ₚ wt ++ sd) by (rewrite (tl_split _ _ _ _ _ _ _ _ _ _ Ht); by rewrite app_nil_r).
  assert (Hrows : wk_ops (trim_ops done_ids w2) = omap (fate wt sd) (wk_ops w)).
  { etrans; [eapply trim_tally; [exact Hids|exact claimed_sub|exact Hcnd| |exact Ht]|by apply fate_claimed].
    by intros o (t & -> & _)%list_elem_of_fmap. }
  split; [done|]. exists pushed. destruct (filter_pushed pushed Fpush) as [Hp1 Hp2]. split.
  - intros o Ho. by apply (tl_waiting _ _ _ _ _ _ _ _ _ _ Ht).
  - by rewrite Hpush, Hrows, List.filter_app, filter_omap_fate, Hp1, app_nil_r by done.
  - rewrite Hpush, Hrows, List.filter_app, Hp2. f_equal. apply filter_omap_keep; [done|]. intros o Ho Hl.
    rewrite <- (has_id_perm _ _ o Hsplit). apply not_true_iff_false. rewrite has_id_spec, claimed_ids.
    intros (t & He & Hin)%list_elem_of_fmap. destruct (Htaken t Hin) as [Hin' Hl'].
    by rewrite (NoDup_ids_eq _ _ _ Hqnd Ho Hin' He), Hl' in Hl.
  - done.
  - rewrite Hdoc. cbn [trim_ops wk_job with_ops]. apply (tl_docs _ _ _ _ _ _ _ _ _ _ Ht).
  - apply Hqok. split.
    + rewrite Hrows. eapply sublist_NoDup; [exact Hqnd|]. apply ids_omap_sublist, fate_id.
    + rewrite Hrows. apply Forall_forall. intros x (o & Ho & Hx)%list_elem_of_omap. rewrite Forall_forall in Hqle.
      specialize (Hqle o Ho). cbn [trim_ops wk_op_seq with_ops]. rewrite (tl_seq _ _ _ _ _ _ _ _ _ _ Ht).
      by rewrite (fate_id _ _ _ _ Hx).
  - done.
Qed.

Lemma round_settles model (w1 : W) r :
  wk_ops w1 = ops0 -> wk_op_seq w1 = wk_op_seq w -> wk_job w1 = wk_job w ->
  ingest_ops now version claimed {| rd_store := w1; rd_grouped := ∅; rd_done := []; rd_mapped := [] |} = Ok r ->
  exists waiting settled, claimed ≡ₚ waiting ++ settled
    /\ exists pushed, Settles version w (finish_round now version model r) waiting settled pushed.
Proof.
  intros Hops Hseq Hjob Hr.
  assert (Hids : NoDup (map op_id ops0)) by (rewrite ops0_ids; apply Hq).
  assert (Hcnd : NoDup (map op_id claimed)) by by rewrite claimed_ids.
  assert (Hinv : round_inv ops0 claimed (wj_documents (wk_job w)) (wk_op_seq w) (wk_inflight w1) [] r).
  { eapply ingest_ops_inv; [exact Hids|exact claimed_sub|exact Hcnd| |exact Hr]. exists [], [], [], [].
    split; [|done]. cbn [rd_store rd_done]. rewrite app_nil_r. split; try done; try (by intros ? ?%elem_of_nil).
    - rewrite Hops. cbn. by rewrite map_id.
    - by rewrite Hjob. }
  destruct Hinv as (waiting & settled & given & mapped & Ht & Hm & Hg & Hi).
  destruct (finish_round_trim now version model r _ Hg eq_refl) as (w2 & failed & Hw2 & Happ & Hfl).
  injection Hw2 as Ho2 Hs2 Hj2. cbn [app] in Ht.
  assert (Ht2 : Tally ops0 claimed (wj_documents (wk_job w)) (wk_op_seq w) waiting settled given mapped w2 (rd_done r)).
  { destruct Ht. split; try done; by rewrite ?Ho2, ?Hj2, ?Hs2. }
  destruct (settle_mapped_tally ops0 claimed _ _ Hids claimed_sub Hcnd failed (rd_mapped r) mapped _ _ _ _ _ Hm Ht2)
    as (_ & wt & sd & gv & Ht3).
  exists wt, sd. by eapply closed_settles.
Qed.
End claimed.
End round.

(** C11: A round of [process_ingest] that returns accounts for every row it claims.  For a version
    whose wiki is enabled and not in flight, whatever the model, the embeddings and the order of
    the maps are: the claimed rows are those that wait and those that are settled.  A waiting row
    is free again with one more failure, and only while it failed at most [MAX_FAIL_RETRIES]
    times; a settled row is gone and its document has one subtask less, exactly once, although
    both its map and its reduction may fail.  No other row changes, only finalize rows of the
    version are appended, the row numbers stay distinct and the version is not in flight. *)
Theorem process_ingest_settles {Value : Type} (sv : Services) (order : nat -> forall A : Type, list A -> list A)
    (embed_index : str -> result str (list f64)) (is_alphanumeric : char -> bool) (uuid_to_string : N -> str)
    (new_v4 : nat -> N) (payload : N -> N -> str -> Value) (task_id_of : Value -> option str)
    (Horder : order_law order) (now : Z) (version : N) (v : WikiVersion) (w w' : WikiStore Value)
    (Hq : queue_ok w) (Hv : wk_versions w !! version = Some v) (Hen : wv_wiki_enabled v = true)
    (Hfree : try_reserve now INFLIGHT_TTL_MS version (wk_inflight w) = true)
    (Hret : process_ingest sv order embed_index is_alphanumeric uuid_to_string new_v4 payload task_id_of now version w
            = (w', None)) :
  exists waiting settled,
    (claim_lane now Ingest version BATCH_DOCS w).2 ≡ₚ waiting ++ settled
    /\ exists pushed, Settles version w w' waiting settled pushed.
Proof.
  destruct (claim_ops now version w Hq) as (Hclaim & Hnd & Htaken).
  unfold process_ingest in Hret. rewrite Hv, Hen in Hret. unfold reserve_inflight in Hret. rewrite Hfree in Hret. cbn [negb] in Hret.
  destruct (claim_ops now version (with_inflight (insert version now) w) Hq) as (Hclaim1 & _ & _).
  rewrite Hclaim1 in Hret. rewrite Hclaim. cbn [snd]. change (wk_ops (with_inflight _ w)) with (wk_ops w) in Hret.
  set (taken := take BATCH_DOCS _) in *. destruct taken as [|t taken'] eqn:Et; cbn [map] in Hret.
  - injection Hret as <-. exists [], []. split; [done|]. exists []. destruct Hq as [Hq1 Hq2].
    set (w1 := release_inflight _ _). assert (Hops : wk_ops w1 = wk_ops w) by (etrans; [|apply map_id]; by apply map_id_ext).
    split; unfold queue_ok; rewrite ?Hops; try done.
    + by intros o Ho%elem_of_nil.
    + by induction (List.filter (in_lane Ingest version) (wk_ops w)) as [|o l IH]; [|cbn; f_equal].
    + by rewrite app_nil_r.
    + unfold w1. cbn [release_inflight with_inflight wk_inflight]. by rewrite lookup_delete_eq.
  - rewrite <- Et in *. change (set_claim (Some now) t :: map (set_claim (Some now)) taken') with (map (set_claim (Some now)) (t :: taken')) in Hret.
    rewrite <- Et in Hret. destruct (ingest_ops _ _ _ _ _ _ _) as [r|[w2 e]] eqn:Er; [|done]. injection Hret as <-.
    by eapply round_settles; [..|exact Er].
Qed.

(** ** A run on a small store *)

Section demo.
Definition demo_services : Services :=
  {| chat := fun _ _ => Err (u8"off"); chat_http_configured := false; to_lowercase := map to_ascii_lowercase;
     extraction_of_json := fun _ => None; citations_of_json := fun _ => None; assignments_of_json := fun _ => None;
     embed := fun _ => [] |}.
Definition demo_order (n : nat) (A : Type) (l : list A) : list A := l.
Definition demo_embed (s : str) : result str (list f64) := Ok [].
Definition demo_uuid (n : nat) : N := 1000 + N.of_nat n.
Definition demo_payload (version delay : N) (id : str) : str := id.

Definition demo_version : WikiVersion :=
  {| wv_wiki_enabled := true; wv_vector_enabled := true; wv_keyword_enabled := true; wv_synthesis_model := u8"m"; wv_summary_model := [] |}.

Definition demo_chunk (id document : N) (content : str) : Chunk :=
  {| c_id := id; c_document_id := document; c_version_id := 1; c_chunk_type := TEXT_CHUNK; c_content := content;
     c_context_header := []; c_start_at := 0; c_end_at := 20 |}.

(** Document 7 has text, document 8 has none and document 9 is being deleted. *)
Definition demo_store : WikiStore str :=
  {| wk_job := {| wj_documents := list_to_map [(7%N, (PFinalizing, 2%Z)); (8%N, (PFinalizing, 1%Z)); (9%N, (PFinalizing, 1%Z))];
                  wj_queue := []; wj_dead_letters := [] |};
     wk_titles := list_to_map [(7%N, u8"Alpha"); (8%N, u8"Beta"); (9%N, u8"Gamma")]; wk_versions := {[1%N := demo_version]};
     wk_chunks := {[71%N := demo_chunk 71 7 (u8"Alpha switches packets.")]}; wk_embeddings := ∅; wk_graph := ∅; wk_pages := ∅;
     wk_folders := ∅; wk_ops := []; wk_tombstones := ∅; wk_locks := ∅; wk_inflight := ∅; wk_op_seq := 0; wk_fresh := 0 |}.

Notation enqueue_ingest := (enqueue_ingest decimal demo_uuid demo_payload Some).
Notation enqueue_retract := (enqueue_retract decimal demo_uuid demo_payload Some).

Definition queued_store : WikiStore str :=
  enqueue_ingest 0 1 8 (enqueue_ingest 0 1 7 (enqueue_retract 0 1 9 (u8"Gamma") demo_store)).

Definition demo_process (now : Z) : WikiStore str -> WikiStore str * option str :=
  process_ingest demo_services demo_order demo_embed is_ascii_alphanumeric decimal demo_uuid demo_payload Some now 1.
End demo.

Lemma demo_order_law : order_law demo_order.
Proof. by intros n A l. Qed.

Lemma process_ingest_settles_witness :
  queue_ok queued_store
  /\ exists waiting settled, (claim_lane 10 Ingest 1 BATCH_DOCS queued_store).2 ≡ₚ waiting ++ settled
     /\ exists pushed, Settles 1 queued_store (demo_process 10 queued_store).1 waiting settled pushed.
Proof.
  assert (Hq : queue_ok queued_store) by (split; apply (bool_decide_unpack _); vm_compute; exact I).
  split; [exact Hq|].
  apply (process_ingest_settles demo_services demo_order demo_embed is_ascii_alphanumeric decimal demo_uuid demo_payload Some
    demo_order_law 10 1 demo_version queued_store _ Hq eq_refl eq_refl eq_refl).
  unfold demo_process. match goal with |- _ = (?x.1, None) => assert (E : x.2 = None) by (vm_compute; reflexivity) end.
  rewrite <- E. apply surjective_pairing.
Defined.
