(* ===== verification/WikiRetractFacts.v ===== *)
(** * A retract takes the document off every page

    The pages a document supports get a retract update, the documents that stay are mapped
    again, and what the reduction writes no longer names the document.  Filing, system pages
    and links keep it that way. *)
From S2P Require Import Prelude RustStr RustFloat StrReplace Linkify Pipeline Jobs Taxonomy.
From S2P Require Import Wiki WikiPages WikiFacts WikiQueueFacts.
Open Scope nat_scope.
#[local] Arguments lit : simpl never.

(** No page of the version refers to the document. *)
Definition clean {Value} (version did : N) (w : WikiStore Value) : Prop :=
  forall s p, wk_pages w !! (version, s) = Some p -> did ∉ wp_source_refs p.

(** The summary page of another document does not refer to the document. *)
Definition own_summaries {Value} (uuid_to_string : N -> str) (version did : N) (w : WikiStore Value) : Prop :=
  forall d p, d <> did -> wk_pages w !! (version, summary_slug uuid_to_string d) = Some p -> did ∉ wp_source_refs p.

(** ** Types of updates *)

Lemma is_retract_type type : str_eqb type RETRACT || str_eqb type RETRACT_STALE = true -> str_eqb type PAGE_SUMMARY = false.
Proof.
  intros [->%str_eqb_spec| ->%str_eqb_spec]%orb_true_iff; vm_compute; reflexivity.
Qed.

Section updates.
Context {Value : Type} (sv : Services) (order : nat -> forall A : Type, list A -> list A) (uuid_to_string : N -> str).
Context (Horder : order_law order).
Notation W := (WikiStore Value).
Notation map_document := (map_document sv order uuid_to_string).

(** Every update of a document names it, and only its summary update stands at a summary slug of its own. *)
Definition update_ok (did : N) (u : SlugUpdate) : Prop :=
  su_document_id u = did /\ (is_summary_update u = true -> su_slug u = summary_slug uuid_to_string did).

Lemma map_document_updates version did (w : W) updates :
  map_document version did w = Ok updates -> Forall (update_ok did) updates.
Proof.
  unfold WikiPages.map_document. destruct (wk_titles w !! did) as [title|]; [|by intros [= <-]].
  destruct (wk_versions w !! version) as [ver|]; [|by intros [= <-]]. cbv zeta.
  destruct (negb (wv_wiki_enabled ver) || _ || _); [by intros [= <-]|].
  set (language := document_language _). set (candidates := dedup_candidates _ _). set (body := assemble_body _).
  clearbody language candidates body. destruct (if chat_http_configured sv then _ else _) as [synthesized|e]; [|done].
  destruct (split_summary_line synthesized) as [lede sbody]. intros [= <-]. constructor; [done|]. apply Forall_app. split.
  - apply Forall_forall. intros u (c & -> & Hc)%list_elem_of_fmap. apply list_elem_of_In, filter_In in Hc as [_ Hc%negb_true_iff].
    split; [done|]. unfold is_summary_update. cbn [su_type candidate_update]. by rewrite Hc.
  - apply Forall_forall. intros u (old & _ & Hu)%list_elem_of_omap. unfold old_update in Hu.
    repeat case_match; simplify_eq; (split; [done|]); unfold is_summary_update; cbn [su_type update_of];
      rewrite is_retract_type; [done| |done|]; vm_compute; reflexivity.
Qed.

Lemma map_survivors_updates version (w : W) affected survivors updates :
  map_survivors sv order uuid_to_string version w affected survivors = Ok updates ->
  Forall (fun u => su_slug u ∈ affected /\ exists s, s ∈ survivors /\ update_ok s u) updates.
Proof.
  revert updates. induction survivors as [|s survivors IH]; intros updates; cbn [map_survivors]; [by intros [= <-]|].
  destruct (map_document version s w) as [us|] eqn:E; [|done]. destruct (map_survivors _ _ _ _ _ _ _) as [rest|]; [|done].
  intros [= <-]. apply Forall_app. split.
  - apply Forall_forall. intros u Hu%list_elem_of_In%filter_In. destruct Hu as [Hu%list_elem_of_In Ha]. split.
    + apply existsb_exists in Ha as (a & Ha%list_elem_of_In & ->%str_eqb_spec). done.
    + exists s. split; [set_solver|]. apply map_document_updates in E. by apply (Forall_forall _ us).
  - eapply Forall_impl; [by apply IH|]. cbn. intros u (? & s' & ? & ?). split; [done|]. exists s'. split; [set_solver|done].
Qed.

Lemma add_groups_lookup updates grouped s :
  add_groups grouped updates !! s
  = match default [] (grouped !! s) ++ List.filter (fun u => str_eqb (su_slug u) s) updates with
    | [] => grouped !! s | l => Some l end.
Proof.
  revert grouped. unfold add_groups. induction updates as [|u us IH]; intros grouped; cbn [foldl List.filter].
  - rewrite app_nil_r. by destruct (grouped !! s) as [[|]|].
  - rewrite IH. unfold add_group. destruct (str_eqb (su_slug u) s) eqn:E.
    + apply str_eqb_spec in E as <-. rewrite lookup_partial_alter_eq. change (default [] (Some ?l)) with l. rewrite <- app_assoc. cbn [app].
      by destruct (default [] (grouped !! su_slug u)).
    + assert (su_slug u <> s) by (intros He%str_eqb_spec; by rewrite He in E).
      by rewrite lookup_partial_alter_ne.
Qed.

Lemma affected_pages version did (w : W) p :
  pages_ok w -> p ∈ List.filter (refers_to did) (version_pages order 6 version w) <->
  wk_pages w !! (version, wp_slug p) = Some p /\ did ∈ wp_source_refs p.
Proof.
  intros Hok. rewrite list_elem_of_In, filter_In, <- list_elem_of_In, version_pages_lookup by done.
  unfold refers_to. rewrite existsb_exists. split; intros [H1 H2]; (split; [done|]).
  - destruct H2 as (d & Hd%list_elem_of_In & ->%N.eqb_eq). done.
  - exists did. split; [by apply list_elem_of_In|apply N.eqb_refl].
Qed.

(** Only the slugs of pages that the document supports get updates. *)
Lemma retract_slugs version op did (w : W) updates :
  pages_ok w -> op_document_id op = Some did -> retract_document_updates sv order uuid_to_string version op w = Ok updates ->
  forall s us, add_groups ∅ updates !! s = Some us -> exists p, wk_pages w !! (version, s) = Some p /\ did ∈ wp_source_refs p.
Proof.
  intros Hok Hop Hret s us Hus. unfold retract_document_updates in Hret. rewrite Hop in Hret. cbv zeta in Hret.
  set (pages := List.filter (refers_to did) _) in *. destruct (map_survivors _ _ _ _ _ _ _) as [rest|] eqn:E; [|done].
  injection Hret as <-. apply map_survivors_updates in E.
  assert (Hpage : s ∈ map wp_slug pages).
  { rewrite add_groups_lookup, lookup_empty in Hus. cbn [default app] in Hus. set (l := List.filter _ _) in Hus.
    destruct l as [|u l'] eqn:El; [done|]. assert (Hu : u ∈ l) by (rewrite El; set_solver).
    unfold l in Hu. apply list_elem_of_In, filter_In in Hu as [Hu%list_elem_of_In <-%str_eqb_spec].
    apply elem_of_app in Hu as [(p & -> & Hp)%list_elem_of_fmap|Hu]; [by apply (list_elem_of_fmap_2 wp_slug)|].
    rewrite Forall_forall in E. by destruct (E u Hu). }
  apply list_elem_of_fmap in Hpage as (p & -> & Hp). apply affected_pages in Hp as [Hp Hin]; [|done]. by exists p.
Qed.

(** The updates of a slug that the document supports. *)
Lemma retract_groups version op did (w : W) updates :
  pages_ok w -> own_summaries uuid_to_string version did w ->
  op_document_id op = Some did -> retract_document_updates sv order uuid_to_string version op w = Ok updates ->
  forall s p, wk_pages w !! (version, s) = Some p -> did ∈ wp_source_refs p ->
    exists us, add_groups ∅ updates !! s = Some us
    /\ (exists u, u ∈ us /\ is_retract u = true /\ su_document_id u = did)
    /\ Forall (fun u => is_summary_update u = false) us
    /\ Forall (fun u => is_addition u = true -> su_document_id u <> did) us.
Proof.
  intros Hok Hown Hop Hret s p Hp Hin. unfold retract_document_updates in Hret. rewrite Hop in Hret. cbv zeta in Hret.
  set (pages := List.filter (refers_to did) _) in *. set (survivors := order 7 N _) in *.
  destruct (map_survivors _ _ _ _ _ _ _) as [rest|] eqn:E; [|done]. injection Hret as <-. apply map_survivors_updates in E.
  set (stale := map _ pages). rewrite add_groups_lookup, lookup_empty. cbn [default app].
  destruct (pages_ok_lookup _ _ _ _ Hok Hp) as [Hv Hs].
  assert (Hstale : exists u, u ∈ stale /\ su_slug u = s /\ is_retract u = true /\ su_document_id u = did).
  { eexists. split; [apply list_elem_of_fmap; exists p; split; [done|]|split; [exact Hs|split; [vm_compute; reflexivity|done]]].
    unfold pages. apply affected_pages; [done|]. by rewrite Hs. }
  assert (Hall : Forall (fun u => su_slug u = s -> is_summary_update u = false /\ (is_addition u = true -> su_document_id u <> did))
                   (stale ++ rest)).
  { apply Forall_app. split.
    - apply Forall_forall. intros u (q & -> & _)%list_elem_of_fmap _. split; [vm_compute; reflexivity|]. intros Ha. exfalso.
      revert Ha. vm_compute. done.
    - eapply Forall_impl; [exact E|]. cbn. intros u (_ & d & Hd & Hdoc & Hsum) Hus.
      assert (Hne : d <> did).
      { unfold survivors in Hd. rewrite (Horder 7 _ _), elem_of_remove_dups, list_elem_of_In, filter_In in Hd.
        destruct Hd as [_ Hd%negb_true_iff%N.eqb_neq]. done. }
      split; [|by rewrite Hdoc]. apply not_true_iff_false. intros Hsm. apply (Hown d p Hne); [|done].
      by rewrite <- (Hsum Hsm), Hus. }
  set (us := List.filter _ (stale ++ rest)).
  assert (Hus : forall u, u ∈ us <-> u ∈ stale ++ rest /\ su_slug u = s).
  { intros u. unfold us. by rewrite list_elem_of_In, filter_In, <- list_elem_of_In, str_eqb_spec. }
  destruct Hstale as (u & Hu & Hslug & Hr & Hd).
  assert (Hmem : u ∈ us) by (apply Hus; split; [set_solver|done]). exists us. split; [by destruct us; [apply elem_of_nil in Hmem|]|].
  split; [by exists u|]. rewrite Forall_forall in Hall.
  split; apply Forall_forall; intros x [Hx Hxs]%Hus; by destruct (Hall x Hx Hxs).
Qed.
End updates.

(** ** The references of a reduced page *)

Lemma foldl_refs chunks additions m did :
  did ∉ mg_source_refs m -> Forall (fun u => su_document_id u <> did) additions ->
  did ∉ mg_source_refs (foldl (add_update chunks) m additions).
Proof.
  intros Hm Hadd. revert m Hm. induction Hadd as [|u us Hu _ IH]; intros m Hm; [done|]. cbn [foldl]. apply IH.
  cbn [add_update mg_source_refs]. unfold push_new. case_bool_decide; set_solver.
Qed.

Lemma run_reduce_job_refs sv model job patch did :
  run_reduce_job sv model job = Some patch ->
  (exists u, u ∈ rj_updates job /\ is_retract u = true /\ su_document_id u = did) ->
  Forall (fun u => is_summary_update u = false) (rj_updates job) ->
  Forall (fun u => is_addition u = true -> su_document_id u <> did) (rj_updates job) ->
  did ∉ rp_source_refs patch.
Proof.
  intros Hrun (u & Hu & Hr & Hd) Hsum Hadd. unfold run_reduce_job in Hrun.
  replace (List.filter is_summary_update (rj_updates job)) with (@nil SlugUpdate) in Hrun.
  2: { symmetry. clear -Hsum. induction Hsum as [|x l Hx _ IH]; [done|]. cbn. by rewrite Hx. }
  cbn [last] in Hrun. destruct (head _) as [first|]; [|done]. cbn in Hrun. destruct (reduce_page _ _). injection Hrun as <-.
  cbn [rp_source_refs]. apply foldl_refs.
  - cbn [merge_start mg_source_refs]. rewrite list_elem_of_In, filter_In. intros [_ H%negb_true_iff].
    apply not_true_iff_false in H. apply H, existsb_exists. exists u. split; [|by apply N.eqb_eq].
    apply filter_In. by rewrite <- list_elem_of_In.
  - rewrite Forall_forall in Hadd. apply Forall_forall. intros x [Hx%list_elem_of_In Ha]%list_elem_of_In%filter_In. by apply Hadd.
Qed.

(** ** Pages that stand where they belong and do not name the document *)

Definition good_page (version did : N) (k : N * str) (p : WikiPage) : Prop :=
  page_at k p /\ (k.1 = version -> did ∉ wp_source_refs p).
Definition pages_good {Value} (version did : N) (w : WikiStore Value) : Prop := map_Forall (good_page version did) (wk_pages w).

Lemma pages_good_spec {Value} version did (w : WikiStore Value) : pages_good version did w <-> pages_ok w /\ clean version did w.
Proof.
  split.
  - intros H. split; [intros k p Hp; by apply H|]. intros s p Hp. by apply (H _ _ Hp).
  - intros [Hok Hc] [v s] p Hp. split; [by apply Hok|]. cbn. intros ->. by apply (Hc s).
Qed.

(** A change of a page that keeps its place and its documents. *)
Definition harmless (f : WikiPage -> WikiPage) : Prop :=
  forall p, wp_version_id (f p) = wp_version_id p /\ wp_slug (f p) = wp_slug p /\ wp_source_refs (f p) = wp_source_refs p.

Lemma harmless_good version did f k p : harmless f -> good_page version did k p -> good_page version did k (f p).
Proof. intros Hf [[Hv Hs] Hc]. destruct (Hf p) as (H1 & H2 & H3). unfold good_page, page_at. by rewrite H1, H2, H3. Qed.

Section good.
Context {Value : Type} (sv : Services) (order : nat -> forall A : Type, list A -> list A)
  (embed_index : str -> result str (list f64)) (is_alphanumeric : char -> bool)
  (uuid_to_string : N -> str) (new_v4 : nat -> N) (version did : N).
Context (Horder : order_law order).
Notation W := (WikiStore Value).
Notation good := (pages_good (Value := Value) version did).

Lemma alter_good f k (w : W) : harmless f -> good w -> good (with_pages (alter f k) w).
Proof. intros Hf H. apply map_Forall_alter; [|done]. intros p. by apply harmless_good. Qed.

Lemma same_pages_good (w w' : W) : wk_pages w' = wk_pages w -> good w -> good w'.
Proof. unfold pages_good. by intros ->. Qed.

Lemma linkify_good (w w' : W) v : linkify_version order v w = Some w' -> good w -> good w'.
Proof.
  apply linkify_version_keeps. intros w1 s page next H Hp. apply map_Forall_put; [|done].
  apply (harmless_good version did (set_content next) (v, s) page); [by intros p|]. by apply H.
Qed.

Lemma sort_ids_elem x l : x ∈ sort_ids l -> x ∈ l.
Proof.
  unfold sort_ids. rewrite <- (sort_by_perm N.leb l) at 2. generalize (sort_by N.leb l) as k. induction k as [|y k IH]; [done|].
  destruct k as [|z k]; [done|]. cbn [dedup_ids]. destruct (y =? z)%N; set_solver.
Qed.

Lemma upsert_good v slug title content (w : W) :
  good w -> good (upsert_system_page sv order embed_index is_alphanumeric new_v4 v slug title content w).
Proof.
  intros H. pose proof H as [Hok Hc]%pages_good_spec. unfold upsert_system_page.
  assert (Hrefs : forall w1 : W, wk_pages w1 = wk_pages w -> v = version ->
    did ∉ sort_ids (concat (map wp_source_refs (List.filter (fun p => is_published p && negb (str_eqb (wp_slug p) slug))
      (version_pages order 13 v w1))))).
  { intros w1 Hw1 -> Hin%sort_ids_elem. apply list_elem_of_In, in_concat in Hin as (l & (p & <- & Hp)%in_map_iff & Hl%list_elem_of_In).
    apply filter_In in Hp as [Hp%list_elem_of_In _]. apply version_pages_lookup in Hp; [|done|by intros k q; rewrite Hw1; apply Hok].
    rewrite Hw1 in Hp. by apply (Hc _ _ Hp). }
  destruct (wk_pages w !! (v, slug)) as [p|];
    (eapply same_pages_good; [by etrans; [apply index_wiki_page_frame|]|]); cbn [wk_pages with_chunks with_pages];
    apply map_Forall_put; try done; (split; [done|]); cbn [fst wp_source_refs]; by apply Hrefs.
Qed.

Lemma rebuild_good v (w w' : W) :
  rebuild_pages sv order embed_index is_alphanumeric new_v4 v w = Some w' -> good w -> good w'.
Proof.
  unfold rebuild_pages. intros H Hg. eapply linkify_good; [exact H|]. clear H.
  assert (Hi : good (write_index_page sv order embed_index is_alphanumeric new_v4 v w)).
  { unfold write_index_page. apply alter_good; [by intros p|]. by apply upsert_good. }
  assert (Hl : good (write_log_page sv order embed_index is_alphanumeric new_v4 v (write_index_page sv order embed_index is_alphanumeric new_v4 v w)))
    by by apply upsert_good.
  unfold write_synthesis_pages. case_match; [done|]. by do 2 apply upsert_good.
Qed.

Lemma plan_good v slugs (w : W) : good w -> good (plan_and_apply_taxonomy sv order new_v4 v slugs w).
Proof.
  intros H. apply plan_and_apply_taxonomy_keeps; [..|done].
  - intros w1 i before path parent H1. eapply same_pages_good; [apply ensure_folders_frame|done].
  - intros w1 s path fid H1. apply alter_good; [|done]. intros p. by destruct (unfiled p).
Qed.

Lemma reduce_slug_good v op (w : W) : good w -> good (reduce_slug sv order embed_index is_alphanumeric new_v4 v op w).
Proof.
  intros H. destruct (reduce_slug_frame sv order embed_index is_alphanumeric new_v4 v op w) as [_ [Hp|Hp]].
  - by eapply same_pages_good.
  - unfold pages_good. rewrite Hp. apply (alter_good _ _ w); [|done]. intros p. by destruct (str_is_empty _).
Qed.

Lemma finalize_ops_good now v ops st :
  good st.1 -> good (foldl (finalize_op sv order embed_index is_alphanumeric uuid_to_string new_v4 now v) st ops).1.
Proof.
  revert st. induction ops as [|op ops IH]; intros [w b] H; cbn [foldl]; [done|]. apply IH. unfold finalize_op.
  destruct (bool_decide _ && _); [|done]. destruct (try_slug_lock _ _ _ _ _) as [w1|] eqn:E; [|done]. cbn [fst].
  unfold release_slug_lock. eapply same_pages_good; [done|]. apply reduce_slug_good. unfold try_slug_lock in E.
  destruct (try_reserve _ _ _ _); [|done]. injection E as <-. done.
Qed.

Lemma process_finalize_good payload task_id_of now v (w w' : W) :
  process_finalize sv order embed_index is_alphanumeric uuid_to_string new_v4 payload task_id_of now v w = Some w' ->
  good w -> good w'.
Proof.
  unfold process_finalize, claim_lane. destruct (claim_rows _ _ _ _ _) as [ops rows]. intros H Hg.
  destruct rows as [|o rows]; [by injection H as <-|].
  pose proof (finalize_ops_good now v (List.filter (fun o => negb (is_prune o)) (o :: rows)) (with_ops (fun _ => ops) w, false) Hg) as Hf.
  destruct (foldl _ _ _) as [w1 rebuild]. cbn [fst] in Hf.
  destruct (if rebuild then _ else _) as [w2|] eqn:E; [|done]. cbn [mbind option_bind] in H.
  assert (H2 : good w2) by (destruct rebuild; [by eapply rebuild_good|by injection E as <-]).
  destruct (map op_id (List.filter is_prune (o :: rows))) as [|i ids]; [by injection H as <-|].
  destruct (lane_live _ _ _); injection H as <-; [|exact H2].
  eapply same_pages_good; [|exact H2]. set (w3 := unclaim _ _).
  pose proof (schedule_trigger_frame uuid_to_string new_v4 payload task_id_of Finalize v LOCK_RETRY_SECS w3) as Hs. by injection Hs as -> _.
Qed.

(** The reduction of the groups of a retract. *)
Lemma reduced_good now model op updates (w w' : W) written failed :
  pages_ok w -> own_summaries uuid_to_string version did w -> (forall s, lock_free uuid_to_string now version w s = true) ->
  op_document_id op = Some did -> retract_document_updates sv order uuid_to_string version op w = Ok updates ->
  Reduced sv order uuid_to_string now version model (add_groups ∅ updates) w w' written failed -> good w'.
Proof.
  intros Hok Hown Hfree Hop Hret [_ Hwr _ (vl & Hpages) Hother _ _] [v s] p Hp.
  destruct (decide (v = version /\ s ∈ map fst written)) as [[-> Hs]|Hno].
  - destruct (proj1 (Hwr s) Hs) as [[us Hus] _]. destruct (Hpages s us Hus (Hfree s)) as (patch & Hrun & Hw).
    rewrite Hp in Hw. unfold written_as in Hw. destruct (rp_source_refs patch) as [|r refs] eqn:Er; [done|].
    destruct Hw as (q & [= <-] & Hpv & Hps & _ & _ & _ & _ & _ & _ & Hpr & _). apply run_reduce_job_slug in Hrun as Hslug.
    split; [split; cbn; [done|by rewrite Hps, Hslug]|]. intros _. rewrite Hpr.
    destruct (retract_slugs sv order uuid_to_string Horder version op did w updates Hok Hop Hret s us Hus) as (old & Eold & Hin).
    destruct (retract_groups sv order uuid_to_string Horder version op did w updates Hok Hown Hop Hret s old Eold Hin)
      as (us' & Hus' & H1 & H2 & H3). rewrite Hus in Hus'. injection Hus' as <-. by eapply run_reduce_job_refs.
  - rewrite Hother in Hp by (cbn; intros ->; intros H; by apply Hno). split; [by apply Hok|]. cbn. intros ->.
    intros Hin. destruct (retract_groups sv order uuid_to_string Horder version op did w updates Hok Hown Hop Hret s p Hp Hin)
      as (us & Hus & _). apply Hno. split; [done|]. apply Hwr. by rewrite Hus.
Qed.
End good.

(** ** The run *)

Section run.
Context {Value : Type} (sv : Services) (order : nat -> forall A : Type, list A -> list A)
  (embed_index : str -> result str (list f64)) (is_alphanumeric : char -> bool)
  (uuid_to_string : N -> str) (new_v4 : nat -> N) (payload : N -> N -> str -> Value) (task_id_of : Value -> option str).
Context (Horder : order_law order) (now : Z) (version did : N).
Notation W := (WikiStore Value).
Notation good := (pages_good (Value := Value) version did).

Lemma finish_round_good model r (w1 : W) written failed :
  reduce_grouped sv order embed_index is_alphanumeric uuid_to_string new_v4 now version model (rd_grouped r) (rd_store r)
    = (w1, written, failed) ->
  rd_mapped r = [] -> good w1 ->
  good (finish_round sv order embed_index is_alphanumeric uuid_to_string new_v4 payload task_id_of now version model r).
Proof.
  intros Hr Hm Hg. unfold finish_round. rewrite Hr, Hm. cbn [foldl]. cbv beta iota.
  assert (Hs : forall lane delay (x : W), good x -> good (schedule_live uuid_to_string new_v4 payload task_id_of lane version delay x)).
  { intros lane delay x Hx. unfold schedule_live. case_match; [|done]. eapply same_pages_good; [|exact Hx].
    pose proof (schedule_trigger_frame uuid_to_string new_v4 payload task_id_of lane version delay x) as Hf. by injection Hf as -> _. }
  eapply same_pages_good; [reflexivity|]. do 2 apply Hs. destruct written as [|x written]; [exact Hg|].
  assert (Hpush : forall l (x : W), good x -> good (foldl (push_written version) x l)).
  { intros l. induction l as [|y l IH]; intros z Hz; [done|]. cbn [foldl]. by apply IH. }
  eapply same_pages_good; [reflexivity|]. apply Hpush, plan_good. exact Hg.
Qed.

Lemma process_retract_good v op (w w' : W) :
  wk_ops w = [op] -> in_lane Ingest version op = true -> op_claimed_at op = None -> op_kind op = OpRetract ->
  op_document_id op = Some did -> wk_versions w !! version = Some v -> wv_wiki_enabled v = true ->
  wk_inflight w !! version = None -> pages_ok w -> own_summaries uuid_to_string version did w ->
  (forall s, lock_free uuid_to_string now version w s = true) ->
  process_ingest sv order embed_index is_alphanumeric uuid_to_string new_v4 payload task_id_of now version w = (w', None) ->
  good w'.
Proof.
  intros Hops Hlane Hat Hkind Hdoc Hv Hen Hfl Hok Hown Hfree. unfold process_ingest, reserve_inflight, try_reserve.
  rewrite Hv, Hen, Hfl. cbn [negb]. set (w1 := with_inflight _ w).
  assert (Hclaim : claim_lane now Ingest version BATCH_DOCS w1 = (with_ops (fun _ => [set_claim (Some now) op]) w1, [set_claim (Some now) op])).
  { unfold claim_lane, w1. cbn [wk_ops with_inflight]. rewrite Hops. cbn [claim_rows]. unfold reclaimable. by rewrite Hlane, Hat. }
  rewrite Hclaim. set (w2 := with_ops _ w1). cbn [ingest_ops]. unfold ingest_op. cbn [op_kind set_claim]. rewrite Hkind. cbn [rd_store].
  destruct (retract_document_updates _ _ _ _ _ w2) as [updates|e] eqn:Er; [|done]. cbn [rd_grouped rd_done rd_mapped].
  set (r := Build_Round _ _ _ _). intros [= <-].
  destruct (reduce_grouped sv order embed_index is_alphanumeric uuid_to_string new_v4 now version (wiki_chat_model v) (rd_grouped r) (rd_store r))
    as [[w3 written] failed] eqn:Eg.
  eapply finish_round_good; [exact Eg|done|].
  pose proof (reduce_grouped_reduced sv order embed_index is_alphanumeric uuid_to_string new_v4 Horder now version (wiki_chat_model v)
    (rd_grouped r) (rd_store r) ltac:(by apply add_groups_nonempty)) as Hred.
  rewrite Eg in Hred. destruct Hred as [Hred _]. eapply reduced_good; [done| | | | | |exact Hred]; [exact Hok|exact Hown|exact Hfree| |exact Er].
  done.
Qed.
End run.

(** C13: A retract run that succeeds takes the document off every page.  The run starts from a
    store with no pending operation, no lock and no mark, as it is loaded from the database, in
    which every page stands under its version and slug and the summary page of another document
    does not name the document.  Whatever the model answers and in whatever order the maps are
    iterated and the workers finish: when [run_wiki_job] returns without an error, no page of the
    version, the rebuilt index, log, synthesis and comparison included, refers to the document. *)
Theorem retract_run_clean {Value : Type} (sv : Services) (order : nat -> forall A : Type, list A -> list A)
    (embed_index : str -> result str (list f64)) (is_alphanumeric : char -> bool) (uuid_to_string : N -> str)
    (new_v4 : nat -> N) (payload : N -> N -> str -> Value) (task_id_of : Value -> option str)
    (Horder : order_law order) (now : Z) (version did : N) (attempt : Z) (v : WikiVersion) (w w' : WikiStore Value)
    (Hops : wk_ops w = []) (Hlocks : wk_locks w = ∅) (Hfl : wk_inflight w !! version = None)
    (Hv : wk_versions w !! version = Some v) (Hen : wv_wiki_enabled v = true)
    (Hok : pages_ok w) (Hown : own_summaries uuid_to_string version did w)
    (Hrun : run_wiki_job sv order embed_index is_alphanumeric uuid_to_string new_v4 payload task_id_of now version did
              RunRetract attempt w = Some (w', None)) :
  clean version did w' /\ pages_ok w'.
Proof.
  unfold run_wiki_job in Hrun. change (bool_decide (RunRetract = RunIngest)) with false in Hrun. cbn [andb] in Hrun.
  rewrite some_bind in Hrun. cbv beta iota zeta in Hrun.
  set (w1 := enqueue_retract _ _ _ _ _ _ _ _ _) in Hrun. unfold enqueue_retract in w1.
  set (w0 := push_op _ _ _ _ _ _ _) in w1.
  pose proof (schedule_trigger_frame uuid_to_string new_v4 payload task_id_of Ingest version RETRACT_DEBOUNCE_SECS w0) as Hs.
  fold w1 in Hs. injection Hs as Hp1 Hv1 Ho1 Hl1 Hi1 Ht1 Hs1 _.
  assert (Hw0 : exists op, wk_ops w0 = [op] /\ in_lane Ingest version op = true /\ op_claimed_at op = None /\ op_kind op = OpRetract
                  /\ op_document_id op = Some did).
  { eexists. split; [unfold w0, push_op; cbn; rewrite Hops; reflexivity|]. repeat split. unfold in_lane. cbn. apply N.eqb_refl. }
  destruct Hw0 as (op & Hop0 & Hlane & Hat & Hkind & Hdoc). unfold ingest_and_finalize in Hrun.
  destruct (process_ingest _ _ _ _ _ _ _ _ _ _ w1) as [w2 [e|]] eqn:E1; [by rewrite some_bind in Hrun|].
  assert (Hg2 : pages_good version did w2).
  { eapply (process_retract_good sv order embed_index is_alphanumeric uuid_to_string new_v4 payload task_id_of Horder now version did v op w1);
      [by rewrite Ho1|done..|by rewrite Hv1|done|by rewrite Hi1| | | |exact E1].
    - intros k p. rewrite Hp1. apply Hok.
    - intros d p Hd. rewrite Hp1. by apply Hown.
    - intros s. unfold lock_free, try_reserve. rewrite Hl1. unfold w0. cbn. by rewrite Hlocks, lookup_empty. }
  destruct (process_finalize _ _ _ _ _ _ _ _ _ _ w2) as [w3|] eqn:E2; [|done]. rewrite !some_bind in Hrun.
  assert (Hg3 : pages_good version did w3) by by eapply process_finalize_good.
  destruct (wk_ops w3); [|done]. injection Hrun as <-. apply pages_good_spec in Hg3 as [? ?]. done.
Qed.

(** ** A run on a small store *)

Definition demo_page (id : N) (slug title type : str) (sources : list N) : WikiPage :=
  {| wp_id := id; wp_version_id := 1; wp_slug := slug; wp_title := title; wp_content := heading title; wp_page_type := type;
     wp_status := Published; wp_summary := title; wp_aliases := []; wp_source_refs := sources; wp_chunk_refs := [];
     wp_category_path := []; wp_folder_id := None |}.

(** The entity page has two documents, of which document 7 still names the entity; the summary
    page has only the deleted one. *)
Definition paged_store : WikiStore str :=
  {| wk_job := wk_job demo_store; wk_titles := wk_titles demo_store; wk_versions := wk_versions demo_store;
     wk_chunks := wk_chunks demo_store; wk_embeddings := ∅;
     wk_graph := {[(1%N, 7%N, u8"Alpha") := {| gn_version_id := 1; gn_document_id := 7; gn_name := u8"Alpha"; gn_chunk_ids := [71%N] |}]};
     wk_pages := list_to_map [((1%N, u8"entity/alpha"), demo_page 31 (u8"entity/alpha") (u8"Alpha") PAGE_ENTITY [7%N; 9%N]);
                              ((1%N, summary_slug decimal 9), demo_page 32 (summary_slug decimal 9) (u8"Gamma") PAGE_SUMMARY [9%N])];
     wk_folders := ∅; wk_ops := []; wk_tombstones := ∅; wk_locks := ∅; wk_inflight := ∅; wk_op_seq := 0; wk_fresh := 0 |}.

Notation demo_run :=
  (run_wiki_job demo_services demo_order demo_embed is_ascii_alphanumeric decimal demo_uuid demo_payload Some 10 1 9 RunRetract 1 paged_store).

(** The pages after the run with the documents they name. *)
Definition demo_refs (r : option (WikiStore str * option str)) : list (str * list N) :=
  match r with Some (w, None) => map (fun kp => (kp.1.2, wp_source_refs kp.2)) (map_to_list (wk_pages w)) | _ => [] end.

(** The entity page stays with document 7. *)
Example demo_run_refs :
  demo_refs demo_run = [(PAGE_INDEX, [7%N]); (PAGE_LOG, [7%N]); (u8"entity/alpha", [7%N])].
Proof. vm_compute. reflexivity. Qed.

Definition run_store (r : option (WikiStore str * option str)) : WikiStore str :=
  match r with Some (w, _) => w | None => paged_store end.

Lemma run_store_spec r : option_map snd r = Some None -> r = Some (run_store r, None).
Proof. destruct r as [[w e]|]; [|done]. by intros [= ->]. Qed.

Lemma paged_store_ok : pages_ok paged_store.
Proof. apply (bool_decide_unpack _). vm_compute. exact I. Qed.

Lemma paged_store_summaries : own_summaries decimal 1 9 paged_store.
Proof.
  intros d p Hd Hp. cbn [paged_store wk_pages] in Hp. apply elem_of_list_to_map_2 in Hp.
  apply elem_of_cons in Hp as [Hp|Hp]; [by apply pair_equal_spec in Hp as [Hp _]|].
  apply list_elem_of_singleton, pair_equal_spec in Hp as [Hp _]. injection Hp as Hp%(inj decimal). done.
Qed.

Lemma retract_run_clean_witness :
  demo_run = Some (run_store demo_run, None) /\ clean 1 9 (run_store demo_run) /\ pages_ok (run_store demo_run).
Proof.
  assert (E : demo_run = Some (run_store demo_run, None)) by (apply run_store_spec; vm_compute; reflexivity).
  split; [exact E|].
  exact (retract_run_clean demo_services demo_order demo_embed is_ascii_alphanumeric decimal demo_uuid demo_payload Some
    demo_order_law 10 1 9 1 demo_version paged_store _ eq_refl eq_refl eq_refl eq_refl eq_refl paged_store_ok
    paged_store_summaries E).
Defined.
