(* ===== verification/WikiFolderFacts.v ===== *)
(** * The folders of the wiki form a forest

    [ensure_folder_path] adds the folders of a path that are missing and [prune_empty_folders]
    keeps the folders on the way to a page; both keep every folder under its parent. *)
From S2P Require Import Prelude RustStr RustFloat StrReplace Linkify Pipeline Jobs Taxonomy.
From S2P Require Import Wiki WikiPages WikiFacts WikiQueueFacts.
Open Scope nat_scope.

Notation Folders := (gmap N WikiFolder).

(** A folder stands under its number; its path is its name, below the path of its parent, which
    is a folder of the same version. *)
Definition parent_ok (fs : Folders) (f : WikiFolder) : Prop :=
  match wf_parent_id f with
  | None => wf_path f = wf_name f
  | Some pid => exists g, fs !! pid = Some g /\ wf_version_id g = wf_version_id f
                          /\ wf_path f = wf_path g ++ SLASH_STR ++ wf_name f
  end.

Record folder_tree (version : N) (fs : Folders) : Prop := {
  ft_id : forall id f, fs !! id = Some f -> wf_id f = id;
  ft_parent : forall id f, fs !! id = Some f -> wf_version_id f = version -> parent_ok fs f;
  ft_once : forall i j f g, fs !! i = Some f -> fs !! j = Some g -> wf_version_id f = version -> wf_version_id g = version ->
    wf_path f = wf_path g -> i = j;
}.

Lemma join_snoc sep (l : list str) x : l <> [] -> join sep (l ++ [x]) = join sep l ++ sep ++ x.
Proof.
  induction l as [|y l IH]; [done|]. intros _. destruct l as [|z l]; [done|].
  change (join sep ((y :: z :: l) ++ [x])) with (y ++ sep ++ join sep ((z :: l) ++ [x])).
  rewrite IH by done. change (join sep (y :: z :: l)) with (y ++ sep ++ join sep (z :: l)). by rewrite <- !app_assoc.
Qed.

Lemma path_text_snoc path name : path_text (path ++ [name]) = match path with [] => name | _ => path_text path ++ SLASH_STR ++ name end.
Proof. destruct path as [|x path]; [done|]. by apply join_snoc. Qed.

Section ensure.
Context {Value : Type} (order : nat -> forall A : Type, list A -> list A) (new_v4 : nat -> N) (version : N).
Context (Horder : order_law order) (Hinj : Inj (=) (=) new_v4).
Notation W := (WikiStore Value).

(** The numbers still to be drawn are not used. *)
Definition fresh_ids (w : W) : Prop := forall n, wk_fresh w <= n -> wk_folders w !! new_v4 n = None.

(** The folder that the walk stands in. *)
Definition at_folder (before : list str) (parent : option N) (w : W) : Prop :=
  match before, parent with
  | [], None => True
  | _ :: _, Some id => exists f, wk_folders w !! id = Some f /\ wf_version_id f = version /\ wf_path f = path_text before
  | _, _ => False
  end.

Lemma tree_insert (w : W) before parent name :
  folder_tree version (wk_folders w) -> fresh_ids w -> at_folder before parent w ->
  (forall id f, wk_folders w !! id = Some f -> wf_version_id f = version -> wf_path f <> path_text (before ++ [name])) ->
  let id := new_v4 (wk_fresh w) in
  folder_tree version (<[id := folder_with id version parent name (path_text (before ++ [name])) (length before)]> (wk_folders w)).
Proof.
  intros [Hid Hpar Honce] Hfresh Hat Hnew. cbn zeta. set (id := new_v4 (wk_fresh w)). set (f0 := folder_with _ _ _ _ _ _).
  assert (Hno : wk_folders w !! id = None) by (by apply Hfresh).
  assert (Hkeep : forall f, wk_folders w !! id <> Some f) by (intros f; by rewrite Hno).
  assert (Hp : forall f, parent_ok (wk_folders w) f -> parent_ok (<[id := f0]> (wk_folders w)) f).
  { intros f. unfold parent_ok. destruct (wf_parent_id f) as [pid|]; [|done]. intros (g & Hg & H). exists g. split; [|done].
    rewrite lookup_insert_ne; [done|]. intros ->. by apply (Hkeep g). }
  split.
  - intros i f. destruct (decide (i = id)) as [->|Hne]; rewrite ?lookup_insert_eq, ?lookup_insert_ne by done; [by intros [= <-]|apply Hid].
  - intros i f. destruct (decide (i = id)) as [->|Hne]; rewrite ?lookup_insert_eq, ?lookup_insert_ne by done.
    + intros [= <-] _. apply Hp. unfold parent_ok. cbn [f0 folder_with wf_parent_id wf_path wf_name wf_version_id].
      rewrite path_text_snoc. destruct before as [|b before], parent as [pid|]; try done.
      destruct Hat as (g & Hg & Hv & Hpath). exists g. by rewrite Hpath.
    + intros Hf Hv. by eapply Hp, Hpar.
  - intros i j f g. destruct (decide (i = id)) as [->|Hi], (decide (j = id)) as [->|Hj]; try done;
      rewrite ?lookup_insert_eq, ?lookup_insert_ne by done.
    + intros [= <-] Hg _ Hv He. by destruct (Hnew j g Hg Hv).
    + intros Hf [= <-] Hv _ He. by destruct (Hnew i f Hf Hv).
    + apply Honce.
Qed.

Lemma ensure_folders_tree i before path parent (w : W) :
  i = length before -> folder_tree version (wk_folders w) -> fresh_ids w -> at_folder before parent w ->
  let '(w', last) := ensure_folders order new_v4 version i before path parent w in
  folder_tree version (wk_folders w') /\ fresh_ids w' /\ wk_folders w ⊆ wk_folders w' /\ at_folder (before ++ path) last w'.
Proof.
  revert i before parent w. induction path as [|name path IH]; intros i before parent w -> Ht Hf Hat; cbn [ensure_folders].
  - by rewrite app_nil_r.
  - set (joined := path_text (before ++ [name])). destruct (find _ _) as [f|] eqn:E.
    + apply find_some in E as [Hin%list_elem_of_In He]. apply values_lookup in Hin as (k & Hk); [|done].
      apply andb_true_iff in He as [Hv%N.eqb_eq Hp%str_eqb_spec].
      assert (Hat' : at_folder (before ++ [name]) (Some (wf_id f)) w).
      { unfold at_folder. destruct (before ++ [name]) eqn:Eb; [by destruct before|]. exists f.
        rewrite (ft_id _ _ Ht k f Hk). split; [exact Hk|]. split; [exact Hv|exact Hp]. }
      pose proof (IH (S (length before)) (before ++ [name]) (Some (wf_id f)) w ltac:(rewrite length_app; cbn; lia) Ht Hf Hat') as H.
      rewrite <- app_assoc in H. exact H.
    + set (id := new_v4 (wk_fresh w)). set (f0 := folder_with id version parent name joined (length before)).
      set (w1 := with_folders (insert id f0) (next_uuid w)).
      assert (Ht1 : folder_tree version (wk_folders w1)).
      { apply (tree_insert w before parent name); try done. intros k f Hk Hv Hp.
        assert (Hin : f ∈ values order 17 (wk_folders w)) by (apply values_lookup; [done|by exists k]).
        pose proof (find_none _ _ E f (proj1 (list_elem_of_In _ _) Hin)) as Hn. cbn in Hn.
        by rewrite Hv, N.eqb_refl, Hp, (proj2 (str_eqb_spec _ _) eq_refl) in Hn. }
      assert (Hf1 : fresh_ids w1).
      { intros n Hn. cbn [w1 with_folders next_uuid wk_folders wk_fresh] in *. rewrite lookup_insert_ne; [apply Hf; lia|].
        intros H%(inj new_v4). lia. }
      assert (Hat1 : at_folder (before ++ [name]) (Some id) w1).
      { unfold at_folder. destruct (before ++ [name]) eqn:Eb; [by destruct before|]. exists f0. unfold w1.
        cbn [with_folders wk_folders]. rewrite lookup_insert_eq. split; [done|]. split; [done|]. done. }
      pose proof (IH (S (length before)) (before ++ [name]) (Some id) w1 ltac:(rewrite length_app; cbn; lia) Ht1 Hf1 Hat1) as H.
      rewrite <- app_assoc in H. destruct (ensure_folders _ _ _ _ _ _ _ _) as [w' last]. destruct H as (H1 & H2 & H3 & H4).
      split; [done|]. split; [done|]. split; [|done]. etrans; [|exact H3]. apply insert_subseteq. by apply Hf.
Qed.
End ensure.

(** ** Pruning *)

Definition slash_free (s : str) : Prop := 47%Z ∉ s.

Lemma first_separator {A} (c : A) n m a b : n ++ c :: a = m ++ c :: b -> c ∉ n -> c ∉ m -> n = m /\ a = b.
Proof.
  revert m. induction n as [|x n IH]; intros [|y m] H Hn Hm; cbn [app] in H.
  - by injection H as ->.
  - injection H as -> _. set_solver.
  - injection H as -> _. set_solver.
  - injection H as -> H. destruct (IH m H) as [-> ->]; [set_solver..|done].
Qed.

Lemma last_slash a b n m : a ++ SLASH_STR ++ n = b ++ SLASH_STR ++ m -> slash_free n -> slash_free m -> a = b /\ n = m.
Proof.
  intros H Hn Hm. apply (f_equal reverse) in H. change SLASH_STR with [47%Z] in H. rewrite !reverse_app, !reverse_singleton in H.
  rewrite <- !app_assoc in H. cbn [app] in H. apply first_separator in H as [H1 H2]; [|by rewrite elem_of_reverse..].
  by apply (inj reverse) in H1, H2.
Qed.

(** The paths on the way to a page of the version. *)
Definition on_a_page (version : N) {Value} (w : WikiStore Value) (path : str) : Prop :=
  exists k p n, wk_pages w !! k = Some p /\ wp_version_id p = version /\ 1 <= n <= length (wp_category_path p)
                /\ path = path_text (take n (wp_category_path p)).

(** Names and category labels without a slash. *)
Definition plain_names {Value} (version : N) (w : WikiStore Value) : Prop :=
  (forall id f, wk_folders w !! id = Some f -> wf_version_id f = version -> slash_free (wf_name f))
  /\ (forall k p, wk_pages w !! k = Some p -> wp_version_id p = version -> Forall slash_free (wp_category_path p)).

Section prune.
Context {Value : Type} (order : nat -> forall A : Type, list A -> list A) (version : N) (Horder : order_law order).
Notation W := (WikiStore Value).

Lemma used_paths_spec (w : W) path : path ∈ used_paths order version w <-> on_a_page version w path.
Proof.
  unfold used_paths, on_a_page. rewrite list_elem_of_In, in_concat. split.
  - intros (l & (p & <- & Hp)%in_map_iff & (n & <- & Hn)%in_map_iff). unfold version_pages in Hp.
    apply filter_In in Hp as [Hp%list_elem_of_In Hv%N.eqb_eq]. apply values_lookup in Hp as (k & Hk); [|done].
    apply in_seq in Hn. exists k, p, n. split; [done|]. split; [done|]. split; [lia|done].
  - intros (k & p & n & Hk & Hv & Hn & ->). eexists. split; [apply in_map_iff; exists p; split; [done|]|].
    + unfold version_pages. apply filter_In. split; [|by apply N.eqb_eq]. apply list_elem_of_In, values_lookup; [done|by exists k].
    + apply in_map_iff. exists n. split; [done|]. apply in_seq. lia.
Qed.

Lemma prune_lookup (w : W) id f :
  wk_folders (prune_empty_folders order version w) !! id = Some f
  <-> wk_folders w !! id = Some f /\ (wf_version_id f <> version \/ on_a_page version w (wf_path f)).
Proof.
  unfold prune_empty_folders, retain. cbn [wk_folders with_folders]. rewrite map_lookup_filter_Some. cbn [snd].
  rewrite orb_true_iff, negb_true_iff, N.eqb_neq. rewrite existsb_exists, <- used_paths_spec.
  split; (intros [H1 [H2|H2]]; split; [done|by left|done|right]).
  - destruct H2 as (p & Hp%list_elem_of_In & ->%str_eqb_spec). done.
  - exists (wf_path f). split; [by apply list_elem_of_In|by apply str_eqb_spec].
Qed.

(** A folder on the way to a page has its parent there too. *)
Lemma parent_on_a_page (w : W) path name :
  plain_names version w -> slash_free name -> on_a_page version w (path ++ SLASH_STR ++ name) -> on_a_page version w path.
Proof.
  intros [_ Hplain] Hname (k & p & n & Hk & Hv & Hn & Hpath). specialize (Hplain k p Hk Hv).
  destruct n as [|n]; [lia|]. destruct (lookup_lt_is_Some_2 (wp_category_path p) n ltac:(lia)) as [label Hl].
  rewrite (take_S_r _ _ label Hl), path_text_snoc in Hpath.
  assert (Hlabel : slash_free label) by (eapply Forall_lookup_1; [exact Hplain|exact Hl]).
  destruct (take n (wp_category_path p)) as [|x l] eqn:Et.
  - exfalso. apply Hlabel. rewrite <- Hpath, !elem_of_app. right. left. set_solver.
  - apply last_slash in Hpath as [-> _]; [|done..]. exists k, p, n. split; [done|]. split; [done|]. rewrite Et.
    split; [|done]. destruct n; [done|lia].
Qed.

Lemma prune_tree (w : W) :
  folder_tree version (wk_folders w) -> plain_names version w ->
  folder_tree version (wk_folders (prune_empty_folders order version w)).
Proof.
  intros [Hid Hpar Honce] Hplain. split.
  - intros id f [Hf _]%prune_lookup. by apply Hid.
  - intros id f [Hf [Hv|Hu]]%prune_lookup Hv'; [done|]. pose proof (Hpar id f Hf Hv') as Hp. unfold parent_ok in *.
    destruct (wf_parent_id f) as [pid|]; [|done]. destruct Hp as (g & Hg & Hgv & Hpath). exists g. split; [|done].
    apply prune_lookup. split; [done|]. right. rewrite Hpath in Hu. eapply parent_on_a_page; [done| |exact Hu].
    by apply (proj1 Hplain id f).
  - intros i j f g [Hf _]%prune_lookup [Hg _]%prune_lookup. by apply Honce.
Qed.
End prune.

(** C34: The folders of a version stay a forest: every folder stands under its number, its path is
    that of its parent, a slash and its name, and no path occurs twice.  [ensure_folder_path]
    with fresh identifiers keeps the folders it finds, adds what is missing and returns the
    folder of the path; [prune_empty_folders] keeps exactly the folders on the way to a page and,
    when names and category labels have no slash, never a folder without its parent. *)
Theorem folders_stay_a_forest {Value : Type} (order : nat -> forall A : Type, list A -> list A) (new_v4 : nat -> N)
    (version : N) (Horder : order_law order) (Hinj : Inj (=) (=) new_v4) (w : WikiStore Value)
    (Htree : folder_tree version (wk_folders w)) (Hfresh : fresh_ids new_v4 w) :
  (forall path, path <> [] ->
     let '(w', last) := ensure_folder_path order new_v4 version path w in
     folder_tree version (wk_folders w') /\ fresh_ids new_v4 w' /\ wk_folders w ⊆ wk_folders w'
     /\ exists id f, last = Some id /\ wk_folders w' !! id = Some f /\ wf_version_id f = version /\ wf_path f = path_text path)
  /\ (forall id f, wk_folders (prune_empty_folders order version w) !! id = Some f
        <-> wk_folders w !! id = Some f /\ (wf_version_id f <> version \/ on_a_page version w (wf_path f)))
  /\ (plain_names version w -> folder_tree version (wk_folders (prune_empty_folders order version w))).
Proof.
  split; [|split].
  - intros path Hne. unfold ensure_folder_path.
    pose proof (ensure_folders_tree order new_v4 version Horder Hinj 0 [] path None w eq_refl Htree Hfresh I) as H.
    destruct (ensure_folders _ _ _ _ _ _ _ _) as [w' last]. destruct H as (H1 & H2 & H3 & H4). cbn [app] in H4.
    split; [done|]. split; [done|]. split; [done|]. destruct path as [|x path]; [done|]. destruct last as [id|]; [|done].
    destruct H4 as (f & Hf & Hv & Hp). by exists id, f.
  - intros id f. by apply prune_lookup.
  - by apply prune_tree.
Qed.

(** ** Two paths with a common start *)

#[local] Instance demo_uuid_inj : Inj (=) (=) demo_uuid.
Proof. intros a b H. unfold demo_uuid in H. lia. Qed.

Definition add_path (path : list str) (w : WikiStore str) : WikiStore str := (ensure_folder_path demo_order demo_uuid 1 path w).1.
Definition folder_store : WikiStore str := add_path [u8"Entities"; u8"A"] demo_store.

Example folder_paths :
  map (fun f => (wf_path f, wf_parent_id f)) (values demo_order 0 (wk_folders (add_path [u8"Entities"; u8"B"] folder_store)))
  = [(u8"Entities/B", Some 1000%N); (u8"Entities", None); (u8"Entities/A", Some 1000%N)].
Proof. vm_compute. reflexivity. Qed.

Lemma demo_fresh : fresh_ids demo_uuid demo_store.
Proof. intros n _. apply lookup_empty. Qed.

Lemma demo_tree : folder_tree 1 (wk_folders demo_store).
Proof. split; intros *; cbn [demo_store wk_folders]; by rewrite lookup_empty. Qed.

Lemma folders_stay_a_forest_witness :
  folder_tree 1 (wk_folders folder_store)
  /\ folder_tree 1 (wk_folders (add_path [u8"Entities"; u8"B"] folder_store))
  /\ wk_folders folder_store ⊆ wk_folders (add_path [u8"Entities"; u8"B"] folder_store)
  /\ forall id f, wk_folders (prune_empty_folders demo_order 1 folder_store) !! id = Some f
       <-> wk_folders folder_store !! id = Some f /\ (wf_version_id f <> 1%N \/ on_a_page 1 folder_store (wf_path f)).
Proof.
  destruct (folders_stay_a_forest demo_order demo_uuid 1 demo_order_law demo_uuid_inj demo_store demo_tree demo_fresh) as (H & _ & _).
  specialize (H [u8"Entities"; u8"A"] ltac:(discriminate)). unfold folder_store, add_path.
  destruct (ensure_folder_path demo_order demo_uuid 1 [u8"Entities"; u8"A"] demo_store) as [w1 l1]. destruct H as (Ht & Hf & _).
  cbn [fst]. split; [exact Ht|].
  destruct (folders_stay_a_forest demo_order demo_uuid 1 demo_order_law demo_uuid_inj w1 Ht Hf) as (H & Hp & _).
  specialize (H [u8"Entities"; u8"B"] ltac:(discriminate)).
  destruct (ensure_folder_path demo_order demo_uuid 1 [u8"Entities"; u8"B"] w1) as [w2 l2]. destruct H as (Ht2 & _ & Hs & _).
  split; [exact Ht2|]. split; [exact Hs|exact Hp].
Defined.
